(* ===== verification/_CoqProject ===== *)
-Q . S2P
Prelude.v
GoText.v
SeqNum.v
Sack.v
Bitmap.v
Crypto.v
KeyStore.v
Protocol.v
Envelope.v
KeyExchange.v
KeyExchangeProofs.v
KeyExchangeStages.v
Rekey.v
Conn.v
Sender.v
SenderProofs.v
Reassembly.v
ReassemblyProofs.v
SackBlocks.v
PortManager.v
Routing.v
Stream.v
Writer.v
Endpoint.v
EndpointProofs.v
EndToEnd.v
StreamTheorems.v
Float64.v
Admission.v
Accept.v
AcceptProofs.v
Dial.v
Sweep.v
BeaconSelect.v
Tunnel.v
TunnelProofs.v
TunnelTheorems.v
Registry.v
RegistryProofs.v
RxWatchdog.v
RxWatchdogProofs.v
AddrWatch.v
AddrWatchProofs.v
HandshakePoll.v
HandshakePollProofs.v
NetIP.v
Resolve.v
ResolveProofs.v
PathWatch.v
PathWatchProofs.v
Json.v
Managed.v
ManagedProofs.v
Networks.v
NetworksProofs.v
IpcConn.v
IpcConnProofs.v
Ipc.v
IpcProofs.v
IpcSession.v
IpcWitnesses.v
LogCap.v
LogCapProofs.v
LogCapTheorems.v
Router.v
RouterProofs.v
EventBus.v
EventBusProofs.v
ProxyConf.v
ProxyRelay.v
ProxyProofs.v
