(* ===== verification/Prelude.v ===== *)
(** * Pilot Protocol daemon: verification library (root file)

    Pilot Protocol is an overlay network for agents.  Each host runs a daemon
    (pkg/daemon) that gives it a virtual address, encrypts datagrams to peers
    over UDP, and carries TCP-like streams and plain datagrams over that tunnel.
    This library models the core of the daemon, in Go, as executable Rocq
    definitions, and proves what makes it correct.

    ** The program's layers, and the files that model them

    The daemon is layered; from the wire upwards:

    - routing (pkg/daemon/routing) decides per peer whether a frame goes to the
      peer's UDP address or to a beacon that relays it.  File [Routing]: the
      manager's maps, [WriteFrame] and the blackhole heuristic, ICMP errors,
      pins, relay admission, hole punching.  Record [RManager] is the source's
      routing.Manager; operations keep their names, with an [R] in front where
      keyexchange has the same one.  File [BeaconSelect] is select.go,
      discovery.go and discover.go: the beacon list, the hash pick, the
      round-trip override, and the refresh tick of beacon_discovery.go.
    - keyexchange (pkg/daemon/keyexchange) owns the per-peer sessions.  File
      [Crypto] is crypto.go: a session and its replay window.  [KeyStore] is
      store.go: the map of sessions, the drop gates, the salvage ring; the
      sessions are heap objects because the code shares and compares pointers.
      [KeyExchange] is keyexchange.go, frame.go, derive.go, bootstrap.go,
      handle.go and loop.go: the identity cache, rekey bookkeeping, frames, key
      derivation, the two handshake handlers and the retransmit tick.
      [KeyExchangeProofs] and [Rekey] hold their theorems.
    - envelope (pkg/daemon/envelope) seals and opens frames against a session.
      File [Envelope]: [EncryptFrame], [DecryptFrame], and Module [Concurrent],
      a step relation that interleaves the critical sections of [DecryptFrame]
      run by any number of goroutines.
    - the tunnel manager (pkg/daemon/tunnel.go, peeractivity.go) joins the three:
      File [Tunnel] is frame dispatch, the gates in front of key exchange, the
      queue of packets that wait for a key, address learning, beacon and
      relayed messages, probes and keepalives.  It runs the key-exchange
      handlers in the stages of [KeyExchangeStages], with its own hooks between
      them.  [TunnelProofs] is what every operation leaves alone and
      [TunnelTheorems] the theorems.
    - streams (pkg/daemon/ports.go and daemon.go).  [SeqNum]
      and [Sack] are the sequence arithmetic and the SACK codec.  [Conn] is
      struct Connection, its fields grouped by the mutex that guards them.
      [Sender] is window control, ACK and SACK processing with NewReno recovery,
      RTT estimation, segment transmission and the retransmission timeout;
      [SenderProofs] its theorems.  [Reassembly] is [DeliverInOrder] and
      [SACKBlocks]; [ReassemblyProofs] and [SackBlocks] their theorems.
      [Stream] is the state machine on one connection: handleStreamPacket branch
      by branch, delayed ACKs, the held FINs, CloseConnection, a tick of the
      retransmit loop.  [Writer] is SendData: Nagle buffering, flushing, the wait
      for the window with its probes, one step per loop iteration.  [Endpoint]
      puts these together as one step relation; [EndpointProofs] is its
      invariant, [EndToEnd] two endpoints and a network that drops, duplicates
      and reorders, and [StreamTheorems] further properties of one endpoint.
    - ports (the PortManager of ports.go): listeners, the connection table and
      the ephemeral-port bitmap.  File [PortManager].
    - admission (daemon.go, replywindow.go): the SYN token buckets, the
      whitelists, the reply window, the trust checks and port policies.  File
      [Admission].
    - connection management (daemon.go).  [Accept] is the daemon's record with
      the SYN branch and all its gates, and the start of a dial; [AcceptProofs]
      its theorems; [Dial] is dialConnectionLocked from its checks to its
      result; [Sweep] reaps stale, idle and dead connections.
    - staying reachable (daemon.go and the watchers).  [Registry] is dialling the
      registry, registering, restoring what it lost, [reestablishTransport] and
      the heartbeat.  [RxWatchdog] is rxwatchdog.go, [AddrWatch] addrwatch.go,
      [HandshakePoll] handshakepoll.go.  [Resolve] is the resolve, endpoint and
      hostname caches, ensureTunnel with LAN detection ([NetIP] is net.ParseIP
      and net.IP), datagrams and broadcasts, and the reaping of peers nobody
      uses; [PathWatch] is pathwatch.go.  Each has its theorems in the file
      named with [Proofs].
    - networks.  [Managed] is managed.go: engines that keep a bounded set of peers
      of a network, in cycles of pruning and filling.  [Networks] is the daemon's
      membership, port policies, member tags, the synchronisation tick with its
      events, and the snapshot on disk.  [ManagedProofs], [NetworksProofs].
    - local clients (ipc.go).  [IpcConn] is one client: the bounded queue with
      its writer goroutine as an interleaving of callers, writer and Close, and
      the ports and connections the client owns.  [Ipc] is the dispatcher and
      the handlers of all commands; [Session] in it is the read loop, which runs
      some requests inline and the others in goroutines with a bounded number of
      slots.  Theorems in [IpcConnProofs], [IpcProofs] (one request) and
      [IpcSession] (whole sessions), concrete runs in [IpcWitnesses].
    - between them (daemon.go).  [Router] joins tunnel, streams and clients: the
      dispatch of received packets, datagrams, pings, the upgrades of relayed
      paths, the spacing of automatic handshakes and the sweeper's whole tick.
      [RouterProofs] its theorems.  [EventBus] is eventbus_impl.go, with
      publishers, subscribers and cancellations interleaved; [EventBusProofs].
    - the egress proxy (internal/proxyconf).  [ProxyConf] is the proxy settings, how
      they are shown, and the targets that never go to a proxy; [ProxyRelay] the
      CONNECT proxy on loopback that lends the daemon's proxy to the processes it
      starts, one client at a time and its whole life.  [ProxyProofs].
    - the log (internal/logcap).  [LogCap] is the rotation of the daemon's own log
      by copy and truncation, as programs in a monad over a file system whose
      calls may fail or end the process.  [LogCapProofs] is a logic for such
      programs, with a condition for the states they may die in, and its use on
      each function; [LogCapTheorems] the theorems and concrete runs.

    [Bitmap] has the word operations two components share, [GoText] what is used
    of strings, strconv and net.SplitHostPort, [Json] the text json.Marshal
    writes.  [Protocol] is the
    interface to the wire-protocol package, a separate Go module: a class with
    the facts the daemon relies on and an instance with the values pinned by the
    repository's tests.  [Cipher] (in Envelope) is crypto/cipher's AEAD with the
    laws its documentation gives, and [Primitives] (in KeyExchange) the other
    cryptographic functions.  Theorems are proved against these classes and the
    witnesses instantiate them.

    ** Conventions

    A Go uintN is a [Z] with the wrap-around written out ([u16], [u32], [u64]);
    time.Duration and int results that can overflow go through [i64].  Bytes are [Z].  An
    operation is a function from state to result and state.  A mutex has no state
    of its own; where the order of critical sections matters they are separate
    steps.  A time.Now() is an argument [now], read once per operation (the
    retransmit tick of the key exchange, whose theorem depends on it, takes the
    later reading of each send as well); a random
    draw, a registry answer and a socket verdict are arguments or fields of
    [Config] ([Admission.Config] for the daemon's own configuration).  A float64
    of the token buckets is the Standard Library's executable binary64
    ([SpecFloat]), rounding and the conversion to int included; [Float64] bounds
    it.  Where Go ranges over a map and stops early or acts in order, the
    iteration order is an argument and the theorems hold for all orders.  A hook
    call is an [Event] in the manager's trace.

    The registry client, the handshake service and the policy plugin are separate
    modules.  A call to them is logged and the n-th call is answered by an
    arbitrary function of n: [callAns], [dialAns], [stopAt] and [resolveAns] in
    [Registry] and [Resolve], [ext] for the [ExtCall]s of [Managed], [Networks]
    and [Ipc].  Theorems hold for all answers, errors and time-outs included.  A
    JSON document is a [jval]; a file is its content ([None]: missing).

    Fuel: the drain loop of [DeliverInOrder] takes the length of the reorder
    buffer, and each round removes a segment; the scan of [AllocEphemeralPort]
    takes the size of the range, as the source's loop does.  The dial loop takes
    the list of what its select statement meets, and [dial_terminates] bounds the
    number of timer events it can take.  The writer's loops are step functions,
    not recursions.  The retry loops over the registry take the source's own
    number of attempts (10 dials, 5 fetches of a member list, 3 of a policy).
    Decimal printing takes 20 digits, which is every 64-bit number, and the
    parser of IPv6 text 8 groups, which is every address.  The search for
    generations beyond the limit takes one more turn than there are names in the
    file system, and each turn removes one.

    ** What the theorems show

    - Replay protection: the 256-bit window gives the verdicts of a filter that
      remembers everything it accepted, over any history of the counters senders
      use, and what it does with counter 0 ([Crypto]); no counter
      or frame is delivered twice, also under interleaving; a forged frame moves
      nothing but a failure counter; nonces do not repeat; round trip ([Envelope]).
    - Handshake: an accepted authenticated frame is vouched for by the registry;
      rejected frames change no session; a repeated key does not reset one; two
      honest nodes derive one key; what an unreachable registry allows
      ([KeyExchangeProofs]).  Rekeys are retried a bounded number of times and
      abandoned, within two ticks for each attempt, replies are rate limited, the manager's tables stay consistent
      and bounded under every sequence of operations ([Rekey]).
    - Tunnel: a packet that is handed up opened under the session of the node it
      claims to come from; nothing leaves in the clear, relay messages go to
      the beacon only and the queues stay bounded under every sequence of operations; a known peer's address moves only
      with proof; packets that waited for a key leave in order; what one tunnel
      seals the other delivers, directly and through the beacon ([TunnelTheorems]).
    - Streams: the receiver hands over a prefix of the stream sent, whatever the
      network does to the segments, and all of it once every segment got
      through ([ReassemblyProofs]); SACK blocks are the maximal runs of buffered
      data, and mark only data the receiver holds ([SackBlocks]); a cumulative
      ACK removes exactly what it covers, RTT samples follow Karn's rule, the
      windows and timers stay within limits under every sequence of
      operations, retransmissions repeat what was sent, a window is halved once
      per loss event, a silent peer is given up on ([SenderProofs]).
    - End to end: what an application reads is a prefix of what the peer's
      application wrote, under every interleaving of writes, ticks, closes,
      losses, duplicates and reorderings; when it reads end of stream it has
      read everything ([EndToEnd]).  The send buffer never fills; a
      closed window is probed a bounded number of times, and is not reopened by
      the receiver's own reads; and two corner cases that lose data: a payload that
      looks like a SACK block, and a tail flusher that takes the sequence number
      of an aborted write ([StreamTheorems]).
    - Connections: the limits hold after every packet, a connection is opened
      only past every gate, a handshake opens both ends with matching sequence
      numbers, a repeated SYN changes nothing ([AcceptProofs]); a dial ends, and
      a failed one leaves nothing behind ([Dial]); the sweeper's two ways to
      close a connection that is still wanted ([Sweep]).
    - Admission: buckets stay within their burst for limits below 2^23, and what a
      huge limit does, a source that is refused spends
      no shared token, only replies pass the reply window, policy denials win and
      survive a failed fetch ([Admission]).
    - Beacons: a merge is the union without duplicates, the pick is stable and
      changes only with the list, the round-trip override stays within twice the
      fastest, parsing inverts joining ([BeaconSelect]).
    - Ports: allocation finds a free port whenever there is one, never hands
      out a held port, nor the port of a live connection in an orderly history;
      and an order of operations outside that discipline that breaks it; lookup
      prefers the live connection ([PortManager]).
    - Routing: fallback to the relay needs three silent sends, pins stick,
      network-driven admission respects the cap ([Routing]).
    - Sessions: the drop gates and the salvage ring ([KeyStore]).
    - Registry: a recovery that reports success registered the node, or relies on
      a run less than five seconds old that did as much; registry connections do not leak ([RegistryProofs]); a
      restart is asked for only behind every guard and at a bounded rate
      ([RxWatchdogProofs]); a changed address is announced ([AddrWatchProofs]);
      polls never overlap and keep their gaps ([HandshakePollProofs]).
    - Peers: a relay-only peer is not contacted directly once a beacon is known, a
      sweep leaves no stale state and what it keeps it keeps unchanged
      ([ResolveProofs]); a silent peer is probed and then reset, at
      a bounded rate ([PathWatchProofs]).
    - Networks: a policy is not lost while the membership can be read and names
      the network, and when it is lost, the snapshot on disk included; the state follows the membership; a snapshot round trip
      ([NetworksProofs]); a prune takes the worst ranked, a cycle keeps the set
      within its bound ([ManagedProofs]).
    - Clients: every dispatched request is answered, a client cannot have
      the handlers sign messages of its choice, identity rotation is agreed with the
      registry, replies fit, two token lengths panic ([IpcProofs]); messages
      reach a client in order and no write waits for ever ([IpcConnProofs]);
      sends keep their order, a port has one owner, teardown releases what the
      client held when it began, whatever is accepted meanwhile, and which
      connections it misses ([IpcSession], [IpcWitnesses]).
    - Router: a datagram reaches the clients only out of a frame that opens under
      its sender's session, past the trust and policy gates; a pong is never
      answered; a relay-only peer is not punched and a pin is all an upgrade
      drops; one upgrade of a peer runs at a time; automatic handshakes keep
      their distance however the dials race ([RouterProofs]).
    - Events: no send meets a closed channel, and a subscription accounts for
      exactly the matching events of its time, in their order ([EventBusProofs]).
    - Proxy: a tunnel needs the relay's token and is never handed back to it, reasons survive the
      status line and cannot break out of it, every failure is counted, Close
      returns and leaves nothing open, an accepted setting is stable, and what is
      shown of one that is not ([ProxyProofs]).
    - Log: whatever fails and wherever the process dies, no generation but the
      oldest is lost, files of others are not touched, an interrupted copy is not
      mixed up; a rotation that reports success kept the text up to a moment and
      left the log with the text since a later one; the case in which
      the generations are lost ([LogCapTheorems]).

    ** Assumptions of the end-to-end theorems

    A stream carries fewer than 2^31 bytes, so that sequence comparison is an
    order ([bounded]); the application does not close while a write is in
    progress, and the tail flusher runs only on an established connection
    ([ep_allowed]; the code does not enforce either, and
    [flusher_reuses_aborted_sequence] shows what happens without the second).  The
    witnesses run a transfer that meets all of them.  CloseConnection is one step
    of an endpoint; the source takes conn.Mu several times in it.

    ** What is not modelled

    - Start-up and shutdown (Daemon.Start and Stop, cmd/daemon, Listen and Close
      of tunnel.go): they wire callbacks, start goroutines and open sockets.  The
      loops the goroutines run are modelled by their turns.
    - Reports: buildInfoReply, HealthSnapshot, PeerList and the like copy state
      into JSON; the replies that carry them take them as inputs.
    - Transports (udpio, transport/wss, transport_auto.go), telemetry, the
      services container: I/O and process management.
    - The command-line programs, the updater and the catalogue tools, which use
      the daemon through IPC, and the other packages under internal.  netproxy is a
      separate module: its answers are arguments.
    - Erasure of key material in memory and log output have no counterpart here.
    - The handshake a dial starts (only its spacing is), and the rate a token bucket admits
      over time with the rounding of its float64 counter accounted for.
    - Signatures made outside the IPC handlers (key-exchange frames are modelled in
      [KeyExchange]; the registry client's and the plugins' are made in their own
      modules). *)
From stdpp Require Export base tactics list gmap.
From Stdlib Require Export ZArith Lia.
Open Scope Z_scope.

Declare Scope go_scope.
Delimit Scope go_scope with go.

(** ** Machine integers.  A Go [uintN] is a [Z] in [0, 2^N); every arithmetic
    operation the source performs at that width is wrapped explicitly. *)
Definition u8 (z : Z) : Z := z mod 256.
Definition u16 (z : Z) : Z := z mod 65536.
Definition u32 (z : Z) : Z := z mod 4294967296.
Definition u64 (z : Z) : Z := z mod 18446744073709551616.

(** A signed 64-bit result (int64, time.Duration). *)
Definition i64 (z : Z) : Z := (z + 9223372036854775808) mod 18446744073709551616 - 9223372036854775808.

Definition is_u8 (z : Z) : Prop := 0 <= z < 256.
Definition is_u16 (z : Z) : Prop := 0 <= z < 65536.
Definition is_u32 (z : Z) : Prop := 0 <= z < 4294967296.
Definition is_u64 (z : Z) : Prop := 0 <= z < 18446744073709551616.

(** [int32(x)] of a [uint32]: two's complement reinterpretation. *)
Definition int32_of_u32 (z : Z) : Z :=
  if z <? 2147483648 then z else z - 4294967296.

Notation "a +32 b" := (u32 (a + b)) (at level 50, left associativity) : go_scope.
Notation "a -32 b" := (u32 (a - b)) (at level 50, left associativity) : go_scope.

(** ** Byte strings: lists of [Z], each in [0, 256). *)
Abbreviation bytes := (list Z) (only parsing).
Definition blen (l : bytes) : Z := Z.of_nat (length l).
Definition bytes_ok (l : bytes) : Prop := Forall is_u8 l.

(** [l[a:b]] *)
Definition slice {A} (a b : nat) (l : list A) : list A := take (b - a) (drop a l).

(** [binary.BigEndian.PutUint16/32/64] and [Uint16/32/64]. *)
Fixpoint be_put (n : nat) (z : Z) : bytes :=
  match n with
  | O => []
  | S n => (z / 256 ^ Z.of_nat n) mod 256 :: be_put n z
  end.

Fixpoint be_get_acc (acc : Z) (l : bytes) : Z :=
  match l with
  | [] => acc
  | b :: l => be_get_acc (acc * 256 + b) l
  end.
Definition be_get (l : bytes) : Z := be_get_acc 0 l.

Definition PutUint16 : Z → bytes := be_put 2.
Definition PutUint32 : Z → bytes := be_put 4.
Definition PutUint64 : Z → bytes := be_put 8.
Definition Uint16 (l : bytes) : Z := be_get (take 2 l).
Definition Uint32 (l : bytes) : Z := be_get (take 4 l).
Definition Uint64 (l : bytes) : Z := be_get (take 8 l).

(** ** Time.  A [time.Time] is a count of nanoseconds since Go's zero time, so
    [time.Time{}] is [0]; a [time.Duration] is a signed 64-bit nanosecond count
    and [Time.Sub] saturates at its bounds. *)
Abbreviation gotime := Z (only parsing).
Abbreviation duration := Z (only parsing).
Definition zero_time : gotime := 0.
Definition Millisecond : duration := 1000000.
Definition Second : duration := 1000000000.
Definition maxDuration : duration := 9223372036854775807.
Definition minDuration : duration := -9223372036854775808.
Definition time_sub (t u : gotime) : duration :=
  Z.max minDuration (Z.min maxDuration (t - u)).
Definition IsZero (t : gotime) : bool := t =? zero_time.

(** ** Automation *)

(** Turn the boolean tests of the source into propositions. *)
Ltac zbool :=
  repeat match goal with
  | H : (_ && _)%bool = true |- _ => apply andb_true_iff in H as [? ?]
  | H : (_ && _)%bool = false |- _ => apply andb_false_iff in H
  | H : (_ || _)%bool = true |- _ => apply orb_true_iff in H
  | H : (_ || _)%bool = false |- _ => apply orb_false_iff in H as [? ?]
  | H : negb _ = true |- _ => apply negb_true_iff in H
  | H : negb _ = false |- _ => apply negb_false_iff in H
  | H : (_ <? _) = true |- _ => apply Z.ltb_lt in H
  | H : (_ <? _) = false |- _ => apply Z.ltb_ge in H
  | H : (_ <=? _) = true |- _ => apply Z.leb_le in H
  | H : (_ <=? _) = false |- _ => apply Z.leb_gt in H
  | H : (_ =? _) = true |- _ => apply Z.eqb_eq in H
  | H : (_ =? _) = false |- _ => apply Z.eqb_neq in H
  end.

(** Split on the boolean scrutinee of an [if] in the goal, with its meaning. *)
Ltac case_zif :=
  match goal with
  | |- context [if ?b then _ else _] => destruct b eqn:?; zbool
  end.
Ltac case_zifs := repeat case_zif.

Create HintDb pilot.
Create Rewrite HintDb pilot.

(** ** Generic lemmas *)

Lemma u8_range z : is_u8 (u8 z).
Proof. apply Z.mod_pos_bound; lia. Qed.
Lemma u16_range z : is_u16 (u16 z).
Proof. apply Z.mod_pos_bound; lia. Qed.
Lemma u32_range z : is_u32 (u32 z).
Proof. apply Z.mod_pos_bound; lia. Qed.
Lemma u64_range z : is_u64 (u64 z).
Proof. apply Z.mod_pos_bound; lia. Qed.
Lemma u32_id z : is_u32 z → u32 z = z.
Proof. unfold is_u32, u32. intros. apply Z.mod_small. lia. Qed.
Lemma u64_id z : is_u64 z → u64 z = z.
Proof. unfold is_u64, u64. intros. apply Z.mod_small. lia. Qed.
Lemma u32_add_l a b : u32 (u32 a + b) = u32 (a + b).
Proof. unfold u32. apply Zplus_mod_idemp_l. Qed.
Lemma u32_add_r a b : u32 (a + u32 b) = u32 (a + b).
Proof. unfold u32. apply Zplus_mod_idemp_r. Qed.
Lemma u32_sub_l a b : u32 (u32 a - b) = u32 (a - b).
Proof. unfold u32. apply Zminus_mod_idemp_l. Qed.
Lemma u32_sub_r a b : u32 (a - u32 b) = u32 (a - b).
Proof. unfold u32. apply Zminus_mod_idemp_r. Qed.

#[export] Hint Resolve u8_range u16_range u32_range u64_range : pilot.
#[export] Hint Rewrite u32_add_l u32_add_r u32_sub_l u32_sub_r : pilot.

Lemma length_be_put n z : length (be_put n z) = n.
Proof. induction n; simpl; congruence. Qed.

Lemma be_put_ok n z : bytes_ok (be_put n z).
Proof.
  induction n as [|n IH]; simpl; constructor; [|exact IH].
  unfold is_u8. apply Z.mod_pos_bound. lia.
Qed.

Lemma be_get_acc_shift acc l :
  be_get_acc acc l = acc * 256 ^ blen l + be_get_acc 0 l.
Proof.
  revert acc. induction l as [|b l IH]; intros acc; cbn [be_get_acc].
  - unfold blen. simpl. lia.
  - rewrite IH, (IH (0 * 256 + b)). unfold blen. simpl length.
    rewrite Nat2Z.inj_succ, Z.pow_succ_r by lia. ring.
Qed.

Lemma be_get_put_aux n z : be_get_acc 0 (be_put n z) = z mod 256 ^ Z.of_nat n.
Proof.
  induction n as [|n IH]; cbn [be_put be_get_acc].
  - simpl. symmetry. apply Z.mod_1_r.
  - rewrite be_get_acc_shift, IH. unfold blen. rewrite length_be_put.
    rewrite Nat2Z.inj_succ, Z.pow_succ_r, (Z.mul_comm 256) by lia.
    rewrite Z.rem_mul_r by (try apply Z.pow_nonzero; lia). ring.
Qed.

Lemma be_get_put n z : be_get (be_put n z) = z mod 256 ^ Z.of_nat n.
Proof. apply be_get_put_aux. Qed.

Lemma be_get_bound l : bytes_ok l → 0 <= be_get l < 256 ^ blen l.
Proof.
  unfold be_get. induction 1 as [|b l Hb Hl IH]; cbn [be_get_acc].
  - unfold blen. simpl. lia.
  - rewrite be_get_acc_shift. unfold blen in *. simpl length.
    rewrite Nat2Z.inj_succ, Z.pow_succ_r by lia. unfold is_u8 in Hb. nia.
Qed.

(** Encoding the value read from [l] gives [l] back. *)
Lemma be_put_get l : bytes_ok l → be_put (length l) (be_get l) = l.
Proof.
  unfold be_get.
  assert (Hgen : ∀ l acc, bytes_ok l →
    be_put (length l) (be_get_acc acc l) = l).
  { clear l. induction l as [|b l IH]; intros acc Hl; [done|].
    inversion Hl as [|?? Hb Hl']; subst. cbn [be_get_acc length be_put].
    f_equal; [|by apply IH].
    rewrite be_get_acc_shift. fold (blen l). pose proof (be_get_bound l Hl') as Hbd.
    unfold be_get in Hbd.
    rewrite Z.div_add_l by lia. rewrite (Z.div_small (be_get_acc 0 l)) by lia.
    rewrite Z.add_0_r. unfold is_u8 in Hb.
    rewrite Z.add_comm, Z.mod_add by lia. apply Z.mod_small. lia. }
  intros. by apply Hgen.
Qed.

Lemma Uint32_Put z rest : is_u32 z → Uint32 (PutUint32 z ++ rest) = z.
Proof.
  intros Hz. unfold Uint32, PutUint32.
  rewrite take_app_le, take_ge by (rewrite length_be_put; lia).
  rewrite be_get_put. apply u32_id in Hz. exact Hz.
Qed.

Lemma Uint64_Put z rest : is_u64 z → Uint64 (PutUint64 z ++ rest) = z.
Proof.
  intros Hz. unfold Uint64, PutUint64.
  rewrite take_app_le, take_ge by (rewrite length_be_put; lia).
  rewrite be_get_put. apply u64_id in Hz. exact Hz.
Qed.

Lemma bytes_ok_take n l : bytes_ok l → bytes_ok (take n l).
Proof. apply Forall_take. Qed.
Lemma bytes_ok_drop n l : bytes_ok l → bytes_ok (drop n l).
Proof. apply Forall_drop. Qed.
Lemma bytes_ok_app l k : bytes_ok (l ++ k) ↔ bytes_ok l ∧ bytes_ok k.
Proof. apply Forall_app. Qed.
#[export] Hint Resolve bytes_ok_take bytes_ok_drop be_put_ok : pilot.

Lemma Uint32_range l : bytes_ok l → is_u32 (Uint32 l).
Proof.
  intros Hl. unfold Uint32, is_u32.
  pose proof (be_get_bound (take 4 l) (bytes_ok_take _ _ Hl)) as [? Hb].
  split; [done|]. eapply Z.lt_le_trans; [exact Hb|].
  unfold blen. rewrite length_take.
  change 4294967296 with (256 ^ 4). apply Z.pow_le_mono_r; lia.
Qed.

Lemma Uint64_range l : bytes_ok l → is_u64 (Uint64 l).
Proof.
  intros Hl. unfold Uint64, is_u64.
  pose proof (be_get_bound (take 8 l) (bytes_ok_take _ _ Hl)) as [? Hb].
  split; [done|]. eapply Z.lt_le_trans; [exact Hb|].
  unfold blen. rewrite length_take.
  change 18446744073709551616 with (256 ^ 8). apply Z.pow_le_mono_r; lia.
Qed.
#[export] Hint Resolve Uint32_range Uint64_range : pilot.

Lemma i64_id z : minDuration <= z <= maxDuration → i64 z = z.
Proof. unfold i64, minDuration, maxDuration. intros. rewrite Z.mod_small; lia. Qed.

Lemma i64_range z : minDuration <= i64 z <= maxDuration.
Proof.
  unfold i64, minDuration, maxDuration.
  pose proof (Z.mod_pos_bound (z + 9223372036854775808) 18446744073709551616). lia.
Qed.

Lemma time_sub_exact t u :
  minDuration <= t - u <= maxDuration → time_sub t u = t - u.
Proof. unfold time_sub. lia. Qed.

Lemma blen_app l k : blen (l ++ k) = blen l + blen k.
Proof. unfold blen. rewrite length_app. lia. Qed.
Lemma blen_nonneg l : 0 <= blen l.
Proof. unfold blen. lia. Qed.
#[export] Hint Resolve blen_nonneg : pilot.

Lemma existsb_map {A B} (f : A → B) (p : B → bool) l :
  existsb p (map f l) = existsb (λ x, p (f x)) l.
Proof. induction l; simpl; congruence. Qed.
Lemma existsb_ext {A} (p q : A → bool) l :
  (∀ x, p x = q x) → existsb p l = existsb q l.
Proof. intros H. induction l; simpl; rewrite ?H; congruence. Qed.
