(* ===== verification/GoText.v ===== *)
(** * Text (Go's strings and strconv)

    A Go string is its bytes.  What the daemon uses of strings, strconv and
    net.SplitHostPort on them: substring search, trimming, splitting, decimal
    integers, and host:port syntax.  [str] writes an ASCII literal. *)
From stdpp Require Import strings.
From S2P Require Import Prelude.
Open Scope Z_scope.

Definition str (s : string) : bytes := (λ a, Z.of_nat (Ascii.nat_of_ascii a)) <$> String.list_ascii_of_string s.

(** JSON values as encoding/json decodes them, numbers that are integers. *)
Inductive jval :=
| JNull | JBool (b : bool) | JNum (z : Z) | JStr (s : bytes) | JList (l : list jval) | JObj (l : list (bytes * jval)).

Definition jfield (j : jval) (k : bytes) : option jval :=
  match j with
  | JObj l => snd <$> find (λ e, bool_decide (e.1 = k)) l
  | _ => None
  end.
(** A number read as [uint32(v)]. *)
Definition jnode (j : jval) : option Z :=
  match jfield j (str "node_id") with Some (JNum v) => Some (u32 v) | _ => None end.

Definition is_i64 (z : Z) : Prop := minDuration <= z <= maxDuration.

(** 1 January 1970 on the clock of [Prelude]; [Time.UnixNano] is an int64. *)
Definition unixEpoch : gotime := 62135596800 * Second.
Definition UnixNano (t : gotime) : Z := i64 (t - unixEpoch).
(** [time.Unix(0, ns)] *)
Definition timeUnix (ns : Z) : gotime := unixEpoch + ns.

(** Between 1970 and 2262 [UnixNano] and [Time.Sub] are exact. *)
Definition clock_ok (t : gotime) : Prop := unixEpoch <= t <= unixEpoch + maxDuration.

(** ** strings *)

Definition HasPrefix (s p : bytes) : bool := bool_decide (take (length p) s = p).
Definition CutSuffix (s suf : bytes) : option bytes :=
  let k := (length s - length suf)%nat in
  if bool_decide (drop k s = suf) then Some (take k s) else None.
Fixpoint Contains (s sub : bytes) : bool :=
  HasPrefix s sub || match s with [] => false | _ :: s => Contains s sub end.

(** [strings.TrimSpace] on text whose white space is ASCII. *)
Definition isSpace (b : Z) : bool := (b =? 32) || ((9 <=? b) && (b <=? 13)).
Fixpoint trimLeft (s : bytes) : bytes :=
  match s with b :: s' => if isSpace b then trimLeft s' else s | [] => [] end.
Definition TrimSpace (s : bytes) : bytes := reverse (trimLeft (reverse (trimLeft s))).

(** [strings.Split] on one byte: always at least one part. *)
Fixpoint SplitByte (sep : Z) (s : bytes) : list bytes :=
  match s with
  | [] => [[]]
  | b :: s =>
      let parts := SplitByte sep s in
      if b =? sep then [] :: parts
      else match parts with p :: ps => (b :: p) :: ps | [] => [[b]] end
  end.

(** ** strconv *)

Definition isDigit (b : Z) : bool := (48 <=? b) && (b <=? 57).

(** The decimal digits of [0 <= n], most significant first; an int64 has at
    most 19, so 20 rounds are enough. *)
Fixpoint digits (fuel : nat) (n : Z) (acc : bytes) : bytes :=
  match fuel with
  | O => acc
  | S fuel =>
      let acc := (48 + n mod 10) :: acc in
      if n <? 10 then acc else digits fuel (n / 10) acc
  end.
Definition FormatInt (z : Z) : bytes :=
  if z <? 0 then 45 :: digits 20 (- z) [] else digits 20 z [].

Fixpoint parseDigits (acc : Z) (s : bytes) : option Z :=
  match s with
  | [] => Some acc
  | b :: s => if isDigit b then parseDigits (acc * 10 + (b - 48)) s else None
  end.
Definition parseUint (s : bytes) : option Z :=
  match s with [] => None | _ => parseDigits 0 s end.

(** [strconv.ParseInt(s, 10, 64)]; [None] is an error (syntax or range). *)
Definition ParseInt (s : bytes) : option Z :=
  let r := match s with
           | [] => None
           | b :: s' => if b =? 45 then Z.opp <$> parseUint s'
                        else if b =? 43 then parseUint s' else parseUint s
           end in
  match r with
  | Some z => if (minDuration <=? z) && (z <=? maxDuration) then Some z else None
  | None => None
  end.

(** ** Lemmas *)

Lemma parse_digits f n rest :
  0 <= n < 10 ^ Z.of_nat f → (0 < f)%nat → parseDigits 0 (digits f n rest) = parseDigits n rest.
Proof.
  revert n rest. induction f as [|f IH]; intros n rest Hn Hf; [lia|]. cbn [digits].
  rewrite Nat2Z.inj_succ, Z.pow_succ_r in Hn by lia.
  pose proof (Z.mod_pos_bound n 10). pose proof (Z.div_mod n 10).
  destruct (n <? 10) eqn:E; zbool.
  - cbn. rewrite Z.mod_small by lia. unfold isDigit.
    replace ((48 <=? 48 + n) && (48 + n <=? 57)) with true by (symmetry; rewrite andb_true_iff, !Z.leb_le; lia).
    f_equal. lia.
  - destruct f as [|f]; [cbn in Hn; lia|].
    assert (0 <= n / 10 < 10 ^ Z.of_nat (S f)).
    { split; [apply Z.div_pos; lia|]. apply Z.div_lt_upper_bound; lia. }
    rewrite IH by lia. cbn [parseDigits]. unfold isDigit.
    replace ((48 <=? 48 + n mod 10) && (48 + n mod 10 <=? 57)) with true
      by (symmetry; rewrite andb_true_iff, !Z.leb_le; lia).
    f_equal. lia.
Qed.

Lemma digits_app f n acc : digits f n acc = digits f n [] ++ acc.
Proof.
  revert n acc. induction f as [|f IH]; intros n acc; [done|]. cbn.
  destruct (n <? 10); [done|]. rewrite IH, (IH _ [_]), <- app_assoc. done.
Qed.

Lemma digits_digit f n : Forall (λ b, isDigit b = true) (digits f n []).
Proof.
  revert n. induction f as [|f IH]; intros n; cbn; [constructor|].
  assert (isDigit (48 + n mod 10) = true).
  { pose proof (Z.mod_pos_bound n 10). unfold isDigit. rewrite andb_true_iff, !Z.leb_le. lia. }
  destruct (n <? 10); [by repeat constructor|]. rewrite digits_app, Forall_app. split; [apply IH|by repeat constructor].
Qed.

Lemma digits_cons f n : (0 < f)%nat → ∃ b l, digits f n [] = b :: l ∧ isDigit b = true.
Proof.
  intros Hf. pose proof (digits_digit f n) as Hd. destruct (digits f n []) as [|b l] eqn:E.
  - destruct f as [|f]; [lia|]. cbn in E. destruct (n <? 10); [done|].
    rewrite digits_app in E. by destruct (digits f (n / 10) []).
  - apply Forall_cons in Hd as [? ?]. eauto.
Qed.

Lemma parseUint_digits n : 0 <= n < 10 ^ 20 → parseUint (digits 20 n []) = Some n.
Proof.
  intros Hn. destruct (digits_cons 20 n ltac:(lia)) as (b & l & E & _).
  pose proof (parse_digits 20 n [] Hn ltac:(lia)) as Hp. rewrite E in *. exact Hp.
Qed.

(** Printing then parsing an int64 gives it back. *)
Lemma ParseInt_FormatInt z : is_i64 z → ParseInt (FormatInt z) = Some z.
Proof.
  unfold is_i64, minDuration, maxDuration. intros Hz.
  assert (∀ A (x y : A), (if (minDuration <=? z) && (z <=? maxDuration) then x else y) = x) as Hr.
  { intros. unfold minDuration, maxDuration. case_zif; [done|]. lia. }
  unfold FormatInt, ParseInt. destruct (z <? 0) eqn:E; zbool.
  - rewrite parseUint_digits by lia. cbn [fmap option_fmap option_map]. cbn [Z.eqb Pos.eqb].
    by rewrite Z.opp_involutive, Hr.
  - destruct (digits_cons 20 z ltac:(lia)) as (b & l & E' & Hb). unfold isDigit in Hb. zbool.
    pose proof (parseUint_digits z ltac:(lia)) as Hp. rewrite E' in *.
    do 2 (case_zif; [lia|]). by rewrite Hp, Hr.
Qed.

(** ** net.SplitHostPort, net.JoinHostPort *)

Fixpoint IndexByte (s : bytes) (c : Z) : option nat :=
  match s with
  | [] => None
  | b :: s => if b =? c then Some O else S <$> IndexByte s c
  end.
Fixpoint LastIndexByte (s : bytes) (c : Z) : option nat :=
  match s with
  | [] => None
  | b :: s => match LastIndexByte s c with
              | Some i => Some (S i)
              | None => if b =? c then Some O else None
              end
  end.
Definition hasByte (s : bytes) (c : Z) : bool := existsb (Z.eqb c) s.

Definition SplitHostPort (hp : bytes) : option (bytes * bytes) :=
  match LastIndexByte hp 58 with
  | None => None
  | Some i =>
      let port := drop (S i) hp in
      if bool_decide (hp !! O = Some 91) then
        match IndexByte hp 93 with
        | None => None
        | Some e =>
            if Nat.eqb (S e) i then
              if hasByte (drop 1 hp) 91 || hasByte (drop (S e) hp) 93 then None
              else Some (slice 1 e hp, port)
            else None
        end
      else
        let host := take i hp in
        if hasByte host 58 || hasByte hp 91 || hasByte hp 93 then None else Some (host, port)
  end.

Definition JoinHostPort (host port : bytes) : bytes :=
  if hasByte host 58 then 91 :: host ++ 93 :: 58 :: port else host ++ 58 :: port.

Lemma hasByte_false s c : hasByte s c = false ↔ c ∉ s.
Proof.
  unfold hasByte. induction s as [|b s IH]; cbn.
  - split; [intros _; apply not_elem_of_nil|done].
  - rewrite orb_false_iff, IH, not_elem_of_cons, Z.eqb_neq. done.
Qed.

Lemma hasByte_app s u c : hasByte (s ++ u) c = hasByte s c || hasByte u c.
Proof. apply existsb_app. Qed.

Lemma IndexByte_app s u c : hasByte s c = false → IndexByte (s ++ c :: u) c = Some (length s).
Proof.
  induction s as [|b s IH]; cbn; [by rewrite Z.eqb_refl|].
  intros [Hb Hs]%orb_false_iff. rewrite Z.eqb_sym in Hb. rewrite Hb, IH by done. done.
Qed.

Lemma LastIndexByte_none s c : hasByte s c = false → LastIndexByte s c = None.
Proof.
  induction s as [|b s IH]; cbn; [done|]. intros [Hb Hs]%orb_false_iff.
  rewrite IH by done. rewrite Z.eqb_sym in Hb. by rewrite Hb.
Qed.

Lemma LastIndexByte_app s u c : hasByte u c = false → LastIndexByte (s ++ c :: u) c = Some (length s).
Proof.
  intros Hu. induction s as [|b s IH]; cbn.
  - by rewrite LastIndexByte_none, Z.eqb_refl.
  - by rewrite IH.
Qed.

(** A host without brackets and a port without colons or brackets survive. *)
Lemma SplitHostPort_Join h p :
  hasByte h 91 = false → hasByte h 93 = false →
  hasByte p 58 = false → hasByte p 91 = false → hasByte p 93 = false →
  SplitHostPort (JoinHostPort h p) = Some (h, p).
Proof.
  intros H1 H2 P1 P2 P3. unfold JoinHostPort. destruct (hasByte h 58) eqn:Hc.
  - unfold SplitHostPort. replace (91 :: h ++ 93 :: 58 :: p) with ((91 :: h ++ [93]) ++ 58 :: p)
      by (cbn; by rewrite <- app_assoc).
    rewrite LastIndexByte_app by done. rewrite bool_decide_true by done.
    replace ((91 :: h ++ [93]) ++ 58 :: p) with ((91 :: h) ++ 93 :: 58 :: p) at 1
      by (cbn; by rewrite <- app_assoc).
    rewrite IndexByte_app by (by apply orb_false_iff).
    replace (Nat.eqb (S (length (91 :: h))) (length (91 :: h ++ [93]))) with true
      by (symmetry; apply Nat.eqb_eq; cbn; rewrite length_app; cbn; lia).
    replace (drop (S (length (91 :: h ++ [93]))) ((91 :: h ++ [93]) ++ 58 :: p)) with p
      by (cbn; rewrite <- app_assoc, length_app, Nat.add_comm; cbn;
          replace (S (S (length h))) with (length h + 2)%nat by lia;
          rewrite <- drop_drop, drop_app_length; done).
    replace (drop (S (length (91 :: h))) ((91 :: h ++ [93]) ++ 58 :: p)) with (58 :: p)
      by (cbn; rewrite <- app_assoc; replace (S (length h)) with (length h + 1)%nat by lia;
          rewrite <- drop_drop, drop_app_length; done).
    replace (hasByte (drop 1 ((91 :: h ++ [93]) ++ 58 :: p)) 91) with false
      by (symmetry; cbn [drop app]; rewrite <- app_assoc; apply hasByte_false;
          apply hasByte_false in H1, P2; cbn; set_solver).
    replace (hasByte (58 :: p) 93) with false by (symmetry; exact P3).
    cbn [orb]. f_equal. f_equal.
    unfold slice. cbn. rewrite Nat.sub_0_r, <- app_assoc. apply take_app_length.
  - unfold SplitHostPort. rewrite LastIndexByte_app by done.
    rewrite bool_decide_false.
    2:{ destruct h as [|b h]; [done|]. intros [= ->]. apply hasByte_false in H1. set_solver. }
    rewrite take_app_length, Hc, !hasByte_app, H1, H2.
    replace (hasByte (58 :: p) 91) with false by (symmetry; exact P2).
    replace (hasByte (58 :: p) 93) with false by (symmetry; exact P3). cbn [orb].
    replace (S (length h)) with (length h + 1)%nat by lia.
    by rewrite <- drop_drop, drop_app_length.
Qed.

(** ** Trimming and splitting *)

Definition noSpace (s : bytes) : Prop := Forall (λ b, isSpace b = false) s.

Lemma trimLeft_noSpace s : noSpace s → trimLeft s = s.
Proof. destruct s as [|b s]; [done|]. intros [Hb _]%Forall_cons. cbn. by rewrite Hb. Qed.

Lemma TrimSpace_noSpace s : noSpace s → TrimSpace s = s.
Proof.
  intros H. unfold TrimSpace. rewrite (trimLeft_noSpace s) by done.
  rewrite trimLeft_noSpace by (by apply Forall_reverse). apply reverse_involutive.
Qed.

(** A text that starts and ends with a word loses only the newline after it. *)
Lemma TrimSpace_newline s b c t u :
  s = b :: t → s = u ++ [c] → isSpace b = false → isSpace c = false → TrimSpace (s ++ [10]) = s.
Proof.
  intros Hb Hc Ib Ic. unfold TrimSpace.
  replace (trimLeft (s ++ [10])) with (s ++ [10]) by (rewrite Hb; cbn; by rewrite Ib).
  rewrite reverse_app. cbn [reverse trimLeft app].
  change (trimLeft (reverse [10] ++ reverse s)) with (trimLeft (reverse s)).
  replace (trimLeft (reverse s)) with (reverse s) by (rewrite Hc, reverse_app; cbn; by rewrite Ic).
  apply reverse_involutive.
Qed.

Lemma SplitByte_none sep s : sep ∉ s → SplitByte sep s = [s].
Proof.
  induction s as [|b s IH]; [done|]. intros [Hb Hs]%not_elem_of_cons. cbn.
  rewrite IH by done. destruct (b =? sep) eqn:E; zbool; [congruence|done].
Qed.

Lemma SplitByte_cons sep s u : sep ∉ s → SplitByte sep (s ++ sep :: u) = s :: SplitByte sep u.
Proof.
  induction s as [|b s IH]; cbn; [by rewrite Z.eqb_refl|]. intros [Hb Hs]%not_elem_of_cons.
  rewrite IH by done. destruct (b =? sep) eqn:E; zbool; [congruence|done].
Qed.

Lemma isDigit_noSpace b : isDigit b = true → isSpace b = false.
Proof.
  unfold isDigit, isSpace. intros. zbool. apply orb_false_iff. split; [lia|]. apply andb_false_iff. right. lia.
Qed.

(** An integer prints as one word without white space. *)
Lemma FormatInt_word z : noSpace (FormatInt z) ∧ FormatInt z ≠ [].
Proof.
  assert (∀ n, noSpace (digits 20 n []) ∧ digits 20 n [] ≠ []) as H.
  { intros n. split; [|destruct (digits_cons 20 n ltac:(lia)) as (b & l & -> & _); done].
    eapply Forall_impl; [apply digits_digit|]. apply isDigit_noSpace. }
  unfold FormatInt. destruct (z <? 0); [|apply H]. split; [|done]. constructor; [done|apply H].
Qed.
Lemma noSpace_newline s : noSpace s → 10 ∉ s.
Proof. intros H Hin. eapply Forall_forall in H; [|exact Hin]. done. Qed.

Lemma clock_sub t u : clock_ok t → clock_ok u → time_sub t u = t - u.
Proof. unfold clock_ok. intros. apply time_sub_exact. unfold minDuration, maxDuration in *. lia. Qed.
Lemma clock_nonzero t : clock_ok t → IsZero t = false.
Proof. unfold clock_ok, IsZero, zero_time, unixEpoch, Second. intros. apply Z.eqb_neq. lia. Qed.
