(* ===== verification/SeqNum.v ===== *)
(** * Stream sequence numbers (pkg/daemon/ports.go, [seqAfter] and
    [seqAfterOrEqual])

    Serial-number arithmetic on [uint32].  Streams are unbounded; a segment's
    true position is an integer offset and the wire carries it modulo 2^32.
    The main theorem says when comparing the wrapped numbers decides the
    order of the true offsets; the reassembly and sender files use it to reason
    about offsets instead of wrapped numbers. *)
From S2P Require Import Prelude.
Open Scope Z_scope.

(** [int32(a-b) > 0] *)
Definition seqAfter (a b : Z) : bool := 0 <? int32_of_u32 (u32 (a - b)).

(** [a == b || int32(a-b) > 0] *)
Definition seqAfterOrEqual (a b : Z) : bool :=
  (a =? b) || (0 <? int32_of_u32 (u32 (a - b))).

(** Half the sequence space: the widest window the comparison can order. *)
Definition half : Z := 2147483648.

Lemma int32_of_u32_pos d : is_u32 d → 0 < int32_of_u32 d ↔ 0 < d < half.
Proof.
  unfold is_u32, int32_of_u32, half. intros Hd.
  case_zif; lia.
Qed.

Lemma seqAfter_spec a b : seqAfter a b = true ↔ 0 < u32 (a - b) < half.
Proof.
  unfold seqAfter. rewrite Z.ltb_lt. apply int32_of_u32_pos, u32_range.
Qed.

Lemma seqAfterOrEqual_spec a b :
  is_u32 a → is_u32 b →
  (seqAfterOrEqual a b = true ↔ u32 (a - b) < half).
Proof.
  intros Ha Hb. unfold seqAfterOrEqual.
  rewrite orb_true_iff, Z.eqb_eq, Z.ltb_lt, int32_of_u32_pos by apply u32_range.
  pose proof (u32_range (a - b)) as Hr. unfold is_u32, u32, half in *.
  split.
  - intros [->|?]; [|lia]. rewrite Z.sub_diag, Z.mod_0_l by lia. lia.
  - intros Hlt. destruct (Z.eq_dec ((a - b) mod 4294967296) 0) as [H0|]; [|lia].
    left. pose proof (Z.div_mod (a - b) 4294967296). lia.
Qed.

Lemma u32_small_diff x y :
  - half < x - y < half →
  u32 (x - y) = if x <? y then x - y + 4294967296 else x - y.
Proof.
  unfold u32, half. intros. case_zif.
  - rewrite <- (Z.mod_add _ 1) by lia. rewrite Z.mod_small; lia.
  - apply Z.mod_small. lia.
Qed.

Lemma seqAfter_wrapped x y : seqAfter (u32 x) (u32 y) = seqAfter x y.
Proof. unfold seqAfter. by autorewrite with pilot. Qed.

Lemma seqAfter_near x y :
  - half < x - y < half → (seqAfter (u32 x) (u32 y) = true ↔ y < x).
Proof.
  intros Hd. rewrite seqAfter_wrapped, seqAfter_spec, u32_small_diff by done.
  unfold half in *. case_zif; lia.
Qed.

Lemma seqAfterOrEqual_near x y :
  - half < x - y < half → (seqAfterOrEqual (u32 x) (u32 y) = true ↔ y <= x).
Proof.
  intros Hd. rewrite seqAfterOrEqual_spec by apply u32_range.
  autorewrite with pilot. rewrite u32_small_diff by done.
  unfold half in *. case_zif; lia.
Qed.

Lemma u32_inj_near x y :
  - half < x - y < half → u32 x = u32 y → x = y.
Proof.
  intros Hd He.
  assert (u32 (x - y) = 0) as H0.
  { rewrite <- u32_sub_l, He, u32_sub_l, Z.sub_diag. done. }
  rewrite u32_small_diff in H0 by done. unfold half in *.
  revert H0. case_zif; lia.
Qed.

Lemma seqAfter_near_false x y :
  - half < x - y < half → (seqAfter (u32 x) (u32 y) = false ↔ x <= y).
Proof.
  intros Hd. pose proof (seqAfter_near x y Hd).
  destruct (seqAfter _ _); intuition (try discriminate; lia).
Qed.

Lemma seqAfterOrEqual_near_false x y :
  - half < x - y < half → (seqAfterOrEqual (u32 x) (u32 y) = false ↔ x < y).
Proof.
  intros Hd. pose proof (seqAfterOrEqual_near x y Hd).
  destruct (seqAfterOrEqual _ _); intuition (try discriminate; lia).
Qed.

Lemma seqAfterOrEqual_refl a : seqAfterOrEqual a a = true.
Proof. unfold seqAfterOrEqual. by rewrite Z.eqb_refl. Qed.
#[export] Hint Resolve seqAfterOrEqual_refl : pilot.

(** The comparison is a strict order on any stretch of the stream shorter
    than half the sequence space: on offsets less than 2^31 apart the wrapped
    comparison is the order of the offsets, [seqAfterOrEqual] is its reflexive
    closure, and at exactly 2^31 neither number is after the other. *)
Theorem seqAfter_offsets x y :
  (- half < x - y < half →
     seqAfter (u32 x) (u32 y) = (y <? x) ∧
     seqAfterOrEqual (u32 x) (u32 y) = (y <=? x)) ∧
  (x - y = half →
     seqAfter (u32 x) (u32 y) = false ∧ seqAfter (u32 y) (u32 x) = false).
Proof.
  split.
  - intros Hd. split; apply eq_bool_prop_intro; rewrite !Is_true_true.
    + rewrite Z.ltb_lt. by apply seqAfter_near.
    + rewrite Z.leb_le. by apply seqAfterOrEqual_near.
  - intros He. rewrite !seqAfter_wrapped. unfold seqAfter.
    rewrite He. replace (y - x) with (- half) by lia. done.
Qed.

Lemma seqAfter_offsets_witness :
  seqAfter 5 4294967290 = true ∧ seqAfter 4294967290 5 = false.
Proof.
  pose proof (proj1 (seqAfter_offsets 4294967301 4294967290)) as H.
  change (u32 4294967301) with 5 in H. change (u32 4294967290) with 4294967290 in H.
  destruct H as [H _]; [unfold half; lia|]. split; [exact H|reflexivity].
Defined.
