(* ===== verification/Sack.v ===== *)
(** * SACK payload codec (pkg/daemon/ports.go, [EncodeSACK] and [DecodeSACK])

    An ACK that reports out-of-order data carries
    ["SACK" | count | count * (Left:4, Right:4)] as its payload. *)
From S2P Require Import Prelude.
Open Scope Z_scope.

Record SACKBlock := mkSACKBlock { Left : Z; Right : Z }.
#[export] Instance SACKBlock_eq_dec : EqDecision SACKBlock.
Proof. solve_decision. Defined.

(** ["SACK"] *)
Definition sackMagic : bytes := [83; 65; 67; 75].

Definition putBlock (b : SACKBlock) : bytes := PutUint32 (Left b) ++ PutUint32 (Right b).

(** The buffer is written front to back: the magic, the count byte, then block
    [i] at offset [5 + 8*i] for the first [n] blocks. *)
Definition EncodeSACK (blocks : list SACKBlock) : bytes :=
  match blocks with
  | [] => []
  | _ =>
      let n := if Nat.ltb 4 (length blocks) then 4%nat else length blocks in
      sackMagic ++ [u8 (Z.of_nat n)] ++ concat (map putBlock (take n blocks))
  end.

Definition getBlock (data : bytes) (i : nat) : SACKBlock :=
  let off := (5 + i * 8)%nat in
  mkSACKBlock (Uint32 (slice off (off + 4) data)) (Uint32 (slice (off + 4) (off + 8) data)).

(** [None] is the source's [nil, false]. *)
Definition DecodeSACK (data : bytes) : option (list SACKBlock) :=
  if Nat.ltb (length data) 5 || negb (bool_decide (slice 0 4 data = sackMagic)) then None
  else
    let n := Z.to_nat (nth 4 data 0) in
    if Nat.eqb n 0 || Nat.ltb 4 n || Nat.ltb (length data) (5 + n * 8) then None
    else Some (map (getBlock data) (seq 0 n)).

Definition block_ok (b : SACKBlock) : Prop := is_u32 (Left b) ∧ is_u32 (Right b).

(** ** Lemmas *)

Lemma length_putBlock b : length (putBlock b) = 8%nat.
Proof. unfold putBlock, PutUint32. rewrite length_app, !length_be_put. done. Qed.

Lemma length_putBlocks l : length (concat (map putBlock l)) = (8 * length l)%nat.
Proof.
  induction l as [|b l IH]; [done|]. cbn [map concat length].
  rewrite length_app, length_putBlock, IH. lia.
Qed.

Lemma getBlock_skip b h data i :
  length h = 5%nat →
  getBlock (h ++ putBlock b ++ data) (S i) = getBlock (h ++ data) i.
Proof.
  intros Hh. unfold getBlock, slice.
  rewrite !app_assoc.
  assert (length (h ++ putBlock b) = 13%nat) as Hl
    by (rewrite length_app, length_putBlock; lia).
  rewrite !drop_app_ge by lia. rewrite Hl, Hh.
  f_equal; do 2 f_equal; try lia; f_equal; lia.
Qed.

Lemma getBlock_first b h data :
  length h = 5%nat → block_ok b → getBlock (h ++ putBlock b ++ data) 0 = b.
Proof.
  intros Hh [HL HR]. unfold getBlock, slice.
  assert (length (PutUint32 (Left b)) = 4%nat) as H1 by apply length_be_put.
  assert (length (PutUint32 (Right b)) = 4%nat) as H2 by apply length_be_put.
  rewrite !(drop_app_ge h) by lia. rewrite Hh. unfold putBlock. rewrite <- app_assoc.
  change (5 + 0 * 8 - 5)%nat with 0%nat. change (5 + 0 * 8 + 4 - 5)%nat with 4%nat.
  change (5 + 0 * 8 + 4 - (5 + 0 * 8))%nat with 4%nat.
  change (5 + 0 * 8 + 8 - (5 + 0 * 8 + 4))%nat with 4%nat.
  rewrite (drop_app_ge (PutUint32 (Left b)) _ 4), H1 by lia.
  rewrite Nat.sub_diag, !drop_0, !take_app_le, !take_ge by lia.
  destruct b as [L R]; simpl in *. f_equal;
    (match goal with |- Uint32 ?x = _ => rewrite <- (app_nil_r x) end);
    by apply Uint32_Put.
Qed.

Lemma getBlocks_put l h rest :
  length h = 5%nat → Forall block_ok l →
  map (getBlock (h ++ concat (map putBlock l) ++ rest)) (seq 0 (length l)) = l.
Proof.
  intros Hh. induction 1 as [|b l Hb Hl IH]; [done|].
  cbn [length seq map concat]. rewrite <- !app_assoc.
  rewrite getBlock_first by done. f_equal.
  rewrite <- seq_shift, map_map. erewrite map_ext; [exact IH|].
  intros i. by apply getBlock_skip.
Qed.

Lemma be_take_split (n m : nat) (l : bytes) :
  take (n + m) l = take n l ++ take m (drop n l).
Proof. revert l; induction n; intros [|x l]; simpl; rewrite ?take_nil; try f_equal; auto. Qed.

Lemma putBlock_getBlock data i :
  bytes_ok data → (5 + i * 8 + 8 ≤ length data)%nat →
  putBlock (getBlock data i) = take 8 (drop (5 + i * 8) data).
Proof.
  intros Hok Hlen. unfold putBlock, getBlock, slice, PutUint32, Uint32. cbn [Left Right].
  set (off := (5 + i * 8)%nat) in *.
  replace (off + 4 - off)%nat with 4%nat by lia.
  replace (off + 8 - (off + 4))%nat with 4%nat by lia.
  rewrite !take_take. change (4 `min` 4)%nat with 4%nat.
  rewrite (be_take_split 4 4), drop_drop.
  assert (∀ k, (k + 4 ≤ length data)%nat →
    be_put 4 (be_get (take 4 (drop k data))) = take 4 (drop k data)) as Hput.
  { intros k Hk.
    assert (length (take 4 (drop k data)) = 4%nat) as Hl
      by (rewrite length_take, length_drop; lia).
    rewrite <- Hl at 1. apply be_put_get. auto with pilot. }
  rewrite !Hput by lia. done.
Qed.

Lemma concat_putBlocks_get data n :
  bytes_ok data → (5 + n * 8 ≤ length data)%nat →
  concat (map putBlock (map (getBlock data) (seq 0 n))) = take (8 * n) (drop 5 data).
Proof.
  intros Hok. induction n as [|n IH]; intros Hlen; [done|].
  rewrite seq_S, !map_app, concat_app, IH by lia. cbn [map concat].
  rewrite app_nil_r, Nat.add_0_l, putBlock_getBlock by (done || lia).
  replace (8 * S n)%nat with (8 * n + 8)%nat by lia.
  rewrite be_take_split, drop_drop. do 3 f_equal. lia.
Qed.

Lemma DecodeSACK_Encode_app l rest :
  l ≠ [] → (length l ≤ 4)%nat → Forall block_ok l →
  DecodeSACK (EncodeSACK l ++ rest) = Some l.
Proof.
  intros Hne Hlen Hok. unfold EncodeSACK.
  destruct l as [|b l']; [done|]. set (l := b :: l') in *.
  destruct (Nat.ltb_spec 4 (length l)) as [|_]; [lia|].
  rewrite take_ge by lia.
  set (h := sackMagic ++ [u8 (Z.of_nat (length l))]).
  rewrite app_assoc, <- app_assoc. fold h.
  assert (length h = 5%nat) as Hh by done.
  unfold DecodeSACK.
  set (data := h ++ concat (map putBlock l) ++ rest).
  assert (length data = 5 + 8 * length l + length rest)%nat as Hd.
  { unfold data. rewrite !length_app, length_putBlocks, Hh. lia. }
  destruct (Nat.ltb_spec (length data) 5); [lia|].
  rewrite bool_decide_eq_true_2 by done. cbn [negb orb].
  assert (Z.to_nat (nth 4 data 0) = length l) as ->.
  { unfold data, h. cbn [app nth sackMagic]. unfold u8.
    rewrite Z.mod_small by lia. lia. }
  destruct (Nat.eqb_spec (length l) 0); [done|].
  destruct (Nat.ltb_spec 4 (length l)); [lia|].
  destruct (Nat.ltb_spec (length data) (5 + length l * 8)); [lia|].
  cbn [orb]. f_equal. by apply getBlocks_put.
Qed.

Lemma EncodeSACK_take l : EncodeSACK (take 4 l) = EncodeSACK l.
Proof.
  destruct l as [|a [|b [|c [|d [|e l]]]]]; try reflexivity.
Qed.

(** Whatever the blocks, their encoding is taken for SACK data. *)
Lemma EncodeSACK_decodes l : l ≠ [] → is_Some (DecodeSACK (EncodeSACK l)).
Proof.
  intros Hne. rewrite <- EncodeSACK_take.
  destruct l as [|a [|b [|c [|d [|e l]]]]]; [done|..]; eexists; reflexivity.
Qed.

(** Round trip, with the truncation the encoder applies: decoding the
    encoding of a non-empty block list gives its first four blocks, whatever
    bytes follow. *)
Theorem DecodeSACK_EncodeSACK l rest :
  l ≠ [] → Forall block_ok l →
  DecodeSACK (EncodeSACK l ++ rest) = Some (take 4 l).
Proof.
  intros Hne Hok. rewrite <- EncodeSACK_take. apply DecodeSACK_Encode_app.
  - by destruct l.
  - rewrite length_take. lia.
  - by apply Forall_take.
Qed.

Lemma DecodeSACK_EncodeSACK_witness :
  DecodeSACK (EncodeSACK [mkSACKBlock 1500 1600] ++ [7]) = Some [mkSACKBlock 1500 1600].
Proof.
  apply (DecodeSACK_EncodeSACK [mkSACKBlock 1500 1600] [7]); [discriminate|].
  constructor; [|constructor]. unfold block_ok, is_u32. simpl. lia.
Defined.

Lemma DecodeSACK_inv data bs :
  DecodeSACK data = Some bs →
  (5 ≤ length data)%nat ∧ slice 0 4 data = sackMagic ∧
  ∃ n, n = Z.to_nat (nth 4 data 0) ∧ (1 ≤ n ≤ 4)%nat ∧
       (5 + n * 8 ≤ length data)%nat ∧ bs = map (getBlock data) (seq 0 n).
Proof.
  unfold DecodeSACK.
  destruct (Nat.ltb_spec (length data) 5); [done|].
  case_bool_decide as Hm; [|done]. cbn [negb orb].
  set (n := Z.to_nat (nth 4 data 0)).
  destruct (Nat.eqb_spec n 0); [done|]. destruct (Nat.ltb_spec 4 n); [done|].
  destruct (Nat.ltb_spec (length data) (5 + n * 8)); [done|].
  cbn [orb]. intros [= <-]. split_and!; [lia|done|].
  exists n. split_and!; (done || lia).
Qed.

(** The decoder accepts exactly the payloads that begin with an encoded
    block list: it succeeds with [bs] iff [bs] has one to four well-formed
    blocks and the payload is [EncodeSACK bs] followed by anything. *)
Theorem DecodeSACK_exact data bs :
  bytes_ok data →
  (DecodeSACK data = Some bs ↔
   (1 ≤ length bs ≤ 4)%nat ∧ Forall block_ok bs ∧ ∃ rest, data = EncodeSACK bs ++ rest).
Proof.
  intros Hok. split.
  - intros (Hl & Hm & n & Hn & Hb & Hlen & ->)%DecodeSACK_inv.
    rewrite length_map, length_seq. split_and!; [lia|lia| |].
    + apply Forall_forall. intros b Hb'. apply list_elem_of_In, in_map_iff in Hb'.
      destruct Hb' as (i & <- & _). split; cbn; apply Uint32_range; unfold slice;
        auto with pilot.
    + exists (drop (5 + 8 * n) data).
      unfold EncodeSACK. destruct (map _ _) as [|b l'] eqn:E.
      { apply (f_equal length) in E. rewrite length_map, length_seq in E. simpl in E. lia. }
      rewrite <- E. rewrite length_map, length_seq.
      destruct (Nat.ltb_spec 4 n); [lia|].
      rewrite take_ge by (rewrite length_map, length_seq; lia).
      rewrite concat_putBlocks_get by (done || lia).
      rewrite <- (take_drop 5 data) at 1.
      assert (take 5 data = sackMagic ++ [u8 (Z.of_nat n)]) as ->.
      { rewrite (be_take_split 4 1). f_equal; [exact Hm|].
        rewrite Hn. clear -Hl Hok.
        destruct data as [|? [|? [|? [|? [|x ?]]]]]; simpl in Hl; try lia.
        simpl. unfold bytes_ok in Hok. rewrite !Forall_cons in Hok.
        destruct Hok as (_&_&_&_&Hx&_). unfold is_u8, u8 in *.
        rewrite Z2Nat.id, Z.mod_small by lia. done. }
      rewrite <- !app_assoc. do 2 f_equal.
      rewrite <- (take_drop (8 * n) (drop 5 data)) at 1. by rewrite drop_drop.
  - intros (Hlen & Hbok & rest & ->). apply DecodeSACK_Encode_app; [|lia|done].
    intros ->. simpl in Hlen. lia.
Qed.

Lemma DecodeSACK_exact_witness :
  ∃ rest, [83; 65; 67; 75; 1; 0; 0; 5; 220; 0; 0; 6; 64; 1; 2] =
          EncodeSACK [mkSACKBlock 1500 1600] ++ rest.
Proof.
  refine (proj2 (proj2 (proj1 (DecodeSACK_exact _ _ _) _))).
  - repeat constructor; unfold is_u8; lia.
  - reflexivity.
Defined.
