(* ===== verification/Bitmap.v ===== *)
(** * Bitmaps over [uint64] words

    The source keeps two bitmaps as Go arrays of [uint64]: the replay window of
    a session ([Crypto.ReplayBitmap], 4 words) and the ephemeral-port map
    ([PortManager.ephBitmap], 256 words).  Both are indexed by a word number
    and a bit number.  This file gives the word operations the source uses and
    the view of the array as a function from bit positions to [bool]. *)
From S2P Require Import Prelude.
Open Scope Z_scope.

Definition word_at (bm : list Z) (w : Z) : Z := nth (Z.to_nat w) bm 0.

(** [bm[w] & (1<<b) != 0] *)
Definition bm_test (bm : list Z) (w b : Z) : bool :=
  negb (Z.land (word_at bm w) (Z.shiftl 1 b) =? 0).
(** [bm[w] |= 1 << b] *)
Definition bm_set (bm : list Z) (w b : Z) : list Z :=
  <[Z.to_nat w := Z.lor (word_at bm w) (Z.shiftl 1 b)]> bm.
(** [bm[w] &^= 1 << b] *)
Definition bm_clear (bm : list Z) (w b : Z) : list Z :=
  <[Z.to_nat w := Z.ldiff (word_at bm w) (Z.shiftl 1 b)]> bm.
(** [[n]uint64{}] *)
Definition bm_zero (n : nat) : list Z := replicate n 0.

(** The bit at position [i], in word [i/64], bit [i%64]. *)
Definition bm_bit (bm : list Z) (i : Z) : bool := Z.testbit (word_at bm (i / 64)) (i mod 64).

Definition bm_wf (n : nat) (bm : list Z) : Prop :=
  length bm = n ∧ Forall is_u64 bm.

Lemma testbit_one_shift b j : 0 <= b → Z.testbit (Z.shiftl 1 b) j = (b =? j).
Proof. intros. rewrite Z.shiftl_1_l. by apply Z.pow2_bits_eqb. Qed.

Lemma bm_test_bit bm w b : 0 <= b → bm_test bm w b = Z.testbit (word_at bm w) b.
Proof.
  intros Hb. unfold bm_test.
  destruct (Z.testbit (word_at bm w) b) eqn:E.
  - apply negb_true_iff, Z.eqb_neq. intros H0.
    apply (f_equal (λ z, Z.testbit z b)) in H0.
    rewrite Z.land_spec, testbit_one_shift, E, Z.eqb_refl, Z.bits_0 in H0 by done. done.
  - apply negb_false_iff, Z.eqb_eq, Z.bits_inj'. intros j Hj.
    rewrite Z.land_spec, testbit_one_shift, Z.bits_0 by done.
    destruct (Z.eqb_spec b j); subst; by rewrite ?E, ?andb_false_r.
Qed.

Lemma bm_test_at bm i : bm_test bm (i / 64) (i mod 64) = bm_bit bm i.
Proof. apply bm_test_bit. by apply Z.mod_pos_bound. Qed.

Lemma word_at_insert bm w w' x :
  0 <= w < Z.of_nat (length bm) → 0 <= w' →
  word_at (<[Z.to_nat w := x]> bm) w' = if w =? w' then x else word_at bm w'.
Proof.
  intros Hw Hw'. unfold word_at. rewrite !nth_lookup.
  destruct (Z.eqb_spec w w') as [->|Hne].
  - rewrite list_lookup_insert_eq by lia. done.
  - rewrite list_lookup_insert_ne by lia. done.
Qed.

Lemma pos_split i j : (i / 64 = j / 64 ∧ i mod 64 = j mod 64) ↔ i = j.
Proof.
  split; [|by intros ->]. intros [H1 H2].
  rewrite (Z.div_mod i 64), (Z.div_mod j 64) by lia. congruence.
Qed.

Lemma u64_bits x : 0 <= x → (∀ k, 64 <= k → Z.testbit x k = false) → is_u64 x.
Proof.
  intros H0 Hk. split; [done|]. change 18446744073709551616 with (2 ^ 64).
  destruct (Z.eq_dec x 0) as [->|]; [lia|].
  apply Z.log2_lt_pow2; [lia|].
  destruct (Z.lt_ge_cases (Z.log2 x) 64) as [|Hge]; [done|].
  specialize (Hk _ Hge). rewrite Z.bit_log2 in Hk by lia. done.
Qed.

Lemma u64_high x k : is_u64 x → 64 <= k → Z.testbit x k = false.
Proof.
  intros [H0 H1] Hk. destruct (Z.eq_dec x 0) as [->|]; [apply Z.bits_0|].
  apply Z.bits_above_log2; [done|].
  change 18446744073709551616 with (2 ^ 64) in H1.
  apply Z.log2_lt_pow2 in H1; lia.
Qed.

Section ops.
Context (n : nat) (bm : list Z) (Hwf : bm_wf n bm).
Context (i : Z) (Hi : 0 <= i < 64 * Z.of_nat n).

Local Lemma word_range : 0 <= i / 64 < Z.of_nat (length bm).
Proof.
  destruct Hwf as [-> _]. split; [apply Z.div_pos; lia|].
  apply Z.div_lt_upper_bound; lia.
Qed.

Lemma bm_bit_set j :
  0 <= j → bm_bit (bm_set bm (i / 64) (i mod 64)) j = (i =? j) || bm_bit bm j.
Proof using Hwf Hi.
  intros Hj. unfold bm_bit, bm_set.
  rewrite word_at_insert by (apply word_range || (apply Z.div_pos; lia)).
  pose proof (pos_split i j) as Hp.
  destruct (Z.eqb_spec (i / 64) (j / 64)) as [He|Hne].
  - rewrite Z.lor_spec, testbit_one_shift, He, orb_comm by by apply Z.mod_pos_bound.
    destruct (Z.eqb_spec (i mod 64) (j mod 64)), (Z.eqb_spec i j);
      try done; exfalso; intuition congruence.
  - destruct (Z.eqb_spec i j); [|done]. subst. done.
Qed.

Lemma bm_bit_clear j :
  0 <= j → bm_bit (bm_clear bm (i / 64) (i mod 64)) j = negb (i =? j) && bm_bit bm j.
Proof using Hwf Hi.
  intros Hj. unfold bm_bit, bm_clear.
  rewrite word_at_insert by (apply word_range || (apply Z.div_pos; lia)).
  pose proof (pos_split i j) as Hp.
  destruct (Z.eqb_spec (i / 64) (j / 64)) as [He|Hne].
  - rewrite Z.ldiff_spec, testbit_one_shift, He, andb_comm by by apply Z.mod_pos_bound.
    destruct (Z.eqb_spec (i mod 64) (j mod 64)), (Z.eqb_spec i j);
      try done; exfalso; intuition congruence.
  - destruct (Z.eqb_spec i j); [|done]. subst. done.
Qed.

Lemma word_at_u64 w : is_u64 (word_at bm w).
Proof using Hwf.
  unfold word_at. rewrite nth_lookup. destruct (bm !! _) eqn:E; simpl.
  - destruct Hwf as [_ H]. by eapply Forall_lookup_1.
  - unfold is_u64. lia.
Qed.

Lemma bm_set_wf : bm_wf n (bm_set bm (i / 64) (i mod 64)).
Proof using Hwf.
  split; [unfold bm_set; rewrite length_insert; apply Hwf|].
  apply Forall_insert; [apply Hwf|].
  pose proof (word_at_u64 (i / 64)) as Hw.
  pose proof (Z.mod_pos_bound i 64 ltac:(lia)) as Hb.
  apply u64_bits.
  - apply Z.lor_nonneg. split; [apply Hw|]. apply Z.shiftl_nonneg. lia.
  - intros k Hk. rewrite Z.lor_spec, testbit_one_shift, (u64_high _ k) by (done || lia).
    simpl. apply Z.eqb_neq. lia.
Qed.

Lemma bm_clear_wf : bm_wf n (bm_clear bm (i / 64) (i mod 64)).
Proof using Hwf.
  split; [unfold bm_clear; rewrite length_insert; apply Hwf|].
  apply Forall_insert; [apply Hwf|].
  pose proof (word_at_u64 (i / 64)) as Hw.
  apply u64_bits.
  - apply Z.ldiff_nonneg. left. apply Hw.
  - intros k Hk. rewrite Z.ldiff_spec, (u64_high _ k) by done. done.
Qed.
End ops.

Lemma bm_zero_wf n : bm_wf n (bm_zero n).
Proof.
  split; [apply length_replicate|]. apply Forall_replicate. unfold is_u64. lia.
Qed.

Lemma bm_zero_bit n i : bm_bit (bm_zero n) i = false.
Proof.
  unfold bm_bit, bm_zero, word_at. rewrite nth_lookup.
  destruct (replicate n 0 !! _) eqn:E; simpl; [|apply Z.bits_0].
  apply lookup_replicate in E as [-> _]. apply Z.bits_0.
Qed.

#[export] Hint Resolve bm_set_wf bm_clear_wf bm_zero_wf : pilot.
