(* ===== verification/Crypto.v ===== *)
(** * Per-peer session state and its replay window
    (pkg/daemon/keyexchange/crypto.go)

    [Crypto] is the state of one AEAD session.  [CheckAndRecordNonce] is the
    sliding-window replay filter: the highest counter received and a 256-bit
    bitmap addressed by the counter modulo 256.  Its specification is a window
    that remembers every counter it ever accepted ([Spec]); the refinement
    theorem says the bitmap gives the same verdicts. *)
From S2P Require Import Prelude Bitmap.
Open Scope Z_scope.

Definition ReplayWindowSize : Z := 256.
Definition SalvageMaxEntries : nat := 4.
Definition SalvageMaxAge : duration := 5 * Second.
Definition DecryptFailDropThreshold : Z := 5.
Definition OutsideWindowDropThreshold : Z := 5.
Definition OutsideWindowDropGrace : duration := 1 * Second.
Definition ReplayDropThreshold : Z := 5.
Definition ReplayDropGrace : duration := 1 * Second.
Definition AgedCryptoFastDropAge : duration := 60 * Second.
Definition DecryptFailDropGrace : duration := 3 * Second.

Record SalvageEntry := mkSalvageEntry { Plaintext : bytes; When : gotime }.

(** [K] is the type of an opened [cipher.AEAD] (see Envelope). The mutexes of
    the source guard single fields and have no state of their own here. *)
Record Crypto {K : Type} := mkCrypto {
  AEAD : K;
  Nonce : Z;                 (* uint64 send counter *)
  NoncePrefix : bytes;       (* 4 bytes *)
  MaxRecvNonce : Z;          (* uint64 *)
  ReplayBitmap : list Z;     (* [4]uint64 *)
  Ready : bool;
  Authenticated : bool;
  PeerX25519Key : bytes;     (* 32 bytes *)
  DecryptFailCount : Z;
  OutsideWindowCount : Z;
  ReplayCount : Z;
  CreatedAt : gotime;
  Salvage : list SalvageEntry;
}.
Arguments Crypto : clear implicits.
Arguments mkCrypto {K}.

Section Replay.
Context {K : Type}.
Implicit Types c : Crypto K.

Definition with_replay c (m : Z) (bm : list Z) : Crypto K :=
  mkCrypto (AEAD c) (Nonce c) (NoncePrefix c) m bm (Ready c) (Authenticated c)
    (PeerX25519Key c) (DecryptFailCount c) (OutsideWindowCount c) (ReplayCount c)
    (CreatedAt c) (Salvage c).

(** [bit := counter % ReplayWindowSize; bm[bit/64] |= 1 << (bit%64)] *)
Definition SetReplayBit c (counter : Z) : Crypto K :=
  let bit := counter mod ReplayWindowSize in
  with_replay c (MaxRecvNonce c) (bm_set (ReplayBitmap c) (bit / 64) (bit mod 64)).

Definition UndoReplayBit c (counter : Z) : Crypto K :=
  let bit := counter mod ReplayWindowSize in
  with_replay c (MaxRecvNonce c) (bm_clear (ReplayBitmap c) (bit / 64) (bit mod 64)).

(** [for s := 0; s < shift; s++ { newBit := (counter-s) % W; clear newBit }] *)
Fixpoint clear_new (bm : list Z) (counter : Z) (s : Z) (fuel : nat) : list Z :=
  match fuel with
  | O => bm
  | S fuel =>
      let newBit := u64 (counter - s) mod ReplayWindowSize in
      clear_new (bm_clear bm (newBit / 64) (newBit mod 64)) counter (s + 1) fuel
  end.

Definition CheckAndRecordNonce c (counter : Z) : bool * Crypto K :=
  if MaxRecvNonce c =? 0 then
    (true, SetReplayBit (with_replay c counter (ReplayBitmap c)) counter)
  else if MaxRecvNonce c <? counter then
    let shift := u64 (counter - MaxRecvNonce c) in
    let bm :=
      if ReplayWindowSize <=? shift then bm_zero 4
      else clear_new (ReplayBitmap c) counter 0 (Z.to_nat shift) in
    (true, SetReplayBit (with_replay c counter bm) counter)
  else
    let diff := u64 (MaxRecvNonce c - counter) in
    if ReplayWindowSize <=? diff then (false, c)
    else
      let bit := counter mod ReplayWindowSize in
      if bm_test (ReplayBitmap c) (bit / 64) (bit mod 64) then (false, c)
      else (true, SetReplayBit c counter).

Definition WouldAcceptNonce c (counter : Z) : bool :=
  if MaxRecvNonce c =? 0 then true
  else if MaxRecvNonce c <? counter then true
  else if ReplayWindowSize <=? u64 (MaxRecvNonce c - counter) then false
  else
    let bit := counter mod ReplayWindowSize in
    negb (bm_test (ReplayBitmap c) (bit / 64) (bit mod 64)).

(** Feed a sequence of counters through the filter, collecting the verdicts. *)
Fixpoint run_replay c (l : list Z) : list bool * Crypto K :=
  match l with
  | [] => ([], c)
  | n :: l =>
      let '(ok, c) := CheckAndRecordNonce c n in
      let '(oks, c) := run_replay c l in (ok :: oks, c)
  end.

(** ** Specification: a filter that remembers every counter it accepted. *)
Record Spec := mkSpec { smax : Z; seen : gset Z }.
Definition spec_init : Spec := mkSpec 0 ∅.
Definition spec_accepts (s : Spec) (n : Z) : bool :=
  bool_decide (n ∉ seen s) && (smax s - n <? ReplayWindowSize).
Definition spec_step (s : Spec) (n : Z) : bool * Spec :=
  if spec_accepts s n then (true, mkSpec (Z.max (smax s) n) ({[n]} ∪ seen s)) else (false, s).
Fixpoint run_spec (s : Spec) (l : list Z) : list bool * Spec :=
  match l with
  | [] => ([], s)
  | n :: l =>
      let '(ok, s) := spec_step s n in
      let '(oks, s) := run_spec s l in (ok :: oks, s)
  end.

(** A counter a sender can emit: [EncryptWith] pre-increments, so it is never 0. *)
Definition sent_counter (n : Z) : Prop := 1 <= n < 18446744073709551616.

(** Simulation relation: the bitmap records exactly the accepted counters among
    the 256 the window covers, each at its own residue. *)
Record refines c (s : Spec) : Prop := mkRefines {
  ref_max : MaxRecvNonce c = smax s;
  ref_wf : bm_wf 4 (ReplayBitmap c);
  ref_range : 0 <= smax s < 18446744073709551616;
  ref_seen : ∀ n, n ∈ seen s → 1 <= n <= smax s;
  ref_empty : smax s = 0 → seen s = ∅;
  ref_bits : ∀ n, smax s - 256 < n <= smax s →
    bm_bit (ReplayBitmap c) (n mod 256) = bool_decide (n ∈ seen s);
}.

(** ** Lemmas *)

Lemma window_mod_range n : 0 <= n mod 256 < 64 * Z.of_nat 4.
Proof. pose proof (Z.mod_pos_bound n 256). lia. Qed.

(** Two positions of one 256-wide window with the same residue are equal. *)
Lemma window_mod_inj a b m :
  m - 256 < a <= m → m - 256 < b <= m → a mod 256 = b mod 256 → a = b.
Proof.
  intros Ha Hb He. pose proof (Z.div_mod a 256). pose proof (Z.div_mod b 256).
  assert (a / 256 = b / 256 ∨ a / 256 < b / 256 ∨ b / 256 < a / 256) by lia. nia.
Qed.

Lemma clear_new_wf bm counter s f : bm_wf 4 bm → bm_wf 4 (clear_new bm counter s f).
Proof.
  revert bm s. induction f as [|f IH]; intros bm s Hwf; [done|].
  cbn [clear_new]. apply IH. auto with pilot.
Qed.

(** Clearing [f] positions down from [counter - s]. *)
Lemma clear_new_bit bm counter s f j :
  bm_wf 4 bm → 0 <= j < 256 →
  0 <= counter - s - Z.of_nat f + 1 → counter < 18446744073709551616 → 0 <= s →
  bm_bit (clear_new bm counter s f) j =
    bm_bit bm j && negb (existsb (λ k, (counter - s - Z.of_nat k) mod 256 =? j) (seq 0 f)).
Proof.
  revert bm s. induction f as [|f IH]; intros bm s Hwf Hj Hlo Hhi Hs.
  { by rewrite andb_true_r. }
  cbn [clear_new seq existsb]. rewrite u64_id by (unfold is_u64; lia).
  unfold ReplayWindowSize.
  rewrite IH by (auto with pilot || lia).
  rewrite (bm_bit_clear 4 bm Hwf _ (window_mod_range _)) by lia.
  rewrite Z.sub_0_r, negb_orb, (andb_comm (negb (_ =? j))), <- !andb_assoc.
  f_equal. f_equal. f_equal.
  rewrite <- seq_shift. rewrite existsb_map.
  apply existsb_ext. intros k. do 2 f_equal. lia.
Qed.

Lemma clear_new_window bm max counter n :
  bm_wf 4 bm → 0 <= max < counter → counter - max < 256 →
  counter < 18446744073709551616 → counter - 256 < n <= counter →
  bm_bit (clear_new bm counter 0 (Z.to_nat (counter - max))) (n mod 256) =
    bm_bit bm (n mod 256) && (n <=? max).
Proof.
  intros Hwf Hm Hsh Hhi Hn.
  rewrite clear_new_bit by (done || lia || apply (Z.mod_pos_bound n 256); lia).
  f_equal. apply eq_bool_prop_intro. rewrite !Is_true_true, negb_true_iff, Z.leb_le.
  split.
  - intros Hex. destruct (Z.le_gt_cases n max) as [|Hgt]; [done|exfalso].
    apply Bool.not_true_iff_false in Hex. apply Hex. apply existsb_exists.
    exists (Z.to_nat (counter - n)). rewrite in_seq. split; [lia|].
    apply Z.eqb_eq. f_equal. lia.
  - intros Hle. apply Bool.not_true_iff_false. rewrite existsb_exists.
    intros (k & Hk & He%Z.eqb_eq). rewrite in_seq in Hk.
    pose proof (window_mod_inj (counter - 0 - Z.of_nat k) n counter) as Hinj. lia.
Qed.

Lemma refines_init (c : Crypto K) :
  MaxRecvNonce c = 0 → ReplayBitmap c = bm_zero 4 → refines c spec_init.
Proof.
  intros Hm Hb. constructor; simpl; rewrite ?Hb; auto with pilot; try set_solver; try lia.
  intros n _. by rewrite bm_zero_bit.
Qed.

(** The three accepting branches all leave a state of this shape. *)
Lemma refines_set c s m bm n :
  refines c s → sent_counter n → m = Z.max (smax s) n → bm_wf 4 bm →
  (∀ k, m - 256 < k <= m → k ≠ n →
     bm_bit bm (k mod 256) = bool_decide (k ∈ seen s)) →
  m - 256 < n →
  refines (SetReplayBit (with_replay c m bm) n) (mkSpec m ({[n]} ∪ seen s)).
Proof.
  intros [] Hn -> Hwf Hbits Hin. unfold sent_counter in *.
  constructor; cbn [MaxRecvNonce ReplayBitmap SetReplayBit with_replay smax seen].
  - done.
  - auto with pilot.
  - lia.
  - intros k [->%elem_of_singleton|Hk%ref_seen0]%elem_of_union; lia.
  - lia.
  - intros k Hk. unfold ReplayWindowSize.
    rewrite (bm_bit_set 4 bm Hwf _ (window_mod_range _)) by apply Z.mod_pos_bound, eq_refl.
    destruct (decide (k = n)) as [->|Hne].
    + rewrite Z.eqb_refl. symmetry. apply bool_decide_eq_true. set_solver.
    + destruct (Z.eqb_spec (n mod 256) (k mod 256)) as [He|_].
      { exfalso. apply Hne. symmetry. by apply (window_mod_inj _ _ (smax s `max` n)); [lia|lia|]. }
      simpl. rewrite Hbits by done. apply bool_decide_ext. set_solver.
Qed.

Lemma with_replay_id c : with_replay c (MaxRecvNonce c) (ReplayBitmap c) = c.
Proof. by destruct c. Qed.

(** One step of the filter simulates one step of the specification. *)
Lemma CheckAndRecordNonce_refines c s n :
  refines c s → sent_counter n →
  fst (CheckAndRecordNonce c n) = fst (spec_step s n) ∧
  refines (snd (CheckAndRecordNonce c n)) (snd (spec_step s n)).
Proof.
  intros Href Hn. pose proof Href as [Hmax Hwf Hrange Hseen Hempty Hbits].
  unfold CheckAndRecordNonce, spec_step, spec_accepts. rewrite Hmax.
  unfold sent_counter in Hn.
  destruct (Z.eqb_spec (smax s) 0) as [H0|H0].
  { rewrite (Hempty H0), bool_decide_eq_true_2 by set_solver.
    rewrite H0. destruct (Z.ltb_spec (0 - n) ReplayWindowSize); unfold ReplayWindowSize in *; [|lia].
    cbn [fst snd andb]. split; [done|].
    replace (Z.max 0 n) with n by lia. rewrite <- (Hempty H0).
    apply refines_set; try done; try lia.
    intros k Hk Hne. rewrite (Hempty H0), bool_decide_eq_false_2 by set_solver.
    (* with no counter recorded every residue is clear *)
    assert (∃ k', smax s - 256 < k' <= smax s ∧ k' mod 256 = k mod 256) as (k' & Hk' & He).
    { exists (k mod 256 - (if k mod 256 =? 0 then 0 else 256)).
      pose proof (Z.mod_pos_bound k 256). rewrite H0. case_zif; [|split; [lia|]].
      - split; [lia|]. rewrite Z.sub_0_r. apply Z.mod_mod. lia.
      - rewrite <- (Z.mod_add _ 1) by lia.
        replace (k mod 256 - 256 + 1 * 256) with (k mod 256) by lia. apply Z.mod_mod. lia. }
    rewrite <- He, Hbits, (Hempty H0), bool_decide_eq_false_2 by (done || set_solver). done. }
  destruct (Z.ltb_spec (smax s) n) as [Hgt|Hle].
  { rewrite bool_decide_eq_true_2 by (intros ?%Hseen; lia).
    destruct (Z.ltb_spec (smax s - n) ReplayWindowSize); unfold ReplayWindowSize in *; [|lia].
    cbn [fst snd andb]. split; [done|].
    rewrite u64_id by (unfold is_u64; lia).
    replace (Z.max (smax s) n) with n by lia.
    apply refines_set; try done; try lia.
    { case_zif; auto using clear_new_wf with pilot. }
    intros k Hk Hne. case_zif.
    - rewrite bm_zero_bit, bool_decide_eq_false_2; [done|]. intros ?%Hseen. lia.
    - rewrite clear_new_window by (done || lia).
      destruct (Z.leb_spec k (smax s)).
      + rewrite andb_true_r. apply Hbits. lia.
      + rewrite andb_false_r, bool_decide_eq_false_2; [done|]. intros ?%Hseen. lia. }
  rewrite u64_id by (unfold is_u64; lia).
  destruct (Z.leb_spec ReplayWindowSize (smax s - n)) as [Hold|Hwin].
  { destruct (Z.ltb_spec (smax s - n) ReplayWindowSize); [lia|].
    rewrite andb_false_r. done. }
  destruct (Z.ltb_spec (smax s - n) ReplayWindowSize); [|lia]. rewrite andb_true_r.
  unfold ReplayWindowSize in *. rewrite bm_test_at, Hbits by lia.
  destruct (decide (n ∈ seen s)) as [Hs|Hs].
  - rewrite bool_decide_eq_true_2, bool_decide_eq_false_2 by (done || naive_solver). done.
  - rewrite bool_decide_eq_false_2, bool_decide_eq_true_2 by done. split; [done|].
    cbn [snd]. rewrite <- (with_replay_id c), Hmax.
    replace (Z.max (smax s) n) with (smax s) by lia.
    apply refines_set; try done; try lia.
    intros. by apply Hbits.
Qed.

Lemma run_replay_refines c s l :
  refines c s → Forall sent_counter l →
  fst (run_replay c l) = fst (run_spec s l) ∧ refines (snd (run_replay c l)) (snd (run_spec s l)).
Proof.
  revert c s. induction l as [|n l IH]; intros c s Href Hl; [done|].
  inversion Hl as [|?? Hn Hl']; subst. cbn [run_replay run_spec].
  destruct (CheckAndRecordNonce_refines c s n Href Hn) as [He Hr].
  destruct (CheckAndRecordNonce c n) as [ok c'], (spec_step s n) as [ok' s'].
  simpl in He, Hr. subst ok'. destruct (IH c' s' Hr Hl') as [He' Hr'].
  destruct (run_replay c' l) as [oks c''], (run_spec s' l) as [oks' s''].
  simpl in *. by subst.
Qed.

(** [n] is accepted at position [i] of the run. *)
Definition accepted_at (l : list Z) (oks : list bool) (i : nat) (n : Z) : Prop :=
  l !! i = Some n ∧ oks !! i = Some true.

Lemma run_spec_seen s l i n :
  n ∈ seen s → ¬ accepted_at l (fst (run_spec s l)) i n.
Proof.
  revert s i. induction l as [|m l IH]; intros s i Hn [Hl Ho]; [done|].
  cbn [run_spec] in Ho. unfold spec_step, spec_accepts in Ho.
  destruct (bool_decide (m ∉ seen s) && _) eqn:E.
  - apply andb_true_iff in E as [E _]. apply bool_decide_eq_true in E.
    destruct (run_spec (mkSpec _ _) l) as [oks s'] eqn:Er.
    destruct i; simpl in *; simplify_eq; [done|].
    eapply (IH (mkSpec (Z.max (smax s) m) ({[m]} ∪ seen s)) i); [set_solver|].
    rewrite Er. done.
  - destruct (run_spec s l) as [oks s'] eqn:Er. destruct i; simpl in *; simplify_eq.
    eapply (IH s i); [done|]. rewrite Er. done.
Qed.

Lemma run_spec_once s l i j n :
  accepted_at l (fst (run_spec s l)) i n →
  accepted_at l (fst (run_spec s l)) j n → i = j.
Proof.
  revert s i j. induction l as [|m l IH]; intros s i j [Hi Oi] [Hj Oj]; [done|].
  cbn [run_spec] in Oi, Oj. destruct (spec_step s m) as [ok s'] eqn:Es.
  destruct (run_spec s' l) as [oks s''] eqn:Er. simpl in Oi, Oj.
  assert (ok = true → m ∈ seen s') as Hseen.
  { intros ->. unfold spec_step in Es. destruct (spec_accepts s m); simplify_eq. simpl. set_solver. }
  destruct i as [|i], j as [|j]; simpl in *; simplify_eq; try done.
  - exfalso. eapply (run_spec_seen s' l j n); [auto|]. by rewrite Er.
  - exfalso. eapply (run_spec_seen s' l i n); [auto|]. by rewrite Er.
  - f_equal. eapply (IH s'); rewrite Er; done.
Qed.
End Replay.

(** A freshly derived session: nothing received yet. *)
Definition fresh_window {K} (c : Crypto K) : Prop :=
  MaxRecvNonce c = 0 ∧ ReplayBitmap c = bm_zero 4.

Definition example_crypto : Crypto unit :=
  mkCrypto tt 0 [1; 2; 3; 4] 0 (bm_zero 4) true true (replicate 32 7) 0 0 0 0 [].

(** C5. Refinement: over any sequence of counters from 1 to 2^64-1, which are the
    ones senders use (counter 0 is never sent, and the bitmap does not remember
    it: [counter_zero_is_replayable]), the 256-bit sliding bitmap of a fresh
    session gives exactly the verdicts of a filter that remembers every counter it
    accepted and rejects a counter iff it was accepted before or is 256 or more
    below the highest one. *)
Theorem replay_window_refines_spec {K} (c : Crypto K) l :
  fresh_window c → Forall sent_counter l →
  fst (run_replay c l) = fst (run_spec spec_init l) ∧
  MaxRecvNonce (snd (run_replay c l)) = smax (snd (run_spec spec_init l)).
Proof.
  intros [Hm Hb] Hl.
  destruct (run_replay_refines c spec_init l (refines_init c Hm Hb) Hl) as [He Hr].
  split; [exact He|apply Hr].
Qed.

Lemma replay_window_refines_spec_witness :
  fst (run_replay example_crypto [5; 300; 5; 44; 45; 45; 299; 300]) =
  fst (run_spec spec_init [5; 300; 5; 44; 45; 45; 299; 300]).
Proof.
  apply (replay_window_refines_spec example_crypto); [done|].
  repeat (constructor; [unfold sent_counter; lia|]). constructor.
Defined.

(** No counter is accepted twice in the life of a session, in
    whatever order and however often frames are delivered. *)
Theorem no_counter_accepted_twice {K} (c : Crypto K) l i j n :
  fresh_window c → Forall sent_counter l →
  accepted_at l (fst (run_replay c l)) i n →
  accepted_at l (fst (run_replay c l)) j n → i = j.
Proof.
  intros [Hm Hb] Hl.
  destruct (run_replay_refines c spec_init l (refines_init c Hm Hb) Hl) as [-> _].
  apply run_spec_once.
Qed.

Lemma no_counter_accepted_twice_witness :
  accepted_at [9; 10; 9] (fst (run_replay example_crypto [9; 10; 9])) 0 9 ∧
  ¬ accepted_at [9; 10; 9] (fst (run_replay example_crypto [9; 10; 9])) 2 9.
Proof.
  assert (accepted_at [9; 10; 9] (fst (run_replay example_crypto [9; 10; 9])) 0 9) as H0
    by (split; reflexivity).
  split; [exact H0|]. intros H2.
  pose proof (no_counter_accepted_twice example_crypto [9; 10; 9] 0 2 9) as H.
  discriminate (H (conj eq_refl eq_refl)
    ltac:(repeat (constructor; [unfold sent_counter; lia|]); constructor) H0 H2).
Defined.

(** The read-only pre-check agrees with the recording check on every
    state and every counter. *)
Theorem WouldAcceptNonce_agrees {K} (c : Crypto K) n :
  WouldAcceptNonce c n = fst (CheckAndRecordNonce c n).
Proof.
  unfold WouldAcceptNonce, CheckAndRecordNonce.
  repeat case_match; simplify_eq/=; done.
Qed.

(** Counter 0 escapes the filter: while no other counter has been
    received, "first packet ever" is recognised by [MaxRecvNonce == 0], so a
    frame with counter 0 is accepted every time it is delivered. *)
Theorem counter_zero_is_replayable {K} (c : Crypto K) k :
  MaxRecvNonce c = 0 →
  fst (run_replay c (replicate k 0)) = replicate k true.
Proof.
  revert c. induction k as [|k IH]; intros c H0; [done|].
  cbn [replicate run_replay]. unfold CheckAndRecordNonce. rewrite H0. simpl.
  match goal with |- context [run_replay ?c' _] => specialize (IH c' eq_refl) end.
  destruct (run_replay _ _); simpl in *. congruence.
Qed.

Lemma counter_zero_is_replayable_witness :
  fst (run_replay example_crypto [0; 0; 0]) = [true; true; true].
Proof. apply (counter_zero_is_replayable example_crypto 3). reflexivity. Defined.
