(* ===== verification/KeyStore.v ===== *)
(** * The key store (pkg/daemon/keyexchange/store.go)

    [Store] owns the map from peer node IDs to sessions.  The map holds
    pointers: [EncryptWith], the replay window and the salvage ring mutate the
    session through them, and the drop paths compare them, so the store here is
    a heap of [Crypto] objects and a map of addresses into it.  [nil] is [None].

    Zeroing of the byte arrays that leave the salvage ring (PILOT-146) concerns
    memory no longer reachable from the store and is not represented; the ring
    contents are. *)
From Stdlib Require Import Sorted.
From S2P Require Import Prelude Bitmap Crypto.
Open Scope Z_scope.

Definition MaxCryptoPeers : Z := 16384.

Inductive KeyError := ErrNoKey | ErrNotReady.

Record Store {K : Type} := mkStore {
  crypto : gmap Z nat;               (* node ID -> *Crypto *)
  heap : gmap nat (Crypto K);        (* the Crypto objects *)
  localNodeID : Z;
  EncryptOK : Z;
  EncryptFail : Z;
}.
Arguments Store : clear implicits.
Arguments mkStore {K}.

Section Store.
Context {K : Type}.
Implicit Types (s : Store K) (c : Crypto K) (p : nat).

Definition NewStore : Store K := mkStore ∅ ∅ 0 0 0.

Definition SetLocalNodeID s (id : Z) : Store K :=
  mkStore (crypto s) (heap s) id (EncryptOK s) (EncryptFail s).
Definition LocalNodeID s : Z := localNodeID s.

Definition with_map s (m : gmap Z nat) : Store K :=
  mkStore m (heap s) (localNodeID s) (EncryptOK s) (EncryptFail s).
Definition with_heap s (h : gmap nat (Crypto K)) : Store K :=
  mkStore (crypto s) h (localNodeID s) (EncryptOK s) (EncryptFail s).

(** [&Crypto{...}]: a new object at an unused address. *)
Definition new_crypto s c : nat * Store K :=
  let p := fresh (dom (heap s)) in (p, with_heap s (<[p := c]> (heap s))).
(** [*p = c] *)
Definition write s p c : Store K := with_heap s (<[p := c]> (heap s)).
(** [*p]; [None] only for an address that was never allocated. *)
Definition deref s (p : option nat) : option (Crypto K) := p ≫= λ p, heap s !! p.

Definition Install s (peer : Z) p : Store K := with_map s (<[peer := p]> (crypto s)).
Definition Get s (peer : Z) : option nat := crypto s !! peer.
Definition Has s (peer : Z) : bool := bool_decide (is_Some (crypto s !! peer)).
Definition IsReady s (peer : Z) : bool :=
  match deref s (Get s peer) with Some c => Ready c | None => false end.

Definition with_salvage c (l : list SalvageEntry) : Crypto K :=
  mkCrypto (AEAD c) (Nonce c) (NoncePrefix c) (MaxRecvNonce c) (ReplayBitmap c) (Ready c)
    (Authenticated c) (PeerX25519Key c) (DecryptFailCount c) (OutsideWindowCount c)
    (ReplayCount c) (CreatedAt c) l.

Definition wipeCryptoSecrets s (p : option nat) : Store K :=
  match p with
  | None => s
  | Some p => match heap s !! p with
              | Some c => write s p (with_salvage c [])
              | None => s
              end
  end.

Definition Drop s (peer : Z) : Store K :=
  let c := Get s peer in
  wipeCryptoSecrets (with_map s (delete peer (crypto s))) c.

(** [expected] is the pointer the caller saw. *)
Definition CompareAndDrop s (peer : Z) (expected : option nat) : bool * Store K :=
  if bool_decide (Get s peer = expected) then
    let c := Get s peer in
    (true, wipeCryptoSecrets (with_map s (delete peer (crypto s))) c)
  else (false, s).

Definition Len s : Z := Z.of_nat (size (crypto s)).
Definition PeerIDs s : list Z := elements (dom (crypto s)).

Definition ShouldDropOnDecryptFail s (now : gotime) (peer : Z) (p : option nat) : bool :=
  match deref s p with
  | None => false
  | Some c =>
      if DecryptFailCount c <? DecryptFailDropThreshold then false
      else if time_sub now (CreatedAt c) <? DecryptFailDropGrace then false
      else bool_decide (Get s peer = p)
  end.

Definition ShouldDropOnOutsideWindow s (now : gotime) (peer : Z) (p : option nat) : bool :=
  match deref s p with
  | None => false
  | Some c =>
      let rejections := OutsideWindowCount c in
      if rejections =? 0 then false
      else
        let age := time_sub now (CreatedAt c) in
        if (age <? AgedCryptoFastDropAge) &&
           ((rejections <? OutsideWindowDropThreshold) || (age <? OutsideWindowDropGrace))
        then false
        else bool_decide (Get s peer = p)
  end.

Definition ShouldDropOnReplay s (now : gotime) (peer : Z) (p : option nat) : bool :=
  match deref s p with
  | None => false
  | Some c =>
      let replays := ReplayCount c in
      if replays =? 0 then false
      else
        let age := time_sub now (CreatedAt c) in
        if (age <? AgedCryptoFastDropAge) &&
           ((replays <? ReplayDropThreshold) || (age <? ReplayDropGrace))
        then false
        else bool_decide (Get s peer = p)
  end.

(** ** The salvage ring *)

(** [for len(Salvage) > 0 && Salvage[0].When.Before(cutoff) { Salvage = Salvage[1:] }] *)
Fixpoint trim_aged (cutoff : gotime) (l : list SalvageEntry) : list SalvageEntry :=
  match l with
  | [] => []
  | e :: l' => if When e <? cutoff then trim_aged cutoff l' else l
  end.

Definition salvage_push (now : gotime) (plaintext : bytes) (l : list SalvageEntry)
  : list SalvageEntry :=
  let cutoff := now - SalvageMaxAge in
  let l := trim_aged cutoff l in
  let l := if Nat.leb SalvageMaxEntries (length l) then tail l else l in
  l ++ [mkSalvageEntry plaintext now].

Definition RecordSalvage s (now : gotime) (p : option nat) (plaintext : bytes) : Store K :=
  match p with
  | None => s
  | Some p => match heap s !! p with
              | Some c => write s p (with_salvage c (salvage_push now plaintext (Salvage c)))
              | None => s
              end
  end.

Definition salvage_fresh (now : gotime) (e : SalvageEntry) : bool :=
  negb (When e <? now - SalvageMaxAge).

Definition DrainSalvage s (now : gotime) (p : option nat) : list SalvageEntry * Store K :=
  match p with
  | None => ([], s)
  | Some p => match heap s !! p with
              | Some c => (List.filter (salvage_fresh now) (Salvage c), write s p (with_salvage c []))
              | None => ([], s)
              end
  end.

(** ** Invariant: every installed pointer is an allocated object. *)
Definition store_wf s : Prop := ∀ peer p, crypto s !! peer = Some p → is_Some (heap s !! p).

Lemma store_wf_new : store_wf NewStore.
Proof. intros peer p H. simpl in H. by rewrite lookup_empty in H. Qed.

Lemma store_wf_write s p c : store_wf s → store_wf (write s p c).
Proof.
  intros Hwf peer q Hq. simpl in *. destruct (decide (p = q)) as [->|].
  - rewrite lookup_insert_eq. eauto.
  - rewrite lookup_insert_ne by done. eauto.
Qed.

Lemma store_wf_delete s peer : store_wf s → store_wf (with_map s (delete peer (crypto s))).
Proof. intros Hwf peer' q Hq. simpl in Hq. apply lookup_delete_Some in Hq as [_ Hq]. eauto. Qed.

Lemma store_wf_wipe s (p : option nat) : store_wf s → store_wf (wipeCryptoSecrets s p).
Proof. intros. unfold wipeCryptoSecrets. repeat case_match; auto using store_wf_write. Qed.

Lemma store_wf_Install s peer p :
  store_wf s → is_Some (heap s !! p) → store_wf (Install s peer p).
Proof.
  intros Hwf Hp peer' q Hq. simpl in *. apply lookup_insert_Some in Hq as [[_ <-]|[_ ?]]; eauto.
Qed.

Lemma store_wf_new_crypto s c : store_wf s → store_wf (snd (new_crypto s c)).
Proof. intros. unfold new_crypto. simpl. by apply (store_wf_write s). Qed.

Lemma new_crypto_fresh s c : heap s !! fst (new_crypto s c) = None.
Proof. apply not_elem_of_dom, is_fresh. Qed.

Lemma store_wf_RecordSalvage s now (p : option nat) pt : store_wf s → store_wf (RecordSalvage s now p pt).
Proof. intros. unfold RecordSalvage. repeat case_match; auto using store_wf_write. Qed.

Lemma store_wf_DrainSalvage s now (p : option nat) : store_wf s → store_wf (snd (DrainSalvage s now p)).
Proof. intros. unfold DrainSalvage. repeat case_match; simpl; auto using store_wf_write. Qed.

Lemma crypto_wipe s (p : option nat) : crypto (wipeCryptoSecrets s p) = crypto s.
Proof. unfold wipeCryptoSecrets. by repeat case_match. Qed.

(** ** Salvage lemmas *)

(** The last [n] elements. *)
Definition lastn {A} (n : nat) (l : list A) : list A := drop (length l - n) l.

Lemma lastn_app {A} n (l : list A) x : lastn (S n) (l ++ [x]) = lastn n l ++ [x].
Proof.
  unfold lastn. rewrite length_app. simpl.
  replace (length l + 1 - S n)%nat with (length l - n)%nat by lia.
  rewrite drop_app_le by lia. done.
Qed.

(** Entries in the order of the clock. *)
Definition chronological (l : list SalvageEntry) : Prop :=
  StronglySorted (λ a b, When a <= When b) l.

Lemma filter_all {A} (f : A → bool) l : Forall (λ x, f x = true) l → List.filter f l = l.
Proof. induction 1 as [|x l Hx Hl IH]; simpl; [done|]. by rewrite Hx, IH. Qed.

Lemma trim_aged_filter now l :
  chronological l → trim_aged (now - SalvageMaxAge) l = List.filter (salvage_fresh now) l.
Proof.
  induction 1 as [|e l Hs IH Hle]; [done|]. simpl. unfold salvage_fresh at 1.
  destruct (Z.ltb_spec (When e) (now - SalvageMaxAge)) as [?|Hge]; simpl; [done|].
  f_equal. symmetry. apply filter_all. eapply Forall_impl; [exact Hle|].
  intros e' He'. unfold salvage_fresh. apply negb_true_iff, Z.ltb_ge. simpl in He'. lia.
Qed.

Lemma chronological_filter f l : chronological l → chronological (List.filter f l).
Proof.
  induction 1 as [|e l Hs IH Hle]; simpl; [constructor|].
  destruct (f e); [|done]. constructor; [done|].
  rewrite List.Forall_forall in *. intros x [Hx _]%filter_In. auto.
Qed.

Lemma chronological_lastn n l : chronological l → chronological (lastn n l).
Proof.
  unfold lastn. generalize (length l - n)%nat as k. intros k Hl. revert k.
  induction Hl as [|e l Hs IH Hle]; intros [|k]; simpl; try constructor; auto.
Qed.

Lemma salvage_fresh_mono now now' e :
  now <= now' → salvage_fresh now' e = true → salvage_fresh now e = true.
Proof. unfold salvage_fresh. rewrite !negb_true_iff, !Z.ltb_ge. lia. Qed.

Lemma salvage_fresh_now now pt : salvage_fresh now (mkSalvageEntry pt now) = true.
Proof.
  unfold salvage_fresh, SalvageMaxAge, Second. apply negb_true_iff, Z.ltb_ge. simpl. lia.
Qed.

(** On a chronological list the fresh entries are a suffix, so filtering
    commutes with taking the last [n]. *)
Lemma filter_fresh_lastn now n l :
  chronological l →
  List.filter (salvage_fresh now) (lastn n l) = lastn n (List.filter (salvage_fresh now) l).
Proof.
  induction 1 as [|e l Hs IH Hle]; [by destruct n|].
  destruct (salvage_fresh now e) eqn:E.
  - assert (Forall (λ x, salvage_fresh now x = true) (e :: l)) as Hall.
    { constructor; [done|]. eapply Forall_impl; [exact Hle|]. intros e' He'.
      unfold salvage_fresh in *. rewrite negb_true_iff, Z.ltb_ge in *. simpl in He'. lia. }
    rewrite (filter_all _ (e :: l)) by done. apply filter_all. by apply Forall_drop.
  - simpl List.filter at 2. rewrite E, <- IH.
    unfold lastn. simpl length.
    destruct (Nat.le_gt_cases n (length l)).
    + replace (S (length l) - n)%nat with (S (length l - n)) by lia. done.
    + replace (S (length l) - n)%nat with 0%nat by lia.
      replace (length l - n)%nat with 0%nat by lia. simpl. by rewrite E.
Qed.

Lemma filter_filter_fresh now now' l :
  now <= now' →
  List.filter (salvage_fresh now') (List.filter (salvage_fresh now) l) =
  List.filter (salvage_fresh now') l.
Proof.
  intros Hle. induction l as [|e l IH]; [done|]. simpl.
  destruct (salvage_fresh now' e) eqn:E'.
  - rewrite (salvage_fresh_mono _ _ _ Hle E'). simpl. by rewrite E', IH.
  - destruct (salvage_fresh now e); simpl; rewrite ?E'; done.
Qed.

(** What the ring holds after the sends [l], the last one at [now]. *)
Definition ring_after (now : gotime) (l : list SalvageEntry) : list SalvageEntry :=
  lastn SalvageMaxEntries (List.filter (salvage_fresh now) l).

Lemma salvage_push_ring now now' pt l :
  chronological l → now <= now' →
  salvage_push now' pt (ring_after now l) = ring_after now' (l ++ [mkSalvageEntry pt now']).
Proof.
  intros Hl Hle. unfold salvage_push, ring_after.
  rewrite trim_aged_filter by auto using chronological_lastn, chronological_filter.
  rewrite filter_fresh_lastn, filter_filter_fresh by (done || by apply chronological_filter).
  rewrite List.filter_app. cbn [List.filter]. rewrite salvage_fresh_now.
  unfold SalvageMaxEntries. rewrite lastn_app. f_equal.
  set (F := List.filter (salvage_fresh now') l). unfold lastn. rewrite length_drop.
  destruct (Nat.leb_spec 4 (length F - (length F - 4))).
  - change (@tail SalvageEntry) with (drop (A:=SalvageEntry) 1).
    rewrite drop_drop. f_equal. lia.
  - f_equal. lia.
Qed.

Lemma chronological_app l e :
  chronological (l ++ [e]) ↔ chronological l ∧ Forall (λ x, When x <= When e) l.
Proof.
  induction l as [|x l IH]; simpl.
  - split; [|intros _]; repeat constructor.
  - split.
    + intros H. inversion H as [|?? Hs Hf]; subst. apply IH in Hs as [Hs1 Hs2].
      apply Forall_app in Hf as [Hf1 Hf2]. split; [by constructor|].
      constructor; [by inversion Hf2|done].
    + intros [H Hf]. inversion H; inversion Hf; subst. constructor; [by apply IH|].
      apply Forall_app. repeat constructor; done.
Qed.

Definition push_all (l : list SalvageEntry) : list SalvageEntry :=
  fold_left (λ ring e, salvage_push (When e) (Plaintext e) ring) l [].

Lemma push_all_ring l e :
  chronological (l ++ [e]) → push_all (l ++ [e]) = ring_after (When e) (l ++ [e]).
Proof.
  revert e. induction l as [|x l IH] using rev_ind; intros e Hc.
  - destruct e as [pt t]. unfold push_all, ring_after. cbn [app List.filter].
    by rewrite salvage_fresh_now.
  - apply chronological_app in Hc as [Hc Hf]. unfold push_all. rewrite fold_left_app. simpl.
    fold (push_all (l ++ [x])). rewrite IH by done.
    rewrite (salvage_push_ring _ (When e)); [by destruct e|done|].
    apply Forall_app in Hf as [_ Hf]. by inversion Hf.
Qed.
End Store.

(** A sequence of sends through one session pointer. *)
Definition record_all {K} (s : Store K) (p : nat) (l : list SalvageEntry) : Store K :=
  fold_left (λ s e, RecordSalvage s (When e) (Some p) (Plaintext e)) l s.

Lemma record_all_heap {K} (s : Store K) p c l :
  heap s !! p = Some c → Salvage c = [] →
  heap (record_all s p l) !! p = Some (with_salvage c (push_all l)).
Proof.
  intros Hc H0. induction l as [|e l IH] using rev_ind.
  - unfold record_all, push_all. simpl. rewrite Hc. destruct c; simpl in *. by subst.
  - unfold record_all, push_all. rewrite !fold_left_app. cbn [fold_left].
    fold (record_all s p l) (push_all l). unfold RecordSalvage. rewrite IH.
    cbn [heap write with_heap]. by rewrite lookup_insert_eq.
Qed.

Lemma drain_ring now l :
  chronological l → Forall (λ e, When e <= now) l →
  List.filter (salvage_fresh now) (push_all l) =
  lastn SalvageMaxEntries (List.filter (salvage_fresh now) l).
Proof.
  intros Hc Hn. destruct l as [|e l _] using rev_ind; [done|].
  rewrite push_all_ring by done. unfold ring_after.
  rewrite filter_fresh_lastn by by apply chronological_filter.
  rewrite filter_filter_fresh; [done|]. apply Forall_app in Hn as [_ Hn]. by inversion Hn.
Qed.

(** What a rekey replays: after any sequence of sends in clock order on
    a session whose ring was empty, draining the ring at [now] yields, in send
    order, exactly the last four of the sends made in the 5 seconds before
    [now], and leaves the ring empty. *)
Theorem salvage_replays_recent_sends {K} (s : Store K) p c l now :
  heap s !! p = Some c → Salvage c = [] →
  chronological l → Forall (λ e, When e <= now) l →
  let '(out, s') := DrainSalvage (record_all s p l) now (Some p) in
  out = lastn SalvageMaxEntries (List.filter (salvage_fresh now) l) ∧
  heap s' !! p = Some (with_salvage c []).
Proof.
  intros Hc H0 Hl Hn. unfold DrainSalvage. rewrite (record_all_heap s p c l Hc H0).
  split; [by apply drain_ring|]. cbn. by rewrite lookup_insert_eq.
Qed.

Definition example_store : Store unit :=
  Install (snd (new_crypto NewStore example_crypto)) 9 (fst (new_crypto NewStore example_crypto)).
Definition example_sends : list SalvageEntry :=
  map (λ i, mkSalvageEntry [i] (i * Second)) [1; 2; 3; 4; 5; 6; 7].

Lemma salvage_replays_recent_sends_witness :
  fst (DrainSalvage (record_all example_store 0 example_sends) (9 * Second) (Some 0%nat)) =
  map (λ i, mkSalvageEntry [i] (i * Second)) [4; 5; 6; 7].
Proof.
  pose proof (salvage_replays_recent_sends example_store 0 example_crypto example_sends
    (9 * Second)) as H.
  destruct (DrainSalvage _ _ _) as [out s'].
  destruct H as [-> _]; try reflexivity.
  - unfold chronological, example_sends. simpl.
    repeat first [apply SSorted_nil | apply SSorted_cons | apply Forall_nil; done
                 | apply Forall_cons; split | (vm_compute; discriminate)].
  - repeat (apply Forall_cons; split; [vm_compute; discriminate|]). apply Forall_nil. done.
Defined.

(** [CompareAndDrop] removes the session the caller saw and nothing
    else: it succeeds iff the installed pointer is still the expected one, then
    the peer has no session and every other peer keeps its own; otherwise the
    store is unchanged, so a session installed by a concurrent rekey survives. *)
Theorem CompareAndDrop_spec {K} (s : Store K) peer expected :
  let '(dropped, s') := CompareAndDrop s peer expected in
  (dropped = true ↔ Get s peer = expected) ∧
  (dropped = true → Get s' peer = None ∧
     ∀ peer', peer' ≠ peer → Get s' peer' = Get s peer') ∧
  (dropped = false → s' = s) ∧
  (store_wf s → store_wf s').
Proof.
  unfold CompareAndDrop. case_bool_decide as He.
  - split; [done|]. split; [|split; [done|]].
    + intros _. unfold Get. rewrite crypto_wipe. simpl.
      split; [apply lookup_delete_eq|]. intros peer' Hne. by rewrite lookup_delete_ne.
    + intros. by apply store_wf_wipe, store_wf_delete.
  - split; [done|]. split; [done|]. split; done.
Qed.

(** No drop gate fires on a young session: within one second of its
    installation none of the three gates asks for a drop, whatever its fault
    counters, and before three seconds the decrypt-failure gate does not. *)
Theorem young_session_is_never_dropped {K} (s : Store K) now peer p c :
  deref s p = Some c →
  (time_sub now (CreatedAt c) < 1 * Second →
     ShouldDropOnOutsideWindow s now peer p = false ∧
     ShouldDropOnReplay s now peer p = false) ∧
  (time_sub now (CreatedAt c) < 3 * Second →
     ShouldDropOnDecryptFail s now peer p = false) ∧
  (DecryptFailCount c < 5 → ShouldDropOnDecryptFail s now peer p = false).
Proof.
  intros Hc. unfold ShouldDropOnOutsideWindow, ShouldDropOnReplay, ShouldDropOnDecryptFail.
  rewrite Hc. unfold AgedCryptoFastDropAge, OutsideWindowDropGrace, ReplayDropGrace,
    DecryptFailDropGrace, DecryptFailDropThreshold, Second.
  split_and!; intros; split_and?; repeat case_zif; try done; lia.
Qed.

Lemma young_session_is_never_dropped_witness :
  ShouldDropOnReplay example_store (Second / 2) 9 (Some 0%nat) = false.
Proof.
  apply (young_session_is_never_dropped example_store (Second / 2) 9 (Some 0%nat) example_crypto).
  - reflexivity.
  - reflexivity.
Defined.

(** The replay and outside-window gates, exactly: they fire iff the
    pointer is still installed, at least one rejection was counted, and either
    the session is a minute old or five rejections and one second have passed.
    In particular one authenticated replay is enough to drop a session older
    than a minute, which is how a quiet peer that restarted recovers. *)
Theorem replay_gates_exact {K} (s : Store K) now peer p c :
  deref s p = Some c →
  (ShouldDropOnReplay s now peer p = true ↔
     Get s peer = p ∧ ReplayCount c ≠ 0 ∧
     (60 * Second <= time_sub now (CreatedAt c) ∨
      5 <= ReplayCount c ∧ 1 * Second <= time_sub now (CreatedAt c))) ∧
  (ShouldDropOnOutsideWindow s now peer p = true ↔
     Get s peer = p ∧ OutsideWindowCount c ≠ 0 ∧
     (60 * Second <= time_sub now (CreatedAt c) ∨
      5 <= OutsideWindowCount c ∧ 1 * Second <= time_sub now (CreatedAt c))).
Proof.
  intros Hc. unfold ShouldDropOnOutsideWindow, ShouldDropOnReplay. rewrite Hc.
  unfold AgedCryptoFastDropAge, OutsideWindowDropGrace, ReplayDropGrace,
    OutsideWindowDropThreshold, ReplayDropThreshold.
  generalize (time_sub now (CreatedAt c)) as age. intros age.
  split; repeat case_zif; try rewrite bool_decide_eq_true;
    (split; [first [discriminate | intros ?; split_and!; [done|lia|]]|]);
    unfold Second in *; try lia; intuition lia.
Qed.

Definition example_replayed : Crypto unit :=
  mkCrypto tt 0 [1; 2; 3; 4] 50 (bm_zero 4) true true (replicate 32 7) 0 0 1 0 [].

Lemma replay_gates_exact_witness :
  ShouldDropOnReplay (write example_store 0 example_replayed) (61 * Second) 9 (Some 0%nat) = true.
Proof.
  refine (proj2 (proj1 (replay_gates_exact (write example_store 0 example_replayed)
    (61 * Second) 9 (Some 0%nat) example_replayed _)) _).
  - reflexivity.
  - split_and!; [reflexivity|simpl; lia|left; vm_compute; discriminate].
Defined.
