(* ===== verification/Protocol.v ===== *)
(** * Interface to the wire-protocol package

    The daemon takes its wire constants and packet type from
    github.com/pilot-protocol/common/protocol, which is a separate module.  They
    are parameters here: a class with the facts the daemon relies on (array
    sizes fixed by the Go types, distinct message codes, single-bit flags, the
    16384-port ephemeral range that [ephBitmap] is sized for).
    [documented_protocol] is the instance with the values pinned by the
    repository's own tests (tests/zz_protocol_test.go,
    testdata/wire/README.md). *)
From S2P Require Import Prelude.
Open Scope Z_scope.

(** A virtual address: network and node number. *)
Record Addr := mkAddr { Network : Z; Node : Z }.
#[export] Instance Addr_eq_dec : EqDecision Addr.
Proof. solve_decision. Defined.

(** [protocol.Packet], the fields the daemon builds. *)
Record Packet := mkPacket {
  pkVersion : Z; pkFlags : Z; pkProtocol : Z;
  Src : Addr; Dst : Addr; SrcPort : Z; DstPort : Z;
  Seq : Z; Ack : Z; Window : Z; Payload : bytes;
}.

Class Protocol := {
  Version : Z;
  ProtoStream : Z;
  FlagSYN : Z;
  FlagACK : Z;
  FlagFIN : Z;
  FlagRST : Z;
  HasFlag : Packet → Z → bool;
  PortDataExchange : Z;
  PortHandshake : Z;
  PortEphemeralMin : Z;
  PortEphemeralMax : Z;
  TunnelMagicSecure : bytes;
  TunnelMagicKeyEx : bytes;
  TunnelMagicAuthEx : bytes;
  TunnelMagicPunch : bytes;
  BeaconMsgDiscover : Z;
  BeaconMsgDiscoverReply : Z;
  BeaconMsgPunchRequest : Z;
  BeaconMsgRelay : Z;
  HasFlag_spec : ∀ p f, HasFlag p f = negb (Z.land (pkFlags p) f =? 0);
  flags_single : FlagSYN ≠ 0 ∧ FlagACK ≠ 0 ∧ FlagFIN ≠ 0 ∧ FlagRST ≠ 0;
  flags_disjoint : Z.land FlagSYN FlagACK = 0 ∧ Z.land FlagSYN FlagFIN = 0 ∧
    Z.land FlagSYN FlagRST = 0 ∧ Z.land FlagACK FlagFIN = 0 ∧ Z.land FlagACK FlagRST = 0 ∧
    Z.land FlagFIN FlagRST = 0;
  magic_len : length TunnelMagicSecure = 4%nat ∧ length TunnelMagicKeyEx = 4%nat ∧
    length TunnelMagicAuthEx = 4%nat ∧ length TunnelMagicPunch = 4%nat;
  magic_distinct : TunnelMagicKeyEx ≠ TunnelMagicAuthEx;
  ephemeral_range : 0 < PortEphemeralMin ∧ PortEphemeralMax < 65536 ∧
    PortEphemeralMax - PortEphemeralMin + 1 = 16384;
}.

(** "PILS", "PILK", "PILA", "PILP" *)
#[refine] Definition documented_protocol : Protocol := {|
  Version := 1; ProtoStream := 1;
  FlagSYN := 1; FlagACK := 2; FlagFIN := 4; FlagRST := 8;
  HasFlag := λ p f, negb (Z.land (pkFlags p) f =? 0); PortDataExchange := 1001; PortHandshake := 444;
  PortEphemeralMin := 49152; PortEphemeralMax := 65535;
  TunnelMagicSecure := [80; 73; 76; 83]; TunnelMagicKeyEx := [80; 73; 76; 75];
  TunnelMagicAuthEx := [80; 73; 76; 65]; TunnelMagicPunch := [80; 73; 76; 80];
  BeaconMsgDiscover := 1; BeaconMsgDiscoverReply := 2;
  BeaconMsgPunchRequest := 3; BeaconMsgRelay := 5;
|}.
Proof.
  - done.
  - by split_and!.
  - by split_and!.
  - by split_and!.
  - discriminate.
  - by split_and!.
Defined.
