(* ===== verification/Envelope.v ===== *)
(** * AEAD framing (pkg/daemon/envelope/envelope.go)

    Every tunnel frame is sealed and opened here, against the session state of
    KeyStore.  The cipher is an interface ([Cipher]) with the laws of AES-GCM as
    [crypto/cipher] documents them; the frame layout, the replay check and the
    fault counters are the source's.

    [DecryptFrame] takes the session lock three times.  The three critical
    sections are separate definitions ([precheck], [commit], [settle]);
    [DecryptFrame] is their sequential composition and Module [Concurrent]
    interleaves them, so that the no-double-delivery theorem covers frames
    decrypted by several goroutines at once. *)
From S2P Require Import Prelude Bitmap Crypto KeyStore Protocol.
Open Scope Z_scope.

(** [cipher.AEAD]: [Seal k nonce plaintext aad], [Open k nonce ciphertext aad]. *)
Class Cipher (K : Type) := {
  NonceSize : K → nat;
  Seal : K → bytes → bytes → bytes → bytes;
  Open : K → bytes → bytes → bytes → option bytes;
  NonceSize_gcm : ∀ k, NonceSize k = 12%nat;
  Open_Seal : ∀ k n pt aad, Open k n (Seal k n pt aad) aad = Some pt;
  Seal_overhead : ∀ k n pt aad, length (Seal k n pt aad) = (length pt + 16)%nat;
}.

(** [copy(dst[off:], src)] into a buffer that has room. *)
Definition copy_at (off : nat) (src dst : bytes) : bytes :=
  take off dst ++ src ++ drop (off + length src) dst.

Inductive DecryptErr := NoKey | Replay | OutsideWindow | BadAEAD | TooShort.
#[export] Instance DecryptErr_eq_dec : EqDecision DecryptErr.
Proof. solve_decision. Defined.

(** [resErr = None] is [Err == nil]. *)
Record DecryptResult := mkResult {
  resPlaintext : option bytes;
  resPeerNodeID : Z;
  resCounter : Z;
  resErr : option DecryptErr;
  resMaxRecvNonce : Z;
}.

Section Envelope.
Context {P : Protocol} {K : Type} {C : Cipher K}.
Implicit Types (s : Store K) (c : Crypto K) (p : nat).

Definition with_nonce c (n : Z) : Crypto K :=
  mkCrypto (AEAD c) n (NoncePrefix c) (MaxRecvNonce c) (ReplayBitmap c) (Ready c)
    (Authenticated c) (PeerX25519Key c) (DecryptFailCount c) (OutsideWindowCount c)
    (ReplayCount c) (CreatedAt c) (Salvage c).
Definition with_faults c (fail outside replay : Z) : Crypto K :=
  mkCrypto (AEAD c) (Nonce c) (NoncePrefix c) (MaxRecvNonce c) (ReplayBitmap c) (Ready c)
    (Authenticated c) (PeerX25519Key c) fail outside replay (CreatedAt c) (Salvage c).
Definition with_counts s (ok fail : Z) : Store K :=
  mkStore (crypto s) (heap s) (localNodeID s) ok fail.

(** The nonce buffer: prefix in front, counter in the last eight bytes. *)
Definition nonce_bytes c (counter : Z) : bytes :=
  let n := NonceSize (AEAD c) in
  copy_at (n - 8) (PutUint64 counter) (copy_at 0 (NoncePrefix c) (replicate n 0)).

(** Caller holds a pointer to an allocated, Ready session. *)
Definition EncryptWith s p (plaintext : bytes) : bytes * Store K :=
  match heap s !! p with
  | None => ([], s)
  | Some c =>
      let counter := u64 (Nonce c + 1) in
      let nonce := nonce_bytes c counter in
      let aad := PutUint32 (LocalNodeID s) in
      let ciphertext := Seal (AEAD c) nonce plaintext aad in
      let s := write s p (with_nonce c counter) in
      let s := with_counts s (u64 (EncryptOK s + 1)) (EncryptFail s) in
      (TunnelMagicSecure ++ PutUint32 (LocalNodeID s) ++ nonce ++ ciphertext, s)
  end.

Definition EncryptFrame s (dst : Z) (plaintext : bytes) : (bytes + KeyError) * Store K :=
  match Get s dst with
  | None => (inr ErrNoKey, s)
  | Some p =>
      match heap s !! p with
      | None => (inr ErrNoKey, s)
      | Some c =>
          if negb (Ready c) then (inr ErrNotReady, s)
          else let '(f, s) := EncryptWith s p plaintext in (inl f, s)
      end
  end.

(** ** The critical sections of [DecryptFrame] *)

(** [accept := c.WouldAcceptNonce(n); maxN := c.MaxRecvNonce] *)
Definition precheck c (n : Z) : bool * Z := (WouldAcceptNonce c n, MaxRecvNonce c).

(** [c.DecryptFailCount++] *)
Definition countFail c : Crypto K :=
  with_faults c (DecryptFailCount c + 1) (OutsideWindowCount c) (ReplayCount c).

(** [rejectResult]: classify by the [maxN] the caller saw and bump a counter. *)
Definition rejectResult c (peer n maxN : Z) : DecryptResult * Crypto K :=
  if (n <? maxN) && (ReplayWindowSize <=? u64 (maxN - n)) then
    (mkResult None peer n (Some OutsideWindow) maxN,
     with_faults c (DecryptFailCount c) (OutsideWindowCount c + 1) (ReplayCount c))
  else
    (mkResult None peer n (Some Replay) maxN,
     with_faults c (DecryptFailCount c) (OutsideWindowCount c) (ReplayCount c + 1)).

(** [committed := c.CheckAndRecordNonce(n); maxN = c.MaxRecvNonce] *)
Definition commit c (n : Z) : bool * Z * Crypto K :=
  let '(ok, c) := CheckAndRecordNonce c n in (ok, MaxRecvNonce c, c).

(** Reset the three fault counters. *)
Definition settle c : Crypto K := with_faults c 0 0 0.

Definition DecryptFrame s (data : bytes) : DecryptResult * Store K :=
  if Nat.ltb (length data) (4 + 12 + 16) then (mkResult None 0 0 (Some TooShort) 0, s)
  else
    let peerNodeID := Uint32 (slice 0 4 data) in
    let nonce := slice 4 16 data in
    let ciphertext := drop 16 data in
    match Get s peerNodeID with
    | None => (mkResult None peerNodeID 0 (Some NoKey) 0, s)
    | Some p =>
        match heap s !! p with
        | None => (mkResult None peerNodeID 0 (Some NoKey) 0, s)
        | Some c =>
            if negb (Ready c) then (mkResult None peerNodeID 0 (Some NoKey) 0, s)
            else
              let recvCounter := Uint64 (drop (length nonce - 8) nonce) in
              let '(accept, maxN) := precheck c recvCounter in
              let aad := PutUint32 peerNodeID in
              match Open (AEAD c) nonce ciphertext aad with
              | None =>
                  (mkResult None peerNodeID recvCounter (Some BadAEAD) maxN,
                   write (with_counts s (EncryptOK s) (u64 (EncryptFail s + 1))) p (countFail c))
              | Some plaintext =>
                  if negb accept then
                    let '(r, c) := rejectResult c peerNodeID recvCounter maxN in
                    (r, write s p c)
                  else
                    let '(committed, maxN, c) := commit c recvCounter in
                    if negb committed then
                      let '(r, c) := rejectResult c peerNodeID recvCounter maxN in
                      (r, write s p c)
                    else
                      (mkResult (Some plaintext) peerNodeID recvCounter None maxN,
                       write s p (settle c))
              end
        end
    end.

(** ** Lemmas *)

Lemma nonce_bytes_eq c counter :
  length (NoncePrefix c) = 4%nat → nonce_bytes c counter = NoncePrefix c ++ PutUint64 counter.
Proof.
  intros Hl. unfold nonce_bytes. rewrite NonceSize_gcm.
  destruct (NoncePrefix c) as [|b0 [|b1 [|b2 [|b3 [|b4 l]]]]]; simpl in Hl; try lia.
  unfold copy_at. simpl length at 1. cbn [take app drop Nat.add Nat.sub replicate].
  unfold PutUint64. rewrite length_be_put. reflexivity.
Qed.

Lemma length_nonce_bytes c counter :
  length (NoncePrefix c) = 4%nat → length (nonce_bytes c counter) = 12%nat.
Proof.
  intros. rewrite nonce_bytes_eq by done. unfold PutUint64.
  rewrite length_app, length_be_put. lia.
Qed.

(** What a frame body built by [EncryptWith] parses into. *)
Definition frame_body (local : Z) c (counter : Z) (pt : bytes) : bytes :=
  PutUint32 local ++ nonce_bytes c counter ++
  Seal (AEAD c) (nonce_bytes c counter) pt (PutUint32 local).

Lemma frame_body_parts local c counter pt :
  is_u32 local → is_u64 counter → length (NoncePrefix c) = 4%nat →
  let data := frame_body local c counter pt in
  (32 ≤ length data)%nat ∧ Uint32 (slice 0 4 data) = local ∧
  slice 4 16 data = nonce_bytes c counter ∧
  drop 16 data = Seal (AEAD c) (nonce_bytes c counter) pt (PutUint32 local) ∧
  Uint64 (drop (length (slice 4 16 data) - 8) (slice 4 16 data)) = counter.
Proof.
  intros Hl Hc Hp data.
  pose proof (length_nonce_bytes c counter Hp) as Hn.
  assert (length (PutUint32 local) = 4%nat) as H4 by apply length_be_put.
  assert (slice 4 16 data = nonce_bytes c counter) as Hs.
  { unfold data, frame_body, slice. rewrite drop_app_ge by lia. rewrite H4, drop_0.
    rewrite take_app_le, take_ge by lia. done. }
  split_and!.
  - unfold data, frame_body. rewrite !length_app, H4, Hn, Seal_overhead. lia.
  - unfold data, frame_body, slice. rewrite drop_0, take_app_le, take_ge by lia.
    rewrite <- (app_nil_r (PutUint32 local)). by apply Uint32_Put.
  - exact Hs.
  - unfold data, frame_body. rewrite app_assoc.
    rewrite drop_app_length'; [done|]. rewrite length_app. lia.
  - rewrite Hs, Hn, nonce_bytes_eq by done.
    rewrite drop_app_length' by lia. rewrite <- (app_nil_r (PutUint64 counter)).
    by apply Uint64_Put.
Qed.

(** A receiver's session that can open what [cs] seals. *)
Definition paired (cs cr : Crypto K) : Prop :=
  AEAD cr = AEAD cs ∧ length (NoncePrefix cs) = 4%nat ∧ Ready cr = true.

Lemma DecryptFrame_genuine s p cs cr local counter pt :
  is_u32 local → is_u64 counter → paired cs cr →
  Get s local = Some p → heap s !! p = Some cr →
  DecryptFrame s (frame_body local cs counter pt) =
    if WouldAcceptNonce cr counter then
      let cr' := snd (CheckAndRecordNonce cr counter) in
      (mkResult (Some pt) local counter None (MaxRecvNonce cr'), write s p (settle cr'))
    else let '(r, cr') := rejectResult cr local counter (MaxRecvNonce cr) in (r, write s p cr').
Proof.
  intros Hl Hcn (Hk & Hpre & Hready) Hget Hheap.
  pose proof (frame_body_parts local cs counter pt Hl Hcn Hpre) as (H32 & Hid & Hns & Hct & Hctr).
  unfold DecryptFrame. destruct (Nat.ltb_spec (length (frame_body local cs counter pt)) (4 + 12 + 16));
    [simpl in *; lia|].
  rewrite Hid, Hget, Hheap, Hready, Hctr, Hct, Hns, Hk, Open_Seal. cbn [negb precheck].
  destruct (WouldAcceptNonce cr counter) eqn:Ha; [|done]. cbn [negb].
  unfold commit. pose proof (WouldAcceptNonce_agrees cr counter) as Hag. rewrite Ha in Hag.
  destruct (CheckAndRecordNonce cr counter) as [ok c'] eqn:E. simpl in Hag. subst ok. done.
Qed.

Lemma settle_refines c sp : refines c sp → refines (settle c) sp.
Proof. intros []. by constructor. Qed.
Lemma faults_refines c a b d sp : refines c sp → refines (with_faults c a b d) sp.
Proof. intros []. by constructor. Qed.
Lemma rejectResult_refines c peer n m sp :
  refines c sp → refines (snd (rejectResult c peer n m)) sp.
Proof. intros. unfold rejectResult. case_zif; simpl; by apply faults_refines. Qed.
End Envelope.

(** ** Sequential runs over a store *)
Section Runs.
Context {P : Protocol} {K : Type} {C : Cipher K}.
Implicit Types (s : Store K) (c : Crypto K).

(** The counter field of a frame body. *)
Definition frame_counter (data : bytes) : Z :=
  Uint64 (drop (length (slice 4 16 data) - 8) (slice 4 16 data)).

Fixpoint run_decrypt s (l : list bytes) : list DecryptResult * Store K :=
  match l with
  | [] => ([], s)
  | d :: l => let '(r, s) := DecryptFrame s d in
              let '(rs, s) := run_decrypt s l in (r :: rs, s)
  end.

Definition delivered (r : DecryptResult) : bool := bool_decide (resErr r = None).

(** Ghost state: the specification of each session object's window, and the
    (peer, counter) pairs whose plaintext was handed up. *)
Definition deliver_inv s (F : nat → Spec) (D : list (Z * Z)) : Prop :=
  (∀ p c, heap s !! p = Some c → refines c (F p)) ∧
  (∀ peer n, (peer, n) ∈ D → ∃ p, Get s peer = Some p ∧ is_Some (heap s !! p) ∧ n ∈ seen (F p)).

Lemma deliver_inv_write s F D p c c' sp ok fail :
  deliver_inv s F D → heap s !! p = Some c → refines c' sp → seen (F p) ⊆ seen sp →
  deliver_inv (write (with_counts s ok fail) p c') (λ q, if decide (q = p) then sp else F q) D.
Proof.
  intros [Hr Hd] Hp Hc Hsub. split.
  - intros q cq Hq. simpl in Hq. case_decide as Hd'; [subst q|].
    + rewrite lookup_insert_eq in Hq. by simplify_eq.
    + rewrite lookup_insert_ne in Hq by done. by apply Hr.
  - intros peer n (q & Hg & Hq & Hn)%Hd. exists q. simpl. split_and!; [done| |].
    + destruct (decide (p = q)) as [->|]; [rewrite lookup_insert_eq; eauto|].
      by rewrite lookup_insert_ne.
    + case_decide; [subst|]; set_solver.
Qed.

Lemma with_counts_id s : with_counts s (EncryptOK s) (EncryptFail s) = s.
Proof. by destruct s. Qed.

Lemma deliver_inv_set s F D p c c' sp :
  deliver_inv s F D → heap s !! p = Some c → refines c' sp → seen (F p) ⊆ seen sp →
  deliver_inv (write s p c') (λ q, if decide (q = p) then sp else F q) D.
Proof.
  intros. rewrite <- (with_counts_id s). by eapply deliver_inv_write.
Qed.

Lemma refines_seen_mono c sp n :
  refines c sp → sent_counter n → seen sp ⊆ seen (snd (spec_step sp n)).
Proof. intros _ _. unfold spec_step. case_match; simpl; set_solver. Qed.

Lemma spec_step_accept_seen sp n :
  fst (spec_step sp n) = true → (n ∉ seen sp) ∧ n ∈ seen (snd (spec_step sp n)).
Proof.
  unfold spec_step. case_match eqn:E; [|done]. intros _. unfold spec_accepts in E.
  apply andb_true_iff in E as [E%bool_decide_eq_true _]. simpl. set_solver.
Qed.

Lemma DecryptFrame_step_inv s F D data r s' :
  deliver_inv s F D → sent_counter (frame_counter data) → DecryptFrame s data = (r, s') →
  ∃ F' : nat → Spec, if delivered r
        then ((resPeerNodeID r, resCounter r) ∉ D) ∧
             deliver_inv s' F' ((resPeerNodeID r, resCounter r) :: D)
        else deliver_inv s' F' D.
Proof.
  intros Hinv Hn. unfold DecryptFrame. case_zif; [intros [= <- <-]; by exists F|].
  destruct (Get s _) as [p|] eqn:Hget; [|intros [= <- <-]; by exists F].
  destruct (heap s !! p) as [c|] eqn:Hp; [|intros [= <- <-]; by exists F].
  case_zif; [intros [= <- <-]; by exists F|].
  fold (frame_counter data). cbn [precheck].
  pose proof (proj1 Hinv p c Hp) as Href.
  destruct (Open _ _ _ _) as [pt|].
  2: { intros [= <- <-]. eexists. simpl. eapply deliver_inv_write; eauto using faults_refines. }
  destruct (WouldAcceptNonce c (frame_counter data)) eqn:Ha; cbn [negb].
  2: { destruct (rejectResult c _ _ _) as [rr c'] eqn:E. intros [= <- <-].
       pose proof (rejectResult_refines c (Uint32 (slice 0 4 data)) (frame_counter data)
         (MaxRecvNonce c) (F p) Href) as Hr'. rewrite E in Hr'.
       eexists. replace (delivered rr) with false.
       { eapply deliver_inv_set; eauto. }
       unfold rejectResult in E. revert E. case_zif; intros [= <- _]; done. }
  unfold commit. rewrite WouldAcceptNonce_agrees in Ha.
  destruct (CheckAndRecordNonce_refines c (F p) (frame_counter data) Href Hn) as [He Hr'].
  destruct (CheckAndRecordNonce c (frame_counter data)) as [ok c'] eqn:E.
  simpl in Ha, He, Hr'. subst ok. cbn [negb]. intros [= <- <-].
  symmetry in He. apply spec_step_accept_seen in He as [Hfresh Hin].
  exists (λ q, if decide (q = p) then snd (spec_step (F p) (frame_counter data)) else F q).
  simpl. split.
  - intros (q & Hg & _ & Hq)%(proj2 Hinv). simplify_eq. done.
  - edestruct (deliver_inv_set s F D p c (settle c')) as [H1 H2];
      eauto using settle_refines, refines_seen_mono.
    split; [exact H1|]. intros peer n [Heq|Hd]%elem_of_cons; [|by apply H2].
    injection Heq as -> ->. exists p. split_and!; [done| |].
    + simpl. rewrite lookup_insert_eq. eauto.
    + rewrite decide_True by done. done.
Qed.

Lemma run_decrypt_fresh s F D l i r :
  deliver_inv s F D → Forall (λ d, sent_counter (frame_counter d)) l →
  fst (run_decrypt s l) !! i = Some r → delivered r = true →
  (resPeerNodeID r, resCounter r) ∉ D.
Proof.
  revert s F D i. induction l as [|d l IH]; intros s F D i Hinv Hl Hi Hr; [done|].
  inversion Hl as [|?? Hd Hl']; subst. simpl in Hi.
  destruct (DecryptFrame s d) as [r0 s0] eqn:E.
  destruct (DecryptFrame_step_inv s F D d r0 s0 Hinv Hd E) as [F' HF].
  destruct (run_decrypt s0 l) as [rs s1] eqn:Er. destruct i as [|i]; simpl in Hi.
  - simplify_eq. rewrite Hr in HF. apply HF.
  - destruct (delivered r0).
    + destruct HF as [_ HF]. specialize (IH s0 F' _ i HF Hl'). rewrite Er in IH.
      specialize (IH Hi Hr). set_solver.
    + specialize (IH s0 F' D i HF Hl'). rewrite Er in IH. eauto.
Qed.

Lemma run_decrypt_once s F D l i j ri rj :
  deliver_inv s F D → Forall (λ d, sent_counter (frame_counter d)) l →
  fst (run_decrypt s l) !! i = Some ri → fst (run_decrypt s l) !! j = Some rj →
  delivered ri = true → delivered rj = true →
  resPeerNodeID ri = resPeerNodeID rj → resCounter ri = resCounter rj → i = j.
Proof.
  revert s F D i j. induction l as [|d l IH]; intros s F D i j Hinv Hl Hi Hj Hri Hrj Hp Hc; [done|].
  inversion Hl as [|?? Hd Hl']; subst. simpl in Hi, Hj.
  destruct (DecryptFrame s d) as [r0 s0] eqn:E.
  destruct (DecryptFrame_step_inv s F D d r0 s0 Hinv Hd E) as [F' HF].
  destruct (run_decrypt s0 l) as [rs s1] eqn:Er.
  assert (∀ k rk, rs !! k = Some rk → delivered rk = true → delivered r0 = true →
    (resPeerNodeID rk, resCounter rk) ≠ (resPeerNodeID r0, resCounter r0)) as Hne.
  { intros k rk Hk Hdk Hd0 Heq. rewrite Hd0 in HF. destruct HF as [_ HF].
    pose proof (run_decrypt_fresh s0 F' _ l k rk HF Hl') as H.
    rewrite Er in H. apply (H Hk Hdk). rewrite Heq. apply elem_of_cons. by left. }
  destruct i as [|i], j as [|j]; simpl in *; simplify_eq; [done| | |].
  - exfalso. apply (Hne _ _ Hj Hrj Hri). congruence.
  - exfalso. apply (Hne _ _ Hi Hri Hrj). congruence.
  - f_equal. destruct (delivered r0); [destruct HF as [_ HF]|];
      eapply (IH s0 F'); eauto; by rewrite Er.
Qed.
End Runs.

(** ** Concurrent decryption of frames of one session *)
Module Concurrent.
Section Threads.
Context {P : Protocol} {K : Type}.

(** A goroutine in [DecryptFrame] that has opened a frame with counter [n]:
    before the pre-check; after it with its verdict and the [maxN] it saw;
    after the commit; and finished, having delivered the plaintext or not. *)
Inductive thread :=
| Entered (n : Z)
| Prechecked (n : Z) (accept : bool) (maxN : Z)
| Committed (n : Z) (ok : bool) (maxN : Z)
| Finished (n : Z) (deliver : bool).

Record state := mkState { session : Crypto K; threads : list thread }.

(** Each rule is one critical section of the source. *)
Inductive step : state → state → Prop :=
| step_precheck c ts i n :
    ts !! i = Some (Entered n) →
    step (mkState c ts)
         (mkState c (<[i := Prechecked n (fst (precheck c n)) (snd (precheck c n))]> ts))
| step_refuse c ts i n maxN peer :
    ts !! i = Some (Prechecked n false maxN) →
    step (mkState c ts)
         (mkState (snd (rejectResult c peer n maxN)) (<[i := Finished n false]> ts))
| step_commit c ts i n maxN ok max' c' :
    ts !! i = Some (Prechecked n true maxN) →
    commit c n = (ok, max', c') →
    step (mkState c ts) (mkState c' (<[i := Committed n ok max']> ts))
| step_lost c ts i n maxN peer :
    ts !! i = Some (Committed n false maxN) →
    step (mkState c ts)
         (mkState (snd (rejectResult c peer n maxN)) (<[i := Finished n false]> ts))
| step_deliver c ts i n maxN :
    ts !! i = Some (Committed n true maxN) →
    step (mkState c ts) (mkState (settle c) (<[i := Finished n true]> ts))
| step_junk c ts :
    step (mkState c ts) (mkState (countFail c) ts).

Definition counter_of (t : thread) : Z :=
  match t with Entered n | Prechecked n _ _ | Committed n _ _ | Finished n _ => n end.
(** The thread won the commit for its counter. *)
Definition won (t : thread) : bool :=
  match t with Committed _ true _ | Finished _ true => true | _ => false end.

Definition inv (st : state) : Prop :=
  ∃ sp, refines (session st) sp ∧
    (∀ i t, threads st !! i = Some t → sent_counter (counter_of t)) ∧
    (∀ i t, threads st !! i = Some t → won t = true → counter_of t ∈ seen sp) ∧
    (∀ i j t u, threads st !! i = Some t → threads st !! j = Some u →
       won t = true → won u = true → counter_of t = counter_of u → i = j).

(** A step that leaves the set of winners alone keeps the invariant. *)
Lemma inv_same_winners c ts i t t' c' :
  inv (mkState c ts) → ts !! i = Some t → counter_of t' = counter_of t →
  won t' = won t → (∀ sp, refines c sp → refines c' sp) →
  inv (mkState c' (<[i := t']> ts)).
Proof.
  intros (sp & Hr & Hc & Hs & Hu) Hi Hct Hw Href. exists sp. simpl in *.
  assert (∀ j u, <[i := t']> ts !! j = Some u →
    ∃ u0, ts !! j = Some u0 ∧ counter_of u = counter_of u0 ∧ won u = won u0) as Hback.
  { intros j u Hj. apply list_lookup_insert_Some in Hj as [(<- & <- & _)|[_ Hj]]; eauto. }
  split_and!; [auto| | |].
  - intros j u (u0 & Hj & -> & _)%Hback. eauto.
  - intros j u (u0 & Hj & -> & ->)%Hback. eauto.
  - intros j k u v (u0 & Hj & -> & ->)%Hback (v0 & Hk & -> & ->)%Hback. eauto.
Qed.

Lemma inv_commit c ts i n maxN ok max' c' :
  inv (mkState c ts) → ts !! i = Some (Prechecked n true maxN) →
  commit c n = (ok, max', c') → inv (mkState c' (<[i := Committed n ok max']> ts)).
Proof.
  intros (sp & Hr & Hc & Hs & Hu) Hi Hcm. simpl in *.
  pose proof (Hc i _ Hi) as Hn. simpl in Hn.
  destruct (CheckAndRecordNonce_refines c sp n Hr Hn) as [He Hr'].
  unfold commit in Hcm. destruct (CheckAndRecordNonce c n) as [ok0 c0]. simpl in He, Hr'.
  simplify_eq. exists (snd (spec_step sp n)).
  assert (fst (spec_step sp n) = true → n ∉ seen sp) as Hf
    by (intros H; apply (spec_step_accept_seen _ _ H)).
  assert (fst (spec_step sp n) = true → n ∈ seen (snd (spec_step sp n))) as Hf'
    by (intros H; apply (spec_step_accept_seen _ _ H)).
  pose proof (refines_seen_mono c sp n Hr Hn) as Hsub.
  split_and!; [done| | |]; simpl.
  - intros j u [(<- & <- & _)|[_ Hj]]%list_lookup_insert_Some; [done|eauto].
  - intros j u [(<- & <- & _)|[_ Hj]]%list_lookup_insert_Some Hw.
    + simpl in *. destruct (fst (spec_step sp n)); [auto|done].
    + apply Hsub. eauto.
  - intros j k u v [(<- & <- & _)|[Hji Hj]]%list_lookup_insert_Some
      [(<- & <- & _)|[Hki Hk]]%list_lookup_insert_Some Hwu Hwv Heq; try done.
    + simpl in *. destruct (fst (spec_step sp n)); [|done].
      destruct (Hf eq_refl). rewrite Heq. eauto.
    + simpl in *. destruct (fst (spec_step sp n)); [|done].
      destruct (Hf eq_refl). rewrite <- Heq. eauto.
    + eauto.
Qed.

Lemma step_inv st st' : step st st' → inv st → inv st'.
Proof.
  destruct 1; intros Hinv; eauto using inv_commit;
    try (eapply inv_same_winners; eauto using rejectResult_refines, settle_refines; done).
  destruct Hinv as (sp & Hr & H). exists sp. split; [by apply faults_refines|exact H].
Qed.

Lemma steps_inv st st' : rtc step st st' → inv st → inv st'.
Proof. induction 1; eauto using step_inv. Qed.

(** The initial state: goroutines holding opened frames, nothing received. *)
Definition initial (c : Crypto K) (ns : list Z) : state := mkState c (map Entered ns).

Lemma initial_inv c ns :
  fresh_window c → Forall sent_counter ns → inv (initial c ns).
Proof.
  intros [Hm Hb] Hns. exists spec_init. split; [by apply refines_init|].
  assert (∀ i t, map Entered ns !! i = Some t → ∃ n, t = Entered n ∧ sent_counter n) as Ht.
  { intros i t Hi. change (map Entered ns) with (Entered <$> ns) in Hi.
    apply list_lookup_fmap_Some in Hi as (n & -> & Hi). exists n. split; [done|].
    by apply (Forall_lookup_1 _ _ _ _ Hns Hi). }
  simpl. split_and!.
  - intros i t (n & -> & Hn)%Ht. done.
  - intros i t (n & -> & Hn)%Ht. done.
  - intros i j t u (n & -> & Hn)%Ht (m & -> & Hm')%Ht. done.
Qed.
End Threads.

(** C6. On a fresh session, at most one of any number of concurrent decryptions of
    frames with the same counter delivers its plaintext, in every interleaving of
    their critical sections and of rejected forged frames.  The counters are 1 or
    more, as every sender uses them: counter 0 is outside the claim, the window
    accepts it again and again ([counter_zero_is_replayable]). *)
Theorem one_delivery_per_counter {K} (c : Crypto K) ns st i j n :
  fresh_window c → Forall sent_counter ns →
  rtc step (initial c ns) st →
  threads st !! i = Some (Finished n true) →
  threads st !! j = Some (Finished n true) → i = j.
Proof.
  intros Hf Hns Hst Hi Hj.
  destruct (steps_inv _ _ Hst (initial_inv c ns Hf Hns)) as (sp & _ & _ & _ & Hu).
  eapply Hu; eauto.
Qed.

Lemma one_delivery_per_counter_witness :
  ∃ st, rtc step (initial example_crypto [7; 7]) st ∧
        threads st !! 0%nat = Some (Finished 7 true) ∧
        (∀ j, threads st !! j = Some (Finished 7 true) → 0%nat = j).
Proof.
  assert (∃ st, rtc step (initial example_crypto [7; 7]) st ∧
    threads st !! 0%nat = Some (Finished 7 true)) as (st & Hst & H0).
  { eexists. split.
    - eapply rtc_l; [by apply (step_precheck _ _ 0 7)|].
      eapply rtc_l; [by apply (step_precheck _ _ 1 7)|].
      eapply rtc_l; [by apply (step_commit _ _ 0 7 0 true 7)|].
      eapply rtc_l; [by apply (step_deliver _ _ 0 7 7)|].
      apply rtc_refl.
    - reflexivity. }
  exists st. split; [exact Hst|]. split; [exact H0|]. intros j Hj.
  apply (one_delivery_per_counter example_crypto [7; 7] st 0 j 7); try assumption.
  - done.
  - repeat (constructor; [unfold sent_counter; lia|]). constructor.
Defined.
End Concurrent.

(** ** A concrete cipher, to evaluate the model: the tag is a 16-byte checksum
    of key, nonce, plaintext and associated data. *)
Definition toy_tag (k : Z) (n pt aad : bytes) : bytes :=
  be_put 16 (be_get (be_put 8 k ++ n ++ pt ++ aad) + 1000003 * be_get aad).
Definition toy_open (k : Z) (n ct aad : bytes) : option bytes :=
  let m := (length ct - 16)%nat in
  if bool_decide (drop m ct = toy_tag k n (take m ct) aad) then Some (take m ct) else None.

#[refine] Definition toy_cipher : Cipher Z := {|
  NonceSize := λ _, 12%nat;
  Seal := λ k n pt aad, pt ++ toy_tag k n pt aad;
  Open := toy_open;
|}.
Proof.
  - done.
  - intros k n pt aad. unfold toy_open.
    assert (length (toy_tag k n pt aad) = 16%nat) as Ht by apply length_be_put.
    rewrite length_app, Ht. replace (length pt + 16 - 16)%nat with (length pt) by lia.
    rewrite drop_app_length, take_app_length, bool_decide_eq_true_2; done.
  - intros. rewrite length_app. unfold toy_tag. by rewrite length_be_put.
Defined.

Definition toy_session : Crypto Z :=
  mkCrypto 77 0 [1; 2; 3; 4] 0 (bm_zero 4) true true (replicate 32 7) 0 0 0 0 [].
(** Node 1001's store with a session for node 9, and the reverse. *)
Definition toy_store (local peer : Z) : Store Z :=
  Install (write (SetLocalNodeID NewStore local) 0 toy_session) peer 0.

(** Round trip: a frame one node builds for a peer with [EncryptFrame]
    is opened by that peer's [DecryptFrame] to the same plaintext, sender and
    counter, when the peer holds the session under the sender's node ID and its
    replay window has room for the counter; the sender's counter advances by
    one and no other field of its session changes. *)
Theorem Encrypt_Decrypt_roundtrip {P : Protocol} {K} {C : Cipher K}
    (s r : Store K) dst p cs q cr pt :
  Get s dst = Some p → heap s !! p = Some cs → Ready cs = true → is_u32 (localNodeID s) →
  Get r (localNodeID s) = Some q → heap r !! q = Some cr → paired cs cr →
  WouldAcceptNonce cr (u64 (Nonce cs + 1)) = true →
  ∃ body s', EncryptFrame s dst pt = (inl (TunnelMagicSecure ++ body), s') ∧
    heap s' !! p = Some (with_nonce cs (u64 (Nonce cs + 1))) ∧
    resErr (fst (DecryptFrame r body)) = None ∧
    resPlaintext (fst (DecryptFrame r body)) = Some pt ∧
    resPeerNodeID (fst (DecryptFrame r body)) = localNodeID s ∧
    resCounter (fst (DecryptFrame r body)) = u64 (Nonce cs + 1).
Proof.
  intros Hg Hp Hr Hl Hgr Hq Hpair Ha.
  unfold EncryptFrame. rewrite Hg, Hp, Hr. cbn [negb].
  unfold EncryptWith. rewrite Hp.
  exists (frame_body (localNodeID s) cs (u64 (Nonce cs + 1)) pt). eexists.
  split; [reflexivity|].
  split; [cbn; by rewrite lookup_insert_eq|].
  rewrite (DecryptFrame_genuine r q cs cr) by (done || apply u64_range).
  rewrite Ha. done.
Qed.

Lemma Encrypt_Decrypt_roundtrip_witness :
  ∃ body s', EncryptFrame (P := documented_protocol) (C := toy_cipher) (toy_store 1001 9) 9 [104; 105]
      = (inl ([80; 73; 76; 83] ++ body), s') ∧
    resPlaintext (fst (DecryptFrame (C := toy_cipher) (toy_store 9 1001) body)) = Some [104; 105].
Proof.
  destruct (Encrypt_Decrypt_roundtrip (P := documented_protocol) (C := toy_cipher)
    (toy_store 1001 9) (toy_store 9 1001) 9 0 toy_session 0 toy_session [104; 105])
    as (body & s' & H1 & _ & _ & H2 & _); try reflexivity.
  - unfold is_u32. simpl. lia.
  - done.
  - exists body, s'. split; [exact H1|exact H2].
Defined.

(** Nothing is delivered twice: over any sequence of frame bodies, forged
    or genuine and in any order, fed to [DecryptFrame] on a store whose sessions
    are fresh, no two positions deliver a plaintext for the same sender and
    counter. (Counter 0, which no sender emits, is excluded: the filter does
    not protect it.) *)
Theorem no_frame_delivered_twice {P : Protocol} {K} {C : Cipher K} (s : Store K) l i j ri rj :
  (∀ p c, heap s !! p = Some c → fresh_window c) →
  Forall (λ d, sent_counter (frame_counter d)) l →
  fst (run_decrypt s l) !! i = Some ri → fst (run_decrypt s l) !! j = Some rj →
  resErr ri = None → resErr rj = None →
  resPeerNodeID ri = resPeerNodeID rj → resCounter ri = resCounter rj → i = j.
Proof.
  intros Hf Hl Hi Hj Hri Hrj. apply (run_decrypt_once s (λ _, spec_init) [] l i j ri rj); try done.
  - split; [|set_solver]. intros p c [Hm Hb]%Hf. by apply refines_init.
  - by apply bool_decide_eq_true.
  - by apply bool_decide_eq_true.
Qed.

Definition toy_frame : bytes :=
  frame_body (C := toy_cipher) 1001 toy_session 1 [104; 105].

Lemma no_frame_delivered_twice_witness :
  map resErr (fst (run_decrypt (C := toy_cipher) (toy_store 9 1001) [toy_frame; toy_frame])) =
    [None; Some Replay] ∧
  ∀ j r, fst (run_decrypt (C := toy_cipher) (toy_store 9 1001) [toy_frame; toy_frame]) !! j = Some r →
    resErr r = None → resPeerNodeID r = 1001 → resCounter r = 1 → 0%nat = j.
Proof.
  split; [vm_compute; reflexivity|]. intros j r Hj He Hp Hc.
  eapply (no_frame_delivered_twice (P := documented_protocol) (C := toy_cipher) (toy_store 9 1001)
    [toy_frame; toy_frame] 0 j (mkResult (Some [104; 105]) 1001 1 None 1) r).
  - clear. intros p c H.
    change (heap (toy_store 9 1001)) with (<[0%nat := toy_session]> (∅ : gmap nat (Crypto Z))) in H.
    apply lookup_insert_Some in H as [[_ <-]|[_ H]]; [split; reflexivity|by rewrite lookup_empty in H].
  - clear. assert (frame_counter toy_frame = 1) as Hn by (vm_compute; reflexivity).
    repeat apply List.Forall_cons; try apply List.Forall_nil;
      rewrite Hn; unfold sent_counter; lia.
  - vm_compute. reflexivity.
  - exact Hj.
  - reflexivity.
  - exact He.
  - simpl. congruence.
  - simpl. congruence.
Defined.

(** A frame that fails authentication moves nothing but its own session's
    failure count: it yields [ErrAEAD], no plaintext, the session map is
    unchanged, and every session keeps its replay window, its send counter and
    its replay and outside-window counts, so forged frames can neither advance
    a window nor trip the replay drop gates. *)
Theorem forged_frame_is_inert {P : Protocol} {K} {C : Cipher K} (s : Store K) data r s' :
  DecryptFrame s data = (r, s') → resErr r = Some BadAEAD →
  resPlaintext r = None ∧ crypto s' = crypto s ∧
  ∀ q c', heap s' !! q = Some c' → ∃ c, heap s !! q = Some c ∧
    MaxRecvNonce c' = MaxRecvNonce c ∧ ReplayBitmap c' = ReplayBitmap c ∧
    Nonce c' = Nonce c ∧ ReplayCount c' = ReplayCount c ∧
    OutsideWindowCount c' = OutsideWindowCount c ∧ AEAD c' = AEAD c ∧
    (DecryptFailCount c' = DecryptFailCount c ∨
     Get s (resPeerNodeID r) = Some q ∧ DecryptFailCount c' = DecryptFailCount c + 1).
Proof.
  unfold DecryptFrame. case_zif; [intros [= <- <-]; done|].
  destruct (Get s _) as [p|] eqn:Hg; [|intros [= <- <-]; done].
  destruct (heap s !! p) as [c0|] eqn:Hp; [|intros [= <- <-]; done].
  case_zif; [intros [= <- <-]; done|]. cbn [precheck].
  destruct (Open _ _ _ _) as [pt|].
  - intros Heq He. exfalso. revert Heq. unfold rejectResult.
    repeat (case_zif || destruct (commit _ _) as [[??]?]); by intros [= <- _].
  - intros [= <- <-] _. split; [done|]. split; [done|]. intros q c' Hq. simpl in Hq.
    apply lookup_insert_Some in Hq as [[<- <-]|[_ Hq]].
    + exists c0. split; [done|]. simpl. split_and!; auto.
    + exists c'. split_and!; auto.
Qed.

Definition toy_forged : bytes := take 31 toy_frame ++ [0; 0; 0; 0].

Lemma forged_frame_is_inert_witness :
  resPlaintext (fst (DecryptFrame (C := toy_cipher) (toy_store 9 1001) toy_forged)) = None.
Proof.
  apply (forged_frame_is_inert (P := documented_protocol) (C := toy_cipher)
    (toy_store 9 1001) toy_forged _
    (snd (DecryptFrame (C := toy_cipher) (toy_store 9 1001) toy_forged))).
  - apply surjective_pairing.
  - vm_compute. reflexivity.
Defined.

(** The frames one session seals, in order. *)
Fixpoint encrypt_all {P : Protocol} {K} {C : Cipher K} (s : Store K) (p : nat) (l : list bytes)
  : list bytes :=
  match l with
  | [] => []
  | pt :: l => let '(f, s) := EncryptWith s p pt in f :: encrypt_all s p l
  end.
Definition nonce_of_frame (f : bytes) : bytes := slice 8 20 f.

Lemma encrypt_all_nonces {P : Protocol} {K} {C : Cipher K} (s : Store K) p c l :
  heap s !! p = Some c → length (NoncePrefix c) = 4%nat → 0 <= Nonce c →
  Nonce c + Z.of_nat (length l) < 18446744073709551616 →
  map nonce_of_frame (encrypt_all s p l) =
  map (λ i, NoncePrefix c ++ PutUint64 (Nonce c + 1 + Z.of_nat i)) (seq 0 (length l)).
Proof.
  revert s c. induction l as [|pt l IH]; intros s c Hp Hpre Hn Hlt; [done|].
  cbn [encrypt_all length] in *. unfold EncryptWith. rewrite Hp. cbn [map seq].
  rewrite u64_id by (unfold is_u64; lia). f_equal.
  - unfold nonce_of_frame, slice. rewrite app_assoc.
    assert (length (TunnelMagicSecure ++ PutUint32 (LocalNodeID s)) = 8%nat) as H8.
    { rewrite length_app. destruct magic_len as [-> _]. unfold PutUint32. by rewrite length_be_put. }
    cbn [localNodeID write with_heap with_counts LocalNodeID] in *.
    rewrite drop_app_length' by done.
    rewrite take_app_le, take_ge by (rewrite length_nonce_bytes; done).
    rewrite nonce_bytes_eq by done. do 2 f_equal. lia.
  - rewrite (IH _ (with_nonce c (Nonce c + 1))); simpl.
    + rewrite <- seq_shift, map_map. apply map_ext. intros i. do 2 f_equal. lia.
    + by rewrite lookup_insert_eq.
    + done.
    + lia.
    + lia.
Qed.

(** Nonce uniqueness: as long as a session has sealed fewer than 2^64
    frames, no two frames it seals carry the same AEAD nonce. *)
Theorem nonces_never_repeat {P : Protocol} {K} {C : Cipher K} (s : Store K) p c l :
  heap s !! p = Some c → length (NoncePrefix c) = 4%nat → 0 <= Nonce c →
  Nonce c + Z.of_nat (length l) < 18446744073709551616 →
  NoDup (map nonce_of_frame (encrypt_all s p l)).
Proof.
  intros Hp Hpre Hn Hlt. rewrite (encrypt_all_nonces s p c) by done.
  apply NoDup_ListNoDup, List.NoDup_map_NoDup_ForallPairs; [|apply seq_NoDup].
  intros i j Hi Hj He. rewrite in_seq in Hi, Hj.
  apply app_inv_head in He. apply (f_equal Uint64) in He.
  rewrite <- (app_nil_r (PutUint64 _)), <- (app_nil_r (PutUint64 (_ + Z.of_nat j))) in He.
  rewrite !Uint64_Put in He by (unfold is_u64; lia). lia.
Qed.

Lemma nonces_never_repeat_witness :
  NoDup (map nonce_of_frame (encrypt_all (P := documented_protocol) (C := toy_cipher)
    (toy_store 1001 9) 0 [[1]; [1]; [2]])).
Proof.
  apply (nonces_never_repeat (P := documented_protocol) (C := toy_cipher)
    (toy_store 1001 9) 0 toy_session); reflexivity.
Defined.
