(* ===== verification/KeyExchange.v ===== *)
(** * Key exchange (pkg/daemon/keyexchange: keyexchange.go, frame.go, derive.go,
    bootstrap.go, handle.go, loop.go)

    [Manager] establishes the sessions of KeyStore.  Its fields are grouped as
    the source groups them under locks: [keys] (pubKeysMu), [rk] (rkPendingMu)
    and the configuration ([cfg]: identity, X25519 keys, hooks).  The hooks the
    daemon plugs in (frame sender, event bus, post-install, pre-retransmit,
    gave-up) are outputs: each call is appended to [trace].  The registry
    lookup behind [verifyFunc] and the success of a send are environment
    oracles indexed by call number, so two lookups of one handler may answer
    differently.  Each operation takes the clock reading it uses. *)
From S2P Require Import Prelude Bitmap Crypto KeyStore Protocol.
Open Scope Z_scope.

Definition RekeyRetransmitInterval : duration := 4 * Second.
Definition MaxRekeyAttempts : Z := 5.
Definition KeyExchangeReplyStaleThreshold : duration := 6 * Second.
Definition KeyExchangeReplyMinInterval : duration := 1 * Second.
Definition rekeyGaveUpCooldown : duration := 5 * Second.
Definition DuplicateHandshakeDebounce : duration := 250 * Millisecond.
Definition NegativePubKeyCacheTTL : duration := 3 * Second.
Definition MaxNegPubKeyEntries : Z := 4096.
Definition KeyRequestAfterSends : Z := 1.
Definition maxRetransmitsPerTick : nat := 64.

(** The primitives of [crypto/ecdh], [crypto/hmac], [crypto/aes], [crypto/rand]
    and [common/crypto] the package calls. *)
Class Primitives (K : Type) := {
  Priv : Type;                                  (* *ecdh.PrivateKey *)
  Identity : Type;                              (* *crypto.Identity *)
  IdPublicKey : Identity → bytes;
  Sign : Identity → bytes → bytes;
  Verify : bytes → bytes → bytes → bool;        (* public key, message, signature *)
  ECDH : Priv → bytes → option bytes;           (* NewPublicKey then ECDH *)
  HMAC : bytes → bytes → bytes;                 (* key, message *)
  NewGCM : bytes → option K;                    (* aes.NewCipher, cipher.NewGCM *)
}.

Record PendingRekeyState := mkPending {
  FirstSentAt : gotime; LastSentAt : gotime; Attempts : Z;
}.

(** ["auth"] and ["pilot-tunnel-v1"] *)
Definition authTag : bytes := [97; 117; 116; 104].
Definition HKDFInfo : bytes :=
  [112; 105; 108; 111; 116; 45; 116; 117; 110; 110; 101; 108; 45; 118; 49].

(** A public key as the registry returns it; [None] is a nil key. *)
Definition pubkey := option bytes.

Record PostInstallEvent := mkPostInstall {
  evPeer : Z; evFrom : Z; evFromRelay : bool; evAuthenticated : bool;
  evHadCrypto : bool; evKeyChanged : bool;
  evOld : option nat; evNew : nat; evPeerEd25519 : option bytes;
}.

(** Calls to the hooks. [from] addresses are opaque here. *)
Inductive Event :=
| EvSend (peer : Z) (frame : bytes)
| EvEstablished (peer : option Z) (authenticated relay rekeyed : bool)
| EvPostInstall (ev : PostInstallEvent)
| EvPreRetransmit (peer attempt : Z)
| EvGaveUpHook (peer : Z)
| EvGaveUpPublished (peer : Z).

Inductive KxError := errPubKeyUnresolved | errNoVerify | errRegistry.

Section KeyExchange.
Context {P : Protocol} {K : Type} {X : Primitives K}.

(** What the daemon wired in, and the environment's answers. *)
Record Config := mkConfig {
  identity : option Identity;
  privKey : option Priv;
  pubKey : option bytes;
  localNodeIDFn : option Z;
  hasVerify : bool;                              (* verifyFunc != nil *)
  registry : nat → Z → option pubkey;            (* n-th lookup; None is an error *)
  hasSender : bool;
  sendOK : nat → bool;                           (* n-th send returns nil *)
  noncePrefixes : nat → option bytes;            (* n-th rand.Read *)
  trustFn : option (Z → bool);
  hasPostInstall : bool;
  hasPreRetx : bool;
  hasOnGaveUp : bool;
}.

Record KeyCache := mkKeyCache { peerPubKeys : gmap Z pubkey; negPubKeys : gmap Z gotime }.

Record RekeyState := mkRekeyState {
  pendingRekey : gmap Z PendingRekeyState;
  lastInboundDecrypt : gmap Z gotime;
  rekeyGaveUp : gmap Z gotime;
  lastKeyExchangeReply : gmap Z gotime;
  keyRequestDue : gset Z;
}.

Record Manager := mkManager {
  env : Store K;
  cfg : Config;
  keys : KeyCache;
  rk : RekeyState;
  keyRequestsSent : Z;
  replyWhitelist : option (gset Z);
  replyWhitelistAll : bool;
  trace : list Event;
  lookups : nat;                                 (* registry calls so far *)
  sends : nat;                                   (* sender calls so far *)
  draws : nat;                                   (* rand.Read calls so far *)
}.
Implicit Types m : Manager.

Definition New (store : Store K) (c : Config) : Manager :=
  mkManager store c (mkKeyCache ∅ ∅) (mkRekeyState ∅ ∅ ∅ ∅ ∅) 0 None false [] 0 0 0.

Definition with_env m (e : Store K) : Manager :=
  mkManager e (cfg m) (keys m) (rk m) (keyRequestsSent m) (replyWhitelist m)
    (replyWhitelistAll m) (trace m) (lookups m) (sends m) (draws m).
Definition with_keys m (k : KeyCache) : Manager :=
  mkManager (env m) (cfg m) k (rk m) (keyRequestsSent m) (replyWhitelist m)
    (replyWhitelistAll m) (trace m) (lookups m) (sends m) (draws m).
Definition with_rk m (r : RekeyState) : Manager :=
  mkManager (env m) (cfg m) (keys m) r (keyRequestsSent m) (replyWhitelist m)
    (replyWhitelistAll m) (trace m) (lookups m) (sends m) (draws m).
Definition with_requests m (n : Z) : Manager :=
  mkManager (env m) (cfg m) (keys m) (rk m) n (replyWhitelist m)
    (replyWhitelistAll m) (trace m) (lookups m) (sends m) (draws m).
Definition with_whitelist m (w : option (gset Z)) (all : bool) : Manager :=
  mkManager (env m) (cfg m) (keys m) (rk m) (keyRequestsSent m) w all
    (trace m) (lookups m) (sends m) (draws m).
Definition with_calls m (l s d : nat) : Manager :=
  mkManager (env m) (cfg m) (keys m) (rk m) (keyRequestsSent m) (replyWhitelist m)
    (replyWhitelistAll m) (trace m) l s d.
Definition emit m (e : Event) : Manager :=
  mkManager (env m) (cfg m) (keys m) (rk m) (keyRequestsSent m) (replyWhitelist m)
    (replyWhitelistAll m) (trace m ++ [e]) (lookups m) (sends m) (draws m).

Definition with_pending m (p : gmap Z PendingRekeyState) : Manager :=
  with_rk m (mkRekeyState p (lastInboundDecrypt (rk m)) (rekeyGaveUp (rk m))
    (lastKeyExchangeReply (rk m)) (keyRequestDue (rk m))).

Definition HasIdentity m : bool := bool_decide (is_Some (identity (cfg m))).

Definition localNodeID m : Z := default 0 (localNodeIDFn (cfg m)).

(** ** Peer public keys *)

Definition recordNegPubKey m (now : gotime) (nodeID : Z) : Manager :=
  let neg := negPubKeys (keys m) in
  if bool_decide (neg !! nodeID = None) && (MaxNegPubKeyEntries <=? Z.of_nat (size neg)) then
    let neg := filter (λ e, time_sub now e.2 < NegativePubKeyCacheTTL) neg in
    if MaxNegPubKeyEntries <=? Z.of_nat (size neg)
    then with_keys m (mkKeyCache (peerPubKeys (keys m)) neg)
    else with_keys m (mkKeyCache (peerPubKeys (keys m)) (<[nodeID := now]> neg))
  else with_keys m (mkKeyCache (peerPubKeys (keys m)) (<[nodeID := now]> neg)).

Definition GetPeerPubKey m (now : gotime) (nodeID : Z) : (pubkey + KxError) * Manager :=
  match peerPubKeys (keys m) !! nodeID with
  | Some pk => (inl pk, m)
  | None =>
      let recent := match negPubKeys (keys m) !! nodeID with
                    | Some at_ => time_sub now at_ <? NegativePubKeyCacheTTL
                    | None => false
                    end in
      if recent then (inr errPubKeyUnresolved, m)
      else if negb (hasVerify (cfg m)) then (inr errNoVerify, m)
      else
        let ans := registry (cfg m) (lookups m) nodeID in
        let m := with_calls m (S (lookups m)) (sends m) (draws m) in
        match ans with
        | None => (inr errRegistry, recordNegPubKey m now nodeID)
        | Some pk =>
            (inl pk, with_keys m (mkKeyCache (<[nodeID := pk]> (peerPubKeys (keys m)))
                                             (delete nodeID (negPubKeys (keys m)))))
        end
  end.

Definition PeerPubKeyCached m (nodeID : Z) : option pubkey := peerPubKeys (keys m) !! nodeID.
Definition HasPeerPubKey m (nodeID : Z) : bool :=
  bool_decide (is_Some (peerPubKeys (keys m) !! nodeID)).
Definition SetPeerPubKey m (nodeID : Z) (pk : bytes) : Manager :=
  with_keys m (mkKeyCache (<[nodeID := Some pk]> (peerPubKeys (keys m))) (negPubKeys (keys m))).
Definition InvalidatePeerPubKey m (nodeID : Z) : Manager :=
  with_keys m (mkKeyCache (delete nodeID (peerPubKeys (keys m))) (negPubKeys (keys m))).

(** ** Rekey bookkeeping *)

Definition MarkPendingRekey m (now : gotime) (peer : Z) : bool * Manager :=
  let r := rk m in
  let cooling := match rekeyGaveUp r !! peer with
                 | Some at_ => time_sub now at_ <? rekeyGaveUpCooldown
                 | None => false
                 end in
  if cooling then (false, m)
  else
    let st := default (mkPending now 0 0) (pendingRekey r !! peer) in
    (true, with_rk m (mkRekeyState
      (<[peer := mkPending (FirstSentAt st) now (Attempts st + 1)]> (pendingRekey r))
      (lastInboundDecrypt r) (delete peer (rekeyGaveUp r))
      (lastKeyExchangeReply r) (keyRequestDue r))).

Definition ClearPendingRekey m (peer : Z) : Manager :=
  with_pending m (delete peer (pendingRekey (rk m))).

Definition ResetPendingRekeyAttempts m (peer : Z) : Manager :=
  with_pending m (alter (λ st, mkPending (FirstSentAt st) zero_time 0) peer (pendingRekey (rk m))).

Definition ClearRekeyGaveUp m (peer : Z) : Manager :=
  let r := rk m in
  with_rk m (mkRekeyState (pendingRekey r) (lastInboundDecrypt r) (delete peer (rekeyGaveUp r))
    (lastKeyExchangeReply r) (keyRequestDue r)).

Definition PeerInRekeyGaveUp m (now : gotime) (peer : Z) : bool :=
  match rekeyGaveUp (rk m) !! peer with
  | Some t => time_sub now t <? rekeyGaveUpCooldown
  | None => false
  end.

Definition PendingRekeyAttempts m (peer : Z) : Z :=
  match pendingRekey (rk m) !! peer with Some st => Attempts st | None => 0 end.
Definition PendingRekeyHas m (peer : Z) : bool :=
  bool_decide (is_Some (pendingRekey (rk m) !! peer)).

Definition RecordInboundDecrypt m (now : gotime) (peer : Z) : Manager :=
  let r := rk m in
  with_rk m (mkRekeyState (pendingRekey r) (<[peer := now]> (lastInboundDecrypt r))
    (rekeyGaveUp r) (lastKeyExchangeReply r) (keyRequestDue r)).

Definition LastInboundDecrypt m (peer : Z) : option gotime := lastInboundDecrypt (rk m) !! peer.

Definition InboundDecryptStale m (now : gotime) (peer : Z) : bool :=
  match lastInboundDecrypt (rk m) !! peer with
  | None => true
  | Some t => KeyExchangeReplyStaleThreshold <? time_sub now t
  end.

Definition reply_whitelisted m (peer : Z) : bool :=
  if replyWhitelistAll m then true
  else match replyWhitelist m with Some wl => bool_decide (peer ∈ wl) | None => false end.

Definition MarkReplyKeyExchangeSent m (now : gotime) (peer : Z) : bool * Manager :=
  let r := rk m in
  let limited := match lastKeyExchangeReply r !! peer with
                 | Some last => time_sub now last <? KeyExchangeReplyMinInterval
                 | None => false
                 end in
  if negb (reply_whitelisted m peer) && limited then (false, m)
  else (true, with_rk m (mkRekeyState (pendingRekey r) (lastInboundDecrypt r) (rekeyGaveUp r)
                           (<[peer := now]> (lastKeyExchangeReply r)) (keyRequestDue r))).

Definition SetReplyWhitelist m (nodeIDs : list Z) : Manager :=
  with_whitelist m (Some (list_to_set (List.filter (λ id, negb (id =? 0)) nodeIDs)))
    (replyWhitelistAll m).
Definition SetReplyWhitelistMatchAll m (on : bool) : Manager :=
  with_whitelist m (replyWhitelist m) on.

Definition PeerStateEntries m : nat :=
  size (peerPubKeys (keys m)) + size (negPubKeys (keys m)) +
  (size (pendingRekey (rk m)) + size (lastInboundDecrypt (rk m)) + size (rekeyGaveUp (rk m)) +
   size (lastKeyExchangeReply (rk m)) + size (keyRequestDue (rk m))).

Definition kxPeerIDs m : gset Z :=
  dom (peerPubKeys (keys m)) ∪ dom (negPubKeys (keys m)) ∪ dom (pendingRekey (rk m)) ∪
  dom (lastInboundDecrypt (rk m)) ∪ dom (lastKeyExchangeReply (rk m)) ∪ keyRequestDue (rk m).

Definition RemovePeer m (nodeID : Z) : Manager :=
  let r := rk m in
  with_rk (with_keys m (mkKeyCache (delete nodeID (peerPubKeys (keys m)))
                                   (delete nodeID (negPubKeys (keys m)))))
    (mkRekeyState (delete nodeID (pendingRekey r)) (delete nodeID (lastInboundDecrypt r))
       (rekeyGaveUp r) (delete nodeID (lastKeyExchangeReply r)) (keyRequestDue r ∖ {[nodeID]})).

Definition MarkKeyRequestDue m (peer : Z) : Manager :=
  let r := rk m in
  if Z.of_nat (size (keyRequestDue r)) <? MaxNegPubKeyEntries then
    with_rk m (mkRekeyState (pendingRekey r) (lastInboundDecrypt r) (rekeyGaveUp r)
      (lastKeyExchangeReply r) ({[peer]} ∪ keyRequestDue r))
  else m.

Definition takeKeyRequest m (peer : Z) : bool * Manager :=
  let r := rk m in
  if bool_decide (peer ∈ keyRequestDue r) then
    (true, with_rk m (mkRekeyState (pendingRekey r) (lastInboundDecrypt r) (rekeyGaveUp r)
                        (lastKeyExchangeReply r) (keyRequestDue r ∖ {[peer]})))
  else
    (match pendingRekey r !! peer with
     | Some st => KeyRequestAfterSends <=? Attempts st
     | None => false
     end, m).

(** ** Frames *)

(** A 32-byte key field filled with [copy]: truncated or zero-padded. *)
Definition field (n : nat) (b : bytes) : bytes := take n (b ++ replicate n 0).

Definition authChallenge (nodeID : Z) (x25519 : bytes) : bytes :=
  authTag ++ PutUint32 nodeID ++ field 32 x25519.

Definition BuildAuthFrame m : option bytes :=
  match pubKey (cfg m), identity (cfg m) with
  | Some pub, Some id =>
      let nodeID := localNodeID m in
      let signature := Sign id (authChallenge nodeID pub) in
      Some (TunnelMagicAuthEx ++ PutUint32 nodeID ++ field 32 pub ++
            field 32 (IdPublicKey id) ++ field 64 signature)
  | _, _ => None
  end.

Definition BuildUnauthFrame m : option bytes :=
  match pubKey (cfg m) with
  | Some pub => Some (TunnelMagicKeyEx ++ PutUint32 (localNodeID m) ++ field 32 pub)
  | None => None
  end.

(** [m.sender(peer, addr, frame)]: one call of the hook and its verdict. *)
Definition send m (peer : Z) (frame : bytes) : bool * Manager :=
  let ok := sendOK (cfg m) (sends m) in
  (ok, emit (with_calls m (lookups m) (S (sends m)) (draws m)) (EvSend peer frame)).

Definition SendKeyExchangeToNode m (now : gotime) (peer : Z) : bool * Manager :=
  if negb (hasSender (cfg m)) then (false, m)
  else
    match BuildUnauthFrame m with
    | None => (false, m)
    | Some unauthFrame =>
        let authFrame := if HasIdentity m then BuildAuthFrame m else None in
        let frame := default unauthFrame authFrame in
        let authed := bool_decide (is_Some authFrame) in
        let '(keyRequest, m) :=
          if authed && negb (Has (env m) peer) then takeKeyRequest m peer else (false, m) in
        let '(ok, m) := send m peer frame in
        if negb ok then (false, m)
        else
          let '(keyRequest, m) :=
            if keyRequest then
              let '(ok, m) := send m peer unauthFrame in
              if ok then (true, with_requests m (u64 (keyRequestsSent m + 1))) else (false, m)
            else (false, m) in
          (keyRequest, snd (MarkPendingRekey m now peer))
    end.

(** ** Key derivation *)
Definition deriveKey (priv : Priv) (peerPub : bytes) : option K :=
  match ECDH priv peerPub with
  | None => None
  | Some shared =>
      let prk := HMAC [] shared in
      let key := HMAC prk (HKDFInfo ++ [1]) in
      NewGCM key
  end.

Definition DeriveSecret m (now : gotime) (peerPub : bytes) : option (Crypto K) * Manager :=
  match privKey (cfg m) with
  | None => (None, m)
  | Some priv =>
      match deriveKey priv peerPub with
      | None => (None, m)
      | Some aead =>
          let r := noncePrefixes (cfg m) (draws m) in
          let m := with_calls m (lookups m) (sends m) (S (draws m)) in
          match r with
          | None => (None, m)
          | Some prefix =>
              (Some (mkCrypto aead 0 (field 4 prefix) 0 (bm_zero 4) true false
                       (field 32 peerPub) 0 0 0 now []), m)
          end
      end
  end.

Definition set_authenticated (c : Crypto K) : Crypto K :=
  mkCrypto (AEAD c) (Nonce c) (NoncePrefix c) (MaxRecvNonce c) (ReplayBitmap c) (Ready c) true
    (PeerX25519Key c) (DecryptFailCount c) (OutsideWindowCount c) (ReplayCount c)
    (CreatedAt c) (Salvage c).

(** ** Handlers *)

Definition publish_established m (peer : Z) (authenticated relay rekeyed : bool) : Manager :=
  let known := match trustFn (cfg m) with None => true | Some f => f peer end in
  emit m (EvEstablished (if known then Some peer else None) authenticated relay rekeyed).

(** The part both handlers share: compare with the installed session, install
    on a new peer or a changed key, and fire the observers unless the frame is
    a duplicate inside the debounce window. Returns the old pointer's state. *)
Record Installed := mkInstalled { hadCrypto : bool; keyChanged : bool }.

Definition compare_session m (peer : Z) (pc : Crypto K) : Installed :=
  match deref (env m) (Get (env m) peer) with
  | None => mkInstalled false false
  | Some old => mkInstalled true (negb (bool_decide (PeerX25519Key old = PeerX25519Key pc)))
  end.

Definition is_duplicate m (now : gotime) (peer : Z) (pc : Crypto K) : bool :=
  match deref (env m) (Get (env m) peer) with
  | None => false
  | Some old => bool_decide (PeerX25519Key old = PeerX25519Key pc) &&
                (time_sub now (CreatedAt old) <? DuplicateHandshakeDebounce)
  end.

(** [pc] is allocated, and installed if new or rekeyed; gives its address. *)
Definition install_session m (peer : Z) (pc : Crypto K) : nat * Manager :=
  let i := compare_session m peer pc in
  let '(p, e) := new_crypto (env m) pc in
  let e := if negb (hadCrypto i) || keyChanged i then Install e peer p else e in
  (p, with_env m e).

Definition observe m (peer from : Z) (fromRelay authenticated : bool) (i : Installed)
    (old : option nat) (new : nat) (ed : option bytes) : Manager :=
  let m := publish_established m peer authenticated fromRelay (keyChanged i) in
  if hasPostInstall (cfg m) then
    emit m (EvPostInstall (mkPostInstall peer from fromRelay authenticated
              (hadCrypto i) (keyChanged i) old new ed))
  else m.

(** The registry-backed identity check of [HandleAuthFrame]: the expected key,
    re-fetched once when the frame's key differs. [None] is a reject. *)
Definition resolve_identity m (now : gotime) (peer : Z) (edKey : bytes) : option bytes * Manager :=
  let '(r, m) := GetPeerPubKey m now peer in
  match r with
  | inr _ | inl None => (None, m)
  | inl (Some expected) =>
      if bool_decide (edKey = expected) then (Some expected, m)
      else
        let m := InvalidatePeerPubKey m peer in
        let '(r, m) := GetPeerPubKey m now peer in
        match r with
        | inr _ | inl None => (None, m)
        | inl (Some expected) =>
            if bool_decide (edKey = expected) then (Some expected, m) else (None, m)
        end
  end.

Definition HandleAuthFrame m (now : gotime) (data : bytes) (from : Z) (fromRelay : bool)
  : bool * Manager :=
  if Nat.ltb (length data) (4 + 32 + 32 + 64) then (false, m)
  else
    let peer := Uint32 (slice 0 4 data) in
    let peerX := slice 4 36 data in
    let peerEd := slice 36 68 data in
    let signature := slice 68 132 data in
    match privKey (cfg m) with
    | None => (false, m)
    | Some _ =>
        let challenge := authChallenge peer peerX in
        let '(expected, m) := resolve_identity m now peer peerEd in
        match expected with
        | None => (false, m)
        | Some expected =>
            if negb (Verify expected challenge signature) then (false, m)
            else
              let '(d, m) := DeriveSecret m now peerX in
              match d with
              | None => (false, m)
              | Some pc =>
                  let pc := set_authenticated pc in
                  let i := compare_session m peer pc in
                  let duplicate := is_duplicate m now peer pc in
                  let old := Get (env m) peer in
                  let '(p, m) := install_session m peer pc in
                  let m := SetPeerPubKey m peer peerEd in
                  let m := if duplicate then m
                           else observe m peer from fromRelay true i old p (Some peerEd) in
                  if negb (hadCrypto i) || keyChanged i then
                    let '(_, m) := SendKeyExchangeToNode m now peer in
                    (true, ClearPendingRekey m peer)
                  else
                    let m :=
                      if InboundDecryptStale m now peer then
                        let '(ok, m) := MarkReplyKeyExchangeSent m now peer in
                        if ok then snd (SendKeyExchangeToNode m now peer) else m
                      else m in
                    (true, ClearPendingRekey m peer)
              end
        end
    end.

Definition HandleUnauthFrame m (now : gotime) (data : bytes) (from : Z) (fromRelay : bool)
  : bool * Manager :=
  if Nat.ltb (length data) 36 then (false, m)
  else
    let peer := Uint32 (slice 0 4 data) in
    let peerX := slice 4 36 data in
    match privKey (cfg m) with
    | None => (false, m)
    | Some _ =>
        let hadCryptoPre := Has (env m) peer in
        let cryptoSize := Len (env m) in
        let '(known, m) :=
          if HasIdentity m then
            let '(r, m) := GetPeerPubKey m now peer in
            (match r with inl (Some _) => true | _ => false end, m)
          else (false, m) in
        if known then (false, snd (SendKeyExchangeToNode m now peer))
        else if negb hadCryptoPre && (MaxCryptoPeers <=? cryptoSize) then (false, m)
        else
          let '(d, m) := DeriveSecret m now peerX in
          match d with
          | None => (false, m)
          | Some pc =>
              let i := compare_session m peer pc in
              let duplicate := is_duplicate m now peer pc in
              let old := Get (env m) peer in
              let '(p, m) := install_session m peer pc in
              let m := if duplicate then m
                       else observe m peer from fromRelay false i old p None in
              let m := if negb (hadCrypto i) || keyChanged i
                       then snd (SendKeyExchangeToNode m now peer) else m in
              (true, ClearPendingRekey m peer)
          end
    end.

(** ** The retransmit tick.  [order] is the order in which the map range
    happens to visit [pendingRekey].  The tick reads the clock once, at [now];
    [MarkPendingRekey] reads it again for each exchange sent, at [sent] of the
    peer. *)
Definition due_giveup (e : Z * PendingRekeyState) : bool :=
  MaxRekeyAttempts + 1 <=? Attempts e.2.
Definition due_retry (now : gotime) (e : Z * PendingRekeyState) : bool :=
  negb (due_giveup e) && negb (time_sub now (LastSentAt e.2) <? RekeyRetransmitInterval).

Definition retransmit_one (now : gotime) m (e : Z * PendingRekeyState) : Manager :=
  let m := if hasPreRetx (cfg m) then emit m (EvPreRetransmit e.1 (Attempts e.2 + 1)) else m in
  snd (SendKeyExchangeToNode m now e.1).

Definition RekeyRetransmitTick m (now : gotime) (sent : Z → gotime) (order : list (Z * PendingRekeyState)) : Manager :=
  let toRetry := List.filter (due_retry now) order in
  let toGiveUp := map fst (List.filter due_giveup order) in
  let r := rk m in
  let gaveUp := fold_left (λ g id, <[id := now]> g) toGiveUp (rekeyGaveUp r) in
  let gaveUp := filter (λ e, time_sub now e.2 < rekeyGaveUpCooldown) gaveUp in
  let m := with_rk m (mkRekeyState
             (fold_left (λ p id, delete id p) toGiveUp (pendingRekey r))
             (lastInboundDecrypt r) gaveUp (lastKeyExchangeReply r) (keyRequestDue r)) in
  let m := if hasOnGaveUp (cfg m)
           then fold_left (λ m id, emit m (EvGaveUpHook id)) toGiveUp m else m in
  let m := fold_left (λ m e, retransmit_one (sent e.1) m e) (take maxRetransmitsPerTick toRetry) m in
  fold_left (λ m id, emit m (EvGaveUpPublished id)) toGiveUp m.
End KeyExchange.
