(* ===== verification/KeyExchangeProofs.v ===== *)
(** * Theorems on the key exchange (model in KeyExchange) *)
From S2P Require Import Prelude Bitmap Crypto KeyStore Protocol KeyExchange.
Open Scope Z_scope.

Section Frame.
Context {P : Protocol} {K : Type} {X : Primitives K}.
Implicit Types m : Manager.

(** ** What the bookkeeping operations leave alone *)

(** Same sessions, configuration and public-key cache. *)
Definition same_sessions m m' : Prop :=
  env m' = env m ∧ cfg m' = cfg m ∧ (lookups m ≤ lookups m')%nat.
Definition same_keys m m' : Prop := same_sessions m m' ∧ keys m' = keys m.

#[local] Instance same_sessions_trans : Transitive same_sessions.
Proof. intros a b c (?&?&?) (?&?&?). split_and!; [congruence..|lia]. Qed.
#[local] Instance same_keys_trans : Transitive same_keys.
Proof. intros a b c [? Ha] [? Hb]. split; [by etrans|congruence]. Qed.

Lemma same_keys_refl m : same_keys m m.
Proof. done. Qed.

Lemma MarkPendingRekey_keys m now peer : same_keys m (snd (MarkPendingRekey m now peer)).
Proof. unfold MarkPendingRekey. by repeat case_match. Qed.

Lemma MarkReply_keys m now peer : same_keys m (snd (MarkReplyKeyExchangeSent m now peer)).
Proof. unfold MarkReplyKeyExchangeSent. by repeat case_match. Qed.

Lemma takeKeyRequest_keys m peer : same_keys m (snd (takeKeyRequest m peer)).
Proof. unfold takeKeyRequest. by repeat case_match. Qed.

Lemma send_keys m peer f : same_keys m (snd (send m peer f)).
Proof. done. Qed.

Lemma SendKeyExchange_keys m now peer : same_keys m (snd (SendKeyExchangeToNode m now peer)).
Proof.
  unfold SendKeyExchangeToNode. case_zif; [done|].
  destruct (BuildUnauthFrame m) as [uf|]; [|done].
  set (a := if HasIdentity m then BuildAuthFrame m else None).
  set (tk := if bool_decide (is_Some a) && _ then takeKeyRequest m peer else (false, m)).
  assert (same_keys m (snd tk)) as H1.
  { unfold tk. case_match; [apply takeKeyRequest_keys|done]. }
  destruct tk as [kr m1]. cbn [send snd] in *.
  case_zif; [exact H1|]. destruct kr.
  - cbn [send]. case_zif; cbn [snd]; (etrans; [exact H1|]).
    + etrans; [|apply MarkPendingRekey_keys]. done.
    + etrans; [|apply MarkPendingRekey_keys]. done.
  - cbn [snd]. etrans; [exact H1|]. etrans; [|apply MarkPendingRekey_keys]. done.
Qed.

Lemma ClearPendingRekey_keys m peer : same_keys m (ClearPendingRekey m peer).
Proof. done. Qed.

Lemma observe_keys m peer from rel au i old new ed :
  same_keys m (observe m peer from rel au i old new ed).
Proof. unfold observe, publish_established. by repeat case_match. Qed.

Lemma recordNeg_sessions m now id : same_sessions m (recordNegPubKey m now id).
Proof. unfold recordNegPubKey. by repeat case_match. Qed.

Lemma GetPeerPubKey_sessions m now id : same_sessions m (snd (GetPeerPubKey m now id)).
Proof.
  assert (same_sessions m (with_calls m (S (lookups m)) (sends m) (draws m))) as Hs
    by (split_and!; simpl; [done|done|lia]).
  unfold GetPeerPubKey. repeat case_match; simpl; try done;
    (etrans; [exact Hs|]); first [apply recordNeg_sessions|done].
Qed.

Lemma resolve_sessions m now id ed : same_sessions m (snd (resolve_identity m now id ed)).
Proof.
  unfold resolve_identity. pose proof (GetPeerPubKey_sessions m now id) as H1.
  destruct (GetPeerPubKey m now id) as [r m1]. simpl in H1.
  destruct r as [[e|]|]; try exact H1. case_match; [exact H1|].
  pose proof (GetPeerPubKey_sessions (InvalidatePeerPubKey m1 id) now id) as H2.
  destruct (GetPeerPubKey (InvalidatePeerPubKey m1 id) now id) as [r2 m2]. simpl in H2.
  assert (same_sessions m m2) by (etrans; [exact H1|exact H2]).
  destruct r2 as [[e2|]|]; try done. by case_match.
Qed.

Lemma DeriveSecret_keys m now x : same_keys m (snd (DeriveSecret m now x)).
Proof. unfold DeriveSecret. by repeat case_match. Qed.

(** ** Where an accepted identity comes from *)

Lemma recordNeg_lookups m now id : lookups (recordNegPubKey m now id) = lookups m.
Proof. unfold recordNegPubKey. by repeat case_match. Qed.

Lemma GetPeerPubKey_source m now id pk m' :
  GetPeerPubKey m now id = (inl pk, m') →
  (peerPubKeys (keys m) !! id = Some pk ∧ m' = m) ∨
  (peerPubKeys (keys m) !! id = None ∧ registry (cfg m) (lookups m) id = Some pk ∧
   lookups m' = S (lookups m)).
Proof.
  unfold GetPeerPubKey. destruct (peerPubKeys (keys m) !! id) as [k|] eqn:E.
  { intros [= <- <-]. by left. }
  case_zif; [done|]. case_zif; [done|].
  destruct (registry _ _ _) as [a|] eqn:Er; [|done]. intros [= <- <-]. by right.
Qed.

Lemma GetPeerPubKey_cached m now id (pk : pubkey) :
  peerPubKeys (keys m) !! id = Some pk → GetPeerPubKey m now id = (inl pk, m).
Proof. intros H. unfold GetPeerPubKey. by rewrite H. Qed.

Lemma GetPeerPubKey_lookups m now id :
  (lookups m ≤ lookups (snd (GetPeerPubKey m now id)))%nat.
Proof.
  unfold GetPeerPubKey. repeat case_match; simpl; rewrite ?recordNeg_lookups; simpl; lia.
Qed.

(** The answer [expected] was cached when the handler started, or the registry
    gave it during the handler. *)
Definition vouched m m' (id : Z) (k : bytes) : Prop :=
  peerPubKeys (keys m) !! id = Some (Some k) ∨
  ∃ n, (lookups m ≤ n < lookups m')%nat ∧ registry (cfg m) n id = Some (Some k).

Lemma resolve_vouched m now id ed k m' :
  resolve_identity m now id ed = (Some k, m') → k = ed ∧ vouched m m' id k.
Proof.
  unfold resolve_identity.
  destruct (GetPeerPubKey m now id) as [r m1] eqn:E1.
  destruct r as [[e|]|]; [|done|done].
  case_bool_decide as He.
  - intros [= <- <-]. split; [done|].
    apply GetPeerPubKey_source in E1 as [[? ->]|(_ & Hr & Hl)]; [by left|].
    right. exists (lookups m). split; [lia|done].
  - destruct (GetPeerPubKey (InvalidatePeerPubKey m1 id) now id) as [r2 m2] eqn:E2.
    destruct r2 as [[e2|]|]; [|done|done].
    case_bool_decide; [|done]. intros [= <- <-]. split; [done|].
    pose proof (GetPeerPubKey_lookups m now id) as Hm1. rewrite E1 in Hm1. simpl in Hm1.
    pose proof (GetPeerPubKey_sessions m now id) as (_ & Hc & _). rewrite E1 in Hc. simpl in Hc.
    apply GetPeerPubKey_source in E2 as [[H2 _]|(_ & Hr & Hl)].
    + simpl in H2. rewrite lookup_delete_eq in H2. done.
    + right. exists (lookups m1). simpl in *. rewrite Hc in Hr. split; [lia|done].
Qed.

(** ** Sessions after an installation *)

Lemma heap_new_crypto (s : Store K) c q x :
  heap s !! q = Some x → heap (snd (new_crypto s c)) !! q = Some x.
Proof.
  intros H. unfold new_crypto. simpl. rewrite lookup_insert_ne; [done|].
  intros <-. pose proof (new_crypto_fresh s c) as Hf. simpl in Hf. congruence.
Qed.

Lemma new_crypto_heap (s : Store K) c : heap (snd (new_crypto s c)) !! fst (new_crypto s c) = Some c.
Proof. unfold new_crypto. simpl. by rewrite lookup_insert_eq. Qed.

(** The peer ends up with a session for the key in the frame: the old one when
    the key did not change, the new one otherwise. Other peers keep theirs. *)
Lemma install_session_spec m peer pc p m' :
  store_wf (env m) → install_session m peer pc = (p, m') →
  store_wf (env m') ∧
  (∀ q x, heap (env m) !! q = Some x → heap (env m') !! q = Some x) ∧
  (∀ peer', peer' ≠ peer → Get (env m') peer' = Get (env m) peer') ∧
  (∃ q c, Get (env m') peer = Some q ∧ heap (env m') !! q = Some c ∧
          PeerX25519Key c = PeerX25519Key pc ∧
          (c = pc ∨ Get (env m) peer = Some q ∧ heap (env m) !! q = Some c)) ∧
  (∀ q c, Get (env m) peer = Some q → heap (env m) !! q = Some c →
          PeerX25519Key c = PeerX25519Key pc → Get (env m') peer = Some q).
Proof.
  intros Hwf. unfold install_session.
  pose proof (store_wf_new_crypto (env m) pc Hwf) as Hwf'.
  pose proof (heap_new_crypto (env m) pc) as Hold.
  pose proof (new_crypto_heap (env m) pc) as Hnew.
  assert (crypto (snd (new_crypto (env m) pc)) = crypto (env m)) as Hcr by done.
  destruct (new_crypto (env m) pc) as [p0 e]. simpl in *. intros [= -> <-].
  unfold compare_session, Get, deref in *. cbn [env with_env].
  destruct (crypto (env m) !! peer) as [q0|] eqn:Eq; simpl.
  - destruct (Hwf peer q0 Eq) as [c0 Hc0]. rewrite Hc0. simpl.
    case_bool_decide as Hk; simpl.
    + rewrite !Hcr. split; [done|]. split; [done|]. split; [done|]. split.
      * exists q0, c0. eauto 10.
      * intros q c [= <-] Hq Hk'. done.
    + split; [apply store_wf_Install; eauto|]. split; [done|]. split; [|split].
      * intros peer' Hne. by rewrite lookup_insert_ne, Hcr.
      * exists p, pc. rewrite lookup_insert_eq. eauto.
      * intros q c [= <-] Hq Hk'. congruence.
  - split; [apply store_wf_Install; eauto|]. split; [done|]. split; [|split].
    + intros peer' Hne. by rewrite lookup_insert_ne, Hcr.
    + exists p, pc. rewrite lookup_insert_eq. eauto.
    + done.
Qed.

Lemma DeriveSecret_some m now x pc m' :
  DeriveSecret m now x = (Some pc, m') →
  ∃ priv, privKey (cfg m) = Some priv ∧ deriveKey priv x = Some (AEAD pc) ∧
    PeerX25519Key pc = field 32 x ∧ Authenticated pc = false ∧ Ready pc = true ∧
    MaxRecvNonce pc = 0 ∧ ReplayBitmap pc = bm_zero 4 ∧ Nonce pc = 0.
Proof.
  unfold DeriveSecret. destruct (privKey (cfg m)) as [priv|] eqn:Hp; [|done].
  destruct (deriveKey priv x) as [k|] eqn:Hk; [|done]. case_match; [|done].
  intros [= <- <-]. exists priv. by split_and!.
Qed.

(** ** Inversion of the handlers *)

Definition frame_peer (data : bytes) : Z := Uint32 (slice 0 4 data).
Definition frame_x25519 (data : bytes) : bytes := slice 4 36 data.
Definition frame_ed25519 (data : bytes) : bytes := slice 36 68 data.
Definition frame_signature (data : bytes) : bytes := slice 68 132 data.

Lemma HandleAuthFrame_inv m now data from rel b m' :
  HandleAuthFrame m now data from rel = (b, m') →
  (b = false ∧ same_sessions m m') ∨
  (b = true ∧ ∃ k m1 pc m2 p m3,
     resolve_identity m now (frame_peer data) (frame_ed25519 data) = (Some k, m1) ∧
     Verify k (authChallenge (frame_peer data) (frame_x25519 data)) (frame_signature data) = true ∧
     DeriveSecret m1 now (frame_x25519 data) = (Some pc, m2) ∧
     install_session m2 (frame_peer data) (set_authenticated pc) = (p, m3) ∧
     same_sessions m3 m' ∧
     peerPubKeys (keys m') !! frame_peer data = Some (Some (frame_ed25519 data)) ∧
     (132 ≤ length data)%nat).
Proof.
  unfold HandleAuthFrame.
  destruct (Nat.ltb_spec (length data) (4 + 32 + 32 + 64)) as [|Hlen];
    [intros [= <- <-]; by left|].
  fold (frame_peer data) (frame_x25519 data) (frame_ed25519 data) (frame_signature data).
  destruct (privKey (cfg m)) as [priv0|]; [|intros [= <- <-]; by left].
  pose proof (resolve_sessions m now (frame_peer data) (frame_ed25519 data)) as H1.
  destruct (resolve_identity m now _ _) as [[k|] m1] eqn:E1; simpl in H1;
    [|intros [= <- <-]; by left].
  case_zif; [intros [= <- <-]; by left|].
  pose proof (DeriveSecret_keys m1 now (frame_x25519 data)) as [H2 _].
  destruct (DeriveSecret m1 now _) as [[pc|] m2] eqn:E2; simpl in H2;
    [|intros [= <- <-]; left; split; [done|by etrans]].
  destruct (install_session m2 _ _) as [p m3] eqn:E3.
  set (m4 := if is_duplicate _ _ _ _ then SetPeerPubKey m3 _ _ else observe _ _ _ _ _ _ _ _ _).
  assert (same_sessions m3 m4 ∧ peerPubKeys (keys m4) !! frame_peer data =
    Some (Some (frame_ed25519 data))) as [H4 H4'].
  { unfold m4. case_match.
    - split; [done|]. simpl. by rewrite lookup_insert_eq.
    - match goal with |- context [observe ?a ?b ?c ?d ?e ?f ?g ?h ?i] =>
        pose proof (observe_keys a b c d e f g h i) as [Ho ->] end.
      split; [exact Ho|]. simpl. by rewrite lookup_insert_eq. }
  clearbody m4.
  assert (∀ m5, same_keys m4 m5 → (true, m5) = (b, m') →
    b = true ∧ same_sessions m3 m' ∧
    peerPubKeys (keys m') !! frame_peer data = Some (Some (frame_ed25519 data))) as Hend.
  { intros m5 [H5 Hk] [= <- <-]. split; [done|]. split; [by etrans|]. by rewrite Hk. }
  intros Heq. right.
  enough (b = true ∧ same_sessions m3 m' ∧
    peerPubKeys (keys m') !! frame_peer data = Some (Some (frame_ed25519 data))) as (-> & ? & ?)
    by (split; [done|]; exists k, m1, pc, m2, p, m3; by split_and!).
  revert Heq. case_zif.
  - pose proof (SendKeyExchange_keys m4 now (frame_peer data)) as Hs.
    destruct (SendKeyExchangeToNode m4 now _) as [? m5]. simpl in Hs. apply Hend.
    etrans; [exact Hs|apply ClearPendingRekey_keys].
  - apply Hend. case_match; [|apply ClearPendingRekey_keys].
    pose proof (MarkReply_keys m4 now (frame_peer data)) as Hr.
    destruct (MarkReplyKeyExchangeSent m4 now _) as [ok m5]. simpl in Hr.
    destruct ok; (etrans; [|apply ClearPendingRekey_keys]); [|exact Hr].
    etrans; [exact Hr|apply SendKeyExchange_keys].
Qed.

Lemma HandleUnauthFrame_inv m now data from rel b m' :
  HandleUnauthFrame m now data from rel = (b, m') →
  (b = false ∧ same_sessions m m') ∨
  (b = true ∧ ∃ m1 pc m2 p m3,
     same_sessions m m1 ∧
     (HasIdentity m = true →
        fst (GetPeerPubKey m now (frame_peer data)) = inl None ∨
        ∃ e, fst (GetPeerPubKey m now (frame_peer data)) = inr e) ∧
     (Has (env m) (frame_peer data) = true ∨ Len (env m) < MaxCryptoPeers) ∧
     DeriveSecret m1 now (frame_x25519 data) = (Some pc, m2) ∧
     install_session m2 (frame_peer data) pc = (p, m3) ∧
     same_sessions m3 m' ∧ (36 ≤ length data)%nat).
Proof.
  unfold HandleUnauthFrame.
  destruct (Nat.ltb_spec (length data) 36); [intros [= <- <-]; by left|].
  fold (frame_peer data) (frame_x25519 data).
  destruct (privKey (cfg m)) as [priv0|]; [|intros [= <- <-]; by left].
  set (kn := if HasIdentity m then _ else (false, m)).
  assert (same_sessions m (snd kn) ∧ (fst kn = false → HasIdentity m = true →
    fst (GetPeerPubKey m now (frame_peer data)) = inl None ∨
    ∃ e, fst (GetPeerPubKey m now (frame_peer data)) = inr e)) as [H1 Hkn].
  { unfold kn. destruct (HasIdentity m); [|done].
    pose proof (GetPeerPubKey_sessions m now (frame_peer data)) as Hg.
    destruct (GetPeerPubKey m now (frame_peer data)) as [r mg]. simpl in *.
    split; [done|]. intros Hf _. destruct r as [[|]|]; [done|by left|right; eauto]. }
  destruct kn as [known m1]. simpl in H1, Hkn. destruct known.
  { intros [= <- <-]. left. split; [done|].
    pose proof (SendKeyExchange_keys m1 now (frame_peer data)) as [Hs _]. by etrans. }
  destruct (negb (Has _ _) && _) eqn:Ecap; [intros [= <- <-]; by left|].
  pose proof (DeriveSecret_keys m1 now (frame_x25519 data)) as [H2 _].
  destruct (DeriveSecret m1 now _) as [[pc|] m2] eqn:E2; simpl in H2;
    [|intros [= <- <-]; left; split; [done|by etrans]].
  destruct (install_session m2 _ _) as [p m3] eqn:E3.
  intros [= <- <-]. right. split; [done|]. exists m1, pc, m2, p, m3.
  split_and!; [auto|auto| |auto|auto| |done].
  - zbool. destruct Ecap; zbool; [by left|right; lia].
  - set (m4 := if is_duplicate _ _ _ _ then m3 else _).
    assert (same_sessions m3 m4) as H4.
    { unfold m4. case_match; [done|]. apply observe_keys. }
    clearbody m4. case_match.
    + destruct (SendKeyExchange_keys m4 now (frame_peer data)) as [Hs _].
      etrans; [exact H4|]. etrans; [exact Hs|done].
    + etrans; [exact H4|done].
Qed.

Lemma field_exact (n : nat) (b : bytes) : length b = n → field n b = b.
Proof. intros <-. unfold field. by rewrite take_app_length. Qed.

Lemma install_session_cfg m peer pc :
  cfg (snd (install_session m peer pc)) = cfg m ∧
  lookups (snd (install_session m peer pc)) = lookups m.
Proof. unfold install_session. by case_match. Qed.

Lemma frame_x25519_length data : (36 ≤ length data)%nat → length (frame_x25519 data) = 32%nat.
Proof. intros H. unfold frame_x25519, slice. rewrite length_take, length_drop. lia. Qed.

(** Sessions are only ever added or replaced, never lost or mutated. *)
Definition sessions_kept_except m m' (peer : Z) : Prop :=
  (∀ peer', peer' ≠ peer → Get (env m') peer' = Get (env m) peer') ∧
  (∀ q c, heap (env m) !! q = Some c → heap (env m') !! q = Some c).

Lemma auth_accepted m now data from rel m' :
  store_wf (env m) →
  HandleAuthFrame m now data from rel = (true, m') →
  let peer := frame_peer data in
  vouched m m' peer (frame_ed25519 data) ∧
  Verify (frame_ed25519 data) (authChallenge peer (frame_x25519 data)) (frame_signature data)
    = true ∧
  sessions_kept_except m m' peer ∧
  ∃ q c, Get (env m') peer = Some q ∧ heap (env m') !! q = Some c ∧
    PeerX25519Key c = frame_x25519 data ∧
    ((Authenticated c = true ∧ Ready c = true ∧ Nonce c = 0 ∧ MaxRecvNonce c = 0 ∧
      ReplayBitmap c = bm_zero 4 ∧
      ∃ priv, privKey (cfg m) = Some priv ∧ deriveKey priv (frame_x25519 data) = Some (AEAD c))
     ∨ Get (env m) peer = Some q ∧ heap (env m) !! q = Some c).
Proof.
  intros Hwf [[? _]|(_ & k & m1 & pc & m2 & p & m3 & E1 & Hv & E2 & E3 & H4 & _ & Hlen)]%HandleAuthFrame_inv;
    [done|]. intros peer.
  pose proof (resolve_sessions m now peer (frame_ed25519 data)) as H1.
  pose proof (DeriveSecret_keys m1 now (frame_x25519 data)) as [H2 _].
  pose proof (install_session_cfg m2 peer (set_authenticated pc)) as [_ Hl3].
  unfold peer in *. rewrite E1 in H1. rewrite E2 in H2. rewrite E3 in Hl3. simpl in *.
  destruct (resolve_vouched _ _ _ _ _ _ E1) as [-> Hvo].
  destruct (DeriveSecret_some _ _ _ _ _ E2) as (priv & Hp & Hk & Hx & _ & Hr & Hm & Hb & Hn).
  destruct H1 as (He1 & Hc1 & Hl1), H2 as (He2 & Hc2 & Hl2), H4 as (He4 & _ & Hl4).
  rewrite <- He1, <- He2 in Hwf.
  destruct (install_session_spec _ _ _ _ _ Hwf E3) as (_ & Hheap & Hoth & (q & c & Hq & Hc & Hkx & Hor) & _).
  unfold sessions_kept_except. rewrite He2, He1 in *. rewrite He4.
  split_and!; [|done|done|done|].
  - destruct Hvo as [?|(n & ? & ?)]; [by left|]. right. exists n. split; [lia|done].
  - exists q, c. split_and!; [done..| |].
    + rewrite Hkx. simpl. rewrite Hx. apply field_exact, frame_x25519_length. lia.
    + destruct Hor as [->|?]; [left|by right]. simpl. split_and!; try done.
      exists priv. by rewrite <- Hc1.
Qed.

(** C7. Authentication of the authenticated handshake.  When
    [HandleAuthFrame] accepts a frame, the Ed25519 key in the frame is the one
    vouched for by the registry (cached at entry, or answered during the call);
    the frame's signature over node id and X25519 key verifies under it; the
    peer's session is keyed to the frame's X25519 key, and is either a fresh
    authenticated session with empty replay window and zero nonce counter or
    the very session that was installed; and no other peer's session moves. *)
Theorem auth_frame_accepted_is_vouched m now data from rel m' :
  store_wf (env m) →
  HandleAuthFrame m now data from rel = (true, m') →
  let peer := frame_peer data in
  vouched m m' peer (frame_ed25519 data) ∧
  Verify (frame_ed25519 data) (authChallenge peer (frame_x25519 data)) (frame_signature data)
    = true ∧
  sessions_kept_except m m' peer ∧
  ∃ q c, Get (env m') peer = Some q ∧ heap (env m') !! q = Some c ∧
    PeerX25519Key c = frame_x25519 data ∧
    ((Authenticated c = true ∧ Ready c = true ∧ Nonce c = 0 ∧ MaxRecvNonce c = 0 ∧
      ReplayBitmap c = bm_zero 4 ∧
      ∃ priv, privKey (cfg m) = Some priv ∧ deriveKey priv (frame_x25519 data) = Some (AEAD c))
     ∨ Get (env m) peer = Some q ∧ heap (env m) !! q = Some c).
Proof. intros Hwf E. exact (auth_accepted m now data from rel m' Hwf E). Qed.

(** A rejected key-exchange frame, authenticated or not, changes no
    session: neither the peer map nor any session object. *)
Theorem rejected_frame_changes_no_session m now data from rel m' :
  HandleAuthFrame m now data from rel = (false, m') ∨
  HandleUnauthFrame m now data from rel = (false, m') →
  env m' = env m.
Proof.
  intros [[[_ [He _]]|[? _]]%HandleAuthFrame_inv|[[_ [He _]]|[? _]]%HandleUnauthFrame_inv]; done.
Qed.

(** A frame repeating the installed X25519 key keeps the session.  If
    the peer already has a session keyed to the X25519 key in the frame, then
    after either handler (whatever its verdict) the peer still points to the
    same session object with the same contents: its nonce counter and replay
    window are not reset. *)
Theorem same_key_frame_preserves_session m now data from rel m' q c :
  store_wf (env m) →
  Get (env m) (frame_peer data) = Some q → heap (env m) !! q = Some c →
  PeerX25519Key c = frame_x25519 data →
  snd (HandleAuthFrame m now data from rel) = m' ∨
  snd (HandleUnauthFrame m now data from rel) = m' →
  Get (env m') (frame_peer data) = Some q ∧ heap (env m') !! q = Some c.
Proof.
  intros Hwf Hq Hc Hx.
  assert (∀ m1 pc m2 p m3, (36 ≤ length data)%nat → env m1 = env m →
    DeriveSecret m1 now (frame_x25519 data) = (Some pc, m2) →
    install_session m2 (frame_peer data) (set_authenticated pc) = (p, m3) ∨
    install_session m2 (frame_peer data) pc = (p, m3) →
    Get (env m3) (frame_peer data) = Some q ∧ heap (env m3) !! q = Some c) as Hins.
  { intros m1 pc m2 p m3 Hlen He1 Ed Ei.
    pose proof (DeriveSecret_keys m1 now (frame_x25519 data)) as [[He _] _].
    rewrite Ed in He. simpl in He. apply DeriveSecret_some in Ed as (?&_&_&Hpc&_).
    rewrite field_exact in Hpc by (by apply frame_x25519_length).
    rewrite <- He1, <- He in Hwf, Hq, Hc.
    destruct Ei as [E|E]; destruct (install_session_spec _ _ _ _ _ Hwf E) as (_&Hh&_&_&Hk);
      (split; [apply (Hk q c); simpl; congruence|auto]). }
  intros [<-|<-].
  - destruct (HandleAuthFrame _ _ _ _ _) as [b m''] eqn:E. cbn [snd].
    apply HandleAuthFrame_inv in E as [[_ [-> _]]|(_&k&m1&pc&m2&p&m3&E1&_&E2&E3&[-> _]&_&?)]; [done|].
    pose proof (resolve_sessions m now (frame_peer data) (frame_ed25519 data)) as [H1 _].
    rewrite E1 in H1. eapply (Hins m1); eauto. lia.
  - destruct (HandleUnauthFrame _ _ _ _ _) as [b m''] eqn:E. cbn [snd].
    apply HandleUnauthFrame_inv in E as [[_ [-> _]]|(_&m1&pc&m2&p&m3&[H1 _]&_&_&E2&E3&[-> _]&?)]; [done|].
    eapply (Hins m1); eauto.
Qed.

(** ** What a key exchange puts on the wire *)

Lemma BuildAuthFrame_identity m f : BuildAuthFrame m = Some f → HasIdentity m = true.
Proof.
  unfold BuildAuthFrame, HasIdentity. intros H. apply bool_decide_eq_true.
  by destruct (pubKey (cfg m)), (identity (cfg m)).
Qed.

Lemma SendKeyExchange_auth_first m now peer f :
  hasSender (cfg m) = true → BuildAuthFrame m = Some f →
  ∃ rest, trace (snd (SendKeyExchangeToNode m now peer)) = trace m ++ EvSend peer f :: rest.
Proof.
  intros Hs Hf. unfold SendKeyExchangeToNode. rewrite Hs. simpl.
  assert (∃ u, BuildUnauthFrame m = Some u) as [u ->].
  { unfold BuildAuthFrame, BuildUnauthFrame in *. by destruct (pubKey (cfg m)); eauto. }
  rewrite (BuildAuthFrame_identity m f) by done.
  rewrite Hf. simpl.
  set (tk := if negb _ then takeKeyRequest m peer else (false, m)).
  assert (trace (snd tk) = trace m) as Ht.
  { unfold tk, takeKeyRequest. by repeat case_match. }
  destruct tk as [kr m1]. simpl in Ht.
  assert (∀ mm, trace (snd (MarkPendingRekey mm now peer)) = trace mm) as Hmp.
  { intros mm. unfold MarkPendingRekey. by repeat case_match. }
  unfold send. cbn [fst snd cfg sends with_calls emit].
  case_zif; simpl; [rewrite Ht; by exists []|].
  destruct kr; [|simpl; rewrite Hmp; simpl; rewrite Ht; by exists []].
  case_zif; simpl; rewrite Hmp; simpl; rewrite Ht, <- app_assoc; simpl; eauto.
Qed.

(** No downgrade while the identity is known.  A node with an identity
    that knows the peer's registered public key refuses every unauthenticated
    key exchange naming that peer: the frame is rejected, no session changes,
    and, when a sender is wired, the first frame of the answer is this node's
    authenticated one. *)
Theorem known_identity_refuses_unauthenticated m now data from rel k priv f :
  privKey (cfg m) = Some priv → (36 ≤ length data)%nat →
  peerPubKeys (keys m) !! frame_peer data = Some (Some k) →
  hasSender (cfg m) = true → BuildAuthFrame m = Some f →
  let '(ok, m') := HandleUnauthFrame m now data from rel in
  ok = false ∧ env m' = env m ∧ keys m' = keys m ∧
  ∃ rest, trace m' = trace m ++ EvSend (frame_peer data) f :: rest.
Proof.
  intros Hp Hlen Hk Hs Hf. unfold HandleUnauthFrame. cbv zeta.
  destruct (Nat.ltb_spec (length data) 36); [lia|]. rewrite Hp.
  fold (frame_peer data).
  rewrite (BuildAuthFrame_identity m f) by done.
  rewrite (GetPeerPubKey_cached m now _ (Some k)) by exact Hk.
  destruct (SendKeyExchange_keys m now (frame_peer data)) as [[He _] Hks].
  split_and!; [done..|]. by apply SendKeyExchange_auth_first.
Qed.

(** ** Key agreement *)

(** Fields of a frame built by [BuildAuthFrame], its magic stripped. *)
Definition frame_payload (f : bytes) : bytes := drop 4 f.

Lemma slice_app_mid (a b c : bytes) (i j : nat) :
  length a = i → (i + length b)%nat = j → slice i j (a ++ b ++ c) = b.
Proof.
  intros <- <-. unfold slice. rewrite drop_app_length.
  replace (length a + length b - length a)%nat with (length b) by lia.
  by rewrite take_app_length.
Qed.

Lemma BuildAuthFrame_fields m id pub :
  identity (cfg m) = Some id → pubKey (cfg m) = Some pub → is_u32 (localNodeID m) →
  length pub = 32%nat → length (IdPublicKey id) = 32%nat →
  (∀ msg, length (Sign id msg) = 64%nat) →
  ∃ f, BuildAuthFrame m = Some f ∧ length (frame_payload f) = 132%nat ∧
    frame_peer (frame_payload f) = localNodeID m ∧ frame_x25519 (frame_payload f) = pub ∧
    frame_ed25519 (frame_payload f) = IdPublicKey id ∧
    frame_signature (frame_payload f) = Sign id (authChallenge (localNodeID m) pub).
Proof.
  intros Hid Hpub Hn Hlp Hli Hls. unfold BuildAuthFrame. rewrite Hid, Hpub. eexists. split; [done|].
  rewrite !field_exact by auto. unfold frame_payload.
  assert (length TunnelMagicAuthEx = 4%nat) as Hm by apply magic_len.
  rewrite drop_app_length' by done.
  assert (length (PutUint32 (localNodeID m)) = 4%nat) as H4 by apply length_be_put.
  set (a := PutUint32 _) in *. set (b := Sign _ _).
  assert (length b = 64%nat) by apply Hls.
  split_and!.
  - rewrite !length_app. lia.
  - unfold frame_peer. match goal with |- context [slice 0 4 ?l] => change l with ([] ++ l) end.
    rewrite slice_app_mid by (simpl; lia). rewrite <- (app_nil_r a). by apply Uint32_Put.
  - unfold frame_x25519. apply slice_app_mid; lia.
  - unfold frame_ed25519. rewrite (app_assoc a). apply slice_app_mid; rewrite ?length_app; lia.
  - unfold frame_signature. rewrite (app_assoc a), (app_assoc (a ++ pub)), <- (app_nil_r b) at 1.
    apply slice_app_mid; rewrite ?length_app; lia.
Qed.

Lemma GetPeerPubKey_draws m now id : draws (snd (GetPeerPubKey m now id)) = draws m.
Proof. unfold GetPeerPubKey, recordNegPubKey. by repeat case_match. Qed.

Lemma HandleAuthFrame_accepts m now data from rel priv ed k np :
  (132 ≤ length data)%nat → privKey (cfg m) = Some priv →
  fst (GetPeerPubKey m now (frame_peer data)) = inl (Some ed) → frame_ed25519 data = ed →
  Verify ed (authChallenge (frame_peer data) (frame_x25519 data)) (frame_signature data) = true →
  deriveKey priv (frame_x25519 data) = Some k → noncePrefixes (cfg m) (draws m) = Some np →
  fst (HandleAuthFrame m now data from rel) = true.
Proof.
  intros Hlen Hp Hg <- Hv Hk Hnp. unfold HandleAuthFrame. cbv zeta.
  destruct (Nat.ltb_spec (length data) (4 + 32 + 32 + 64)); [lia|].
  fold (frame_peer data) (frame_x25519 data) (frame_ed25519 data) (frame_signature data).
  rewrite Hp. unfold resolve_identity.
  pose proof (GetPeerPubKey_sessions m now (frame_peer data)) as (_ & Hc & _).
  pose proof (GetPeerPubKey_draws m now (frame_peer data)) as Hd.
  destruct (GetPeerPubKey m now (frame_peer data)) as [r m1]. simpl in Hg, Hc, Hd. subst r.
  rewrite bool_decide_eq_true_2 by done. rewrite Hv. cbn [negb].
  unfold DeriveSecret. rewrite Hc, Hd, Hp, Hk, Hnp.
  match goal with |- context [install_session ?a ?b ?c] => destruct (install_session a b c) end.
  case_zif; [|done].
  by match goal with |- context [SendKeyExchangeToNode ?a ?b ?c] =>
    destruct (SendKeyExchangeToNode a b c) end.
Qed.

(** A node that can run the authenticated handshake. *)
Record endpoint m (id : Identity) (priv : Priv) (pub : bytes) : Prop := {
  ep_wf : store_wf (env m);
  ep_node : is_u32 (localNodeID m);
  ep_identity : identity (cfg m) = Some id;
  ep_priv : privKey (cfg m) = Some priv;
  ep_pub : pubKey (cfg m) = Some pub;
  ep_pub_len : length pub = 32%nat;
  ep_id_len : length (IdPublicKey id) = 32%nat;
  ep_rand : is_Some (noncePrefixes (cfg m) (draws m));
}.

(** Ed25519 as the handshake relies on it, for one identity. *)
Definition signs_correctly (id : Identity) : Prop :=
  ∀ msg, Verify (IdPublicKey id) msg (Sign id msg) = true ∧ length (Sign id msg) = 64%nat.

(** [m]'s session with [peer] is fresh, authenticated and uses key [k]. *)
Definition fresh_session m (peer : Z) (k : K) : Prop :=
  ∃ c, deref (env m) (Get (env m) peer) = Some c ∧ AEAD c = k ∧ Authenticated c = true ∧
       Ready c = true ∧ Nonce c = 0 ∧ MaxRecvNonce c = 0 ∧ ReplayBitmap c = bm_zero 4.

Lemma handshake_one_way a b ida privb pubb idb priva puba k now from rel :
  endpoint a ida priva puba → endpoint b idb privb pubb → signs_correctly ida →
  fst (GetPeerPubKey b now (localNodeID a)) = inl (Some (IdPublicKey ida)) →
  Get (env b) (localNodeID a) = None → deriveKey privb puba = Some k →
  ∃ f b', BuildAuthFrame a = Some f ∧
    HandleAuthFrame b now (frame_payload f) from rel = (true, b') ∧
    fresh_session b' (localNodeID a) k.
Proof.
  intros Ha Hb Hs Hg Hnone Hk.
  destruct (BuildAuthFrame_fields a ida puba) as (f & Hf & Hl & Hpe & Hx & He & Hsig);
    try apply Ha; [apply Hs|].
  destruct (ep_rand _ _ _ _ Hb) as [np Hnp].
  pose proof (HandleAuthFrame_accepts b now (frame_payload f) from rel privb (IdPublicKey ida) k np)
    as Hacc.
  rewrite Hpe, Hx, He, Hsig in Hacc. specialize (Hacc ltac:(lia) (ep_priv _ _ _ _ Hb) Hg eq_refl).
  destruct (HandleAuthFrame b now (frame_payload f) from rel) as [ok b'] eqn:E.
  simpl in Hacc. rewrite Hacc in E by (done || apply Hs).
  exists f, b'. split_and!; [done..|].
  destruct (auth_accepted _ _ _ _ _ _ (ep_wf _ _ _ _ Hb) E) as (_ & _ & _ & q & c & Hq & Hc & _ & Hor).
  rewrite Hpe, Hx in *. exists c. unfold deref. rewrite Hq. simpl. split; [done|].
  destruct Hor as [(?&?&?&?&?&pr&Hp&Hd)|[? _]]; [|congruence].
  rewrite (ep_priv _ _ _ _ Hb) in Hp. by simplify_eq.
Qed.

(** C8. The authenticated handshake completes and agrees on a key.  Take two
    nodes with correct Ed25519 identities, each of which the other can resolve
    to its registered key, whose X25519 exchange is symmetric, and which have no
    session with each other.  Each accepts the frame the other builds, and they
    end with sessions that hold the same AEAD key, are marked authenticated,
    and start from nonce counter 0 and an empty replay window. *)
Theorem handshake_agrees_on_key a b ida idb priva privb puba pubb k now from rel :
  endpoint a ida priva puba → endpoint b idb privb pubb →
  signs_correctly ida → signs_correctly idb →
  fst (GetPeerPubKey b now (localNodeID a)) = inl (Some (IdPublicKey ida)) →
  fst (GetPeerPubKey a now (localNodeID b)) = inl (Some (IdPublicKey idb)) →
  Get (env b) (localNodeID a) = None → Get (env a) (localNodeID b) = None →
  ECDH priva pubb = ECDH privb puba → deriveKey priva pubb = Some k →
  ∃ fa fb a' b', BuildAuthFrame a = Some fa ∧ BuildAuthFrame b = Some fb ∧
    HandleAuthFrame b now (frame_payload fa) from rel = (true, b') ∧
    HandleAuthFrame a now (frame_payload fb) from rel = (true, a') ∧
    fresh_session b' (localNodeID a) k ∧ fresh_session a' (localNodeID b) k.
Proof.
  intros Ha Hb Hsa Hsb Hga Hgb Hna Hnb Hdh Hk.
  assert (deriveKey privb puba = Some k) as Hk' by (unfold deriveKey in *; by rewrite <- Hdh).
  destruct (handshake_one_way a b ida privb pubb idb priva puba k now from rel)
    as (fa & b' & ? & ? & ?); [done..|].
  destruct (handshake_one_way b a idb priva puba ida privb pubb k now from rel)
    as (fb & a' & ? & ? & ?); [done..|].
  exists fa, fb, a', b'. by split_and!.
Qed.

(** ** An unreachable registry *)

Lemma recordNeg_insert m now id :
  Z.of_nat (size (negPubKeys (keys m))) < MaxNegPubKeyEntries →
  recordNegPubKey m now id =
    with_keys m (mkKeyCache (peerPubKeys (keys m)) (<[id := now]> (negPubKeys (keys m)))).
Proof.
  intros H. unfold recordNegPubKey.
  destruct (Z.leb_spec MaxNegPubKeyEntries (Z.of_nat (size (negPubKeys (keys m))))); [lia|].
  by rewrite andb_false_r.
Qed.

(** A frame naming a key other than the cached one, while the registry cannot
    answer, leaves the peer with no cached key and a negative entry. *)
Lemma bogus_auth_forgets_key m now data from rel priv k :
  (132 ≤ length data)%nat → privKey (cfg m) = Some priv →
  peerPubKeys (keys m) !! frame_peer data = Some (Some k) → frame_ed25519 data ≠ k →
  negPubKeys (keys m) !! frame_peer data = None → hasVerify (cfg m) = true →
  registry (cfg m) (lookups m) (frame_peer data) = None →
  Z.of_nat (size (negPubKeys (keys m))) < MaxNegPubKeyEntries →
  let '(ok, m') := HandleAuthFrame m now data from rel in
  ok = false ∧ env m' = env m ∧ cfg m' = cfg m ∧ draws m' = draws m ∧
  peerPubKeys (keys m') !! frame_peer data = None ∧
  negPubKeys (keys m') !! frame_peer data = Some now.
Proof.
  intros Hlen Hp Hk Hne Hneg Hv Hr Hsz. unfold HandleAuthFrame. cbv zeta.
  destruct (Nat.ltb_spec (length data) (4 + 32 + 32 + 64)); [lia|].
  fold (frame_peer data) (frame_x25519 data) (frame_ed25519 data) (frame_signature data).
  rewrite Hp. unfold resolve_identity.
  rewrite (GetPeerPubKey_cached m now _ (Some k)) by exact Hk.
  rewrite bool_decide_eq_false_2 by done.
  unfold GetPeerPubKey. cbn [keys InvalidatePeerPubKey with_keys peerPubKeys negPubKeys cfg lookups].
  rewrite lookup_delete_eq, Hneg, Hv, Hr. cbn [negb].
  rewrite recordNeg_insert by exact Hsz.
  cbn [fst snd env cfg draws keys with_keys with_calls peerPubKeys negPubKeys].
  split_and!; try done; [apply lookup_delete_eq|apply lookup_insert_eq].
Qed.

Lemma HandleUnauthFrame_accepts m now data from rel priv aead np e :
  (36 ≤ length data)%nat → privKey (cfg m) = Some priv →
  GetPeerPubKey m now (frame_peer data) = (inr e, m) → Has (env m) (frame_peer data) = true →
  deriveKey priv (frame_x25519 data) = Some aead → noncePrefixes (cfg m) (draws m) = Some np →
  fst (HandleUnauthFrame m now data from rel) = true.
Proof.
  intros Hlen Hp Hg Hh Hd Hnp. unfold HandleUnauthFrame. cbv zeta.
  destruct (Nat.ltb_spec (length data) 36); [lia|].
  fold (frame_peer data) (frame_x25519 data). rewrite Hp, Hg, Hh.
  destruct (HasIdentity m); cbn [negb andb]; unfold DeriveSecret; rewrite Hp, Hd, Hnp; cbv zeta;
    match goal with |- context [install_session ?a ?b ?c] => by destruct (install_session a b c) end.
Qed.

(** What the fallback to unauthenticated exchange allows.  Start from an
    authenticated session with a peer whose registered key is cached.  An
    authenticated frame with any other Ed25519 key evicts the cached key; if
    the registry cannot be reached at that moment, an unauthenticated frame for
    the peer within the negative-cache TTL is then accepted, and its key
    replaces the authenticated session by an unauthenticated one. *)
Theorem registry_outage_allows_downgrade m now now' bogus pilk from rel priv k q c aead np :
  store_wf (env m) → privKey (cfg m) = Some priv →
  frame_peer pilk = frame_peer bogus → (132 ≤ length bogus)%nat → (36 ≤ length pilk)%nat →
  Get (env m) (frame_peer bogus) = Some q → heap (env m) !! q = Some c → Authenticated c = true →
  peerPubKeys (keys m) !! frame_peer bogus = Some (Some k) → frame_ed25519 bogus ≠ k →
  negPubKeys (keys m) !! frame_peer bogus = None → hasVerify (cfg m) = true →
  registry (cfg m) (lookups m) (frame_peer bogus) = None →
  Z.of_nat (size (negPubKeys (keys m))) < MaxNegPubKeyEntries →
  time_sub now' now < NegativePubKeyCacheTTL →
  frame_x25519 pilk ≠ PeerX25519Key c →
  deriveKey priv (frame_x25519 pilk) = Some aead → noncePrefixes (cfg m) (draws m) = Some np →
  let m1 := snd (HandleAuthFrame m now bogus from rel) in
  let '(ok, m2) := HandleUnauthFrame m1 now' pilk from rel in
  ok = true ∧ ∃ c', deref (env m2) (Get (env m2) (frame_peer pilk)) = Some c' ∧
    PeerX25519Key c' = frame_x25519 pilk ∧ AEAD c' = aead ∧ Authenticated c' = false.
Proof.
  intros Hwf Hp Hpe Hlen Hlen' Hq Hc _ Hk Hne Hneg Hv Hr Hsz Hnow Hx Hd Hnp m1.
  pose proof (bogus_auth_forgets_key m now bogus from rel priv k Hlen Hp Hk Hne Hneg Hv Hr Hsz) as H1.
  subst m1. destruct (HandleAuthFrame m now bogus from rel) as [ok m1].
  destruct H1 as (_ & He & Hcf & Hdr & Hk1 & Hn1). cbn [snd].
  destruct (HandleUnauthFrame m1 now' pilk from rel) as [ok2 m2] eqn:E.
  assert (ok2 = true) as ->.
  { change ok2 with (fst (ok2, m2)). rewrite <- E.
    apply (HandleUnauthFrame_accepts m1 now' pilk from rel priv aead np errPubKeyUnresolved);
      rewrite ?Hcf, ?Hdr, ?Hpe; try done.
    - unfold GetPeerPubKey. rewrite Hk1, Hn1. by apply Z.ltb_lt in Hnow as ->.
    - unfold Has, Get in *. rewrite He, Hq. by apply bool_decide_eq_true. }
  split; [done|].
  apply HandleUnauthFrame_inv in E as
    [[? _]|(_ & m1' & pc & m2' & p & m3 & (He1 & Hc1 & _) & _ & _ & E2 & E3 & [-> _] & _)]; [done|].
  pose proof (DeriveSecret_keys m1' now' (frame_x25519 pilk)) as [[He2 _] _].
  rewrite E2 in He2. simpl in He2.
  assert (env m2' = env m) as Hem by congruence.
  apply DeriveSecret_some in E2 as (pr & Hpr & Hdk & Hpx & Hau & _).
  rewrite field_exact in Hpx by (by apply frame_x25519_length).
  rewrite <- Hem in Hwf.
  destruct (install_session_spec _ _ _ _ _ Hwf E3) as (_ & _ & _ & (q' & c' & Hq' & Hc' & Hkx & Hor) & _).
  exists c'. unfold deref. rewrite Hq'. simpl. split; [done|].
  destruct Hor as [->|[Hgo Hho]].
  - rewrite Hc1, Hcf, Hp in Hpr. split_and!; congruence.
  - exfalso. rewrite Hem, Hpe in *. congruence.
Qed.
End Frame.

(** ** Two example nodes, for the witnesses *)

(** Arithmetic stand-ins with the algebra the handshake relies on. *)
#[local] Instance toy_primitives : Primitives bytes := {|
  Priv := Z; Identity := Z;
  IdPublicKey i := be_put 32 i;
  Sign i msg := be_put 32 i ++ be_put 32 (be_get msg);
  Verify pk msg sig := bool_decide (sig = pk ++ be_put 32 (be_get msg));
  ECDH p pub := Some (be_put 32 (p * be_get pub));
  HMAC key msg := be_put 32 (be_get key + 3 * be_get msg);
  NewGCM key := Some key;
|}.
#[local] Existing Instance documented_protocol.

Definition toy_config (node priv id : Z) (reg : nat → Z → option pubkey) : Config :=
  mkConfig (Some id) (Some priv) (Some (be_put 32 priv)) (Some node) true reg true
    (λ _, true) (λ _, Some [1; 2; 3; 4]) None true true true.

Definition toy_registry (n : nat) (node : Z) : option pubkey :=
  if node =? 1 then Some (Some (be_put 32 7))
  else if node =? 2 then Some (Some (be_put 32 9)) else None.

Definition alice : Manager := New NewStore (toy_config 1 3 7 toy_registry).
Definition bob : Manager := New NewStore (toy_config 2 5 9 toy_registry).
Definition alice_frame : bytes := frame_payload (default [] (BuildAuthFrame alice)).
Definition bob_accepts : bool * Manager := HandleAuthFrame bob 1000 alice_frame 0 false.
(** Bob once Alice's session is installed. *)
Definition bob' : Manager := snd bob_accepts.

Lemma New_wf (c : Config) : store_wf (env (New NewStore c)).
Proof. apply store_wf_new. Qed.

Lemma HandleAuthFrame_wf {K} {X : Primitives K} m now data from rel :
  store_wf (env m) → store_wf (env (snd (HandleAuthFrame m now data from rel))).
Proof.
  intros Hwf. destruct (HandleAuthFrame m now data from rel) as [b m'] eqn:E. cbn [snd].
  apply HandleAuthFrame_inv in E as [[_ [-> _]]|(_&k&m1&pc&m2&p&m3&E1&_&E2&E3&[-> _]&_)]; [done|].
  pose proof (resolve_sessions m now (frame_peer data) (frame_ed25519 data)) as [H1 _].
  pose proof (DeriveSecret_keys m1 now (frame_x25519 data)) as [[H2 _] _].
  rewrite E1 in H1. rewrite E2 in H2. simpl in *. rewrite <- H1, <- H2 in Hwf.
  by apply (install_session_spec _ _ _ _ _ Hwf E3).
Qed.

Lemma bob'_wf : store_wf (env bob').
Proof. apply HandleAuthFrame_wf, New_wf. Qed.

Lemma auth_frame_accepted_is_vouched_witness :
  bob_accepts = (true, bob') ∧
  vouched bob bob' 1 (be_put 32 7) ∧
  ∃ q c, Get (env bob') 1 = Some q ∧ heap (env bob') !! q = Some c ∧
    PeerX25519Key c = be_put 32 3.
Proof.
  assert (bob_accepts = (true, bob')) as E.
  { rewrite (surjective_pairing bob_accepts). fold bob'.
    assert (fst bob_accepts = true) as -> by (vm_compute; reflexivity). reflexivity. }
  assert (store_wf (env bob)) as Hwf by exact (New_wf _).
  pose proof (auth_frame_accepted_is_vouched bob 1000 alice_frame 0 false bob' Hwf) as H.
  specialize (H E). cbv zeta in H.
  destruct H as (Hv & _ & _ & q & c & Hq & Hc & Hx & _).
  assert (frame_peer alice_frame = 1) as Hp by (vm_compute; reflexivity).
  assert (frame_ed25519 alice_frame = be_put 32 7) as He by (vm_compute; reflexivity).
  assert (frame_x25519 alice_frame = be_put 32 3) as Hf by (vm_compute; reflexivity).
  rewrite Hp in *. rewrite He in Hv. rewrite Hf in Hx.
  split; [exact E|]. split; [exact Hv|]. exists q, c.
  split; [exact Hq|]. split; [exact Hc|exact Hx].
Defined.

(** A frame with a byte of the signature flipped. *)
Definition forged_frame : bytes := take 131 alice_frame ++ [0].

Lemma rejected_frame_changes_no_session_witness :
  fst (HandleAuthFrame bob' 2000 forged_frame 0 false) = false ∧
  env (snd (HandleAuthFrame bob' 2000 forged_frame 0 false)) = env bob'.
Proof.
  assert (fst (HandleAuthFrame bob' 2000 forged_frame 0 false) = false) as E
    by (vm_compute; reflexivity).
  split; [exact E|].
  apply (rejected_frame_changes_no_session bob' 2000 forged_frame 0 false). left.
  rewrite <- E. apply surjective_pairing.
Defined.

Lemma same_key_frame_preserves_session_witness :
  ∃ q c, Get (env bob') 1 = Some q ∧ heap (env bob') !! q = Some c ∧
    Get (env (snd (HandleAuthFrame bob' 9000 alice_frame 0 true))) 1 = Some q ∧
    heap (env (snd (HandleAuthFrame bob' 9000 alice_frame 0 true))) !! q = Some c.
Proof.
  assert (Get (env bob') 1 = Some 0%nat) as Hq by (vm_compute; reflexivity).
  destruct (heap (env bob') !! 0%nat) as [c|] eqn:Hc; [|exfalso; vm_compute in Hc; discriminate].
  exists 0%nat, c. split; [exact Hq|]. split; [exact Hc|].
  apply (same_key_frame_preserves_session bob' 9000 alice_frame 0 true _ 0 c bob'_wf Hq Hc).
  - vm_compute in Hc. injection Hc as <-. vm_compute. reflexivity.
  - left. reflexivity.
Defined.

Definition pilk_frame (node x : Z) : bytes := PutUint32 node ++ be_put 32 x.

Lemma known_identity_refuses_unauthenticated_witness :
  fst (HandleUnauthFrame bob' 3000 (pilk_frame 1 66) 0 false) = false ∧
  env (snd (HandleUnauthFrame bob' 3000 (pilk_frame 1 66) 0 false)) = env bob'.
Proof.
  destruct (BuildAuthFrame bob') as [f|] eqn:Hf; [|exfalso; vm_compute in Hf; discriminate].
  assert (privKey (cfg bob') = Some 5) as H1 by (vm_compute; reflexivity).
  assert (36 ≤ length (pilk_frame 1 66))%nat as H2 by (apply Nat.leb_le; vm_compute; reflexivity).
  assert (peerPubKeys (keys bob') !! frame_peer (pilk_frame 1 66) = Some (Some (be_put 32 7))) as H3
    by (vm_compute; reflexivity).
  assert (hasSender (cfg bob') = true) as H4 by (vm_compute; reflexivity).
  pose proof (known_identity_refuses_unauthenticated bob' 3000 (pilk_frame 1 66) 0 false
    (be_put 32 7) 5 f H1 H2 H3 H4 Hf) as H. clear - H.
  destruct (HandleUnauthFrame bob' 3000 (pilk_frame 1 66) 0 false) as [ok m'].
  destruct H as (Hok & He & _). split; [exact Hok|exact He].
Defined.

Lemma toy_signs i : signs_correctly i.
Proof.
  intros msg. split; [by apply bool_decide_eq_true|].
  change (length (be_put 32 i ++ be_put 32 (be_get msg)) = 64%nat).
  by rewrite length_app, !length_be_put.
Qed.

Lemma toy_endpoint node priv id reg : is_u32 node →
  endpoint (New NewStore (toy_config node priv id reg)) id priv (be_put 32 priv).
Proof. intros Hn. by split. Qed.

Lemma handshake_agrees_on_key_witness :
  ∃ fa fb a' b' k, BuildAuthFrame alice = Some fa ∧ BuildAuthFrame bob = Some fb ∧
    HandleAuthFrame bob 1000 (frame_payload fa) 0 false = (true, b') ∧
    HandleAuthFrame alice 1000 (frame_payload fb) 0 false = (true, a') ∧
    fresh_session b' 1 k ∧ fresh_session a' 2 k.
Proof.
  destruct (deriveKey (X := toy_primitives) 3 (be_put 32 5)) as [k|] eqn:Hk; [|exfalso; discriminate Hk].
  assert (is_u32 1) as H1 by (split; reflexivity || lia).
  assert (is_u32 2) as H2 by (split; reflexivity || lia).
  destruct (handshake_agrees_on_key alice bob 7 9 3 5 (be_put 32 3) (be_put 32 5) k 1000 0 false
    (toy_endpoint 1 3 7 _ H1) (toy_endpoint 2 5 9 _ H2) (toy_signs 7) (toy_signs 9))
    as (fa & fb & a' & b' & H).
  - vm_compute. reflexivity.
  - vm_compute. reflexivity.
  - vm_compute. reflexivity.
  - vm_compute. reflexivity.
  - vm_compute. reflexivity.
  - exact Hk.
  - exists fa, fb, a', b', k. exact H.
Defined.

(** Bob after the registry went away. *)
Definition bob_offline : Manager :=
  mkManager (env bob') (toy_config 2 5 9 (λ _ _, None)) (keys bob') (rk bob') 0 None false []
    (lookups bob') (sends bob') (draws bob').
(** Alice's frame with another Ed25519 key. *)
Definition bogus_frame : bytes := take 36 alice_frame ++ be_put 32 8 ++ drop 68 alice_frame.

Lemma registry_outage_allows_downgrade_witness :
  ∃ c', deref (env (snd (HandleUnauthFrame
            (snd (HandleAuthFrame bob_offline 5000 bogus_frame 0 false)) 6000
            (pilk_frame 1 66) 0 false)))
          (Get (env (snd (HandleUnauthFrame
            (snd (HandleAuthFrame bob_offline 5000 bogus_frame 0 false)) 6000
            (pilk_frame 1 66) 0 false))) (frame_peer (pilk_frame 1 66))) = Some c' ∧
    PeerX25519Key c' = frame_x25519 (pilk_frame 1 66) ∧ Authenticated c' = false.
Proof.
  assert (frame_peer bogus_frame = 1) as Hp by (vm_compute; reflexivity).
  destruct (heap (env bob') !! 0%nat) as [c|] eqn:Hc; [|exfalso; vm_compute in Hc; discriminate].
  assert (Authenticated c = true ∧ PeerX25519Key c = be_put 32 3) as [Hau Hx].
  { vm_compute in Hc. injection Hc as <-. split; vm_compute; reflexivity. }
  pose proof (registry_outage_allows_downgrade bob_offline 5000 6000 bogus_frame (pilk_frame 1 66)
    0 false 5 (be_put 32 7) 0 c (default [] (deriveKey (X := toy_primitives) 5 (be_put 32 66))) [1;2;3;4]
    bob'_wf eq_refl) as H.
  cbv zeta in H. rewrite Hp in H.
  destruct (HandleUnauthFrame (snd (HandleAuthFrame bob_offline 5000 bogus_frame 0 false)) 6000
    (pilk_frame 1 66) 0 false) as [ok m2]. cbn [snd].
  destruct H as (_ & c' & H1 & H2 & _ & H3).
  - vm_compute. reflexivity.
  - apply Nat.leb_le. vm_compute. reflexivity.
  - apply Nat.leb_le. vm_compute. reflexivity.
  - vm_compute. reflexivity.
  - exact Hc.
  - exact Hau.
  - vm_compute. reflexivity.
  - intros E. vm_compute in E. discriminate.
  - vm_compute. reflexivity.
  - reflexivity.
  - reflexivity.
  - vm_compute. reflexivity.
  - vm_compute. reflexivity.
  - rewrite Hx. intros E. vm_compute in E. discriminate.
  - vm_compute. reflexivity.
  - reflexivity.
  - exists c'. split; [exact H1|]. split; [exact H2|exact H3].
Defined.
