(* ===== verification/KeyExchangeStages.v ===== *)
(** * The key-exchange handlers in stages (keyexchange/handle.go)

    HandleAuthFrame and HandleUnauthFrame call a hook of the daemon in the
    middle: after the session is installed and before the answer is decided.
    The hook changes state the rest of the handler reads, so a model of the
    whole tunnel has to run it there.  [auth_accept] and [unauth_accept] are the
    handlers up to that point, and the theorems below say that the handlers of
    [KeyExchange] are these stages with the hook recorded as an event. *)
From S2P Require Import Prelude Bitmap Crypto KeyStore Protocol KeyExchange.
Open Scope Z_scope.

Section Stages.
Context {P : Protocol} {K : Type} {X : Primitives K}.
Implicit Types m : Manager.

(** What the first stage leaves for the rest: [pc] is at [acNew]. *)
Record Accepted := mkAccepted {
  acPeer : Z; acInstalled : Installed; acDuplicate : bool;
  acOld : option nat; acNew : nat;
}.

Definition accept_session m (now : gotime) (peer : Z) (pc : Crypto K) : Accepted * Manager :=
  let i := compare_session m peer pc in
  let duplicate := is_duplicate m now peer pc in
  let old := Get (env m) peer in
  let '(p, m) := install_session m peer pc in
  (mkAccepted peer i duplicate old p, m).

(** [None] is a reject. *)
Definition auth_accept m (now : gotime) (data : bytes) : option Accepted * Manager :=
  if Nat.ltb (length data) (4 + 32 + 32 + 64) then (None, m)
  else
    let peer := Uint32 (slice 0 4 data) in
    let peerX := slice 4 36 data in
    let peerEd := slice 36 68 data in
    let signature := slice 68 132 data in
    match privKey (cfg m) with
    | None => (None, m)
    | Some _ =>
        let '(expected, m) := resolve_identity m now peer peerEd in
        match expected with
        | None => (None, m)
        | Some expected =>
            if negb (Verify expected (authChallenge peer peerX) signature) then (None, m)
            else
              let '(d, m) := DeriveSecret m now peerX in
              match d with
              | None => (None, m)
              | Some pc =>
                  let '(a, m) := accept_session m now peer (set_authenticated pc) in
                  (Some a, SetPeerPubKey m peer peerEd)
              end
        end
    end.

(** An unauthenticated frame is dropped, answered with our own authenticated
    frame, or accepted. *)
Inductive UnauthVerdict := UnauthReject | UnauthReply (peer : Z) | UnauthAccept (a : Accepted).

Definition unauth_accept m (now : gotime) (data : bytes) : UnauthVerdict * Manager :=
  if Nat.ltb (length data) 36 then (UnauthReject, m)
  else
    let peer := Uint32 (slice 0 4 data) in
    let peerX := slice 4 36 data in
    match privKey (cfg m) with
    | None => (UnauthReject, m)
    | Some _ =>
        let hadCryptoPre := Has (env m) peer in
        let cryptoSize := Len (env m) in
        let '(known, m) :=
          if HasIdentity m then
            let '(r, m) := GetPeerPubKey m now peer in
            (match r with inl (Some _) => true | _ => false end, m)
          else (false, m) in
        if known then (UnauthReply peer, m)
        else if negb hadCryptoPre && (MaxCryptoPeers <=? cryptoSize) then (UnauthReject, m)
        else
          let '(d, m) := DeriveSecret m now peerX in
          match d with
          | None => (UnauthReject, m)
          | Some pc => let '(a, m) := accept_session m now peer pc in (UnauthAccept a, m)
          end
    end.

(** Answer with a key exchange of our own? *)
Definition installs (a : Accepted) : bool :=
  negb (hadCrypto (acInstalled a)) || keyChanged (acInstalled a).

(** ** The handlers are their stages *)

Lemma HandleAuthFrame_stages m now data from fromRelay :
  HandleAuthFrame m now data from fromRelay =
  match auth_accept m now data with
  | (None, m) => (false, m)
  | (Some a, m) =>
      let m := if acDuplicate a then m
               else observe m (acPeer a) from fromRelay true (acInstalled a) (acOld a) (acNew a)
                      (Some (slice 36 68 data)) in
      if installs a then
        (true, ClearPendingRekey (snd (SendKeyExchangeToNode m now (acPeer a))) (acPeer a))
      else
        let m := if InboundDecryptStale m now (acPeer a) then
                   let '(ok, m) := MarkReplyKeyExchangeSent m now (acPeer a) in
                   if ok then snd (SendKeyExchangeToNode m now (acPeer a)) else m
                 else m in
        (true, ClearPendingRekey m (acPeer a))
  end.
Proof.
  unfold HandleAuthFrame, auth_accept, accept_session, installs. case_match; [done|].
  destruct (privKey (cfg m)) as [pr|]; [|done].
  destruct (resolve_identity _ _ _ _) as [[e|] m1]; [|done].
  case_match; [done|]. destruct (DeriveSecret _ _ _) as [[pc|] m2]; [|done].
  destruct (install_session _ _ _) as [p m3]. cbn [acPeer acInstalled acDuplicate acOld acNew].
  case_match; [|done]. by destruct (SendKeyExchangeToNode _ _ _).
Qed.

Lemma HandleUnauthFrame_stages m now data from fromRelay :
  HandleUnauthFrame m now data from fromRelay =
  match unauth_accept m now data with
  | (UnauthReject, m) => (false, m)
  | (UnauthReply peer, m) => (false, snd (SendKeyExchangeToNode m now peer))
  | (UnauthAccept a, m) =>
      let m := if acDuplicate a then m
               else observe m (acPeer a) from fromRelay false (acInstalled a) (acOld a) (acNew a) None in
      let m := if installs a then snd (SendKeyExchangeToNode m now (acPeer a)) else m in
      (true, ClearPendingRekey m (acPeer a))
  end.
Proof.
  unfold HandleUnauthFrame, unauth_accept, accept_session, installs. case_match; [done|].
  destruct (privKey (cfg m)) as [pr|]; [|done].
  destruct (if HasIdentity m then _ else _) as [known m1]. destruct known; [done|].
  case_match; [done|]. destruct (DeriveSecret _ _ _) as [[pc|] m2]; [|done].
  by destruct (install_session _ _ _) as [p m3].
Qed.
End Stages.
