(* ===== verification/Rekey.v ===== *)
(** * Rekey timers and rate limits of the key exchange

    Theorems on the bookkeeping half of keyexchange.Manager (model in
    KeyExchange): the retransmit tick of loop.go, its give-up and cooldown, the
    reply rate limit, the per-peer state that [RemovePeer] frees and the caps
    on what strangers can make a node remember. *)
From S2P Require Import Prelude Bitmap Crypto KeyStore Protocol KeyExchange KeyExchangeProofs.
Open Scope Z_scope.

Section Rekey.
Context {P : Protocol} {K : Type} {X : Primitives K}.
Implicit Types (m : Manager) (p : Z).

Definition pending m p : option PendingRekeyState := pendingRekey (rk m) !! p.
Definition gaveup m p : option gotime := rekeyGaveUp (rk m) !! p.

(** One more attempt recorded at [now]. *)
Definition bump (now : gotime) (o : option PendingRekeyState) : option PendingRekeyState :=
  let st := default (mkPending now 0 0) o in
  Some (mkPending (FirstSentAt st) now (Attempts st + 1)).

(** Every key exchange this node tries is handed to the socket. *)
Definition can_send m : Prop :=
  hasSender (cfg m) = true ∧ is_Some (pubKey (cfg m)) ∧ ∀ n, sendOK (cfg m) n = true.

(** ** One key exchange *)

Lemma MarkPendingRekey_spec m now p :
  let '(ok, m') := MarkPendingRekey m now p in
  (ok = false ∧ m' = m ∧ PeerInRekeyGaveUp m now p = true) ∨
  (ok = true ∧ pending m' p = bump now (pending m p) ∧ gaveup m' p = None ∧
   PeerInRekeyGaveUp m now p = false ∧ cfg m' = cfg m ∧ trace m' = trace m ∧ sends m' = sends m ∧
   (∀ q, q ≠ p → pending m' q = pending m q ∧ gaveup m' q = gaveup m q)).
Proof.
  unfold MarkPendingRekey, PeerInRekeyGaveUp, pending, gaveup.
  destruct (match rekeyGaveUp (rk m) !! p with Some _ => _ | None => _ end) eqn:E; [by left|].
  right. split_and!; try done; simpl; [by rewrite lookup_insert_eq|by rewrite lookup_delete_eq|].
  intros q Hq. by rewrite lookup_insert_ne, lookup_delete_ne.
Qed.

(** [m'] differs from [m] in nothing the tick looks at, after at most [n] sends. *)
Record quiet (n : nat) m m' : Prop := {
  q_cfg : cfg m' = cfg m;
  q_same : ∀ q, pending m' q = pending m q ∧ gaveup m' q = gaveup m q;
  q_trace : trace m `prefix_of` trace m';
  q_sends : (sends m ≤ sends m' ≤ sends m + n)%nat;
}.

Lemma quiet_refl n m : quiet n m m.
Proof. split; auto. lia. Qed.

Lemma quiet_trans a b m1 m2 m3 : quiet a m1 m2 → quiet b m2 m3 → quiet (a + b) m1 m3.
Proof.
  intros H1 H2. split.
  - rewrite (q_cfg _ _ _ H2). apply H1.
  - intros q. destruct (q_same _ _ _ H2 q) as [-> ->]. apply H1.
  - etrans; [apply H1|apply H2].
  - pose proof (q_sends _ _ _ H1). pose proof (q_sends _ _ _ H2). lia.
Qed.

Lemma send_quiet m p f : quiet 1 m (snd (send m p f)).
Proof. split; simpl; auto; [by apply prefix_app_r|lia]. Qed.

Lemma emit_quiet m e : quiet 0 m (emit m e).
Proof. split; simpl; auto; [by apply prefix_app_r|lia]. Qed.

Lemma takeKeyRequest_quiet m p : quiet 0 m (snd (takeKeyRequest m p)).
Proof. unfold takeKeyRequest. case_match; split; simpl; auto; lia. Qed.

(** As [quiet 2], except that [p] may have been marked pending. *)
Record marked (now : gotime) (p : Z) m m' : Prop := {
  mk_cfg : cfg m' = cfg m;
  mk_other : ∀ q, q ≠ p → pending m' q = pending m q ∧ gaveup m' q = gaveup m q;
  mk_self : (pending m' p = pending m p ∧ gaveup m' p = gaveup m p) ∨
            (pending m' p = bump now (pending m p) ∧ gaveup m' p = None);
  mk_done : can_send m → gaveup m p = None → pending m' p = bump now (pending m p);
  mk_trace : trace m `prefix_of` trace m';
  mk_sends : (sends m ≤ sends m' ≤ sends m + 2)%nat;
}.

Lemma quiet_marked m m' now p : quiet 2 m m' → ¬ can_send m → marked now p m m'.
Proof. intros H Hn. split; try apply H; [intros q _; apply H|left; apply H|done]. Qed.

Lemma MarkPending_marked m m1 now p :
  quiet 2 m m1 → marked now p m (snd (MarkPendingRekey m1 now p)).
Proof.
  intros Hq. pose proof (MarkPendingRekey_spec m1 now p) as H.
  destruct (MarkPendingRekey m1 now p) as [ok m']. simpl.
  destruct (q_same _ _ _ Hq p) as [Hp Hg].
  destruct H as [(_ & -> & Hco)|(_ & Hpe & Hga & _ & Hcf & Htr & Hse & Hot)].
  - split; try apply Hq; [intros q _; apply Hq|left; apply Hq|].
    intros _ Hgn. unfold PeerInRekeyGaveUp in Hco.
    unfold gaveup in *. rewrite Hg, Hgn in Hco. done.
  - split.
    + rewrite Hcf. apply Hq.
    + intros q Hne. destruct (Hot q Hne) as [-> ->]. apply Hq.
    + right. by rewrite Hpe, Hp.
    + intros _ _. by rewrite Hpe, Hp.
    + rewrite Htr. apply Hq.
    + rewrite Hse. apply Hq.
Qed.

Lemma SendKeyExchange_marked m now p : marked now p m (snd (SendKeyExchangeToNode m now p)).
Proof.
  unfold SendKeyExchangeToNode.
  case_zif; [apply quiet_marked; [apply quiet_refl|by intros [? _]; congruence]|].
  unfold BuildUnauthFrame. destruct (pubKey (cfg m)) as [pk|] eqn:Hpk;
    [|apply quiet_marked; [apply quiet_refl|]; intros (_ & Hn & _); rewrite Hpk in Hn; by destruct Hn].
  set (tk := if _ && _ then takeKeyRequest m p else (false, m)).
  assert (quiet 0 m (snd tk)) as Htk.
  { unfold tk. case_match; [apply takeKeyRequest_quiet|apply quiet_refl]. }
  destruct tk as [kr m1]. cbn [snd] in Htk.
  set (fr := default _ _). pose proof (send_quiet m1 p fr) as Hs1.
  destruct (send m1 p fr) as [ok m2] eqn:E1. cbn [snd] in Hs1.
  pose proof (quiet_trans _ _ _ _ _ Htk Hs1) as H2.
  destruct ok; cbn [negb].
  2:{ apply quiet_marked; [by apply (quiet_trans 1 1 _ _ _ H2), quiet_refl|].
      intros (_ & _ & Hok). unfold send in E1. injection E1 as E1 _.
      rewrite (q_cfg _ _ _ Htk), Hok in E1. done. }
  destruct kr; cbn [snd].
  - set (uf := _ ++ _). pose proof (send_quiet m2 p uf) as Hs2.
    destruct (send m2 p uf) as [ok m3]. cbn [snd] in Hs2.
    pose proof (quiet_trans _ _ _ _ _ H2 Hs2) as H3.
    destruct ok; cbn [snd]; apply MarkPending_marked; [|exact H3].
    apply (quiet_trans 2 0 _ _ _ H3). split; simpl; auto; lia.
  - apply MarkPending_marked. by apply (quiet_trans 1 1 _ _ _ H2), quiet_refl.
Qed.

(** ** The retransmissions of one tick *)

Lemma retransmit_one_marked now m e : marked now e.1 m (retransmit_one now m e).
Proof.
  unfold retransmit_one. set (m1 := if hasPreRetx (cfg m) then _ else _).
  assert (quiet 0 m m1) as Hq by (unfold m1; case_match; [apply emit_quiet|apply quiet_refl]).
  pose proof (SendKeyExchange_marked m1 now e.1) as H.
  destruct (q_same _ _ _ Hq e.1) as [Hp Hg]. split.
  - rewrite (mk_cfg _ _ _ _ H). apply Hq.
  - intros q Hne. destruct (mk_other _ _ _ _ H q Hne) as [-> ->]. apply Hq.
  - rewrite <- Hp, <- Hg. apply H.
  - intros Hc Hn. rewrite (mk_done _ _ _ _ H), Hp; [done| |congruence].
    unfold can_send in *. by rewrite (q_cfg _ _ _ Hq).
  - etrans; [apply Hq|apply H].
  - pose proof (q_sends _ _ _ Hq). pose proof (mk_sends _ _ _ _ H). lia.
Qed.

Record retried (sent : Z → gotime) (l : list Z) m m' : Prop := {
  re_cfg : cfg m' = cfg m;
  re_other : ∀ q, q ∉ l → pending m' q = pending m q ∧ gaveup m' q = gaveup m q;
  re_self : ∀ q, q ∈ l → (pending m' q = pending m q ∧ gaveup m' q = gaveup m q) ∨
            (pending m' q = bump (sent q) (pending m q) ∧ gaveup m' q = None);
  re_done : can_send m → ∀ q, q ∈ l → gaveup m q = None → pending m' q = bump (sent q) (pending m q);
  re_trace : trace m `prefix_of` trace m';
  re_sends : (sends m ≤ sends m' ≤ sends m + 2 * length l)%nat;
}.

Lemma retransmit_fold sent (l : list (Z * PendingRekeyState)) m :
  NoDup l.*1 → retried sent l.*1 m (fold_left (λ m e, retransmit_one (sent e.1) m e) l m).
Proof.
  revert m. induction l as [|e l IH]; intros m Hnd; cbn [fold_left fmap list_fmap].
  { split; simpl; auto; try (by intros; set_solver); lia. }
  apply NoDup_cons in Hnd as [Hni Hnd].
  pose proof (retransmit_one_marked (sent e.1) m e) as H1. set (m1 := retransmit_one (sent e.1) m e) in *.
  pose proof (IH m1 Hnd) as H2. clearbody m1. set (m2 := fold_left _ _ _) in *. clearbody m2.
  destruct (re_other _ _ _ _ H2 e.1 Hni) as [Hpe Hge].
  split.
  - rewrite (re_cfg _ _ _ _ H2). apply H1.
  - intros q [Hq1 Hq2]%not_elem_of_cons.
    destruct (re_other _ _ _ _ H2 q Hq2) as [-> ->]. by apply H1.
  - intros q [->|Hq]%elem_of_cons; [rewrite Hpe, Hge; apply H1|].
    assert (q ≠ e.1) as Hne by set_solver.
    destruct (mk_other _ _ _ _ H1 q Hne) as [<- <-]. by apply H2.
  - intros Hc q [->|Hq]%elem_of_cons Hn; [rewrite Hpe; by apply H1|].
    assert (q ≠ e.1) as Hne by set_solver.
    destruct (mk_other _ _ _ _ H1 q Hne) as [Hp Hg]. rewrite <- Hp.
    apply H2; [|done|congruence]. unfold can_send in *. by rewrite (mk_cfg _ _ _ _ H1).
  - etrans; [apply H1|apply H2].
  - pose proof (mk_sends _ _ _ _ H1). pose proof (re_sends _ _ _ _ H2). simpl. lia.
Qed.

(** ** One tick *)

Lemma NoDup_fst_filter {A} (f : Z * A → bool) (l : list (Z * A)) :
  NoDup l.*1 → NoDup (List.filter f l).*1 ∧ (∀ e, e ∈ List.filter f l ↔ e ∈ l ∧ f e = true).
Proof.
  intros Hnd. split.
  - induction l as [|e l IH]; [done|]. apply NoDup_cons in Hnd as [Hni Hnd]. simpl.
    case_match; [|by apply IH]. apply NoDup_cons. split; [|by apply IH].
    intros (x & Hx & Hin)%list_elem_of_fmap. apply list_elem_of_In, filter_In in Hin.
    apply Hni, list_elem_of_fmap. exists x. rewrite list_elem_of_In. naive_solver.
  - intros e. rewrite !list_elem_of_In. apply filter_In.
Qed.

Lemma fold_delete_lookup {A} (l : list Z) (g : gmap Z A) q :
  fold_left (λ mp id, delete id mp) l g !! q = if bool_decide (q ∈ l) then None else g !! q.
Proof.
  revert g. induction l as [|i l IH]; intros g; cbn [fold_left]; [done|].
  rewrite IH. destruct (decide (q = i)) as [->|].
  - rewrite (bool_decide_eq_true_2 (i ∈ i :: l)) by set_solver. case_match; [done|].
    apply lookup_delete_eq.
  - rewrite lookup_delete_ne by done.
    by rewrite (bool_decide_ext (q ∈ i :: l) (q ∈ l)) by set_solver.
Qed.

Lemma fold_insert_lookup (l : list Z) (now : gotime) (g : gmap Z gotime) q :
  fold_left (λ g id, <[id := now]> g) l g !! q =
    if bool_decide (q ∈ l) then Some now else g !! q.
Proof.
  revert g. induction l as [|i l IH]; intros g; cbn [fold_left]; [done|].
  rewrite IH. destruct (decide (q = i)) as [->|].
  - rewrite (bool_decide_eq_true_2 (i ∈ i :: l)) by set_solver. case_match; [done|].
    apply lookup_insert_eq.
  - rewrite lookup_insert_ne by done.
    by rewrite (bool_decide_ext (q ∈ i :: l) (q ∈ l)) by set_solver.
Qed.

Lemma emits_quiet (f : Z → Event) (l : list Z) m :
  let m' := fold_left (λ m id, emit m (f id)) l m in
  quiet 0 m m' ∧ ∀ id, id ∈ l → f id ∈ trace m'.
Proof.
  revert m. induction l as [|i l IH]; intros m; cbn [fold_left].
  { split; [apply quiet_refl|set_solver]. }
  destruct (IH (emit m (f i))) as [Hq Hin].
  split; [by apply (quiet_trans 0 0 _ _ _ (emit_quiet m (f i)))|].
  intros id [->|?]%elem_of_cons; [|by apply Hin].
  destruct (q_trace _ _ _ Hq) as [k ->]. simpl. set_solver.
Qed.

(** What one tick does to peer [p]. *)
Record ticked (now : gotime) (sent : Z → gotime) m m' (p : Z) : Prop := {
  ti_none : pending m p = None → pending m' p = None;
  ti_giveup : ∀ st, pending m p = Some st → MaxRekeyAttempts + 1 <= Attempts st →
    pending m' p = None ∧ gaveup m' p = Some now ∧ EvGaveUpPublished p ∈ trace m';
  ti_keep : ∀ st, pending m p = Some st → Attempts st < MaxRekeyAttempts + 1 →
    pending m' p = Some st ∨ pending m' p = bump (sent p) (Some st);
  ti_gaveup : gaveup m p = None → is_Some (pending m' p) → gaveup m' p = None;
  ti_retry : ∀ st, can_send m → (size (pendingRekey (rk m)) ≤ maxRetransmitsPerTick)%nat →
    pending m p = Some st → Attempts st < MaxRekeyAttempts + 1 →
    RekeyRetransmitInterval <= time_sub now (LastSentAt st) → gaveup m p = None →
    pending m' p = bump (sent p) (Some st);
}.

Lemma due_disjoint now e : due_giveup e = true → due_retry now e = false.
Proof. unfold due_retry. by intros ->. Qed.

Section tick.
Context (m : Manager) (now : gotime) (sent : Z → gotime) (order : list (Z * PendingRekeyState)).
Hypothesis order_ok : order ≡ₚ map_to_list (pendingRekey (rk m)).

Lemma order_nodup : NoDup order.*1.
Proof. rewrite order_ok. apply NoDup_fst_map_to_list. Qed.

Lemma order_elem p st : (p, st) ∈ order ↔ pending m p = Some st.
Proof. rewrite order_ok. apply elem_of_map_to_list. Qed.

Lemma toGiveUp_elem p :
  p ∈ (List.filter due_giveup order).*1 ↔
  ∃ st, pending m p = Some st ∧ MaxRekeyAttempts + 1 <= Attempts st.
Proof.
  rewrite list_elem_of_fmap. destruct (NoDup_fst_filter due_giveup order order_nodup) as [_ Hf].
  split.
  - intros ([p' st] & -> & Hin). apply Hf in Hin as [Hin Hd]. exists st.
    rewrite <- order_elem. split; [done|]. apply Z.leb_le, Hd.
  - intros (st & Hp & Hd). exists (p, st). rewrite Hf, order_elem. split_and!; try done.
    by apply Z.leb_le.
Qed.

Definition retries : list (Z * PendingRekeyState) :=
  take maxRetransmitsPerTick (List.filter (due_retry now) order).

Lemma retries_nodup : NoDup retries.*1.
Proof.
  unfold retries. destruct (NoDup_fst_filter (due_retry now) order order_nodup) as [Hnd _].
  rewrite <- (take_drop maxRetransmitsPerTick (List.filter _ _)), fmap_app in Hnd.
  by apply NoDup_app in Hnd as [? _].
Qed.

Lemma retries_elem p :
  p ∈ retries.*1 → ∃ st, pending m p = Some st ∧ Attempts st < MaxRekeyAttempts + 1.
Proof.
  intros ([p' st] & -> & Hin)%list_elem_of_fmap. exists st. unfold retries in Hin.
  apply (subseteq_take maxRetransmitsPerTick) in Hin.
  apply NoDup_fst_filter in Hin as [Hin Hd]; [|apply order_nodup].
  rewrite <- order_elem. split; [done|].
  unfold due_retry, due_giveup in Hd. simpl in *. zbool. lia.
Qed.

Lemma retries_all p st :
  (size (pendingRekey (rk m)) ≤ maxRetransmitsPerTick)%nat → pending m p = Some st →
  Attempts st < MaxRekeyAttempts + 1 → RekeyRetransmitInterval <= time_sub now (LastSentAt st) →
  p ∈ retries.*1.
Proof.
  intros Hsz Hp Ha Hd. apply list_elem_of_fmap. exists (p, st). split; [done|].
  unfold retries. rewrite take_ge.
  - apply NoDup_fst_filter; [apply order_nodup|]. rewrite order_elem. split; [done|].
    unfold due_retry, due_giveup. simpl. apply andb_true_intro.
    split; apply negb_true_iff; [apply Z.leb_gt|apply Z.ltb_ge]; lia.
  - etrans; [|exact Hsz]. rewrite <- length_map_to_list, <- order_ok.
    clear. induction order; simpl; [lia|]. case_match; simpl; lia.
Qed.

(** The tick as its four phases: book-keeping, the gave-up hook, the
    retransmissions, the gave-up events. *)
Lemma tick_phases :
  let gu := (List.filter due_giveup order).*1 in
  let m' := RekeyRetransmitTick m now sent order in
  ∃ m1, cfg m1 = cfg m ∧ trace m `prefix_of` trace m1 ∧ sends m1 = sends m ∧
    (∀ q, pending m1 q = if bool_decide (q ∈ gu) then None else pending m q) ∧
    (∀ q, q ∈ gu → gaveup m1 q = Some now) ∧
    (∀ q, q ∉ gu → gaveup m q = None → gaveup m1 q = None) ∧
    retried sent retries.*1 m1 (fold_left (λ m e, retransmit_one (sent e.1) m e) retries m1) ∧
    quiet 0 (fold_left (λ m e, retransmit_one (sent e.1) m e) retries m1) m' ∧
    ∀ q, q ∈ gu → EvGaveUpPublished q ∈ trace m'.
Proof.
  intros gu m'. unfold RekeyRetransmitTick in m'. fold retries in m'.
  change (map fst (List.filter due_giveup order)) with gu in m'.
  set (m0 := with_rk m _) in m'.
  set (m1 := if hasOnGaveUp (cfg m0) then fold_left _ gu m0 else m0) in m'.
  assert (quiet 0 m0 m1) as Hq
    by (unfold m1; case_match; [apply (emits_quiet EvGaveUpHook)|apply quiet_refl]).
  exists m1. pose proof (q_sends _ _ _ Hq) as Hs. split_and!.
  - rewrite (q_cfg _ _ _ Hq). done.
  - apply Hq.
  - simpl in Hs. lia.
  - intros q. destruct (q_same _ _ _ Hq q) as [-> _]. apply fold_delete_lookup.
  - intros q Hin. destruct (q_same _ _ _ Hq q) as [_ ->]. unfold gaveup, m0. simpl.
    apply map_lookup_filter_Some. rewrite fold_insert_lookup, bool_decide_eq_true_2 by done.
    split; [done|]. rewrite time_sub_exact; simpl; unfold minDuration, maxDuration,
      rekeyGaveUpCooldown, Second; lia.
  - intros q Hni Hn. destruct (q_same _ _ _ Hq q) as [_ ->]. unfold gaveup, m0. simpl.
    apply map_lookup_filter_None. left.
    by rewrite fold_insert_lookup, bool_decide_eq_false_2.
  - apply retransmit_fold, retries_nodup.
  - unfold m'. apply (emits_quiet EvGaveUpPublished).
  - unfold m'. intros q. apply (emits_quiet EvGaveUpPublished).
Qed.

Lemma tick_spec p : ticked now sent m (RekeyRetransmitTick m now sent order) p.
Proof.
  destruct tick_phases as (m1 & Hc & Ht & Hs & Hp1 & Hg1 & Hg0 & Hre & Hq & Hpub).
  set (gu := (List.filter due_giveup order).*1) in *.
  set (m3 := fold_left _ _ _) in *. set (m' := RekeyRetransmitTick m now sent order) in *.
  destruct (q_same _ _ _ Hq p) as [Hp' Hg'].
  assert (∀ st, pending m p = Some st → Attempts st < MaxRekeyAttempts + 1 → p ∉ gu) as Hngu.
  { intros st Hst Ha (st' & Hst' & ?)%toGiveUp_elem. simplify_eq. lia. }
  assert (∀ st, pending m p = Some st → Attempts st < MaxRekeyAttempts + 1 →
    pending m1 p = Some st) as Hp1'.
  { intros st Hst Ha. rewrite Hp1, bool_decide_eq_false_2; eauto. }
  split.
  - intros Hn. assert (p ∉ gu) as Hni by (intros (st & ? & _)%toGiveUp_elem; congruence).
    assert (p ∉ retries.*1) as Hnr by (intros (st & ? & _)%retries_elem; congruence).
    destruct (re_other _ _ _ _ Hre p Hnr) as [Hr _]. rewrite Hp', Hr, Hp1.
    by rewrite bool_decide_eq_false_2.
  - intros st Hst Ha. assert (p ∈ gu) as Hin by (apply toGiveUp_elem; eauto).
    assert (p ∉ retries.*1) as Hnr by (intros (st' & ? & ?)%retries_elem; simplify_eq; lia).
    destruct (re_other _ _ _ _ Hre p Hnr) as [Hr Hrg]. rewrite Hp', Hg', Hr, Hrg, Hp1.
    rewrite bool_decide_eq_true_2 by done. auto.
  - intros st Hst Ha. rewrite Hp'. specialize (Hp1' st Hst Ha).
    destruct (decide (p ∈ retries.*1)) as [Hin|Hni].
    + destruct (re_self _ _ _ _ Hre p Hin) as [[-> _]|[-> _]]; rewrite Hp1'; auto.
    + destruct (re_other _ _ _ _ Hre p Hni) as [-> _]. auto.
  - intros Hn Hsome. rewrite Hp' in Hsome. rewrite Hg'.
    destruct (decide (p ∈ retries.*1)) as [Hin|Hni].
    + destruct (re_self _ _ _ _ Hre p Hin) as [[_ ->]|[_ ->]]; [|done].
      destruct (retries_elem _ Hin) as (st & Hst & Ha). apply Hg0; eauto.
    + destruct (re_other _ _ _ _ Hre p Hni) as [Hr ->]. apply Hg0; [|done].
      intros Hgu. rewrite Hr, Hp1, bool_decide_eq_true_2 in Hsome by done. by destruct Hsome.
  - intros st Hcs Hsz Hst Ha Hd Hn. rewrite Hp'.
    rewrite (re_done _ _ _ _ Hre); [by rewrite (Hp1' st)| | |].
    + unfold can_send in *. by rewrite Hc.
    + by apply (retries_all p st).
    + apply Hg0; eauto.
Qed.

Lemma tick_trace_sends :
  let m' := RekeyRetransmitTick m now sent order in
  cfg m' = cfg m ∧ trace m `prefix_of` trace m' ∧
  (sends m ≤ sends m' ≤ sends m + 2 * maxRetransmitsPerTick)%nat.
Proof.
  destruct tick_phases as (m1 & Hc & Ht & Hs & _ & _ & _ & Hre & Hq & _).
  pose proof (re_sends _ _ _ _ Hre). pose proof (q_sends _ _ _ Hq).
  assert (length retries.*1 ≤ maxRetransmitsPerTick)%nat.
  { unfold retries. rewrite length_fmap, length_take. lia. }
  split_and!.
  - by rewrite (q_cfg _ _ _ Hq), (re_cfg _ _ _ _ Hre).
  - etrans; [exact Ht|]. etrans; [apply Hre|apply Hq].
  - lia.
  - lia.
Qed.
End tick.

(** One retransmit tick.  Whatever order the map iteration takes: no peer
    is left pending with more than [MaxRekeyAttempts + 1] attempts; no peer
    becomes pending that was not; at most [maxRetransmitsPerTick] exchanges (two
    frames each) go out; and a peer that had used up its attempts is dropped,
    announced on the event bus, and refused by [MarkPendingRekey] until the
    cooldown has passed, after which it is accepted again. *)
Theorem tick_bounds_and_gives_up m now sent order :
  order ≡ₚ map_to_list (pendingRekey (rk m)) →
  let m' := RekeyRetransmitTick m now sent order in
  (∀ p st', pending m' p = Some st' →
     Attempts st' <= MaxRekeyAttempts + 1 ∧ is_Some (pending m p)) ∧
  (sends m' ≤ sends m + 2 * maxRetransmitsPerTick)%nat ∧
  (∀ p st, pending m p = Some st → MaxRekeyAttempts + 1 <= Attempts st →
     PendingRekeyHas m' p = false ∧ EvGaveUpPublished p ∈ trace m' ∧
     ∀ t, now <= t <= now + maxDuration →
       fst (MarkPendingRekey m' t p) = negb (t <? now + rekeyGaveUpCooldown)).
Proof.
  intros Ho m'. split_and!.
  - intros p st' Hp'. pose proof (tick_spec m now sent order Ho p) as Hsp. fold m' in Hsp.
    destruct (pending m p) as [st|] eqn:Hp;
      [|rewrite (ti_none _ _ _ _ _ Hsp Hp) in Hp'; discriminate].
    split; [|eauto].
    destruct (Z_lt_le_dec (Attempts st) (MaxRekeyAttempts + 1)) as [Ha|Ha].
    + destruct (ti_keep _ _ _ _ _ Hsp st Hp Ha) as [He|He]; rewrite He in Hp';
        injection Hp' as <-; simpl; lia.
    + destruct (ti_giveup _ _ _ _ _ Hsp st Hp Ha) as (He & _). congruence.
  - apply tick_trace_sends, Ho.
  - intros p st Hp Ha. pose proof (tick_spec m now sent order Ho p) as Hsp. fold m' in Hsp.
    destruct (ti_giveup _ _ _ _ _ Hsp st Hp Ha) as (Hn & Hg & Hpub). split_and!; [|done|].
    + unfold PendingRekeyHas, pending in *. by rewrite Hn.
    + intros t Ht. unfold MarkPendingRekey, gaveup in *. rewrite Hg.
      rewrite time_sub_exact by (unfold minDuration; lia).
      destruct (Z.ltb_spec (t - now) rekeyGaveUpCooldown), (Z.ltb_spec t (now + rekeyGaveUpCooldown));
        simpl; lia.
Qed.

(** Ticks, each with the clock's readings (at its start, and as it sends to each
    peer) and some order. *)
Inductive ticks : Manager → list (gotime * (Z → gotime)) → Manager → Prop :=
| ticks_nil m : ticks m [] m
| ticks_cons m now sent order ts m' :
    order ≡ₚ map_to_list (pendingRekey (rk m)) →
    ticks (RekeyRetransmitTick m now sent order) ts m' → ticks m ((now, sent) :: ts) m'.

(** From [from] on, ticks are a retransmit interval or more apart, and each has sent
    to [p] before the next is due. *)
Fixpoint paced (p : Z) (from : gotime) (ts : list (gotime * (Z → gotime))) : Prop :=
  match ts with
  | [] => True
  | (t, sent) :: ts =>
      from <= t ∧ t <= sent p < t + RekeyRetransmitInterval ∧ paced p (t + RekeyRetransmitInterval) ts
  end.

Definition exclusive m : Prop := ∀ p, is_Some (pending m p) → gaveup m p = None.

Lemma tick_size m now sent order :
  order ≡ₚ map_to_list (pendingRekey (rk m)) →
  (size (pendingRekey (rk (RekeyRetransmitTick m now sent order))) ≤ size (pendingRekey (rk m)))%nat.
Proof.
  intros Ho. rewrite <- !size_dom. apply subseteq_size. intros p.
  rewrite !elem_of_dom. intros Hs.
  destruct (pendingRekey (rk m) !! p) eqn:E; [eauto|].
  pose proof (ti_none _ _ _ _ _ (tick_spec m now sent order Ho p) E) as Hn.
  unfold pending in Hn. rewrite Hn in Hs. by destruct Hs.
Qed.

Lemma tick_exclusive m now sent order :
  order ≡ₚ map_to_list (pendingRekey (rk m)) → exclusive m →
  exclusive (RekeyRetransmitTick m now sent order).
Proof.
  intros Ho Hex p Hs. pose proof (tick_spec m now sent order Ho p) as Hsp.
  apply (ti_gaveup _ _ _ _ _ Hsp); [|done]. apply Hex.
  destruct (pending m p) eqn:E; [eauto|].
  rewrite (ti_none _ _ _ _ _ Hsp E) in Hs. by destruct Hs.
Qed.

Lemma ticks_none m ts m' p :
  ticks m ts m' → pending m p = None → EvGaveUpPublished p ∈ trace m →
  pending m' p = None ∧ EvGaveUpPublished p ∈ trace m'.
Proof.
  induction 1 as [|m now sent order ts m' Ho _ IH]; [done|]. intros Hp Hin. apply IH.
  - by apply (tick_spec m now sent order Ho p).
  - destruct (tick_trace_sends m now sent order Ho) as (_ & [k ->] & _). set_solver.
Qed.

(** ** The reply rate limit *)

(** The answers [MarkReplyKeyExchangeSent] gives to a series of requests. *)
Fixpoint granted m (reqs : list (gotime * Z)) : list (gotime * Z) :=
  match reqs with
  | [] => []
  | (now, p) :: reqs =>
      let '(ok, m') := MarkReplyKeyExchangeSent m now p in
      if ok then (now, p) :: granted m' reqs else granted m' reqs
  end.

Definition reply_before m (t : gotime) : Prop :=
  ∀ p last, lastKeyExchangeReply (rk m) !! p = Some last → last <= t.

Lemma MarkReply_spec m now p :
  let '(ok, m') := MarkReplyKeyExchangeSent m now p in
  (∀ q, reply_whitelisted m' q = reply_whitelisted m q) ∧
  if ok then
    lastKeyExchangeReply (rk m') = <[p := now]> (lastKeyExchangeReply (rk m)) ∧
    (reply_whitelisted m p = false → ∀ last, lastKeyExchangeReply (rk m) !! p = Some last →
       KeyExchangeReplyMinInterval <= time_sub now last)
  else m' = m.
Proof.
  unfold MarkReplyKeyExchangeSent.
  destruct (negb _ && _) eqn:E; simpl; [done|]. split; [done|]. split; [done|].
  intros Hw last Hl. rewrite Hw, Hl in E. simpl in E. by apply Z.ltb_ge in E.
Qed.

(** The clock does not run backwards from [t] on. *)
Fixpoint monotone (t : gotime) (reqs : list (gotime * Z)) : Prop :=
  match reqs with
  | [] => True
  | r :: reqs => t <= r.1 ∧ monotone r.1 reqs
  end.

Lemma time_sub_ge now last d : 0 < d → d <= time_sub now last → d <= now - last.
Proof. unfold time_sub, minDuration. lia. Qed.

Lemma granted_spaced m reqs t p :
  reply_before m t → monotone t reqs → reply_whitelisted m p = false →
  (∀ now last, (now, p) ∈ granted m reqs → lastKeyExchangeReply (rk m) !! p = Some last →
     KeyExchangeReplyMinInterval <= now - last) ∧
  (∀ i j now now', granted m reqs !! i = Some (now, p) → granted m reqs !! j = Some (now', p) →
     (i < j)%nat → KeyExchangeReplyMinInterval <= now' - now).
Proof.
  revert m t. induction reqs as [|[now q] reqs IH]; intros m t Hb Hmono Hw; cbn [granted].
  { split; [set_solver|]. intros i j now now' H. by rewrite lookup_nil in H. }
  destruct Hmono as [Ht Hmono]. simpl in Ht, Hmono.
  pose proof (MarkReply_spec m now q) as H.
  destruct (MarkReplyKeyExchangeSent m now q) as [ok m']. destruct H as [Hwl H].
  destruct ok; cycle 1.
  { subst m'. apply (IH m now); auto. intros p' l Hl. specialize (Hb p' l Hl). lia. }
  destruct H as [Hl Hge].
  destruct (IH m' now) as [IH1 IH2]; [|done|by rewrite Hwl|].
  { intros p' l. rewrite Hl, lookup_insert. case_decide as Hd; [intros [= <-]; lia|].
    intros Hl'. specialize (Hb p' l Hl'). lia. }
  assert (0 < KeyExchangeReplyMinInterval) as Hpos by done.
  rewrite Hl in IH1. split.
  - intros now' last [[= <- <-]|Hin]%elem_of_cons Hlast.
    + by apply time_sub_ge, Hge.
    + destruct (decide (q = p)) as [->|Hne].
      * specialize (IH1 now' now Hin ltac:(by rewrite lookup_insert_eq)).
        specialize (Hb p last Hlast). lia.
      * apply (IH1 now' last Hin). by rewrite lookup_insert_ne.
  - intros [|i] [|j] now1 now2 H1 H2 Hij; [lia| |lia|apply (IH2 i j); [done|done|lia]].
    simpl in H1, H2. injection H1 as -> ->. apply (IH1 now2 now1).
    + apply list_elem_of_lookup. eauto.
    + by rewrite lookup_insert_eq.
Qed.

(** Replies to one peer are rate limited.  Over any series of requests
    with a clock that does not run backwards, two replies granted to the same
    peer, unless the peer is whitelisted, are at least
    [KeyExchangeReplyMinInterval] apart. *)
Theorem replies_are_rate_limited m reqs t p i j now now' :
  reply_before m t → monotone t reqs → reply_whitelisted m p = false →
  granted m reqs !! i = Some (now, p) → granted m reqs !! j = Some (now', p) → (i < j)%nat →
  KeyExchangeReplyMinInterval <= now' - now.
Proof. intros Hb Hm Hw. by apply (granted_spaced m reqs t p Hb Hm Hw). Qed.

(** Forgetting a peer frees its state and nobody else's.  After
    [RemovePeer] the peer is absent from every per-peer table of the package
    except the gave-up cooldown (kept on purpose); every other peer keeps
    exactly what it had. *)
Theorem RemovePeer_forgets m id :
  kxPeerIDs (RemovePeer m id) = kxPeerIDs m ∖ {[id]} ∧
  gaveup (RemovePeer m id) id = gaveup m id ∧
  env (RemovePeer m id) = env m ∧
  ∀ p, p ≠ id →
    PeerPubKeyCached (RemovePeer m id) p = PeerPubKeyCached m p ∧
    negPubKeys (keys (RemovePeer m id)) !! p = negPubKeys (keys m) !! p ∧
    pending (RemovePeer m id) p = pending m p ∧
    LastInboundDecrypt (RemovePeer m id) p = LastInboundDecrypt m p ∧
    lastKeyExchangeReply (rk (RemovePeer m id)) !! p = lastKeyExchangeReply (rk m) !! p ∧
    (p ∈ keyRequestDue (rk (RemovePeer m id)) ↔ p ∈ keyRequestDue (rk m)).
Proof.
  split_and!; [|done|done|].
  - unfold kxPeerIDs, RemovePeer. simpl. apply leibniz_equiv.
    rewrite !dom_delete. set_solver.
  - intros p Hne. unfold PeerPubKeyCached, pending, LastInboundDecrypt. simpl.
    rewrite !lookup_delete_ne by done. split_and!; try done; set_solver.
Qed.

(** ** The invariant of a running manager *)

(** Every exported operation that changes the manager. *)
Inductive kx_op :=
| OpAuthFrame (now : gotime) (data : bytes) (from : Z) (relay : bool)
| OpUnauthFrame (now : gotime) (data : bytes) (from : Z) (relay : bool)
| OpGetPeerPubKey (now : gotime) (id : Z)
| OpSetPeerPubKey (id : Z) (pk : bytes)
| OpInvalidate (id : Z)
| OpMarkPending (now : gotime) (id : Z)
| OpClearPending (id : Z)
| OpResetAttempts (id : Z)
| OpClearGaveUp (id : Z)
| OpInbound (now : gotime) (id : Z)
| OpMarkReply (now : gotime) (id : Z)
| OpWhitelist (ids : list Z)
| OpWhitelistAll (on : bool)
| OpKeyRequestDue (id : Z)
| OpSend (now : gotime) (id : Z)
| OpTick (now : gotime) (sent : Z → gotime) (order : list (Z * PendingRekeyState))
| OpRemovePeer (id : Z).

Definition kx_step m (o : kx_op) : Manager :=
  match o with
  | OpAuthFrame now data from rel => snd (HandleAuthFrame m now data from rel)
  | OpUnauthFrame now data from rel => snd (HandleUnauthFrame m now data from rel)
  | OpGetPeerPubKey now id => snd (GetPeerPubKey m now id)
  | OpSetPeerPubKey id pk => SetPeerPubKey m id pk
  | OpInvalidate id => InvalidatePeerPubKey m id
  | OpMarkPending now id => snd (MarkPendingRekey m now id)
  | OpClearPending id => ClearPendingRekey m id
  | OpResetAttempts id => ResetPendingRekeyAttempts m id
  | OpClearGaveUp id => ClearRekeyGaveUp m id
  | OpInbound now id => RecordInboundDecrypt m now id
  | OpMarkReply now id => snd (MarkReplyKeyExchangeSent m now id)
  | OpWhitelist ids => SetReplyWhitelist m ids
  | OpWhitelistAll on => SetReplyWhitelistMatchAll m on
  | OpKeyRequestDue id => MarkKeyRequestDue m id
  | OpSend now id => snd (SendKeyExchangeToNode m now id)
  | OpTick now sent order => RekeyRetransmitTick m now sent order
  | OpRemovePeer id => RemovePeer m id
  end.

Record kx_inv m : Prop := {
  ki_wf : store_wf (env m);
  ki_neg : Z.of_nat (size (negPubKeys (keys m))) <= MaxNegPubKeyEntries;
  ki_due : Z.of_nat (size (keyRequestDue (rk m))) <= MaxNegPubKeyEntries;
  ki_excl : exclusive m;
}.

(** Operations that touch none of the four. *)
Lemma kx_inv_same m m' :
  env m' = env m → negPubKeys (keys m') = negPubKeys (keys m) →
  keyRequestDue (rk m') = keyRequestDue (rk m) → pendingRekey (rk m') = pendingRekey (rk m) →
  rekeyGaveUp (rk m') = rekeyGaveUp (rk m) → kx_inv m → kx_inv m'.
Proof.
  intros He Hn Hd Hp Hg [? ? ? Hx]. split; rewrite ?He, ?Hn, ?Hd; try done.
  unfold exclusive, pending, gaveup in *. by rewrite Hp, Hg.
Qed.

Lemma delete_size_le {A} (g : gmap Z A) i : (size (delete i g) ≤ size g)%nat.
Proof. rewrite <- !size_dom, dom_delete. apply subseteq_size. set_solver. Qed.

Lemma insert_size_le {A} (g : gmap Z A) i x : (size (<[i := x]> g) ≤ S (size g))%nat.
Proof. rewrite map_size_insert. case_match; simpl; lia. Qed.

Lemma recordNeg_inv m now id : kx_inv m → kx_inv (recordNegPubKey m now id).
Proof.
  intros Hi. assert (Z.of_nat (size (negPubKeys (keys (recordNegPubKey m now id)))) <=
    MaxNegPubKeyEntries) as Hsz.
  { pose proof (ki_neg _ Hi) as Hn. unfold recordNegPubKey.
    destruct (bool_decide _ && _) eqn:E.
    - set (neg := filter _ _).
      destruct (Z.leb_spec MaxNegPubKeyEntries (Z.of_nat (size neg))); cbn [keys with_keys negPubKeys].
      + transitivity (Z.of_nat (size (negPubKeys (keys m)))); [|done].
        apply inj_le. rewrite <- !size_dom. apply subseteq_size, dom_filter_subseteq.
      + pose proof (insert_size_le neg id now). lia.
    - cbn [keys with_keys negPubKeys]. apply andb_false_iff in E as [E|E].
      + apply bool_decide_eq_false, not_eq_None_Some in E.
        rewrite map_size_insert. destruct E as [x ->]. done.
      + apply Z.leb_gt in E. pose proof (insert_size_le (negPubKeys (keys m)) id now). lia. }
  assert (env (recordNegPubKey m now id) = env m ∧ rk (recordNegPubKey m now id) = rk m) as [He Hr].
  { unfold recordNegPubKey. by repeat case_match. }
  destruct Hi. split; [by rewrite He|done|by rewrite Hr|].
  unfold exclusive, pending, gaveup in *. by rewrite Hr.
Qed.

Lemma GetPeerPubKey_inv m now id : kx_inv m → kx_inv (snd (GetPeerPubKey m now id)).
Proof.
  intros Hi. unfold GetPeerPubKey. case_match; [done|]. cbv zeta.
  destruct (match negPubKeys (keys m) !! id with Some _ => _ | None => _ end); [done|].
  case_zif; [done|].
  assert (kx_inv (with_calls m (S (lookups m)) (sends m) (draws m))) as Hi'
    by (by apply (kx_inv_same m)).
  destruct (registry (cfg m) (lookups m) id); cbn [snd]; [|by apply recordNeg_inv].
  destruct Hi. split; try done. simpl.
  pose proof (delete_size_le (negPubKeys (keys m)) id). lia.
Qed.

Lemma resolve_inv m now id ed : kx_inv m → kx_inv (snd (resolve_identity m now id ed)).
Proof.
  intros Hi. unfold resolve_identity. pose proof (GetPeerPubKey_inv m now id Hi) as H1.
  destruct (GetPeerPubKey m now id) as [r m1]. cbn [snd] in H1.
  destruct r as [[e|]|]; try exact H1. case_match; [exact H1|].
  assert (kx_inv (InvalidatePeerPubKey m1 id)) as H2 by (by apply (kx_inv_same m1)).
  pose proof (GetPeerPubKey_inv _ now id H2) as H3.
  destruct (GetPeerPubKey (InvalidatePeerPubKey m1 id) now id) as [r2 m2]. cbn [snd] in H3.
  destruct r2 as [[e2|]|]; try exact H3. by case_match.
Qed.

Lemma takeKeyRequest_inv m p : kx_inv m → kx_inv (snd (takeKeyRequest m p)).
Proof.
  intros Hi. unfold takeKeyRequest. case_match; [|done]. destruct Hi. split; try done. simpl.
  etrans; [|done]. apply inj_le, subseteq_size. set_solver.
Qed.

Lemma MarkPendingRekey_inv m now p : kx_inv m → kx_inv (snd (MarkPendingRekey m now p)).
Proof.
  intros Hi. pose proof (MarkPendingRekey_spec m now p) as H.
  assert (env (snd (MarkPendingRekey m now p)) = env m ∧
    keys (snd (MarkPendingRekey m now p)) = keys m ∧
    keyRequestDue (rk (snd (MarkPendingRekey m now p))) = keyRequestDue (rk m)) as (He & Hk & Hd).
  { unfold MarkPendingRekey. by repeat case_match. }
  destruct Hi as [? ? ? Hx]. split; rewrite ?He, ?Hk, ?Hd; try done.
  destruct (MarkPendingRekey m now p) as [ok m']. cbn [snd] in *.
  destruct H as [(_ & -> & _)|(_ & _ & Hg & _ & _ & _ & _ & Hot)]; [done|].
  intros q Hs. destruct (decide (q = p)) as [->|Hne]; [done|].
  destruct (Hot q Hne) as [Hp' ->]. rewrite Hp' in Hs. by apply Hx.
Qed.

Lemma SendKeyExchange_inv m now p : kx_inv m → kx_inv (snd (SendKeyExchangeToNode m now p)).
Proof.
  intros Hi. unfold SendKeyExchangeToNode. case_zif; [done|].
  destruct (BuildUnauthFrame m) as [b|]; [|done].
  set (tk := if _ && _ then takeKeyRequest m p else (false, m)).
  assert (kx_inv (snd tk)) as H1.
  { unfold tk. case_match; [by apply takeKeyRequest_inv|done]. }
  destruct tk as [kr m1]. cbn [snd] in H1.
  assert (∀ mm f, kx_inv mm → kx_inv (snd (send mm p f))) as Hsend
    by (intros mm f ?; by apply (kx_inv_same mm)).
  set (fr := default _ _). pose proof (Hsend m1 fr H1) as H2.
  destruct (send m1 p fr) as [ok m2]. cbn [snd] in H2.
  destruct ok; cbn [negb]; [|done]. destruct kr; cbn [snd]; [|by apply MarkPendingRekey_inv].
  pose proof (Hsend m2 b H2) as H3. destruct (send m2 p b) as [ok m3]. cbn [snd] in H3.
  destruct ok; cbn [snd]; apply MarkPendingRekey_inv; [|done]. by apply (kx_inv_same m3).
Qed.

Lemma ClearPending_inv m p : kx_inv m → kx_inv (ClearPendingRekey m p).
Proof.
  intros [? ? ? Hx]. split; try done. intros q. unfold pending, gaveup. simpl.
  rewrite lookup_delete. case_decide; [by intros []|apply Hx].
Qed.

Lemma MarkReply_inv m now p : kx_inv m → kx_inv (snd (MarkReplyKeyExchangeSent m now p)).
Proof. intros Hi. unfold MarkReplyKeyExchangeSent. case_match; [done|]. by apply (kx_inv_same m). Qed.

Lemma install_inv m peer pc :
  kx_inv m → kx_inv (snd (install_session m peer pc)).
Proof.
  intros Hi. destruct (install_session m peer pc) as [p m'] eqn:E. cbn [snd].
  pose proof (install_session_spec m peer pc p m' (ki_wf _ Hi) E) as [Hwf _].
  assert (keys m' = keys m ∧ rk m' = rk m) as [Hk Hr].
  { unfold install_session in E. case_match. by injection E as _ <-. }
  destruct Hi as [? ? ? Hx]. split; rewrite ?Hk, ?Hr; try done.
  unfold exclusive, pending, gaveup in *. by rewrite Hr.
Qed.

Lemma DeriveSecret_inv m now x : kx_inv m → kx_inv (snd (DeriveSecret m now x)).
Proof. intros Hi. unfold DeriveSecret. repeat case_match; try done; by apply (kx_inv_same m). Qed.

Lemma observe_inv m peer from rel au i old new ed :
  kx_inv m → kx_inv (observe m peer from rel au i old new ed).
Proof. intros Hi. unfold observe, publish_established. case_match; by apply (kx_inv_same m). Qed.

Lemma HandleAuthFrame_kx_inv m now data from rel :
  kx_inv m → kx_inv (snd (HandleAuthFrame m now data from rel)).
Proof.
  intros Hi. unfold HandleAuthFrame. case_match; [done|].
  destruct (privKey (cfg m)) as [priv|]; [|done]. cbv zeta.
  set (peer := Uint32 _). set (ed := slice 36 68 data).
  pose proof (resolve_inv m now peer ed Hi) as H1.
  destruct (resolve_identity m now peer ed) as [[k|] m1]; cbn [snd] in *; [|done].
  case_zif; [done|]. set (x := slice 4 36 data).
  pose proof (DeriveSecret_inv m1 now x H1) as H2.
  destruct (DeriveSecret m1 now x) as [[pc|] m2]; cbn [snd] in *; [|done].
  pose proof (install_inv m2 peer (set_authenticated pc) H2) as H3.
  destruct (install_session m2 peer (set_authenticated pc)) as [p m3]. cbn [snd] in *.
  assert (kx_inv (SetPeerPubKey m3 peer ed)) as H4 by (by apply (kx_inv_same m3)).
  set (m4 := if is_duplicate _ _ _ _ then _ else _).
  assert (kx_inv m4) as H5 by (unfold m4; case_match; [done|by apply observe_inv]).
  clearbody m4. case_zif.
  - pose proof (SendKeyExchange_inv m4 now peer H5).
    destruct (SendKeyExchangeToNode m4 now peer). by apply ClearPending_inv.
  - apply ClearPending_inv. case_zif; [|done].
    pose proof (MarkReply_inv m4 now peer H5).
    destruct (MarkReplyKeyExchangeSent m4 now peer) as [ok m5]. destruct ok; [|done].
    by apply SendKeyExchange_inv.
Qed.

Lemma HandleUnauthFrame_kx_inv m now data from rel :
  kx_inv m → kx_inv (snd (HandleUnauthFrame m now data from rel)).
Proof.
  intros Hi. unfold HandleUnauthFrame. case_match; [done|].
  destruct (privKey (cfg m)) as [priv|]; [|done]. cbv zeta. set (peer := Uint32 _).
  set (kn := if HasIdentity m then _ else (false, m)).
  assert (kx_inv (snd kn)) as H1.
  { unfold kn. destruct (HasIdentity m); [|done].
    pose proof (GetPeerPubKey_inv m now peer Hi). by destruct (GetPeerPubKey m now peer). }
  destruct kn as [known m1]. cbn [snd] in H1.
  destruct known; [by apply SendKeyExchange_inv|]. case_zif; [done|].
  set (x := slice 4 36 data). pose proof (DeriveSecret_inv m1 now x H1) as H2.
  destruct (DeriveSecret m1 now x) as [[pc|] m2]; cbn [snd] in *; [|done].
  pose proof (install_inv m2 peer pc H2) as H3.
  destruct (install_session m2 peer pc) as [p m3]. cbn [snd] in *.
  apply ClearPending_inv. set (m4 := if is_duplicate _ _ _ _ then _ else _).
  assert (kx_inv m4) as H5 by (unfold m4; case_match; [done|by apply observe_inv]).
  case_zif; [by apply SendKeyExchange_inv|done].
Qed.

Lemma fold_inv {A} (f : Manager → A → Manager) (l : list A) m :
  (∀ m a, kx_inv m → kx_inv (f m a)) → kx_inv m → kx_inv (fold_left f l m).
Proof. intros Hf. revert m. induction l; simpl; auto. Qed.

Lemma retransmit_one_inv now m e : kx_inv m → kx_inv (retransmit_one now m e).
Proof.
  intros Hi. unfold retransmit_one. apply SendKeyExchange_inv.
  case_match; [by apply (kx_inv_same m)|done].
Qed.

Lemma tick_inv m now sent order : kx_inv m → kx_inv (RekeyRetransmitTick m now sent order).
Proof.
  intros Hi. unfold RekeyRetransmitTick. cbv zeta. set (m0 := with_rk m _).
  assert (kx_inv m0) as H0.
  { destruct Hi as [? ? ? Hx]. split; try done. intros q. unfold pending, gaveup. simpl.
    rewrite fold_delete_lookup. case_bool_decide as Hb; [by intros []|]. intros Hs.
    apply map_lookup_filter_None. left. rewrite fold_insert_lookup, bool_decide_eq_false_2 by done.
    by apply Hx. }
  clearbody m0. apply fold_inv; [intros mm a ?; by apply (kx_inv_same mm)|].
  apply fold_inv; [intros; by apply retransmit_one_inv|].
  case_match; [|done]. apply fold_inv; [intros mm a ?; by apply (kx_inv_same mm)|done].
Qed.

Lemma kx_step_inv m o : kx_inv m → kx_inv (kx_step m o).
Proof.
  intros Hi. destruct o; simpl;
    auto using HandleAuthFrame_kx_inv, HandleUnauthFrame_kx_inv, GetPeerPubKey_inv,
      MarkPendingRekey_inv, ClearPending_inv, MarkReply_inv, SendKeyExchange_inv, tick_inv;
    try (by apply (kx_inv_same m)).
  - destruct Hi as [? ? ? Hx]. split; try done. intros q. unfold pending, gaveup. simpl.
    destruct (decide (q = id)) as [->|]; [rewrite lookup_alter_eq|rewrite lookup_alter_ne by done];
      intros Hs; apply Hx; [|done]. by apply fmap_is_Some in Hs.
  - destruct Hi as [? ? ? Hx]. split; try done. intros q Hs. unfold gaveup. simpl.
    apply lookup_delete_None. right. by apply Hx.
  - destruct Hi. unfold MarkKeyRequestDue. case_zif; [|done]. split; try done. simpl.
    pose proof (size_union_alt {[id]} (keyRequestDue (rk m))) as Hs.
    rewrite size_singleton in Hs.
    assert (size (keyRequestDue (rk m) ∖ {[id]}) ≤ size (keyRequestDue (rk m)))%nat
      by (apply subseteq_size; set_solver). lia.
  - destruct Hi as [? ? ? Hx]. split; try done.
    + simpl. pose proof (delete_size_le (negPubKeys (keys m)) id). lia.
    + simpl. etrans; [|done]. apply inj_le, subseteq_size. set_solver.
    + intros q. unfold pending, gaveup. simpl.
      rewrite lookup_delete. case_decide; [by intros []|apply Hx].
Qed.

(** Starting from a fresh manager and applying any sequence of its operations. *)
Lemma kx_reach_inv c ops : kx_inv (fold_left kx_step ops (New NewStore c)).
Proof.
  apply fold_inv; [intros; by apply kx_step_inv|].
  split; [apply store_wf_new|done|done|]. intros p [x Hp]. unfold pending in Hp. simpl in Hp.
  by rewrite lookup_empty in Hp.
Qed.

(** The invariant of a running key-exchange manager.  Starting from a
    fresh manager and applying any sequence of its operations (frames from the
    network included): every peer's session pointer is valid, the negative
    key cache and the key-request set never exceed [MaxNegPubKeyEntries], and
    no peer is both pending and in the give-up cooldown. *)
Theorem kx_manager_invariant c ops :
  let m := fold_left kx_step ops (New NewStore c) in
  store_wf (env m) ∧
  Z.of_nat (size (negPubKeys (keys m))) <= MaxNegPubKeyEntries ∧
  Z.of_nat (size (keyRequestDue (rk m))) <= MaxNegPubKeyEntries ∧
  ∀ p, PendingRekeyHas m p = true → rekeyGaveUp (rk m) !! p = None.
Proof.
  intros m. destruct (kx_reach_inv c ops) as [? ? ? Hx].
  split_and!; try done. intros p Hp. apply Hx. by apply bool_decide_eq_true in Hp.
Qed.

(** ** Giving up *)

(** Ticks that are enough to use up [a] attempts and give up; a peer whose last send
    is an interval old needs no tick to wait. *)
Definition ticksLeft (a : Z) (aged : bool) : Z := if a <=? 0 then 1 else 2 * a + (if aged then 0 else 1).
Definition attemptsLeft (st : PendingRekeyState) : Z := MaxRekeyAttempts + 1 - Attempts st.

Lemma due_ge t last : RekeyRetransmitInterval <= t - last → RekeyRetransmitInterval <= time_sub t last.
Proof. unfold time_sub, RekeyRetransmitInterval, minDuration, maxDuration, Second. lia. Qed.

Lemma paced_abandoned m ts m' p : ticks m ts m' → ∀ st from,
  can_send m → exclusive m → (size (pendingRekey (rk m)) ≤ maxRetransmitsPerTick)%nat →
  pending m p = Some st → paced p from ts → LastSentAt st <= from →
  ticksLeft (attemptsLeft st) (LastSentAt st + RekeyRetransmitInterval <=? from) <= Z.of_nat (length ts) →
  pending m' p = None ∧ EvGaveUpPublished p ∈ trace m'.
Proof.
  unfold ticksLeft, attemptsLeft.
  induction 1 as [m|m now sent order ts m' Ho Hts IH]; intros st from Hcs Hex Hsz Hp Hpa Hfrom Hlen.
  { simpl in Hlen. repeat case_match; lia. }
  destruct Hpa as (Hnow & Hsent & Hpa). pose proof (tick_spec m now sent order Ho p) as Htk.
  destruct (Z_lt_le_dec (Attempts st) (MaxRekeyAttempts + 1)) as [Ha|Ha].
  2:{ destruct (ti_giveup _ _ _ _ _ Htk st Hp Ha) as (Hn & _ & Hpub). eauto using ticks_none. }
  assert (∀ st', pending (RekeyRetransmitTick m now sent order) p = Some st' →
    LastSentAt st' <= now + RekeyRetransmitInterval →
    ticksLeft (attemptsLeft st') (LastSentAt st' + RekeyRetransmitInterval <=? now + RekeyRetransmitInterval)
      <= Z.of_nat (length ts) → pending m' p = None ∧ EvGaveUpPublished p ∈ trace m') as Hnext.
  { intros st' Hp' Hl Hn. apply (IH st' (now + RekeyRetransmitInterval)); try done.
    - unfold can_send in *. destruct (tick_trace_sends m now sent order Ho) as (-> & _). done.
    - by apply tick_exclusive.
    - etrans; [by apply tick_size|done]. }
  clear IH. unfold ticksLeft, attemptsLeft in Hnext. cbn [length] in Hlen.
  destruct (Z.leb_spec (MaxRekeyAttempts + 1 - Attempts st) 0) as [?|_]; [lia|].
  assert (pending (RekeyRetransmitTick m now sent order) p = Some st ∧
      (LastSentAt st + RekeyRetransmitInterval <=? from) = false ∨
    pending (RekeyRetransmitTick m now sent order) p = bump (sent p) (Some st)) as [[Hst Haged]|Hst].
  { destruct (Z_le_gt_dec (LastSentAt st + RekeyRetransmitInterval) from) as [Hold|Hyoung].
    - right. apply (ti_retry _ _ _ _ _ Htk); eauto. apply due_ge. lia.
    - destruct (ti_keep _ _ _ _ _ Htk st Hp Ha) as [H|H]; [left|by right]. split; [done|]. apply Z.leb_gt. lia. }
  - rewrite Haged in Hlen. apply (Hnext st Hst).
    + unfold RekeyRetransmitInterval, Second. lia.
    + rewrite (proj2 (Z.leb_le _ (now + _))) by lia. case_match; lia.
  - unfold bump in Hst. cbn [default id] in Hst. apply (Hnext _ Hst); cbn [LastSentAt Attempts]; [lia|].
    repeat case_match; zbool; lia.
Qed.

(** C39. An unanswered rekey is abandoned.  On a key-exchange manager that any run of
    operations has left with at most [maxRetransmitsPerTick] peers pending, if
    every send succeeds, nothing but the retransmit loop runs, ticks come an
    interval or more apart, and each tick has sent to the peer before the next is
    due: then two ticks for each attempt the peer has left and one more are enough
    for it to be no longer pending and its give-up announced.  (Two: the time of a
    send is taken after the tick's own, so the very next tick may find the
    interval not over and skip the peer, [next_tick_skips].) *)
Theorem unanswered_rekey_is_abandoned c ops m ts m' p st :
  m = fold_left kx_step ops (New NewStore c) →
  ticks m ts m' → can_send m →
  (size (pendingRekey (rk m)) ≤ maxRetransmitsPerTick)%nat →
  pending m p = Some st → paced p (LastSentAt st) ts →
  2 * Z.max 0 (MaxRekeyAttempts + 1 - Attempts st) + 1 <= Z.of_nat (length ts) →
  PendingRekeyHas m' p = false ∧ EvGaveUpPublished p ∈ trace m'.
Proof.
  intros Hm Hts Hcs Hsz Hp Hpa Hlen.
  destruct (paced_abandoned m ts m' p Hts st (LastSentAt st)) as [Hn ?]; try done.
  - rewrite Hm. apply kx_reach_inv.
  - unfold ticksLeft, attemptsLeft. repeat case_match; zbool; lia.
  - split; [|done]. unfold PendingRekeyHas, pending in *. by rewrite Hn.
Qed.

(** A peer that was sent to after the start of a tick is left alone by a tick that
    starts exactly one interval later. *)
Lemma next_tick_skips m now sent order p st :
  order ≡ₚ map_to_list (pendingRekey (rk m)) → pending m p = Some st → Attempts st < MaxRekeyAttempts + 1 →
  now - RekeyRetransmitInterval < LastSentAt st <= now →
  pending (RekeyRetransmitTick m now sent order) p = Some st.
Proof.
  intros Ho Hp Ha Hl. destruct (tick_phases m now sent order Ho) as (m1 & _ & _ & _ & Hp1 & _ & _ & Hre & Hq & _).
  destruct (q_same _ _ _ Hq p) as [-> _].
  destruct (re_other _ _ _ _ Hre p) as [-> _].
  - intros ([q st'] & -> & Hin)%list_elem_of_fmap. apply (subseteq_take maxRetransmitsPerTick) in Hin.
    apply NoDup_fst_filter in Hin as [Hin Hd]; [|by apply (order_nodup m order)].
    apply (order_elem m order Ho) in Hin. unfold pending in *. cbn in Hp. simplify_eq. unfold due_retry in Hd. cbn [snd] in Hd.
    apply andb_true_iff in Hd as [_ Hd%negb_true_iff%Z.ltb_ge].
    rewrite time_sub_exact in Hd; unfold RekeyRetransmitInterval, minDuration, maxDuration, Second in *; lia.
  - rewrite Hp1, bool_decide_eq_false_2; [done|]. intros (st' & Hst & ?)%(toGiveUp_elem m order Ho). simplify_eq. lia.
Qed.
End Rekey.

(** ** Witnesses *)
#[local] Existing Instance toy_primitives.
#[local] Existing Instance documented_protocol.

(** Alice with peer 2 pending after [n] unanswered attempts, the last at time 0. *)
Definition waiting (n : Z) : Manager :=
  with_pending alice {[ 2 := mkPending 0 0 n ]}.

(** A tick's sends take 10 ms. *)
Definition tickAt (t : gotime) : gotime * (Z → gotime) := (t, λ _, t + 10000000).

Lemma tick_bounds_and_gives_up_witness :
  let m' := RekeyRetransmitTick (waiting 6) (4 * Second) (tickAt (4 * Second)).2 [(2, mkPending 0 0 6)] in
  PendingRekeyHas m' 2 = false ∧ EvGaveUpPublished 2 ∈ trace m' ∧
  fst (MarkPendingRekey m' (8 * Second) 2) = false ∧
  fst (MarkPendingRekey m' (9 * Second) 2) = true.
Proof.
  intros m'.
  assert ([(2, mkPending 0 0 6)] ≡ₚ map_to_list (pendingRekey (rk (waiting 6)))) as Ho.
  { unfold waiting. simpl. by rewrite map_to_list_singleton. }
  destruct (tick_bounds_and_gives_up (waiting 6) (4 * Second) (tickAt (4 * Second)).2 _ Ho) as (_ & _ & H).
  destruct (H 2 (mkPending 0 0 6)) as (H1 & H2 & H3).
  - vm_compute. reflexivity.
  - vm_compute. discriminate.
  - fold m' in H1, H2, H3. clearbody m'. split; [exact H1|]. split; [exact H2|].
    split; rewrite H3; try (vm_compute; reflexivity); split; vm_compute; discriminate.
Defined.

(** Alice has sent to peer 2 four times by time 0, and gets no answer. *)
Definition asking : Manager := fold_left kx_step (replicate 4 (OpMarkPending 0 2)) (New NewStore (cfg alice)).
Definition five_ticks : list (gotime * (Z → gotime)) :=
  map tickAt [4 * Second; 8 * Second; 12 * Second; 16 * Second; 20 * Second].
Definition ticking (ts : list (gotime * (Z → gotime))) : Manager :=
  fold_left (λ m t, RekeyRetransmitTick m t.1 t.2 (map_to_list (pendingRekey (rk m)))) ts asking.

Lemma ticking_ticks ts : ticks asking ts (ticking ts).
Proof.
  unfold ticking. generalize asking. induction ts as [|[t sent] ts IH]; intros m; cbn [fold_left]; [apply ticks_nil|].
  eapply ticks_cons; [reflexivity|apply IH].
Qed.

Lemma unanswered_rekey_is_abandoned_witness :
  pending (ticking (take 1 five_ticks)) 2 = Some (mkPending 0 (4 * Second + 10000000) 5) ∧
  pending (ticking (take 2 five_ticks)) 2 = Some (mkPending 0 (4 * Second + 10000000) 5) ∧
  PendingRekeyHas (ticking five_ticks) 2 = false ∧ EvGaveUpPublished 2 ∈ trace (ticking five_ticks).
Proof.
  split; [vm_compute; reflexivity|]. split; [vm_compute; reflexivity|].
  apply (unanswered_rekey_is_abandoned (cfg alice) (replicate 4 (OpMarkPending 0 2)) asking five_ticks
    (ticking five_ticks) 2 (mkPending 0 0 4)).
  - reflexivity.
  - apply ticking_ticks.
  - split; [reflexivity|]. split; [eexists; reflexivity|]. intros n. reflexivity.
  - apply Nat.leb_le. vm_compute. reflexivity.
  - vm_compute. reflexivity.
  - repeat split; vm_compute; discriminate.
  - vm_compute. discriminate.
Defined.

Lemma replies_are_rate_limited_witness :
  granted alice [(0, 2); (5, 2); (5, 3); (Second, 2)] = [(0, 2); (5, 3); (Second, 2)] ∧
  KeyExchangeReplyMinInterval <= Second - 0.
Proof.
  assert (granted alice [(0, 2); (5, 2); (5, 3); (Second, 2)] = [(0, 2); (5, 3); (Second, 2)]) as E
    by (vm_compute; reflexivity).
  split; [exact E|].
  apply (replies_are_rate_limited alice [(0, 2); (5, 2); (5, 3); (Second, 2)] 0 2 0 2).
  - intros p l Hl. simpl in Hl. rewrite lookup_empty in Hl. discriminate.
  - repeat split; vm_compute; discriminate.
  - reflexivity.
  - rewrite E. reflexivity.
  - rewrite E. reflexivity.
  - apply Nat.ltb_lt. reflexivity.
Defined.
