(* ===== verification/Conn.v ===== *)
(** * Connections (pkg/daemon/ports.go: constants, [Connection], [retxEntry],
    [recvSegment], [ConnStats], [ConnState])

    The struct's fields are grouped by the mutex that guards them: [Sender]
    (RetxMu), [Receiver] (RecvMu), [AckState] (AckMu), and the rest (Mu).  A
    capacity-one signalling channel is [option bool]: [None] is a nil channel,
    [Some b] says whether a signal is queued.  [RecvBuf] keeps the segments in
    the channel, and [delivered] the segments the application has taken out, so
    that the whole delivered stream can be spoken of. *)
From S2P Require Import Prelude Protocol.
Open Scope Z_scope.

Definition SendSegmentSize : Z := 1152.
Definition MaxSegmentSize : Z := 4096.
Definition InitialCongWin : Z := 10 * MaxSegmentSize.
Definition MaxCongWin : Z := 1024 * 1024.
Definition RecvBufSize : Z := 512.
Definition MaxOOOBuf : Z := 128.
Definition MaxSegmentsOutstanding : Z := MaxOOOBuf.
Definition AcceptQueueLen : Z := 64.
Definition MaxNagleBuf : Z := 64 * MaxSegmentSize.
Definition ClockGranularity : duration := 10 * Millisecond.
Definition RTOMin : duration := 200 * Millisecond.
Definition RTOMax : duration := 10 * Second.
Definition InitialRTO : duration := 1 * Second.
Definition SynSentReapDuration : duration := 5 * Second.
Definition MaxRetxAttempts : Z := 8.
Definition QuickACKBudget : Z := 32.

Inductive ConnState :=
| StateClosed | StateListen | StateSynSent | StateSynReceived
| StateEstablished | StateFinWait | StateCloseWait | StateTimeWait.
#[export] Instance ConnState_eq_dec : EqDecision ConnState.
Proof. solve_decision. Defined.

Record ConnStats := mkStats {
  BytesSent : Z; BytesRecv : Z; SegsSent : Z; SegsRecv : Z; Retransmits : Z;
  FastRetx : Z; SACKRecv : Z; SACKSent : Z; DupACKs : Z;
}.

(** A sent-but-unacknowledged segment. *)
Record retxEntry := mkRetx {
  data : bytes; seq : Z; sentAt : gotime; origSentAt : gotime;
  attempts : Z; sacked : bool; isFIN : bool;
}.

(** An out-of-order segment waiting for reassembly. *)
Record recvSegment := mkSeg { segSeq : Z; segData : bytes }.

(** Guarded by RetxMu, and the two signalling channels. [RetxSend] says whether the
    retransmission callback is set. *)
Record Sender := mkSender {
  Unacked : list retxEntry;
  LastAck : Z;
  DupAckCount : Z;
  RTO : duration;
  SRTT : duration;
  RTTVAR : duration;
  CongWin : Z;
  SSThresh : Z;
  InRecovery : bool;
  FastRecovery : bool;
  RecoveryPoint : Z;
  RetxSend : bool;
  WindowCh : option bool;
  PeerRecvWin : Z;
  NagleCh : option bool;
  LastRetxTime : gotime;
}.
Definition set_Unacked (s : Sender) (v : list retxEntry) : Sender :=
  mkSender v (LastAck s) (DupAckCount s) (RTO s) (SRTT s) (RTTVAR s) (CongWin s) (SSThresh s)
    (InRecovery s) (FastRecovery s) (RecoveryPoint s) (RetxSend s) (WindowCh s) (PeerRecvWin s)
    (NagleCh s) (LastRetxTime s).
Definition set_LastAck (s : Sender) (v : Z) : Sender :=
  mkSender (Unacked s) v (DupAckCount s) (RTO s) (SRTT s) (RTTVAR s) (CongWin s) (SSThresh s)
    (InRecovery s) (FastRecovery s) (RecoveryPoint s) (RetxSend s) (WindowCh s) (PeerRecvWin s)
    (NagleCh s) (LastRetxTime s).
Definition set_DupAckCount (s : Sender) (v : Z) : Sender :=
  mkSender (Unacked s) (LastAck s) v (RTO s) (SRTT s) (RTTVAR s) (CongWin s) (SSThresh s)
    (InRecovery s) (FastRecovery s) (RecoveryPoint s) (RetxSend s) (WindowCh s) (PeerRecvWin s)
    (NagleCh s) (LastRetxTime s).
Definition set_RTO (s : Sender) (v : duration) : Sender :=
  mkSender (Unacked s) (LastAck s) (DupAckCount s) v (SRTT s) (RTTVAR s) (CongWin s)
    (SSThresh s) (InRecovery s) (FastRecovery s) (RecoveryPoint s) (RetxSend s) (WindowCh s)
    (PeerRecvWin s) (NagleCh s) (LastRetxTime s).
Definition set_SRTT (s : Sender) (v : duration) : Sender :=
  mkSender (Unacked s) (LastAck s) (DupAckCount s) (RTO s) v (RTTVAR s) (CongWin s) (SSThresh s)
    (InRecovery s) (FastRecovery s) (RecoveryPoint s) (RetxSend s) (WindowCh s) (PeerRecvWin s)
    (NagleCh s) (LastRetxTime s).
Definition set_RTTVAR (s : Sender) (v : duration) : Sender :=
  mkSender (Unacked s) (LastAck s) (DupAckCount s) (RTO s) (SRTT s) v (CongWin s) (SSThresh s)
    (InRecovery s) (FastRecovery s) (RecoveryPoint s) (RetxSend s) (WindowCh s) (PeerRecvWin s)
    (NagleCh s) (LastRetxTime s).
Definition set_CongWin (s : Sender) (v : Z) : Sender :=
  mkSender (Unacked s) (LastAck s) (DupAckCount s) (RTO s) (SRTT s) (RTTVAR s) v (SSThresh s)
    (InRecovery s) (FastRecovery s) (RecoveryPoint s) (RetxSend s) (WindowCh s) (PeerRecvWin s)
    (NagleCh s) (LastRetxTime s).
Definition set_SSThresh (s : Sender) (v : Z) : Sender :=
  mkSender (Unacked s) (LastAck s) (DupAckCount s) (RTO s) (SRTT s) (RTTVAR s) (CongWin s) v
    (InRecovery s) (FastRecovery s) (RecoveryPoint s) (RetxSend s) (WindowCh s) (PeerRecvWin s)
    (NagleCh s) (LastRetxTime s).
Definition set_InRecovery (s : Sender) (v : bool) : Sender :=
  mkSender (Unacked s) (LastAck s) (DupAckCount s) (RTO s) (SRTT s) (RTTVAR s) (CongWin s)
    (SSThresh s) v (FastRecovery s) (RecoveryPoint s) (RetxSend s) (WindowCh s) (PeerRecvWin s)
    (NagleCh s) (LastRetxTime s).
Definition set_FastRecovery (s : Sender) (v : bool) : Sender :=
  mkSender (Unacked s) (LastAck s) (DupAckCount s) (RTO s) (SRTT s) (RTTVAR s) (CongWin s)
    (SSThresh s) (InRecovery s) v (RecoveryPoint s) (RetxSend s) (WindowCh s) (PeerRecvWin s)
    (NagleCh s) (LastRetxTime s).
Definition set_RecoveryPoint (s : Sender) (v : Z) : Sender :=
  mkSender (Unacked s) (LastAck s) (DupAckCount s) (RTO s) (SRTT s) (RTTVAR s) (CongWin s)
    (SSThresh s) (InRecovery s) (FastRecovery s) v (RetxSend s) (WindowCh s) (PeerRecvWin s)
    (NagleCh s) (LastRetxTime s).
Definition set_WindowCh (s : Sender) (v : option bool) : Sender :=
  mkSender (Unacked s) (LastAck s) (DupAckCount s) (RTO s) (SRTT s) (RTTVAR s) (CongWin s)
    (SSThresh s) (InRecovery s) (FastRecovery s) (RecoveryPoint s) (RetxSend s) v
    (PeerRecvWin s) (NagleCh s) (LastRetxTime s).
Definition set_PeerRecvWin (s : Sender) (v : Z) : Sender :=
  mkSender (Unacked s) (LastAck s) (DupAckCount s) (RTO s) (SRTT s) (RTTVAR s) (CongWin s)
    (SSThresh s) (InRecovery s) (FastRecovery s) (RecoveryPoint s) (RetxSend s) (WindowCh s) v
    (NagleCh s) (LastRetxTime s).
Definition set_NagleCh (s : Sender) (v : option bool) : Sender :=
  mkSender (Unacked s) (LastAck s) (DupAckCount s) (RTO s) (SRTT s) (RTTVAR s) (CongWin s)
    (SSThresh s) (InRecovery s) (FastRecovery s) (RecoveryPoint s) (RetxSend s) (WindowCh s)
    (PeerRecvWin s) v (LastRetxTime s).
Definition set_LastRetxTime (s : Sender) (v : gotime) : Sender :=
  mkSender (Unacked s) (LastAck s) (DupAckCount s) (RTO s) (SRTT s) (RTTVAR s) (CongWin s)
    (SSThresh s) (InRecovery s) (FastRecovery s) (RecoveryPoint s) (RetxSend s) (WindowCh s)
    (PeerRecvWin s) (NagleCh s) v.

(** Guarded by RecvMu. [RecvBuf] is the channel's contents, oldest first, and
    [delivered] what was received from it before. *)
Record Receiver := mkReceiver {
  ExpectedSeq : Z;
  OOOBuf : list recvSegment;
  RecvBuf : list bytes;
  delivered : list bytes;
  RecvClosed : bool;
  finPending : bool;
  finSeq : Z;
  finHeard : gotime;
}.
Definition set_ExpectedSeq (r : Receiver) (v : Z) : Receiver :=
  mkReceiver v (OOOBuf r) (RecvBuf r) (delivered r) (RecvClosed r) (finPending r) (finSeq r)
    (finHeard r).
Definition set_OOOBuf (r : Receiver) (v : list recvSegment) : Receiver :=
  mkReceiver (ExpectedSeq r) v (RecvBuf r) (delivered r) (RecvClosed r) (finPending r)
    (finSeq r) (finHeard r).
Definition set_RecvBuf (r : Receiver) (v : list bytes) : Receiver :=
  mkReceiver (ExpectedSeq r) (OOOBuf r) v (delivered r) (RecvClosed r) (finPending r) (finSeq r)
    (finHeard r).
Definition set_RecvClosed (r : Receiver) (v : bool) : Receiver :=
  mkReceiver (ExpectedSeq r) (OOOBuf r) (RecvBuf r) (delivered r) v (finPending r) (finSeq r)
    (finHeard r).

(** The held FIN of the peer. *)
Definition set_fin (r : Receiver) (pending : bool) (sq : Z) (heard : gotime) : Receiver :=
  mkReceiver (ExpectedSeq r) (OOOBuf r) (RecvBuf r) (delivered r) (RecvClosed r) pending sq heard.

(** Guarded by AckMu. *)
Record AckState := mkAckState {
  PendingACKs : Z;
  ACKTimer : bool;
  QuickACKs : Z;
}.

(** [RetxStop] says whether the stop channel is closed. The linger timer of
    [heldFIN] is armed exactly while [heldFIN] is set, and the hold timer of
    the receiver exactly while [finPending] is: the source sets and clears each
    pair together, so the timers have no fields of their own. *)
Record Connection := mkConn {
  ID : Z;
  LocalAddr : Addr;
  LocalPort : Z;
  RemoteAddr : Addr;
  RemotePort : Z;
  State : ConnState;
  LastActivity : gotime;
  heldFIN : option Packet;
  SendSeq : Z;
  RecvAck : Z;
  SynAckSeq : Z;
  SynAckSeqSet : bool;
  RetxStop : bool;
  NagleBuf : bytes;
  tailFlusher : bool;
  DialCh : option bool;
  NoDelay : bool;
  KeepaliveUnacked : Z;
  Stats : ConnStats;
  tx : Sender;
  rx : Receiver;
  acks : AckState;
}.
Definition set_LocalAddr (c : Connection) (v : Addr) : Connection :=
  mkConn (ID c) v (LocalPort c) (RemoteAddr c) (RemotePort c) (State c) (LastActivity c)
    (heldFIN c) (SendSeq c) (RecvAck c) (SynAckSeq c) (SynAckSeqSet c) (RetxStop c) (NagleBuf c)
    (tailFlusher c) (DialCh c) (NoDelay c) (KeepaliveUnacked c) (Stats c) (tx c) (rx c) (acks c).
Definition set_State (c : Connection) (v : ConnState) : Connection :=
  mkConn (ID c) (LocalAddr c) (LocalPort c) (RemoteAddr c) (RemotePort c) v (LastActivity c)
    (heldFIN c) (SendSeq c) (RecvAck c) (SynAckSeq c) (SynAckSeqSet c) (RetxStop c) (NagleBuf c)
    (tailFlusher c) (DialCh c) (NoDelay c) (KeepaliveUnacked c) (Stats c) (tx c) (rx c) (acks c).
Definition set_LastActivity (c : Connection) (v : gotime) : Connection :=
  mkConn (ID c) (LocalAddr c) (LocalPort c) (RemoteAddr c) (RemotePort c) (State c) v
    (heldFIN c) (SendSeq c) (RecvAck c) (SynAckSeq c) (SynAckSeqSet c) (RetxStop c) (NagleBuf c)
    (tailFlusher c) (DialCh c) (NoDelay c) (KeepaliveUnacked c) (Stats c) (tx c) (rx c) (acks c).
Definition set_heldFIN (c : Connection) (v : option Packet) : Connection :=
  mkConn (ID c) (LocalAddr c) (LocalPort c) (RemoteAddr c) (RemotePort c) (State c)
    (LastActivity c) v (SendSeq c) (RecvAck c) (SynAckSeq c) (SynAckSeqSet c) (RetxStop c)
    (NagleBuf c) (tailFlusher c) (DialCh c) (NoDelay c) (KeepaliveUnacked c) (Stats c) (tx c)
    (rx c) (acks c).
Definition set_SendSeq (c : Connection) (v : Z) : Connection :=
  mkConn (ID c) (LocalAddr c) (LocalPort c) (RemoteAddr c) (RemotePort c) (State c)
    (LastActivity c) (heldFIN c) v (RecvAck c) (SynAckSeq c) (SynAckSeqSet c) (RetxStop c)
    (NagleBuf c) (tailFlusher c) (DialCh c) (NoDelay c) (KeepaliveUnacked c) (Stats c) (tx c)
    (rx c) (acks c).
Definition set_RecvAck (c : Connection) (v : Z) : Connection :=
  mkConn (ID c) (LocalAddr c) (LocalPort c) (RemoteAddr c) (RemotePort c) (State c)
    (LastActivity c) (heldFIN c) (SendSeq c) v (SynAckSeq c) (SynAckSeqSet c) (RetxStop c)
    (NagleBuf c) (tailFlusher c) (DialCh c) (NoDelay c) (KeepaliveUnacked c) (Stats c) (tx c)
    (rx c) (acks c).
Definition set_RetxStop (c : Connection) (v : bool) : Connection :=
  mkConn (ID c) (LocalAddr c) (LocalPort c) (RemoteAddr c) (RemotePort c) (State c)
    (LastActivity c) (heldFIN c) (SendSeq c) (RecvAck c) (SynAckSeq c) (SynAckSeqSet c) v
    (NagleBuf c) (tailFlusher c) (DialCh c) (NoDelay c) (KeepaliveUnacked c) (Stats c) (tx c)
    (rx c) (acks c).
Definition set_NagleBuf (c : Connection) (v : bytes) : Connection :=
  mkConn (ID c) (LocalAddr c) (LocalPort c) (RemoteAddr c) (RemotePort c) (State c)
    (LastActivity c) (heldFIN c) (SendSeq c) (RecvAck c) (SynAckSeq c) (SynAckSeqSet c)
    (RetxStop c) v (tailFlusher c) (DialCh c) (NoDelay c) (KeepaliveUnacked c) (Stats c) (tx c)
    (rx c) (acks c).
Definition set_tailFlusher (c : Connection) (v : bool) : Connection :=
  mkConn (ID c) (LocalAddr c) (LocalPort c) (RemoteAddr c) (RemotePort c) (State c)
    (LastActivity c) (heldFIN c) (SendSeq c) (RecvAck c) (SynAckSeq c) (SynAckSeqSet c)
    (RetxStop c) (NagleBuf c) v (DialCh c) (NoDelay c) (KeepaliveUnacked c) (Stats c) (tx c)
    (rx c) (acks c).
Definition set_DialCh (c : Connection) (v : option bool) : Connection :=
  mkConn (ID c) (LocalAddr c) (LocalPort c) (RemoteAddr c) (RemotePort c) (State c)
    (LastActivity c) (heldFIN c) (SendSeq c) (RecvAck c) (SynAckSeq c) (SynAckSeqSet c)
    (RetxStop c) (NagleBuf c) (tailFlusher c) v (NoDelay c) (KeepaliveUnacked c) (Stats c)
    (tx c) (rx c) (acks c).
Definition set_KeepaliveUnacked (c : Connection) (v : Z) : Connection :=
  mkConn (ID c) (LocalAddr c) (LocalPort c) (RemoteAddr c) (RemotePort c) (State c)
    (LastActivity c) (heldFIN c) (SendSeq c) (RecvAck c) (SynAckSeq c) (SynAckSeqSet c)
    (RetxStop c) (NagleBuf c) (tailFlusher c) (DialCh c) (NoDelay c) v (Stats c) (tx c) (rx c)
    (acks c).
Definition set_Stats (c : Connection) (v : ConnStats) : Connection :=
  mkConn (ID c) (LocalAddr c) (LocalPort c) (RemoteAddr c) (RemotePort c) (State c)
    (LastActivity c) (heldFIN c) (SendSeq c) (RecvAck c) (SynAckSeq c) (SynAckSeqSet c)
    (RetxStop c) (NagleBuf c) (tailFlusher c) (DialCh c) (NoDelay c) (KeepaliveUnacked c) v
    (tx c) (rx c) (acks c).
Definition set_tx (c : Connection) (v : Sender) : Connection :=
  mkConn (ID c) (LocalAddr c) (LocalPort c) (RemoteAddr c) (RemotePort c) (State c)
    (LastActivity c) (heldFIN c) (SendSeq c) (RecvAck c) (SynAckSeq c) (SynAckSeqSet c)
    (RetxStop c) (NagleBuf c) (tailFlusher c) (DialCh c) (NoDelay c) (KeepaliveUnacked c)
    (Stats c) v (rx c) (acks c).
Definition set_rx (c : Connection) (v : Receiver) : Connection :=
  mkConn (ID c) (LocalAddr c) (LocalPort c) (RemoteAddr c) (RemotePort c) (State c)
    (LastActivity c) (heldFIN c) (SendSeq c) (RecvAck c) (SynAckSeq c) (SynAckSeqSet c)
    (RetxStop c) (NagleBuf c) (tailFlusher c) (DialCh c) (NoDelay c) (KeepaliveUnacked c)
    (Stats c) (tx c) v (acks c).
Definition set_acks (c : Connection) (v : AckState) : Connection :=
  mkConn (ID c) (LocalAddr c) (LocalPort c) (RemoteAddr c) (RemotePort c) (State c)
    (LastActivity c) (heldFIN c) (SendSeq c) (RecvAck c) (SynAckSeq c) (SynAckSeqSet c)
    (RetxStop c) (NagleBuf c) (tailFlusher c) (DialCh c) (NoDelay c) (KeepaliveUnacked c)
    (Stats c) (tx c) (rx c) v.
Definition set_SynAck (c : Connection) (sq : Z) : Connection :=
  mkConn (ID c) (LocalAddr c) (LocalPort c) (RemoteAddr c) (RemotePort c) (State c)
    (LastActivity c) (heldFIN c) (SendSeq c) (RecvAck c) sq true (RetxStop c) (NagleBuf c)
    (tailFlusher c) (DialCh c) (NoDelay c) (KeepaliveUnacked c) (Stats c) (tx c) (rx c) (acks c).

(** A non-blocking send on a capacity-one channel. *)
Definition signal (ch : option bool) : option bool :=
  match ch with Some _ => Some true | None => None end.

(** [st != StateClosed && st != StateTimeWait] *)
Definition active (st : ConnState) : bool :=
  negb (bool_decide (st = StateClosed)) && negb (bool_decide (st = StateTimeWait)).

(** [RecvWindow]: free slots of [RecvBuf], which has capacity [RecvBufSize]. *)
Definition RecvWindow (c : Connection) : Z :=
  let free := RecvBufSize - Z.of_nat (length (RecvBuf (rx c))) in
  let free := if free <? 0 then 0 else free in
  if 65535 <? free then 65535 else u16 free.

(** The connection [NewConnection] builds, with both signalling channels made
    and the receive buffer empty. *)
Definition newConn (id localPort : Z) (remoteAddr : Addr) (remotePort : Z) (now : gotime)
  : Connection :=
  mkConn id (mkAddr 0 0) localPort remoteAddr remotePort StateClosed now None 0 0 0 false false
    [] false (Some false) false 0 (mkStats 0 0 0 0 0 0 0 0 0)
    (mkSender [] 0 0 0 0 0 InitialCongWin (MaxCongWin / 2) false false 0 false
       (Some false) (-1) (Some false) zero_time)
    (mkReceiver 0 [] [] [] false false 0 zero_time)
    (mkAckState 0 false QuickACKBudget).
