(* ===== verification/Sender.v ===== *)
(** * Reliable sending (pkg/daemon/ports.go: [BytesInFlight] to [updateRTT],
    [ProcessSACK]; pkg/daemon/daemon.go: [transmitSegment], [sendFIN],
    [unackedHasData], [retransmitUnacked])

    The sliding window, ACK processing with NewReno fast recovery, the RTT
    estimator and the retransmission timeout.  Each function takes the clock
    reading it uses ([now]) and returns the packets it hands to the network.
    [time.Duration] arithmetic is kept at 64 bits ([i64]); Go's integer
    division truncates ([Z.quot]). *)
From S2P Require Import Prelude SeqNum Sack Protocol Conn.
Open Scope Z_scope.

Definition with_entry (e : retxEntry) (sent : gotime) (att : Z) (sack : bool) : retxEntry :=
  mkRetx (data e) (seq e) sent (origSentAt e) att sack (isFIN e).

Section Sender.
Context {P : Protocol}.
Implicit Types (s : Sender) (c : Connection) (e : retxEntry).

Definition sum_len (l : list retxEntry) : Z := fold_right (λ e n, blen (data e) + n) 0 l.

Definition BytesInFlight s : Z := sum_len (List.filter (λ e, negb (sacked e)) (Unacked s)).

Definition nagleHoldsTail s : bool :=
  existsb (λ e, negb (sacked e || isFIN e || (blen (data e) =? 0)) &&
                (blen (data e) <? SendSegmentSize)) (Unacked s).

Definition EffectiveWindow s : Z :=
  let win := CongWin s in
  let win := if win <=? 0 then InitialCongWin else win in
  if (0 <=? PeerRecvWin s) && (PeerRecvWin s <? win) then PeerRecvWin s else win.

Definition nUnacked s : Z := Z.of_nat (length (Unacked s)).

Definition WindowAvailable s : bool :=
  let b := sum_len (List.filter (λ e, negb (sacked e) || FastRecovery s) (Unacked s)) in
  if EffectiveWindow s <=? b then false
  else if (0 <=? PeerRecvWin s) && (Z.quot (PeerRecvWin s) SendSegmentSize <=? nUnacked s)
  then false
  else nUnacked s <? MaxSegmentsOutstanding.

Definition TrackSend s (now : gotime) (sq : Z) (d : bytes) : Sender :=
  set_Unacked s (Unacked s ++ [mkRetx d sq now now 1 false false]).

(** [e.seq + uint32(len(e.data))] *)
Definition endSeq e : Z := u32 (seq e + u32 (blen (data e))).

(** [seqAfterOrEqual(ack, endSeq)]: [ack] acknowledges all of [e]. *)
Definition acked (ack : Z) e : bool := seqAfterOrEqual ack (endSeq e).

Definition updateRTT s (rtt : duration) : Sender :=
  let '(srtt, rttvar) :=
    if SRTT s =? 0 then (rtt, Z.quot rtt 2)
    else
      let diff := i64 (SRTT s - rtt) in
      let diff := if diff <? 0 then i64 (- diff) else diff in
      (i64 (Z.quot (i64 (SRTT s * 7)) 8 + Z.quot rtt 8),
       i64 (Z.quot (i64 (RTTVAR s * 3)) 4 + Z.quot diff 4)) in
  let kvar := i64 (rttvar * 4) in
  let kvar := if kvar <? ClockGranularity then ClockGranularity else kvar in
  let rto := i64 (srtt + kvar) in
  let rto := if rto <? RTOMin then RTOMin else rto in
  let rto := if RTOMax <? rto then RTOMax else rto in
  set_RTO (set_RTTVAR (set_SRTT s srtt) rttvar) rto.

(** The packet that resends [e]. *)
Definition retxPacket c e (ack window : Z) : Packet :=
  mkPacket Version (if isFIN e then FlagFIN else FlagACK) ProtoStream
    (LocalAddr c) (RemoteAddr c) (LocalPort c) (RemotePort c)
    (seq e) ack window (if isFIN e then [] else data e).

(** The loop of [fastRetransmit]: resend the first entry that is not SACKed. *)
Fixpoint resend_first (now : gotime) (l : list retxEntry) : option retxEntry * list retxEntry :=
  match l with
  | [] => (None, [])
  | e :: l =>
      if sacked e then let '(r, l') := resend_first now l in (r, e :: l')
      else if MaxRetxAttempts <=? attempts e then (None, e :: l)
      else let e' := with_entry e now (attempts e + 1) (sacked e) in (Some e', e' :: l)
  end.

(** Gives the packet sent, if any. [c] supplies addresses and receive window. *)
Definition fastRetransmit c s (now : gotime) (recvAck : Z) : option Packet * Sender :=
  match Unacked s with
  | [] => (None, s)
  | _ =>
      if negb (RetxSend s) then (None, s)
      else
        let '(r, l) := resend_first now (Unacked s) in
        ((λ e, retxPacket c e recvAck (RecvWindow c)) <$> r, set_Unacked s l)
  end.

(** [c.WindowCh <- struct{}{}] when the window is open. *)
Definition signalIfAvailable s : Sender :=
  if WindowAvailable s then set_WindowCh s (signal (WindowCh s)) else s.

(** One duplicate ACK's worth of window inflation. *)
Definition inflate s : Sender :=
  let w := CongWin s + SendSegmentSize in
  signalIfAvailable (set_CongWin s (if MaxCongWin <? w then MaxCongWin else w)).

Definition halved (l : list retxEntry) : Z :=
  let th := Z.quot (sum_len l) 2 in
  if th <? 2 * MaxSegmentSize then 2 * MaxSegmentSize else th.

(** [ProcessAck] on [ack == c.LastAck]: the new sender, the packet sent, and
    the increments of the DupACKs and FastRetx counters. *)
Definition dupAck c s (now : gotime) (recvAck sendSeq : Z) (pureACK : bool)
  : Sender * option Packet * Z * Z :=
  if negb pureACK then (s, None, 0, 0)
  else if BytesInFlight s =? 0 then (s, None, 0, 0)
  else
    let s := set_DupAckCount s (DupAckCount s + 1) in
    let some := 0 <? nUnacked s in
    if (DupAckCount s <? 3) && InRecovery s && FastRecovery s && some then
      (inflate s, None, 1, 0)
    else if (DupAckCount s =? 3) && some then
      match fastRetransmit c s now recvAck with
      | (None, s) => (s, None, 1, 0)
      | (Some pkt, s) =>
          if negb (InRecovery s) || seqAfter sendSeq (RecoveryPoint s) then
            let s := set_SSThresh s (halved (Unacked s)) in
            let s := set_InRecovery s true in
            let s := set_RecoveryPoint s sendSeq in
            let s := set_FastRecovery s true in
            let s := set_CongWin s (SSThresh s + 3 * SendSegmentSize) in
            (signalIfAvailable s, Some pkt, 1, 1)
          else if InRecovery s && FastRecovery s then (inflate s, Some pkt, 1, 1)
          else (s, Some pkt, 1, 1)
      end
    else if (3 <? DupAckCount s) && InRecovery s && some then
      if negb (FastRecovery s) then (s, None, 1, 0) else (inflate s, None, 1, 0)
    else (s, None, 1, 0).

(** Bytes newly acknowledged by [ack]: not SACKed before, not a FIN. *)
Definition bytesAcked s (ack : Z) : Z :=
  sum_len (List.filter (λ e, acked ack e && negb (sacked e) && negb (isFIN e)) (Unacked s)).

(** At most one RTT sample per ACK, and none if a resent entry is covered. *)
Definition sampleRTT s (now : gotime) (ack : Z) : Sender :=
  if existsb (λ e, (1 <? attempts e) && acked ack e) (Unacked s) then s
  else
    match List.find (λ e, acked ack e && (attempts e =? 1)) (Unacked s) with
    | None => s
    | Some e =>
        let anchor := if IsZero (origSentAt e) then sentAt e else origSentAt e in
        updateRTT s (time_sub now anchor)
    end.

Definition growWindow s (acked : Z) : Sender :=
  let w :=
    if CongWin s <? SSThresh s then
      CongWin s + (if 2 * MaxSegmentSize <? acked then 2 * MaxSegmentSize else acked)
    else
      let eff := if MaxSegmentSize <? acked then MaxSegmentSize else acked in
      let inc := Z.quot (MaxSegmentSize * eff) (CongWin s) in
      CongWin s + (if inc <? 1 then 1 else inc) in
  set_CongWin s (if MaxCongWin <? w then MaxCongWin else w).

(** [ProcessAck] on an ACK past [LastAck]. *)
Definition newAck c s (now : gotime) (ack recvAck : Z) : Sender * option Packet :=
  let acks := bytesAcked s ack in
  let s := set_LastRetxTime (set_DupAckCount (set_LastAck s ack) 0) zero_time in
  let wasInRecovery := InRecovery s in
  let wasFastRecovery := FastRecovery s in
  let s := if InRecovery s && seqAfterOrEqual ack (RecoveryPoint s)
           then set_FastRecovery (set_InRecovery s false) false else s in
  let s := sampleRTT s now ack in
  let s := set_Unacked s (List.filter (λ e, negb (acked ack e)) (Unacked s)) in
  let s := set_Unacked s (map (λ e, if sacked e then e
                                    else with_entry e now (attempts e) (sacked e)) (Unacked s)) in
  let '(pkt, s) :=
    if wasFastRecovery && wasInRecovery then
      if negb (InRecovery s) then (None, set_CongWin s (SSThresh s))
      else
        let w := CongWin s - acks in
        let w := if SendSegmentSize <=? acks then w + SendSegmentSize else w in
        let w := if w <? SSThresh s then SSThresh s else w in
        fastRetransmit c (set_CongWin s w) now recvAck
    else if wasInRecovery && InRecovery s then fastRetransmit c s now recvAck
    else (None, s) in
  let s := if (0 <? acks) && negb (wasFastRecovery && wasInRecovery && InRecovery s)
           then growWindow s acks else s in
  let s := set_WindowCh s (signal (WindowCh s)) in
  let s := if nagleHoldsTail s then s else set_NagleCh s (signal (NagleCh s)) in
  (s, pkt).

Definition add_dups c (dups fast : Z) : Connection :=
  let t := Stats c in
  set_Stats c (mkStats (BytesSent t) (BytesRecv t) (SegsSent t) (SegsRecv t) (Retransmits t)
    (u64 (FastRetx t + fast)) (SACKRecv t) (SACKSent t) (u64 (DupACKs t + dups))).

Definition ProcessAck c (now : gotime) (ack : Z) (pureACK : bool) : Connection * option Packet :=
  let recvAck := RecvAck c in
  let sendSeq := SendSeq c in
  let s := tx c in
  if seqAfter (LastAck s) ack then (c, None)
  else if ack =? LastAck s then
    let '(s, pkt, dups, fast) := dupAck c s now recvAck sendSeq pureACK in
    (add_dups (set_tx c s) dups fast, pkt)
  else
    let '(s, pkt) := newAck c s now ack recvAck in (set_tx c s, pkt).

Definition overlaps e (b : SACKBlock) : bool :=
  negb (seqAfterOrEqual (seq e) (Right b)) && negb (seqAfterOrEqual (Left b) (endSeq e)).

Definition ProcessSACK c (blocks : list SACKBlock) : Connection :=
  let s := tx c in
  let s := set_Unacked s (map (λ e, if existsb (overlaps e) blocks
                                    then with_entry e (sentAt e) (attempts e) true else e)
                              (Unacked s)) in
  let s := signalIfAvailable s in
  let s := if nagleHoldsTail s then s else set_NagleCh s (signal (NagleCh s)) in
  let t := Stats c in
  set_Stats (set_tx c s)
    (mkStats (BytesSent t) (BytesRecv t) (SegsSent t) (SegsRecv t) (Retransmits t) (FastRetx t)
       (u64 (SACKRecv t + Z.of_nat (length blocks))) (SACKSent t) (DupACKs t)).

(** ** Sending (daemon.go) *)

Definition unackedHasData s : bool := existsb (λ e, negb (isFIN e)) (Unacked s).

(** [sendOK] is the tunnel's verdict. The segment is tracked before it is sent. *)
Definition transmitSegment c (now : gotime) (d : bytes) (sendOK : bool) : Connection * Packet * bool :=
  let sq := SendSeq c in
  let c := set_SendSeq c (u32 (SendSeq c + u32 (blen d))) in
  let pkt := mkPacket Version FlagACK ProtoStream (LocalAddr c) (RemoteAddr c) (LocalPort c)
               (RemotePort c) sq (RecvAck c) (RecvWindow c) d in
  let c := set_tx c (TrackSend (tx c) now sq d) in
  if negb sendOK then (c, pkt, false)
  else
    let t := Stats c in
    let c := set_LastActivity c now in
    let c := set_Stats c (mkStats (u64 (BytesSent t + blen d)) (BytesRecv t) (u64 (SegsSent t + 1))
               (SegsRecv t) (Retransmits t) (FastRetx t) (SACKRecv t) (SACKSent t) (DupACKs t)) in
    (set_acks c (mkAckState 0 false (QuickACKs (acks c))), pkt, true).

Definition sendFIN c (now : gotime) (fin : Packet) : Connection * Packet :=
  (set_tx c (set_Unacked (tx c) (Unacked (tx c) ++ [mkRetx [0] (Seq fin) now now 1 false true])), fin).

(** [startRetxLoop], less the goroutine it starts. *)
Definition startRetxLoop c : Connection :=
  let s := tx c in
  set_tx c (mkSender (Unacked s) (LastAck s) (DupAckCount s) InitialRTO (SRTT s) (RTTVAR s)
    (CongWin s) (SSThresh s) (InRecovery s) (FastRecovery s) (RecoveryPoint s) true (WindowCh s)
    (PeerRecvWin s) (NagleCh s) (LastRetxTime s)).

Definition rstPacket c : Packet :=
  mkPacket Version FlagRST ProtoStream (LocalAddr c) (RemoteAddr c) (LocalPort c) (RemotePort c)
    0 0 0 [].

(** Unless the receiver really holds the head, forget the SACK marks. *)
Definition renege s (now : gotime) : Sender :=
  match Unacked s with
  | first :: _ =>
      if sacked first && (RTO s <? time_sub now (sentAt first))
      then set_Unacked s (map (λ e, with_entry e (sentAt e) (attempts e) false) (Unacked s))
      else s
  | [] => s
  end.

Definition timedOut s (now : gotime) e : bool :=
  negb (sacked e) && (RTO s <? time_sub now (sentAt e)).

Definition capRTO (d : duration) : duration := if 10 * Second <? d then 10 * Second else d.

(** The first timed-out entry, resent at [now]. *)
Fixpoint bump_first (f : retxEntry → bool) (now : gotime) (l : list retxEntry) : list retxEntry :=
  match l with
  | [] => []
  | e :: l => if f e then with_entry e now (attempts e + 1) (sacked e) :: l
              else e :: bump_first f now l
  end.

(** [rnd n] is [rand.Int63n(n)]. *)
Definition retransmitUnacked c (now : gotime) (rnd : Z → Z) : Connection * option Packet :=
  let s := tx c in
  match Unacked s with
  | [] => (c, None)
  | _ =>
      if negb (IsZero (LastRetxTime s)) && (time_sub now (LastRetxTime s) <? RTO s) then (c, None)
      else
        let s := renege s now in
        match List.find (timedOut s now) (Unacked s) with
        | None => (set_tx c s, None)
        | Some e =>
            if MaxRetxAttempts <=? attempts e then
              (set_State (set_tx c s) StateClosed,
               if RetxSend s then Some (rstPacket c) else None)
            else
              let l := bump_first (timedOut s now) now (Unacked s) in
              let s := set_SSThresh s (halved (Unacked s)) in
              let s := set_RecoveryPoint (set_InRecovery s true) (SendSeq c) in
              let s := set_CongWin s MaxSegmentSize in
              let rto := capRTO (i64 (RTO s * 2)) in
              let rto := capRTO (i64 (rto + rnd (Z.quot rto 4))) in
              let s := set_Unacked (set_RTO s rto) l in
              let s := set_LastRetxTime (set_FastRecovery (set_DupAckCount s 0) false) now in
              let t := Stats c in
              let c' := set_Stats (set_tx c s)
                (mkStats (BytesSent t) (BytesRecv t) (SegsSent t) (SegsRecv t)
                   (u64 (Retransmits t + 1)) (FastRetx t) (SACKRecv t) (SACKSent t) (DupACKs t)) in
              let pkt := if isFIN e then retxPacket c e 0 0
                         else retxPacket c e (RecvAck c) (RecvWindow c) in
              (c', if RetxSend s then Some pkt else None)
        end
  end.
End Sender.
