(* ===== verification/SenderProofs.v ===== *)
(** * Theorems on reliable sending (model in Sender) *)
From S2P Require Import Prelude SeqNum Sack Protocol Conn Sender.
Open Scope Z_scope.

Section Proofs.
Context {P : Protocol}.
Implicit Types (s : Sender) (c : Connection) (e : retxEntry).

(** What of an entry goes on the wire or says where it stands, timers aside. *)
Definition core e : Z * bytes * bool * bool := (seq e, data e, isFIN e, sacked e).

Lemma core_with_entry e t a : core (with_entry e t a (sacked e)) = core e.
Proof. done. Qed.

Lemma resend_first_core now l : map core (snd (resend_first now l)) = map core l.
Proof.
  induction l as [|e l IH]; [done|]. cbn [resend_first].
  destruct (sacked e) eqn:Es;
    [|destruct (_ <=? _); [done|]; cbn [snd map]; unfold core at 1; simpl; by rewrite <- Es].
  destruct (resend_first now l). cbn [snd map] in *. congruence.
Qed.

(** ** What [fastRetransmit] and the window signals leave alone *)

Record resent s s' : Prop := {
  rs_unacked : map core (Unacked s') = map core (Unacked s);
  rs_lastack : LastAck s' = LastAck s;
  rs_dup : DupAckCount s' = DupAckCount s;
  rs_rtt : (RTO s', SRTT s', RTTVAR s') = (RTO s, SRTT s, RTTVAR s);
  rs_win : CongWin s' = CongWin s;
  rs_ss : SSThresh s' = SSThresh s;
  rs_rec : InRecovery s' = InRecovery s;
  rs_fast : FastRecovery s' = FastRecovery s;
  rs_point : RecoveryPoint s' = RecoveryPoint s;
}.

Lemma resent_refl s : resent s s.
Proof. by split. Qed.

Lemma fastRetransmit_resent c s now ra : resent s (snd (fastRetransmit c s now ra)).
Proof.
  unfold fastRetransmit. destruct (Unacked s) as [|e l] eqn:E; [apply resent_refl|].
  case_zif; [apply resent_refl|]. rewrite <- E.
  pose proof (resend_first_core now (Unacked s)) as Hc.
  destruct (resend_first now (Unacked s)) as [r l']. by split.
Qed.

Lemma signalIfAvailable_resent s : resent s (signalIfAvailable s).
Proof. unfold signalIfAvailable. by case_match. Qed.

Lemma inflate_spec s :
  CongWin (inflate s) = Z.min (CongWin s + SendSegmentSize) MaxCongWin ∧
  resent (set_CongWin s (CongWin (inflate s))) (inflate s).
Proof.
  unfold inflate. set (w := if MaxCongWin <? _ then _ else _).
  destruct (signalIfAvailable_resent (set_CongWin s w)) as [? ? ? ? Hw ? ? ? ?].
  rewrite Hw. simpl. split; [unfold w; case_zif; lia|]. by split.
Qed.

(** ** Cumulative acknowledgement *)

Lemma sampleRTT_frame s now ack :
  let s' := sampleRTT s now ack in
  Unacked s' = Unacked s ∧ LastAck s' = LastAck s ∧ CongWin s' = CongWin s ∧
  SSThresh s' = SSThresh s ∧ InRecovery s' = InRecovery s ∧ FastRecovery s' = FastRecovery s ∧
  RecoveryPoint s' = RecoveryPoint s ∧ DupAckCount s' = DupAckCount s.
Proof.
  unfold sampleRTT. case_match; [done|]. case_match; [|done].
  unfold updateRTT. by case_match.
Qed.

Lemma growWindow_frame s a :
  Unacked (growWindow s a) = Unacked s ∧ LastAck (growWindow s a) = LastAck s ∧
  SSThresh (growWindow s a) = SSThresh s ∧ InRecovery (growWindow s a) = InRecovery s ∧
  FastRecovery (growWindow s a) = FastRecovery s ∧ DupAckCount (growWindow s a) = DupAckCount s ∧
  (RTO (growWindow s a), SRTT (growWindow s a), RTTVAR (growWindow s a)) = (RTO s, SRTT s, RTTVAR s).
Proof. done. Qed.

Lemma restart_core now l :
  map core (map (λ e, if sacked e then e else with_entry e now (attempts e) (sacked e)) l)
  = map core l.
Proof.
  induction l as [|e l IH]; [done|]. cbn [map]. rewrite IH. f_equal.
  destruct (sacked e) eqn:Es; [done|]. rewrite <- Es. apply core_with_entry.
Qed.

Lemma dupAck_resent c s now ra sq pure s' pkt d f :
  dupAck c s now ra sq pure = (s', pkt, d, f) →
  map core (Unacked s') = map core (Unacked s) ∧ LastAck s' = LastAck s ∧
  (RTO s', SRTT s', RTTVAR s') = (RTO s, SRTT s, RTTVAR s).
Proof.
  unfold dupAck. case_zif; [by intros [= <- <- <- <-]|].
  case_zif; [by intros [= <- <- <- <-]|]. cbv zeta.
  set (s1 := set_DupAckCount s _). set (some := 0 <? nUnacked s1).
  assert (∀ s2, resent s1 s2 → map core (Unacked (inflate s2)) = map core (Unacked s) ∧
    LastAck (inflate s2) = LastAck s ∧
    (RTO (inflate s2), SRTT (inflate s2), RTTVAR (inflate s2)) = (RTO s, SRTT s, RTTVAR s)) as Hinf.
  { intros s2 H2. destruct (inflate_spec s2) as [_ Hi].
    rewrite (rs_unacked _ _ Hi), (rs_lastack _ _ Hi), (rs_rtt _ _ Hi). simpl.
    rewrite (rs_unacked _ _ H2), (rs_lastack _ _ H2), (rs_rtt _ _ H2). done. }
  case_zif; [intros [= <- <- <- <-]; by apply Hinf, resent_refl|].
  case_zif.
  - pose proof (fastRetransmit_resent c s1 now ra) as Hr.
    destruct (fastRetransmit c s1 now ra) as [[pk|] s2]; cbn [snd] in Hr.
    + case_zif.
      * intros [= <- <- <- <-].
        match goal with |- context [signalIfAvailable ?x] =>
          pose proof (signalIfAvailable_resent x) as Hs end.
        rewrite (rs_unacked _ _ Hs), (rs_lastack _ _ Hs), (rs_rtt _ _ Hs). simpl.
        rewrite (rs_unacked _ _ Hr), (rs_lastack _ _ Hr), (rs_rtt _ _ Hr). done.
      * case_zif; intros [= <- <- <- <-]; [by apply Hinf|].
        rewrite (rs_unacked _ _ Hr), (rs_lastack _ _ Hr), (rs_rtt _ _ Hr). done.
    + intros [= <- <- <- <-].
      rewrite (rs_unacked _ _ Hr), (rs_lastack _ _ Hr), (rs_rtt _ _ Hr). done.
  - case_zif; [|by intros [= <- <- <- <-]].
    case_zif; intros [= <- <- <- <-]; [done|]. by apply Hinf, resent_refl.
Qed.

Lemma sampleRTT_ext s1 s2 now ack :
  Unacked s1 = Unacked s2 → (RTO s1, SRTT s1, RTTVAR s1) = (RTO s2, SRTT s2, RTTVAR s2) →
  let a := sampleRTT s1 now ack in let b := sampleRTT s2 now ack in
  (RTO a, SRTT a, RTTVAR a) = (RTO b, SRTT b, RTTVAR b).
Proof.
  intros HU [= HR HS HV]. unfold sampleRTT. rewrite HU. case_match; [simpl; congruence|].
  case_match; [|simpl; congruence]. unfold updateRTT. rewrite HS, HV. by case_match.
Qed.

(** The window after the recovery step of an ACK of [a] new bytes. *)
Definition recovery_win s (exit : bool) (a : Z) : Z :=
  if FastRecovery s && InRecovery s then
    if exit then SSThresh s
    else Z.max (SSThresh s) (CongWin s - a + if SendSegmentSize <=? a then SendSegmentSize else 0)
  else CongWin s.

Lemma newAck_spec c s now ack ra s' pkt :
  newAck c s now ack ra = (s', pkt) →
  let exit := InRecovery s && seqAfterOrEqual ack (RecoveryPoint s) in
  let smp := sampleRTT s now ack in
  let a := bytesAcked s ack in
  let s0 := set_CongWin s (recovery_win s exit a) in
  map core (Unacked s') = map core (List.filter (λ e, negb (acked ack e)) (Unacked s)) ∧
  LastAck s' = ack ∧ DupAckCount s' = 0 ∧
  (RTO s', SRTT s', RTTVAR s') = (RTO smp, SRTT smp, RTTVAR smp) ∧
  SSThresh s' = SSThresh s ∧
  InRecovery s' = (if exit then false else InRecovery s) ∧
  FastRecovery s' = (if exit then false else FastRecovery s) ∧
  CongWin s' = (if (0 <? a) && negb (FastRecovery s && InRecovery s && negb exit)
                then CongWin (growWindow s0 a) else CongWin s0).
Proof.
  unfold newAck. cbv zeta. set (a := bytesAcked s ack).
  set (s1 := set_LastRetxTime _ _).
  set (s2 := if InRecovery s1 && _ then _ else s1).
  change (InRecovery s1) with (InRecovery s) in *. change (FastRecovery s1) with (FastRecovery s) in *.
  set (exit := InRecovery s && seqAfterOrEqual ack (RecoveryPoint s)).
  assert (s2 = if exit then set_FastRecovery (set_InRecovery s1 false) false else s1) as Es2 by done.
  clearbody s2.
  set (s3 := set_Unacked _ (map _ _)).
  assert (map core (Unacked s3) = map core (List.filter (λ e, negb (acked ack e)) (Unacked s)) ∧
    LastAck s3 = ack ∧ DupAckCount s3 = 0 ∧ CongWin s3 = CongWin s ∧ SSThresh s3 = SSThresh s ∧
    InRecovery s3 = (if exit then false else InRecovery s) ∧
    FastRecovery s3 = (if exit then false else FastRecovery s) ∧
    (RTO s3, SRTT s3, RTTVAR s3) = (RTO (sampleRTT s now ack), SRTT (sampleRTT s now ack),
      RTTVAR (sampleRTT s now ack))) as (HU & HL & HD & HW & HS & HI & HF & HR).
  { destruct (sampleRTT_frame s2 now ack) as (F1 & F2 & F3 & F4 & F5 & F6 & F7 & F8).
    assert (Unacked s2 = Unacked s ∧ LastAck s2 = ack ∧ DupAckCount s2 = 0 ∧ CongWin s2 = CongWin s ∧
      SSThresh s2 = SSThresh s ∧ (RTO s2, SRTT s2, RTTVAR s2) = (RTO s, SRTT s, RTTVAR s))
      as (E1 & E2 & E3 & E4 & E5 & E6) by (rewrite Es2; by destruct exit).
    unfold s3. cbn [Unacked set_Unacked LastAck DupAckCount CongWin SSThresh InRecovery FastRecovery
      RTO SRTT RTTVAR]. rewrite restart_core, F1, F2, F3, F4, F5, F6, F8, E1, E2, E3, E4, E5.
    split_and!; try done; try (rewrite Es2; by destruct exit).
    by apply sampleRTT_ext. }
  clearbody s3. clear Es2 s2 s1.
  set (ph := if FastRecovery s && InRecovery s then _ else _).
  assert (resent (set_CongWin s3 (recovery_win s exit a)) (snd ph)) as Hph.
  { unfold ph, recovery_win. destruct (FastRecovery s && InRecovery s) eqn:Efr.
    - rewrite HI. destruct exit eqn:Ex; cbn [negb].
      + rewrite HS. apply resent_refl.
      + apply andb_true_iff in Efr as [_ Hir]. rewrite Hir. cbn [negb]. rewrite HS, HW.
        match goal with |- resent _ (snd (fastRetransmit _ (set_CongWin _ ?w) _ _)) =>
          replace (Z.max _ _) with w end; [apply fastRetransmit_resent|].
        repeat case_zif; lia.
    - rewrite <- HW. destruct (InRecovery s && InRecovery s3).
      + pose proof (fastRetransmit_resent c s3 now ra) as []. by split.
      + by split. }
  destruct ph as [pk s4]. cbn [snd] in Hph. intros [= <- <-].
  set (s5 := if (0 <? a) && _ then growWindow s4 a else s4).
  set (s6 := if nagleHoldsTail _ then _ else _).
  assert (resent s5 s6) as H6 by (unfold s6; destruct (nagleHoldsTail _); by split).
  destruct Hph as [P1 P2 P3 P4 P5 P6 P7 P8 P9]. destruct H6 as [Q1 Q2 Q3 Q4 Q5 Q6 Q7 Q8 Q9].
  rewrite Q1, Q2, Q3, Q4, Q5, Q6, Q7, Q8. unfold s5.
  cbn [Unacked set_CongWin LastAck DupAckCount CongWin SSThresh InRecovery FastRecovery
      RTO SRTT RTTVAR] in *.
  assert (FastRecovery s && InRecovery s && InRecovery s4 =
    FastRecovery s && InRecovery s && negb exit) as ->.
  { rewrite P7, HI. destruct exit, (FastRecovery s), (InRecovery s); done. }
  assert (∀ x, CongWin (growWindow s4 x) =
    CongWin (growWindow (set_CongWin s (recovery_win s exit a)) x)) as Hg.
  { intros x. unfold growWindow. cbn [CongWin set_CongWin SSThresh]. by rewrite P5, P6, HS. }
  destruct (growWindow_frame s4 a) as (G1 & G2 & G3 & G4 & G5 & G6 & G7).
  destruct ((0 <? a) && negb (FastRecovery s && InRecovery s && negb exit)); rewrite ?Hg, ?G1, ?G2, ?G3, ?G4, ?G5, ?G6, ?G7, P1, P2, P3, P4, P6, P7, P8;
    rewrite ?P5, HU, HL, HD, HS, HI, HF, HR; by split_and!.
Qed.

Lemma ProcessAck_cases c now ack pure :
  let '(c', pkt) := ProcessAck c now ack pure in
  (seqAfter (LastAck (tx c)) ack = true ∧ c' = c ∧ pkt = None) ∨
  (seqAfter (LastAck (tx c)) ack = false ∧ ack = LastAck (tx c) ∧ ∃ s' d f,
     dupAck c (tx c) now (RecvAck c) (SendSeq c) pure = (s', pkt, d, f) ∧ tx c' = s') ∨
  (seqAfter (LastAck (tx c)) ack = false ∧ ack ≠ LastAck (tx c) ∧ ∃ s',
     newAck c (tx c) now ack (RecvAck c) = (s', pkt) ∧ tx c' = s').
Proof.
  unfold ProcessAck. cbv zeta. destruct (seqAfter (LastAck (tx c)) ack); [by left|].
  destruct (Z.eqb_spec ack (LastAck (tx c))).
  - destruct (dupAck _ _ _ _ _ _) as [[[s' pkt] d] f] eqn:E.
    right; left. split_and!; [done..|]. by exists s', d, f.
  - destruct (newAck _ _ _ _ _) as [s' pkt] eqn:E.
    right; right. split_and!; [done..|]. by exists s'.
Qed.

(** The entries, at stream offsets [offs], that reach past offset [A]. *)
Definition beyond (A : Z) (l : list retxEntry) (offs : list Z) : list retxEntry :=
  map fst (List.filter (λ eo, A <? eo.2 + blen (data eo.1)) (combine l offs)).

Lemma acked_offset e o A :
  seq e = u32 o → - half < A - (o + blen (data e)) < half →
  acked (u32 A) e = negb (A <? o + blen (data e)).
Proof.
  intros Hs Hd. unfold acked, endSeq. rewrite Hs, u32_add_l, u32_add_r.
  pose proof (seqAfterOrEqual_near A (o + blen (data e)) Hd).
  destruct (seqAfterOrEqual _ _), (Z.ltb_spec A (o + blen (data e))); intuition lia.
Qed.

Lemma filter_acked_beyond A l offs :
  Forall2 (λ e o, seq e = u32 o ∧ - half < A - (o + blen (data e)) < half) l offs →
  List.filter (λ e, negb (acked (u32 A) e)) l = beyond A l offs.
Proof.
  unfold beyond. induction 1 as [|e o l offs [Hs Hd] _ IH]; [done|]. simpl.
  rewrite (acked_offset e o A) by done. destruct (A <? _); simpl; congruence.
Qed.

(** A cumulative ACK removes exactly the acknowledged data.  Give every
    unacknowledged entry its true (unwrapped) stream offset, and let the ACK
    stand for offset [A], everything within half the sequence space of it.  An
    ACK older than the last one changes nothing.  Otherwise [LastAck] becomes
    the ACK, and, if it advances, exactly the entries that extend past [A] stay
    unacknowledged, in order and with data, FIN flag and SACK mark intact; a
    repeated ACK removes nothing. *)
Theorem cumulative_ack_exact c now pure A L offs :
  LastAck (tx c) = u32 L → - half < A - L < half →
  Forall2 (λ e o, seq e = u32 o ∧ - half < A - (o + blen (data e)) < half) (Unacked (tx c)) offs →
  let '(c', pkt) := ProcessAck c now (u32 A) pure in
  (A < L → c' = c ∧ pkt = None) ∧
  (L <= A → LastAck (tx c') = u32 A) ∧
  (A = L → map core (Unacked (tx c')) = map core (Unacked (tx c))) ∧
  (L < A → map core (Unacked (tx c')) = map core (beyond A (Unacked (tx c)) offs)).
Proof.
  intros HL Hd Hoff. pose proof (ProcessAck_cases c now (u32 A) pure) as H.
  destruct (ProcessAck c now (u32 A) pure) as [c' pkt]. rewrite HL in H.
  pose proof (seqAfter_near L A ltac:(lia)) as Hn.
  assert (u32 A = u32 L → A = L) as Hinj by (by apply u32_inj_near).
  destruct H as [(Hs & -> & ->)|[(Hs & He & s' & d & f & E & <-)|(Hs & He & s' & E & <-)]].
  - apply Hn in Hs. split_and!; [done|lia..].
  - assert (A = L) as -> by auto. apply dupAck_resent in E as (? & HL' & _).
    rewrite HL' , HL. split_and!; (done || lia).
  - assert (L < A) as Hlt.
    { destruct (Z.lt_trichotomy A L) as [?|[->|?]]; [|done|done].
      destruct Hn as [_ Hn]. rewrite Hn in Hs; done. }
    apply newAck_spec in E as (HU & HL' & _). rewrite HL', HU.
    split_and!; try done; try lia. intros _. by rewrite (filter_acked_beyond A _ offs).
Qed.

(** RTT sampling follows Karn's rule.  An ACK that does not advance, or
    that covers any segment sent more than once, leaves the RTT estimate and
    the RTO alone.  An ACK that advances over once-sent segments only takes one
    sample: from the first of them, measured from its original transmission. *)
Theorem rtt_sampling_is_karn c now ack pure :
  let s := tx c in
  let s' := tx (fst (ProcessAck c now ack pure)) in
  let old := (RTO s, SRTT s, RTTVAR s) in
  let new := (RTO s', SRTT s', RTTVAR s') in
  let covered := List.filter (acked ack) (Unacked s) in
  (ack = LastAck s ∨ seqAfter (LastAck s) ack = true ∨
   existsb (λ e, 1 <? attempts e) covered = true → new = old) ∧
  (ack ≠ LastAck s → seqAfter (LastAck s) ack = false →
   ∀ e rest, covered = e :: rest → Forall (λ e, attempts e = 1) covered → origSentAt e ≠ zero_time →
     let u := updateRTT s (time_sub now (origSentAt e)) in new = (RTO u, SRTT u, RTTVAR u)).
Proof.
  intros s s' old new covered. pose proof (ProcessAck_cases c now ack pure) as H.
  destruct (ProcessAck c now ack pure) as [c' pkt]. cbn [fst] in s'. fold s in H.
  assert (existsb (λ e, 1 <? attempts e) covered =
          existsb (λ e, (1 <? attempts e) && acked ack e) (Unacked s)) as Hex.
  { unfold covered. clear. induction (Unacked s) as [|e l IH]; [done|]. simpl.
    destruct (acked ack e); simpl; rewrite ?IH, ?andb_true_r, ?andb_false_r; done. }
  destruct H as [(Hs & -> & ->)|[(Hs & He & s2 & d & f & E & Hs')|(Hs & He & s2 & E & Hs')]].
  - split; [done|]. intros _ Hs2. by rewrite Hs in Hs2.
  - apply dupAck_resent in E as (_ & _ & Hr). split; [intros _; unfold new, s'; by rewrite Hs'|done].
  - apply newAck_spec in E as (_ & _ & _ & Hr & _). unfold new, s'. rewrite Hs', Hr. split.
    + intros [?|[?|Hc]]; [done|congruence|]. unfold sampleRTT. by rewrite <- Hex, Hc.
    + intros _ _ e rest Hcov Hall Hz. unfold sampleRTT. rewrite <- Hex.
      assert (existsb (λ e, 1 <? attempts e) covered = false) as ->.
      { clear - Hall. induction Hall as [|x l Hx _ IH]; [done|]. simpl. by rewrite Hx, IH. }
      assert (List.find (λ e, acked ack e && (attempts e =? 1)) (Unacked s) = Some e) as ->.
      { assert (attempts e = 1) as Ha by (rewrite Hcov in Hall; by inversion Hall).
        unfold covered in Hcov. clear - Hcov Ha. induction (Unacked s) as [|x l IH]; [done|].
        simpl in *. destruct (acked ack x); simpl in *; [|auto].
        injection Hcov as -> _. by rewrite Ha. }
      unfold IsZero. by destruct (Z.eqb_spec (origSentAt e) zero_time).
Qed.

(** ** Window, threshold and timer bounds *)


Record tx_ok s : Prop := {
  ok_win : MaxSegmentSize <= CongWin s <= MaxCongWin;
  ok_ss : 2 * MaxSegmentSize <= SSThresh s <= MaxCongWin / 2;
  ok_rto : RTOMin <= RTO s <= RTOMax;
  ok_len : Forall (λ e, blen (data e) <= SendSegmentSize) (Unacked s);
  ok_n : nUnacked s <= MaxSegmentsOutstanding;
}.

Lemma sum_len_nonneg l : 0 <= sum_len l.
Proof. induction l; simpl; [lia|]. pose proof (blen_nonneg (data a)). lia. Qed.

Lemma sum_len_bound l :
  Forall (λ e, blen (data e) <= SendSegmentSize) l →
  sum_len l <= SendSegmentSize * Z.of_nat (length l).
Proof. induction 1; simpl; lia. Qed.

(** Entries with the same cores have the same sizes. *)
Lemma core_sizes l l' :
  map core l' = map core l →
  length l' = length l ∧
  (Forall (λ e, blen (data e) <= SendSegmentSize) l →
   Forall (λ e, blen (data e) <= SendSegmentSize) l').
Proof.
  revert l. induction l' as [|e' l' IH]; intros [|e l] H; try done.
  simpl in H. injection H as _ Hd _ _ H. destruct (IH l H) as [Hl Hf]. split; [simpl; congruence|].
  intros Hall. inversion Hall. constructor; [congruence|auto].
Qed.

Lemma tx_ok_core s s' :
  map core (Unacked s') = map core (Unacked s) →
  MaxSegmentSize <= CongWin s' <= MaxCongWin →
  2 * MaxSegmentSize <= SSThresh s' <= MaxCongWin / 2 →
  RTOMin <= RTO s' <= RTOMax → tx_ok s → tx_ok s'.
Proof.
  intros Hc Hw Hs Hr [? ? ? Hl Hn]. destruct (core_sizes _ _ Hc) as [Hlen Hf].
  split; auto. unfold nUnacked in *. lia.
Qed.

Lemma halved_bounds s : tx_ok s → 2 * MaxSegmentSize <= halved (Unacked s) <= MaxCongWin / 2.
Proof.
  intros Hok. pose proof (sum_len_bound _ (ok_len _ Hok)) as Hb. pose proof (ok_n _ Hok) as Hn.
  pose proof (sum_len_nonneg (Unacked s)) as H0.
  unfold nUnacked, MaxSegmentsOutstanding, MaxOOOBuf, SendSegmentSize in *.
  unfold halved, MaxCongWin, MaxSegmentSize. rewrite Z.quot_div_nonneg by lia.
  change (1024 * 1024 / 2) with 524288.
  assert (sum_len (Unacked s) / 2 <= 73728) by (apply Z.div_le_upper_bound; lia).
  case_zif; lia.
Qed.

Lemma core_halved l l' : map core l' = map core l → halved l' = halved l.
Proof.
  intros H. unfold halved. enough (sum_len l' = sum_len l) as -> by done.
  revert l H. induction l' as [|e' l' IH]; intros [|e l] H; try done.
  simpl in *. injection H as _ Hd _ _ H. rewrite Hd. by rewrite (IH l H).
Qed.

Lemma inflate_ok s : tx_ok s → tx_ok (inflate s).
Proof.
  intros Hok. destruct (inflate_spec s) as [Hw Hr]. pose proof (ok_win _ Hok).
  apply (tx_ok_core s); auto.
  - apply (rs_unacked _ _ Hr).
  - rewrite Hw. unfold SendSegmentSize in *. lia.
  - rewrite (rs_ss _ _ Hr). apply Hok.
  - pose proof (rs_rtt _ _ Hr) as [= -> _ _]. apply Hok.
Qed.

Lemma resent_ok s s' : resent s s' → tx_ok s → tx_ok s'.
Proof.
  intros Hr Hok. apply (tx_ok_core s); auto.
  - apply Hr.
  - rewrite (rs_win _ _ Hr). apply Hok.
  - rewrite (rs_ss _ _ Hr). apply Hok.
  - pose proof (rs_rtt _ _ Hr) as [= -> _ _]. apply Hok.
Qed.

Lemma dupAck_ok c s now ra sq pure : tx_ok s → tx_ok (dupAck c s now ra sq pure).1.1.1.
Proof.
  intros Hok. unfold dupAck. case_zif; [done|]. case_zif; [done|]. cbv zeta.
  assert (tx_ok (set_DupAckCount s (DupAckCount s + 1))) as Hok1 by (by destruct Hok; split).
  set (s1 := set_DupAckCount s _) in *. clearbody s1.
  case_zif; [by apply inflate_ok|]. case_zif.
  - pose proof (resent_ok _ _ (fastRetransmit_resent c s1 now ra) Hok1) as Hok2.
    destruct (fastRetransmit c s1 now ra) as [[pk|] s2]; cbn [snd fst] in *; [|done].
    case_zif; [|case_zif; [by apply inflate_ok|done]].
    pose proof (halved_bounds _ Hok2) as Hh.
    apply (resent_ok _ _ (signalIfAvailable_resent _)).
    apply (tx_ok_core s2); try apply Hok2; simpl; auto.
    unfold MaxSegmentSize, MaxCongWin, SendSegmentSize in *.
    change (1024 * 1024 / 2) with 524288 in Hh. lia.
  - case_zif; [|done]. case_zif; [done|]. by apply inflate_ok.
Qed.

Lemma updateRTT_rto s rtt : RTOMin <= RTO (updateRTT s rtt) <= RTOMax.
Proof.
  unfold updateRTT. case_match. simpl. unfold RTOMin, RTOMax, Millisecond, Second.
  repeat case_zif; lia.
Qed.

Lemma sampleRTT_rto s now ack :
  RTOMin <= RTO s <= RTOMax → RTOMin <= RTO (sampleRTT s now ack) <= RTOMax.
Proof.
  intros H. unfold sampleRTT. case_match; [done|]. case_match; [|done]. apply updateRTT_rto.
Qed.

Lemma recovery_win_ok s exit a : 0 <= a → tx_ok s →
  MaxSegmentSize <= recovery_win s exit a <= MaxCongWin.
Proof.
  intros Ha [Hw Hs _ _ _]. unfold recovery_win.
  unfold MaxSegmentSize, MaxCongWin, SendSegmentSize in *.
  change (1024 * 1024 / 2) with 524288 in Hs. repeat case_zif; lia.
Qed.

Lemma growWindow_ok s a : 0 < a → MaxSegmentSize <= CongWin s <= MaxCongWin →
  MaxSegmentSize <= CongWin (growWindow s a) <= MaxCongWin.
Proof.
  intros Ha Hw. unfold growWindow. cbn [CongWin set_CongWin].
  unfold MaxSegmentSize, MaxCongWin in *. repeat case_zif; lia.
Qed.

Lemma newAck_ok c s now ack ra : tx_ok s → tx_ok (newAck c s now ack ra).1.
Proof.
  intros Hok. destruct (newAck c s now ack ra) as [s' pkt] eqn:E.
  apply newAck_spec in E as (HU & _ & _ & [= HR _ _] & HS & _ & _ & HW).
  cbn [fst]. destruct (core_sizes _ _ HU) as [Hlen Hf]. split.
  - rewrite HW. set (ex := InRecovery s && _).
    pose proof (recovery_win_ok s ex (bytesAcked s ack) (sum_len_nonneg _) Hok) as Hrw.
    destruct ((0 <? bytesAcked s ack) && _) eqn:E; [|done].
    apply andb_true_iff in E as [E%Z.ltb_lt _]. by apply growWindow_ok.
  - rewrite HS. apply Hok.
  - rewrite HR. apply sampleRTT_rto, Hok.
  - apply Hf. apply Forall_forall. intros e [He _]%list_elem_of_In%filter_In.
    pose proof (ok_len _ Hok) as Hl. rewrite Forall_forall in Hl. by apply Hl, list_elem_of_In.
  - pose proof (ok_n _ Hok). unfold nUnacked in *. rewrite Hlen.
    pose proof (List.filter_length_le (λ e, negb (acked ack e)) (Unacked s)). lia.
Qed.

Lemma renege_sizes s now :
  let s' := renege s now in
  map (λ e, (seq e, data e, isFIN e)) (Unacked s') = map (λ e, (seq e, data e, isFIN e)) (Unacked s)
  ∧ set_Unacked s' (Unacked s) = s.
Proof.
  unfold renege. destruct (Unacked s) as [|e l] eqn:E; [by destruct s; simpl in *; subst|].
  case_zif; [|destruct s; simpl in *; by subst]. split; [|destruct s; simpl in *; by subst].
  cbn [Unacked set_Unacked]. rewrite ?E. by rewrite map_map.
Qed.

Lemma tx_ok_sizes s s' :
  map (λ e, (seq e, data e, isFIN e)) (Unacked s') = map (λ e, (seq e, data e, isFIN e)) (Unacked s) →
  MaxSegmentSize <= CongWin s' <= MaxCongWin →
  2 * MaxSegmentSize <= SSThresh s' <= MaxCongWin / 2 →
  RTOMin <= RTO s' <= RTOMax → tx_ok s → tx_ok s'.
Proof.
  intros Hc Hw Hs Hr [_ _ _ Hl Hn]. split; auto.
  - revert Hl Hc. clear. generalize (Unacked s). induction (Unacked s') as [|e' l' IH]; [constructor|].
    intros [|e l] Hl Hc; [done|]. inversion Hl. simpl in Hc. injection Hc as _ Hd _ Hc.
    constructor; [congruence|]. by apply (IH l).
  - unfold nUnacked in *. apply (f_equal length) in Hc. rewrite !length_map in Hc. lia.
Qed.

Lemma bump_first_sizes f now l :
  map (λ e, (seq e, data e, isFIN e)) (bump_first f now l) = map (λ e, (seq e, data e, isFIN e)) l.
Proof. induction l as [|e l IH]; [done|]. simpl. case_match; simpl; congruence. Qed.

Lemma renege_ok s now : tx_ok s → tx_ok (renege s now).
Proof.
  intros Hok. destruct (renege_sizes s now) as [Hs He].
  assert (CongWin (renege s now) = CongWin s ∧ SSThresh (renege s now) = SSThresh s ∧
    RTO (renege s now) = RTO s) as (E1 & E2 & E3) by (rewrite <- He at 2 4 6; done).
  apply (tx_ok_sizes s); rewrite ?E1, ?E2, ?E3; auto; apply Hok.
Qed.

Lemma backoff_bounds (rto : duration) rnd :
  RTOMin <= rto <= RTOMax → (∀ n, 0 < n → 0 <= rnd n < n) →
  let r := capRTO (i64 (rto * 2)) in
  rto <= r ∧ r <= capRTO (i64 (r + rnd (Z.quot r 4))) <= RTOMax.
Proof.
  intros Hr Hrnd r. unfold RTOMin, RTOMax, Millisecond, Second in *.
  assert (r = capRTO (rto * 2)) as Er
    by (unfold r; rewrite i64_id; [done|unfold minDuration, maxDuration; lia]).
  clearbody r.
  assert (rto <= r <= 10000000000) as Hb by (rewrite Er; unfold capRTO, Second; case_zif; lia).
  assert (0 <= rnd (Z.quot r 4) < 2500000001) as Hj.
  { specialize (Hrnd (Z.quot r 4)). clear Er. Z.to_euclidean_division_equations. lia. }
  rewrite i64_id by (unfold minDuration, maxDuration; lia).
  clear Er. unfold capRTO, Second. case_zif; lia.
Qed.

Lemma retransmitUnacked_ok c now rnd :
  (∀ n, 0 < n → 0 <= rnd n < n) → tx_ok (tx c) → tx_ok (tx (fst (retransmitUnacked c now rnd))).
Proof.
  intros Hrnd Hok. unfold retransmitUnacked. destruct (Unacked (tx c)); [done|].
  case_zif; [done|]. cbv zeta. pose proof (renege_ok _ now Hok) as Hok1.
  set (s := renege (tx c) now) in *. clearbody s.
  destruct (List.find _ _) as [e|]; [|done]. case_zif; [done|]. cbn [fst tx set_tx set_Stats].
  pose proof (halved_bounds _ Hok1). pose proof (backoff_bounds (RTO s) rnd (ok_rto _ Hok1) Hrnd).
  apply (tx_ok_sizes s); auto.
  - simpl. apply bump_first_sizes.
  - simpl. unfold MaxSegmentSize, MaxCongWin. lia.
  - simpl in *. pose proof (ok_rto _ Hok1). lia.
Qed.

(** ** Any history of the send side *)

(** [sendSegment] transmits only once the window is available; [jitter] stands
    for the random number drawn by the timeout. *)
Inductive tx_op :=
| TxAck (now : gotime) (ack : Z) (pureACK : bool)
| TxSack (blocks : list SACKBlock)
| TxTimer (now : gotime) (jitter : Z)
| TxSegment (now : gotime) (d : bytes) (sendOK : bool).

Definition tx_step c (o : tx_op) : Connection :=
  match o with
  | TxAck now ack pure => fst (ProcessAck c now ack pure)
  | TxSack blocks => ProcessSACK c blocks
  | TxTimer now jitter => fst (retransmitUnacked c now (λ n, jitter mod n))
  | TxSegment now d ok =>
      if WindowAvailable (tx c) && (blen d <=? SendSegmentSize)
      then fst (fst (transmitSegment c now d ok)) else c
  end.

Lemma ProcessAck_ok c now ack pure : tx_ok (tx c) → tx_ok (tx (fst (ProcessAck c now ack pure))).
Proof.
  intros Hok. pose proof (ProcessAck_cases c now ack pure) as H.
  destruct (ProcessAck c now ack pure) as [c' pkt]. cbn [fst].
  destruct H as [(_ & -> & _)|[(_ & _ & s' & d & f & E & ->)|(_ & _ & s' & E & ->)]]; [done| |].
  - pose proof (dupAck_ok c (tx c) now (RecvAck c) (SendSeq c) pure Hok) as H. by rewrite E in H.
  - pose proof (newAck_ok c (tx c) now ack (RecvAck c) Hok) as H. by rewrite E in H.
Qed.

Lemma ProcessSACK_ok c blocks : tx_ok (tx c) → tx_ok (tx (ProcessSACK c blocks)).
Proof.
  intros Hok. unfold ProcessSACK. cbn [tx set_Stats set_tx].
  set (s1 := set_Unacked _ _).
  assert (tx_ok s1) as H1.
  { apply (tx_ok_sizes (tx c)); try apply Hok; auto. unfold s1. cbn [Unacked set_Unacked].
    rewrite map_map. apply map_ext. intros e. by case_match. }
  pose proof (resent_ok _ _ (signalIfAvailable_resent s1) H1) as H2.
  case_match; [done|]. by destruct H2; split.
Qed.

Lemma transmitSegment_ok c now d ok :
  WindowAvailable (tx c) = true → blen d <= SendSegmentSize → tx_ok (tx c) →
  tx_ok (tx (fst (fst (transmitSegment c now d ok)))).
Proof.
  intros Hw Hd Hok.
  assert (tx (fst (fst (transmitSegment c now d ok))) = TrackSend (tx c) now (SendSeq c) d) as ->.
  { unfold transmitSegment. by case_zif. }
  assert (nUnacked (tx c) < MaxSegmentsOutstanding) as Hn.
  { revert Hw. unfold WindowAvailable. repeat case_zif; [done..|]. apply Z.ltb_lt. }
  destruct Hok. split; try done; unfold TrackSend; cbn [Unacked set_Unacked].
  - apply Forall_app. split; [done|]. by repeat constructor.
  - unfold nUnacked in *. cbn [Unacked set_Unacked]. rewrite length_app. simpl. lia.
Qed.

Lemma tx_step_ok c o : tx_ok (tx c) → tx_ok (tx (tx_step c o)).
Proof.
  intros Hok. destruct o; simpl.
  - by apply ProcessAck_ok.
  - by apply ProcessSACK_ok.
  - apply retransmitUnacked_ok; [|done]. intros n Hn. by apply Z.mod_pos_bound.
  - case_zif; [by apply transmitSegment_ok|done].
Qed.

(** C36. The send side stays within its limits.  From a new connection with
    its retransmit loop started, through any sequence of ACKs, SACKs, timer
    ticks and window-gated sends of at most [SendSegmentSize] bytes: the
    congestion window stays between one segment and [MaxCongWin] (so the
    division in congestion avoidance never has a zero divisor), the slow-start
    threshold between two segments and [MaxCongWin/2], the RTO between
    [RTOMin] and [RTOMax], and no more than [MaxSegmentsOutstanding] segments
    are ever outstanding. *)
Theorem sender_stays_within_limits id lp ra rp now ops :
  let s := tx (fold_left tx_step ops (startRetxLoop (newConn id lp ra rp now))) in
  MaxSegmentSize <= CongWin s <= MaxCongWin ∧
  2 * MaxSegmentSize <= SSThresh s <= MaxCongWin / 2 ∧
  RTOMin <= RTO s <= RTOMax ∧ nUnacked s <= MaxSegmentsOutstanding.
Proof.
  assert (tx_ok (tx (startRetxLoop (newConn id lp ra rp now)))) as H0.
  { split; [split; vm_compute; discriminate..|constructor|vm_compute; discriminate]. }
  assert (∀ c, tx_ok (tx c) → tx_ok (tx (fold_left tx_step ops c))) as Hf.
  { induction ops as [|o ops IH]; intros c Hc; [done|]. apply IH. by apply tx_step_ok. }
  intros s. pose proof (Hf _ H0) as Hok. split_and!; apply Hok.
Qed.

(** ** Retransmissions *)

(** [pkt] resends the entry [e] of [l] as it is, within its retry budget. *)
Definition resends (pkt : Packet) (l : list retxEntry) : Prop :=
  ∃ e, e ∈ l ∧ sacked e = false ∧ attempts e <= MaxRetxAttempts ∧
       Seq pkt = seq e ∧ Payload pkt = (if isFIN e then [] else data e) ∧
       pkFlags pkt = (if isFIN e then FlagFIN else FlagACK).

Lemma resend_first_some now l e l' :
  resend_first now l = (Some e, l') →
  e ∈ l' ∧ sacked e = false ∧ attempts e <= MaxRetxAttempts.
Proof.
  revert l'. induction l as [|x l IH]; intros l' H; [done|]. cbn [resend_first] in H.
  destruct (sacked x) eqn:Es.
  - destruct (resend_first now l) as [r k]. injection H as -> <-.
    destruct (IH k eq_refl) as (? & ? & ?). split; [by right|done].
  - destruct (_ <=? _) eqn:Ea in H; [done|]. apply Z.leb_gt in Ea. injection H as <- <-. simpl. split; [left|]. split; [done|lia].
Qed.

Lemma fastRetransmit_resends c s now ra pkt s' :
  fastRetransmit c s now ra = (Some pkt, s') → resends pkt (Unacked s').
Proof.
  unfold fastRetransmit. destruct (Unacked s) as [|x l] eqn:E; [done|]. case_zif; [done|].
  rewrite <- E. destruct (resend_first now (Unacked s)) as [[e|] l'] eqn:Er; [|done].
  intros [= <- <-]. apply resend_first_some in Er as (? & ? & ?). by exists e.
Qed.

Lemma dupAck_resends c s now ra sq pure s' pkt d f :
  dupAck c s now ra sq pure = (s', Some pkt, d, f) → resends pkt (Unacked s').
Proof.
  unfold dupAck. case_zif; [done|]. case_zif; [done|]. cbv zeta.
  case_zif; [done|]. case_zif; [|repeat case_zif; done].
  destruct (fastRetransmit _ _ _ _) as [[pk|] s2] eqn:E; [|done].
  apply fastRetransmit_resends in E.
  assert (∀ x, Unacked (signalIfAvailable x) = Unacked x) as Hs
    by (intros x; unfold signalIfAvailable; by case_match).
  case_zif; [|case_zif]; intros [= <- <- <- <-]; unfold inflate; rewrite ?Hs; done.
Qed.

Lemma newAck_resends c s now ack ra s' pkt :
  newAck c s now ack ra = (s', Some pkt) → resends pkt (Unacked s').
Proof.
  unfold newAck. cbv zeta. set (s3 := set_Unacked _ (map _ _)). clearbody s3.
  destruct (FastRecovery _ && InRecovery _) eqn:E1.
  - case_zif; [done|]. destruct (fastRetransmit _ _ _ _) as [pk s4] eqn:E.
    intros [= <- ->]. apply fastRetransmit_resends in E.
    repeat case_match; done.
  - destruct (InRecovery _ && InRecovery s3); [|done].
    destruct (fastRetransmit _ _ _ _) as [pk s4] eqn:E.
    intros [= <- ->]. apply fastRetransmit_resends in E. repeat case_match; done.
Qed.

Lemma find_bump f now (l : list retxEntry) e :
  List.find f l = Some e → f e = true ∧ e ∈ l ∧
    with_entry e now (attempts e + 1) (sacked e) ∈ bump_first f now l.
Proof.
  induction l as [|x l IH]; [done|]. simpl. destruct (f x) eqn:Ef.
  - intros [= ->]. split; [done|]. split; left.
  - intros H. destruct (IH H) as (? & ? & ?). split; [done|]. split; by right.
Qed.

Lemma retransmitUnacked_cases c now rnd c' pkt :
  retransmitUnacked c now rnd = (c', Some pkt) →
  (pkt = rstPacket c ∧ State c' = StateClosed ∧
   ∃ e, e ∈ Unacked (tx c') ∧ MaxRetxAttempts <= attempts e) ∨
  (resends pkt (Unacked (tx c')) ∧ State c' = State c).
Proof.
  unfold retransmitUnacked. destruct (Unacked (tx c)); [done|]. case_zif; [done|]. cbv zeta.
  set (s := renege (tx c) now). clearbody s.
  destruct (List.find _ _) as [e|] eqn:Ef; [|done].
  apply (find_bump _ now) in Ef as (Ht & Hin & Hb).
  apply andb_true_iff in Ht as [Hs%negb_true_iff _]. case_zif.
  - destruct (RetxSend s); [|done]. intros [= <- <-]. left. simpl. eauto.
  - simpl. destruct (RetxSend s); [|done]. intros [= <- <-]. right. split; [|done].
    eexists. split; [exact Hb|]. simpl. split; [done|]. split; [lia|]. destruct (isFIN e) eqn:Ei; simpl; by rewrite ?Ei.
Qed.

(** C37. Retransmissions are sound.  A packet sent in answer to an ACK, or by
    the retransmission timer, is a resend of an entry that is still
    unacknowledged and not marked as SACKed, carries that entry's sequence
    number and bytes (or the FIN flag), and has not been tried more than
    [MaxRetxAttempts] times; the only other packet the timer sends is the RST
    with which it closes a connection whose retries are used up. *)
Theorem retransmissions_are_sound c pkt c' :
  (∀ now ack pure, ProcessAck c now ack pure = (c', Some pkt) → resends pkt (Unacked (tx c'))) ∧
  (∀ now rnd, retransmitUnacked c now rnd = (c', Some pkt) →
     (pkt = rstPacket c ∧ State c' = StateClosed ∧
      ∃ e, e ∈ Unacked (tx c') ∧ MaxRetxAttempts <= attempts e) ∨
     (resends pkt (Unacked (tx c')) ∧ State c' = State c)).
Proof.
  split; [|intros now rnd; apply retransmitUnacked_cases]. intros now ack pure E.
  pose proof (ProcessAck_cases c now ack pure) as H. rewrite E in H.
  destruct H as [(_ & _ & ?)|[(_ & _ & s' & d & f & E' & ->)|(_ & _ & s' & E' & ->)]]; [done| |].
  - by eapply dupAck_resends.
  - by eapply newAck_resends.
Qed.

Lemma dupAck_same_episode c s now ra sq pure :
  InRecovery s = true → seqAfter sq (RecoveryPoint s) = false →
  SSThresh (dupAck c s now ra sq pure).1.1.1 = SSThresh s.
Proof.
  intros Hr Hs. unfold dupAck. case_zif; [done|]. case_zif; [done|]. cbv zeta.
  set (s1 := set_DupAckCount s _).
  assert (∀ x, SSThresh (inflate x) = SSThresh x) as Hi
    by (intros x; destruct (inflate_spec x) as [_ H]; by rewrite (rs_ss _ _ H)).
  case_zif; [cbn [fst]; by rewrite Hi|]. case_zif.
  - pose proof (fastRetransmit_resent c s1 now ra) as Hrs.
    destruct (fastRetransmit c s1 now ra) as [[pk|] s2]; cbn [snd fst] in *;
      [|by rewrite (rs_ss _ _ Hrs)].
    rewrite (rs_rec _ _ Hrs), (rs_point _ _ Hrs). simpl. rewrite Hr, Hs. simpl.
    case_zif; cbn [fst]; rewrite ?Hi; by rewrite (rs_ss _ _ Hrs).
  - case_zif; [|done]. case_zif; [done|]. cbn [fst]. by rewrite Hi.
Qed.

(** One window reduction per loss event.  While in recovery with nothing
    new sent past the recovery point, no ACK, duplicate or not, reduces the
    slow-start threshold again. *)
Theorem one_reduction_per_loss_event c now ack pure :
  InRecovery (tx c) = true → seqAfter (SendSeq c) (RecoveryPoint (tx c)) = false →
  SSThresh (tx (fst (ProcessAck c now ack pure))) = SSThresh (tx c).
Proof.
  intros Hr Hs. pose proof (ProcessAck_cases c now ack pure) as H.
  destruct (ProcessAck c now ack pure) as [c' pkt]. cbn [fst].
  destruct H as [(_ & -> & _)|[(_ & _ & s' & d & f & E & ->)|(_ & _ & s' & E & ->)]]; [done| |].
  - pose proof (dupAck_same_episode c (tx c) now (RecvAck c) (SendSeq c) pure Hr Hs) as H.
    by rewrite E in H.
  - by apply newAck_spec in E as (_ & _ & _ & _ & ? & _).
Qed.

(** ** A peer that never answers *)

Lemma time_sub_gt now t d : d < maxDuration → d < now - t → d < time_sub now t.
Proof. unfold time_sub. lia. Qed.

Lemma timeout_resends_head c now rnd h l :
  Unacked (tx c) = h :: l → RTOMin <= RTO (tx c) <= RTOMax →
  RTOMax < now - LastRetxTime (tx c) → RTOMax < now - sentAt h →
  (∀ n, 0 < n → 0 <= rnd n < n) →
  let c' := fst (retransmitUnacked c now rnd) in
  if MaxRetxAttempts <=? attempts h then State c' = StateClosed
  else ∃ h' l', Unacked (tx c') = h' :: l' ∧ attempts h' = attempts h + 1 ∧ sentAt h' = now ∧
       LastRetxTime (tx c') = now ∧ RTOMin <= RTO (tx c') <= RTOMax ∧ State c' = State c.
Proof.
  intros HU Hr Hl Hs Hrnd. unfold retransmitUnacked. rewrite HU.
  assert (RTO (tx c) < time_sub now (LastRetxTime (tx c))) as H1
    by (apply time_sub_gt; unfold maxDuration, RTOMax, Second in *; lia).
  assert (RTO (tx c) < time_sub now (sentAt h)) as H2
    by (apply time_sub_gt; unfold maxDuration, RTOMax, Second in *; lia).
  destruct (negb (IsZero _) && _) eqn:Eg; [zbool; lia|]. clear Eg. cbv zeta.
  assert (∃ l2 a, renege (tx c) now = set_Unacked (tx c) (with_entry h (sentAt h) a false :: l2)
    ∧ a = attempts h) as (l2 & a & -> & ->).
  { unfold renege. rewrite HU. destruct (sacked h) eqn:Eh; cbn [andb].
    - apply Z.ltb_lt in H2 as ->. eexists _, _. by split.
    - exists l, (attempts h). split; [|done]. rewrite <- Eh.
      destruct (tx c), h; simpl in *. by subst. }
  set (h0 := with_entry h (sentAt h) (attempts h) false). set (s := set_Unacked (tx c) (h0 :: l2)).
  assert (timedOut s now h0 = true) as Ht by (unfold timedOut; simpl; by apply Z.ltb_lt).
  change (Unacked s) with (h0 :: l2). cbn [List.find bump_first]. rewrite !Ht.
  change (attempts h0) with (attempts h). change (RTO (set_SSThresh s _)) with (RTO (tx c)).
  destruct (backoff_bounds (RTO (tx c)) rnd Hr Hrnd) as (Hb1 & Hb2 & Hb3).
  destruct (MaxRetxAttempts <=? attempts h); [done|].
  eexists _, _. cbn [fst]. split_and!; [done..| |exact Hb3|done].
  etrans; [apply Hr|]. by etrans.
Qed.

(** Times more than [RTOMax] apart, from [last] on. *)
Fixpoint far (last : gotime) (ts : list gotime) : Prop :=
  match ts with
  | [] => True
  | t :: ts => RTOMax < t - last ∧ far t ts
  end.

Definition timer_ticks (rnd : Z → Z) (ts : list gotime) c : Connection :=
  fold_left (λ c t, fst (retransmitUnacked c t rnd)) ts c.

Lemma timer_ticks_closed rnd ts c : State c = StateClosed → State (timer_ticks rnd ts c) = StateClosed.
Proof.
  revert c. induction ts as [|t ts IH]; intros c H; [done|]. apply IH.
  unfold retransmitUnacked. destruct (Unacked (tx c)); [done|]. case_zif; [done|]. cbv zeta.
  destruct (List.find _ _); [|done]. by case_zif.
Qed.

(** A silent peer is given up on.  If data is outstanding, nothing comes
    back, and the timer runs at times more than [RTOMax] apart, then after as
    many ticks as the oldest segment has attempts left plus one, the connection
    is closed. *)
Theorem silent_peer_is_given_up c rnd ts last h l :
  Unacked (tx c) = h :: l → RTOMin <= RTO (tx c) <= RTOMax →
  LastRetxTime (tx c) <= last → sentAt h <= last → far last ts →
  (∀ n, 0 < n → 0 <= rnd n < n) →
  MaxRetxAttempts + 1 - attempts h <= Z.of_nat (length ts) → (ts ≠ []) →
  State (timer_ticks rnd ts c) = StateClosed.
Proof.
  intros HU Hr Hl Hs Hf Hrnd Hlen Hne. revert c last h l HU Hr Hl Hs Hf Hlen Hne.
  induction ts as [|t ts IH]; intros c last h l HU Hr Hl Hs Hf Hlen Hne; [done|].
  destruct Hf as [Ht Hf].
  pose proof (timeout_resends_head c t rnd h l HU Hr ltac:(lia) ltac:(lia) Hrnd) as H.
  cbv zeta in H. change (timer_ticks rnd (t :: ts) c) with
    (timer_ticks rnd ts (fst (retransmitUnacked c t rnd))).
  destruct (Z.leb_spec MaxRetxAttempts (attempts h)); [by apply timer_ticks_closed|].
  destruct H as (h' & l' & HU' & Ha & Hsent & Hlast & Hr' & _).
  apply (IH _ t h' l'); auto; simpl in Hlen; try lia.
  intros ->. simpl in Hlen. lia.
Qed.
End Proofs.

(** ** Witnesses *)
#[local] Existing Instance documented_protocol.

(** A connection with three segments outstanding, near the wrap of the sequence
    space: offsets [2^32 - 4], [2^32] and [2^32 + 4]. *)
Definition sending : Connection :=
  let c := startRetxLoop (newConn 7 49152 (mkAddr 0 2) 80 100) in
  let c := set_SendSeq (set_State c StateEstablished) 4294967292 in
  let c := set_tx c (set_LastAck (tx c) 4294967292) in
  fold_left tx_step [TxSegment 100 [1;2;3;4] true; TxSegment 110 [5;6;7;8] true;
                     TxSegment 120 [9;10;11;12] true] c.

Lemma cumulative_ack_exact_witness :
  let c' := fst (ProcessAck sending 200 4 true) in
  LastAck (tx c') = 4 ∧ map data (Unacked (tx c')) = [[9;10;11;12]].
Proof.
  pose proof (cumulative_ack_exact sending 200 true 4294967300 4294967292
    [4294967292; 4294967296; 4294967300]) as H.
  change (u32 4294967300) with 4 in H.
  destruct (ProcessAck sending 200 4 true) as [c' pkt] eqn:E. cbn [fst].
  destruct H as (_ & H1 & _ & H2).
  - vm_compute. reflexivity.
  - vm_compute. split; reflexivity.
  - assert (Unacked (tx sending) =
      [mkRetx [1;2;3;4] 4294967292 100 100 1 false false; mkRetx [5;6;7;8] 0 110 110 1 false false;
       mkRetx [9;10;11;12] 4 120 120 1 false false]) as -> by (vm_compute; reflexivity).
    repeat constructor.
  - split; [apply H1; vm_compute; discriminate|].
    assert (map core (Unacked (tx c')) = [(4, [9;10;11;12], false, false)]) as Hc
      by (rewrite H2; vm_compute; reflexivity).
    clear - Hc. destruct (Unacked (tx c')) as [|e [|]]; try discriminate.
    cbn [map] in *. unfold core in Hc. injection Hc as _ Hd _ _. rewrite Hd. reflexivity.
Defined.

Lemma rtt_sampling_is_karn_witness :
  SRTT (tx (fst (ProcessAck sending 200 4 true))) = 100.
Proof.
  destruct (rtt_sampling_is_karn sending 200 4 true) as [_ H].
  destruct (List.filter (acked 4) (Unacked (tx sending))) as [|e rest] eqn:Hc;
    [exfalso; vm_compute in Hc; discriminate|].
  assert (origSentAt e = 100 ∧ Forall (λ e, attempts e = 1) (e :: rest)) as [He Hall].
  { vm_compute in Hc. injection Hc as <- <-. split; [reflexivity|]. repeat constructor. }
  specialize (H ltac:(vm_compute; discriminate) ltac:(vm_compute; reflexivity) e rest eq_refl Hall).
  rewrite He in H. specialize (H ltac:(vm_compute; discriminate)). cbv zeta in H.
  refine (eq_trans (f_equal (λ x, snd (fst x)) H) _). vm_compute. reflexivity.
Defined.

Definition three_dups : Connection :=
  fold_left tx_step [TxAck 130 4294967292 true; TxAck 140 4294967292 true;
                     TxAck 150 4294967292 true] sending.

Lemma retransmissions_are_sound_witness :
  let '(c', pkt) := ProcessAck (tx_step (tx_step sending (TxAck 130 4294967292 true))
                                        (TxAck 140 4294967292 true)) 150 4294967292 true in
  ∃ p, pkt = Some p ∧ resends p (Unacked (tx c')).
Proof.
  destruct (ProcessAck (tx_step (tx_step sending (TxAck 130 4294967292 true))
              (TxAck 140 4294967292 true)) 150 4294967292 true) as [c' pkt] eqn:E.
  destruct pkt as [p|].
  - exists p. split; [reflexivity|]. eapply (proj1 (retransmissions_are_sound _ p c')). exact E.
  - exfalso. apply (f_equal snd) in E. vm_compute in E. discriminate.
Defined.

Lemma one_reduction_per_loss_event_witness :
  InRecovery (tx three_dups) = true ∧
  SSThresh (tx (fst (ProcessAck three_dups 160 4294967292 true))) = 2 * MaxSegmentSize.
Proof.
  assert (InRecovery (tx three_dups) = true) as Hr by (vm_compute; reflexivity).
  split; [exact Hr|].
  rewrite (one_reduction_per_loss_event three_dups 160 4294967292 true Hr); vm_compute; reflexivity.
Defined.

Lemma silent_peer_is_given_up_witness :
  State (timer_ticks (λ n, 0) (map (λ i, i * (11 * Second)) [1;2;3;4;5;6;7;8]) sending) = StateClosed.
Proof.
  destruct (Unacked (tx sending)) as [|h l] eqn:HU; [exfalso; vm_compute in HU; discriminate|].
  assert (sentAt h = 100 ∧ attempts h = 1) as [Hs Ha].
  { vm_compute in HU. injection HU as <- _. split; reflexivity. }
  apply (silent_peer_is_given_up sending (λ n, 0) _ 100 h l HU).
  - vm_compute. split; discriminate.
  - vm_compute. discriminate.
  - rewrite Hs. lia.
  - vm_compute. repeat split.
  - intros n Hn. lia.
  - rewrite Ha. vm_compute. discriminate.
  - discriminate.
Defined.
