(* ===== verification/Reassembly.v ===== *)
(** * Receiving (pkg/daemon/ports.go: [DeliverInOrder], [dropOOOBefore],
    [CloseRecvBuf], [hasOOOSeg], [SACKBlocks])

    Segments arrive in any order, with duplicates; in-order data goes to the
    application through the bounded channel [RecvBuf].  [DeliverInOrder] waits
    up to a second for room in the channel: the model is given, for each
    segment it tries to deliver, how many segments the application takes while
    it waits, and the send succeeds if there is room after that.  [RecvBuf] and
    what the application has taken together are the delivered stream. *)
From S2P Require Import Prelude SeqNum Sack Protocol Conn.
Open Scope Z_scope.

Implicit Types r : Receiver.

(** The application receives one segment, if there is one. *)
Definition recv1 r : Receiver :=
  match RecvBuf r with
  | [] => r
  | d :: l => mkReceiver (ExpectedSeq r) (OOOBuf r) l (delivered r ++ [d]) (RecvClosed r)
                (finPending r) (finSeq r) (finHeard r)
  end.

(** [seg.seq + uint32(len(seg.data))] *)
Definition segEnd (sg : recvSegment) : Z := u32 (segSeq sg + u32 (blen (segData sg))).

Definition hasOOOSeg r (sq : Z) : bool := existsb (λ sg, segSeq sg =? sq) (OOOBuf r).

Definition dropOOOBefore r (expected : Z) : Receiver :=
  set_OOOBuf r (List.filter (λ sg, seqAfterOrEqual (segSeq sg) expected) (OOOBuf r)).

(** Remove the first buffered segment that starts at [sq]. *)
Fixpoint take_seg (sq : Z) (l : list recvSegment) : option (recvSegment * list recvSegment) :=
  match l with
  | [] => None
  | sg :: l => if segSeq sg =? sq then Some (sg, l)
               else (λ x, (x.1, sg :: x.2)) <$> take_seg sq l
  end.

(** The drain loop of phase 1: segments that have become contiguous. Every
    round removes one, so [length l] rounds are enough. *)
Fixpoint drain (fuel : nat) (nextSeq : Z) (l : list recvSegment)
  : list recvSegment * list recvSegment :=
  match fuel with
  | O => ([], l)
  | S fuel =>
      match take_seg nextSeq l with
      | None => ([], l)
      | Some (sg, l) => let '(d, rest) := drain fuel (segEnd sg) l in (sg :: d, rest)
      end
  end.

(** Phase 1: the segments to deliver, and the receiver without them. *)
Definition phase1 r (sq : Z) (d : bytes) : list recvSegment * Receiver :=
  if sq =? ExpectedSeq r then
    let first := mkSeg sq d in
    let '(l, rest) := drain (length (OOOBuf r)) (segEnd first) (OOOBuf r) in
    (first :: l, set_OOOBuf r rest)
  else if seqAfter sq (ExpectedSeq r) then
    if negb (hasOOOSeg r sq) && (Z.of_nat (length (OOOBuf r)) <? MaxOOOBuf)
    then ([], set_OOOBuf r (OOOBuf r ++ [mkSeg sq d]))
    else ([], r)
  else ([], r).

(** Phase 2: send to [RecvBuf] until a send times out; [reads] says how many
    segments the application takes during each wait. *)
Fixpoint phase2 r (segs : list recvSegment) (reads : list nat) : nat * Receiver :=
  match segs with
  | [] => (0%nat, r)
  | sg :: segs =>
      let r := Nat.iter (hd 0%nat reads) recv1 r in
      if Z.of_nat (length (RecvBuf r)) <? RecvBufSize then
        let '(n, r) := phase2 (set_RecvBuf r (RecvBuf r ++ [segData sg])) segs (tl reads) in
        (S n, r)
      else (0%nat, r)
  end.

(** Phase 3: commit the first [n] segments; re-buffer the rest, except the one
    at index 0, which just arrived. *)
Fixpoint phase3 r (i n : nat) (segs : list recvSegment) : Receiver :=
  match segs with
  | [] => r
  | sg :: segs =>
      let r := if Nat.ltb i n then set_ExpectedSeq r (segEnd sg)
               else if Nat.ltb 0 i then set_OOOBuf r (OOOBuf r ++ [sg]) else r in
      phase3 r (S i) n segs
  end.

Definition DeliverInOrder r (sq : Z) (d : bytes) (reads : list nat) : Z * Receiver :=
  if RecvClosed r then (ExpectedSeq r, r)
  else
    let '(toDeliver, r) := phase1 r sq d in
    let '(n, r) := phase2 r toDeliver reads in
    let r := phase3 r 0 n toDeliver in
    let r := dropOOOBefore r (ExpectedSeq r) in
    (ExpectedSeq r, r).

Definition CloseRecvBuf r : Receiver := set_RecvClosed r true.

(** ** SACK blocks *)

(** [sort.Slice] by sequence number (the keys are distinct, so any sort gives
    the same list). *)
Fixpoint insert_seg (sg : recvSegment) (l : list recvSegment) : list recvSegment :=
  match l with
  | [] => [sg]
  | x :: l' => if seqAfter (segSeq x) (segSeq sg) then sg :: l else x :: insert_seg sg l'
  end.
Definition sort_segs (l : list recvSegment) : list recvSegment := fold_right insert_seg [] l.

(** Merge sorted segments into blocks, [cur] being the block under way. *)
Fixpoint merge_blocks (cur : SACKBlock) (l : list recvSegment) : list SACKBlock :=
  match l with
  | [] => [cur]
  | sg :: l =>
      if seqAfterOrEqual (Right cur) (segSeq sg) then
        merge_blocks (mkSACKBlock (Left cur)
          (if seqAfter (segEnd sg) (Right cur) then segEnd sg else Right cur)) l
      else cur :: merge_blocks (mkSACKBlock (segSeq sg) (segEnd sg)) l
  end.

Definition SACKBlocks r : list SACKBlock :=
  match sort_segs (OOOBuf r) with
  | [] => []
  | sg :: l =>
      let blocks := merge_blocks (mkSACKBlock (segSeq sg) (segEnd sg)) l in
      drop (length blocks - 4) blocks
  end.
