(* ===== verification/ReassemblyProofs.v ===== *)
(** * Theorems on receiving (model in Reassembly)

    A stream is a list of bytes; a segment of it is a pair of an offset and a
    length, [segp] its wire form.  The model on wrapped sequence numbers is
    first related to functions on such pairs, where the arguments are about
    intervals. *)
From S2P Require Import Prelude SeqNum Sack Protocol Conn Reassembly.
Open Scope Z_scope.

(** ** Segments as intervals *)

Fixpoint takep (x : nat) (ps : list (nat * nat)) : option ((nat * nat) * list (nat * nat)) :=
  match ps with
  | [] => None
  | p :: ps => if Nat.eqb p.1 x then Some (p, ps) else (λ y, (y.1, p :: y.2)) <$> takep x ps
  end.

Fixpoint drainp (fuel x : nat) (ps : list (nat * nat)) : list (nat * nat) * list (nat * nat) :=
  match fuel with
  | O => ([], ps)
  | S fuel =>
      match takep x ps with
      | None => ([], ps)
      | Some (p, ps) => let '(d, rest) := drainp fuel (p.1 + p.2) ps in (p :: d, rest)
      end
  end.

(** Consecutive intervals from [x] on, and their total length. *)
Fixpoint chain (x : nat) (a : list (nat * nat)) : Prop :=
  match a with
  | [] => True
  | p :: a => p.1 = x ∧ chain (x + p.2) a
  end.
Definition total (a : list (nat * nat)) : nat := sum_list (map snd a).

Lemma takep_spec x ps p rest : takep x ps = Some (p, rest) → p.1 = x ∧ p :: rest ≡ₚ ps.
Proof.
  revert rest. induction ps as [|q ps IH]; intros rest; [done|]. simpl.
  destruct (Nat.eqb_spec q.1 x); [intros [= <- <-]; done|].
  destruct (takep x ps) as [[p' rest']|]; [|done]. intros [= <- <-].
  destruct (IH rest' eq_refl) as [? Hp]. split; [done|]. rewrite <- Hp. apply perm_swap.
Qed.

Lemma takep_none x ps : takep x ps = None ↔ x ∉ ps.*1.
Proof.
  induction ps as [|q ps IH]; simpl; [set_solver|].
  destruct (Nat.eqb_spec q.1 x); [set_solver|].
  rewrite not_elem_of_cons, <- IH. destruct (takep x ps); naive_solver.
Qed.

Lemma drainp_spec fuel x ps a b :
  drainp fuel x ps = (a, b) → chain x a ∧ a ++ b ≡ₚ ps ∧ (length a ≤ fuel)%nat.
Proof.
  revert x ps a. induction fuel as [|fuel IH]; intros x ps a; simpl; [by intros [= <- <-]|].
  destruct (takep x ps) as [[p rest]|] eqn:E; [|intros [= <- <-]; simpl; split_and!; [done..|lia]].
  apply takep_spec in E as [Hx Hp].
  destruct (drainp fuel (p.1 + p.2) rest) as [d b'] eqn:Ed. intros [= <- <-].
  apply IH in Ed as (Hc & Hpe & Hl). rewrite Hx in Hc. simpl. split_and!; [done|done| |lia].
  by rewrite Hpe.
Qed.

(** With enough fuel nothing that starts where the chain ends is left. *)
Lemma drainp_maximal fuel x ps a b :
  drainp fuel x ps = (a, b) → (length ps ≤ fuel)%nat → (x + total a)%nat ∉ b.*1.
Proof.
  revert x ps a. induction fuel as [|fuel IH]; intros x ps a; simpl.
  { intros [= <- <-] Hl. destruct ps; [set_solver|simpl in Hl; lia]. }
  destruct (takep x ps) as [[p rest]|] eqn:E.
  - pose proof E as E'. apply takep_spec in E' as [Hx Hp].
    destruct (drainp fuel (p.1 + p.2) rest) as [d b'] eqn:Ed. intros [= <- <-] Hl.
    apply Permutation_length in Hp. simpl in Hp.
    pose proof (IH _ _ _ Ed ltac:(lia)) as Hni. unfold total in *. simpl. subst x.
    by rewrite Nat.add_assoc.
  - intros [= <- <-] _. unfold total. simpl. rewrite Nat.add_0_r. by apply takep_none.
Qed.

Lemma chain_total_take x a k : chain x a → chain x (take k a).
Proof.
  revert x k. induction a as [|p a IH]; intros x [|k]; simpl; try done. intros [? ?]. auto.
Qed.

Section Stream.
Context (stream : bytes) (isn : Z).

Definition segp (p : nat * nat) : recvSegment :=
  mkSeg (u32 (isn + Z.of_nat p.1)) (slice p.1 (p.1 + p.2) stream).

(** [p] lies in the stream and fits a datagram. *)
Definition pok (p : nat * nat) : Prop :=
  (p.1 + p.2 ≤ length stream)%nat ∧ Z.of_nat p.2 <= 65535.

Lemma segp_length p : pok p → blen (segData (segp p)) = Z.of_nat p.2.
Proof.
  intros [H _]. unfold blen, segp, slice. simpl. rewrite length_take, length_drop. lia.
Qed.

Lemma segEnd_segp p : pok p → segEnd (segp p) = u32 (isn + Z.of_nat (p.1 + p.2)).
Proof.
  intros H. unfold segEnd. rewrite segp_length by done. simpl.
  rewrite u32_add_l, u32_add_r. f_equal. lia.
Qed.

(** Offset [a] is within half the sequence space of offset [b]. *)
Definition near (a b : nat) : Prop := - half < Z.of_nat a - Z.of_nat b < half.

Lemma seq_eqb_near a b :
  near a b → (u32 (isn + Z.of_nat a) =? u32 (isn + Z.of_nat b)) = Nat.eqb a b.
Proof.
  intros Hn. destruct (Nat.eqb_spec a b) as [->|Hne]; [apply Z.eqb_refl|].
  apply Z.eqb_neq. intros He. apply Hne.
  apply u32_inj_near in He; [lia|]. unfold near in Hn. lia.
Qed.

Lemma take_seg_p x ps :
  Forall (λ p, near p.1 x) ps →
  take_seg (u32 (isn + Z.of_nat x)) (map segp ps) = (λ y, (segp y.1, map segp y.2)) <$> takep x ps.
Proof.
  induction 1 as [|p ps Hp _ IH]; [done|]. cbn [map take_seg takep segp segSeq].
  rewrite seq_eqb_near by done. destruct (Nat.eqb p.1 x); [done|].
  rewrite IH. by destruct (takep x ps).
Qed.

(** Offsets a receiver at [n] may have buffered. *)
Definition window (n : nat) (p : nat * nat) : Prop :=
  pok p ∧ (n ≤ p.1)%nat ∧ Z.of_nat p.1 < Z.of_nat n + half.

Lemma drain_p fuel x ps n :
  Forall (window n) ps → (n ≤ x)%nat → Z.of_nat x + 65535 * Z.of_nat fuel < Z.of_nat n + half →
  drain fuel (u32 (isn + Z.of_nat x)) (map segp ps) =
    (map segp (fst (drainp fuel x ps)), map segp (snd (drainp fuel x ps))).
Proof.
  revert x ps. induction fuel as [|fuel IH]; intros x ps Hps Hx Hb; [done|].
  cbn [drain drainp]. rewrite take_seg_p.
  2:{ eapply Forall_impl; [exact Hps|]. intros p (_ & ? & ?). unfold near. lia. }
  destruct (takep x ps) as [[p rest]|] eqn:E; [|done]. cbn [fmap option_fmap option_map].
  apply takep_spec in E as [Hpx Hperm]. rewrite <- Hperm in Hps.
  apply Forall_cons in Hps as [(Hpo & _ & _) Hrest]. cbn [fst snd].
  rewrite segEnd_segp by done. destruct Hpo as [_ Hp2].
  rewrite IH; [by destruct (drainp fuel (p.1 + p.2) rest)|done|lia|lia].
Qed.

(** ** The delivered stream *)

Definition out (r : Receiver) : bytes := concat (delivered r ++ RecvBuf r).

Lemma recv1_out r : out (recv1 r) = out r ∧ ExpectedSeq (recv1 r) = ExpectedSeq r ∧
  OOOBuf (recv1 r) = OOOBuf r ∧ RecvClosed (recv1 r) = RecvClosed r.
Proof.
  unfold recv1, out. destruct (RecvBuf r) as [|d l] eqn:E; [by rewrite E|]. simpl.
  by rewrite <- app_assoc.
Qed.

Lemma recvs_out k r : let r' := Nat.iter k recv1 r in
  out r' = out r ∧ ExpectedSeq r' = ExpectedSeq r ∧ OOOBuf r' = OOOBuf r ∧
  RecvClosed r' = RecvClosed r.
Proof.
  induction k as [|k IH]; [done|]. simpl in *. destruct IH as (I1 & I2 & I3 & I4).
  destruct (recv1_out (Nat.iter k recv1 r)) as (-> & -> & -> & ->). done.
Qed.

Lemma phase2_spec r segs reads n r' :
  phase2 r segs reads = (n, r') →
  (n ≤ length segs)%nat ∧ ExpectedSeq r' = ExpectedSeq r ∧ OOOBuf r' = OOOBuf r ∧
  RecvClosed r' = RecvClosed r ∧ out r' = out r ++ concat (map segData (take n segs)).
Proof.
  revert r reads n. induction segs as [|sg segs IH]; intros r reads n; cbn [phase2].
  { intros [= <- <-]. simpl. by rewrite app_nil_r. }
  destruct (recvs_out (hd 0%nat reads) r) as (O1 & O2 & O3 & O4).
  set (r1 := Nat.iter (hd 0%nat reads) recv1 r) in *. clearbody r1.
  case_zif.
  - destruct (phase2 (set_RecvBuf r1 (RecvBuf r1 ++ [segData sg])) segs (tl reads)) as [k r2] eqn:E2.
    intros [= <- <-]. apply IH in E2 as (I1 & I2 & I3 & I4 & I5). simpl in I2, I3, I4.
    split_and!; [simpl; lia|congruence..|].
    rewrite I5. unfold out at 1. cbn [RecvBuf set_RecvBuf delivered take map concat].
    rewrite <- O1. unfold out. rewrite app_assoc, concat_app. simpl. by rewrite app_nil_r, <- app_assoc.
  - intros [= <- <-]. simpl. rewrite app_nil_r. split_and!; [lia|congruence..].
Qed.

Lemma phase3_rest r i n segs :
  (n ≤ i)%nat → (0 < i)%nat → phase3 r i n segs = set_OOOBuf r (OOOBuf r ++ segs).
Proof.
  revert r i. induction segs as [|sg segs IH]; intros r i Hn Hi; cbn [phase3].
  { rewrite app_nil_r. by destruct r. }
  destruct (Nat.ltb_spec i n); [lia|]. destruct (Nat.ltb_spec 0 i); [|lia].
  rewrite IH by lia. simpl. by rewrite <- app_assoc.
Qed.

Lemma phase3_spec r i n a x :
  Forall pok a → chain x a → ExpectedSeq r = u32 (isn + Z.of_nat x) →
  let r' := phase3 r i n (map segp a) in
  ExpectedSeq r' = u32 (isn + Z.of_nat (x + total (take (n - i) a))) ∧
  OOOBuf r' = OOOBuf r ++ map segp (drop (Nat.max (n - i) (1 - i)) a) ∧
  out r' = out r ∧ RecvClosed r' = RecvClosed r ∧ RecvBuf r' = RecvBuf r.
Proof.
  revert r i x. induction a as [|p a IH]; intros r i x Hok Hc He; cbn [phase3 map].
  { rewrite take_nil, drop_nil. unfold total. simpl. rewrite app_nil_r, Nat.add_0_r. done. }
  apply Forall_cons in Hok as [Hp Hok]. destruct Hc as [Hpx Hc].
  destruct (Nat.ltb_spec i n) as [Hin|Hin].
  - rewrite segEnd_segp by done.
    destruct (IH (set_ExpectedSeq r (u32 (isn + Z.of_nat (p.1 + p.2)))) (S i) (x + p.2)%nat)
      as (I1 & I2 & I3 & I4 & I5); [done|done|simpl; by rewrite Hpx|].
    rewrite I1, I2, I3, I4, I5. simpl.
    replace (n - i)%nat with (S (n - S i)) by lia.
    replace (Nat.max (S (n - S i)) (1 - i)) with (S (n - S i)) by lia.
    replace (Nat.max (n - S i) (0 - i)) with (n - S i)%nat by lia.
    unfold total. simpl. by rewrite Nat.add_assoc.
  - rewrite (phase3_rest _ (S i) n) by lia. simpl.
    replace (n - i)%nat with 0%nat by lia. unfold total. simpl. rewrite Nat.add_0_r.
    destruct (Nat.ltb_spec 0 i).
    + replace (1 - i)%nat with 0%nat by lia. simpl. by rewrite <- app_assoc.
    + replace (1 - i)%nat with 1%nat by lia. simpl. by rewrite drop_0.
Qed.

Lemma chain_bytes x a :
  chain x a → Forall pok a →
  concat (map segData (map segp a)) = slice x (x + total a) stream.
Proof.
  revert x. induction a as [|p a IH]; intros x Hc Hok.
  { unfold slice, total. simpl. by rewrite Nat.add_0_r, Nat.sub_diag. }
  destruct Hc as [<- Hc]. apply Forall_cons in Hok as [[Hp _] Hok].
  cbn [map concat]. rewrite (IH _ Hc Hok). unfold segp, slice, total. simpl.
  replace (p.1 + p.2 - p.1)%nat with p.2 by lia.
  replace (p.1 + p.2 + sum_list (map snd a) - (p.1 + p.2))%nat with (sum_list (map snd a)) by lia.
  replace (p.1 + (p.2 + sum_list (map snd a)) - p.1)%nat with (p.2 + sum_list (map snd a))%nat by lia.
  rewrite <- (drop_drop _ p.2 p.1). apply take_take_drop.
Qed.

Lemma take_slice (n k : nat) : take n stream ++ slice n (n + k) stream = take (n + k) stream.
Proof.
  unfold slice. replace (n + k - n)%nat with k by lia. apply take_take_drop.
Qed.

(** ** The invariant *)

(** [n] bytes of the stream have been delivered; [ps] are buffered. *)
Record rinv (r : Receiver) (n : nat) (ps : list (nat * nat)) : Prop := {
  ri_exp : ExpectedSeq r = u32 (isn + Z.of_nat n);
  ri_out : out r = take n stream;
  ri_len : (n ≤ length stream)%nat;
  ri_ooo : OOOBuf r = map segp ps;
  ri_win : Forall (window n) ps;
  ri_max : Z.of_nat (length ps) <= MaxOOOBuf;
}.

Lemma dropOOOBefore_p r n ps :
  OOOBuf r = map segp ps → Forall (λ p, near p.1 n) ps →
  OOOBuf (dropOOOBefore r (u32 (isn + Z.of_nat n))) =
    map segp (List.filter (λ p, Nat.leb n p.1) ps).
Proof.
  intros Ho Hn. unfold dropOOOBefore. cbn [OOOBuf set_OOOBuf]. rewrite Ho. clear Ho.
  induction Hn as [|p ps Hp _ IH]; [done|]. cbn [map List.filter].
  assert (seqAfterOrEqual (segSeq (segp p)) (u32 (isn + Z.of_nat n)) = Nat.leb n p.1) as ->.
  { cbn [segSeq segp].
    pose proof (seqAfterOrEqual_near (isn + Z.of_nat p.1) (isn + Z.of_nat n)) as Hs.
    unfold near in Hp. specialize (Hs ltac:(lia)).
    destruct (seqAfterOrEqual _ _), (Nat.leb_spec n p.1); intuition lia. }
  destruct (Nat.leb n p.1); simpl; by rewrite IH.
Qed.

Lemma total_bound a : Forall pok a → Z.of_nat (total a) <= 65535 * Z.of_nat (length a).
Proof. unfold total. induction 1 as [|p a [_ ?] _ IH]; simpl; lia. Qed.

Lemma chain_end x a : chain x a → Forall pok a → (x ≤ length stream)%nat →
  (x + total a ≤ length stream)%nat.
Proof.
  unfold total. revert x. induction a as [|p a IH]; intros x Hc Hok Hx; simpl; [lia|].
  destruct Hc as [<- Hc]. apply Forall_cons in Hok as [[Hp _] Hok].
  specialize (IH _ Hc Hok ltac:(lia)). lia.
Qed.

Lemma recvs_length k r : (length (RecvBuf (Nat.iter k recv1 r)) ≤ length (RecvBuf r))%nat.
Proof.
  assert (∀ r, (length (RecvBuf (recv1 r)) ≤ length (RecvBuf r))%nat) as H1.
  { intros r0. unfold recv1. destruct (RecvBuf r0) eqn:E; simpl; rewrite ?E; simpl; lia. }
  induction k as [|k IH]; [done|]. simpl. etrans; [apply H1|exact IH].
Qed.

(** With room for all of them every segment is delivered. *)
Lemma phase2_room r segs reads n r' :
  phase2 r segs reads = (n, r') →
  (length (RecvBuf r') ≤ length (RecvBuf r) + n)%nat ∧
  (Z.of_nat (length (RecvBuf r) + length segs) <= RecvBufSize → n = length segs).
Proof.
  revert r reads n. induction segs as [|sg segs IH]; intros r reads n; cbn [phase2].
  { intros [= <- <-]. simpl. split; [lia|done]. }
  pose proof (recvs_length (hd 0%nat reads) r) as Hl.
  set (r1 := Nat.iter (hd 0%nat reads) recv1 r) in *. clearbody r1. case_zif.
  - destruct (phase2 _ segs (tl reads)) as [k r2] eqn:E2. intros [= <- <-].
    apply IH in E2 as [I1 I2]. cbn [RecvBuf set_RecvBuf] in *. rewrite length_app in *. simpl in *.
    split; [lia|]. intros Hr. rewrite I2; [done|lia].
  - intros [= <- <-]. simpl. split; [lia|]. intros Hr. lia.
Qed.

Lemma window_near n n' p : window n p → (n ≤ n')%nat → Z.of_nat n' < Z.of_nat n + half → near p.1 n'.
Proof. intros (_ & ? & ?) ? ?. unfold near. lia. Qed.

Lemma filter_window n n' ps :
  Forall (window n) ps → (n ≤ n')%nat →
  Forall (window n') (List.filter (λ p, Nat.leb n' p.1) ps).
Proof.
  intros Hps Hn. apply Forall_forall. intros p Hp.
  apply list_elem_of_In, filter_In in Hp as [Hin Hle]. apply list_elem_of_In in Hin.
  rewrite Forall_forall in Hps. destruct (Hps p Hin) as (? & ? & ?).
  apply Nat.leb_le in Hle. split; [done|]. split; [done|]. lia.
Qed.

Lemma filter_window_id n ps :
  Forall (window n) ps → List.filter (λ p, Nat.leb n p.1) ps = ps.
Proof.
  induction 1 as [|p ps (_ & ? & _) _ IH]; [done|]. simpl.
  destruct (Nat.leb_spec n p.1); [by rewrite IH|lia].
Qed.

Lemma deliver_inorder r n ps l reads a b ack r' :
  rinv r n ps → RecvClosed r = false → pok (n, l) →
  drainp (length ps) (n + l) ps = (a, b) →
  DeliverInOrder r (segSeq (segp (n, l))) (segData (segp (n, l))) reads = (ack, r') →
  ∃ k n', n' = (n + total (take k ((n, l) :: a)))%nat ∧ (k ≤ S (length a))%nat ∧
    rinv r' n' (List.filter (λ p, Nat.leb n' p.1) (b ++ drop (Nat.max k 1) ((n, l) :: a))) ∧
    ack = u32 (isn + Z.of_nat n') ∧ RecvClosed r' = false ∧
    (length (RecvBuf r') ≤ length (RecvBuf r) + k)%nat ∧
    (Z.of_nat (length (RecvBuf r) + S (length a)) <= RecvBufSize → k = S (length a)).
Proof.
  intros Hi Hcl Hp Hd. unfold DeliverInOrder, phase1. rewrite Hcl.
  cbn [segSeq segp fst]. rewrite <- (ri_exp _ _ _ Hi), Z.eqb_refl.
  change (mkSeg (ExpectedSeq r) _) with (mkSeg (ExpectedSeq r) (segData (segp (n, l)))).
  rewrite (ri_exp _ _ _ Hi). change (mkSeg _ _) with (segp (n, l)).
  rewrite segEnd_segp by done. cbn [fst snd]. rewrite (ri_ooo _ _ _ Hi), length_map.
  pose proof (ri_win _ _ _ Hi) as Hw. pose proof (ri_max _ _ _ Hi) as Hmax.
  destruct Hp as [Hp1 Hp2]. cbn [fst snd] in Hp1, Hp2. unfold MaxOOOBuf in Hmax.
  rewrite (drain_p _ _ _ n) by (done || unfold half; lia). rewrite Hd. cbn [fst snd].
  pose proof (drainp_spec _ _ _ _ _ Hd) as (Hc & Hperm & _).
  assert (chain n ((n, l) :: a)) as Hchain by done.
  set (seg0 := (n, l)) in *. change (segp seg0 :: map segp a) with (map segp (seg0 :: a)).
  assert (Forall (window n) (a ++ b)) as Hab by (by rewrite Hperm).
  apply Forall_app in Hab as [Ha Hb].
  assert (Forall pok (seg0 :: a)) as Hok.
  { constructor; [done|]. eapply Forall_impl; [exact Ha|]. by intros ? [? _]. }
  destruct (phase2 _ (map segp (seg0 :: a)) reads) as [k r2] eqn:E2.
  pose proof (phase2_room _ _ _ _ _ E2) as [Hr1 Hr2].
  apply phase2_spec in E2 as (Hk & Hexp & Hooo & Hcl2 & Hout). rewrite length_map in Hk, Hr2.
  cbn [ExpectedSeq OOOBuf set_OOOBuf RecvClosed RecvBuf] in *.
  destruct (phase3_spec r2 0 k (seg0 :: a) n Hok Hchain) as (P1 & P2 & P3 & P4 & P5);
    [by rewrite Hexp; apply Hi|].
  set (r3 := phase3 r2 0 k (map segp (seg0 :: a))) in *. clearbody r3.
  rewrite Nat.sub_0_r in P1, P2. set (n' := (n + total (take k (seg0 :: a)))%nat) in *.
  intros [= <- <-]. exists k, n'.
  assert (Forall pok (take k (seg0 :: a))) as Hokt by (by apply Forall_take).
  assert (Z.of_nat n' < Z.of_nat n + half) as Hn'.
  { pose proof (total_bound _ Hokt) as Ht. rewrite length_take in Ht. cbn [length] in Ht.
    apply Permutation_length in Hperm. rewrite length_app in Hperm. unfold n', half. lia. }
  assert (Forall (window n) (b ++ drop (Nat.max k 1) (seg0 :: a))) as Hw'.
  { apply Forall_app. split; [done|]. destruct k; cbn [Nat.max drop]; by apply Forall_drop. }
  assert (OOOBuf r3 = map segp (b ++ drop (Nat.max k 1) (seg0 :: a))) as HO
    by (by rewrite P2, Hooo, map_app).
  split_and!; [done|done| |done|simpl; by rewrite P4, Hcl2|simpl; by rewrite P5|exact Hr2].
  split.
  - done.
  - change (out (dropOOOBefore r3 (ExpectedSeq r3))) with (out r3).
    rewrite P3, Hout, firstn_map, chain_bytes with (x := n); [|by apply chain_total_take|done].
    change (out (set_OOOBuf r (map segp b))) with (out r). rewrite (ri_out _ _ _ Hi).
    apply take_slice.
  - apply (chain_end n); [by apply chain_total_take|done|apply Hi].
  - rewrite P1. apply dropOOOBefore_p; [done|].
    eapply Forall_impl; [exact Hw'|]. intros p Hp. apply (window_near n); [done|unfold n'; lia|done].
  - apply (filter_window n); [done|unfold n'; lia].
  - apply Permutation_length in Hperm. rewrite length_app in Hperm.
    pose proof (List.filter_length_le (λ p, Nat.leb n' p.1) (b ++ drop (Nat.max k 1) (seg0 :: a))) as Hf.
    rewrite length_app, length_drop in Hf. cbn [length] in Hf. unfold MaxOOOBuf. lia.
Qed.

(** Only the buffer changed, and nothing in it is old. *)
Lemma rinv_keep r n ps r1 qs :
  rinv r n ps → OOOBuf r1 = map segp qs → Forall (window n) qs →
  Z.of_nat (length qs) <= MaxOOOBuf → out r1 = out r → ExpectedSeq r1 = ExpectedSeq r →
  rinv (dropOOOBefore r1 (u32 (isn + Z.of_nat n))) n qs.
Proof.
  intros Hi HO HW HM Hout Hexp. split; auto.
  - simpl. rewrite Hexp. apply Hi.
  - change (out (dropOOOBefore r1 _)) with (out r1). rewrite Hout. apply Hi.
  - apply Hi.
  - rewrite (dropOOOBefore_p r1 n qs HO), filter_window_id; [done|done|].
    eapply Forall_impl; [exact HW|]. intros q Hq. apply (window_near n); [done|lia|].
    unfold half; lia.
Qed.

Lemma deliver_ahead r n ps p reads ack r' :
  rinv r n ps → RecvClosed r = false → window n p → p.1 ≠ n →
  DeliverInOrder r (segSeq (segp p)) (segData (segp p)) reads = (ack, r') →
  rinv r' n (if bool_decide (p.1 ∈ ps.*1) || negb (Z.of_nat (length ps) <? MaxOOOBuf)
             then ps else ps ++ [p]) ∧
  ack = u32 (isn + Z.of_nat n) ∧ RecvClosed r' = false ∧ RecvBuf r' = RecvBuf r.
Proof.
  intros Hi Hcl Hw Hne. unfold DeliverInOrder, phase1. rewrite Hcl. cbn [segSeq segp].
  rewrite (ri_exp _ _ _ Hi). destruct Hw as (Hpo & Hge & Hlt).
  rewrite seq_eqb_near by (unfold near; lia). destruct (Nat.eqb_spec p.1 n); [done|].
  assert (seqAfter (u32 (isn + Z.of_nat p.1)) (u32 (isn + Z.of_nat n)) = true) as ->
    by (apply seqAfter_near; lia).
  assert (hasOOOSeg r (u32 (isn + Z.of_nat p.1)) = bool_decide (p.1 ∈ ps.*1)) as ->.
  { unfold hasOOOSeg. rewrite (ri_ooo _ _ _ Hi), existsb_map.
    pose proof (ri_win _ _ _ Hi) as Hwin. clear - Hwin Hge Hlt.
    induction Hwin as [|q qs (_ & ? & ?) _ IH]; [done|]. cbn [existsb].
    change (segSeq (segp q)) with (u32 (isn + Z.of_nat q.1)). rewrite seq_eqb_near by (unfold near; lia). rewrite IH.
    destruct (Nat.eqb_spec q.1 p.1) as [<-|Hneq]; simpl.
    - symmetry. apply bool_decide_eq_true. left.
    - apply bool_decide_ext. rewrite elem_of_cons. naive_solver. }
  rewrite (ri_ooo _ _ _ Hi), length_map.
  pose proof (ri_win _ _ _ Hi) as Hwin. pose proof (ri_max _ _ _ Hi) as Hmax.
  destruct (bool_decide (p.1 ∈ ps.*1)) eqn:Eb; cbn [negb andb orb].
  - cbn [phase2 phase3]. rewrite (ri_exp _ _ _ Hi). intros [= <- <-].
    split; [|simpl; by rewrite (ri_exp _ _ _ Hi)]. apply (rinv_keep r n ps); auto. apply Hi.
  - destruct (Z.ltb_spec (Z.of_nat (length ps)) MaxOOOBuf); cbn [negb phase2 phase3].
    + cbn [ExpectedSeq set_OOOBuf]. rewrite (ri_exp _ _ _ Hi). intros [= <- <-].
      split; [|simpl; by rewrite (ri_exp _ _ _ Hi)]. apply (rinv_keep r n ps); auto.
      * simpl. by rewrite map_app.
      * apply Forall_app. split; [done|]. apply Forall_singleton. split; [done|split; done].
      * rewrite length_app. simpl. lia.
    + rewrite (ri_exp _ _ _ Hi). intros [= <- <-].
      split; [|simpl; by rewrite (ri_exp _ _ _ Hi)]. apply (rinv_keep r n ps); auto. apply Hi.
Qed.

Lemma deliver_behind r n ps p reads ack r' :
  rinv r n ps → RecvClosed r = false → near p.1 n → (p.1 < n)%nat →
  DeliverInOrder r (segSeq (segp p)) (segData (segp p)) reads = (ack, r') →
  rinv r' n ps ∧ ack = u32 (isn + Z.of_nat n) ∧ RecvClosed r' = false ∧ RecvBuf r' = RecvBuf r.
Proof.
  intros Hi Hcl Hn Hlt. unfold DeliverInOrder, phase1. rewrite Hcl. cbn [segSeq segp].
  rewrite (ri_exp _ _ _ Hi), seq_eqb_near by done. destruct (Nat.eqb_spec p.1 n); [lia|].
  destruct (seqAfter _ _) eqn:Ea.
  { apply seqAfter_near in Ea; [lia|]. unfold near in Hn. lia. }
  cbn [phase2 phase3]. rewrite (ri_exp _ _ _ Hi). intros [= <- <-].
  split; [|simpl; by rewrite (ri_exp _ _ _ Hi)].
  pose proof (ri_win _ _ _ Hi). pose proof (ri_max _ _ _ Hi). pose proof (ri_ooo _ _ _ Hi).
  by apply (rinv_keep r n ps).
Qed.

(** ** Any history of the receive side *)

Inductive rx_op :=
| Arrive (p : nat * nat) (reads : list nat)   (* a segment comes from the network *)
| AppRecv                                     (* the application takes one *)
| CloseRecv.

Definition rx_step (r : Receiver) (o : rx_op) : Receiver :=
  match o with
  | Arrive p reads => snd (DeliverInOrder r (segSeq (segp p)) (segData (segp p)) reads)
  | AppRecv => recv1 r
  | CloseRecv => CloseRecvBuf r
  end.

(** What is asked of the network: a segment is a part of the stream, no larger
    than a datagram, and less than half the sequence space from where the
    receiver stands. *)
Definition rx_allowed (r : Receiver) (o : rx_op) : Prop :=
  match o with
  | Arrive p _ => pok p ∧ near p.1 (length (out r))
  | _ => True
  end.

Inductive rx_reach (r0 : Receiver) : Receiver → Prop :=
| rx_refl : rx_reach r0 r0
| rx_next r o : rx_reach r0 r → rx_allowed r o → rx_reach r0 (rx_step r o).

Lemma rinv_n r n ps : rinv r n ps → n = length (out r).
Proof. intros Hi. rewrite (ri_out _ _ _ Hi), length_take. pose proof (ri_len _ _ _ Hi). lia. Qed.

Lemma deliver_step r n ps p reads :
  rinv r n ps → pok p → near p.1 n →
  let '(ack, r') := DeliverInOrder r (segSeq (segp p)) (segData (segp p)) reads in
  ∃ n' ps', rinv r' n' ps' ∧ (n ≤ n')%nat ∧ ack = ExpectedSeq r'.
Proof.
  intros Hi Hp Hn. destruct (DeliverInOrder _ _ _ _) as [ack r'] eqn:E.
  destruct (RecvClosed r) eqn:Hcl.
  { unfold DeliverInOrder in E. rewrite Hcl in E. injection E as <- <-. by exists n, ps. }
  destruct (Nat.lt_trichotomy p.1 n) as [Hlt|[Heq|Hgt]].
  - apply (deliver_behind r n ps p) in E as (Hi' & -> & _); [|done..].
    exists n, ps. split_and!; [done|lia|]. by rewrite (ri_exp _ _ _ Hi').
  - destruct p as [o l]. simpl in Heq. subst o.
    destruct (drainp (length ps) (n + l) ps) as [a b] eqn:Ed.
    destruct (deliver_inorder r n ps l reads a b ack r' Hi Hcl Hp Ed E)
      as (k & n' & Hn' & _ & Hi' & -> & _).
    exists n'. eexists. split_and!; [exact Hi'|lia|]. by rewrite (ri_exp _ _ _ Hi').
  - apply (deliver_ahead r n ps p) in E as (Hi' & -> & _); [|done|done| |lia].
    + exists n. eexists. split_and!; [exact Hi'|lia|]. by rewrite (ri_exp _ _ _ Hi').
    + split; [done|]. unfold near in Hn. lia.
Qed.

Lemma rx_reach_inv r0 r n0 :
  rinv r0 n0 [] → rx_reach r0 r → ∃ n ps, rinv r n ps.
Proof.
  intros H0. induction 1 as [|r o _ (n & ps & Hi) Ha]; [by exists n0, []|].
  destruct o as [p reads| |]; simpl in Ha |- *.
  - destruct Ha as [Hp Hn]. rewrite <- (rinv_n r n ps Hi) in Hn.
    pose proof (deliver_step r n ps p reads Hi Hp Hn) as H.
    destruct (DeliverInOrder _ _ _ _) as [ack r']. destruct H as (n' & ps' & ? & _). eauto.
  - destruct (recv1_out r) as (R1 & R2 & R3 & _). destruct Hi. exists n, ps.
    split; congruence.
  - destruct Hi. exists n, ps. by split.
Qed.

(** A receiver that has just learnt the peer's initial sequence number. *)
Definition receiver_at (sq : Z) : Receiver := mkReceiver sq [] [] [] false false 0 zero_time.

(** C3. The receiver delivers the stream.  The arrivals are pieces of the stream,
    at most 65535 bytes each, reordered, duplicated and lost at will as long as each arrives within 2^31 bytes of the receiver's
    position at that time (before or after it: a duplicate 2^32 bytes old would be
    taken for new data).  Then, whatever the application reads and when, and even
    when the receive channel is full and deliveries time out: the bytes handed to
    the application so far are a prefix of the stream; the next expected sequence
    number (the cumulative ACK) is exactly the position after them, modulo 2^32;
    and the reorder buffer never exceeds [MaxOOOBuf]. *)
Theorem receiver_delivers_stream r :
  rx_reach (receiver_at (u32 isn)) r →
  out r = take (length (out r)) stream ∧
  ExpectedSeq r = u32 (isn + Z.of_nat (length (out r))) ∧
  Z.of_nat (length (OOOBuf r)) <= MaxOOOBuf.
Proof.
  intros H. assert (rinv (receiver_at (u32 isn)) 0 []) as H0.
  { split; try done; [|simpl; lia]. simpl. f_equal. lia. }
  destruct (rx_reach_inv _ _ 0 H0 H) as (n & ps & Hi).
  rewrite <- (rinv_n r n ps Hi). split_and!; [apply Hi..|].
  rewrite (ri_ooo _ _ _ Hi), length_map. apply Hi.
Qed.

(** ** Complete delivery *)

Lemma NoDup_filter_bool {A} (f : A → bool) l : NoDup l → NoDup (List.filter f l).
Proof.
  induction 1 as [|x l Hx _ IH]; simpl; [constructor|]. case_match; [|done].
  constructor; [|done]. intros Hin%list_elem_of_In%filter_In. apply Hx, list_elem_of_In, Hin.
Qed.


Lemma chain_app x a b : chain x (a ++ b) ↔ chain x a ∧ chain (x + total a) b.
Proof.
  unfold total. revert x. induction a as [|p a IH]; intros x; simpl.
  - rewrite Nat.add_0_r. naive_solver.
  - rewrite IH, Nat.add_assoc. naive_solver.
Qed.

Lemma total_app a b : total (a ++ b) = (total a + total b)%nat.
Proof. unfold total. rewrite map_app. induction a as [|p a IH]; simpl; lia. Qed.

Definition positive (a : list (nat * nat)) : Prop := Forall (λ p, 0 < p.2)%nat a.

Lemma chain_ge x a p : chain x a → p ∈ a → (x ≤ p.1)%nat.
Proof.
  revert x. induction a as [|q a IH]; intros x Hc Hin; [set_solver|]. destruct Hc as [<- Hc].
  apply elem_of_cons in Hin as [->|Hin]; [done|]. specialize (IH _ Hc Hin). lia.
Qed.

Lemma chain_lt x a p : chain x a → positive a → p ∈ a → (p.1 < x + total a)%nat.
Proof.
  unfold total. revert x. induction a as [|q a IH]; intros x Hc Hpos Hin; [set_solver|].
  destruct Hc as [<- Hc]. apply Forall_cons in Hpos as [Hq Hpos]. simpl.
  apply elem_of_cons in Hin as [->|Hin]; [lia|]. specialize (IH _ Hc Hpos Hin). lia.
Qed.

Lemma chain_inj x a p q : chain x a → positive a → p ∈ a → q ∈ a → p.1 = q.1 → p = q.
Proof.
  revert x. induction a as [|y a IH]; intros x Hc Hpos Hp Hq He; [set_solver|].
  destruct Hc as [<- Hc]. apply Forall_cons in Hpos as [Hy Hpos].
  apply elem_of_cons in Hp as [->|Hp]; apply elem_of_cons in Hq as [->|Hq]; [done| | |].
  - pose proof (chain_ge _ _ _ Hc Hq). lia.
  - pose proof (chain_ge _ _ _ Hc Hp). lia.
  - by apply (IH (y.1 + y.2)%nat).
Qed.

Lemma chain_nodup x a : chain x a → positive a → NoDup a.
Proof.
  revert x. induction a as [|y a IH]; intros x Hc Hpos; [constructor|].
  destruct Hc as [<- Hc]. apply Forall_cons in Hpos as [Hy Hpos].
  constructor; [|by eapply IH]. intros Hin. pose proof (chain_ge _ _ _ Hc Hin). lia.
Qed.

(** A chain drawn from another one that starts at the same place is a prefix. *)
Lemma chain_prefix x a c :
  chain x a → chain x c → positive c → (∀ p, p ∈ a → p ∈ c) → ∃ c', c = a ++ c'.
Proof.
  revert x c. induction a as [|p a IH]; intros x c Ha Hc Hpos Hin; [by exists c|].
  destruct Ha as [<- Ha]. destruct c as [|q c]; [specialize (Hin p); set_solver|].
  assert (p = q) as ->.
  { apply (chain_inj p.1 (q :: c)); try done; [set_solver|set_solver|]. by destruct Hc. }
  destruct Hc as [_ Hc]. apply Forall_cons in Hpos as [Hq Hpos].
  destruct (IH (q.1 + q.2)%nat c Ha Hc Hpos) as [c' ->]; [|by exists c'].
  intros y Hy. specialize (Hin y ltac:(set_solver)). apply elem_of_cons in Hin as [->|?]; [|done].
  pose proof (chain_ge _ _ _ Ha Hy). lia.
Qed.

(** Progress towards delivering all of [fin ++ rest], of which [seen] arrived. *)
Record progress (r : Receiver) (seen fin rest ps : list (nat * nat)) : Prop := {
  pr_inv : rinv r (total fin) ps;
  pr_open : RecvClosed r = false;
  pr_ps : ∀ q, q ∈ ps ↔ q ∈ rest ∧ q ∈ seen;
  pr_nodup : NoDup ps;
  pr_head : ∀ q l, rest = q :: l → q ∉ seen;
  pr_buf : (length (RecvBuf r) ≤ length fin)%nat;
}.

Section complete.
Context (pieces : list (nat * nat)).
Hypothesis pieces_chain : chain 0 pieces.
Hypothesis pieces_pos : positive pieces.
Hypothesis pieces_ok : Forall pok pieces.
Hypothesis pieces_all : total pieces = length stream.
Hypothesis pieces_few : Z.of_nat (length pieces) <= MaxOOOBuf + 1.
Hypothesis stream_short : Z.of_nat (length stream) < half.

Lemma fin_rest_facts fin rest :
  pieces = fin ++ rest →
  chain (total fin) rest ∧ positive rest ∧ NoDup rest ∧
  (∀ p, p ∈ fin → (p.1 < total fin)%nat) ∧ (total fin ≤ length stream)%nat.
Proof.
  intros E. pose proof pieces_chain as Hc. pose proof pieces_pos as Hp. rewrite E in Hc, Hp.
  apply chain_app in Hc as [Hc1 Hc2]. apply Forall_app in Hp as [Hp1 Hp2]. simpl in Hc2.
  split_and!; [done|done|by eapply chain_nodup| |].
  - intros p Hin. by apply (chain_lt 0).
  - rewrite <- pieces_all, E, total_app. lia.
Qed.

Lemma piece_near p n : p ∈ pieces → (n ≤ length stream)%nat → pok p ∧ near p.1 n.
Proof.
  intros Hin Hn. pose proof pieces_ok as Ho. rewrite Forall_forall in Ho.
  pose proof (chain_lt _ _ _ pieces_chain pieces_pos Hin) as Hlt. simpl in Hlt.
  rewrite pieces_all in Hlt. split; [auto|]. unfold near. lia.
Qed.

Lemma progress_behind r seen fin rest ps p reads :
  pieces = fin ++ rest → progress r seen fin rest ps → p ∈ fin →
  progress (rx_step r (Arrive p reads)) (p :: seen) fin rest ps.
Proof.
  intros E [Hi Hop Hps Hnd Hhd Hbuf] Hin.
  destruct (fin_rest_facts _ _ E) as (Hc & Hpos & _ & Hlt & Hlen).
  destruct (piece_near p (total fin)) as [Hpo Hn]; [rewrite E; set_solver|done|].
  simpl. destruct (DeliverInOrder _ _ _ _) as [ack r'] eqn:Ed. cbn [snd].
  apply (deliver_behind r (total fin) ps p) in Ed as (Hi' & _ & Hop' & Hb'); [|auto..].
  assert (∀ q, q ∈ rest → q ≠ p) as Hne.
  { intros q Hq ->. pose proof (chain_ge _ _ _ Hc Hq). specialize (Hlt _ Hin). lia. }
  split; simpl; auto.
  - intros q. rewrite Hps, elem_of_cons. specialize (Hne q). naive_solver.
  - intros q l ->. rewrite not_elem_of_cons. split; [apply Hne; set_solver|by eapply Hhd].
  - by rewrite Hb'.
Qed.

Lemma progress_ahead r seen fin rest ps p h reads :
  pieces = fin ++ h :: rest → progress r seen fin (h :: rest) ps → p ∈ rest →
  ∃ ps', progress (rx_step r (Arrive p reads)) (p :: seen) fin (h :: rest) ps'.
Proof.
  intros E [Hi Hop Hps Hnd Hhd Hbuf] Hin.
  destruct (fin_rest_facts _ _ E) as (Hc & Hpos & Hndr & Hlt & Hlen).
  destruct (piece_near p (total fin)) as [Hpo Hn]; [rewrite E; set_solver|done|].
  assert (total fin < p.1)%nat as Hgt.
  { destruct Hc as [Hh Hc]. apply Forall_cons in Hpos as [Hh2 _].
    pose proof (chain_ge _ _ _ Hc Hin). lia. }
  simpl. destruct (DeliverInOrder _ _ _ _) as [ack r'] eqn:Ed. cbn [snd].
  apply (deliver_ahead r (total fin) ps p) in Ed as (Hi' & _ & Hop' & Hb');
    [|done|done|split; [done|unfold near in Hn; lia]|lia].
  assert (h ∉ ps) as Hhps by (intros [_ Hs]%Hps; by eapply Hhd).
  assert (p ≠ h) as Hph by (intros ->; apply NoDup_cons in Hndr as [? _]; done).
  exists (if bool_decide (p.1 ∈ ps.*1) || negb (Z.of_nat (length ps) <? MaxOOOBuf)
          then ps else ps ++ [p]).
  destruct (bool_decide (p.1 ∈ ps.*1)) eqn:Eb; cbn [orb] in *.
  - apply bool_decide_eq_true, list_elem_of_fmap in Eb as (q & Hq & Hqin).
    assert (p = q) as -> by (apply (chain_inj (total fin) (h :: rest)); try done; [set_solver|by apply Hps]).
    split; auto; [|intros x l [= <- <-]; set_solver|by rewrite Hb'].
    intros x. rewrite Hps. split; [intros [? ?]; split; [done|by right]|].
    intros [Hx [->|?]%elem_of_cons]; [by apply Hps|done].
  - apply bool_decide_eq_false in Eb.
    assert (p ∉ ps) as Hpps by (intros Hx; apply Eb, list_elem_of_fmap; eauto).
    assert (Z.of_nat (length ps) < MaxOOOBuf) as Hcap.
    { assert (length (h :: p :: ps) ≤ length (h :: rest))%nat as Hl.
      { apply NoDup_incl_length.
        - apply NoDup_ListNoDup. repeat constructor; set_solver.
        - intros x Hx%list_elem_of_In. apply list_elem_of_In. set_solver. }
      pose proof pieces_few as Hf. rewrite E, length_app in Hf. simpl in *. lia. }
    apply Z.ltb_lt in Hcap. rewrite Hcap in *. cbn [negb] in *.
    split; auto; [| |intros x l [= <- <-]; set_solver|by rewrite Hb'].
    + intros x. rewrite elem_of_app, list_elem_of_singleton, Hps. split.
      * intros [[? ?]| -> ]; split; try done; [by right|by right|by left].
      * intros [Hx [->|?]%elem_of_cons]; [by right|by left].
    + apply NoDup_app. split_and!; [done|set_solver|apply NoDup_singleton].
Qed.

Lemma progress_inorder r seen fin rest ps h reads :
  pieces = fin ++ h :: rest → progress r seen fin (h :: rest) ps →
  ∃ fin' rest' ps', pieces = fin' ++ rest' ∧
    progress (rx_step r (Arrive h reads)) (h :: seen) fin' rest' ps'.
Proof.
  intros E [Hi Hop Hps Hnd Hhd Hbuf].
  destruct (fin_rest_facts _ _ E) as (Hc & Hpos & Hndr & Hlt & Hlen).
  destruct (piece_near h (total fin)) as [Hpo _]; [rewrite E; set_solver|done|].
  assert (h ∉ ps) as Hhps by (intros [_ Hs]%Hps; by eapply Hhd).
  destruct h as [o l]. destruct Hc as [Ho Hc]. cbn [fst snd] in Ho, Hc. subst o.
  destruct (drainp (length ps) (total fin + l) ps) as [a b] eqn:Ed.
  pose proof (drainp_spec _ _ _ _ _ Ed) as (Hca & Hperm & _).
  pose proof (drainp_maximal _ _ _ _ _ Ed ltac:(lia)) as Hmax.
  apply Forall_cons in Hpos as [Hl Hpos]. apply NoDup_cons in Hndr as [Hhr Hndr].
  assert (∀ q, q ∈ a → q ∈ rest) as Har.
  { intros q Hq. assert (q ∈ ps) as Hq' by (rewrite <- Hperm; set_solver).
    apply Hps in Hq' as [[->|?]%elem_of_cons ?]; [|done]. by destruct (Hhd _ _ eq_refl). }
  destruct (chain_prefix _ a rest Hca Hc Hpos Har) as [rest' ->].
  set (h := (total fin, l)) in *.
  simpl. destruct (DeliverInOrder _ _ _ _) as [ack r'] eqn:Edl. cbn [snd].
  destruct (deliver_inorder r (total fin) ps l reads a b ack r' Hi Hop Hpo Ed Edl)
    as (k & n' & Hn' & _ & Hi' & _ & Hop' & Hbuf' & Hroom).
  assert (k = S (length a)) as ->.
  { apply Hroom. pose proof pieces_few as Hf. rewrite E, length_app in Hf. simpl in Hf.
    rewrite length_app in Hf. unfold MaxOOOBuf, RecvBufSize in *. lia. }
  rewrite take_ge, drop_ge in * by (simpl; lia). rewrite app_nil_r in Hi'.
  exists (fin ++ h :: a), rest'. eexists. split; [by rewrite <- app_assoc|].
  assert (n' = total (fin ++ h :: a)) as En by (by rewrite total_app).
  assert (pieces = (fin ++ h :: a) ++ rest') as E' by (by rewrite <- app_assoc).
  destruct (fin_rest_facts _ _ E') as (Hc' & _ & _ & _ & _).
  pose proof Hnd as Hnd'. rewrite <- Hperm in Hnd'. apply NoDup_app in Hnd' as (_ & Hdis & Hndb).
  apply NoDup_app in Hndr as (_ & Hdis' & _).
  assert (∀ q, q ∈ List.filter (λ p, Nat.leb n' p.1) b ↔ q ∈ rest' ∧ q ∈ h :: seen) as Hps'.
  { intros q. rewrite list_elem_of_In, filter_In, <- list_elem_of_In, Nat.leb_le. split.
    - intros [Hqb Hqn]. assert (q ∈ ps) as Hq by (rewrite <- Hperm; set_solver).
      apply Hps in Hq as [Hq Hs]. split; [|set_solver].
      apply elem_of_cons in Hq as [->|Hq]; [by destruct (Hhd _ _ eq_refl)|].
      apply elem_of_app in Hq as [Hqa|?]; [|done]. by destruct (Hdis q Hqa).
    - intros [Hqr [->|Hs]%elem_of_cons]; [set_solver|].
      assert (q ∈ ps) as Hq by (apply Hps; set_solver). rewrite <- Hperm in Hq.
      apply elem_of_app in Hq as [Hqa|?]; [by destruct (Hdis' q Hqa)|]. split; [done|].
      rewrite En. by apply (chain_ge _ rest'). }
  split; [by rewrite <- En|done|exact Hps'|by apply NoDup_filter_bool| |].
  - intros q lq -> Hqs. assert (q.1 = n') as Hq1 by (rewrite En; by destruct Hc').
    destruct (Hps' q) as [_ Hq]. specialize (Hq ltac:(set_solver)).
    apply list_elem_of_In, filter_In in Hq as [Hq _]. apply list_elem_of_In in Hq.
    apply Hmax, list_elem_of_fmap. exists q. split; [|done]. rewrite Hq1, Hn'. unfold total. simpl. lia.
  - rewrite length_app. simpl. lia.
Qed.

Lemma progress_step r seen fin rest ps p reads :
  pieces = fin ++ rest → progress r seen fin rest ps → p ∈ pieces →
  ∃ fin' rest' ps', pieces = fin' ++ rest' ∧
    progress (rx_step r (Arrive p reads)) (p :: seen) fin' rest' ps'.
Proof.
  intros E Hpr Hp. rewrite E in Hp. apply elem_of_app in Hp as [Hp|Hp].
  - exists fin, rest, ps. split; [done|]. by apply progress_behind.
  - destruct rest as [|h rest]; [set_solver|]. apply elem_of_cons in Hp as [->|Hp].
    + by apply (progress_inorder r seen fin rest ps).
    + destruct (progress_ahead r seen fin rest ps p h reads E Hpr Hp) as [ps' ?].
      by exists fin, (h :: rest), ps'.
Qed.

(** The segments arrive in the order of [arr]. *)
Definition arrivals (arr : list ((nat * nat) * list nat)) (r : Receiver) : Receiver :=
  fold_left (λ r x, rx_step r (Arrive x.1 x.2)) arr r.

Lemma progress_arrivals arr r seen fin rest ps :
  pieces = fin ++ rest → progress r seen fin rest ps → (∀ x, x ∈ arr → x.1 ∈ pieces) →
  ∃ seen' fin' rest' ps', pieces = fin' ++ rest' ∧ progress (arrivals arr r) seen' fin' rest' ps' ∧
    ∀ p, p ∈ arr.*1 ∨ p ∈ seen → p ∈ seen'.
Proof.
  revert r seen fin rest ps. induction arr as [|x arr IH]; intros r seen fin rest ps E Hpr Harr.
  { exists seen, fin, rest, ps. split_and!; [done..|]. set_solver. }
  destruct (progress_step r seen fin rest ps x.1 x.2 E Hpr) as (fin1 & rest1 & ps1 & E1 & Hpr1);
    [apply Harr; left|].
  destruct (IH _ _ _ _ _ E1 Hpr1) as (seen' & fin' & rest' & ps' & E' & Hpr' & Hs).
  { intros y Hy. apply Harr. by right. }
  exists seen', fin', rest', ps'. split_and!; [done..|].
  intros p [Hp|Hp]; [|apply Hs; right; by right].
  simpl in Hp. apply elem_of_cons in Hp as [->|Hp]; apply Hs; [right; left|by left].
Qed.
End complete.

(** C4. Everything sent is delivered, in order, once every segment has got
    through.  Cut the stream into at most [MaxOOOBuf + 1] non-empty segments.
    If they arrive in any order, any number of times, each at least once, the
    application is handed exactly the stream, the cumulative ACK covers all of
    it, and nothing is left in the reorder buffer. *)
Theorem receiver_delivers_everything pieces arr :
  chain 0 pieces → positive pieces → Forall pok pieces → total pieces = length stream →
  Z.of_nat (length pieces) <= MaxOOOBuf + 1 → Z.of_nat (length stream) < half →
  (∀ x, x ∈ arr → x.1 ∈ pieces) → (∀ p, p ∈ pieces → p ∈ arr.*1) →
  let r := arrivals arr (receiver_at (u32 isn)) in
  out r = stream ∧ ExpectedSeq r = u32 (isn + Z.of_nat (length stream)) ∧ OOOBuf r = [].
Proof.
  intros Hc Hpos Hok Hall Hfew Hshort Harr Hcov r.
  assert (progress (receiver_at (u32 isn)) [] [] pieces []) as H0.
  { split; try done; [|set_solver|constructor|intros; set_solver].
    split; try done; unfold total; simpl; first [lia|constructor|f_equal; lia]. }
  destruct (progress_arrivals pieces Hc Hpos Hok Hall Hfew Hshort arr _ [] [] pieces [] eq_refl H0 Harr)
    as (seen & fin & rest & ps & E & Hpr & Hs).
  fold r in Hpr. destruct Hpr as [Hi _ Hps _ Hhd _].
  assert (rest = []) as ->.
  { destruct rest as [|q l]; [done|]. destruct (Hhd q l eq_refl). apply Hs. left. apply Hcov.
    rewrite E. set_solver. }
  rewrite app_nil_r in E. subst fin. rewrite Hall in Hi. split_and!.
  - rewrite (ri_out _ _ _ Hi). by rewrite take_ge.
  - apply Hi.
  - rewrite (ri_ooo _ _ _ Hi). destruct ps as [|q ps]; [done|].
    destruct (Hps q) as [Hq _]. set_solver.
Qed.
End Stream.

(** ** Witnesses *)

(** Twelve bytes in three segments, across the wrap of the sequence space. *)
Definition toy_stream : bytes := [1;2;3;4;5;6;7;8;9;10;11;12].
Definition toy_isn : Z := 4294967290.
Definition toy_pieces : list (nat * nat) := [(0, 4); (4, 4); (8, 4)]%nat.

Lemma receiver_delivers_stream_witness :
  let r := rx_step toy_stream toy_isn (rx_step toy_stream toy_isn (receiver_at toy_isn)
             (Arrive (4, 4)%nat [])) (Arrive (0, 4)%nat []) in
  out r = [1;2;3;4;5;6;7;8] ∧ ExpectedSeq r = 2.
Proof.
  intros r.
  assert (rx_reach toy_stream toy_isn (receiver_at (u32 toy_isn)) r) as Hreach.
  { unfold r. change (receiver_at toy_isn) with (receiver_at (u32 toy_isn)).
    apply rx_next; [apply rx_next; [apply rx_refl|]|].
    - split; [split; vm_compute; lia || discriminate|]. vm_compute. split; reflexivity.
    - split; [split; vm_compute; lia || discriminate|]. vm_compute. split; reflexivity. }
  destruct (receiver_delivers_stream toy_stream toy_isn r Hreach) as (H1 & H2 & _).
  assert (length (out r) = 8%nat) as Hl by (vm_compute; reflexivity).
  rewrite Hl in H1, H2. rewrite H1, H2. split; vm_compute; reflexivity.
Defined.

Lemma receiver_delivers_everything_witness :
  let r := arrivals toy_stream toy_isn
    [((8, 4), []); ((4, 4), []); ((8, 4), []); ((0, 4), []); ((4, 4), [])]%nat (receiver_at toy_isn) in
  out r = toy_stream ∧ ExpectedSeq r = 6 ∧ OOOBuf r = [].
Proof.
  change (receiver_at toy_isn) with (receiver_at (u32 toy_isn)).
  change 6 with (u32 (toy_isn + Z.of_nat (length toy_stream))).
  apply (receiver_delivers_everything toy_stream toy_isn toy_pieces).
  - repeat split.
  - repeat constructor.
  - repeat constructor; vm_compute; discriminate.
  - vm_compute. reflexivity.
  - vm_compute. discriminate.
  - vm_compute. reflexivity.
  - intros x Hx. unfold toy_pieces. set_solver.
  - intros p Hp. unfold toy_pieces in Hp. set_solver.
Defined.
