(* ===== verification/SackBlocks.v ===== *)
(** * SACK blocks: what the receiver reports and what the sender concludes

    [SACKBlocks] of Reassembly against the buffered intervals, and its
    composition with [ProcessSACK] of Sender. *)
From S2P Require Import Prelude SeqNum Sack Protocol Conn Sender Reassembly ReassemblyProofs.
Open Scope Z_scope.

(** ** Intervals *)

Fixpoint insertp (p : nat * nat) (l : list (nat * nat)) : list (nat * nat) :=
  match l with
  | [] => [p]
  | x :: l' => if Nat.ltb p.1 x.1 then p :: l else x :: insertp p l'
  end.
Definition sortp (l : list (nat * nat)) : list (nat * nat) := fold_right insertp [] l.

(** Merge the segments [l] (offset, length) into half-open intervals. *)
Fixpoint mergep (cur : nat * nat) (l : list (nat * nat)) : list (nat * nat) :=
  match l with
  | [] => [cur]
  | p :: l => if Nat.leb p.1 cur.2 then mergep (cur.1, Nat.max cur.2 (p.1 + p.2)) l
              else cur :: mergep (p.1, (p.1 + p.2)%nat) l
  end.

Lemma insertp_perm p l : insertp p l ≡ₚ p :: l.
Proof.
  induction l as [|x l IH]; simpl; [done|]. case_match; [done|]. rewrite IH. apply perm_swap.
Qed.

Lemma sortp_perm l : sortp l ≡ₚ l.
Proof. induction l as [|p l IH]; simpl; [done|]. by rewrite insertp_perm, IH. Qed.

(** Sorted by start. *)
Fixpoint sorted_from (a : nat) (l : list (nat * nat)) : Prop :=
  match l with
  | [] => True
  | p :: l => (a ≤ p.1)%nat ∧ sorted_from p.1 l
  end.

Lemma sorted_from_le a b l : (a ≤ b)%nat → sorted_from b l → sorted_from a l.
Proof. destruct l; simpl; [done|]. intros ? []. split; [lia|done]. Qed.

Lemma insertp_sorted a p l :
  sorted_from a l → (a ≤ p.1)%nat → sorted_from a (insertp p l).
Proof.
  revert a. induction l as [|x l IH]; intros a Hs Ha; simpl; [done|]. destruct Hs as [Hx Hs].
  destruct (Nat.ltb_spec p.1 x.1); simpl; [split_and!; (done || lia)|].
  split; [done|]. apply IH; [done|lia].
Qed.

Lemma sortp_sorted l : sorted_from 0 (sortp l).
Proof. induction l as [|p l IH]; simpl; [done|]. apply insertp_sorted; [done|lia]. Qed.

Definition covers (ivs : list (nat * nat)) (x : nat) : Prop :=
  ∃ iv, iv ∈ ivs ∧ (iv.1 ≤ x < iv.2)%nat.
Definition held (ps : list (nat * nat)) (x : nat) : Prop :=
  ∃ p, p ∈ ps ∧ (p.1 ≤ x < p.1 + p.2)%nat.

Lemma mergep_covers cur l x :
  sorted_from cur.1 l →
  covers (mergep cur l) x ↔ (cur.1 ≤ x < cur.2)%nat ∨ held l x.
Proof.
  unfold covers, held. revert cur. induction l as [|p l IH]; intros cur Hs; simpl.
  - split; [intros (iv & ->%list_elem_of_singleton & ?); by left|].
    intros [?|(p & ? & _)]; [|set_solver]. exists cur. split; [by apply list_elem_of_singleton|done].
  - destruct Hs as [Hp Hs]. destruct (Nat.leb_spec p.1 cur.2) as [Hle|Hgt].
    + rewrite IH by (simpl; by apply (sorted_from_le _ p.1)). cbn [fst snd]. split.
      * intros [Hx|(q & ? & ?)]; [|right; exists q; split; [by right|done]].
        destruct (decide (x < cur.2)%nat); [left; lia|]. right. exists p. split; [left|lia].
      * intros [Hx|(q & [->|Hq]%elem_of_cons & Hqx)]; [left; lia|left; lia|right; eauto].
    + split.
      * intros (iv & [->|Hiv]%elem_of_cons & Hx); [by left|]. right.
        destruct (IH (p.1, p.1 + p.2)%nat Hs) as [IH1 _].
        destruct (IH1 ltac:(eauto)) as [?|(q & ? & ?)];
          [exists p; split; [left|done]|exists q; split; [by right|done]].
      * destruct (IH (p.1, p.1 + p.2)%nat Hs) as [_ IH2].
        intros [Hx|(q & [->|Hq]%elem_of_cons & Hqx)].
        -- exists cur. split; [left|done].
        -- destruct IH2 as (iv & ? & ?); [by left|]. exists iv. split; [by right|done].
        -- destruct IH2 as (iv & ? & ?); [right; eauto|]. exists iv. split; [by right|done].
Qed.

(** Increasing and separated by gaps, starting after [e]. *)
Fixpoint gapped (e : nat) (ivs : list (nat * nat)) : Prop :=
  match ivs with
  | [] => True
  | iv :: l => (e < iv.1)%nat ∧ gapped iv.2 l
  end.

Lemma mergep_gapped cur l :
  ∃ c rest, mergep cur l = c :: rest ∧ c.1 = cur.1 ∧ (cur.2 ≤ c.2)%nat ∧ gapped c.2 rest.
Proof.
  revert cur. induction l as [|p l IH]; intros cur; simpl; [by exists cur, []|].
  destruct (Nat.leb_spec p.1 cur.2).
  - destruct (IH (cur.1, Nat.max cur.2 (p.1 + p.2))) as (c & rest & -> & ? & ? & ?).
    exists c, rest. simpl in *. split_and!; [done|done|lia|done].
  - destruct (IH (p.1, p.1 + p.2)%nat) as (c & rest & -> & Hc & ? & ?).
    exists cur, (c :: rest). simpl in *. split_and!; [done|done|lia|lia|done].
Qed.

Lemma mergep_nonempty cur l :
  (cur.1 < cur.2)%nat → positive l → Forall (λ iv, iv.1 < iv.2)%nat (mergep cur l).
Proof.
  intros Hc Hl. revert cur Hc. induction Hl as [|p l Hp _ IH]; intros cur Hc; simpl.
  { by apply Forall_singleton. }
  case_match; [apply IH; simpl; lia|]. constructor; [done|]. apply IH. simpl. lia.
Qed.

Section Stream.
Context (stream : bytes) (isn : Z).
Local Abbreviation sg := (segp stream isn).

Definition block (iv : nat * nat) : SACKBlock :=
  mkSACKBlock (u32 (isn + Z.of_nat iv.1)) (u32 (isn + Z.of_nat iv.2)).

(** Everything buffered ends within half the sequence space of [n]. *)
Definition inside (n : nat) (p : nat * nat) : Prop :=
  pok stream p ∧ (n ≤ p.1)%nat ∧ Z.of_nat (p.1 + p.2) < Z.of_nat n + half.

Lemma seqAfter_pos a b :
  near a b → seqAfter (u32 (isn + Z.of_nat a)) (u32 (isn + Z.of_nat b)) = Nat.ltb b a.
Proof.
  intros Hn. pose proof (seqAfter_near (isn + Z.of_nat a) (isn + Z.of_nat b)) as H.
  unfold near in Hn. specialize (H ltac:(lia)).
  destruct (seqAfter _ _), (Nat.ltb_spec b a); intuition lia.
Qed.

Lemma seqAfterOrEqual_pos a b :
  near a b → seqAfterOrEqual (u32 (isn + Z.of_nat a)) (u32 (isn + Z.of_nat b)) = Nat.leb b a.
Proof.
  intros Hn. pose proof (seqAfterOrEqual_near (isn + Z.of_nat a) (isn + Z.of_nat b)) as H.
  unfold near in Hn. specialize (H ltac:(lia)).
  destruct (seqAfterOrEqual _ _), (Nat.leb_spec b a); intuition lia.
Qed.

Lemma insert_seg_p n p l :
  inside n p → Forall (inside n) l →
  insert_seg (sg p) (map sg l) = map sg (insertp p l).
Proof.
  intros (_ & ? & ?). induction 1 as [|x l (Hx1 & Hx2 & Hx3) _ IH]; [done|].
  cbn [map insert_seg insertp].
  change (segSeq (sg x)) with (u32 (isn + Z.of_nat x.1)).
  change (segSeq (sg p)) with (u32 (isn + Z.of_nat p.1)).
  rewrite seqAfter_pos by (unfold near; lia).
  destruct (Nat.ltb p.1 x.1); simpl; by rewrite ?IH.
Qed.

Lemma sort_segs_p n l : Forall (inside n) l → sort_segs (map sg l) = map sg (sortp l).
Proof.
  induction 1 as [|p l Hp Hl IH]; [done|]. cbn [map]. unfold sort_segs in *. simpl.
  rewrite IH. apply (insert_seg_p n); [done|]. by rewrite sortp_perm.
Qed.

Lemma merge_blocks_p n cur l :
  (n ≤ cur.1 ≤ cur.2)%nat → Z.of_nat cur.2 < Z.of_nat n + half → Forall (inside n) l →
  merge_blocks (block cur) (map sg l) = map block (mergep cur l).
Proof.
  intros Hc Hc2 Hl. revert cur Hc Hc2.
  induction Hl as [|p l (Hp & Hp1 & Hp2) _ IH]; intros cur Hc Hc2; [done|].
  cbn [map merge_blocks mergep Right Left block].
  change (segSeq (sg p)) with (u32 (isn + Z.of_nat p.1)).
  rewrite segEnd_segp by done. rewrite seqAfterOrEqual_pos, seqAfter_pos by (unfold near; lia).
  destruct (Nat.leb_spec p.1 cur.2).
  - rewrite <- IH by (cbn [fst snd]; lia). f_equal. unfold block. cbn [fst snd]. f_equal.
    destruct (Nat.ltb_spec cur.2 (p.1 + p.2)); do 3 f_equal; lia.
  - cbn [map]. f_equal.
    change (mkSACKBlock _ _) with (block (p.1, p.1 + p.2)%nat). apply IH; cbn [fst snd]; lia.
Qed.

Lemma SACKBlocks_intervals r n ps :
  OOOBuf r = map sg ps → Forall (inside n) ps →
  ∃ ivs, SACKBlocks r = drop (length ivs - 4) (map block ivs) ∧
    (∀ x, covers ivs x ↔ held ps x) ∧
    match ivs with [] => ps = [] | iv :: l => gapped iv.2 l end ∧
    (positive ps → Forall (λ iv, iv.1 < iv.2)%nat ivs).
Proof.
  intros Ho Hin. unfold SACKBlocks. rewrite Ho, (sort_segs_p n) by done.
  pose proof (sortp_perm ps) as Hperm. pose proof (sortp_sorted ps) as Hso.
  assert (∀ x, held (sortp ps) x ↔ held ps x) as Hheld.
  { intros x. unfold held. setoid_rewrite Hperm. done. }
  rewrite <- Hperm in Hin. destruct (sortp ps) as [|p l]; cbn [map].
  { exists []. split; [done|]. split; [|split; [by apply Permutation_nil|constructor]].
    intros x. rewrite <- Hheld. unfold covers, held. set_solver. }
  apply Forall_cons in Hin as [(Hp & Hp1 & Hp2) Hl]. destruct Hso as [_ Hso].
  exists (mergep (p.1, p.1 + p.2)%nat l).
  rewrite segEnd_segp by done. change (segSeq (sg p)) with (u32 (isn + Z.of_nat p.1)).
  change (mkSACKBlock _ _) with (block (p.1, p.1 + p.2)%nat).
  rewrite (merge_blocks_p n) by (done || cbn [fst snd]; lia). rewrite length_map. split; [done|].
  split_and!.
  - intros x. rewrite <- Hheld, mergep_covers by done. unfold held. cbn [fst snd]. split.
    + intros [?|(q & ? & ?)]; [exists p; split; [left|done]|exists q; split; [by right|done]].
    + intros (q & [->|?]%elem_of_cons & ?); [by left|right; eauto].
  - destruct (mergep_gapped (p.1, p.1 + p.2)%nat l) as (c & rest & -> & _ & _ & ?). done.
  - intros Hpos. unfold positive in Hpos. rewrite <- Hperm in Hpos.
    apply Forall_cons in Hpos as [? ?]. apply mergep_nonempty; [simpl; lia|done].
Qed.
(** C38. SACK blocks report exactly the buffered data.  The blocks are the
    highest four (all of them, if there are no more) of a list of intervals
    that is increasing and separated by gaps, and whose union is exactly the
    set of byte positions held in the reorder buffer. *)
Theorem SACKBlocks_exact r n ps :
  OOOBuf r = map sg ps → Forall (inside n) ps →
  ∃ ivs, SACKBlocks r = drop (length ivs - 4) (map block ivs) ∧
    (∀ x, covers ivs x ↔ held ps x) ∧
    match ivs with [] => ps = [] | iv :: l => gapped iv.2 l end.
Proof.
  intros Ho Hin. destruct (SACKBlocks_intervals r n ps Ho Hin) as (ivs & ? & ? & ? & _).
  by exists ivs.
Qed.

(** ** The sender's conclusion *)

(** Disjoint pieces that share a position are the same piece. *)
Lemma chain_overlap x a p q y :
  chain x a → p ∈ a → q ∈ a → (p.1 ≤ y < p.1 + p.2)%nat → (q.1 ≤ y < q.1 + q.2)%nat → p = q.
Proof.
  revert x. induction a as [|z a IH]; intros x Hc Hp Hq Hpy Hqy; [set_solver|].
  destruct Hc as [<- Hc].
  apply elem_of_cons in Hp as [->|Hp]; apply elem_of_cons in Hq as [->|Hq]; [done| | |].
  - pose proof (chain_ge _ _ _ Hc Hq). lia.
  - pose proof (chain_ge _ _ _ Hc Hp). lia.
  - by apply (IH (z.1 + z.2)%nat).
Qed.

Lemma chain_end_elem x a p : chain x a → p ∈ a → (p.1 + p.2 ≤ x + total a)%nat.
Proof.
  unfold total. revert x. induction a as [|q a IH]; intros x Hc Hin; [set_solver|].
  destruct Hc as [<- Hc]. simpl. apply elem_of_cons in Hin as [->|Hin]; [lia|].
  specialize (IH _ Hc Hin). lia.
Qed.

(** [e] is the sender's copy of the segment [q]. *)
Definition copy_of (q : nat * nat) (e : retxEntry) : Prop :=
  seq e = segSeq (sg q) ∧ blen (data e) = Z.of_nat q.2.

Lemma overlaps_block q e iv :
  copy_of q e → near q.1 iv.2 → near iv.1 (q.1 + q.2) →
  overlaps e (block iv) = Nat.ltb q.1 iv.2 && Nat.ltb iv.1 (q.1 + q.2).
Proof.
  intros [Hs Hl] H1 H2. unfold overlaps, endSeq. cbn [Right Left block].
  rewrite Hs, Hl. change (segSeq (sg q)) with (u32 (isn + Z.of_nat q.1)).
  rewrite u32_add_l, u32_add_r.
  replace (isn + Z.of_nat q.1 + Z.of_nat q.2) with (isn + Z.of_nat (q.1 + q.2)) by lia.
  rewrite !seqAfterOrEqual_pos by done.
  destruct (Nat.leb_spec iv.2 q.1), (Nat.ltb_spec q.1 iv.2); try lia; simpl; try done.
  destruct (Nat.leb_spec (q.1 + q.2) iv.1), (Nat.ltb_spec iv.1 (q.1 + q.2)); done || lia.
Qed.

Lemma covers_bound ivs ps iv N :
  (∀ x, covers ivs x ↔ held ps x) → Forall (λ p, (p.1 + p.2 ≤ N)%nat) ps → iv ∈ ivs →
  (iv.1 < iv.2)%nat → (iv.2 ≤ N)%nat.
Proof.
  intros Hcov Hps Hiv Hne. destruct (Hcov (iv.2 - 1)%nat) as [Hc _].
  destruct Hc as (p & Hp & ?); [exists iv; split; [done|lia]|].
  rewrite Forall_forall in Hps. specialize (Hps p Hp). simpl in Hps. lia.
Qed.

(** A SACK marks only what the receiver holds.  Sender and receiver cut
    the stream into the same segments, the receiver reports [SACKBlocks] of a
    reorder buffer holding [ps], and the sender processes the report.  Then a
    sent segment is marked only if it was marked before or the receiver holds
    it; and if the report was not cut off at four blocks, every held segment
    is marked. *)
Theorem SACK_marks_held_segments r n ps c pieces qs :
  chain 0 pieces → positive pieces → total pieces = length stream →
  Z.of_nat (length stream) < half →
  OOOBuf r = map sg ps → Forall (inside n) ps → (∀ p, p ∈ ps → p ∈ pieces) →
  Forall2 copy_of qs (Unacked (tx c)) → (∀ q, q ∈ qs → q ∈ pieces) →
  let c' := ProcessSACK c (SACKBlocks r) in
  ∀ i q e e', qs !! i = Some q → Unacked (tx c) !! i = Some e → Unacked (tx c') !! i = Some e' →
    (sacked e' = true → sacked e = true ∨ q ∈ ps) ∧
    ((length (SACKBlocks r) < 4)%nat → q ∈ ps → sacked e' = true).
Proof.
  intros Hch Hpos Htot Hshort Ho Hin Hps Hcopy Hqs c' i q e e' Hq He He'.
  destruct (SACKBlocks_intervals r n ps Ho Hin) as (ivs & Hblk & Hcov & _ & Hne).
  assert (q ∈ pieces) as Hqp by (apply Hqs, list_elem_of_lookup; eauto).
  assert (∀ p, p ∈ pieces → (0 < p.2 ∧ p.1 + p.2 ≤ length stream)%nat) as Hpc.
  { intros p Hp. rewrite <- Htot. unfold positive in Hpos. rewrite Forall_forall in Hpos.
    split; [by apply Hpos|]. by apply (chain_end_elem 0). }
  destruct (Hpc q Hqp) as [Hq0 HqN].
  assert (positive ps) as Hpps by (apply Forall_forall; intros p Hp; by apply Hpc, Hps).
  specialize (Hne Hpps). rewrite Forall_forall in Hne.
  assert (∀ iv, iv ∈ ivs → (iv.2 ≤ length stream)%nat) as HivN.
  { intros iv Hiv. apply (covers_bound ivs ps); auto. apply Forall_forall. intros p Hp.
    by apply Hpc, Hps. }
  assert (copy_of q e) as Hce by (eapply (Forall2_lookup_lr _ _ _ _ _ _ Hcopy); eauto).
  assert (∀ iv, iv ∈ ivs → overlaps e (block iv) = Nat.ltb q.1 iv.2 && Nat.ltb iv.1 (q.1 + q.2)) as Hov.
  { intros iv Hiv. specialize (HivN iv Hiv). specialize (Hne iv Hiv). simpl in Hne.
    apply overlaps_block; [done|unfold near; lia..]. }
  assert (sacked e' = existsb (overlaps e) (SACKBlocks r) || sacked e) as ->.
  { assert (Unacked (tx c') = map (λ e, if existsb (overlaps e) (SACKBlocks r)
      then with_entry e (sentAt e) (attempts e) true else e) (Unacked (tx c))) as HU.
    { unfold c', ProcessSACK, signalIfAvailable. cbn [tx set_Stats set_tx].
      repeat case_match; done. }
    rewrite HU, list_lookup_fmap, He in He'. injection He' as <-. by case_match. }
  split.
  - intros [Hex|?]%orb_true_iff; [right|by left].
    apply existsb_exists in Hex as (b & Hb & Hbo). rewrite Hblk in Hb.
    apply list_elem_of_In, subseteq_drop, list_elem_of_fmap in Hb as (iv & -> & Hiv).
    rewrite Hov in Hbo by done. apply andb_true_iff in Hbo as [H1%Nat.ltb_lt H2%Nat.ltb_lt].
    specialize (Hne iv Hiv). simpl in Hne.
    destruct (Hcov (Nat.max q.1 iv.1)) as [Hc _].
    destruct Hc as (p & Hp & Hpx); [exists iv; split; [done|lia]|].
    rewrite (chain_overlap 0 pieces q p (Nat.max q.1 iv.1)); auto; lia.
  - intros Hlen Hqin. apply orb_true_iff. left. apply existsb_exists.
    destruct (Hcov q.1) as [_ Hc]. destruct Hc as (iv & Hiv & Hx); [exists q; split; [done|lia]|].
    exists (block iv). split.
    + apply list_elem_of_In. rewrite Hblk. rewrite Hblk, length_drop, length_map in Hlen.
      replace (length ivs - 4)%nat with 0%nat by lia. rewrite drop_0. apply list_elem_of_fmap. eauto.
    + rewrite Hov by done. apply andb_true_iff. split; apply Nat.ltb_lt; lia.
Qed.
End Stream.

(** ** Witnesses *)

(** The receiver holds the third segment, having missed the first two. *)
Definition toy_holding : Receiver :=
  rx_step toy_stream toy_isn (receiver_at toy_isn) (Arrive (8, 4)%nat []).

Lemma toy_holding_ooo : OOOBuf toy_holding = map (segp toy_stream toy_isn) [(8, 4)%nat].
Proof. vm_compute. reflexivity. Qed.

Lemma toy_inside : Forall (inside toy_stream 0) [(8, 4)%nat].
Proof. repeat constructor; vm_compute; reflexivity || discriminate. Qed.

Lemma SACKBlocks_exact_witness :
  ∃ ivs, SACKBlocks toy_holding = drop (length ivs - 4) (map (block toy_isn) ivs) ∧
    covers ivs 9 ∧ (covers ivs 3 → False).
Proof.
  destruct (SACKBlocks_exact toy_stream toy_isn toy_holding 0 _ toy_holding_ooo toy_inside)
    as (ivs & H1 & H2 & _).
  exists ivs. split; [exact H1|]. split.
  - apply H2. exists (8, 4)%nat. split; [apply list_elem_of_here|simpl; lia].
  - intros (p & Hp & Hx)%H2. apply list_elem_of_singleton in Hp as ->. simpl in Hx. lia.
Defined.

(** The sender's side: three segments in flight. *)
Definition toy_entry (p : nat * nat) : retxEntry :=
  mkRetx (segData (segp toy_stream toy_isn p)) (segSeq (segp toy_stream toy_isn p)) 0 0 1 false false.
Definition toy_sender : Connection :=
  let c := newConn 1 49152 (mkAddr 0 2) 80 0 in
  set_tx c (set_Unacked (tx c) (map toy_entry toy_pieces)).

Lemma SACK_marks_held_segments_witness :
  map sacked (Unacked (tx (ProcessSACK toy_sender (SACKBlocks toy_holding)))) = [false; false; true] ∧
  ∀ i q e e', toy_pieces !! i = Some q → Unacked (tx toy_sender) !! i = Some e →
    Unacked (tx (ProcessSACK toy_sender (SACKBlocks toy_holding))) !! i = Some e' →
    (sacked e' = true → sacked e = true ∨ q ∈ [(8, 4)%nat]) ∧
    ((length (SACKBlocks toy_holding) < 4)%nat → q ∈ [(8, 4)%nat] → sacked e' = true).
Proof.
  split; [vm_compute; reflexivity|].
  apply (SACK_marks_held_segments toy_stream toy_isn toy_holding 0 [(8, 4)%nat] toy_sender
           toy_pieces toy_pieces).
  - repeat split.
  - repeat constructor.
  - vm_compute. reflexivity.
  - vm_compute. reflexivity.
  - exact toy_holding_ooo.
  - exact toy_inside.
  - intros p Hp. unfold toy_pieces. set_solver.
  - repeat constructor.
  - intros q Hq. exact Hq.
Defined.
