(* ===== verification/PortManager.v ===== *)
(** * Ports and connections (pkg/daemon/ports.go: [PortManager], [Listener])

    Listeners are shared by pointer (a caller may hold one across [Unbind]), so
    they live in a store [lnHeap] and [listeners] maps a port to an address.
    Connections are registered under their id.  Functions that range over the
    connection map and stop early take the order of the iteration; the others
    do not depend on it. *)
From S2P Require Import Prelude Bitmap Protocol Conn.
Open Scope Z_scope.

Record Listener := mkListener {
  lnPort : Z;
  AcceptCh : list Z;          (* queued connections, by id *)
  lnClosed : bool;
}.

Section PortManager.
Context {P : Protocol}.

Record PortManager := mkPortManager {
  listeners : gmap Z nat;
  lnHeap : gmap nat Listener;
  connections : gmap Z Connection;
  nextConnID : Z;
  nextEphPort : Z;
  ephBitmap : list Z;
}.
Implicit Types pm : PortManager.

Definition ephBitmapWords : nat := 256.

Definition NewPortManager : PortManager :=
  mkPortManager ∅ ∅ ∅ 1 PortEphemeralMin (bm_zero ephBitmapWords).

Definition with_bitmap pm (b : list Z) : PortManager :=
  mkPortManager (listeners pm) (lnHeap pm) (connections pm) (nextConnID pm) (nextEphPort pm) b.
Definition with_conns pm (m : gmap Z Connection) : PortManager :=
  mkPortManager (listeners pm) (lnHeap pm) m (nextConnID pm) (nextEphPort pm) (ephBitmap pm).

(** ** The ephemeral bitmap *)

Definition ephBitIndex (port : Z) : Z * Z :=
  if (port <? PortEphemeralMin) || (PortEphemeralMax <? port) then (-1, -1)
  else let idx := u16 (port - PortEphemeralMin) in (idx / 64, idx mod 64).

Definition markEphPortUsedLocked pm (port : Z) : PortManager :=
  let '(w, b) := ephBitIndex port in
  if w <? 0 then pm else with_bitmap pm (bm_set (ephBitmap pm) w b).

(** [portInUse], and the loop of [clearEphPortLocked]: some active connection
    has this local port. *)
Definition portInUse pm (port : Z) : bool :=
  existsb (λ e, (LocalPort e.2 =? port) && active (State e.2)) (map_to_list (connections pm)).

Definition clearEphPortLocked pm (port : Z) : PortManager :=
  let '(w, b) := ephBitIndex port in
  if w <? 0 then pm
  else if portInUse pm port then pm
  else with_bitmap pm (bm_clear (ephBitmap pm) w b).

Definition ReleaseEphemeralPort pm (port : Z) : PortManager := clearEphPortLocked pm port.

(** The scan of [AllocEphemeralPort]: the first clear bit at or after [start],
    cyclically, among [n] candidates from [offset] on. *)
Fixpoint scan (bm : list Z) (start total : Z) (n : nat) (offset : Z) : option Z :=
  match n with
  | O => None
  | S n =>
      let idx := (start + offset) mod total in
      if negb (bm_test bm (idx / 64) (idx mod 64)) then Some idx
      else scan bm start total n (offset + 1)
  end.

Definition AllocEphemeralPort pm : Z * PortManager :=
  let total := u16 (PortEphemeralMax - PortEphemeralMin) + 1 in
  let startIdx := u16 (nextEphPort pm - PortEphemeralMin) in
  match scan (ephBitmap pm) startIdx total (Z.to_nat total) 0 with
  | None => (0, pm)
  | Some idx =>
      let port := u16 (PortEphemeralMin + u16 idx) in
      let next := if PortEphemeralMax <=? port then PortEphemeralMin else u16 (port + 1) in
      (port, mkPortManager (listeners pm) (lnHeap pm) (connections pm) (nextConnID pm) next
               (bm_set (ephBitmap pm) (idx / 64) (idx mod 64)))
  end.

(** ** Listeners *)

Definition Bind pm (port : Z) : option nat * PortManager :=
  match listeners pm !! port with
  | Some _ => (None, pm)
  | None =>
      let a := fresh (dom (lnHeap pm)) in
      (Some a, mkPortManager (<[port := a]> (listeners pm))
                 (<[a := mkListener port [] false]> (lnHeap pm))
                 (connections pm) (nextConnID pm) (nextEphPort pm) (ephBitmap pm))
  end.

Definition GetListener pm (port : Z) : option nat := listeners pm !! port.

(** [ln.close()] *)
Definition close_listener (ln : Listener) : Listener := mkListener (lnPort ln) (AcceptCh ln) true.

Definition Unbind pm (port : Z) : PortManager :=
  match listeners pm !! port with
  | Some a => mkPortManager (delete port (listeners pm)) (alter close_listener a (lnHeap pm))
                (connections pm) (nextConnID pm) (nextEphPort pm) (ephBitmap pm)
  | None => pm
  end.

(** [ln.TrySend(conn)] on the listener at address [a]. *)
Definition TrySend pm (a : nat) (conn : Z) : bool * PortManager :=
  match lnHeap pm !! a with
  | Some ln =>
      if lnClosed ln then (false, pm)
      else if Z.of_nat (length (AcceptCh ln)) <? AcceptQueueLen then
        (true, mkPortManager (listeners pm)
                 (<[a := mkListener (lnPort ln) (AcceptCh ln ++ [conn]) false]> (lnHeap pm))
                 (connections pm) (nextConnID pm) (nextEphPort pm) (ephBitmap pm))
      else (false, pm)
  | None => (false, pm)
  end.

(** ** Connections *)

Definition countConns pm (f : Connection → bool) : Z :=
  Z.of_nat (length (List.filter (λ e, f e.2) (map_to_list (connections pm)))).
Definition ConnectionCountForPort pm (port : Z) : Z :=
  countConns pm (λ c, (LocalPort c =? port) && active (State c)).
Definition TotalActiveConnections pm : Z := countConns pm (λ c, active (State c)).

Definition NewConnection pm (now : gotime) (localPort : Z) (remoteAddr : Addr) (remotePort : Z)
  : Z * PortManager :=
  let id := nextConnID pm in
  let conn := newConn id localPort remoteAddr remotePort now in
  let next := u32 (id + 1) in
  let next := if next =? 0 then 1 else next in
  let pm := mkPortManager (listeners pm) (lnHeap pm) (<[id := conn]> (connections pm)) next
              (nextEphPort pm) (ephBitmap pm) in
  (id, markEphPortUsedLocked pm localPort).

Definition GetConnection pm (id : Z) : option Connection := connections pm !! id.

(** [c.State = st] under [c.Mu], for a registered connection. *)
Definition SetState pm (id : Z) (st : ConnState) : PortManager :=
  with_conns pm (alter (λ c, set_State c st) id (connections pm)).

Definition matches (localPort : Z) (remoteAddr : Addr) (remotePort : Z) (c : Connection) : bool :=
  (LocalPort c =? localPort) && bool_decide (RemoteAddr c = remoteAddr) &&
  (RemotePort c =? remotePort).

(** The loop of [FindConnection], over the connections in [order]. *)
Fixpoint find_loop (lp : Z) (ra : Addr) (rp : Z) (fallback : option Connection)
    (order : list (Z * Connection)) : option Connection :=
  match order with
  | [] => fallback
  | (_, c) :: order =>
      if matches lp ra rp c then
        if active (State c) then Some c else find_loop lp ra rp (Some c) order
      else find_loop lp ra rp fallback order
  end.
Definition FindConnection (lp : Z) (ra : Addr) (rp : Z) (order : list (Z * Connection))
  : option Connection := find_loop lp ra rp None order.

Definition is_stale (now : gotime) (timeWaitDur : duration) (c : Connection) : bool :=
  match State c with
  | StateClosed | StateCloseWait => true
  | StateFinWait | StateTimeWait => timeWaitDur <? time_sub now (LastActivity c)
  | StateSynSent => SynSentReapDuration <? time_sub now (LastActivity c)
  | _ => false
  end.
Definition StaleConnections pm (now : gotime) (timeWaitDur : duration) : list Connection :=
  map snd (List.filter (λ e, is_stale now timeWaitDur e.2) (map_to_list (connections pm))).

Definition ActiveNodeIDs pm : gset Z :=
  list_to_set (map (λ e, Node (RemoteAddr e.2))
    (List.filter (λ e, active (State e.2)) (map_to_list (connections pm)))).

Definition IdleConnections pm (now : gotime) (maxIdle : duration) : list Connection :=
  map snd (List.filter (λ e, bool_decide (State e.2 = StateEstablished) &&
                             (maxIdle <? time_sub now (LastActivity e.2)))
                       (map_to_list (connections pm))).

Definition AllConnections pm : list Connection := map snd (map_to_list (connections pm)).

(** Gives back the connection removed, its stop channel closed. *)
Definition RemoveConnection pm (id : Z) : option Connection * PortManager :=
  match connections pm !! id with
  | None => (None, pm)
  | Some c =>
      let pm := with_conns pm (delete id (connections pm)) in
      (Some (set_RetxStop c true), clearEphPortLocked pm (LocalPort c))
  end.
End PortManager.

(** ** Theorems *)
Section Proofs.
Context {P : Protocol}.
Implicit Types (pm : PortManager) (port : Z).

(** *** What the operations do to the tables *)

Lemma clearEph_conns pm port : connections (clearEphPortLocked pm port) = connections pm.
Proof. unfold clearEphPortLocked. destruct (ephBitIndex port). by repeat case_zif. Qed.

Lemma markEph_conns pm port : connections (markEphPortUsedLocked pm port) = connections pm.
Proof. unfold markEphPortUsedLocked. destruct (ephBitIndex port). by repeat case_zif. Qed.

Lemma Remove_conns pm id : connections (snd (RemoveConnection pm id)) = delete id (connections pm).
Proof.
  unfold RemoveConnection. destruct (connections pm !! id) eqn:E.
  - cbn [snd]. by rewrite clearEph_conns.
  - cbn [snd]. by rewrite delete_id.
Qed.

Lemma Remove_listeners pm id : listeners (snd (RemoveConnection pm id)) = listeners pm.
Proof.
  unfold RemoveConnection. destruct (connections pm !! id); [|done]. cbn [snd].
  unfold clearEphPortLocked. destruct (ephBitIndex _). by repeat case_zif.
Qed.

Lemma TrySend_conns pm ln id : connections (snd (TrySend pm ln id)) = connections pm.
Proof. unfold TrySend. destruct (lnHeap pm !! ln); [|done]. by repeat case_zif. Qed.

Lemma NewConnection_conns pm now lp ra rp :
  let '(id, pm') := NewConnection pm now lp ra rp in
  id = nextConnID pm ∧ connections pm' = <[id := newConn id lp ra rp now]> (connections pm).
Proof. unfold NewConnection. cbv zeta. split; [done|]. by rewrite markEph_conns. Qed.

Lemma find_none_match lp ra rp order :
  (∀ e, e ∈ order → matches lp ra rp e.2 = false) → FindConnection lp ra rp order = None.
Proof.
  unfold FindConnection. induction order as [|[id c] order IH]; intros H; [done|]. cbn [find_loop].
  pose proof (H (id, c) ltac:(by left)) as Hm. cbn [snd] in Hm. rewrite Hm.
  apply IH. intros e He. apply H. by right.
Qed.

Definition ephemeral port : Prop := PortEphemeralMin <= port <= PortEphemeralMax.
(** The bitmap's bit for an ephemeral port. *)
Definition reserved pm port : bool := bm_bit (ephBitmap pm) (port - PortEphemeralMin).

Record pm_wf pm : Prop := {
  wf_bitmap : bm_wf ephBitmapWords (ephBitmap pm);
  wf_cursor : ephemeral (nextEphPort pm);
}.

Lemma eph_range : 0 < PortEphemeralMin ∧ PortEphemeralMax < 65536 ∧
  PortEphemeralMax = PortEphemeralMin + 16383.
Proof. pose proof ephemeral_range. lia. Qed.

Lemma NewPortManager_wf : pm_wf NewPortManager.
Proof.
  pose proof eph_range. split; [apply bm_zero_wf|]. unfold ephemeral. simpl. lia.
Qed.

Lemma ephBitIndex_spec port :
  (ephemeral port ∧ ephBitIndex port =
     ((port - PortEphemeralMin) / 64, (port - PortEphemeralMin) mod 64) ∧
   0 <= port - PortEphemeralMin < 16384) ∨
  (¬ ephemeral port ∧ ephBitIndex port = (-1, -1)).
Proof.
  pose proof eph_range as (? & ? & ?). unfold ephBitIndex, ephemeral.
  destruct (Z.ltb_spec port PortEphemeralMin), (Z.ltb_spec PortEphemeralMax port); simpl;
    try (right; split; [lia|done]).
  left. split; [lia|]. unfold u16. rewrite Z.mod_small by lia. split; [done|lia].
Qed.

Lemma idx_range i : 0 <= i < 16384 → 0 <= i < 64 * Z.of_nat ephBitmapWords.
Proof. unfold ephBitmapWords. lia. Qed.

Lemma mark_spec pm port :
  pm_wf pm →
  let pm' := markEphPortUsedLocked pm port in
  pm_wf pm' ∧ connections pm' = connections pm ∧
  ∀ q, ephemeral q → reserved pm' q = (q =? port) || reserved pm q.
Proof.
  intros [Hb Hc]. unfold markEphPortUsedLocked.
  destruct (ephBitIndex_spec port) as [(He & -> & Hr)|[Hne ->]].
  - destruct (Z.ltb_spec ((port - PortEphemeralMin) / 64) 0) as [Hn|_].
    { pose proof (Z.div_pos (port - PortEphemeralMin) 64). lia. }
    split; [split; [|done]|split; [done|]].
    + by apply bm_set_wf.
    + intros q Hq. unfold reserved. simpl.
      rewrite (bm_bit_set ephBitmapWords _ Hb _ (idx_range _ Hr)) by (unfold ephemeral in *; lia).
      destruct (Z.eqb_spec q port), (Z.eqb_spec (port - PortEphemeralMin) (q - PortEphemeralMin)); lia || done.
  - simpl. split; [by split|]. split; [done|]. intros q Hq.
    destruct (Z.eqb_spec q port) as [->|]; [done|done].
Qed.

Lemma clear_spec pm port :
  pm_wf pm →
  let pm' := clearEphPortLocked pm port in
  pm_wf pm' ∧ connections pm' = connections pm ∧
  ∀ q, ephemeral q →
    reserved pm' q = if (q =? port) && negb (portInUse pm port) then false else reserved pm q.
Proof.
  intros [Hb Hc]. unfold clearEphPortLocked.
  destruct (ephBitIndex_spec port) as [(He & -> & Hr)|[Hne ->]].
  - destruct (Z.ltb_spec ((port - PortEphemeralMin) / 64) 0) as [Hn|_].
    { pose proof (Z.div_pos (port - PortEphemeralMin) 64). lia. }
    destruct (portInUse pm port).
    { split; [by split|]. split; [done|]. intros q Hq. by rewrite andb_false_r. }
    split; [split; [|done]|split; [done|]].
    + by apply bm_clear_wf.
    + intros q Hq. unfold reserved. simpl. rewrite andb_true_r.
      rewrite (bm_bit_clear ephBitmapWords _ Hb _ (idx_range _ Hr)) by (unfold ephemeral in *; lia).
      destruct (Z.eqb_spec q port), (Z.eqb_spec (port - PortEphemeralMin) (q - PortEphemeralMin)); lia || done.
  - simpl. split; [by split|]. split; [done|]. intros q Hq.
    destruct (Z.eqb_spec q port) as [->|]; [done|done].
Qed.

Lemma scan_some bm start total n off idx :
  0 < total → scan bm start total n off = Some idx → 0 <= idx < total ∧ bm_bit bm idx = false.
Proof.
  intros Ht. revert off. induction n as [|n IH]; intros off; [done|]. cbn [scan].
  rewrite bm_test_at. destruct (bm_bit bm ((start + off) mod total)) eqn:E; simpl; [apply IH|].
  intros [= <-]. split; [by apply Z.mod_pos_bound|done].
Qed.

Lemma scan_none bm start total n off k :
  scan bm start total n off = None → 0 <= k < Z.of_nat n →
  bm_bit bm ((start + off + k) mod total) = true.
Proof.
  revert off k. induction n as [|n IH]; intros off k H Hk; [lia|]. cbn [scan] in H.
  rewrite bm_test_at in H. destruct (bm_bit bm ((start + off) mod total)) eqn:E; [|done].
  destruct (Z.eq_dec k 0) as [->|]; [by rewrite Z.add_0_r|].
  replace (start + off + k) with (start + (off + 1) + (k - 1)) by lia. apply IH; [done|lia].
Qed.

Lemma Alloc_spec pm :
  pm_wf pm →
  let '(port, pm') := AllocEphemeralPort pm in
  pm_wf pm' ∧ connections pm' = connections pm ∧
  ((port = 0 ∧ pm' = pm ∧ ∀ q, ephemeral q → reserved pm q = true) ∨
   (ephemeral port ∧ reserved pm port = false ∧
    ∀ q, ephemeral q → reserved pm' q = (q =? port) || reserved pm q)).
Proof.
  intros [Hb Hc]. pose proof eph_range as (H0 & Hm & Hr). unfold AllocEphemeralPort. cbv zeta.
  replace (u16 (PortEphemeralMax - PortEphemeralMin) + 1) with 16384
    by (unfold u16; rewrite Z.mod_small; lia).
  set (start := u16 _). assert (0 <= start < 16384) as Hs.
  { unfold start, u16, ephemeral in *. rewrite Z.mod_small; lia. }
  destruct (scan (ephBitmap pm) start 16384 (Z.to_nat 16384) 0) as [idx|] eqn:E.
  - apply scan_some in E as [Hi Hbit]; [|lia].
    assert (u16 (PortEphemeralMin + u16 idx) = PortEphemeralMin + idx) as ->
      by (unfold u16; rewrite (Z.mod_small idx), Z.mod_small by lia; lia).
    split; [split|split; [done|right; split_and!]].
    + by apply bm_set_wf.
    + unfold ephemeral. simpl. case_zif; [lia|]. unfold u16. rewrite Z.mod_small; lia.
    + unfold ephemeral. lia.
    + unfold reserved. by replace (PortEphemeralMin + idx - PortEphemeralMin) with idx by lia.
    + intros q Hq. unfold reserved. simpl. unfold ephemeral in Hq.
      rewrite (bm_bit_set ephBitmapWords _ Hb _ (idx_range _ Hi)) by lia.
      destruct (Z.eqb_spec q (PortEphemeralMin + idx)), (Z.eqb_spec idx (q - PortEphemeralMin)); lia || done.
  - split; [by split|]. split; [done|]. left. split_and!; [done..|].
    intros q Hq. unfold reserved, ephemeral in *.
    set (i := q - PortEphemeralMin). assert (0 <= i < 16384) as Hi by (unfold i; lia).
    pose proof (scan_none _ _ _ _ _ ((i - start) mod 16384) E) as Hn.
    rewrite Z2Nat.id, Z.add_0_r, Zplus_mod_idemp_r in Hn by lia.
    replace (start + (i - start)) with i in Hn by lia. rewrite (Z.mod_small i) in Hn by lia.
    apply Hn. by apply Z.mod_pos_bound.
Qed.

(** ** Any history *)

Inductive pm_op :=
| OpAlloc
| OpRelease (port : Z)
| OpNew (now : gotime) (localPort : Z) (remoteAddr : Addr) (remotePort : Z)
| OpRemove (id : Z)
| OpSetState (id : Z) (st : ConnState)
| OpBind (port : Z)
| OpUnbind (port : Z)
| OpTrySend (a : nat) (conn : Z).

Definition pm_step pm (o : pm_op) : PortManager :=
  match o with
  | OpAlloc => snd (AllocEphemeralPort pm)
  | OpRelease p => ReleaseEphemeralPort pm p
  | OpNew now lp ra rp => snd (NewConnection pm now lp ra rp)
  | OpRemove id => snd (RemoveConnection pm id)
  | OpSetState id st => SetState pm id st
  | OpBind p => snd (Bind pm p)
  | OpUnbind p => Unbind pm p
  | OpTrySend a c => snd (TrySend pm a c)
  end.

(** [o] may give port [p] back. *)
Definition frees pm (o : pm_op) (p : Z) : Prop :=
  match o with
  | OpRelease q => q = p
  | OpRemove id => ∃ c, connections pm !! id = Some c ∧ LocalPort c = p
  | _ => False
  end.

Lemma with_conns_wf pm m : pm_wf pm → pm_wf (with_conns pm m).
Proof. intros []. by split. Qed.

Lemma listener_ops_same pm o :
  match o with OpBind _ | OpUnbind _ | OpTrySend _ _ | OpSetState _ _ => True | _ => False end →
  ephBitmap (pm_step pm o) = ephBitmap pm ∧ nextEphPort (pm_step pm o) = nextEphPort pm.
Proof.
  destruct o; try done; intros _; simpl.
  - unfold Bind. by case_match.
  - unfold Unbind. by case_match.
  - unfold TrySend. by repeat case_match.
Qed.

(** A step keeps the tables well formed and drops only ports it may free. *)
Lemma pm_step_spec pm o :
  pm_wf pm →
  pm_wf (pm_step pm o) ∧
  ∀ q, ephemeral q → reserved pm q = true → reserved (pm_step pm o) q = false → frees pm o q.
Proof.
  intros Hwf. destruct o; simpl.
  - pose proof (Alloc_spec pm Hwf) as H. destruct (AllocEphemeralPort pm) as [p pm']. cbn [snd].
    destruct H as (? & _ & [(_ & -> & _)|(_ & _ & Hr)]); [split; [done|intros; congruence]|].
    split; [done|]. intros q Hq H1. simpl. rewrite Hr, H1, orb_true_r by done. done.
  - destruct (clear_spec pm port Hwf) as (? & _ & Hr). split; [done|].
    intros q Hq H1. unfold ReleaseEphemeralPort. rewrite Hr by done. case_zif; [|congruence]. lia.
  - unfold NewConnection. cbn [snd].
    match goal with |- context [markEphPortUsedLocked ?x _] => set (pm1 := x) end.
    assert (pm_wf pm1) as H1 by (destruct Hwf; by split).
    destruct (mark_spec pm1 localPort H1) as (? & _ & Hr). split; [done|].
    intros q Hq H2. rewrite Hr by done. change (reserved pm1 q) with (reserved pm q).
    by rewrite H2, orb_true_r.
  - unfold RemoveConnection. destruct (connections pm !! id) as [c|] eqn:E; cbn [snd];
      [|split; [done|intros; congruence]].
    destruct (clear_spec (with_conns pm (delete id (connections pm))) (LocalPort c)
      (with_conns_wf pm _ Hwf)) as (? & _ & Hr). split; [done|].
    intros q Hq H1. rewrite Hr by done. case_zif; [|unfold reserved in *; simpl; congruence].
    intros _. exists c. split; [done|lia].
  - destruct (listener_ops_same pm (OpSetState id st) I) as [Hb Hc].
    split; [destruct Hwf; by split|]. unfold reserved. simpl in *. intros; congruence.
  - destruct (listener_ops_same pm (OpBind port) I) as [Hb Hc]. simpl in *.
    split; [destruct Hwf; split; congruence|]. unfold reserved. rewrite Hb. intros; congruence.
  - destruct (listener_ops_same pm (OpUnbind port) I) as [Hb Hc]. simpl in *.
    split; [destruct Hwf; split; congruence|]. unfold reserved. rewrite Hb. intros; congruence.
  - destruct (listener_ops_same pm (OpTrySend a conn) I) as [Hb Hc]. simpl in *.
    split; [destruct Hwf; split; congruence|]. unfold reserved. rewrite Hb. intros; congruence.
Qed.

Lemma pm_run_wf ops pm : pm_wf pm → pm_wf (fold_left pm_step ops pm).
Proof. revert pm. induction ops as [|o ops IH]; intros pm H; [done|]. apply IH. by apply pm_step_spec. Qed.

(** Ephemeral allocation, at any point of any history: either every
    port of the range is reserved, and 0 is returned with nothing changed, or
    the result is a port of the range that was free, which is now reserved
    while every other port is as it was. *)
Theorem alloc_returns_free_port ops :
  let pm := fold_left pm_step ops NewPortManager in
  let '(port, pm') := AllocEphemeralPort pm in
  (port = 0 ∧ pm' = pm ∧ ∀ q, ephemeral q → reserved pm q = true) ∨
  (ephemeral port ∧ reserved pm port = false ∧
   ∀ q, ephemeral q → reserved pm' q = (q =? port) || reserved pm q).
Proof.
  intros pm. pose proof (Alloc_spec pm (pm_run_wf ops _ NewPortManager_wf)) as H.
  destruct (AllocEphemeralPort pm) as [port pm']. apply H.
Qed.

(** Steps none of which may free [p]. *)
Inductive keeps (p : Z) : PortManager → PortManager → Prop :=
| keeps_refl pm : keeps p pm pm
| keeps_step pm o pm' : ¬ frees pm o p → keeps p (pm_step pm o) pm' → keeps p pm pm'.

(** No double allocation.  Once a port is reserved (by allocation or by a
    connection), however the node goes on, as long as the port is not released
    and no connection on it is removed, the allocator never returns it. *)
Theorem held_port_not_reallocated pm pm' p :
  pm_wf pm → ephemeral p → reserved pm p = true → keeps p pm pm' →
  fst (AllocEphemeralPort pm') ≠ p.
Proof.
  intros Hwf He Hr Hk. induction Hk as [pm|pm o pm' Hf _ IH].
  - pose proof (Alloc_spec pm Hwf) as H. destruct (AllocEphemeralPort pm) as [q pm']. simpl.
    pose proof eph_range. unfold ephemeral in He.
    destruct H as (_ & _ & [(-> & _)|(_ & Hq & _)]); [lia|]. intros ->. congruence.
  - destruct (pm_step_spec pm o Hwf) as [Hwf' Hdrop]. apply IH; [done|].
    destruct (reserved (pm_step pm o) p) eqn:E; [done|]. by destruct Hf; apply Hdrop.
Qed.

(** ** Looking up a connection *)

Lemma find_loop_spec lp ra rp fb order :
  let r := find_loop lp ra rp fb order in
  let ms := List.filter (λ e, matches lp ra rp e.2) order in
  if existsb (λ e, active (State e.2)) ms
  then ∃ id c, r = Some c ∧ (id, c) ∈ order ∧ matches lp ra rp c = true ∧ active (State c) = true
  else match ms with
       | [] => r = fb
       | _ => ∃ id c, r = Some c ∧ (id, c) ∈ order ∧ matches lp ra rp c = true
       end.
Proof.
  revert fb. induction order as [|[id c] order IH]; intros fb; [done|]. cbn [find_loop List.filter snd].
  destruct (matches lp ra rp c) eqn:Em; cbn [existsb snd].
  - destruct (active (State c)) eqn:Ea; cbn [orb].
    { exists id, c. split_and!; [done|left|done|done]. }
    specialize (IH (Some c)). cbv zeta in IH.
    destruct (existsb (λ e, active (State e.2)) (List.filter _ order)).
    + destruct IH as (i & c' & ? & ? & ? & ?). exists i, c'. split_and!; [done|by right|done|done].
    + destruct (List.filter _ order) eqn:Ef.
      * exists id, c. split_and!; [done|left|done].
      * destruct IH as (i & c' & ? & ? & ?). exists i, c'. split_and!; [done|by right|done].
  - specialize (IH fb). cbv zeta in IH. repeat case_match; try done.
    + destruct IH as (i & c' & ? & ? & ? & ?). exists i, c'. split_and!; [done|by right|done|done].
    + destruct IH as (i & c' & ? & ? & ?). exists i, c'. split_and!; [done|by right|done].
Qed.

(** Packets reach the live connection.  Whatever order the map iteration
    takes, [FindConnection] returns an active connection with the 4-tuple if
    there is one, otherwise some stale one with the 4-tuple, and nothing only
    if no registered connection has it. *)
Theorem FindConnection_prefers_active pm order lp ra rp :
  order ≡ₚ map_to_list (connections pm) →
  match FindConnection lp ra rp order with
  | Some c => (∃ id, connections pm !! id = Some c) ∧ matches lp ra rp c = true ∧
      ((∃ id c', connections pm !! id = Some c' ∧ matches lp ra rp c' = true ∧
                 active (State c') = true) → active (State c) = true)
  | None => ∀ id c, connections pm !! id = Some c → matches lp ra rp c = false
  end.
Proof.
  intros Ho. pose proof (find_loop_spec lp ra rp None order) as H. cbv zeta in H.
  fold (FindConnection lp ra rp order) in H. set (ms := List.filter _ _) in *.
  assert (∀ id c, (id, c) ∈ order ↔ connections pm !! id = Some c) as Hel
    by (intros id c; rewrite Ho; apply elem_of_map_to_list).
  assert (∀ id c, connections pm !! id = Some c → matches lp ra rp c = true → (id, c) ∈ ms) as Hms.
  { intros id c Hc Hm. apply list_elem_of_In, filter_In. split; [|done].
    by apply list_elem_of_In, Hel. }
  destruct (existsb (λ e, active (State e.2)) ms) eqn:Ex.
  - destruct H as (id & c & -> & Hin & Hm & Ha). split_and!; [by exists id; apply Hel|done|done].
  - assert (∀ id c, connections pm !! id = Some c → matches lp ra rp c = true →
      active (State c) = false) as Hno.
    { intros id c Hc Hm. destruct (active (State c)) eqn:Ea; [|done].
      assert (existsb (λ e, active (State e.2)) ms = true); [|congruence].
      apply existsb_exists. exists (id, c). split; [by apply list_elem_of_In, Hms|done]. }
    destruct ms as [|e l] eqn:Ems.
    + rewrite H. intros id c Hc. destruct (matches lp ra rp c) eqn:Em; [|done].
      specialize (Hms id c Hc Em). set_solver.
    + destruct H as (id & c & -> & Hin & Hm). split_and!; [by exists id; apply Hel|done|].
      intros (id' & c' & Hc' & Hm' & Ha'). by rewrite (Hno id' c') in Ha'.
Qed.

(** ** Ports of live connections *)

Definition live_reserved pm : Prop :=
  ∀ id c, connections pm !! id = Some c → active (State c) = true → ephemeral (LocalPort c) →
    reserved pm (LocalPort c) = true.

(** A connection is made active only while its port is reserved. *)
Definition orderly pm (o : pm_op) : Prop :=
  match o with
  | OpSetState id st => ∀ c, connections pm !! id = Some c → active st = true →
      ephemeral (LocalPort c) → reserved pm (LocalPort c) = true
  | _ => True
  end.

Lemma portInUse_true pm port id c :
  connections pm !! id = Some c → active (State c) = true → LocalPort c = port →
  portInUse pm port = true.
Proof.
  intros Hc Ha Hp. unfold portInUse. apply existsb_exists. exists (id, c).
  split; [by apply list_elem_of_In, elem_of_map_to_list|]. simpl. by rewrite Ha, Hp, Z.eqb_refl.
Qed.

Lemma clear_live pm port : pm_wf pm → live_reserved pm → live_reserved (clearEphPortLocked pm port).
Proof.
  intros Hwf Hl id c. destruct (clear_spec pm port Hwf) as (_ & -> & Hr). intros Hc Ha He.
  rewrite Hr by done. destruct (Z.eqb_spec (LocalPort c) port) as [Hp|]; cbn [andb]; [|by eapply Hl].
  rewrite (portInUse_true pm port id c) by done. by eapply Hl.
Qed.

Lemma live_step pm o :
  pm_wf pm → live_reserved pm → orderly pm o → live_reserved (pm_step pm o).
Proof.
  intros Hwf Hl Hord. destruct o; simpl.
  - pose proof (Alloc_spec pm Hwf) as H. destruct (AllocEphemeralPort pm) as [p pm'].
    destruct H as (_ & Hcn & [(_ & -> & _)|(_ & _ & Hr)]); [done|]. intros id c. cbn [snd].
    rewrite Hcn. intros Hc Ha He. rewrite Hr by done. apply orb_true_iff. right. by eapply Hl.
  - by apply clear_live.
  - unfold NewConnection. cbn [snd].
    match goal with |- context [markEphPortUsedLocked ?x _] => set (pm1 := x) end.
    assert (pm_wf pm1) as H1 by (destruct Hwf; by split).
    destruct (mark_spec pm1 localPort H1) as (_ & Hcn & Hr). intros id c. rewrite Hcn.
    cbn [pm1 connections]. intros [[_ <-]|[_ Hc]]%lookup_insert_Some Ha He; [done|].
    rewrite Hr by done. apply orb_true_iff. right. by eapply Hl.
  - unfold RemoveConnection. destruct (connections pm !! id) as [c|] eqn:E; [|done]. cbn [snd].
    apply clear_live; [by apply with_conns_wf|]. intros id' c'. cbn [connections with_conns].
    intros [_ Hc]%lookup_delete_Some Ha He. by eapply (Hl id').
  - intros id' c'. unfold SetState. cbn [connections with_conns].
    destruct (decide (id = id')) as [<-|Hne].
    + rewrite lookup_alter_eq. intros (c & Hc & ->)%fmap_Some Ha He. simpl in *. by eapply Hord.
    + rewrite lookup_alter_ne by done. apply Hl.
  - unfold Bind. by case_match.
  - unfold Unbind. by case_match.
  - unfold TrySend. by repeat case_match.
Qed.

Inductive orderly_run : PortManager → Prop :=
| run_new : orderly_run NewPortManager
| run_step pm o : orderly_run pm → orderly pm o → orderly_run (pm_step pm o).

(** The allocator avoids the ports of live connections.  In any history
    in which connections become active only while their port is reserved, the
    port it returns belongs to no active connection. *)
Theorem alloc_avoids_live_connections pm id c :
  orderly_run pm → connections pm !! id = Some c → active (State c) = true →
  fst (AllocEphemeralPort pm) ≠ LocalPort c ∨ LocalPort c = 0.
Proof.
  intros Hrun Hc Ha.
  assert (pm_wf pm ∧ live_reserved pm) as [Hwf Hl].
  { clear Hc. induction Hrun as [|pm o _ [Hwf Hl] Ho].
    - split; [apply NewPortManager_wf|]. intros i x. simpl. by rewrite lookup_empty.
    - split; [by apply pm_step_spec|by apply live_step]. }
  pose proof (Alloc_spec pm Hwf) as H. destruct (AllocEphemeralPort pm) as [q pm']. simpl.
  destruct H as (_ & _ & [(-> & _)|(He & Hq & _)]).
  - destruct (Z.eq_dec (LocalPort c) 0); [by right|left; congruence].
  - left. intros ->. by rewrite (Hl id c Hc Ha He) in Hq.
Qed.
End Proofs.

(** ** Witnesses *)
#[local] Existing Instance documented_protocol.

Definition peer2 : Addr := mkAddr 0 2.

(** One port allocated and a connection opened on it. *)
Definition one_dial : PortManager :=
  fold_left pm_step [OpAlloc; OpNew 0 49152 peer2 80; OpSetState 1 StateSynSent] NewPortManager.

Lemma held_port_not_reallocated_witness :
  reserved one_dial 49152 = true ∧
  fst (AllocEphemeralPort (pm_step one_dial (OpSetState 1 StateEstablished))) ≠ 49152.
Proof.
  assert (reserved one_dial 49152 = true) as Hr by (vm_compute; reflexivity).
  split; [exact Hr|].
  apply (held_port_not_reallocated one_dial _ 49152).
  - apply pm_run_wf, NewPortManager_wf.
  - split; vm_compute; discriminate.
  - exact Hr.
  - apply (keeps_step _ one_dial (OpSetState 1 StateEstablished)); [intros []|apply keeps_refl].
Defined.

(** A TIME_WAIT connection and a live one with the same 4-tuple. *)
Definition reused_tuple : PortManager :=
  fold_left pm_step [OpNew 0 49152 peer2 80; OpSetState 1 StateTimeWait;
                     OpNew 0 49152 peer2 80; OpSetState 2 StateEstablished] NewPortManager.

Lemma FindConnection_prefers_active_witness :
  ∃ c, FindConnection 49152 peer2 80 (map_to_list (connections reused_tuple)) = Some c ∧
       active (State c) = true.
Proof.
  pose proof (FindConnection_prefers_active reused_tuple _ 49152 peer2 80
    (Permutation_refl (map_to_list (connections reused_tuple)))) as H.
  destruct (connections reused_tuple !! 2) as [c2|] eqn:H2;
    [|exfalso; vm_compute in H2; discriminate].
  assert (matches 49152 peer2 80 c2 = true ∧ active (State c2) = true) as [Hm Ha].
  { vm_compute in H2. injection H2 as <-. split; vm_compute; reflexivity. }
  destruct (FindConnection 49152 peer2 80 (map_to_list (connections reused_tuple))) as [c|].
  - destruct H as (_ & _ & Hact). exists c. split; [reflexivity|].
    apply Hact. exists 2, c2. split; [exact H2|]. split; [exact Hm|exact Ha].
  - exfalso. rewrite (H 2 c2 H2) in Hm. discriminate.
Defined.

Lemma alloc_avoids_live_connections_witness :
  fst (AllocEphemeralPort one_dial) ≠ 49152 ∨ 49152 = 0.
Proof.
  destruct (connections one_dial !! 1) as [c|] eqn:Hc; [|exfalso; vm_compute in Hc; discriminate].
  assert (active (State c) = true ∧ LocalPort c = 49152) as [Ha Hp].
  { vm_compute in Hc. injection Hc as <-. split; vm_compute; reflexivity. }
  rewrite <- Hp. apply (alloc_avoids_live_connections one_dial 1 c); [|exact Hc|exact Ha].
  unfold one_dial. cbn [fold_left].
  apply run_step; [apply run_step; [apply run_step; [apply run_new|exact I]|exact I]|].
  intros c' Hc' _ _. vm_compute in Hc'. injection Hc' as <-. vm_compute. reflexivity.
Defined.

(** ** A window between [NewConnection] and activation

    [clearEphPortLocked] keeps the port of an active connection, but a
    connection just returned by [NewConnection] is still CLOSED. Two
    connections share a local port when both were accepted on a listener in
    the ephemeral range. *)
Definition shared_port_run : PortManager :=
  fold_left pm_step
    [OpNew 0 49152 peer2 1000; OpSetState 1 StateEstablished;  (* first accepted *)
     OpNew 0 49152 peer2 1001;                                 (* second registered ... *)
     OpRemove 1;                                               (* ... first reaped ... *)
     OpSetState 2 StateEstablished] NewPortManager.            (* ... second established *)

(** The order registration, removal of a sibling, activation leaves a
    live connection whose port the allocator returns. *)
Theorem activation_after_reap_loses_port :
  (∃ c, connections shared_port_run !! 2 = Some c ∧ State c = StateEstablished ∧
        LocalPort c = 49152) ∧
  fst (AllocEphemeralPort shared_port_run) = 49152.
Proof. vm_compute. eauto. Qed.
