(* ===== verification/Routing.v ===== *)
(** * Routing: direct or relayed (pkg/daemon/routing: routing.go, relay.go,
    blackhole.go, writeframe.go, beacon.go)

    [RManager] is the source's [Manager]: per-peer relay flags, pins, counters
    and timestamps.  The socket is a collaborator: [WriteFrame] is given the
    verdict of its one [Send] call and returns the datagram it handed over. *)
From S2P Require Import Prelude Protocol.
Open Scope Z_scope.

Definition MaxRelayPeers : Z := 4096.
Definition DirectBlackholeThreshold : duration := 8 * Second.
Definition BlackholeMissesRequired : Z := 3.
Definition DirectClearsRequired : Z := 3.
Definition SendErrThreshold : Z := 3.

(** [net.UDPAddr], and [IP.Equal]: an IPv4 address equals its 16-byte form. *)
Record UDPAddr := mkUDPAddr { IP : bytes; Port : Z }.
Definition v4InV6Prefix : bytes := [0;0;0;0;0;0;0;0;0;0;255;255].
Definition IPEqual (a b : bytes) : bool :=
  if Nat.eqb (length a) (length b) then bool_decide (a = b)
  else if Nat.eqb (length a) 4 && Nat.eqb (length b) 16 then
    bool_decide (take 12 b = v4InV6Prefix) && bool_decide (a = drop 12 b)
  else if Nat.eqb (length a) 16 && Nat.eqb (length b) 4 then
    bool_decide (take 12 a = v4InV6Prefix) && bool_decide (drop 12 a = b)
  else false.

Record RManager := mkRManager {
  hasSock : bool;
  beaconAddr : option UDPAddr;
  relayPeers : gmap Z bool;
  relayPinned : gmap Z bool;
  lastDirectRecv : gmap Z gotime;
  blackholeMissCount : gmap Z Z;
  directClearCount : gmap Z Z;
  sendErrCount : gmap Z Z;
  lastOutboundSend : gmap Z gotime;
  firstOutboundSend : gmap Z gotime;
  localNodeID : Z;
  forceRelay : bool;
}.
Implicit Types m : RManager.

Definition RNew : RManager := mkRManager false None ∅ ∅ ∅ ∅ ∅ ∅ ∅ ∅ 0 false.

(** A missing map entry reads as the zero value. *)
Definition flag (t : gmap Z bool) (id : Z) : bool := default false (t !! id).
Definition count (t : gmap Z Z) (id : Z) : Z := default 0 (t !! id).

Definition set_relay m (r p : gmap Z bool) : RManager :=
  mkRManager (hasSock m) (beaconAddr m) r p (lastDirectRecv m) (blackholeMissCount m)
    (directClearCount m) (sendErrCount m) (lastOutboundSend m) (firstOutboundSend m)
    (localNodeID m) (forceRelay m).
Definition set_miss m (c : gmap Z Z) : RManager :=
  mkRManager (hasSock m) (beaconAddr m) (relayPeers m) (relayPinned m) (lastDirectRecv m) c
    (directClearCount m) (sendErrCount m) (lastOutboundSend m) (firstOutboundSend m)
    (localNodeID m) (forceRelay m).
Definition set_clear m (c : gmap Z Z) : RManager :=
  mkRManager (hasSock m) (beaconAddr m) (relayPeers m) (relayPinned m) (lastDirectRecv m)
    (blackholeMissCount m) c (sendErrCount m) (lastOutboundSend m) (firstOutboundSend m)
    (localNodeID m) (forceRelay m).
Definition set_errs m (c : gmap Z Z) : RManager :=
  mkRManager (hasSock m) (beaconAddr m) (relayPeers m) (relayPinned m) (lastDirectRecv m)
    (blackholeMissCount m) (directClearCount m) c (lastOutboundSend m) (firstOutboundSend m)
    (localNodeID m) (forceRelay m).
Definition set_times m (recv last first : gmap Z gotime) : RManager :=
  mkRManager (hasSock m) (beaconAddr m) (relayPeers m) (relayPinned m) recv
    (blackholeMissCount m) (directClearCount m) (sendErrCount m) last first
    (localNodeID m) (forceRelay m).

Definition SetForceRelay m (v : bool) : RManager :=
  mkRManager (hasSock m) (beaconAddr m) (relayPeers m) (relayPinned m) (lastDirectRecv m)
    (blackholeMissCount m) (directClearCount m) (sendErrCount m) (lastOutboundSend m)
    (firstOutboundSend m) (localNodeID m) v.
Definition SetBeaconAddrUDP m (a : option UDPAddr) : RManager :=
  mkRManager (hasSock m) a (relayPeers m) (relayPinned m) (lastDirectRecv m)
    (blackholeMissCount m) (directClearCount m) (sendErrCount m) (lastOutboundSend m)
    (firstOutboundSend m) (localNodeID m) (forceRelay m).

Definition IsFromBeacon m (from : option UDPAddr) : bool :=
  match from, beaconAddr m with
  | Some f, Some b => IPEqual (IP f) (IP b) && (Port f =? Port b)
  | _, _ => false
  end.

(** ** Relay flags (relay.go) *)

Definition SetRelayPeer m (id : Z) (relay : bool) : RManager :=
  set_relay m (<[id := relay]> (relayPeers m)) (relayPinned m).
Definition SetRelayPeerPinned m (id : Z) (relay : bool) : RManager :=
  set_relay m (<[id := relay]> (relayPeers m))
    (if relay then <[id := relay]> (relayPinned m)
     else delete id (<[id := relay]> (relayPinned m))).
Definition UnpinRelayPeer m (id : Z) : RManager :=
  set_relay m (relayPeers m) (delete id (relayPinned m)).
Definition IsRelayPeer m (id : Z) : bool := flag (relayPeers m) id.
Definition IsRelayPinned m (id : Z) : bool := flag (relayPinned m) id.
Definition RelayPeerIDs m : gset Z := dom (filter (λ e, e.2 = true) (relayPeers m)).
Definition RelayPeerCount m : Z := Z.of_nat (size (relayPeers m)).

Definition AdmitRelayFromBeacon m (id : Z) : bool * RManager :=
  if bool_decide (relayPeers m !! id = None) && (MaxRelayPeers <=? RelayPeerCount m)
  then (false, m)
  else (true, set_relay m (<[id := true]> (relayPeers m)) (<[id := true]> (relayPinned m))).

(** (admitted, newlyActivated, shouldAliasPeer) *)
Definition MarkRelayActivatedIfHadCrypto m (id : Z) (hadCrypto : bool)
  : (bool * bool * bool) * RManager :=
  let wasRelay := flag (relayPeers m) id in
  if hadCrypto then
    if negb wasRelay && (MaxRelayPeers <=? RelayPeerCount m) then ((false, false, false), m)
    else ((true, negb wasRelay, true), set_relay m (<[id := true]> (relayPeers m)) (relayPinned m))
  else ((true, false, false), m).

Definition ClearRelayOnDirect m (id : Z) (from : option UDPAddr) : bool * RManager :=
  match from with
  | None => (false, m)
  | Some _ =>
      if IsFromBeacon m from then (false, set_miss m (<[id := 0]> (blackholeMissCount m)))
      else
        let m := set_miss m (<[id := 0]> (blackholeMissCount m)) in
        if negb (flag (relayPeers m) id) then (false, m)
        else if flag (relayPinned m) id then (false, m)
        else
          let n := count (directClearCount m) id + 1 in
          let m := set_clear m (<[id := n]> (directClearCount m)) in
          if DirectClearsRequired <=? n then
            (true, set_clear (set_relay m (<[id := false]> (relayPeers m)) (relayPinned m))
                     (<[id := 0]> (directClearCount m)))
          else (false, m)
  end.

Definition PeerStateEntries m : nat :=
  size (relayPeers m) + size (relayPinned m) + size (lastOutboundSend m) +
  size (firstOutboundSend m) + size (sendErrCount m) + size (lastDirectRecv m) +
  size (blackholeMissCount m) + size (directClearCount m).

Definition RPeerIDs m : gset Z :=
  dom (lastOutboundSend m) ∪ dom (firstOutboundSend m) ∪ dom (lastDirectRecv m) ∪
  dom (relayPeers m) ∪ dom (relayPinned m) ∪
  dom (sendErrCount m) ∪ dom (blackholeMissCount m) ∪ dom (directClearCount m).

Definition RRemovePeer m (id : Z) : RManager :=
  mkRManager (hasSock m) (beaconAddr m) (delete id (relayPeers m)) (delete id (relayPinned m))
    (delete id (lastDirectRecv m)) (delete id (blackholeMissCount m))
    (delete id (directClearCount m)) (delete id (sendErrCount m))
    (delete id (lastOutboundSend m)) (delete id (firstOutboundSend m))
    (localNodeID m) (forceRelay m).

(** ** Blackhole detection (blackhole.go) *)

Definition RecordDirectRecv m (id : Z) (t : gotime) : RManager :=
  set_times m (<[id := t]> (lastDirectRecv m)) (lastOutboundSend m)
    (delete id (firstOutboundSend m)).
Definition HasDirectRecv m (id : Z) : bool := bool_decide (is_Some (lastDirectRecv m !! id)).
Definition RecordOutboundSend m (id : Z) (t : gotime) : RManager :=
  set_times m (lastDirectRecv m) (<[id := t]> (lastOutboundSend m))
    (match firstOutboundSend m !! id with
     | Some _ => firstOutboundSend m
     | None => <[id := t]> (firstOutboundSend m)
     end).
Definition LastOutboundSend m (id : Z) : option gotime := lastOutboundSend m !! id.
Definition ClearSendErrCount m (id : Z) : RManager := set_errs m (delete id (sendErrCount m)).
Definition SendErrCount m (id : Z) : Z := count (sendErrCount m) id.
Definition BlackholeMissCount m (id : Z) : Z := count (blackholeMissCount m) id.

(** What [sock.Send] answers. *)
Inductive SendErr := ICMPUnreachable | OtherErr.
Inductive SendResult := Sent (n : Z) | SendFailed (e : SendErr).

(** (flipped, count) *)
Definition HandleSendError m (id : Z) (e : SendErr) : (bool * Z) * RManager :=
  match e with
  | OtherErr => ((false, 0), m)
  | ICMPUnreachable =>
      let n := count (sendErrCount m) id + 1 in
      let m := set_errs m (<[id := n]> (sendErrCount m)) in
      if (SendErrThreshold <=? n) && negb (flag (relayPeers m) id) &&
         (RelayPeerCount m <? MaxRelayPeers) then
        ((true, n),
         set_errs (set_relay m (<[id := true]> (relayPeers m)) (<[id := true]> (relayPinned m)))
           (<[id := 0]> (sendErrCount m)))
      else ((false, n), m)
  end.

(** How long the direct path to the peer has been silent, if measurable. *)
Definition silence m (id : Z) (now : gotime) : option duration :=
  match lastDirectRecv m !! id with
  | Some t => Some (time_sub now t)
  | None => time_sub now <$> firstOutboundSend m !! id
  end.

(** (shouldRelay, flipped, silentFor, misses) *)
Definition MaybeFlipBlackhole m (now : gotime) (id : Z) : (bool * bool * duration * Z) * RManager :=
  if flag (relayPeers m) id then ((true, false, 0, 0), m)
  else
    match beaconAddr m with
    | None => ((false, false, 0, 0), m)
    | Some _ =>
        match silence m id now with
        | None => ((false, false, 0, 0), m)
        | Some silentFor =>
            if silentFor <=? DirectBlackholeThreshold then ((false, false, 0, 0), m)
            else
              let misses := count (blackholeMissCount m) id + 1 in
              let m := set_miss m (<[id := misses]> (blackholeMissCount m)) in
              if BlackholeMissesRequired <=? misses then
                ((true, true, silentFor, misses),
                 set_miss (set_relay m (<[id := true]> (relayPeers m)) (<[id := true]> (relayPinned m)))
                   (<[id := 0]> (blackholeMissCount m)))
              else ((false, false, silentFor, misses), m)
        end
    end.

(** ** Sending (writeframe.go, beacon.go) *)

Inductive RouteErr := ErrNoAddress | ErrNoSocket | ErrSend (e : SendErr).
Record SendOutcome := mkOutcome { oBytes : Z; oRelay : bool }.

Section Frames.
Context {P : Protocol}.

(** [[BeaconMsgRelay][sender][destination][frame...]] *)
Definition relayMsg m (id : Z) (frame : bytes) : bytes :=
  [BeaconMsgRelay] ++ PutUint32 (localNodeID m) ++ PutUint32 id ++ frame.

(** The datagram handed to the socket, the outcome, and the new state. *)
Definition WriteFrame m (now : gotime) (id : Z) (addr : option UDPAddr) (frame : bytes)
    (res : SendResult) : option (bytes * UDPAddr) * (SendOutcome + RouteErr) * RManager :=
  let '((shouldRelay, _, _, _), m) := MaybeFlipBlackhole m now id in
  let shouldRelay := if forceRelay m then true else shouldRelay in
  match (if shouldRelay then beaconAddr m else None) with
  | Some b =>
      if negb (hasSock m) then (None, inr ErrNoSocket, m)
      else
        let msg := relayMsg m id frame in
        match res with
        | Sent n => (Some (msg, b), inl (mkOutcome n true), RecordOutboundSend m id now)
        | SendFailed e => (Some (msg, b), inr (ErrSend e), snd (HandleSendError m id e))
        end
  | None =>
      match addr with
      | None => (None, inr ErrNoAddress, m)
      | Some a =>
          if negb (hasSock m) then (None, inr ErrNoSocket, m)
          else
            match res with
            | Sent n => (Some (frame, a), inl (mkOutcome n false), RecordOutboundSend m id now)
            | SendFailed e => (Some (frame, a), inr (ErrSend e), snd (HandleSendError m id e))
            end
      end
  end.

Definition SendRelayFrame m (id : Z) (frame : bytes) : option (bytes * UDPAddr) :=
  match beaconAddr m with
  | None => None
  | Some b => if hasSock m then Some (relayMsg m id frame, b) else None
  end.

Definition RegisterWithBeacon m : option (bytes * UDPAddr) :=
  match beaconAddr m with
  | Some b => if hasSock m then Some ([BeaconMsgDiscover] ++ PutUint32 (localNodeID m), b) else None
  | None => None
  end.

Definition RequestHolePunch m (target : Z) : option (bytes * UDPAddr) :=
  match beaconAddr m with
  | Some b => if hasSock m
              then Some ([BeaconMsgPunchRequest] ++ PutUint32 (localNodeID m) ++ PutUint32 target, b)
              else None
  | None => None
  end.

(** [[iplen(1)][IP(4 or 16)][port(2)]]; the punches sent. *)
Definition parsePunchTarget (d : bytes) : option UDPAddr :=
  match d with
  | [] => None
  | l :: _ =>
      if negb ((l =? 4) || (l =? 16)) then None
      else
        let n := Z.to_nat l in
        if Nat.ltb (length d) (1 + n + 2) then None
        else Some (mkUDPAddr (slice 1 (1 + n) d) (Uint16 (drop (1 + n) d)))
  end.
Definition HandlePunchCommand m (d : bytes) : list (bytes * UDPAddr) :=
  match parsePunchTarget d with
  | Some a => if hasSock m then replicate 3 (TunnelMagicPunch, a) else []
  | None => []
  end.
End Frames.

(** ** Theorems *)
Section Proofs.
Context {P : Protocol}.

Definition stays_pinned m (id : Z) : Prop := IsRelayPeer m id = true ∧ IsRelayPinned m id = true.

Inductive r_op :=
| RSetRelay (id : Z) (relay : bool)
| RSetPinned (id : Z) (relay : bool)
| RUnpin (id : Z)
| RAdmit (id : Z)
| RMarkRelay (id : Z) (hadCrypto : bool)
| RClearOnDirect (id : Z) (from : option UDPAddr)
| RForget (id : Z)
| RDirectRecv (id : Z) (t : gotime)
| ROutbound (id : Z) (t : gotime)
| RClearErrs (id : Z)
| RSendError (id : Z) (e : SendErr)
| RWrite (now : gotime) (id : Z) (addr : option UDPAddr) (frame : bytes) (res : SendResult)
| RForce (v : bool)
| RBeacon (a : option UDPAddr).

Definition r_step m (o : r_op) : RManager :=
  match o with
  | RSetRelay id b => SetRelayPeer m id b
  | RSetPinned id b => SetRelayPeerPinned m id b
  | RUnpin id => UnpinRelayPeer m id
  | RAdmit id => snd (AdmitRelayFromBeacon m id)
  | RMarkRelay id h => snd (MarkRelayActivatedIfHadCrypto m id h)
  | RClearOnDirect id from => snd (ClearRelayOnDirect m id from)
  | RForget id => RRemovePeer m id
  | RDirectRecv id t => RecordDirectRecv m id t
  | ROutbound id t => RecordOutboundSend m id t
  | RClearErrs id => ClearSendErrCount m id
  | RSendError id e => snd (HandleSendError m id e)
  | RWrite now id addr frame res => snd (WriteFrame m now id addr frame res)
  | RForce v => SetForceRelay m v
  | RBeacon a => SetBeaconAddrUDP m a
  end.

(** The calls that are meant to take a peer out of pinned relay mode. *)
Definition releases (id : Z) (o : r_op) : bool :=
  match o with
  | RSetRelay i false | RSetPinned i false | RUnpin i | RForget i => i =? id
  | _ => false
  end.

Lemma flag_insert t (i id : Z) b : flag (<[i := b]> t) id = if i =? id then b else flag t id.
Proof.
  unfold flag. destruct (Z.eqb_spec i id) as [->|]; [by rewrite lookup_insert_eq|].
  by rewrite lookup_insert_ne.
Qed.

Lemma flag_delete t (i id : Z) : i ≠ id → flag (delete i t) id = flag t id.
Proof. intros H. unfold flag. by rewrite lookup_delete_ne. Qed.

Lemma flag_set_true t (i id : Z) : flag t id = true → flag (<[i := true]> t) id = true.
Proof. intros H. rewrite flag_insert. by destruct (i =? id). Qed.

Lemma pinned_set_true m i id :
  stays_pinned m id →
  stays_pinned (set_relay m (<[i := true]> (relayPeers m)) (<[i := true]> (relayPinned m))) id.
Proof. intros [H1 H2]. split; by apply flag_set_true. Qed.

Lemma HandleSendError_pinned m i id e :
  stays_pinned m id → stays_pinned (snd (HandleSendError m i e)) id.
Proof.
  intros H. unfold HandleSendError. destruct e; [|done]. cbv zeta.
  case_match; [|exact H]. apply (pinned_set_true (set_errs m _) i id H).
Qed.

Lemma MaybeFlip_pinned m now i id :
  stays_pinned m id → stays_pinned (snd (MaybeFlipBlackhole m now i)) id.
Proof.
  intros H. unfold MaybeFlipBlackhole. case_match; [done|]. case_match; [|done].
  case_match; [|done]. case_match; [done|]. cbv zeta. case_match; [|exact H].
  apply (pinned_set_true (set_miss m _) i id H).
Qed.

Lemma WriteFrame_pinned m now i addr frame res id :
  stays_pinned m id → stays_pinned (snd (WriteFrame m now i addr frame res)) id.
Proof.
  intros H. unfold WriteFrame. pose proof (MaybeFlip_pinned m now i id H) as H1.
  destruct (MaybeFlipBlackhole m now i) as [[[[sr fl] sil] mi] m1]. cbn [snd] in H1. cbv zeta.
  destruct (if (if forceRelay m1 then true else sr) then beaconAddr m1 else None).
  - case_match; [done|]. destruct res; cbn [snd]; [exact H1|by apply HandleSendError_pinned].
  - destruct addr; [|done]. case_match; [done|].
    destruct res; cbn [snd]; [exact H1|by apply HandleSendError_pinned].
Qed.

Lemma r_step_pinned m o id : releases id o = false → stays_pinned m id → stays_pinned (r_step m o) id.
Proof.
  intros Hr H. pose proof H as [H1 H2]. unfold IsRelayPeer, IsRelayPinned in *. destruct o; simpl in *;
    try exact H.
  - destruct relay; [split; [by apply flag_set_true|done]|].
    apply Z.eqb_neq in Hr. split; [|done]. unfold IsRelayPeer. simpl. rewrite flag_insert.
    by destruct (Z.eqb_spec id0 id).
  - destruct relay; [by apply pinned_set_true|]. apply Z.eqb_neq in Hr.
    split; unfold IsRelayPeer, IsRelayPinned; simpl.
    + rewrite flag_insert. by destruct (Z.eqb_spec id0 id).
    + rewrite flag_delete by done. rewrite flag_insert. by destruct (Z.eqb_spec id0 id).
  - apply Z.eqb_neq in Hr. split; unfold IsRelayPeer, IsRelayPinned; simpl; [done|].
    by rewrite flag_delete.
  - unfold AdmitRelayFromBeacon. case_match; [done|]. by apply pinned_set_true.
  - unfold MarkRelayActivatedIfHadCrypto. repeat case_match; try done.
    split; [by apply flag_set_true|done].
  - unfold ClearRelayOnDirect. destruct from as [f|]; [|done]. case_match; [done|]. cbv zeta. simpl.
    destruct (decide (id0 = id)) as [->|Hne].
    + rewrite H1, H2. done.
    + repeat case_match; try done. split; [|done]. unfold IsRelayPeer. simpl.
      rewrite flag_insert. by destruct (Z.eqb_spec id0 id).
  - apply Z.eqb_neq in Hr. split; unfold IsRelayPeer, IsRelayPinned; simpl; by rewrite flag_delete.
  - by apply HandleSendError_pinned.
  - by apply WriteFrame_pinned.
Qed.

(** A pinned relay peer stays on the relay.  Whatever packets arrive on
    the direct path, whatever sends succeed or fail, a peer that is in relay
    mode and pinned stays so until one of the four calls that release it
    ([SetRelayPeer] or [SetRelayPeerPinned] with false, [UnpinRelayPeer],
    [RemovePeer]) names it. *)
Theorem pinned_relay_is_sticky m ops id :
  stays_pinned m id → Forall (λ o, releases id o = false) ops →
  stays_pinned (fold_left r_step ops m) id.
Proof.
  intros H Hops. revert m H. induction Hops as [|o ops Ho _ IH]; intros m H; [done|].
  apply IH. by apply r_step_pinned.
Qed.

(** ** The blackhole heuristic *)

(** Frames written to [id] at the given times, all sends succeeding. *)
Fixpoint writes m (id : Z) (addr : UDPAddr) (reqs : list (gotime * bytes))
  : list (option (bytes * UDPAddr)) :=
  match reqs with
  | [] => []
  | (now, frame) :: reqs =>
      let '(d, _, m) := WriteFrame m now id (Some addr) frame (Sent (blen frame)) in
      d :: writes m id addr reqs
  end.

(** A direct path that has been silent since [a], with [k] misses seen. *)
Record silent_since m (id : Z) (b : UDPAddr) (a : gotime) (k : Z) : Prop := {
  ss_sock : hasSock m = true;
  ss_force : forceRelay m = false;
  ss_beacon : beaconAddr m = Some b;
  ss_recv : lastDirectRecv m !! id = Some a;
  ss_relay : flag (relayPeers m) id = (BlackholeMissesRequired <=? k);
  ss_miss : k < BlackholeMissesRequired → count (blackholeMissCount m) id = k;
}.

Lemma RecordOutboundSend_silent m id b a k now :
  silent_since m id b a k → silent_since (RecordOutboundSend m id now) id b a k.
Proof. intros []. by split. Qed.

Lemma write_silent m id b a k addr now frame :
  silent_since m id b a k → 0 <= k → DirectBlackholeThreshold < now - a →
  let '(d, _, m') := WriteFrame m now id (Some addr) frame (Sent (blen frame)) in
  (∃ k', silent_since m' id b a k' ∧ Z.min k' 3 = Z.min (k + 1) 3 ∧ k < k') ∧
  d = Some (if k + 1 <? BlackholeMissesRequired then (frame, addr) else (relayMsg m id frame, b)).
Proof.
  intros H Hk Ht. pose proof H as [Hs Hf Hb Hr Hre Hmi]. unfold WriteFrame, MaybeFlipBlackhole.
  rewrite Hre. unfold BlackholeMissesRequired in *. destruct (Z.leb_spec 3 k) as [Hge|Hlt].
  - rewrite Hf, Hb, Hs. cbn [negb]. split.
    + exists (k + 1). split; [|lia]. apply RecordOutboundSend_silent.
      destruct H. split; auto; unfold BlackholeMissesRequired in *; [|lia].
      rewrite Hre. destruct (Z.leb_spec 3 k), (Z.leb_spec 3 (k + 1)); lia || done.
    + destruct (Z.ltb_spec (k + 1) 3); [lia|done].
  - rewrite Hb. unfold silence. rewrite Hr.
    assert (DirectBlackholeThreshold < time_sub now a) as Hsil.
    { unfold time_sub, maxDuration, minDuration, DirectBlackholeThreshold, Second in *. lia. }
    destruct (Z.leb_spec (time_sub now a) DirectBlackholeThreshold); [lia|].
    rewrite (Hmi ltac:(lia)). cbv zeta. destruct (Z.leb_spec 3 (k + 1)) as [Hge'|Hlt'].
    + simpl. rewrite Hf, Hb, Hs. cbn [negb]. split.
      * exists 3. split; [|lia]. split; simpl; try done.
        by rewrite flag_insert, Z.eqb_refl.
      * destruct (Z.ltb_spec (k + 1) 3); [lia|done].
    + simpl. rewrite Hf, Hs. cbn [negb]. split.
      * exists (k + 1). split; [|lia]. split; simpl; try done.
        -- rewrite Hre. unfold BlackholeMissesRequired. destruct (Z.leb_spec 3 (k + 1)), (Z.leb_spec 3 k); lia || done.
        -- intros _. unfold count. by rewrite lookup_insert_eq.
      * destruct (Z.ltb_spec (k + 1) 3); [done|lia].
Qed.

Lemma HandleSendError_local m id e : localNodeID (snd (HandleSendError m id e)) = localNodeID m.
Proof. unfold HandleSendError. destruct e; [|done]. cbv zeta. by case_match. Qed.

Lemma WriteFrame_local m now id addr frame res :
  localNodeID (snd (WriteFrame m now id addr frame res)) = localNodeID m.
Proof.
  unfold WriteFrame.
  assert (localNodeID (snd (MaybeFlipBlackhole m now id)) = localNodeID m) as H1
    by (unfold MaybeFlipBlackhole; cbv zeta; by repeat case_match).
  destruct (MaybeFlipBlackhole m now id) as [[[[sr fl] sil] mi] m1]. cbn [snd] in H1. cbv zeta.
  rewrite <- H1. destruct (if (if forceRelay m1 then true else sr) then beaconAddr m1 else None);
    [|destruct addr; [|done]]; (case_match; [done|]); destruct res; cbn [snd]; try done;
    apply HandleSendError_local.
Qed.

Lemma writes_silent m id b a k addr reqs L :
  silent_since m id b a k → 0 <= k → localNodeID m = L →
  (∀ r, r ∈ reqs → DirectBlackholeThreshold < r.1 - a) →
  ∀ i now frame, reqs !! i = Some (now, frame) →
    writes m id addr reqs !! i = Some (Some (
      if Z.of_nat i + k + 1 <? BlackholeMissesRequired then (frame, addr)
      else ([BeaconMsgRelay] ++ PutUint32 L ++ PutUint32 id ++ frame, b))).
Proof.
  revert m k. induction reqs as [|[t f] reqs IH]; intros m k H Hk HL Ht i now frame Hi; [done|].
  cbn [writes]. pose proof (write_silent m id b a k addr t f H Hk (Ht (t, f) ltac:(left))) as Hw.
  pose proof (WriteFrame_local m t id (Some addr) f (Sent (blen f))) as Hl.
  destruct (WriteFrame m t id (Some addr) f (Sent (blen f))) as [[d o] m']. cbn [snd] in Hl.
  destruct Hw as [(k' & H' & Hmin & Hlt) ->]. destruct i as [|i].
  - simpl in Hi. injection Hi as <- <-. simpl. unfold relayMsg. rewrite HL. done.
  - simpl in Hi |- *. rewrite (IH m' k' H' ltac:(lia) ltac:(congruence)
      (λ r Hr, Ht r ltac:(by right)) i now frame Hi).
    unfold BlackholeMissesRequired.
    destruct (Z.ltb_spec (Z.of_nat i + k' + 1) 3), (Z.ltb_spec (Z.of_nat (S i) + k + 1) 3);
      done || lia.
Qed.

(** Falling back to the relay has hysteresis.  A peer was last heard on
    the direct path at time [a]; no misses are counted yet; from then on every
    frame is written more than [DirectBlackholeThreshold] after [a].  Then the
    first [BlackholeMissesRequired - 1] frames still go to the direct address,
    unchanged, and every later one goes to the beacon, behind the nine-byte
    relay header naming sender and destination. *)
Theorem blackhole_fallback_hysteresis m id b a addr reqs :
  silent_since m id b a 0 → (∀ r, r ∈ reqs → DirectBlackholeThreshold < r.1 - a) →
  ∀ i now frame, reqs !! i = Some (now, frame) →
    writes m id addr reqs !! i = Some (Some (
      if Z.of_nat i <? BlackholeMissesRequired - 1 then (frame, addr)
      else ([BeaconMsgRelay] ++ PutUint32 (localNodeID m) ++ PutUint32 id ++ frame, b))).
Proof.
  intros H Ht i now frame Hi.
  rewrite (writes_silent m id b a 0 addr reqs _ H ltac:(lia) eq_refl Ht i now frame Hi).
  unfold BlackholeMissesRequired.
  destruct (Z.ltb_spec (Z.of_nat i + 0 + 1) 3), (Z.ltb_spec (Z.of_nat i) (3 - 1)); done || lia.
Qed.

(** ** The cap on relay peers *)

Lemma insert_count_le (t : gmap Z bool) id b :
  Z.of_nat (size (<[id := b]> t)) <=
  Z.of_nat (size t) + if bool_decide (t !! id = None) then 1 else 0.
Proof.
  rewrite map_size_insert. destruct (t !! id) eqn:E; simpl; lia.
Qed.

(** What the network can admit is capped.  None of the three paths by
    which packets from elsewhere can add a relay peer (a relayed key exchange,
    a relayed data packet, ICMP errors) takes the table past [MaxRelayPeers],
    and a peer already in relay mode is never refused. *)
Theorem network_admission_respects_cap m id h e :
  RelayPeerCount m <= MaxRelayPeers →
  RelayPeerCount (snd (AdmitRelayFromBeacon m id)) <= MaxRelayPeers ∧
  RelayPeerCount (snd (MarkRelayActivatedIfHadCrypto m id h)) <= MaxRelayPeers ∧
  RelayPeerCount (snd (HandleSendError m id e)) <= MaxRelayPeers ∧
  (IsRelayPeer m id = true → fst (AdmitRelayFromBeacon m id) = true ∧
   fst (MarkRelayActivatedIfHadCrypto m id true) = (true, false, true)).
Proof.
  intros Hc. pose proof (insert_count_le (relayPeers m) id true) as Hi.
  unfold RelayPeerCount in *. split_and!.
  - unfold AdmitRelayFromBeacon, RelayPeerCount.
    destruct (relayPeers m !! id) eqn:El; simpl in *; [lia|].
    destruct (Z.leb_spec MaxRelayPeers (Z.of_nat (size (relayPeers m)))); simpl in *; lia.
  - unfold MarkRelayActivatedIfHadCrypto, RelayPeerCount, flag. cbv zeta.
    destruct h; [|done]. destruct (relayPeers m !! id) as [[]|] eqn:El; simpl in *; [lia| |];
    destruct (Z.leb_spec MaxRelayPeers (Z.of_nat (size (relayPeers m)))); simpl in *; lia.
  - unfold HandleSendError, RelayPeerCount, flag. destruct e; [|done]. cbv zeta. simpl.
    destruct (relayPeers m !! id) as [[]|] eqn:El; rewrite ?andb_false_r, ?andb_true_r; simpl in *;
      destruct (Z.ltb_spec (Z.of_nat (size (relayPeers m))) MaxRelayPeers);
      rewrite ?andb_false_r, ?andb_true_r; try case_match; simpl; lia.
  - intros Hr. unfold IsRelayPeer, flag in Hr.
    assert (relayPeers m !! id ≠ None) as Hn by (destruct (relayPeers m !! id); done).
    split.
    + unfold AdmitRelayFromBeacon. by rewrite bool_decide_eq_false_2.
    + unfold MarkRelayActivatedIfHadCrypto, flag. by rewrite Hr.
Qed.

(** Forgetting a peer leaves no routing state behind: the node ids this
    manager keeps anything for are exactly the previous ones without it. *)
Theorem RRemovePeer_forgets m id : RPeerIDs (RRemovePeer m id) = RPeerIDs m ∖ {[id]}.
Proof.
  unfold RPeerIDs, RRemovePeer. simpl. apply leibniz_equiv. rewrite !dom_delete. set_solver.
Qed.
End Proofs.

(** ** Witnesses and examples *)
#[local] Existing Instance documented_protocol.

Definition toy_beacon : UDPAddr := mkUDPAddr [10; 0; 0; 1] 9001.
Definition toy_direct : UDPAddr := mkUDPAddr [192; 0; 2; 7] 4000.
(** Peer 2 heard directly at time 0, nothing since. *)
Definition toy_router : RManager :=
  mkRManager true (Some toy_beacon) ∅ ∅ {[ 2 := 0 ]} ∅ ∅ ∅ ∅ ∅ 1 false.

Lemma pinned_relay_is_sticky_witness :
  let m := SetRelayPeerPinned toy_router 2 true in
  stays_pinned (fold_left r_step
    [RClearOnDirect 2 (Some toy_direct); RClearOnDirect 2 (Some toy_direct);
     RClearOnDirect 2 (Some toy_direct); RForget 3] m) 2.
Proof.
  intros m. apply (pinned_relay_is_sticky m).
  - split; vm_compute; reflexivity.
  - repeat constructor.
Defined.

Lemma blackhole_fallback_hysteresis_witness :
  writes toy_router 2 toy_direct [(9 * Second, [7]); (9 * Second, [8]); (9 * Second, [9])] !! 2%nat
  = Some (Some ([5; 0; 0; 0; 1; 0; 0; 0; 2; 9], toy_beacon)).
Proof.
  rewrite (blackhole_fallback_hysteresis toy_router 2 toy_beacon 0 toy_direct
    [(9 * Second, [7]); (9 * Second, [8]); (9 * Second, [9])]) with (now := 9 * Second) (frame := [9]).
  - vm_compute. reflexivity.
  - split; vm_compute; reflexivity.
  - intros r Hr. assert (r.1 = 9 * Second) as -> by set_solver. vm_compute. reflexivity.
  - reflexivity.
Defined.

Lemma network_admission_respects_cap_witness :
  RelayPeerCount (snd (AdmitRelayFromBeacon toy_router 7)) <= MaxRelayPeers.
Proof.
  apply (network_admission_respects_cap toy_router 7 true OtherErr). vm_compute. discriminate.
Defined.

(** [MaxRelayPeers] relay peers, and peer 5000 two misses into a silence. *)
Definition full_router : RManager :=
  mkRManager true (Some toy_beacon)
    (list_to_map (map (λ i, (Z.of_nat i, true)) (seq 0 4096))) ∅
    {[ 5000 := 0 ]} {[ 5000 := 2 ]} ∅ ∅ ∅ ∅ 1 false.

(** The cap does not cover the blackhole heuristic: with the table at
    [MaxRelayPeers], a frame written to a silent peer adds one more. *)
Theorem blackhole_flip_exceeds_cap :
  RelayPeerCount full_router = MaxRelayPeers ∧
  RelayPeerCount (snd (MaybeFlipBlackhole full_router (9 * Second) 5000)) = MaxRelayPeers + 1.
Proof. vm_compute. split; reflexivity. Qed.

(** The three direct packets that clear relay mode need not be
    consecutive: packets relayed by the beacon in between do not reset the
    count. *)
Theorem direct_clears_need_not_be_consecutive :
  let direct m := snd (ClearRelayOnDirect m 2 (Some toy_direct)) in
  let relayed m := snd (ClearRelayOnDirect m 2 (Some toy_beacon)) in
  let m := SetRelayPeer toy_router 2 true in
  IsRelayPeer (direct (relayed (direct (relayed (direct m))))) 2 = false.
Proof. vm_compute. reflexivity. Qed.
