(* ===== verification/Stream.v ===== *)
(** * Packets of an open stream (pkg/daemon/daemon.go: [handleStreamPacket],
    [acceptFIN], [expireHeldFIN], [stopFINHold], [sendDelayedACK],
    [CloseConnection], [releaseHeldFIN], [retxLoop])

    What one endpoint of a stream does with each packet and timer: the ACK and
    data branch with its delayed acknowledgements, the FIN branch with the hold
    on a FIN that overtook data, SYN-ACKs, closing with the hold on its own FIN,
    and one tick of the retransmit loop.  Operations return the packets handed
    to the tunnel and the events published, in order.  Accepting connections,
    which involves the port manager, is in Accept. *)
From S2P Require Import Prelude SeqNum Sack Protocol Conn Sender Reassembly.
Open Scope Z_scope.

Definition DelayedACKThreshold : Z := 2.

(** The events the stream code publishes, by connection id or port. *)
Inductive StreamEvent :=
| EvSynRejected (dstPort : Z)
| EvSynPortRejected (src dstPort network : Z)
| EvSynRateLimited (srcPort : Z)
| EvSynReceived (conn : Z)
| EvConnEstablished (conn : Z)
| EvAcceptQueueFull (port drops : Z)
| EvConnFin (conn : Z)
| EvConnRst (conn : Z)
| EvFileDelivered (conn : Z)
| EvConnIdleTimeout (conn : Z)
| EvConnDeadPeer (conn : Z).

Inductive Output :=
| OSend (node : Z) (pkt : Packet)
| OEvent (e : StreamEvent).

Section Stream.
Context {P : Protocol}.
Implicit Types (c : Connection) (pkt : Packet).

Definition send_opt c (p : option Packet) : list Output :=
  match p with Some p => [OSend (Node (RemoteAddr c)) p] | None => [] end.

(** A packet of this connection with the given flags, sequence and ACK number,
    window and payload. *)
Definition connPacket c (flags sq ack window : Z) (payload : bytes) : Packet :=
  mkPacket Version flags ProtoStream (LocalAddr c) (RemoteAddr c) (LocalPort c) (RemotePort c)
    sq ack window payload.

Definition sendDelayedACK c : Connection * list Output :=
  let c := set_acks c (mkAckState 0 false (QuickACKs (acks c))) in
  let blocks := SACKBlocks (rx c) in
  let ack := connPacket c FlagACK (SendSeq c) (RecvAck c) (RecvWindow c) in
  match blocks with
  | [] => (c, [OSend (Node (RemoteAddr c)) (ack [])])
  | _ =>
      let t := Stats c in
      (set_Stats c (mkStats (BytesSent t) (BytesRecv t) (SegsSent t) (SegsRecv t) (Retransmits t)
         (FastRetx t) (SACKRecv t) (u64 (SACKSent t + Z.of_nat (length blocks))) (DupACKs t)),
       [OSend (Node (RemoteAddr c)) (ack (EncodeSACK blocks))])
  end.

(** The delayed-ACK timer fires. *)
Definition ackTimer c : Connection * list Output :=
  sendDelayedACK (set_acks c (mkAckState (PendingACKs (acks c)) (ACKTimer (acks c)) QuickACKBudget)).

Definition stopFINHold c : Connection :=
  let r := rx c in set_rx c (set_fin r false (finSeq r) (finHeard r)).

Definition is_state c (st : ConnState) : bool := bool_decide (State c = st).

Definition acceptFIN c (now : gotime) (finSeq : Z) : Connection * list Output :=
  let c := stopFINHold c in
  let c := set_rx c (CloseRecvBuf (rx c)) in
  let wasFinWait := is_state c StateFinWait in
  let wasTimeWait := is_state c StateTimeWait in
  let c := set_State c StateTimeWait in
  let c := if wasTimeWait then c else set_LastActivity c now in
  let c := set_KeepaliveUnacked c 0 in
  let c := if wasFinWait then set_tx c (set_Unacked (tx c) []) else c in
  (c, if wasTimeWait then []
      else [OEvent (EvConnFin (ID c));
            OSend (Node (RemoteAddr c))
              (connPacket c (Z.lor FlagFIN FlagACK) (SendSeq c) (u32 (finSeq + 1)) 0 [])]).

(** The hold timer fires. If the peer was heard from too recently the source
    re-arms the timer and changes nothing else. *)
Definition expireHeldFIN c (now : gotime) (finHoldIdle : duration) : Connection * list Output :=
  let open := is_state c StateEstablished in
  let r := rx c in
  if negb (finPending r) then (c, [])
  else if negb open then (set_rx c (set_fin r false (finSeq r) (finHeard r)), [])
  else if 0 <? i64 (finHoldIdle - time_sub now (finHeard r)) then (c, [])
  else acceptFIN (set_rx c (set_fin r false (finSeq r) (finHeard r))) now (finSeq r).

(** The peer's advertised window, in segments; also the value before it. *)
Definition updatePeerWin c (window : Z) : Z * Connection :=
  let prev := PeerRecvWin (tx c) in
  let s := set_PeerRecvWin (tx c) (window * SendSegmentSize) in
  let opened := negb (prev =? -1) && (prev <? PeerRecvWin s) && WindowAvailable s in
  (prev, set_tx c (if opened then set_WindowCh s (signal (WindowCh s)) else s)).

Definition releaseHeldFIN c (now : gotime) : Connection * list Output :=
  let fin := heldFIN c in
  let c := set_heldFIN c None in
  match fin with
  | None => (c, [])
  | Some fin =>
      if is_state c StateTimeWait || is_state c StateClosed then (c, [])
      else let '(c, fin) := sendFIN c now fin in (c, [OSend (Node (Dst fin)) fin])
  end.

Definition releaseHeldFINIfAcked c (now : gotime) : Connection * list Output :=
  match heldFIN c with
  | Some _ => if unackedHasData (tx c) then (c, []) else releaseHeldFIN c now
  | None => (c, [])
  end.

(** SYN-ACK to our dial. *)
Definition handleSYNACK c pkt : Connection * list Output :=
  if negb (is_state c StateSynSent) then (c, [])
  else
    let c := set_State (set_RecvAck c (u32 (Seq pkt + 1))) StateEstablished in
    let c := set_DialCh c (signal (DialCh c)) in
    let c := set_rx c (set_ExpectedSeq (rx c) (u32 (Seq pkt + 1))) in
    let '(_, c) := updatePeerWin c (Window pkt) in
    (c, [OSend (Node (Src pkt))
           (mkPacket Version FlagACK ProtoStream (LocalAddr c) (Src pkt) (DstPort pkt) (SrcPort pkt)
              (SendSeq c) (RecvAck c) (RecvWindow c) [])]).

Definition handleFIN c (now : gotime) pkt : Connection * list Output :=
  let r := rx c in
  let early := is_state c StateEstablished && negb (RecvClosed r) &&
               seqAfter (Seq pkt) (ExpectedSeq r) in
  if early then
    sendDelayedACK (set_rx c (if finPending r then set_fin r true (finSeq r) now
                              else set_fin r true (Seq pkt) now))
  else acceptFIN c now (Seq pkt).

(** Acknowledge a delivered segment: at once with SACK blocks if there is a
    hole, every second segment, or while the quick-ACK budget lasts. *)
Definition acknowledge c : Connection * list Output :=
  match OOOBuf (rx c) with
  | _ :: _ => sendDelayedACK c
  | [] =>
      let a := acks c in
      let pending := PendingACKs a + 1 in
      let c := set_acks c (mkAckState pending (ACKTimer a) (QuickACKs a)) in
      if DelayedACKThreshold <=? pending then sendDelayedACK c
      else if 0 <? QuickACKs a then
        sendDelayedACK (set_acks c (mkAckState pending (ACKTimer a) (QuickACKs a - 1)))
      else (set_acks c (mkAckState pending true (QuickACKs a)), [])
  end.

(** A data payload. [reads] is what the application takes meanwhile. *)
Definition receiveData c (now : gotime) pkt (reads : list nat) : Connection * list Output :=
  if negb (is_state c StateEstablished) then (c, [])
  else
    let t := Stats c in
    let c := set_Stats (set_LastActivity c now)
      (mkStats (BytesSent t) (u64 (BytesRecv t + blen (Payload pkt))) (SegsSent t)
         (u64 (SegsRecv t + 1)) (Retransmits t) (FastRetx t) (SACKRecv t) (SACKSent t)
         (DupACKs t)) in
    let '(cumAck, r) := DeliverInOrder (rx c) (Seq pkt) (Payload pkt) reads in
    let c := set_RecvAck (set_rx c r) cumAck in
    let finReady := finPending r && negb (seqAfter (finSeq r) cumAck) in
    if finReady then acceptFIN (set_rx c (set_fin r false (finSeq r) (finHeard r))) now (finSeq r)
    else acknowledge (if finPending r then set_rx c (set_fin r true (finSeq r) now) else c).

(** [handleACK] up to the payload: window, ACK number, held FIN. *)
Definition ackPhase c (now : gotime) pkt : Connection * list Output :=
  let c := set_KeepaliveUnacked (set_LastActivity c now) 0 in
  let '(prev, c) := updatePeerWin c (Window pkt) in
  let isSACK := bool_decide (is_Some (DecodeSACK (Payload pkt))) in
  let pure := (blen (Payload pkt) =? 0) || isSACK in
  let pure := if negb isSACK && negb (PeerRecvWin (tx c) =? prev) then false else pure in
  let '(c, retx) := ProcessAck c now (Ack pkt) pure in
  let '(c, out) := releaseHeldFINIfAcked c now in
  (c, send_opt c retx ++ out).

Definition handleACK c (now : gotime) pkt (reads : list nat) : Connection * list Output :=
  let '(c, out) := ackPhase c now pkt in
  let '(c, out') :=
    match DecodeSACK (Payload pkt) with
    | Some blocks => (ProcessSACK c blocks, [])
    | None => if 0 <? blen (Payload pkt) then receiveData c now pkt reads else (c, [])
    end in
  (c, out ++ out').

(** RST, less the removal from the connection table. *)
Definition handleRST c : Connection * list Output :=
  let c := set_State c StateClosed in
  let c := set_DialCh c (signal (DialCh c)) in
  let c := stopFINHold c in
  (set_rx c (CloseRecvBuf (rx c)), [OEvent (EvConnRst (ID c))]).

(** The branches of [handleStreamPacket] after the one for a lone SYN, for the
    connection the packet belongs to. *)
Definition handlePacket c (now : gotime) pkt (reads : list nat) : Connection * list Output :=
  if HasFlag pkt FlagSYN && HasFlag pkt FlagACK then handleSYNACK c pkt
  else if HasFlag pkt FlagFIN then handleFIN c now pkt
  else if HasFlag pkt FlagRST then handleRST c
  else if HasFlag pkt FlagACK then handleACK c now pkt reads
  else (c, []).

(** ** Closing *)

(** The loop of [sendHeldTailBeforeClose]; [oks] are the tunnel's verdicts. A
    round sends at least one byte, so [length tail] rounds are enough. *)
Fixpoint sendTail (fuel : nat) c (now : gotime) (tail : bytes) (oks : list bool)
  : Connection * list Output :=
  match fuel, tail with
  | S fuel, _ :: _ =>
      let n := if SendSegmentSize <? blen tail then Z.to_nat SendSegmentSize else length tail in
      let '(c, pkt, _) := transmitSegment c now (take n tail) (hd true oks) in
      let '(c, out) := sendTail fuel c now (drop n tail) (tl oks) in
      (c, OSend (Node (RemoteAddr c)) pkt :: out)
  | _, _ => (c, [])
  end.

(** [locked] says whether SendMu could be taken. *)
Definition sendHeldTailBeforeClose c (now : gotime) (locked : bool) (oks : list bool)
  : Connection * list Output :=
  if negb (is_state c StateEstablished) || negb locked then (c, [])
  else
    let tail := NagleBuf c in
    sendTail (length tail) (set_NagleBuf c []) now tail oks.

(** One step; the source releases conn.Mu between the tail, the FIN and the end. *)
Definition CloseConnection c (now : gotime) (stopping locked : bool) (oks : list bool)
  : Connection * list Output :=
  let '(c, out1) := sendHeldTailBeforeClose c now locked oks in
  let hold := unackedHasData (tx c) && negb stopping in
  let est := is_state c StateEstablished in
  let fin := connPacket c FlagFIN (SendSeq c) 0 0 [] in
  let c := if est then set_SendSeq c (u32 (SendSeq c + 1)) else c in
  let c := if est && hold then set_heldFIN c (Some fin) else c in
  let out2 := if est && (RemotePort c =? PortDataExchange)
              then [OEvent (EvFileDelivered (ID c))] else [] in
  let '(c, out3) :=
    if est then
      if hold then releaseHeldFINIfAcked c now
      else let '(c, fin) := sendFIN c now fin in (c, [OSend (Node (Dst fin)) fin])
    else (c, []) in
  let c := stopFINHold c in
  let c := set_rx c (CloseRecvBuf (rx c)) in
  let c := set_acks c (mkAckState (PendingACKs (acks c)) false (QuickACKs (acks c))) in
  (set_LastActivity (set_State c StateFinWait) now, out1 ++ out2 ++ out3).

(** ** The retransmit loop *)

(** What follows a tick: the loop goes on, ends, or ends and removes the
    connection from the table. *)
Inductive LoopNext := LoopGo | LoopEnd | LoopRemove.

Definition retxTick c (now : gotime) (rnd : Z → Z) : LoopNext * Connection * list Output :=
  match State c with
  | StateEstablished =>
      let '(c, p) := retransmitUnacked c now rnd in (LoopGo, c, send_opt c p)
  | StateFinWait =>
      if negb (unackedHasData (tx c)) then (LoopEnd, c, [])
      else let '(c, p) := retransmitUnacked c now rnd in (LoopGo, c, send_opt c p)
  | StateClosed => (LoopRemove, set_rx c (CloseRecvBuf (rx c)), [])
  | _ => (LoopEnd, c, [])
  end.
End Stream.
