(* ===== verification/Writer.v ===== *)
(** * Writing to a stream (pkg/daemon/daemon.go: [SendData], [sendDataPiece],
    [flushNagle], [flushHeldTail], [drainAfterSendError], [sendDataImmediate],
    [sendSegment])

    A write feeds its bytes through the Nagle buffer in pieces, cuts segments
    off the buffer and waits for the window before each one.  It can block for
    long, with packets, timers and the tail flusher running meanwhile, so it is
    a program counter ([writer]) and a step function: one step per iteration of
    a loop of the source.  The writer holds WriteMu throughout and SendMu in
    [WFlush] and [WSend]; the tail flusher takes SendMu for one step. *)
From S2P Require Import Prelude SeqNum Protocol Conn Sender Stream.
Open Scope Z_scope.

Definition nagleWritePiece : Z := 56 * SendSegmentSize.
Definition MaxZeroWindowProbes : Z := 30.

Inductive SendError := ErrNotEstablished | ErrSendBufFull | ErrConnClosed | ErrTunnel.

(** One iteration of the loop of [flushNagle]. *)
Inductive FlushStep :=
| FlushDone                       (* return false, nil: the buffer is empty *)
| FlushHeld                       (* return true, nil: the remainder is held *)
| FlushFull (segment : bytes)     (* send a full segment and go on *)
| FlushLast (segment : bytes).    (* send the remainder and return *)

Definition flushStep (c : Connection) (force asFlusher : bool) : FlushStep * Connection :=
  match NagleBuf c with
  | [] => (FlushDone, if asFlusher then set_tailFlusher c false else c)
  | buf =>
      if SendSegmentSize <=? blen buf then
        if asFlusher then (FlushHeld, c)
        else
          let n := Z.to_nat SendSegmentSize in
          (FlushFull (take n buf), set_NagleBuf c (drop n buf))
      else if negb force && nagleHoldsTail (tx c) then
        (FlushHeld, if asFlusher then c else set_tailFlusher c true)
      else
        let c := set_NagleBuf c [] in
        (FlushLast buf, if asFlusher then set_tailFlusher c false else c)
  end.

(** What follows a segment: the rest of a flush, or of a write without Nagle. *)
Inductive cont :=
| KFlush (last : bool) (rest : bytes) (tailNow : bool)
| KNow (rest : bytes).

Inductive writer :=
| WIdle
| WPiece (rest : bytes) (tailNow : bool)        (* about to buffer a piece of [rest] *)
| WFlush (rest : bytes) (tailNow : bool)        (* in [flushNagle], [rest] not yet buffered *)
| WNow (rest : bytes)                           (* in [sendDataImmediate] *)
| WSend (segment : bytes) (k : cont) (probes : Z)   (* in [sendSegment] *)
| WDone (err : option SendError).

(** What ends a wait for the window. *)
Inductive wake := WakeWindow | WakeStop | WakeProbe.

Section Writer.
Context {P : Protocol}.
Implicit Types (c : Connection) (w : writer).

(** [SendData] up to its first piece. *)
Definition startWrite c (data : bytes) : writer :=
  if negb (is_state c StateEstablished) then WDone (Some ErrNotEstablished)
  else if NoDelay c then WNow data
  else WPiece data (SendSegmentSize <=? blen data).

(** A flush has returned nil: the last piece ends the write, another is
    followed by the next unless the connection has closed. *)
Definition afterFlush c (rest : bytes) (tailNow : bool) : writer :=
  match rest with
  | [] => WDone None
  | _ => if is_state c StateEstablished then WPiece rest tailNow else WDone (Some ErrConnClosed)
  end.

(** [sendDataPiece] up to its flush. *)
Definition bufferPiece c (rest : bytes) (tailNow : bool) : writer * Connection :=
  let n := if nagleWritePiece <? blen rest then Z.to_nat nagleWritePiece else length rest in
  if MaxNagleBuf <? blen (NagleBuf c) + blen (take n rest) then (WDone (Some ErrSendBufFull), c)
  else (WFlush (drop n rest) tailNow, set_NagleBuf c (NagleBuf c ++ take n rest)).

(** [sendSegment] with the window open: transmit, and go on. A tunnel error
    does not lose the segment; [drainAfterSendError] flushes on, unless the
    connection is gone. *)
Definition sendNow c (now : gotime) (segment : bytes) (k : cont) (ok : bool)
  : writer * Connection * list Output :=
  let '(c, pkt, ok) := transmitSegment c now segment ok in
  let out := [OSend (Node (RemoteAddr c)) pkt] in
  match k with
  | KFlush last rest tailNow =>
      if ok then ((if last then afterFlush c rest tailNow else WFlush rest tailNow), c, out)
      else if is_state c StateEstablished then (WFlush rest tailNow, c, out)
      else (WDone (Some ErrTunnel), c, out)
  | KNow rest => if ok then (WNow rest, c, out) else (WDone (Some ErrTunnel), c, out)
  end.

(** [sendSegment] with the window shut. *)
Definition sendWait c (segment : bytes) (k : cont) (probes : Z) (ev : wake)
  : writer * Connection * list Output :=
  match ev with
  | WakeWindow =>
      match WindowCh (tx c) with
      | Some true => (WSend segment k 0, set_tx c (set_WindowCh (tx c) (Some false)), [])
      | _ => (WSend segment k probes, c, [])
      end
  | WakeStop =>
      if RetxStop c then (WDone (Some ErrConnClosed), c, []) else (WSend segment k probes, c, [])
  | WakeProbe =>
      let probe := connPacket c FlagACK (SendSeq c) (RecvAck c) (RecvWindow c) [] in
      let out := [OSend (Node (RemoteAddr c)) probe] in
      if MaxZeroWindowProbes <=? probes + 1 then
        (WDone (Some ErrConnClosed), set_State c StateClosed,
         out ++ [OSend (Node (RemoteAddr c)) (rstPacket c)])
      else (WSend segment k (probes + 1), c, out)
  end.

Definition writeStep w c (now : gotime) (ev : wake) (ok : bool)
  : writer * Connection * list Output :=
  match w with
  | WIdle | WDone _ => (w, c, [])
  | WPiece rest tailNow => let '(w, c) := bufferPiece c rest tailNow in (w, c, [])
  | WFlush rest tailNow =>
      let '(s, c) := flushStep c tailNow false in
      match s with
      | FlushDone | FlushHeld => (afterFlush c rest tailNow, c, [])
      | FlushFull segment => (WSend segment (KFlush false rest tailNow) 0, c, [])
      | FlushLast segment => (WSend segment (KFlush true rest tailNow) 0, c, [])
      end
  | WNow rest =>
      match rest with
      | [] => (WDone None, c, [])
      | _ =>
          let n := if SendSegmentSize <? blen rest then Z.to_nat SendSegmentSize else length rest in
          (WSend (take n rest) (KNow (drop n rest)) 0, c, [])
      end
  | WSend segment k probes =>
      if WindowAvailable (tx c) then sendNow c now segment k ok
      else sendWait c segment k probes ev
  end.

(** One round of [flushHeldTail]: says whether something is still held. *)
Definition flushHeldTail c (now : gotime) (force ok : bool) : bool * Connection * list Output :=
  let '(s, c) := flushStep c force true in
  match s with
  | FlushLast segment =>
      let '(c, pkt, _) := transmitSegment c now segment ok in
      (false, c, [OSend (Node (RemoteAddr c)) pkt])
  | FlushHeld | FlushFull _ => (true, c, [])
  | FlushDone => (false, c, [])
  end.
End Writer.
