(* ===== verification/Endpoint.v ===== *)
(** * One endpoint of a stream, and what it puts on the wire

    An endpoint is a connection (Stream), the program counter of its writer
    (Writer), and the bytes its application has had accepted so far, in order
    (a history variable).  Its operations are the packets, timers and calls of
    the two files.  [ep_inv] is the invariant of the sending half: the bytes
    sent, the segment in the writer's hand, the Nagle buffer and the rest of
    the write are, in this order, exactly what was accepted; every entry
    waiting for an ACK is a part of that stream at its own position. *)
From S2P Require Import Prelude SeqNum Sack Protocol Conn Sender SenderProofs.
From S2P Require Import Reassembly ReassemblyProofs Stream Writer.
Open Scope Z_scope.

Record Endpoint := mkEndpoint { conn : Connection; wr : writer; written : bytes }.

Inductive ep_op :=
| EWrite (data : bytes)
| EWriter (now : gotime) (ev : wake) (ok : bool)
| EFlusher (now : gotime) (force ok : bool)
| EPacket (now : gotime) (pkt : Packet) (reads : list nat)
| EAckTimer
| ERetx (now : gotime) (rnd : Z → Z)
| EApp
| EClose (now : gotime) (stopping : bool) (oks : list bool)
| ELinger (now : gotime)
| EExpire (now : gotime) (idle : duration).

(** The writer is inside [SendData]; it holds SendMu. *)
Definition writing (w : writer) : bool := match w with WIdle | WDone _ => false | _ => true end.
Definition holds_SendMu (w : writer) : bool :=
  match w with WFlush _ _ | WSend _ _ _ | WNow _ => true | _ => false end.

Section Endpoint.
Context {P : Protocol}.
Implicit Types (e : Endpoint) (c : Connection) (pkt : Packet).

Definition ep_step e (o : ep_op) : Endpoint * list Output :=
  let c := conn e in
  let put (r : Connection * list Output) := (mkEndpoint (fst r) (wr e) (written e), snd r) in
  match o with
  | EWrite data =>
      (mkEndpoint c (startWrite c data)
         (if is_state c StateEstablished then written e ++ data else written e), [])
  | EWriter now ev ok =>
      let '(w, c, out) := writeStep (wr e) c now ev ok in (mkEndpoint c w (written e), out)
  | EFlusher now force ok =>
      let '(_, c, out) := flushHeldTail c now force ok in (mkEndpoint c (wr e) (written e), out)
  | EPacket now pkt reads => put (handlePacket c now pkt reads)
  | EAckTimer => put (ackTimer c)
  | ERetx now rnd => let '(_, c, out) := retxTick c now rnd in put (c, out)
  | EApp => put (set_rx c (recv1 (rx c)), [])
  | EClose now stopping oks => put (CloseConnection c now stopping true oks)
  | ELinger now => put (releaseHeldFIN c now)
  | EExpire now idle => put (expireHeldFIN c now idle)
  end.

(** One write at a time (WriteMu); the tail flusher needs SendMu and an open
    connection; the application does not close in the middle of a write. *)
Definition ep_allowed e (o : ep_op) : Prop :=
  match o with
  | EWrite _ | EClose _ _ _ => writing (wr e) = false
  | EFlusher _ _ _ => holds_SendMu (wr e) = false ∧ State (conn e) = StateEstablished
  | _ => True
  end.

(** ** What the sender's operations do to the entries waiting for an ACK *)

(** What an entry puts on the wire. *)
Definition wire (x : retxEntry) : Z * bytes * bool := fst (core x).

(** Every entry of [l'] is, timers and marks aside, an entry of [l]. *)
Definition from (l' l : list retxEntry) : Prop := ∀ x', x' ∈ l' → ∃ x, x ∈ l ∧ wire x' = wire x.

Lemma from_refl l : from l l.
Proof. intros x ?. by exists x. Qed.

Lemma from_trans l1 l2 l3 : from l1 l2 → from l2 l3 → from l1 l3.
Proof.
  intros H1 H2 x Hx. destruct (H1 x Hx) as (y & Hy & ->). apply H2 in Hy as (z & ? & ->). eauto.
Qed.

Lemma from_wire l' l : map wire l' = map wire l → from l' l.
Proof.
  intros H x Hx. apply (list_elem_of_fmap_2 wire) in Hx.
  change (wire <$> l') with (map wire l') in Hx. rewrite H in Hx.
  apply list_elem_of_fmap_1 in Hx as (y & ? & ?). eauto.
Qed.

Lemma from_core l' l : map core l' = map core l → from l' l.
Proof.
  intros H. apply from_wire. unfold wire. rewrite <- !(map_map core fst). by rewrite H.
Qed.

Lemma from_filter f l : from (List.filter f l) l.
Proof.
  intros x Hx. exists x. split; [|done]. apply list_elem_of_In, filter_In in Hx as [? _].
  by apply list_elem_of_In.
Qed.

(** [c'] differs from [c] in its sender and its statistics only, and waits for
    ACKs of entries [c] waited for. *)
Definition tx_only c c' : Prop :=
  ∃ s t, c' = set_Stats (set_tx c s) t ∧ from (Unacked s) (Unacked (tx c)).

Lemma tx_only_refl c : tx_only c c.
Proof. exists (tx c), (Stats c). split; [by destruct c|apply from_refl]. Qed.

Lemma ProcessAck_tx c now ack pure c' p :
  ProcessAck c now ack pure = (c', p) →
  tx_only c c' ∧ ∀ pkt, p = Some pkt → resends pkt (Unacked (tx c')).
Proof.
  intros E. assert (∀ pkt, p = Some pkt → resends pkt (Unacked (tx c'))) as Hr.
  { intros pkt ->. pose proof (ProcessAck_cases c now ack pure) as H. rewrite E in H.
    destruct H as [(_ & _ & ?)|[(_ & _ & s' & d & f & E' & ->)|(_ & _ & s' & E' & ->)]]; [done| |].
    - by eapply dupAck_resends.
    - by eapply newAck_resends. }
  split; [|done]. clear Hr. revert E. unfold ProcessAck. cbv zeta.
  case_zif; [intros [= <- <-]; apply tx_only_refl|]. case_zif.
  - destruct (dupAck _ _ _ _ _ _) as [[[s' pkt] d] f] eqn:E. intros [= <- <-].
    apply dupAck_resent in E as (Hc & _). exists s'. eexists. split; [reflexivity|]. by apply from_core.
  - destruct (newAck _ _ _ _ _) as [s' pkt] eqn:E. intros [= <- <-].
    apply newAck_spec in E as (Hc & _). exists s', (Stats c). split; [by destruct c|].
    eapply from_trans; [by apply from_core|apply from_filter].
Qed.

Lemma ProcessSACK_tx c blocks : tx_only c (ProcessSACK c blocks).
Proof.
  unfold ProcessSACK. cbv zeta. eexists _, _. split; [reflexivity|]. apply from_wire.
  set (l := map _ (Unacked (tx c))).
  assert (map wire l = map wire (Unacked (tx c))) as Hl.
  { unfold l. rewrite map_map. apply map_ext. intros x. by case_match. }
  unfold signalIfAvailable. by repeat case_match.
Qed.

Lemma retransmitUnacked_tx c now rnd c' p :
  retransmitUnacked c now rnd = (c', p) →
  (∃ st, (st = State c ∨ st = StateClosed) ∧ tx_only (set_State c st) c') ∧
  ∀ pkt, p = Some pkt → pkt = rstPacket c ∨ resends pkt (Unacked (tx c')).
Proof.
  intros E. split.
  2:{ intros pkt ->. apply retransmitUnacked_cases in E as [(? & _)|(? & _)]; auto. }
  revert E. unfold retransmitUnacked. destruct (Unacked (tx c)) as [|x l] eqn:EU.
  { intros [= <- <-]. exists (State c). split; [by left|]. destruct c. apply tx_only_refl. }
  clear EU x l. case_zif.
  { intros [= <- <-]. exists (State c). split; [by left|]. destruct c. apply tx_only_refl. }
  cbv zeta. set (s := renege (tx c) now).
  assert (from (Unacked s) (Unacked (tx c))) as Hs.
  { unfold s, renege. destruct (Unacked (tx c)) as [|x l] eqn:EU; [rewrite EU; apply from_refl|].
    rewrite <- EU. case_zif; [|apply from_refl]. apply from_wire. simpl. by rewrite map_map. }
  assert (∀ f, map wire (bump_first f now (Unacked s)) = map wire (Unacked s)) as Hb.
  { intros f. generalize (Unacked s). clear. intros l. induction l as [|x l IH]; [done|]. simpl. case_match; simpl; [done|congruence]. }
  destruct (List.find _ _) as [x|]; [case_zif|]; intros [= <- <-].
  - exists StateClosed. split; [by right|]. exists s, (Stats c). by destruct c.
  - exists (State c). split; [by left|]. eexists _, _. split; [by destruct c|]. simpl.
    eapply from_trans; [by apply from_wire, Hb|done].
  - exists (State c). split; [by left|]. exists s, (Stats c). by destruct c.
Qed.

(** ** What an endpoint that is not writing may put on the wire *)

Definition is_fin pkt : Prop := HasFlag pkt FlagFIN = true.

(** The other side will take the payload for stream data. *)
Definition carries pkt : Prop :=
  HasFlag pkt FlagSYN = false ∧ HasFlag pkt FlagFIN = false ∧ HasFlag pkt FlagRST = false ∧
  Payload pkt ≠ [] ∧ DecodeSACK (Payload pkt) = None.

(** [sq] is the sequence number of this side's FIN, held or sent. *)
Definition own_fin c (sq : Z) : Prop :=
  (∃ f, heldFIN c = Some f ∧ Seq f = sq) ∨
  (∃ x, x ∈ Unacked (tx c) ∧ isFIN x = true ∧ seq x = sq).

(** Data in [pkt] is an entry waiting for an ACK; a FIN is this side's, or the
    answer to the peer's ([heard]). *)
Definition emits c (heard : Prop) pkt : Prop :=
  (carries pkt → ∃ x, x ∈ Unacked (tx c) ∧ isFIN x = false ∧ seq x = Seq pkt ∧ data x = Payload pkt) ∧
  (is_fin pkt → own_fin c (Seq pkt) ∨ heard).
Definition emits_all c (heard : Prop) (out : list Output) : Prop :=
  ∀ node pkt, OSend node pkt ∈ out → emits c heard pkt.

(** Nothing new is sent, and the connection is not opened. *)
Record calm c c' : Prop := {
  cm_state : State c' = State c ∨ State c' = StateTimeWait ∨ State c' = StateClosed;
  cm_nagle : NagleBuf c' = NagleBuf c;
  cm_seq : SendSeq c' = SendSeq c;
  cm_nodelay : NoDelay c' = NoDelay c;
  cm_stop : RetxStop c' = RetxStop c;
  cm_held : heldFIN c' = heldFIN c ∨ heldFIN c' = None;
  cm_data : ∀ x', x' ∈ Unacked (tx c') → isFIN x' = false → ∃ x, x ∈ Unacked (tx c) ∧ wire x' = wire x;
  cm_fin : ∀ sq, own_fin c' sq → own_fin c sq;
}.

Lemma calm_refl c : calm c c.
Proof. split; eauto. Qed.

Lemma calm_trans c1 c2 c3 : calm c1 c2 → calm c2 c3 → calm c1 c3.
Proof.
  intros [S1 N1 Q1 D1 P1 L1 A1 F1] [S2 N2 Q2 D2 P2 L2 A2 F2]. split.
  - destruct S2 as [->|?]; [done|by right].
  - by etrans.
  - by etrans.
  - by etrans.
  - by etrans.
  - destruct L2 as [->|?]; [done|by right].
  - intros x Hx Hf. destruct (A2 x Hx Hf) as (y & Hy & E).
    pose proof E as [= _ _ Hfy]. rewrite Hf in Hfy.
    destruct (A1 y Hy (eq_sym Hfy)) as (z & ? & ?). exists z. split; [done|]. by etrans.
  - intros sq H. by apply F1, F2.
Qed.

Lemma emits_calm c c' heard pkt : calm c c' → emits c' heard pkt → emits c heard pkt.
Proof.
  intros Hc [Hd Hf]. split.
  - intros Hp. destruct (Hd Hp) as (x & Hx & Hn & Hs & Hb).
    destruct (cm_data _ _ Hc x Hx Hn) as (y & Hy & E). injection E as ? ? ?.
    exists y. split_and!; congruence.
  - intros H. destruct (Hf H); [left; by apply (cm_fin _ _ Hc)|by right].
Qed.

Lemma emits_all_calm c c' heard out : calm c c' → emits_all c' heard out → emits_all c heard out.
Proof. intros Hc H node pkt Hin. eapply emits_calm; [done|by eapply H]. Qed.

Lemma emits_all_app c heard o1 o2 :
  emits_all c heard o1 → emits_all c heard o2 → emits_all c heard (o1 ++ o2).
Proof. intros H1 H2 node pkt [?|?]%elem_of_app; eauto. Qed.

Lemma emits_all_nil c heard : emits_all c heard [].
Proof. intros node pkt ?. set_solver. Qed.

Lemma emits_all_weaken c (h h' : Prop) out : (h → h') → emits_all c h out → emits_all c h' out.
Proof. intros Hh H node pkt Hin. destruct (H node pkt Hin) as [? Hf]. split; [done|]. naive_solver. Qed.

Lemma from_calm c c' :
  State c' = State c ∨ State c' = StateTimeWait ∨ State c' = StateClosed →
  NagleBuf c' = NagleBuf c → SendSeq c' = SendSeq c → NoDelay c' = NoDelay c →
  RetxStop c' = RetxStop c → heldFIN c' = heldFIN c → from (Unacked (tx c')) (Unacked (tx c)) →
  calm c c'.
Proof.
  intros ? ? ? ? ? Hh Hf. split; auto.
  intros sq [(f & ? & ?)|(x & Hx & Hi & Hs)].
  - left. exists f. split; congruence.
  - right. destruct (Hf x Hx) as (y & ? & E). injection E as ? ? ?. exists y. split_and!; congruence.
Qed.

Lemma tx_only_calm c c' : tx_only c c' → calm c c'.
Proof. intros (s & t & -> & Hf). apply from_calm; auto. Qed.

(** ** The operations, one by one *)

Lemma flag_other pkt f g : pkFlags pkt = f → Z.land f g = 0 → HasFlag pkt g = false.
Proof. intros Hp Hd. rewrite HasFlag_spec, Hp, Hd. done. Qed.

Lemma not_fin pkt f : pkFlags pkt = f → Z.land f FlagFIN = 0 → ¬ is_fin pkt.
Proof. intros ? ?. unfold is_fin. by rewrite (flag_other pkt f). Qed.

(** A bare or SACK-carrying acknowledgement. *)
Lemma emits_ack c heard pkt :
  pkFlags pkt = FlagACK → (Payload pkt = [] ∨ ∃ l, l ≠ [] ∧ Payload pkt = EncodeSACK l) →
  emits c heard pkt.
Proof.
  intros Hf Hp. pose proof flags_disjoint as (? & ? & ? & ? & ? & ?). split.
  - intros (_ & _ & _ & Hne & Hd). destruct Hp as [?|(l & Hl & E)]; [done|].
    rewrite E in Hd. destruct (EncodeSACK_decodes l Hl). congruence.
  - intros Hi. by apply (not_fin pkt FlagACK) in Hi.
Qed.

Lemma emits_rst c heard pkt : pkFlags pkt = FlagRST → emits c heard pkt.
Proof.
  intros Hf. pose proof flags_single as (? & ? & ? & Hr).
  pose proof flags_disjoint as (? & ? & ? & ? & ? & ?). split.
  - intros (_ & _ & Hc & _). rewrite HasFlag_spec, Hf, Z.land_diag in Hc. zbool. done.
  - intros Hi. apply (not_fin pkt FlagRST) in Hi; [done..|]. by rewrite Z.land_comm.
Qed.

Lemma has_fin pkt : pkFlags pkt = FlagFIN → is_fin pkt.
Proof.
  intros Hf. unfold is_fin. rewrite HasFlag_spec, Hf, Z.land_diag.
  pose proof flags_single as (? & ? & ? & ?). apply negb_true_iff, Z.eqb_neq. done.
Qed.

Lemma emits_resend c heard pkt : resends pkt (Unacked (tx c)) → emits c heard pkt.
Proof.
  intros (x & Hx & _ & _ & Hs & Hp & Hf). destruct (isFIN x) eqn:Ei.
  - split; [|intros _; left; right; by exists x].
    intros (_ & Hc & _). by rewrite (has_fin pkt Hf) in Hc.
  - split; [intros _; by exists x|].
    intros Hi. apply (not_fin pkt FlagACK) in Hi; [done..|].
    by pose proof flags_disjoint as (? & ? & ? & ? & ? & ?).
Qed.

(** A held FIN is a FIN. *)
Definition held_ok c : Prop := ∀ f, heldFIN c = Some f → pkFlags f = FlagFIN.

Lemma held_ok_calm c c' : calm c c' → held_ok c → held_ok c'.
Proof. intros Hc H f Hf. apply H. destruct (cm_held _ _ Hc); congruence. Qed.

Lemma emits_held c heard f : held_ok c → heldFIN c = Some f → emits c heard f.
Proof.
  intros Hh Hf. pose proof (has_fin f (Hh f Hf)) as Hi. split.
  - intros (_ & Hc & _). by rewrite Hi in Hc.
  - intros _. left. left. by exists f.
Qed.

Lemma one_output c heard node pkt : emits c heard pkt → emits_all c heard [OSend node pkt].
Proof. intros H n p [= -> ->]%list_elem_of_singleton. done. Qed.

Lemma sendDelayedACK_calm c heard :
  calm c (fst (sendDelayedACK c)) ∧ emits_all c heard (snd (sendDelayedACK c)) ∧
  rx (fst (sendDelayedACK c)) = rx c ∧ State (fst (sendDelayedACK c)) = State c.
Proof.
  unfold sendDelayedACK. cbv zeta. destruct (SACKBlocks _) as [|b l] eqn:E; cbn [fst snd];
    (split; [apply from_calm; auto; apply from_refl|split; [|done]]); apply one_output, emits_ack;
    try done; [by left|right; by exists (b :: l)].
Qed.

Lemma releaseHeldFIN_calm c now heard :
  held_ok c → calm c (fst (releaseHeldFIN c now)) ∧ emits_all c heard (snd (releaseHeldFIN c now)) ∧
  rx (fst (releaseHeldFIN c now)) = rx c ∧ State (fst (releaseHeldFIN c now)) = State c.
Proof.
  intros Hh. unfold releaseHeldFIN. destruct (heldFIN c) as [f|] eqn:E; cbv zeta.
  2:{ cbn [fst snd]. split_and!; try done; [|apply emits_all_nil].
      apply from_calm; auto. apply from_refl. }
  case_zif; cbn [fst snd sendFIN].
  - split_and!; try done; [|apply emits_all_nil].
    split; auto; [intros x ?; by exists x|]. intros sq [(? & ? & ?)|?]; [done|by right].
  - split_and!; try done; [|by apply one_output, emits_held]. split; auto.
    + intros x [Hx|Hx]%elem_of_app Hf; [by exists x|].
      apply list_elem_of_singleton in Hx as ->. done.
    + intros sq [(? & ? & ?)|(x & [Hx|Hx]%elem_of_app & ? & Hs)]; [done|right; by exists x|].
      apply list_elem_of_singleton in Hx as ->. left. by exists f.
Qed.

Lemma releaseHeldFINIfAcked_calm c now heard :
  held_ok c → let r := releaseHeldFINIfAcked c now in
  calm c (fst r) ∧ emits_all c heard (snd r) ∧ rx (fst r) = rx c ∧ State (fst r) = State c.
Proof.
  intros Hh. unfold releaseHeldFINIfAcked. cbv zeta. destruct (heldFIN c) eqn:E.
  - case_zif; [|by apply releaseHeldFIN_calm].
    split_and!; try done; [apply calm_refl|apply emits_all_nil].
  - split_and!; try done; [apply calm_refl|apply emits_all_nil].
Qed.

Lemma acceptFIN_calm c now sq (heard : Prop) :
  heard → calm c (fst (acceptFIN c now sq)) ∧ emits_all c heard (snd (acceptFIN c now sq)).
Proof.
  intros Hh. unfold acceptFIN. cbv zeta.
  assert (from (Unacked (tx (fst (acceptFIN c now sq)))) (Unacked (tx c))) as Hf.
  { unfold acceptFIN. cbv zeta. cbn [fst].
    destruct (is_state _ StateFinWait), (is_state _ StateTimeWait); try apply from_refl;
      intros x Hx; set_solver. }
  split.
  - unfold acceptFIN in Hf. cbv zeta in Hf. cbn [fst] in *.
    destruct (is_state _ StateFinWait), (is_state _ StateTimeWait); apply from_calm; auto.
  - cbn [snd]. case_zif; [apply emits_all_nil|]. intros n p [?|Hp]%elem_of_cons; [done|].
    apply list_elem_of_singleton in Hp as [= -> ->]. split; [|intros _; by right].
    intros (_ & _ & _ & Hne & _). done.
Qed.

Lemma acceptFIN_state c now sq : State (fst (acceptFIN c now sq)) = StateTimeWait.
Proof.
  unfold acceptFIN. cbv zeta. cbn [fst].
  by destruct (is_state _ StateFinWait), (is_state _ StateTimeWait).
Qed.

Lemma acceptFIN_not_open c now sq : State (fst (acceptFIN c now sq)) ≠ StateEstablished.
Proof. by rewrite acceptFIN_state. Qed.

(** Changes of the receiver, the ACK state and the bookkeeping fields only. *)
Lemma same_sender_calm c c' :
  State c' = State c ∨ State c' = StateTimeWait ∨ State c' = StateClosed →
  NagleBuf c' = NagleBuf c → SendSeq c' = SendSeq c → NoDelay c' = NoDelay c →
  RetxStop c' = RetxStop c → heldFIN c' = heldFIN c → tx c' = tx c → calm c c'.
Proof. intros ? ? ? ? ? ? Ht. apply from_calm; auto. rewrite Ht. apply from_refl. Qed.

Lemma acknowledge_calm c heard :
  calm c (fst (acknowledge c)) ∧ emits_all c heard (snd (acknowledge c)) ∧
  rx (fst (acknowledge c)) = rx c ∧ State (fst (acknowledge c)) = State c.
Proof.
  unfold acknowledge. destruct (OOOBuf (rx c)); [|apply sendDelayedACK_calm]. cbv zeta.
  assert (∀ c1, calm c c1 → rx c1 = rx c → State c1 = State c →
    let r := sendDelayedACK c1 in
    calm c (fst r) ∧ emits_all c heard (snd r) ∧ rx (fst r) = rx c ∧ State (fst r) = State c) as Hs.
  { intros c1 Hc Hx Ht. cbv zeta. destruct (sendDelayedACK_calm c1 heard) as (? & ? & Hx' & Ht').
    rewrite Hx', Ht'. split_and!; [by eapply calm_trans|by eapply emits_all_calm|done..]. }
  repeat case_zif; [apply Hs..|]; try done; try (by apply same_sender_calm; auto).
  split_and!; [|apply emits_all_nil|done..]. by apply same_sender_calm; auto.
Qed.

Lemma receiveData_calm c now pkt reads :
  calm c (fst (receiveData c now pkt reads)) ∧
  emits_all c (finPending (snd (DeliverInOrder (rx c) (Seq pkt) (Payload pkt) reads)) = true ∧
               State (fst (receiveData c now pkt reads)) ≠ StateEstablished)
    (snd (receiveData c now pkt reads)).
Proof.
  unfold receiveData. destruct (is_state c StateEstablished); cbn [negb];
    [|split; [apply calm_refl|apply emits_all_nil]]. cbv zeta.
  cbn [rx set_Stats set_LastActivity].
  destruct (DeliverInOrder _ _ _ _) as [cum r]. cbn [snd].
  destruct (finPending r && negb (seqAfter (finSeq r) cum)) eqn:Er.
  - set (c1 := set_rx _ _). assert (calm c c1) as H1 by (by apply same_sender_calm; auto).
    apply andb_true_iff in Er as [Hp _].
    destruct (acceptFIN_calm c1 now (finSeq r) _
      (conj Hp (acceptFIN_not_open c1 now (finSeq r)))) as (? & ?).
    split; [by eapply calm_trans|by eapply emits_all_calm].
  - set (c1 := if finPending r then _ else _).
    assert (calm c c1) as H1 by (unfold c1; case_match; by apply same_sender_calm; auto).
    edestruct (acknowledge_calm c1) as (? & Hem & _).
    split; [by eapply calm_trans|eapply emits_all_calm; [done|exact Hem]].
Qed.

Lemma send_opt_resends c heard p :
  (∀ pkt, p = Some pkt → emits c heard pkt) → emits_all c heard (send_opt c p).
Proof.
  intros H. destruct p as [pkt|]; [|apply emits_all_nil]. apply one_output. by apply H.
Qed.

Lemma updatePeerWin_calm c w :
  calm c (snd (updatePeerWin c w)) ∧ rx (snd (updatePeerWin c w)) = rx c ∧
  State (snd (updatePeerWin c w)) = State c.
Proof.
  unfold updatePeerWin. cbv zeta. cbn [snd]. split; [|done].
  apply from_calm; auto. cbn [tx set_tx]. case_zif; apply from_refl.
Qed.

(** The delivery step leaves the hold on a FIN alone. *)
Lemma Deliver_fin r sq d reads :
  let r' := snd (DeliverInOrder r sq d reads) in
  finPending r' = finPending r ∧ finSeq r' = finSeq r ∧ RecvClosed r' = RecvClosed r.
Proof.
  unfold DeliverInOrder. destruct (RecvClosed r) eqn:E; [done|].
  set (same := λ r1 r2 : Receiver, finPending r2 = finPending r1 ∧ finSeq r2 = finSeq r1 ∧
    RecvClosed r2 = RecvClosed r1).
  assert (∀ n r, same r (Nat.iter n recv1 r)) as Hr.
  { induction n as [|n IH]; intros x; [done|]. simpl. destruct (IH x) as (? & ? & ?).
    unfold recv1. destruct (RecvBuf _); unfold same; simpl; done. }
  assert (∀ segs r reads, same r (snd (phase2 r segs reads))) as H2.
  { induction segs as [|sg segs IH]; intros x rs; [done|]. cbn [phase2]. cbv zeta.
    specialize (Hr (hd 0%nat rs) x). destruct Hr as (A & B & C). case_zif; [|done].
    specialize (IH (set_RecvBuf (Nat.iter (hd 0%nat rs) recv1 x)
      (RecvBuf (Nat.iter (hd 0%nat rs) recv1 x) ++ [segData sg])) (tl rs)).
    destruct (phase2 _ _ _) as [n y]. cbn [snd] in *. destruct IH as (A' & B' & C').
    unfold same. rewrite A', B', C'. done. }
  assert (∀ segs r i n, same r (phase3 r i n segs)) as H3.
  { induction segs as [|sg segs IH]; intros x i n; [done|]. cbn [phase3]. cbv zeta.
    set (y := if Nat.ltb i n then _ else _).
    destruct (IH y (S i) n) as (A & B & C). unfold same. rewrite A, B, C.
    unfold y. repeat case_match; done. }
  destruct (phase1 r sq d) as [l r1] eqn:E1.
  assert (same r r1) as (A & B & C).
  { revert E1. unfold phase1. repeat case_match; intros [= <- <-]; done. }
  specialize (H2 l r1 reads). destruct (phase2 r1 l reads) as [n r2]. cbn [snd] in H2 |- *.
  destruct H2 as (A2 & B2 & C2). destruct (H3 l r2 0%nat n) as (A3 & B3 & C3). simpl.
  by rewrite A3, B3, C3, A2, B2, C2, A, B, C.
Qed.

Lemma ackPhase_calm c now pkt heard :
  held_ok c → let r := ackPhase c now pkt in
  calm c (fst r) ∧ emits_all c heard (snd r) ∧ rx (fst r) = rx c ∧ State (fst r) = State c.
Proof.
  intros Hh. unfold ackPhase. cbv zeta. set (c1 := set_KeepaliveUnacked _ 0).
  assert (calm c c1) as H1 by (by apply same_sender_calm; auto).
  destruct (updatePeerWin_calm c1 (Window pkt)) as (H2 & X2 & S2).
  change (rx c1) with (rx c) in X2. change (State c1) with (State c) in S2.
  destruct (updatePeerWin c1 (Window pkt)) as [prev c2]. cbn [snd] in *.
  destruct (ProcessAck c2 _ _ _) as [c3 retx] eqn:E. apply ProcessAck_tx in E as [H3 Hr].
  assert (rx c3 = rx c2 ∧ State c3 = State c2) as [X3 S3] by (by destruct H3 as (? & ? & -> & _)).
  apply tx_only_calm in H3. pose proof (calm_trans _ _ _ (calm_trans _ _ _ H1 H2) H3) as H13.
  destruct (releaseHeldFINIfAcked_calm c3 now heard) as (H4 & E4 & X4 & S4);
    [by eapply held_ok_calm|]. cbv zeta in *.
  destruct (releaseHeldFINIfAcked c3 now) as [c4 out]. cbn [fst snd] in *.
  split_and!; [by eapply calm_trans| |congruence..].
  apply emits_all_app; [|by eapply emits_all_calm].
  destruct retx as [p|]; [|apply emits_all_nil]. apply one_output.
  eapply emits_calm; [exact H13|]. apply emits_resend. by apply Hr.
Qed.

Lemma handleACK_calm c now pkt reads :
  held_ok c → calm c (fst (handleACK c now pkt reads)) ∧
  emits_all c (finPending (rx c) = true ∧ State (fst (handleACK c now pkt reads)) ≠ StateEstablished)
    (snd (handleACK c now pkt reads)).
Proof.
  intros Hh. unfold handleACK.
  destruct (ackPhase_calm c now pkt False Hh) as (H1 & E1 & X1 & S1).
  cbv zeta in *. destruct (ackPhase c now pkt) as [c1 out]. cbn [fst snd] in *.
  destruct (DecodeSACK _) as [blocks|]; [|case_zif].
  - cbn [fst snd]. rewrite app_nil_r. split; [|by eapply emits_all_weaken; [|exact E1]].
    eapply calm_trans; [exact H1|]. apply tx_only_calm, ProcessSACK_tx.
  - destruct (receiveData_calm c1 now pkt reads) as [H2 E2].
    destruct (Deliver_fin (rx c1) (Seq pkt) (Payload pkt) reads) as (Hf & _). rewrite Hf, X1 in E2.
    destruct (receiveData c1 now pkt reads) as [c2 out']. cbn [fst snd] in *.
    split; [by eapply calm_trans|].
    apply emits_all_app; [by eapply emits_all_weaken; [|exact E1]|]. by eapply emits_all_calm.
  - cbn [fst snd]. rewrite app_nil_r. split; [done|]. by eapply emits_all_weaken; [|exact E1].
Qed.

Lemma handleFIN_calm c now pkt :
  calm c (fst (handleFIN c now pkt)) ∧
  emits_all c (State (fst (handleFIN c now pkt)) ≠ StateEstablished) (snd (handleFIN c now pkt)).
Proof.
  unfold handleFIN. cbv zeta. destruct (is_state c StateEstablished && _ && _);
    [|apply acceptFIN_calm, acceptFIN_not_open].
  set (c1 := set_rx c _). assert (calm c c1) as Hcc by (by apply same_sender_calm; auto).
  edestruct (sendDelayedACK_calm c1) as (? & Hem & _).
  split; [by eapply calm_trans|eapply emits_all_calm; [done|exact Hem]].
Qed.

(** A packet makes an endpoint send nothing but acknowledgements, entries
    that wait for one, and FINs of its own or in answer to the peer's. *)
Lemma handlePacket_calm c now pkt reads :
  held_ok c → State c ≠ StateSynSent →
  calm c (fst (handlePacket c now pkt reads)) ∧
  emits_all c ((is_fin pkt ∨ finPending (rx c) = true) ∧
               State (fst (handlePacket c now pkt reads)) ≠ StateEstablished)
    (snd (handlePacket c now pkt reads)).
Proof.
  intros Hh Hs. unfold handlePacket. destruct (HasFlag pkt FlagSYN && HasFlag pkt FlagACK).
  - unfold handleSYNACK, is_state. rewrite bool_decide_eq_false_2 by done.
    split; [apply calm_refl|apply emits_all_nil].
  - destruct (HasFlag pkt FlagFIN) eqn:Ef.
    { destruct (handleFIN_calm c now pkt). split; [done|].
      eapply emits_all_weaken; [|done]. unfold is_fin. tauto. }
    destruct (HasFlag pkt FlagRST); [|destruct (HasFlag pkt FlagACK)].
    + cbn [handleRST fst snd]. split; [by apply same_sender_calm; auto|].
      intros n p ?%list_elem_of_singleton. done.
    + destruct (handleACK_calm c now pkt reads Hh). split; [done|].
      eapply emits_all_weaken; [|done]. tauto.
    + split; [apply calm_refl|apply emits_all_nil].
Qed.

Lemma retxTick_calm c now rnd heard :
  let '(_, c', out) := retxTick c now rnd in
  calm c c' ∧ emits_all c heard out ∧
  (rx c' = rx c ∨ State c' = StateClosed ∧ rx c' = CloseRecvBuf (rx c)).
Proof.
  unfold retxTick.
  assert (let '(c', p) := retransmitUnacked c now rnd in
    calm c c' ∧ emits_all c heard (send_opt c' p) ∧ rx c' = rx c) as Hr.
  { destruct (retransmitUnacked c now rnd) as [c' p] eqn:E.
    apply retransmitUnacked_tx in E as ((st & Hst & Ht) & Hp).
    assert (rx c' = rx c) as Hx by (by destruct Ht as (? & ? & -> & _)).
    assert (calm c c') as Hc.
    { eapply calm_trans; [|by apply tx_only_calm]. apply same_sender_calm; auto.
      simpl. destruct Hst as [->| ->]; auto. }
    split_and!; [done| |done]. destruct p as [q|]; [|apply emits_all_nil].
    apply one_output. eapply emits_calm; [exact Hc|].
    destruct (Hp q eq_refl) as [->|?]; [by apply emits_rst|by apply emits_resend]. }
  destruct (State c) eqn:Es; try (split_and!; [apply calm_refl|apply emits_all_nil|by left]).
  - split_and!; [by apply same_sender_calm; auto|apply emits_all_nil|by right].
  - destruct (retransmitUnacked _ _ _) as [c' p]. naive_solver.
  - case_zif; [split_and!; [apply calm_refl|apply emits_all_nil|by left]|].
    destruct (retransmitUnacked _ _ _) as [c' p]. naive_solver.
Qed.

Lemma expireHeldFIN_calm c now idle :
  calm c (fst (expireHeldFIN c now idle)) ∧
  emits_all c (finPending (rx c) = true ∧ State (fst (expireHeldFIN c now idle)) ≠ StateEstablished)
    (snd (expireHeldFIN c now idle)).
Proof.
  unfold expireHeldFIN. cbv zeta. destruct (finPending (rx c)) eqn:Ef; cbn [negb].
  2:{ split; [apply calm_refl|apply emits_all_nil]. }
  destruct (is_state c StateEstablished); cbn [negb];
    [|split; [by apply same_sender_calm; auto|apply emits_all_nil]].
  destruct (0 <? _).
  - split; [apply calm_refl|apply emits_all_nil].
  - set (c1 := set_rx c _). assert (calm c c1) as Hcc by (by apply same_sender_calm; auto).
    destruct (acceptFIN_calm c1 now (finSeq (rx c)) _
      (conj (eq_refl true) (acceptFIN_not_open c1 now (finSeq (rx c))))) as (? & ?).
    split; [by eapply calm_trans|by eapply emits_all_calm].
Qed.

Lemma ackTimer_calm c heard :
  calm c (fst (ackTimer c)) ∧ emits_all c heard (snd (ackTimer c)) ∧
  rx (fst (ackTimer c)) = rx c ∧ State (fst (ackTimer c)) = State c.
Proof.
  unfold ackTimer. set (c1 := set_acks c _).
  assert (calm c c1) as Hcc by (by apply same_sender_calm; auto).
  destruct (sendDelayedACK_calm c1 heard) as (? & ? & ? & ?).
  split_and!; [by eapply calm_trans|by eapply emits_all_calm|done..].
Qed.
End Endpoint.
