(* ===== verification/EndpointProofs.v ===== *)
(** * The sending half of an endpoint keeps the stream in order

    [ep_inv] and its preservation by every operation of an endpoint (model in
    Endpoint). *)
From S2P Require Import Prelude SeqNum Sack Protocol Conn Sender SenderProofs.
From S2P Require Import Reassembly ReassemblyProofs Stream Writer Endpoint.
Open Scope Z_scope.

(** The segment in the writer's hand, and the bytes it has yet to buffer. *)
Definition hand (w : writer) : bytes := match w with WSend seg _ _ => seg | _ => [] end.
Definition rest (w : writer) : bytes :=
  match w with
  | WPiece r _ | WFlush r _ | WNow r => r
  | WSend _ (KFlush _ r _) _ | WSend _ (KNow r) _ => r
  | _ => []
  end.

(** What the program counter itself promises: no write bypasses Nagle, and a
    segment in hand is not empty and not too long. *)
Definition writer_ok (w : writer) : Prop :=
  match w with
  | WNow _ | WSend _ (KNow _) _ => False
  | WSend seg _ _ => seg ≠ [] ∧ blen seg <= SendSegmentSize
  | _ => True
  end.

(** Between flushes the buffer holds less than a segment. *)
Definition flushed (w : writer) (open : Prop) : Prop :=
  match w with WPiece _ _ => True | WIdle | WDone _ => open | _ => False end.

Section Proofs.
Context {P : Protocol} (isn : Z).
Implicit Types (e : Endpoint) (c : Connection) (sent : bytes).

(** [d] is the part of the stream that starts at sequence number [sq]. *)
Definition piece sent (sq : Z) (d : bytes) : Prop :=
  ∃ p, pok sent p ∧ (0 < p.2)%nat ∧ sq = u32 (isn + Z.of_nat p.1) ∧ d = slice p.1 (p.1 + p.2) sent.

Lemma slice_prefix {A} (l k : list A) a b : (b ≤ length l)%nat → slice a b (l ++ k) = slice a b l.
Proof.
  intros Hb. unfold slice. destruct (decide (a ≤ length l)%nat).
  - rewrite drop_app_le by done. rewrite take_app_le; [done|]. rewrite length_drop. lia.
  - replace (b - a)%nat with 0%nat by lia. done.
Qed.

Lemma piece_app sent k sq d : piece sent sq d → piece (sent ++ k) sq d.
Proof.
  intros (p & [Hl Hm] & Hp & -> & ->). exists p. split_and!; try done.
  - split; [|done]. rewrite length_app. lia.
  - by rewrite slice_prefix.
Qed.

Lemma piece_last sent d :
  d ≠ [] → blen d <= 65535 → piece (sent ++ d) (u32 (isn + blen sent)) d.
Proof.
  intros Hd Hl. exists (length sent, length d). simpl. unfold blen in *. split_and!; try done.
  - split; simpl; [rewrite length_app; lia|done].
  - destruct d; [done|simpl; lia].
  - unfold slice. rewrite drop_app_length, take_ge; [done|lia].
Qed.

Definition pieces c sent : Prop :=
  ∀ x, x ∈ Unacked (tx c) → isFIN x = false → piece sent (seq x) (data x).

Lemma pieces_app c sent k : pieces c sent → pieces c (sent ++ k).
Proof. intros H x ? ?. apply piece_app. by apply H. Qed.

Lemma pieces_calm c c' sent : calm c c' → pieces c sent → pieces c' sent.
Proof.
  intros Hc H x Hx Hf. destruct (cm_data _ _ Hc x Hx Hf) as (y & Hy & E).
  injection E as -> -> E. apply H; congruence.
Qed.

(** ** Transmission *)

Lemma transmit_frame c now d ok :
  let '(c', pkt, b) := transmitSegment c now d ok in
  State c' = State c ∧ NagleBuf c' = NagleBuf c ∧ NoDelay c' = NoDelay c ∧ RetxStop c' = RetxStop c ∧
  heldFIN c' = heldFIN c ∧ rx c' = rx c ∧ tailFlusher c' = tailFlusher c ∧
  SendSeq c' = u32 (SendSeq c + u32 (blen d)) ∧
  (∃ now, Unacked (tx c') = Unacked (tx c) ++ [mkRetx d (SendSeq c) now now 1 false false]) ∧
  pkFlags pkt = FlagACK ∧ Seq pkt = SendSeq c ∧ Payload pkt = d.
Proof. unfold transmitSegment. case_zif; split_and!; try done; by exists now. Qed.

Lemma transmit_pieces c now d ok sent :
  pieces c sent → SendSeq c = u32 (isn + blen sent) → d ≠ [] → blen d <= 65535 →
  let '(c', pkt, _) := transmitSegment c now d ok in
  pieces c' (sent ++ d) ∧ SendSeq c' = u32 (isn + blen (sent ++ d)) ∧
  piece (sent ++ d) (Seq pkt) (Payload pkt) ∧ ¬ is_fin pkt ∧ (∀ sq, own_fin c' sq → own_fin c sq).
Proof.
  intros Hp Hs Hd Hl. pose proof (transmit_frame c now d ok) as H.
  destruct (transmitSegment c now d ok) as [[c' pkt] b].
  destruct H as (_ & _ & _ & _ & Hh & _ & _ & Hs' & [t HU] & Hf & Hq & Hpl).
  split_and!.
  - intros x Hx Hn. rewrite HU in Hx. apply elem_of_app in Hx as [Hx|Hx].
    + apply piece_app. by apply Hp.
    + apply list_elem_of_singleton in Hx as ->. simpl. rewrite Hs. by apply piece_last.
  - rewrite Hs', Hs, u32_add_l, u32_add_r, blen_app. f_equal. lia.
  - rewrite Hq, Hpl, Hs. by apply piece_last.
  - eapply not_fin; [done|]. by pose proof flags_disjoint as (? & ? & ? & ? & ? & ?).
  - intros sq [(f & ? & ?)|(x & Hx & Hi & Hq')]; [left; exists f; split; congruence|].
    rewrite HU in Hx. apply elem_of_app in Hx as [Hx|Hx]; [right; by exists x|].
    apply list_elem_of_singleton in Hx as ->. done.
Qed.

(** ** The invariant *)

Definition open_state (st : ConnState) : Prop :=
  st = StateEstablished ∨ st = StateFinWait ∨ st = StateTimeWait ∨ st = StateClosed.

Record ep_inv e sent : Prop := {
  ei_state : open_state (State (conn e));
  ei_nodelay : NoDelay (conn e) = false;
  ei_stop : RetxStop (conn e) = false;
  ei_writer : writer_ok (wr e);
  ei_sent : if writing (wr e)
            then sent ++ hand (wr e) ++ NagleBuf (conn e) ++ rest (wr e) = written e
            else sent `prefix_of` written e ∧
                 (State (conn e) = StateEstablished → sent ++ NagleBuf (conn e) = written e);
  ei_last : match wr e with WSend _ (KFlush true _ _) _ => NagleBuf (conn e) = [] | _ => True end;
  ei_buf : flushed (wr e) (State (conn e) = StateEstablished) →
           blen (NagleBuf (conn e)) < SendSegmentSize;
  ei_seq : writing (wr e) = true ∨ State (conn e) = StateEstablished →
           SendSeq (conn e) = u32 (isn + blen sent);
  ei_data : pieces (conn e) sent;
  ei_fin : ∀ sq, own_fin (conn e) sq →
           sq = u32 (isn + blen (written e)) ∧ State (conn e) ≠ StateEstablished ∧
           writing (wr e) = false;
  ei_held : held_ok (conn e);
}.

(** [pkt] is in order: its data is a part of what was sent, and a FIN ends
    what was written, unless it answers the peer's ([heard]). *)
Definition pkt_ok e sent (heard : Prop) (pkt : Packet) : Prop :=
  (carries pkt → piece sent (Seq pkt) (Payload pkt)) ∧
  (is_fin pkt → State (conn e) ≠ StateEstablished ∧
                (Seq pkt = u32 (isn + blen (written e)) ∨ heard)).

Definition progress e sent e' (heard : Prop) (out : list Output) : Prop :=
  ∃ k, ep_inv e' (sent ++ k) ∧ written e `prefix_of` written e' ∧
       ∀ node pkt, OSend node pkt ∈ out → pkt_ok e' (sent ++ k) heard pkt.

(** A calm operation of the connection preserves the invariant. *)
Lemma calm_progress e sent c' (heard : Prop) out :
  ep_inv e sent → calm (conn e) c' →
  emits_all (conn e) (heard ∧ State c' ≠ StateEstablished) out →
  progress e sent (mkEndpoint c' (wr e) (written e)) heard out.
Proof.
  intros Hi Hc Ho. destruct Hi as [I1 I2 I3 I4 I5 Il I6 I7 I8 I9 I10].
  assert (State c' = StateEstablished → State (conn e) = StateEstablished) as Hst.
  { intros Hs. destruct (cm_state _ _ Hc) as [?|[?|?]]; congruence. }
  exists []. rewrite app_nil_r. split_and!; [|done|].
  - split; simpl.
    + unfold open_state in *. destruct (cm_state _ _ Hc) as [->|[->| ->]]; auto.
    + by rewrite (cm_nodelay _ _ Hc).
    + by rewrite (cm_stop _ _ Hc).
    + done.
    + rewrite (cm_nagle _ _ Hc). destruct (writing (wr e)); [done|]. naive_solver.
    + by rewrite (cm_nagle _ _ Hc).
    + rewrite (cm_nagle _ _ Hc). intros Hf. apply I6. destruct (wr e); simpl in *; auto.
    + rewrite (cm_seq _ _ Hc). intros [?|?]; apply I7; auto.
    + by eapply pieces_calm.
    + intros sq Hq. destruct (I9 sq) as (? & ? & ?); [by apply (cm_fin _ _ Hc)|].
      split_and!; auto.
    + by eapply held_ok_calm.
  - intros node pkt Hin. destruct (Ho node pkt Hin) as [Hd Hf]. split.
    + intros Hp. destruct (Hd Hp) as (x & Hx & Hn & <- & <-). by apply I8.
    + intros Hp. simpl. destruct (Hf Hp) as [Ho'|[? ?]]; [|auto].
      destruct (I9 _ Ho') as (? & ? & _). auto.
Qed.

(** ** The writer *)

(** What holds of a connection whose writer may still send. *)
Record live c sent : Prop := {
  lv_state : open_state (State c);
  lv_nodelay : NoDelay c = false;
  lv_stop : RetxStop c = false;
  lv_seq : SendSeq c = u32 (isn + blen sent);
  lv_data : pieces c sent;
  lv_fin : ∀ sq, ¬ own_fin c sq;
  lv_held : held_ok c;
}.

Lemma ep_inv_live e sent :
  ep_inv e sent → writing (wr e) = true ∨ State (conn e) = StateEstablished → live (conn e) sent.
Proof.
  intros Hi Hw. split; try apply Hi; [done|]. intros sq Hq.
  destruct (ei_fin _ _ Hi sq Hq) as (_ & ? & ?). destruct Hw; congruence.
Qed.

(** A writer that goes on. *)
Lemma live_writing c w W sent :
  live c sent → writer_ok w → writing w = true →
  sent ++ hand w ++ NagleBuf c ++ rest w = W →
  match w with WSend _ (KFlush true _ _) _ => NagleBuf c = [] | _ => True end →
  (flushed w False → blen (NagleBuf c) < SendSegmentSize) →
  ep_inv (mkEndpoint c w W) sent.
Proof.
  intros Hl Hok Hw Hs Hlast Hb. destruct Hl. split; simpl; try done.
  - by rewrite Hw.
  - intros Hf. apply Hb. by destruct w.
  - intros sq Hq. by destruct (lv_fin0 sq).
Qed.

(** A writer that returns. *)
Lemma live_done c err W sent :
  live c sent → sent `prefix_of` W →
  (State c = StateEstablished → sent ++ NagleBuf c = W ∧ blen (NagleBuf c) < SendSegmentSize) →
  ep_inv (mkEndpoint c (WDone err) W) sent.
Proof.
  intros Hl Hp He. destruct Hl. split; simpl; try done.
  - split; [done|]. intros. by apply He.
  - intros Hs. by apply He.
  - intros sq Hq. by destruct (lv_fin0 sq).
Qed.

Lemma live_nagle c b sent : live c sent → live (set_NagleBuf c b) sent.
Proof. intros []. by split. Qed.
Lemma live_flusher c b sent : live c sent → live (set_tailFlusher c b) sent.
Proof. intros []. by split. Qed.

Lemma live_transmit c now d ok sent :
  live c sent → d ≠ [] → blen d <= 65535 →
  let '(c', pkt, _) := transmitSegment c now d ok in
  live c' (sent ++ d) ∧ piece (sent ++ d) (Seq pkt) (Payload pkt) ∧ ¬ is_fin pkt ∧
  State c' = State c ∧ NagleBuf c' = NagleBuf c ∧ rx c' = rx c.
Proof.
  intros Hl Hd Hb. pose proof (transmit_frame c now d ok) as Hf.
  pose proof (transmit_pieces c now d ok sent (lv_data _ _ Hl) (lv_seq _ _ Hl) Hd Hb) as Hp.
  destruct (transmitSegment c now d ok) as [[c' pkt] b].
  destruct Hf as (F1 & F2 & F3 & F4 & F5 & F6 & _). destruct Hp as (P1 & P2 & P3 & P4 & P5).
  split_and!; try done. destruct Hl. split; try done; try congruence.
  - intros sq Hq. by eapply lv_fin0, P5.
  - intros f. rewrite F5. apply lv_held0.
Qed.

Lemma afterFlush_inv c r tailNow W sent :
  live c sent → sent ++ NagleBuf c ++ r = W → blen (NagleBuf c) < SendSegmentSize →
  ep_inv (mkEndpoint c (afterFlush c r tailNow) W) sent.
Proof.
  intros Hl Hs Hb. unfold afterFlush. destruct r as [|x r].
  - rewrite app_nil_r in Hs. apply live_done; [done|by exists (NagleBuf c)|done].
  - unfold is_state. case_bool_decide as He.
    + apply live_writing; simpl; try done.
    + apply live_done; [done|by exists (NagleBuf c ++ x :: r)|done].
Qed.

Lemma progress_intro e sent k e' heard out :
  ep_inv e' (sent ++ k) → written e `prefix_of` written e' →
  (∀ node pkt, OSend node pkt ∈ out → pkt_ok e' (sent ++ k) heard pkt) →
  progress e sent e' heard out.
Proof. intros. by exists k. Qed.

Lemma silent e sent e' heard :
  ep_inv e' sent → written e `prefix_of` written e' → progress e sent e' heard [].
Proof.
  intros H ?. apply (progress_intro _ _ []); rewrite ?app_nil_r; [done..|]. set_solver.
Qed.

(** A flush of the writer, one round. *)
Lemma flush_round c r tailNow W sent :
  live c sent → sent ++ NagleBuf c ++ r = W →
  let '(w, c', out) := writeStep (WFlush r tailNow) c 0 WakeWindow true in
  ep_inv (mkEndpoint c' w W) sent ∧ out = [].
Proof.
  intros Hl Hs. cbn [writeStep]. unfold flushStep.
  destruct (NagleBuf c) as [|x b] eqn:Eb.
  { split; [|done]. apply afterFlush_inv; [done|by rewrite Eb|by rewrite Eb]. }
  rewrite <- Eb in *. case_zif.
  - split; [|done]. apply live_writing; simpl; try done.
    + by apply live_nagle.
    + split; [rewrite Eb; done|]. unfold blen. rewrite length_take. unfold SendSegmentSize. lia.
    + rewrite !app_assoc, <- (app_assoc sent), take_drop, <- app_assoc. done.
  - case_zif.
    + split; [|done]. apply afterFlush_inv; [by apply live_flusher|done|]. simpl. lia.
    + split; [|done]. apply live_writing; simpl; try done.
      * by apply live_nagle.
      * split; [congruence|lia].
Qed.

(** Packets without data. *)
Lemma pkt_ok_empty e sent heard pkt :
  Payload pkt = [] → ¬ is_fin pkt → pkt_ok e sent heard pkt.
Proof. intros Hp Hf. split; [|done]. by intros (_ & _ & _ & ? & _). Qed.

Lemma pkt_ok_data e sent heard pkt :
  piece sent (Seq pkt) (Payload pkt) → ¬ is_fin pkt → pkt_ok e sent heard pkt.
Proof. intros Hp Hf. by split. Qed.

Lemma ack_not_fin pkt : pkFlags pkt = FlagACK → ¬ is_fin pkt.
Proof. intros H. eapply not_fin; [done|]. by pose proof flags_disjoint as (? & ? & ? & ? & ? & ?). Qed.
Lemma rst_not_fin pkt : pkFlags pkt = FlagRST → ¬ is_fin pkt.
Proof.
  intros H. eapply not_fin; [done|]. rewrite Z.land_comm.
  by pose proof flags_disjoint as (? & ? & ? & ? & ? & ?).
Qed.

Lemma one_packet e sent heard node pkt :
  pkt_ok e sent heard pkt →
  ∀ n p, OSend n p ∈ [OSend node pkt] → pkt_ok e sent heard p.
Proof. by intros H n p [= -> ->]%list_elem_of_singleton. Qed.

Lemma sendNow_progress e c now seg k ok sent heard :
  live c sent → writer_ok (WSend seg k 0) →
  match k with KFlush last r _ => sent ++ seg ++ NagleBuf c ++ r = written e ∧
                                  (last = true → NagleBuf c = []) | KNow _ => False end →
  let '(w, c', out) := sendNow c now seg k ok in
  progress e sent (mkEndpoint c' w (written e)) heard out.
Proof.
  intros Hl Hw Hk. destruct k as [last r tn|]; [|done]. destruct Hw as [Hne Hlen].
  destruct Hk as [Hs Hlast]. unfold sendNow.
  pose proof (live_transmit c now seg ok sent Hl Hne) as H.
  unfold SendSegmentSize in Hlen. specialize (H ltac:(lia)).
  destruct (transmitSegment c now seg ok) as [[c' pkt] b].
  destruct H as (Hl' & Hp & Hf & Ht & Hn & _).
  assert ((sent ++ seg) ++ NagleBuf c' ++ r = written e) as Hs' by (by rewrite Hn, <- app_assoc).
  assert (∀ e', ∀ n p, OSend n p ∈ [OSend (Node (RemoteAddr c')) pkt] →
    pkt_ok e' (sent ++ seg) heard p) as Hout by (intros e'; by apply one_packet, pkt_ok_data).
  assert (progress e sent (mkEndpoint c' (WFlush r tn) (written e)) heard
    [OSend (Node (RemoteAddr c')) pkt]) as Hflush.
  { apply (progress_intro _ _ seg); [|done|apply Hout]. by apply live_writing. }
  destruct b; [destruct last; [|done]|unfold is_state; case_bool_decide; [done|]].
  - apply (progress_intro _ _ seg); [|done|apply Hout]. apply afterFlush_inv; [done..|].
    rewrite Hn, Hlast by done. done.
  - apply (progress_intro _ _ seg); [|done|apply Hout]. apply live_done; [done| |done].
    eexists. rewrite <- Hs'. reflexivity.
Qed.

Lemma sendWait_progress e c seg k probes ev sent heard :
  live c sent → writer_ok (WSend seg k probes) →
  sent ++ seg ++ NagleBuf c ++ rest (WSend seg k probes) = written e →
  match k with KFlush true _ _ => NagleBuf c = [] | _ => True end →
  let '(w, c', out) := sendWait c seg k probes ev in
  progress e sent (mkEndpoint c' w (written e)) heard out.
Proof.
  intros Hl Hw Hs Hlast.
  assert (∀ c' n, live c' sent → NagleBuf c' = NagleBuf c →
    ep_inv (mkEndpoint c' (WSend seg k n) (written e)) sent) as Hgo.
  { intros c' n Hl' Hn. apply live_writing; try done; simpl; rewrite ?Hn; try done. }
  unfold sendWait. destruct ev.
  - assert (live (set_tx c (set_WindowCh (tx c) (Some false))) sent) by (destruct Hl; by split).
    destruct (WindowCh (tx c)) as [[]|]; apply silent; auto.
  - rewrite (lv_stop _ _ Hl). apply silent; auto.
  - assert (∀ e' h (p : Packet), Payload p = [] → pkFlags p = FlagACK ∨ pkFlags p = FlagRST →
      pkt_ok e' sent h p) as Hp.
    { intros e' h p ? [?|?]; apply pkt_ok_empty; auto using ack_not_fin, rst_not_fin. }
    cbv zeta. case_zif; apply (progress_intro _ _ []); rewrite ?app_nil_r; try done.
    + apply live_done; [|by eexists|done]. destruct Hl. split; try done. by right; right; right.
    + intros n p [Hin|Hin]%elem_of_app; apply list_elem_of_singleton in Hin as [= -> ->];
        apply Hp; simpl; auto.
    + by apply Hgo.
    + apply one_packet, Hp; simpl; auto.
Qed.

Lemma writer_progress e sent now ev ok heard :
  ep_inv e sent →
  let '(w, c', out) := writeStep (wr e) (conn e) now ev ok in
  progress e sent (mkEndpoint c' w (written e)) heard out.
Proof.
  intros Hi. pose proof (ei_sent _ _ Hi) as Hs. pose proof (ei_writer _ _ Hi) as Hw.
  destruct (wr e) as [|r t|r t|r|seg k n|err] eqn:Ew; cbn [writing hand rest app] in *.
  - cbn [writeStep]. rewrite <- Ew. apply silent; [by destruct e|done].
  - pose proof (ep_inv_live e sent Hi ltac:(rewrite Ew; by left)) as Hl.
    pose proof (ei_buf _ _ Hi) as Hb. rewrite Ew in Hb. specialize (Hb I).
    cbn [writeStep]. unfold bufferPiece. cbv zeta.
    set (m := if nagleWritePiece <? blen r then _ else _).
    assert (blen (take m r) <= nagleWritePiece) as Hm.
    { unfold m. unfold blen at 1. rewrite length_take.
      case_zif; unfold nagleWritePiece, SendSegmentSize, blen in *; lia. }
    case_zif; [unfold MaxNagleBuf, nagleWritePiece, SendSegmentSize, MaxSegmentSize in *; lia|].
    apply silent; [|done]. apply live_writing; simpl; try done; [by apply live_nagle|].
    rewrite <- !app_assoc, take_drop. done.
  - pose proof (ep_inv_live e sent Hi ltac:(rewrite Ew; by left)) as Hl.
    pose proof (flush_round (conn e) r t (written e) sent Hl Hs) as H.
    change (writeStep (WFlush r t) (conn e) now ev ok) with
      (writeStep (WFlush r t) (conn e) 0 WakeWindow true).
    destruct (writeStep _ _ _ _ _) as [[w c'] out]. destruct H as [H ->]. by apply silent.
  - done.
  - pose proof (ep_inv_live e sent Hi ltac:(rewrite Ew; by left)) as Hl.
    pose proof (ei_last _ _ Hi) as Hlast. rewrite Ew in Hlast. cbn [writeStep]. case_zif.
    + apply sendNow_progress; [done|done|]. destruct k as [[]|]; done.
    + apply sendWait_progress; done.
  - cbn [writeStep]. rewrite <- Ew. apply silent; [by destruct e|done].
Qed.

Lemma write_progress e sent data heard :
  ep_inv e sent → ep_allowed e (EWrite data) →
  progress e sent (fst (ep_step e (EWrite data))) heard (snd (ep_step e (EWrite data))).
Proof.
  intros Hi Ha. simpl in Ha. pose proof (ei_sent _ _ Hi) as Hs. rewrite Ha in Hs.
  destruct Hs as [Hp He]. cbn [ep_step fst snd]. unfold startWrite, is_state.
  case_bool_decide as Hst; cbn [negb].
  - rewrite (ei_nodelay _ _ Hi). apply silent; [|by exists data].
    apply live_writing; simpl; try done; [by apply ep_inv_live; [|right]| |].
    + by rewrite app_assoc, He.
    + intros _. apply (ei_buf _ _ Hi). by destruct (wr e).
  - apply silent; [|done]. destruct Hi as [I1 I2 I3 I4 I5 Il I6 I7 I8 I9 I10].
    split; simpl; try done.
    + intros [?|?]; [done|]. apply I7. by right.
    + intros sq Hq. by destruct (I9 sq Hq) as (? & ? & ?).
Qed.

Lemma flusher_progress e sent now force ok heard :
  ep_inv e sent → ep_allowed e (EFlusher now force ok) →
  let '(_, c', out) := flushHeldTail (conn e) now force ok in
  progress e sent (mkEndpoint c' (wr e) (written e)) heard out.
Proof.
  intros Hi [Hm Hst].
  pose proof (ep_inv_live e sent Hi ltac:(by right)) as Hl.
  assert (sent ++ NagleBuf (conn e) ++ rest (wr e) = written e ∧ hand (wr e) = [] ∧
    blen (NagleBuf (conn e)) < SendSegmentSize) as (Hs & Hh & Hb).
  { pose proof (ei_sent _ _ Hi) as Hs. pose proof (ei_buf _ _ Hi) as Hb.
    destruct (wr e); simpl in *; try done; rewrite ?app_nil_r; split_and!; auto; by apply Hs. }
  assert (∀ c' sent', live c' sent' → State c' = State (conn e) →
    sent' ++ NagleBuf c' ++ rest (wr e) = written e → blen (NagleBuf c') < SendSegmentSize →
    ep_inv (mkEndpoint c' (wr e) (written e)) sent') as Hput.
  { intros c' sent' Hl' Hs' E Hb'. pose proof (ei_writer _ _ Hi) as Hw.
    destruct (wr e) as [|r t| | | |err] eqn:Ew; try done; simpl in *.
    - rewrite app_nil_r in E. destruct Hl'. split; simpl; try done.
      + split; [by eexists|done].
      + intros sq Hq. by destruct (lv_fin0 sq).
    - by apply live_writing.
    - rewrite app_nil_r in E. apply live_done; [done|by eexists|done]. }
  unfold flushHeldTail, flushStep.
  destruct (NagleBuf (conn e)) as [|x b] eqn:Eb.
  { apply silent; [|done]. apply Hput; simpl; rewrite ?Eb; auto. by apply live_flusher. }
  rewrite <- Eb in *. case_zif; [lia|]. case_zif.
  - apply silent; [|done]. by destruct e.
  - cbv zeta. set (c1 := set_tailFlusher _ false).
    assert (live c1 sent) as Hl1 by (by apply live_flusher, live_nagle).
    pose proof (live_transmit c1 now (NagleBuf (conn e)) ok sent Hl1) as H.
    unfold SendSegmentSize in Hb. specialize (H ltac:(congruence) ltac:(lia)).
    destruct (transmitSegment _ _ _ _) as [[c' pkt] z].
    destruct H as (Hl' & Hp & Hf & Ht & Hn & _).
    apply (progress_intro _ _ (NagleBuf (conn e))); [|done|by apply one_packet, pkt_ok_data].
    apply Hput; try done; rewrite Hn; [by rewrite <- app_assoc|done].
Qed.

(** ** Closing *)

Lemma sendTail_live fuel c now tail oks sent :
  live c sent → (length tail ≤ fuel)%nat →
  let '(c', out) := sendTail fuel c now tail oks in
  live c' (sent ++ tail) ∧ State c' = State c ∧ NagleBuf c' = NagleBuf c ∧ rx c' = rx c ∧
  ∀ n p, OSend n p ∈ out → piece (sent ++ tail) (Seq p) (Payload p) ∧ ¬ is_fin p.
Proof.
  revert c tail oks sent. induction fuel as [|fuel IH]; intros c tail oks sent Hl Hf.
  { destruct tail; [|simpl in Hf; lia]. simpl. rewrite app_nil_r. split_and!; try done. set_solver. }
  destruct tail as [|x tail]; [simpl; rewrite app_nil_r; split_and!; try done; set_solver|].
  cbn [sendTail]. cbv zeta. set (l := x :: tail) in *.
  set (n := if SendSegmentSize <? blen l then _ else _).
  assert (0 < n ∧ n ≤ length l ∧ n ≤ 1152)%nat as (Hn0 & Hn1 & Hn2).
  { unfold n, blen. case_zif; unfold SendSegmentSize in *; simpl in *; lia. }
  pose proof (live_transmit c now (take n l) (hd true oks) sent Hl) as Ht.
  assert (take n l ≠ []) as Hne by (destruct n; [lia|done]).
  assert (blen (take n l) <= 65535) as Hb by (unfold blen; rewrite length_take; lia).
  specialize (Ht Hne Hb). destruct (transmitSegment _ _ _ _) as [[c1 pkt] b].
  destruct Ht as (Hl1 & Hp & Hnf & Hs & Hnb & Hx).
  specialize (IH c1 (drop n l) (tl oks) (sent ++ take n l) Hl1).
  rewrite length_drop in IH. specialize (IH ltac:(simpl in *; lia)).
  rewrite <- app_assoc, take_drop in IH.
  destruct (sendTail fuel c1 now (drop n l) (tl oks)) as [c2 out].
  destruct IH as (Hl2 & Hs2 & Hn3 & Hx2 & Ho). split_and!; try done; try congruence.
  intros m p [[= -> ->]|Hin]%elem_of_cons; [|by eapply Ho]. split; [|done].
  rewrite <- (take_drop n l), app_assoc. by apply piece_app.
Qed.

(** The only packet [releaseHeldFINIfAcked] sends is the held FIN. *)
Lemma held_release c now c' out pkt node :
  releaseHeldFINIfAcked c now = (c', out) → OSend node pkt ∈ out →
  ∃ f, heldFIN c = Some f ∧ pkt = f.
Proof.
  unfold releaseHeldFINIfAcked, releaseHeldFIN. destruct (heldFIN c) as [f|]; [|intros [= <- <-]; set_solver].
  case_zif; [intros [= <- <-]; set_solver|]. cbv zeta. case_zif; intros [= <- <-]; [set_solver|].
  intros [= -> ->]%list_elem_of_singleton. by exists f.
Qed.

(** After everything is sent, closing adds a FIN just past it. *)
Lemma close_fin c now hold W :
  live c W →
  let fin := connPacket c FlagFIN (SendSeq c) 0 0 [] in
  let c1 := set_SendSeq c (u32 (SendSeq c + 1)) in
  let c2 := if hold : bool then set_heldFIN c1 (Some fin) else c1 in
  let '(c3, out) :=
    if hold then releaseHeldFINIfAcked c2 now
    else let '(c', f) := sendFIN c2 now fin in (c', [OSend (Node (Dst f)) f]) in
  pieces c3 W ∧ (∀ sq, own_fin c3 sq → sq = u32 (isn + blen W)) ∧ held_ok c3 ∧
  NoDelay c3 = false ∧ RetxStop c3 = false ∧ rx c3 = rx c ∧ NagleBuf c3 = NagleBuf c ∧
  ∀ n p, OSend n p ∈ out → ¬ carries p ∧ Seq p = u32 (isn + blen W).
Proof.
  intros Hl fin c1 c2. assert (Seq fin = u32 (isn + blen W)) as Hq by apply Hl.
  assert (is_fin fin) as Hfin by (by apply has_fin).
  assert (¬ carries fin) as Hnc by (intros (_ & H & _); rewrite Hfin in H; done).
  destruct hold; cbv beta iota in c2.
  - assert (held_ok c2) as Hh by (by intros f [= <-]).
    assert (∀ sq, own_fin c2 sq → sq = u32 (isn + blen W)) as Hof.
    { intros sq [(f & [= <-] & <-)|H]; [done|]. destruct (lv_fin _ _ Hl sq). by right. }
    destruct (releaseHeldFINIfAcked_calm c2 now False Hh) as (Hc & Ho & Hx & _).
    cbv zeta in *. destruct (releaseHeldFINIfAcked c2 now) as [c3 out] eqn:Er. cbn [fst snd] in *.
    split_and!.
    + eapply pieces_calm; [exact Hc|]. apply Hl.
    + intros sq Hs. by apply Hof, (cm_fin _ _ Hc).
    + by eapply held_ok_calm.
    + rewrite (cm_nodelay _ _ Hc). apply Hl.
    + rewrite (cm_stop _ _ Hc). apply Hl.
    + done.
    + by rewrite (cm_nagle _ _ Hc).
    + intros n p Hin. apply (held_release _ _ _ _ _ _ Er) in Hin as (f & [= <-] & ->). done.
  - cbn [sendFIN]. cbv zeta. split_and!; try apply Hl; try done.
    + intros x [Hx|Hx]%elem_of_app Hf; [by apply (lv_data _ _ Hl)|].
      apply list_elem_of_singleton in Hx as ->. done.
    + intros sq [(f & Hf & Hs)|(x & [Hx|Hx]%elem_of_app & Hi & Hs)].
      * destruct (lv_fin _ _ Hl sq). left. by exists f.
      * destruct (lv_fin _ _ Hl sq). right. by exists x.
      * apply list_elem_of_singleton in Hx as ->. simpl in Hs. by rewrite <- Hs.
    + intros n p [= -> ->]%list_elem_of_singleton. done.
Qed.

(** A closed endpoint that has sent everything, or sends nothing more. *)
Lemma closed_inv c w W sent :
  pieces c sent → sent `prefix_of` W → (∀ sq, own_fin c sq → sq = u32 (isn + blen W)) →
  held_ok c → NoDelay c = false → RetxStop c = false → State c = StateFinWait →
  writing w = false → ep_inv (mkEndpoint c w W) sent.
Proof.
  intros Hp Hpre Hf Hh Hn Hr Hs Hw. split; simpl; try done.
  - rewrite Hs. right. by left.
  - by destruct w.
  - rewrite Hw. split; [done|]. by rewrite Hs.
  - by destruct w.
  - intros Hfl. destruct w; simpl in *; try done; congruence.
  - rewrite Hw, Hs. by intros [?|?].
  - intros sq Hq. split_and!; [by apply Hf|congruence|done].
Qed.

Lemma close_progress e sent now stopping oks heard :
  ep_inv e sent → writing (wr e) = false →
  let '(c', out) := CloseConnection (conn e) now stopping true oks in
  progress e sent (mkEndpoint c' (wr e) (written e)) heard out.
Proof.
  intros Hi Hw. unfold CloseConnection, sendHeldTailBeforeClose, is_state.
  pose proof (ei_sent _ _ Hi) as Hs. rewrite Hw in Hs. destruct Hs as [Hp He].
  case_bool_decide as Hst; cbn [negb orb].
  - specialize (He Hst). set (tail := NagleBuf (conn e)) in *. cbv zeta.
    pose proof (sendTail_live (length tail) (set_NagleBuf (conn e) []) now tail oks sent
      (live_nagle _ _ _ (ep_inv_live e sent Hi (or_intror Hst))) (le_n _)) as H.
    destruct (sendTail _ _ _ _ _) as [c1 out1]. destruct H as (Hl & Hs1 & _ & _ & Ho1).
    rewrite He in *. cbn [State set_NagleBuf] in *.
    rewrite (bool_decide_eq_true_2 (State c1 = StateEstablished)) by congruence.
    cbn [andb]. set (out2 := if RemotePort _ =? _ then _ else _).
    assert (∀ n p, OSend n p ∉ out2) as Ho2 by (unfold out2; case_zif; set_solver).
    pose proof (close_fin c1 now (unackedHasData (tx c1) && negb stopping) _ Hl) as Hc.
    cbv zeta in Hc. revert Hc. set (hold := unackedHasData (tx c1) && negb stopping).
    set (c2 := if hold then set_heldFIN _ _ else _).
    destruct (if hold then releaseHeldFINIfAcked c2 now else _) as [c3 out3].
    intros (C1 & C2 & C3 & C4 & C5 & _ & _ & C6).
    apply (progress_intro _ _ tail); rewrite ?He; [by apply closed_inv|done|].
    intros n p [Hin|[Hin|Hin]%elem_of_app]%elem_of_app.
    + destruct (Ho1 n p Hin). by apply pkt_ok_data.
    + by destruct (Ho2 n p).
    + destruct (C6 n p Hin). split; [done|]. intros _. simpl. auto.
  - cbv zeta. rewrite (bool_decide_eq_false_2 (State (conn e) = _)) by done. cbn [andb app].
    apply silent; [|done]. apply closed_inv; try done; apply Hi.
Qed.

(** What makes an endpoint answer with a FIN: one it holds, or has just got. *)
Definition heard e (o : ep_op) : Prop :=
  finPending (rx (conn e)) = true ∨ match o with EPacket _ pkt _ => is_fin pkt | _ => False end.

(** Every operation preserves the invariant, and what it puts on the wire is a
    part of the stream, or a FIN at its end, or a FIN in answer to one. *)
Lemma ep_step_progress e sent o :
  ep_inv e sent → ep_allowed e o →
  progress e sent (fst (ep_step e o)) (heard e o) (snd (ep_step e o)).
Proof.
  intros Hi Ha. assert (State (conn e) ≠ StateSynSent) as Hss.
  { destruct (ei_state _ _ Hi) as [->|[->|[->| ->]]]; done. }
  pose proof (ei_held _ _ Hi) as Hh.
  assert (∀ c' (h : Prop) out, calm (conn e) c' → emits_all (conn e) h out →
    (h → heard e o ∧ State c' ≠ StateEstablished) →
    progress e sent (mkEndpoint c' (wr e) (written e)) (heard e o) out) as Hcalm.
  { intros c' h out Hc Ho Hw. apply calm_progress; [done..|]. by eapply emits_all_weaken. }
  destruct o as [data|now ev ok|now force ok|now pkt reads| |now rnd| |now stopping oks|now|now idle].
  - by apply write_progress.
  - pose proof (writer_progress e sent now ev ok (heard e (EWriter now ev ok)) Hi) as H.
    cbn [ep_step]. by destruct (writeStep _ _ _ _ _) as [[w c'] out].
  - pose proof (flusher_progress e sent now force ok (heard e (EFlusher now force ok)) Hi Ha) as H.
    cbn [ep_step]. by destruct (flushHeldTail _ _ _ _) as [[b c'] out].
  - destruct (handlePacket_calm (conn e) now pkt reads Hh Hss) as [H1 H2].
    eapply Hcalm; [exact H1|exact H2|]. unfold heard. tauto.
  - destruct (ackTimer_calm (conn e) False) as (H1 & H2 & _). by eapply Hcalm.
  - pose proof (retxTick_calm (conn e) now rnd False) as H. cbn [ep_step].
    destruct (retxTick _ _ _) as [[n c'] out]. destruct H as (H1 & H2 & _). by eapply Hcalm.
  - apply (Hcalm _ False); [by apply same_sender_calm; auto|apply emits_all_nil|done].
  - pose proof (close_progress e sent now stopping oks (heard e (EClose now stopping oks)) Hi Ha) as H.
    cbn [ep_step]. by destruct (CloseConnection _ _ _ _ _).
  - destruct (releaseHeldFIN_calm (conn e) now False Hh) as (H1 & H2 & _). by eapply Hcalm.
  - destruct (expireHeldFIN_calm (conn e) now idle) as (H1 & H2).
    eapply Hcalm; [exact H1|exact H2|]. unfold heard. tauto.
Qed.
End Proofs.
