(* ===== verification/EndToEnd.v ===== *)
(** * Two endpoints and a network between them

    The endpoints of one stream run concurrently: packets, timers, writes,
    reads and closes interleave at random on both sides, and the network may
    delay, reorder, duplicate and lose packets ([wire] is everything ever sent
    in one direction, and any packet of it may arrive at any time, any number
    of times).  What each application reads is a prefix of what the other wrote,
    and an end of stream that a FIN brings comes after all of it. *)
From S2P Require Import Prelude SeqNum Sack Protocol Conn Sender SenderProofs.
From S2P Require Import Reassembly ReassemblyProofs Stream Writer Endpoint EndpointProofs.
Open Scope Z_scope.

(** The packets among the outputs. *)
Definition packets (l : list Output) : list Packet :=
  omap (λ o, match o with OSend _ p => Some p | OEvent _ => None end) l.

Lemma elem_of_packets p l : p ∈ packets l ↔ ∃ node, OSend node p ∈ l.
Proof.
  unfold packets. rewrite list_elem_of_omap. split.
  - intros ([node q|e] & Hin & E); [|done]. injection E as ->. by exists node.
  - intros [node Hin]. by exists (OSend node p).
Qed.

Record Net := mkNet { left : Endpoint; right : Endpoint; toRight : list Packet; toLeft : list Packet }.

Definition swap (n : Net) : Net := mkNet (right n) (left n) (toLeft n) (toRight n).

Section EndToEnd.
Context {P : Protocol}.
Implicit Types (e a b : Endpoint) (c : Connection).

(** The left endpoint performs [o]. *)
Definition net_step (n : Net) (o : ep_op) : Net :=
  let '(e, out) := ep_step (left n) o in
  mkNet e (right n) (toRight n ++ packets out) (toLeft n).

Definition net_allowed (n : Net) (o : ep_op) : Prop :=
  ep_allowed (left n) o ∧ match o with EPacket _ pkt _ => pkt ∈ toLeft n | _ => True end.

Inductive net_reach (n0 : Net) : Net → Prop :=
| net_start : net_reach n0 n0
| net_left n o : net_reach n0 n → net_allowed n o → net_reach n0 (net_step n o)
| net_right n o : net_reach n0 n → net_allowed (swap n) o → net_reach n0 (swap (net_step (swap n) o)).

(** An open connection nothing was written to: it sends from [isn] and
    expects the peer's stream at [peer]. *)
Record opened c (isn peer : Z) : Prop := {
  op_state : State c = StateEstablished;
  op_nagle : NagleBuf c = [];
  op_nodelay : NoDelay c = false;
  op_stop : RetxStop c = false;
  op_held : heldFIN c = None;
  op_unacked : Unacked (tx c) = [];
  op_seq : SendSeq c = u32 isn;
  op_exp : ExpectedSeq (rx c) = u32 peer;
  op_ooo : OOOBuf (rx c) = [];
  op_out : out (rx c) = [];
  op_closed : RecvClosed (rx c) = false;
  op_fin : finPending (rx c) = false;
}.

Definition net_start_ok (n : Net) (isnL isnR : Z) : Prop :=
  opened (conn (left n)) isnL isnR ∧ opened (conn (right n)) isnR isnL ∧
  wr (left n) = WIdle ∧ wr (right n) = WIdle ∧ written (left n) = [] ∧ written (right n) = [] ∧
  toRight n = [] ∧ toLeft n = [].

(** ** The receiving half *)

(** [c] receives what [a] writes, from [isn] on. *)
Record rx_inv (isn : Z) a c : Prop := {
  rv_rinv : ∃ n ps, rinv (written a) isn (rx c) n ps;
  rv_fin : finPending (rx c) = true →
           State (conn a) ≠ StateEstablished ∧
           (State c = StateEstablished → finSeq (rx c) = u32 (isn + blen (written a)));
  rv_open : State c = StateEstablished → RecvClosed (rx c) = false;
}.

(** What a packet on its way from [a] to [b] says. *)
Definition wire_ok (isn : Z) a b (pkt : Packet) : Prop :=
  (carries pkt → piece isn (written a) (Seq pkt) (Payload pkt)) ∧
  (is_fin pkt → State (conn a) ≠ StateEstablished ∧
                (Seq pkt = u32 (isn + blen (written a)) ∨ State (conn b) ≠ StateEstablished)).

Record half_inv (isn : Z) a b (w : list Packet) : Prop := {
  hf_send : ∃ sent, ep_inv isn a sent;
  hf_wire : ∀ pkt, pkt ∈ w → wire_ok isn a b pkt;
  hf_recv : rx_inv isn a (conn b);
}.

Lemma sent_prefix isn e sent : ep_inv isn e sent → sent `prefix_of` written e.
Proof.
  intros Hi. pose proof (ei_sent _ _ _ Hi) as H.
  destruct (writing (wr e)); [|by destruct H]. rewrite <- H. by eexists.
Qed.

Lemma piece_prefix isn s s' sq d : s `prefix_of` s' → piece isn s sq d → piece isn s' sq d.
Proof. intros [k ->]. apply piece_app. Qed.

(** ** What the operations do to the receiver and the state *)

(** The receiver [r'] has the stream of [r], and holds no FIN that [r] did not. *)
Definition rx_same (r r' : Receiver) : Prop :=
  ExpectedSeq r' = ExpectedSeq r ∧ OOOBuf r' = OOOBuf r ∧ out r' = out r ∧
  (finPending r' = true → finPending r = true ∧ finSeq r' = finSeq r).

Lemma rx_same_refl r : rx_same r r.
Proof. done. Qed.
#[local] Hint Resolve rx_same_refl : core.

Definition left_open (s s' : ConnState) : Prop :=
  s' = s ∨ s' = StateFinWait ∨ s' = StateTimeWait ∨ s' = StateClosed.

(** No new stream data, and no way back into the established state. *)
Definition quiet c c' : Prop :=
  rx_same (rx c) (rx c') ∧ left_open (State c) (State c') ∧
  (State c' = StateEstablished → RecvClosed (rx c') = RecvClosed (rx c)).

Lemma quiet_same c c' : rx c' = rx c → left_open (State c) (State c') → quiet c c'.
Proof. intros Hx Hs. split_and!; [by rewrite Hx|done|by rewrite Hx]. Qed.

Lemma transmit_quiet c now d ok : quiet c (fst (fst (transmitSegment c now d ok))).
Proof.
  pose proof (transmit_frame c now d ok) as H.
  destruct (transmitSegment c now d ok) as [[c' pkt] b].
  destruct H as (Hs & _ & _ & _ & _ & Hx & _). apply quiet_same; [done|by left].
Qed.

Lemma flushStep_quiet c force as_flusher : quiet c (snd (flushStep c force as_flusher)).
Proof.
  unfold flushStep. repeat case_match; apply quiet_same; try done; by left.
Qed.

Lemma quiet_comp c1 c2 c3 : quiet c1 c2 → quiet c2 c3 → quiet c1 c3.
Proof.
  intros ((A1 & B1 & C1 & D1) & E1 & F1) ((A2 & B2 & C2 & D2) & E2 & F2). split_and!.
  - split_and!; try congruence. intros H. destruct (D2 H) as [H2 ?]. destruct (D1 H2). split; congruence.
  - unfold left_open in *. destruct E2 as [->|[->|[->| ->]]]; tauto.
  - intros H. rewrite F2, F1 by (unfold left_open in *; destruct E2 as [?|[?|[?|?]]]; congruence). done.
Qed.

Lemma writeStep_quiet w c now ev ok : quiet c (snd (fst (writeStep w c now ev ok))).
Proof.
  assert (∀ c', rx c' = rx c → State c' = State c → quiet c c') as Hk.
  { intros c' ? ?. apply quiet_same; [done|by left]. }
  destruct w as [|r t|r t|r|seg k n|err]; cbn [writeStep].
  - by apply Hk.
  - unfold bufferPiece. cbv zeta. case_zif; by apply Hk.
  - pose proof (flushStep_quiet c t false) as H. destruct (flushStep c t false) as [[] c']; apply H.
  - destruct r; by apply Hk.
  - case_zif.
    + unfold sendNow. pose proof (transmit_quiet c now seg ok) as H.
      destruct (transmitSegment c now seg ok) as [[c' pkt] b]. by repeat case_match.
    + unfold sendWait. destruct ev; repeat case_match; try (by apply Hk).
      apply quiet_same; [done|by right; right; right].
  - by apply Hk.
Qed.

Lemma flushHeldTail_quiet c now force ok : quiet c (snd (fst (flushHeldTail c now force ok))).
Proof.
  unfold flushHeldTail. pose proof (flushStep_quiet c force true) as H.
  destruct (flushStep c force true) as [[] c1]; try done. cbn [snd] in H.
  pose proof (transmit_quiet c1 now segment ok) as H'.
  destruct (transmitSegment c1 now segment ok) as [[c2 pkt] b]. by eapply quiet_comp.
Qed.

Lemma sendTail_rx fuel c now tail oks : rx (fst (sendTail fuel c now tail oks)) = rx c.
Proof.
  revert c tail oks. induction fuel as [|fuel IH]; intros c tail oks; [done|].
  destruct tail as [|x tail]; [done|]. cbn [sendTail]. cbv zeta.
  match goal with |- context [transmitSegment c now ?d ?b] =>
    pose proof (transmit_frame c now d b) as H; destruct (transmitSegment c now d b) as [[c1 pkt] z] end.
  destruct H as (_ & _ & _ & _ & _ & Hx & _).
  match goal with |- context [sendTail fuel c1 now ?t ?o] =>
    specialize (IH c1 t o); destruct (sendTail fuel c1 now t o) as [c2 out'] end.
  simpl in *. congruence.
Qed.

(** A receiver that is closed, with no hold on a FIN. *)
Lemma rx_same_closed r r' :
  ExpectedSeq r' = ExpectedSeq r → OOOBuf r' = OOOBuf r → out r' = out r → finPending r' = false →
  rx_same r r'.
Proof. intros ? ? ? Hf. split_and!; try done. by rewrite Hf. Qed.

Lemma releaseHeldFINIfAcked_rx c now : rx (fst (releaseHeldFINIfAcked c now)) = rx c.
Proof. unfold releaseHeldFINIfAcked, releaseHeldFIN. destruct (heldFIN c); cbv zeta; by repeat case_zif. Qed.

Lemma CloseConnection_rx c now stopping locked oks :
  let c' := fst (CloseConnection c now stopping locked oks) in
  State c' = StateFinWait ∧ rx c' = CloseRecvBuf (rx (stopFINHold c)).
Proof.
  unfold CloseConnection.
  assert (rx (fst (sendHeldTailBeforeClose c now locked oks)) = rx c) as Hx.
  { unfold sendHeldTailBeforeClose. case_zif; [done|]. cbv zeta. by rewrite sendTail_rx. }
  destruct (sendHeldTailBeforeClose c now locked oks) as [c1 out1]. cbn [fst] in Hx. cbv zeta.
  set (c2 := if is_state c1 StateEstablished && _ then _ else _).
  assert (rx c2 = rx c) as Hx2 by (unfold c2; by repeat case_zif).
  assert (∀ r : Connection * list Output, rx (fst r) = rx c →
    let c' := (set_rx (stopFINHold (fst r)) (CloseRecvBuf (rx (stopFINHold (fst r))))) in
    rx c' = CloseRecvBuf (rx (stopFINHold c))) as Hr by (intros r E; simpl; by rewrite E).
  destruct (is_state c1 StateEstablished); [destruct (unackedHasData (tx c1) && negb stopping)|].
  - pose proof (releaseHeldFINIfAcked_rx c2 now) as H.
    specialize (Hr (releaseHeldFINIfAcked c2 now)). destruct (releaseHeldFINIfAcked c2 now) as [c3 o3].
    cbn [fst] in *. split; [done|]. apply Hr. congruence.
  - split; [done|]. apply (Hr (c2, [])). done.
  - split; [done|]. apply (Hr (c2, [])). done.
Qed.

Lemma CloseConnection_quiet c now stopping oks :
  quiet c (fst (CloseConnection c now stopping true oks)).
Proof.
  destruct (CloseConnection_rx c now stopping true oks) as [Hs Hx].
  split_and!; [by rewrite Hx|rewrite Hs; by right; left|by rewrite Hs].
Qed.

Lemma acceptFIN_rx c now sq :
  rx (fst (acceptFIN c now sq)) = CloseRecvBuf (rx (stopFINHold c)).
Proof. unfold acceptFIN. cbv zeta. by repeat case_match. Qed.

Lemma acceptFIN_quiet c now sq : quiet c (fst (acceptFIN c now sq)).
Proof.
  split_and!.
  - by rewrite acceptFIN_rx.
  - rewrite acceptFIN_state. by right; right; left.
  - by rewrite acceptFIN_state.
Qed.

Lemma expireHeldFIN_quiet c now idle : quiet c (fst (expireHeldFIN c now idle)).
Proof.
  unfold expireHeldFIN. cbv zeta. repeat case_zif; try (by apply quiet_same; [|left]).
  - split_and!; [done|by left|done].
  - eapply quiet_comp; [|apply acceptFIN_quiet]. split_and!; [done|by left|done].
Qed.

Lemma recv1_quiet c : quiet c (set_rx c (recv1 (rx c))).
Proof.
  destruct (recv1_out (rx c)) as (H1 & H2 & H3 & H4).
  split_and!; [|by left|done]. split_and!; try done. simpl. unfold recv1.
  by destruct (RecvBuf (rx c)).
Qed.

Lemma retxTick_quiet c now rnd : quiet c (snd (fst (retxTick c now rnd))).
Proof.
  pose proof (retxTick_calm c now rnd False) as H.
  destruct (retxTick c now rnd) as [[n c'] o]. destruct H as (H1 & _ & H2). simpl.
  assert (left_open (State c) (State c')).
  { destruct (cm_state _ _ H1) as [?|[?|?]]; unfold left_open; auto. }
  destruct H2 as [Hx|[Hs Hx]]; [by apply quiet_same|]. split_and!; [by rewrite Hx|done|congruence].
Qed.

(** Every operation but the arrival of a packet. *)
Lemma ep_step_quiet e o :
  held_ok (conn e) → (∀ now pkt reads, o ≠ EPacket now pkt reads) →
  quiet (conn e) (conn (fst (ep_step e o))).
Proof.
  intros Hh Hno.
  assert (∀ c', rx c' = rx (conn e) → State c' = State (conn e) → quiet (conn e) c') as Hk.
  { intros c' ? ?. apply quiet_same; [done|by left]. }
  destruct o as [data|now ev ok|now force ok|now pkt reads| |now rnd| |now stopping oks|now|now idle];
    cbn [ep_step].
  - by apply Hk.
  - pose proof (writeStep_quiet (wr e) (conn e) now ev ok). by destruct (writeStep _ _ _ _ _) as [[? ?] ?].
  - pose proof (flushHeldTail_quiet (conn e) now force ok). by destruct (flushHeldTail _ _ _ _) as [[? ?] ?].
  - by destruct (Hno now pkt reads).
  - destruct (ackTimer_calm (conn e) False) as (_ & _ & ? & ?). by apply Hk.
  - pose proof (retxTick_quiet (conn e) now rnd). by destruct (retxTick _ _ _) as [[? ?] ?].
  - apply recv1_quiet.
  - apply CloseConnection_quiet.
  - destruct (releaseHeldFIN_calm (conn e) now False Hh) as (_ & _ & ? & ?). by apply Hk.
  - apply expireHeldFIN_quiet.
Qed.

Lemma ep_step_written e o : written e `prefix_of` written (fst (ep_step e o)).
Proof.
  destruct o; cbn [ep_step]; try done; try case_match; repeat case_match; simpl; try done.
  all: by eexists.
Qed.

(** ** A packet arrives *)

Lemma rinv_same W isn r r' n ps :
  ExpectedSeq r' = ExpectedSeq r → OOOBuf r' = OOOBuf r → out r' = out r →
  rinv W isn r n ps → rinv W isn r' n ps.
Proof. intros E1 E2 E3 []. split; congruence. Qed.

Lemma left_open_est s s' : left_open s s' → s' = StateEstablished → s = StateEstablished.
Proof. intros [?|[?|[?|?]]] ?; congruence. Qed.

Lemma quiet_rx_inv isn a c c' : quiet c c' → rx_inv isn a c → rx_inv isn a c'.
Proof.
  intros ((E1 & E2 & E3 & Hf) & Hs & Hc) [(n & ps & Hr) Hp Ho]. split.
  - exists n, ps. by eapply rinv_same.
  - intros Hf'. destruct (Hf Hf') as [H1 H2]. destruct (Hp H1) as [? Hq]. split; [done|].
    intros He. rewrite H2. by eapply Hq, left_open_est.
  - intros He. rewrite Hc by done. by eapply Ho, left_open_est.
Qed.

(** A FIN that is not ahead of what was delivered ends a complete stream. *)
Lemma fin_complete isn W r n ps :
  rinv W isn r n ps → Z.of_nat (length W) < half →
  seqAfter (u32 (isn + blen W)) (ExpectedSeq r) = false → out r = W.
Proof.
  intros Hr Hb Ha. rewrite (ri_exp _ _ _ _ _ Hr) in Ha. pose proof (ri_len _ _ _ _ _ Hr).
  unfold blen in Ha. apply seqAfter_near_false in Ha; [|unfold half in *; lia].
  rewrite (ri_out _ _ _ _ _ Hr). apply take_ge. lia.
Qed.

(** The end of stream is complete when this step brings it. *)
Definition eof_ok c c' (W : bytes) : Prop :=
  State c = StateEstablished → State c' = StateTimeWait → out (rx c') = W.

Lemma acceptFIN_eof isn a c now sq n ps :
  rinv (written a) isn (rx c) n ps → Z.of_nat (length (written a)) < half →
  sq = u32 (isn + blen (written a)) → seqAfter sq (ExpectedSeq (rx c)) = false →
  out (rx (fst (acceptFIN c now sq))) = written a.
Proof.
  intros Hr Hb -> Hs. rewrite acceptFIN_rx.
  change (out (CloseRecvBuf (rx (stopFINHold c)))) with (out (rx c)). by eapply fin_complete.
Qed.

Lemma handleFIN_rx isn a c now pkt :
  Z.of_nat (length (written a)) < half → rx_inv isn a c → is_fin pkt →
  (State (conn a) ≠ StateEstablished ∧
   (Seq pkt = u32 (isn + blen (written a)) ∨ State c ≠ StateEstablished)) →
  let c' := fst (handleFIN c now pkt) in
  rx_inv isn a c' ∧ left_open (State c) (State c') ∧ eof_ok c c' (written a).
Proof.
  intros Hb Hi Hf [Ha Hq]. unfold handleFIN. cbv zeta.
  destruct (is_state c StateEstablished && _ && _) eqn:Ee.
  - apply andb_true_iff in Ee as [[He Hc]%andb_true_iff Hs]. apply bool_decide_eq_true in He.
    set (c1 := set_rx c _). assert (rx_inv isn a c1) as Hi1.
    { destruct Hi as [(n & ps & Hr) Hp Ho]. split.
      - exists n, ps. eapply rinv_same; [..|exact Hr]; unfold c1; simpl; by case_match.
      - intros _. split; [done|]. intros _. unfold c1. simpl.
        destruct (finPending (rx c)) eqn:Ef; simpl; [by destruct (Hp eq_refl); auto|].
        destruct Hq; [done|congruence].
      - intros Hx. unfold c1. simpl. case_match; simpl; by apply Ho. }
    destruct (sendDelayedACK_calm c1 False) as (_ & _ & Hx & Hst).
    change (State c1) with (State c) in Hst. split_and!.
    + eapply quiet_rx_inv; [|exact Hi1]. apply quiet_same; [done|by left].
    + by left.
    + intros _. congruence.
  - split_and!; [by eapply quiet_rx_inv; [apply acceptFIN_quiet|]|apply acceptFIN_quiet|].
    intros He _. rewrite (rv_open _ _ _ Hi He) in Ee. unfold is_state in Ee.
    rewrite (bool_decide_eq_true_2 _ He) in Ee. cbn [negb andb] in Ee.
    destruct Hq as [Hq|?]; [|done]. destruct (rv_rinv _ _ _ Hi) as (n & ps & Hr).
    by eapply acceptFIN_eof.
Qed.

Lemma receiveData_rx isn a c now pkt reads :
  Z.of_nat (length (written a)) < half → rx_inv isn a c →
  piece isn (written a) (Seq pkt) (Payload pkt) →
  let c' := fst (receiveData c now pkt reads) in
  rx_inv isn a c' ∧ left_open (State c) (State c') ∧ eof_ok c c' (written a).
Proof.
  intros Hb Hi (p & Hp & Hp0 & Hsq & Hd). unfold receiveData, is_state.
  case_bool_decide as He; cbn [negb]; [|split_and!; [done|by left|by intros ?]].
  cbv zeta. cbn [rx set_Stats set_LastActivity].
  destruct (rv_rinv _ _ _ Hi) as (n & ps & Hr).
  assert (near p.1 n) as Hn.
  { pose proof (ri_len _ _ _ _ _ Hr). destruct Hp. unfold near, half in *. lia. }
  pose proof (deliver_step _ _ _ n ps p reads Hr Hp Hn) as H. cbn [segSeq segData segp] in H.
  pose proof (Deliver_fin (rx c) (Seq pkt) (Payload pkt) reads) as (F1 & F2 & F3).
  rewrite <- Hsq, <- Hd in H.
  destruct (DeliverInOrder _ _ _ _) as [cum r]. cbn [snd] in *.
  destruct H as (n' & ps' & Hr' & _ & ->).
  set (c1 := set_RecvAck (set_rx _ r) _).
  assert (rx_inv isn a c1) as Hi1.
  { destruct Hi as [_ Hf Ho]. split; simpl; [by exists n', ps'|by rewrite F1, F2|by rewrite F3]. }
  assert (∀ t, finPending r = true → rx_inv isn a (set_rx c1 (set_fin r true (finSeq r) t))) as Hi2.
  { intros t Hfp. destruct Hi1 as [_ Hf Ho]. split; simpl in *; [|auto|auto].
    exists n', ps'. by eapply rinv_same; [..|exact Hr']. }
  destruct (finPending r && _) eqn:Er.
  - apply andb_true_iff in Er as [Hfp Hs]. apply negb_true_iff in Hs.
    change (State c) with (State c1). set (c2 := set_rx c1 _).
    assert (quiet c1 c2) as Hq by (split_and!; [by apply rx_same_closed|by left|done]).
    pose proof (quiet_comp _ _ _ Hq (acceptFIN_quiet c2 now (finSeq r))) as Hq'.
    split_and!; [by eapply quiet_rx_inv|apply Hq'|]. intros _ _.
    eapply (acceptFIN_eof isn a c2); [by eapply rinv_same; [..|exact Hr']|done| |done].
    destruct (rv_fin _ _ _ Hi1 Hfp) as [_ Hq2]. by apply Hq2.
  - set (c2 := if finPending r then _ else _).
    assert (rx_inv isn a c2) as Hi3 by (unfold c2; destruct (finPending r) eqn:?; auto).
    destruct (acknowledge_calm c2 False) as (_ & _ & Hx & Hs).
    assert (State c2 = State c) as Hs2 by (unfold c2; by case_match).
    split_and!.
    + eapply quiet_rx_inv; [|exact Hi3]. apply quiet_same; [done|by left].
    + left. congruence.
    + intros _. congruence.
Qed.

Lemma handlePacket_rx isn a c now pkt reads :
  Z.of_nat (length (written a)) < half → rx_inv isn a c → held_ok c → State c ≠ StateSynSent →
  (carries pkt → piece isn (written a) (Seq pkt) (Payload pkt)) →
  (is_fin pkt → State (conn a) ≠ StateEstablished ∧
                (Seq pkt = u32 (isn + blen (written a)) ∨ State c ≠ StateEstablished)) →
  let c' := fst (handlePacket c now pkt reads) in
  rx_inv isn a c' ∧ left_open (State c) (State c') ∧ eof_ok c c' (written a).
Proof.
  intros Hb Hi Hh Hss Hd Hf. cbv zeta. unfold handlePacket.
  assert (rx_inv isn a c ∧ left_open (State c) (State c) ∧ eof_ok c c (written a)) as Hsame.
  { split_and!; [done|by left|]. intros ??. congruence. }
  destruct (HasFlag pkt FlagSYN && HasFlag pkt FlagACK) eqn:Esa.
  { unfold handleSYNACK, is_state. by rewrite bool_decide_eq_false_2. }
  destruct (HasFlag pkt FlagFIN) eqn:Efin; [by apply handleFIN_rx; auto|].
  destruct (HasFlag pkt FlagRST) eqn:Erst.
  { split_and!; [|by right; right; right|done]. eapply quiet_rx_inv; [|exact Hi].
    split_and!; [by apply rx_same_closed|by right; right; right|done]. }
  destruct (HasFlag pkt FlagACK) eqn:Eack; [|done].
  unfold handleACK. destruct (ackPhase_calm c now pkt False Hh) as (_ & _ & X1 & S1). cbv zeta in *.
  destruct (ackPhase c now pkt) as [c1 o1]. cbn [fst snd] in *.
  assert (quiet c c1) as Hq by (apply quiet_same; [done|by left]).
  destruct (DecodeSACK (Payload pkt)) as [blocks|] eqn:Ed; [|destruct (0 <? blen (Payload pkt)) eqn:El].
  - cbn [fst]. destruct (ProcessSACK_tx c1 blocks) as (s & t & -> & _). split_and!.
    + eapply quiet_rx_inv; [|exact Hi]. by apply quiet_same; [|left].
    + by left.
    + intros ??. simpl in *. congruence.
  - pose proof (receiveData_rx isn a c1 now pkt reads Hb (quiet_rx_inv _ _ _ _ Hq Hi)) as H.
    unfold eof_ok in *. rewrite S1 in H.
    destruct (receiveData c1 now pkt reads) as [c2 o2]. apply H, Hd.
    rewrite andb_comm in Esa. split_and!; try done. by destruct (Payload pkt).
  - cbn [fst]. split_and!; [by eapply quiet_rx_inv|by left|]. intros ??. congruence.
Qed.

(** ** The invariant of the net *)

Lemma rinv_prefix W W' isn r n ps : W `prefix_of` W' → rinv W isn r n ps → rinv W' isn r n ps.
Proof.
  intros [k ->] [R1 R2 R3 R4 R5 R6].
  assert (∀ p, pok W p → pok (W ++ k) p) as Hpok.
  { intros p [? ?]. split; [|done]. rewrite length_app. lia. }
  split; try done.
  - by rewrite take_app_le.
  - rewrite length_app. lia.
  - rewrite R4. apply map_ext_in. intros p Hp%list_elem_of_In. rewrite Forall_forall in R5.
    destruct (R5 p Hp) as ((? & _) & _). unfold segp. by rewrite slice_prefix.
  - eapply Forall_impl; [exact R5|]. intros p (? & ? & ?). split; auto.
Qed.

(** What a step of [a] promises those who look at it from the other side. *)
Definition grows a a' : Prop :=
  written a `prefix_of` written a' ∧
  (State (conn a) ≠ StateEstablished →
   State (conn a') ≠ StateEstablished ∧ written a' = written a).

Lemma rx_inv_grows isn a a' c : grows a a' → rx_inv isn a c → rx_inv isn a' c.
Proof.
  intros [Hw Hg] [(n & ps & Hr) Hf Ho]. split; [|intros Hp|done].
  - exists n, ps. by eapply rinv_prefix.
  - destruct (Hf Hp) as [Hs Hq]. by destruct (Hg Hs) as [? ->].
Qed.

Lemma wire_ok_grows isn a a' b pkt : grows a a' → wire_ok isn a b pkt → wire_ok isn a' b pkt.
Proof.
  intros [Hw Hg] [Hd Hf]. split.
  - intros Hc. eapply piece_prefix; [done|]. by apply Hd.
  - intros Hp. destruct (Hf Hp) as [Hs Hq]. by destruct (Hg Hs) as [? ->].
Qed.

Lemma wire_ok_peer isn a b b' pkt : grows b b' → wire_ok isn a b pkt → wire_ok isn a b' pkt.
Proof.
  intros [_ Hg] [Hd Hf]. split; [done|]. intros Hp. destruct (Hf Hp) as [Hs [Hq|Hq]]; [by auto|].
  split; [done|]. right. by apply Hg.
Qed.

(** The state and the receiver of the endpoint that makes the step. *)
Lemma step_rx isn a b (w : list Packet) sent o :
  ep_inv isn a sent → ep_allowed a o → Z.of_nat (length (written b)) < half →
  ∀ isn', (∀ pkt, pkt ∈ w → wire_ok isn' b a pkt) → rx_inv isn' b (conn a) →
  match o with EPacket _ pkt _ => pkt ∈ w | _ => True end →
  let a' := fst (ep_step a o) in
  rx_inv isn' b (conn a') ∧ left_open (State (conn a)) (State (conn a')) ∧
  match o with EPacket _ _ _ => eof_ok (conn a) (conn a') (written b) | _ => True end.
Proof.
  intros Hi Ha Hb isn' Hw Hr Ho. pose proof (ei_held _ _ _ Hi) as Hh.
  assert ((∀ now pkt reads, o ≠ EPacket now pkt reads) →
    rx_inv isn' b (conn (fst (ep_step a o))) ∧
    left_open (State (conn a)) (State (conn (fst (ep_step a o))))) as Hq.
  { intros Hno. pose proof (ep_step_quiet a o Hh Hno) as Hq. split; [|apply Hq].
    by eapply quiet_rx_inv. }
  destruct o as [| | |now pkt reads| | | | | |]; try (destruct Hq; [done|]; split_and!; done).
  destruct (Hw pkt Ho) as [Hd Hf].
  assert (State (conn a) ≠ StateSynSent) as Hss.
  { destruct (ei_state _ _ _ Hi) as [->|[->|[->| ->]]]; done. }
  cbn [ep_step fst]. by apply (handlePacket_rx isn' b (conn a) now pkt reads).
Qed.

Lemma step_grows isn a sent o :
  ep_inv isn a sent → ep_allowed a o → left_open (State (conn a)) (State (conn (fst (ep_step a o)))) →
  grows a (fst (ep_step a o)).
Proof.
  intros Hi Ha Hl. split; [apply ep_step_written|]. intros Hs. split.
  - intros He. by apply Hs, (left_open_est _ _ Hl).
  - destruct o; cbn [ep_step]; try done.
    + unfold is_state. by rewrite bool_decide_eq_false_2.
    + by destruct (writeStep _ _ _ _ _) as [[? ?] ?].
    + by destruct (flushHeldTail _ _ _ _) as [[? ?] ?].
    + by destruct (retxTick _ _ _) as [[? ?] ?].
Qed.

Definition net_inv (isnL isnR : Z) (n : Net) : Prop :=
  half_inv isnL (left n) (right n) (toRight n) ∧ half_inv isnR (right n) (left n) (toLeft n).

Lemma net_inv_swap isnL isnR n : net_inv isnL isnR n → net_inv isnR isnL (swap n).
Proof. by intros [? ?]. Qed.

(** Both streams are shorter than half the sequence space. *)
Definition bounded (n : Net) : Prop :=
  Z.of_nat (length (written (left n))) < half ∧ Z.of_nat (length (written (right n))) < half.

Lemma net_step_inv isnL isnR n o :
  net_inv isnL isnR n → net_allowed n o → bounded n → net_inv isnL isnR (net_step n o).
Proof.
  intros [[(sent & Hi) Hw Hr] [Hs' Hw' Hr']] [Ha Ho] [_ Hb].
  destruct (step_rx _ _ _ _ _ _ Hi Ha Hb isnR Hw' Hr' Ho) as (Hx & Hl & _).
  pose proof (step_grows _ _ _ _ Hi Ha Hl) as Hg.
  destruct (ep_step_progress _ _ _ _ Hi Ha) as (k & Hk & _ & Hout).
  assert (heard (left n) o → State (conn (right n)) ≠ StateEstablished) as Hh.
  { intros [Hf|Hf]; [by destruct (rv_fin _ _ _ Hr' Hf)|]. destruct o as [| | |now pkt reads| | | | | |]; try done.
    destruct (Hw' pkt Ho) as [_ Hp]. by destruct (Hp Hf). }
  unfold net_step. destruct (ep_step (left n) o) as [a' outs]. cbn [fst snd] in *.
  split; split; cbn [left right toLeft toRight].
  - by exists (sent ++ k).
  - intros pkt [Hin|[node Hin]%elem_of_packets]%elem_of_app; [by eapply wire_ok_grows; auto|].
    destruct (Hout node pkt Hin) as [Hd Hf]. split.
    + intros Hc. eapply piece_prefix; [by eapply sent_prefix|]. by apply Hd.
    + intros Hc. destruct (Hf Hc) as [? [?|?]]; auto.
  - by eapply rx_inv_grows.
  - done.
  - intros pkt Hin. eapply wire_ok_peer; [exact Hg|]. by apply Hw'.
  - done.
Qed.

Lemma net_step_bounded n o : bounded (net_step n o) → bounded n.
Proof.
  pose proof (ep_step_written (left n) o) as Hp%prefix_length. unfold bounded, net_step.
  destruct (ep_step (left n) o) as [a' outs]. simpl in *. lia.
Qed.

Lemma bounded_swap n : bounded (swap n) → bounded n.
Proof. intros []. by split. Qed.

Lemma opened_inv e isn peer :
  opened (conn e) isn peer → wr e = WIdle → written e = [] → ep_inv isn e [].
Proof.
  intros Ho Hw Hn. split; rewrite ?Hw, ?Hn; try done; try apply Ho.
  - left. apply Ho.
  - split; [done|]. intros _. apply Ho.
  - intros _. by rewrite (op_nagle _ _ _ Ho).
  - rewrite (op_seq _ _ _ Ho). intros _. f_equal. unfold blen. simpl. lia.
  - intros x Hx. rewrite (op_unacked _ _ _ Ho) in Hx. set_solver.
  - intros sq [(f & Hf & _)|(x & Hx & _)].
    + rewrite (op_held _ _ _ Ho) in Hf. done.
    + rewrite (op_unacked _ _ _ Ho) in Hx. set_solver.
  - intros f Hf. rewrite (op_held _ _ _ Ho) in Hf. done.
Qed.

Lemma start_inv n isnL isnR : net_start_ok n isnL isnR → net_inv isnL isnR n.
Proof.
  assert (∀ a b isn isn', opened (conn a) isn isn' → opened (conn b) isn' isn → wr a = WIdle →
    written a = [] → half_inv isn a b []) as H.
  { intros a b isn isn' Ho Ho' Hw Hn. split; [exists []; by eapply opened_inv|set_solver|].
    split; rewrite ?Hn.
    - exists 0%nat, []. split; try done; try apply Ho'. rewrite (op_exp _ _ _ Ho'). f_equal. simpl. lia.
    - by rewrite (op_fin _ _ _ Ho').
    - intros _. apply Ho'. }
  intros (Ho & Ho' & Hw & Hw' & Hn & Hn' & Ht & Ht'). split; rewrite ?Ht, ?Ht'; eapply H; eauto.
Qed.

Lemma net_reach_inv n0 n isnL isnR :
  net_start_ok n0 isnL isnR → net_reach n0 n → bounded n → net_inv isnL isnR n.
Proof.
  intros H0. induction 1 as [|n o _ IH Ha|n o _ IH Ha]; intros Hb.
  - by apply start_inv.
  - pose proof (net_step_bounded n o Hb) as Hb'. by apply net_step_inv; auto.
  - apply bounded_swap in Hb as Hb'. change (bounded (net_step (swap n) o)) in Hb'.
    pose proof (net_step_bounded (swap n) o Hb') as Hb2.
    apply (net_inv_swap isnR isnL), net_step_inv; auto.
    apply net_inv_swap, IH. by apply bounded_swap in Hb2.
Qed.

(** C1. What arrives is what was sent, while no write is interrupted.  Two open
    endpoints run concurrently, with writes of any size, partial reads, delayed
    ACKs, retransmissions, zero windows, holds and closes, over a network that
    delays, reorders, duplicates and loses packets at will.  Three conditions
    bound the runs: neither application closes its side while one of its own
    writes is in progress; the tail flusher sends only while the connection is
    established (the code takes SendMu but does not check the state:
    [flusher_reuses_aborted_sequence] is the run left out, and it breaks the
    stream); and each side writes fewer than 2^31 bytes in all.  Then, at every
    moment, the bytes one application has read or can read are a prefix of the
    bytes the other has had accepted, in both directions.  (A segment that looks
    like a SACK block is dropped and the prefix ends there, see
    [sack_lookalike_is_lost].) *)
Theorem end_to_end_integrity n0 n isnL isnR :
  net_start_ok n0 isnL isnR → net_reach n0 n → bounded n →
  out (rx (conn (right n))) `prefix_of` written (left n) ∧
  out (rx (conn (left n))) `prefix_of` written (right n).
Proof.
  intros H0 Hr Hb. destruct (net_reach_inv _ _ _ _ H0 Hr Hb) as [[_ _ H1] [_ _ H2]].
  destruct (rv_rinv _ _ _ H1) as (k1 & ? & R1). destruct (rv_rinv _ _ _ H2) as (k2 & ? & R2).
  rewrite (ri_out _ _ _ _ _ R1), (ri_out _ _ _ _ _ R2). split; apply prefix_take.
Qed.

(** C2. An end of stream is complete, in the same runs as
    [end_to_end_integrity]: no application closes while one of its own writes is
    in progress (the code allows it, and then sends the FIN before the rest of
    that write), the tail flusher sends only while the connection is established,
    and each side writes fewer than 2^31 bytes.  When a packet moves an endpoint
    from the established state to TIME_WAIT, which closes its receive buffer and
    is how its application sees the end of the stream, every byte the other
    application has had accepted has been delivered: a FIN that overtakes data is
    held, and one that does not is believed.  (The other ways out are an RST, the
    application's own close and the expiry of the hold.) *)
Theorem eof_is_complete n0 n isnL isnR now pkt reads :
  net_start_ok n0 isnL isnR → net_reach n0 n → bounded n → pkt ∈ toLeft n →
  State (conn (left n)) = StateEstablished →
  State (conn (left (net_step n (EPacket now pkt reads)))) = StateTimeWait →
  out (rx (conn (left (net_step n (EPacket now pkt reads))))) = written (right n).
Proof.
  intros H0 Hr Hb Hin He Ht. destruct (net_reach_inv _ _ _ _ H0 Hr Hb) as [[(sent & Hi) _ _] [_ Hw Hx]].
  destruct (step_rx _ _ _ _ _ (EPacket now pkt reads) Hi I (proj2 Hb) isnR Hw Hx Hin) as (_ & _ & H).
  revert Ht H. unfold net_step. destruct (ep_step (left n) _) as [a' o]. simpl. intros Ht H. by apply H.
Qed.
End EndToEnd.

(** ** A run: the right endpoint writes three bytes and closes *)
Module Demo.
#[local] Existing Instance documented_protocol.

Definition conn0 (id : Z) : Connection :=
  startRetxLoop (set_rx (set_SendSeq (set_State (newConn id 80 (mkAddr 0 2) 80 100) StateEstablished) 1)
    (receiver_at 1)).
Definition n0 : Net := mkNet (mkEndpoint (conn0 1) WIdle []) (mkEndpoint (conn0 2) WIdle []) [] [].

(** The [i]-th packet on a wire arrives. *)
Definition arrive (w : list Packet) (i : nat) (now : gotime) : ep_op :=
  EPacket now (nth i w (rstPacket (conn0 1))) [].
Definition rightDoes (n : Net) (o : ep_op) : Net := swap (net_step (swap n) o).

Definition n4 : Net := fold_left rightDoes
  [EWrite [1; 2; 3]; EWriter 200 WakeWindow true; EWriter 200 WakeWindow true; EWriter 200 WakeWindow true] n0.
Definition n5 : Net := net_step n4 (arrive (toLeft n4) 0 300).
Definition n6 : Net := rightDoes n5 (arrive (toRight n5) 0 400).
Definition n7 : Net := rightDoes n6 (EClose 500 false []).

Lemma start_ok : net_start_ok n0 1 1.
Proof. split_and!; try reflexivity; split; reflexivity. Defined.

Lemma reach4 : net_reach n0 n4.
Proof. do 4 (apply net_right; [|split; [vm_compute; (reflexivity || exact I)|exact I]]). apply net_start. Defined.

Lemma reach7 : net_reach n0 n7.
Proof.
  apply net_right; [|split; [vm_compute; reflexivity|exact I]].
  apply net_right; [|split; [exact I|vm_compute; left]].
  apply net_left; [|split; [exact I|vm_compute; left]]. apply reach4.
Defined.

Lemma end_to_end_integrity_witness :
  out (rx (conn (left n7))) = [1; 2; 3] ∧
  out (rx (conn (left n7))) `prefix_of` written (right n7) ∧
  out (rx (conn (right n7))) `prefix_of` written (left n7).
Proof.
  destruct (end_to_end_integrity n0 n7 1 1 start_ok reach7) as [H1 H2]; [split; vm_compute; reflexivity|].
  split; [vm_compute; reflexivity|]. split; [exact H2|exact H1].
Defined.

(** The FIN of the right endpoint. *)
Definition fin7 : Packet := nth 1 (toLeft n7) (rstPacket (conn0 1)).

Lemma eof_is_complete_witness :
  out (rx (conn (left (net_step n7 (EPacket 600 fin7 []))))) = written (right n7) ∧
  written (right n7) = [1; 2; 3].
Proof.
  split; [|vm_compute; reflexivity].
  refine (eof_is_complete n0 n7 1 1 600 fin7 [] start_ok reach7 _ _ _ _).
  - split; vm_compute; reflexivity.
  - vm_compute. right. left.
  - vm_compute. reflexivity.
  - vm_compute. reflexivity.
Defined.
End Demo.
