(* ===== verification/StreamTheorems.v ===== *)
(** * What the stream code promises, and where it does not keep the promise

    Theorems about Stream and Writer that need one endpoint only: the send
    buffer never overflows, and four situations in which the code does not do
    what its comments say. *)
From S2P Require Import Prelude SeqNum Sack Protocol Conn Sender SenderProofs.
From S2P Require Import Reassembly ReassemblyProofs Stream Writer Endpoint EndpointProofs EndToEnd.
Open Scope Z_scope.

Section Theorems.
Context {P : Protocol}.
Implicit Types (c : Connection) (pkt : Packet) (e : Endpoint).

Inductive ep_reach e0 : Endpoint → Prop :=
| ep_start : ep_reach e0 e0
| ep_next e o : ep_reach e0 e → ep_allowed e o → ep_reach e0 (fst (ep_step e o)).

(** ** The send buffer *)

Definition not_full (w : writer) : Prop := w ≠ WDone (Some ErrSendBufFull).

Lemma afterFlush_not_full c r t : not_full (afterFlush c r t).
Proof. unfold afterFlush. by repeat case_match. Qed.

Lemma writeStep_not_full isn e sent now ev ok :
  ep_inv isn e sent → not_full (wr e) → not_full (fst (fst (writeStep (wr e) (conn e) now ev ok))).
Proof.
  intros Hi Hn. pose proof (ei_buf _ _ _ Hi) as Hb.
  destruct (wr e) as [|r t|r t|r|seg k n|err]; cbn [writeStep]; try done.
  - unfold bufferPiece. cbv zeta. set (m := if _ <? blen r then _ else _).
    assert (blen (take m r) <= nagleWritePiece) as Hm.
    { unfold m, blen. rewrite length_take. case_zif; unfold nagleWritePiece, SendSegmentSize, blen in *; lia. }
    case_zif; [|done]. specialize (Hb I).
    unfold MaxNagleBuf, nagleWritePiece, SendSegmentSize, MaxSegmentSize in *. lia.
  - destruct (flushStep _ _ _) as [[] c']; try done; apply afterFlush_not_full.
  - by destruct r.
  - case_zif.
    + unfold sendNow. destruct (transmitSegment _ _ _ _) as [[c' p] b].
      repeat case_match; try done; apply afterFlush_not_full.
    + unfold sendWait. by repeat case_match.
Qed.

(** A write is never refused for lack of room.  From an open connection
    on, whatever is written, received, acknowledged or lost and however writes,
    timers and the tail flusher interleave, no write ever returns
    [ErrSendBufFull]: with one write at a time and large writes fed through in
    pieces, the buffer is below a segment whenever a piece is added. *)
Theorem send_buffer_never_full isn peer e0 e :
  opened (conn e0) isn peer → wr e0 = WIdle → written e0 = [] → ep_reach e0 e →
  wr e ≠ WDone (Some ErrSendBufFull).
Proof.
  intros Ho Hw Hn Hr. assert ((∃ sent, ep_inv isn e sent) ∧ not_full (wr e)) as [_ ?]; [|done].
  induction Hr as [|e o _ ((sent & Hi) & Hf) Ha].
  - split; [exists []; by eapply opened_inv|by rewrite Hw].
  - destruct (ep_step_progress _ _ _ _ Hi Ha) as (k & Hk & _). split; [by exists (sent ++ k)|].
    destruct o as [data|now ev ok|now force ok|now pkt reads| |now rnd| |now stopping oks|now|now idle];
      cbn [ep_step] in *; try done.
    + unfold startWrite. by repeat case_match.
    + pose proof (writeStep_not_full isn e sent now ev ok Hi Hf).
      by destruct (writeStep _ _ _ _ _) as [[w c'] out].
    + by destruct (flushHeldTail _ _ _ _) as [[b c'] out].
    + by destruct (retxTick _ _ _) as [[b c'] out].
Qed.

(** ** Empty ACKs *)

(** Established, with nothing in flight and no FIN held. *)
Definition at_rest c : Prop :=
  State c = StateEstablished ∧ Unacked (tx c) = [] ∧ heldFIN c = None.

Lemma ackPhase_silent c now pkt :
  at_rest c → snd (ackPhase c now pkt) = [] ∧ at_rest (fst (ackPhase c now pkt)).
Proof.
  intros (Hs & Hu & Hh). unfold ackPhase. cbv zeta. set (c1 := set_KeepaliveUnacked _ 0).
  destruct (updatePeerWin c1 (Window pkt)) as [prev c2] eqn:E2.
  assert (Unacked (tx c2) = [] ∧ heldFIN c2 = None ∧ State c2 = StateEstablished) as (Hu2 & Hh2 & Hs2).
  { revert E2. unfold updatePeerWin. cbv zeta. intros [= <- <-]. split; [|done].
    cbn [tx set_tx]. case_zif; exact Hu. }
  destruct (ProcessAck c2 _ _ _) as [c3 retx] eqn:E3. apply ProcessAck_tx in E3 as [(s & st & -> & Hf) Hr].
  cbn [tx set_Stats set_tx] in Hr. rewrite Hu2 in Hf.
  assert (Unacked s = []) as Hu3.
  { destruct (Unacked s) as [|y l] eqn:E; [done|]. destruct (Hf y) as (? & ? & _); set_solver. }
  unfold releaseHeldFINIfAcked. cbn [heldFIN set_Stats set_tx]. rewrite Hh2. cbn [fst snd].
  split; [|done]. rewrite app_nil_r. destruct retx as [q|]; [|done]. exfalso.
  destruct (Hr q eq_refl) as (x & Hx & _). rewrite Hu3 in Hx. set_solver.
Qed.

Lemma ack_flags pkt :
  pkFlags pkt = FlagACK →
  HasFlag pkt FlagSYN = false ∧ HasFlag pkt FlagFIN = false ∧ HasFlag pkt FlagRST = false ∧
  HasFlag pkt FlagACK = true.
Proof.
  intros Hp. pose proof flags_disjoint as (H1 & H2 & H3 & H4 & H5 & H6).
  pose proof flags_single as (_ & Ha & _).
  rewrite !HasFlag_spec, Hp, (Z.land_comm FlagACK FlagSYN), H1, H4, H5, Z.land_diag.
  split_and!; try done. apply Z.eqb_neq in Ha. by rewrite Ha.
Qed.

(** An empty ACK to an endpoint at rest is not answered. *)
Lemma empty_ack_silent c now pkt reads :
  at_rest c → pkFlags pkt = FlagACK → Payload pkt = [] →
  snd (handlePacket c now pkt reads) = [] ∧ at_rest (fst (handlePacket c now pkt reads)) ∧
  rx (fst (handlePacket c now pkt reads)) = rx c.
Proof.
  intros Hc Hp He. unfold handlePacket. destruct (ack_flags pkt Hp) as (-> & -> & -> & ->).
  cbn [andb]. unfold handleACK. destruct (ackPhase_silent c now pkt Hc) as [Ho Hc'].
  destruct (ackPhase_calm c now pkt False) as (_ & _ & Hx & _).
  { intros f. by rewrite (proj2 (proj2 Hc)). }
  cbv zeta in *. destruct (ackPhase c now pkt) as [c1 out]. cbn [fst snd] in *.
  rewrite He. change (DecodeSACK []) with (@None (list SACKBlock)). cbn iota. by subst out.
Qed.

(** What happens at the reader meanwhile: it reads, or a probe comes. *)
Inductive rest_op := RestRead | RestProbe (now : gotime) (pkt : Packet) (reads : list nat).
Definition rest_step c (o : rest_op) : Connection * list Output :=
  match o with
  | RestRead => (set_rx c (recv1 (rx c)), [])
  | RestProbe now pkt reads => handlePacket c now pkt reads
  end.
Fixpoint rest_run c (ops : list rest_op) : Connection * list Output :=
  match ops with
  | [] => (c, [])
  | o :: ops =>
      let '(c, out) := rest_step c o in let '(c, out') := rest_run c ops in (c, out ++ out')
  end.
Definition is_probe (o : rest_op) : Prop :=
  match o with RestRead => True | RestProbe _ pkt _ => pkFlags pkt = FlagACK ∧ Payload pkt = [] end.

Lemma rest_run_silent ops : ∀ c,
  at_rest c → Forall is_probe ops → snd (rest_run c ops) = [] ∧ at_rest (fst (rest_run c ops)).
Proof.
  induction ops as [|o ops IH]; intros c Hc Hp; [done|].
  apply Forall_cons in Hp as [Ho Hp]. cbn [rest_run].
  assert (snd (rest_step c o) = [] ∧ at_rest (fst (rest_step c o))) as [H1 H2].
  { destruct o as [|now pkt reads]; [done|]. destruct Ho as [Hf He].
    destruct (empty_ack_silent c now pkt reads Hc Hf He) as (? & ? & _). done. }
  destruct (rest_step c o) as [c1 out]. cbn [fst snd] in *. subst out.
  destruct (IH c1 H2 Hp) as [H3 H4]. by destruct (rest_run c1 ops).
Qed.

(** [n] probe timers in a row at a writer. *)
Fixpoint probe_run (n : nat) (w : writer) c now : writer * Connection :=
  match n with
  | O => (w, c)
  | S n => let '(w, c, _) := writeStep w c now WakeProbe true in probe_run n w c now
  end.

Lemma probes_abort c seg k now : ∀ n m,
  WindowAvailable (tx c) = false → (n + m = 30)%nat → (0 < n)%nat →
  probe_run n (WSend seg k (Z.of_nat m)) c now =
    (WDone (Some ErrConnClosed), set_State c StateClosed).
Proof.
  induction n as [|n IH]; intros m Hw Hn H0; [lia|]. cbn [probe_run writeStep]. rewrite Hw.
  cbn [sendWait]. unfold MaxZeroWindowProbes. destruct (Z.leb_spec 30 (Z.of_nat m + 1)).
  - assert (n = 0%nat) as -> by lia. done.
  - replace (Z.of_nat m + 1) with (Z.of_nat (S m)) by lia. apply IH; [done|lia|lia].
Qed.

(** A closed window is never reopened.  A writer faces a window of zero
    with nothing in flight: it sends zero-window probes, empty ACKs, "to trigger
    a window update".  The reader, at rest (and with no delayed ACK pending), may
    read everything and has room again, but answers no probe and sends nothing when its application reads;
    so whatever the reader does, nothing comes back, and after 30 probes the
    writer aborts the connection with an error. *)
Theorem closed_window_is_never_reopened cA cB seg k now ops :
  PeerRecvWin (tx cA) = 0 → at_rest cB → Forall is_probe ops →
  snd (rest_run cB ops) = [] ∧
  probe_run 30 (WSend seg k 0) cA now = (WDone (Some ErrConnClosed), set_State cA StateClosed).
Proof.
  intros Hw Hc Hp. split; [by apply rest_run_silent|].
  apply (probes_abort cA seg k now 30 0); [|lia..].
  unfold WindowAvailable. rewrite Hw. case_zif; [done|].
  change ((0 <=? 0) && (Z.quot 0 SendSegmentSize <=? nUnacked (tx cA))) with (0 <=? nUnacked (tx cA)).
  case_zif; [done|]. unfold nUnacked in *. lia.
Qed.

(** ** SACK-like payloads *)

(** A segment that looks like a SACK is never delivered.  Data is told from
    SACK blocks by its contents alone: an in-order segment whose bytes decode as
    SACK blocks changes neither the receiver nor its cumulative ACK, however
    often it is retransmitted, so the sender's stream stops there. *)
Theorem sack_lookalike_is_lost c now pkt reads blocks :
  held_ok c → pkFlags pkt = FlagACK → Seq pkt = ExpectedSeq (rx c) →
  DecodeSACK (Payload pkt) = Some blocks →
  rx (fst (handlePacket c now pkt reads)) = rx c ∧
  RecvAck (fst (handlePacket c now pkt reads)) = RecvAck c.
Proof.
  intros Hh Hp _ Hd. unfold handlePacket. destruct (ack_flags pkt Hp) as (-> & -> & -> & ->).
  cbn [andb]. unfold handleACK. destruct (ackPhase_calm c now pkt False Hh) as (_ & _ & Hx & _).
  assert (RecvAck (fst (ackPhase c now pkt)) = RecvAck c) as Hr.
  { unfold ackPhase, updatePeerWin. cbv zeta.
    destruct (ProcessAck _ _ _ _) as [c3 retx] eqn:E3. apply ProcessAck_tx in E3 as [(s & st & -> & _) _].
    unfold releaseHeldFINIfAcked, releaseHeldFIN. cbn [heldFIN set_Stats set_tx].
    destruct (heldFIN _); [|done]. case_zif; [done|]. cbv zeta. by case_zif. }
  cbv zeta in *. destruct (ackPhase c now pkt) as [c1 out]. cbn [fst snd] in *. rewrite Hd. cbn [fst].
  destruct (ProcessSACK_tx c1 blocks) as (s & t & -> & _). done.
Qed.

(** ** The tail flusher after an abort *)

(** An abort can shift the stream.  When the probe limit aborts a write, the
    segment in the writer's hand is dropped but its sequence numbers are not
    used up, and what is left in the Nagle buffer stays.  A tail flusher that
    was already waiting then sends that remainder with the sequence number of
    the dropped segment: on a peer that missed the RST, the bytes land where the
    dropped ones belong. *)
Theorem flusher_reuses_aborted_sequence c seg k b now ok :
  WindowAvailable (tx c) = false → NagleBuf c = b → b ≠ [] → blen b < SendSegmentSize →
  let '(w, c1, _) := writeStep (WSend seg k 29) c now WakeProbe ok in
  let '(_, _, out) := flushHeldTail c1 now true ok in
  w = WDone (Some ErrConnClosed) ∧ State c1 = StateClosed ∧
  ∃ pkt, OSend (Node (RemoteAddr c)) pkt ∈ out ∧ Seq pkt = SendSeq c ∧ Payload pkt = b.
Proof.
  intros Hw Hb Hne Hl. cbn [writeStep]. rewrite Hw. cbn [sendWait]. unfold MaxZeroWindowProbes.
  change (30 <=? 29 + 1) with true. cbn iota. unfold flushHeldTail, flushStep.
  cbn [NagleBuf set_State]. rewrite Hb. destruct b as [|x b]; [done|]. set (l := x :: b) in *.
  case_zif; [lia|]. cbn [negb andb]. set (c2 := set_tailFlusher _ false).
  pose proof (transmit_frame c2 now l ok) as Hf.
  assert (RemoteAddr (fst (fst (transmitSegment c2 now l ok))) = RemoteAddr c) as Hra.
  { unfold transmitSegment. by case_zif. }
  destruct (transmitSegment c2 now l ok) as [[c3 pkt] z].
  destruct Hf as (_ & _ & _ & _ & _ & _ & _ & _ & _ & _ & Hsq & Hpl). cbn [fst] in Hra.
  split; [done|]. split; [done|]. exists pkt. rewrite Hra. split; [by left|done].
Qed.
End Theorems.

Module Demo.
#[local] Existing Instance documented_protocol.
Import EndToEnd.Demo.

Definition e0 : Endpoint := mkEndpoint (conn0 1) WIdle [].
Definition e3 : Endpoint := fold_left (λ e o, fst (ep_step e o))
  [EWrite [1; 2; 3]; EWriter 200 WakeWindow true; EWriter 200 WakeWindow true] e0.

Lemma send_buffer_never_full_witness : hand (wr e3) = [1; 2; 3] ∧ wr e3 ≠ WDone (Some ErrSendBufFull).
Proof.
  split; [vm_compute; reflexivity|].
  apply (send_buffer_never_full 1 1 e0 e3); [split; reflexivity|reflexivity|reflexivity|].
  do 3 (apply ep_next; [|vm_compute; (reflexivity || exact I)]). apply ep_start.
Defined.

(** A sender that was told a zero window, and the probe it sends. *)
Definition shut : Connection := set_tx (conn0 1) (set_PeerRecvWin (tx (conn0 1)) 0).
Definition probe0 : Packet := connPacket shut FlagACK (SendSeq shut) 1 512 [].

Lemma closed_window_is_never_reopened_witness :
  snd (rest_run (conn0 2) [RestRead; RestProbe 300 probe0 []; RestRead; RestProbe 800 probe0 []]) = [] ∧
  fst (probe_run 30 (WSend [1] (KFlush true [] false) 0) shut 900) = WDone (Some ErrConnClosed).
Proof.
  destruct (closed_window_is_never_reopened shut (conn0 2) [1] (KFlush true [] false) 900
    [RestRead; RestProbe 300 probe0 []; RestRead; RestProbe 800 probe0 []]) as [H1 H2].
  - reflexivity.
  - split; [reflexivity|]. split; reflexivity.
  - repeat constructor.
  - split; [exact H1|]. rewrite H2. reflexivity.
Defined.

(** The bytes of a SACK block, written by an application. *)
Definition lookalike : bytes := EncodeSACK [mkSACKBlock 1 2].
Definition seg0 : Packet := connPacket (conn0 1) FlagACK 1 1 512 lookalike.

Lemma sack_lookalike_is_lost_witness :
  lookalike ≠ [] ∧ rx (fst (handlePacket (conn0 2) 300 seg0 [])) = rx (conn0 2).
Proof.
  split; [vm_compute; discriminate|].
  apply (sack_lookalike_is_lost (conn0 2) 300 seg0 [] [mkSACKBlock 1 2]).
  - intros f H. discriminate H.
  - reflexivity.
  - reflexivity.
  - vm_compute. reflexivity.
Defined.

Lemma flusher_reuses_aborted_sequence_witness :
  ∃ pkt, OSend (Node (RemoteAddr shut)) pkt ∈
           snd (flushHeldTail (set_State (set_NagleBuf shut [9]) StateClosed) 900 true true) ∧
         Seq pkt = SendSeq shut ∧ Payload pkt = [9].
Proof.
  exact (proj2 (proj2 (flusher_reuses_aborted_sequence (set_NagleBuf shut [9]) [1; 2] (KFlush false [] false)
    [9] 900 true eq_refl eq_refl ltac:(discriminate) eq_refl))).
Defined.
End Demo.
