(* ===== verification/Float64.v ===== *)
(** * float64 as Go computes with it

    The operations the rate limiters use, on the Standard Library's [SpecFloat]
    at Go's precision, the conversion to int and what bounds it: [below k f] says
    that [f] is finite and smaller than [2^k] in absolute value.  Each operation
    rounds once, so each costs at most one power of two. *)
From Stdlib Require Import SpecFloat.
From S2P Require Import Prelude.
Open Scope Z_scope.

Definition float64_of_Z (z : Z) : spec_float := binary_normalize 53 1024 z 0 false.

(** The integer part of a finite [f]. *)
Definition trunc64 (f : spec_float) : Z :=
  match f with
  | S754_finite s m e =>
      let v := if 0 <=? e then Z.shiftl (Zpos m) e else Z.shiftr (Zpos m) (- e) in
      if s then - v else v
  | _ => 0
  end.

(** [int(f)], int being 64 bits wide.  The language leaves open what a value
    outside the range gives; amd64's instruction gives the smallest int. *)
Definition int_of_float64 (f : spec_float) : Z :=
  match f with
  | S754_infinity _ | S754_nan => minDuration
  | _ => let v := trunc64 f in if (minDuration <=? v) && (v <=? maxDuration) then v else minDuration
  end.

(** [d.Seconds()] *)
Definition Seconds (d : duration) : spec_float :=
  SFadd 53 1024 (float64_of_Z (Z.quot d Second))
    (SFdiv 53 1024 (float64_of_Z (Z.rem d Second)) (float64_of_Z 1000000000)).

(** ** Digits *)

Lemma digits_pos p : 2 ^ (Zpos (digits2_pos p) - 1) <= Zpos p < 2 ^ Zpos (digits2_pos p).
Proof.
  induction p as [p IH|p IH|]; cbn [digits2_pos]; [..|done].
  all: rewrite Pos2Z.inj_succ; replace (Z.succ (Zpos (digits2_pos p)) - 1) with (Z.succ (Zpos (digits2_pos p) - 1)) by lia;
    rewrite !Z.pow_succ_r by lia; rewrite ?(Pos2Z.inj_xI p), ?(Pos2Z.inj_xO p); lia.
Qed.

Lemma digits_nonneg z : 0 <= Zdigits2 z.
Proof. by destruct z. Qed.

Lemma digits_le z k : 0 <= k → Zdigits2 z <= k ↔ Z.abs z < 2 ^ k.
Proof.
  intros Hk. pose proof (Z.pow_pos_nonneg 2 k ltac:(lia) Hk) as Hp.
  assert (∀ p, Zpos (digits2_pos p) <= k ↔ Zpos p < 2 ^ k) as H.
  { intros p. pose proof (digits_pos p) as [H1 H2]. split; intros H.
    - pose proof (Z.pow_le_mono_r 2 (Zpos (digits2_pos p)) k). lia.
    - assert (Zpos (digits2_pos p) - 1 < k); [|lia]. apply (Z.pow_lt_mono_r_iff 2); lia. }
  destruct z as [|p|p]; cbn; [lia|apply H|apply H].
Qed.

Lemma digits_small z k : 0 <= k → Z.abs z < 2 ^ k → Zdigits2 z <= k.
Proof. intros. by apply digits_le. Qed.
Lemma digits_large z : Z.abs z < 2 ^ Zdigits2 z.
Proof. by apply digits_le; [apply digits_nonneg|]. Qed.

(** ** Rounding *)

Lemma shr_1_digits mrs : 0 <= shr_m mrs →
  0 <= shr_m (shr_1 mrs) ∧ Zdigits2 (shr_m (shr_1 mrs)) <= Z.max 0 (Zdigits2 (shr_m mrs) - 1).
Proof.
  destruct mrs as [[|[p|p|]|p] r s]; cbn; try lia; intros _; rewrite ?Pos2Z.inj_succ; lia.
Qed.

Lemma iter_shr_digits p : ∀ mrs, 0 <= shr_m mrs →
  0 <= shr_m (SpecFloat.iter_pos shr_1 p mrs) ∧
  Zdigits2 (shr_m (SpecFloat.iter_pos shr_1 p mrs)) <= Z.max 0 (Zdigits2 (shr_m mrs) - Zpos p).
Proof.
  induction p as [p IH|p IH|]; intros mrs H; cbn [SpecFloat.iter_pos]; [| |by apply shr_1_digits].
  - destruct (shr_1_digits _ H) as [H1 D1]. destruct (IH _ H1) as [H2 D2]. destruct (IH _ H2) as [H3 D3].
    split; [done|]. rewrite (Pos2Z.inj_xI p). lia.
  - destruct (IH _ H) as [H2 D2]. destruct (IH _ H2) as [H3 D3].
    split; [done|]. rewrite (Pos2Z.inj_xO p). lia.
Qed.

Lemma shr_fexp_digits m e l k mrs e' :
  0 <= m → Zdigits2 m + e <= k → -1074 <= k → shr_fexp 53 1024 m e l = (mrs, e') →
  0 <= shr_m mrs ∧ Zdigits2 (shr_m mrs) + e' <= k.
Proof.
  intros Hm Hd Hk. unfold shr_fexp, shr, fexp, emin.
  assert (shr_m (shr_record_of_loc m l) = m) as E by (by destruct l as [|[]]).
  destruct (Z.max _ _ - e) as [|p|p] eqn:En; intros [= <- <-]; rewrite ?E; try done.
  destruct (iter_shr_digits p (shr_record_of_loc m l)) as [H1 H2]; rewrite ?E in *; [done|].
  split; [done|]. pose proof (digits_nonneg m). lia.
Qed.

Lemma digits_succ m : 0 <= m → Zdigits2 (m + 1) <= Zdigits2 m + 1.
Proof.
  intros H. pose proof (digits_nonneg m). pose proof (digits_large m). apply digits_small; [lia|].
  rewrite Z.pow_add_r by lia. lia.
Qed.

Definition below (k : Z) (f : spec_float) : Prop :=
  match f with
  | S754_zero _ => True
  | S754_finite _ m e => Zdigits2 (Zpos m) + e <= k
  | _ => False
  end.

Lemma round_aux_below s m e l k :
  0 <= m → Zdigits2 m + e <= k → -1074 <= k <= 970 → below (k + 1) (binary_round_aux 53 1024 s m e l).
Proof.
  intros Hm Hd Hk. unfold binary_round_aux.
  destruct (shr_fexp 53 1024 m e l) as [r1 e1] eqn:E1.
  destruct (shr_fexp_digits _ _ _ k _ _ Hm Hd ltac:(lia) E1) as [H1 D1].
  assert (0 <= round_nearest_even (shr_m r1) (loc_of_shr_record r1) ∧
    Zdigits2 (round_nearest_even (shr_m r1) (loc_of_shr_record r1)) + e1 <= k + 1) as [H2 D2].
  { pose proof (digits_succ _ H1). unfold round_nearest_even. repeat case_match; lia. }
  destruct (shr_fexp 53 1024 _ e1 loc_Exact) as [r2 e2] eqn:E2.
  destruct (shr_fexp_digits _ _ _ (k + 1) _ _ H2 D2 ltac:(lia) E2) as [H3 D3].
  destruct (shr_m r2) as [|p|p]; [done| |lia]. cbn in D3 |- *. case_zif; cbn; lia.
Qed.

Lemma digits_iter_xO mx d : Zdigits2 (Zpos (Pos.iter xO mx d)) = Zdigits2 (Zpos mx) + Zpos d.
Proof.
  revert mx. induction d as [|d IH] using Pos.peano_ind; intros mx; [cbn; lia|].
  rewrite Pos.iter_succ. cbn in *. rewrite !Pos2Z.inj_succ, IH. lia.
Qed.

Lemma shl_align_digits mx ex ex' mz ez :
  shl_align mx ex ex' = (mz, ez) → Zdigits2 (Zpos mz) + ez = Zdigits2 (Zpos mx) + ex.
Proof.
  unfold shl_align. destruct (ex' - ex) as [|d|d] eqn:E; intros [= <- <-]; [done..|]. rewrite digits_iter_xO. lia.
Qed.

Lemma binary_normalize_below m e b k :
  Zdigits2 m + e <= k → -1074 <= k <= 970 → below (k + 1) (binary_normalize 53 1024 m e b).
Proof.
  intros Hd Hk. destruct m as [|p|p]; cbn [binary_normalize below]; [done|..].
  all: unfold binary_round; destruct (shl_align _ _ _) as [mz ez] eqn:E; apply shl_align_digits in E;
    apply round_aux_below; [done| |done]; unfold Zdigits2 in *; lia.
Qed.

Lemma float64_below z k : 0 <= k <= 970 → Z.abs z < 2 ^ k → below (k + 1) (float64_of_Z z).
Proof. intros Hk Hz. apply binary_normalize_below; [|lia]. rewrite Z.add_0_r. by apply digits_small; [lia|]. Qed.

(** ** The operations *)

Lemma below_weaken k k' f : k <= k' → below k f → below k' f.
Proof. destruct f; cbn; lia || done. Qed.

Lemma mul_below k k' f g :
  below k f → below k' g → -1074 <= k + k' <= 970 → below (k + k' + 1) (SFmul 53 1024 f g).
Proof.
  destruct f as [| | |s m e], g as [| | |s' m' e']; try done. intros Hf Hg Hk. cbn [SFmul].
  apply round_aux_below; [done| |done]. unfold below in Hf, Hg.
  enough (Zdigits2 (Zpos (m * m')) <= Zdigits2 (Zpos m) + Zdigits2 (Zpos m')) by lia.
  pose proof (digits_large (Zpos m)). pose proof (digits_large (Zpos m')).
  apply digits_small; [done|]. rewrite Z.pow_add_r by done. rewrite Pos2Z.inj_mul. nia.
Qed.

Lemma add_below k f g :
  below k f → below k g → -1074 <= k <= 969 → below (k + 2) (SFadd 53 1024 f g).
Proof.
  destruct f as [s| | |s m e], g as [s'| | |s' m' e']; try done; intros Hf Hg Hk; cbn [SFadd].
  - by destruct s, s'.
  - by eapply below_weaken; [|exact Hg]; lia.
  - by eapply below_weaken; [|exact Hf]; lia.
  - replace (k + 2) with (k + 1 + 1) by lia. apply binary_normalize_below; [|lia]. unfold below in Hf, Hg.
    set (ez := Z.min e e'). set (a := cond_Zopp s _). set (b := cond_Zopp s' _).
    assert (∀ mx ex, ez <= ex → Zdigits2 (Zpos mx) + ex <= k → Zpos (fst (shl_align mx ex ez)) < 2 ^ (k - ez)) as H.
    { intros mx ex He Hd. destruct (shl_align mx ex ez) as [mz z] eqn:E. cbn [fst]. pose proof E as E'.
      apply shl_align_digits in E. assert (z = ez) as ->.
      { revert E'. unfold shl_align. destruct (ez - ex) eqn:?; intros [= _ <-]; lia. }
      pose proof (digits_nonneg (Zpos mx)).
      apply (digits_le (Zpos mz)); lia. }
    pose proof (H m e ltac:(lia) Hf). pose proof (H m' e' ltac:(lia) Hg). pose proof (digits_nonneg (Zpos m)).
    pose proof (digits_nonneg (Zpos m')).
    enough (Zdigits2 (a + b) <= k - ez + 1) by lia. apply digits_small; [lia|]. rewrite Z.pow_add_r by lia.
    unfold a, b, cond_Zopp. destruct s, s'; lia.
Qed.

Lemma div_below k j f s' m' e' :
  below k f → j <= Zdigits2 (Zpos m') + e' → -1074 <= k - j + 1 <= 970 →
  below (k - j + 2) (SFdiv 53 1024 f (S754_finite s' m' e')).
Proof.
  destruct f as [s| | |s m e]; try done. intros Hf Hj Hk. cbn [SFdiv].
  destruct (SFdiv_core_binary _ _ _ _ _ _) as [[q z] l] eqn:E. replace (k - j + 2) with (k - j + 1 + 1) by lia.
  unfold below in Hf. revert E. unfold SFdiv_core_binary, fexp, emin.
  set (d1 := Zdigits2 (Zpos m)) in *. set (d2 := Zdigits2 (Zpos m')) in *.
  set (z0 := Z.min _ (e - e')). assert (z0 = Z.min (Z.max (d1 + e - (d2 + e') - 53) (3 - 1024 - 53)) (e - e')) as Ez
    by reflexivity. clearbody z0. set (w := match _ with Z0 => _ | _ => _ end).
  assert (w = Zpos m * 2 ^ (e - e' - z0)) as Ew.
  { unfold w. destruct (e - e' - z0) eqn:?; [cbn; lia|apply Z.shiftl_mul_pow2; lia|lia]. }
  pose proof (Z.div_mod w (Zpos m') ltac:(lia)) as Hdm. pose proof (Z.mod_pos_bound w (Zpos m') ltac:(lia)) as Hmb.
  unfold Z.div, Z.modulo in *. destruct (Z.div_eucl w (Zpos m')) as [q' r']. intros [= -> <- _]. rename z0 into z.
  assert (0 <= w) by (rewrite Ew; apply Z.mul_nonneg_nonneg; lia).
  assert (0 <= q) as Hq by nia. apply round_aux_below; [done| |done].
  enough (Zdigits2 q <= Z.max 0 (d1 + (e - e' - z) - d2 + 1)) by lia.
  apply digits_small; [lia|]. rewrite Z.abs_eq by done.
  pose proof (digits_large (Zpos m)) as D1. pose proof (digits_pos m') as [D2 _]. fold d1 in D1.
  change (Zpos (digits2_pos m')) with d2 in D2. cbn [Z.abs] in D1.
  assert (0 <= e - e' - z) as Hs by lia. pose proof (Z.pow_pos_nonneg 2 (e - e' - z) ltac:(lia) Hs).
  assert (1 <= d2) by (unfold d2; cbn; lia). assert (1 <= d1) by (unfold d1; cbn; lia).
  assert (w < 2 ^ (d1 + (e - e' - z))) as Hw by (rewrite Z.pow_add_r by lia; rewrite Ew; nia).
  assert (q * 2 ^ (d2 - 1) < 2 ^ (d1 + (e - e' - z))) as Hlt by nia.
  destruct (Z.le_gt_cases (d1 + (e - e' - z) - d2 + 1) 0) as [Hle|Hgt].
  - rewrite Z.max_l by done. pose proof (Z.pow_le_mono_r 2 (d1 + (e - e' - z)) (d2 - 1) ltac:(lia) ltac:(lia)).
    cbn. nia.
  - rewrite Z.max_r by lia. apply (Z.mul_lt_mono_pos_r (2 ^ (d2 - 1))); [apply Z.pow_pos_nonneg; lia|].
    rewrite <- Z.pow_add_r by lia. by replace (d1 + (e - e' - z) - d2 + 1 + (d2 - 1)) with (d1 + (e - e' - z)) by lia.
Qed.

Lemma trunc64_below k f : 0 <= k → below k f → Z.abs (trunc64 f) < 2 ^ k.
Proof.
  intros Hk. pose proof (Z.pow_pos_nonneg 2 k ltac:(lia) Hk). destruct f as [| | |s m e]; cbn [below trunc64]; try (cbn; lia).
  intros Hd. pose proof (digits_large (Zpos m)) as Hm. cbn [Z.abs] in Hm. pose proof (digits_nonneg (Zpos m)) as Hn.
  set (v := if 0 <=? e then _ else _). enough (0 <= v < 2 ^ k) by (destruct s; lia).
  unfold v. case_zif.
  - rewrite Z.shiftl_mul_pow2 by done. split; [lia|].
    apply Z.lt_le_trans with (2 ^ (Zdigits2 (Zpos m)) * 2 ^ e); [pose proof (Z.pow_pos_nonneg 2 e); nia|].
    rewrite <- Z.pow_add_r by lia. apply Z.pow_le_mono_r; lia.
  - rewrite Z.shiftr_div_pow2 by lia. pose proof (Z.pow_pos_nonneg 2 (- e) ltac:(lia) ltac:(lia)).
    split; [apply Z.div_pos; lia|]. apply Z.div_lt_upper_bound; [done|].
    rewrite <- Z.pow_add_r by lia. apply Z.lt_le_trans with (2 ^ Zdigits2 (Zpos m)); [done|].
    apply Z.pow_le_mono_r; lia.
Qed.

Lemma int_below k f : 0 <= k <= 62 → below k f → - 2 ^ k < int_of_float64 f < 2 ^ k.
Proof.
  intros Hk Hb. pose proof (trunc64_below k f ltac:(lia) Hb) as Ht.
  pose proof (Z.pow_le_mono_r 2 k 62 ltac:(lia) ltac:(lia)). change (2 ^ 62) with 4611686018427387904 in *.
  unfold int_of_float64, minDuration, maxDuration. destruct f; try done; case_zif; lia.
Qed.

(** A duration is less than [2^34] seconds. *)
Lemma Seconds_below d : minDuration <= d <= maxDuration → below 37 (Seconds d).
Proof.
  intros Hd. unfold minDuration, maxDuration in Hd. unfold Seconds. apply (add_below 35); [| |lia].
  - apply (float64_below _ 34); [lia|]. change (2 ^ 34) with 17179869184. unfold Second.
    pose proof (Z.quot_rem' d 1000000000). pose proof (Z.rem_bound_abs d 1000000000). lia.
  - set (f := float64_of_Z (Z.rem d Second)). assert (below 31 f) as Hf.
    { apply (float64_below _ 30); [lia|]. change (2 ^ 30) with 1073741824. unfold Second.
      pose proof (Z.rem_bound_abs d 1000000000). lia. }
    destruct (float64_of_Z 1000000000) as [| | |s m e] eqn:E; vm_compute in E; try done. injection E as <- <- <-.
    eapply below_weaken; [|apply (div_below 31 30)]; [lia|done|vm_compute; done|lia].
Qed.
