(* ===== verification/Admission.v ===== *)
(** * Who may connect (pkg/daemon/daemon.go: [allowSYN], [allowSYNFromSource],
    [reapPerSrcSYN], [SetSYNWhitelist], [isPortAllowed], [evaluatePortPolicy],
    [mergeNetworkPolicies], [isTrustedPeer], [admitDataPlanePeer];
    pkg/daemon/replywindow.go)

    The gates an inbound SYN has to pass: trust or a recent outbound contact,
    the network's port policy, and two token buckets.  The refill of a bucket
    is a product of two float64 numbers ([Float64]), converted to int; it and the
    sum with the tokens left are 64 bits wide and can overflow.  Handshake trust, the registry and
    the policy runners are behind interfaces; their answers are arguments. *)
From Stdlib Require Import SpecFloat.
From stdpp Require Import strings.
From S2P Require Import Prelude Float64 Protocol.
Open Scope Z_scope.

(** ** Token buckets *)

Record srcSYNBucket := mkBucket { tokens : Z; lastFill : gotime }.

(** The common body of the two gates: refill at [rate] per second up to [cap],
    and take a token if there is one. *)
Definition takeToken (b : srcSYNBucket) (now : gotime) (rate cap : Z) : bool * srcSYNBucket :=
  let elapsed := time_sub now (lastFill b) in
  let refill := int_of_float64 (SFmul 53 1024 (Seconds elapsed) (float64_of_Z rate)) in
  let b :=
    if (0 <? elapsed) && (0 <? refill) then
      let t := i64 (tokens b + refill) in mkBucket (if cap <? t then cap else t) now
    else b in
  if 0 <? tokens b then (true, mkBucket (tokens b - 1) (lastFill b)) else (false, b).

Record Config := mkConfig {
  Public : bool;
  StrictDataPlaneTrust : bool;
  SYNRateLimit : Z;
  MaxConnectionsPerPort : Z;
  MaxTotalConnections : Z;
}.
Definition DefaultSYNRateLimit : Z := 100.
Definition DefaultMaxConnectionsPerPort : Z := 1024.
Definition DefaultMaxTotalConnections : Z := 65536.
Definition perSourceSYNLimit : Z := 10.
Definition perSourceSYNBurst : Z := 64.
Definition maxPerSrcSYNEntries : Z := 4096.
Definition SYNBucketAge : duration := 10 * Second.

Definition synRateLimit (c : Config) : Z :=
  if 0 <? SYNRateLimit c then SYNRateLimit c else DefaultSYNRateLimit.
Definition maxConnectionsPerPort (c : Config) : Z :=
  if 0 <? MaxConnectionsPerPort c then MaxConnectionsPerPort c else DefaultMaxConnectionsPerPort.
Definition maxTotalConnections (c : Config) : Z :=
  if 0 <? MaxTotalConnections c then MaxTotalConnections c else DefaultMaxTotalConnections.

(** The limiter's state: the shared bucket ([synTokens], [synLastFill]), one
    bucket per source, and the whitelist. *)
Record Limiter := mkLimiter {
  syn : srcSYNBucket;
  perSrcSYN : gmap Z srcSYNBucket;
  synWhitelistAll : bool;
  synWhitelist : option (gset Z);
}.

Definition newLimiter (cfg : Config) (now : gotime) : Limiter :=
  mkLimiter (mkBucket (synRateLimit cfg) now) ∅ false None.

Definition allowSYN (cfg : Config) (l : Limiter) (now : gotime) : bool * Limiter :=
  let limit := synRateLimit cfg in
  let '(ok, b) := takeToken (syn l) now limit limit in
  (ok, mkLimiter b (perSrcSYN l) (synWhitelistAll l) (synWhitelist l)).

Definition with_perSrc (l : Limiter) (m : gmap Z srcSYNBucket) : Limiter :=
  mkLimiter (syn l) m (synWhitelistAll l) (synWhitelist l).

Definition allowSYNFromSource (l : Limiter) (srcNode : Z) (now : gotime) : bool * Limiter :=
  match perSrcSYN l !! srcNode with
  | None =>
      if maxPerSrcSYNEntries <=? Z.of_nat (size (perSrcSYN l)) then (false, l)
      else (true, with_perSrc l (<[srcNode := mkBucket (perSourceSYNBurst - 1) now]> (perSrcSYN l)))
  | Some b =>
      let '(ok, b) := takeToken b now perSourceSYNLimit perSourceSYNBurst in
      (ok, with_perSrc l (<[srcNode := b]> (perSrcSYN l)))
  end.

Definition reapPerSrcSYN (l : Limiter) (now : gotime) : Limiter :=
  with_perSrc l (filter (λ e, now - SYNBucketAge <= lastFill e.2) (perSrcSYN l)).

Definition SetSYNWhitelist (l : Limiter) (nodeIDs : list Z) : Limiter :=
  mkLimiter (syn l) (perSrcSYN l) (synWhitelistAll l)
    (Some (list_to_set (List.filter (λ id, negb (id =? 0)) nodeIDs))).
Definition SetSYNWhitelistMatchAll (l : Limiter) (on : bool) : Limiter :=
  mkLimiter (syn l) (perSrcSYN l) on (synWhitelist l).

Definition synWhitelisted (l : Limiter) (srcNode : Z) : bool :=
  synWhitelistAll l ||
  match synWhitelist l with Some wl => bool_decide (srcNode ∈ wl) | None => false end.

(** The two rate gates of [handleStreamPacket], in its order. *)
Inductive RateVerdict := RateOK | RateSource | RateGlobal.
Definition rateGate (cfg : Config) (l : Limiter) (srcNode : Z) (now : gotime)
  : RateVerdict * Limiter :=
  if synWhitelisted l srcNode then (RateOK, l)
  else
    let '(ok, l) := allowSYNFromSource l srcNode now in
    if negb ok then (RateSource, l)
    else let '(ok, l) := allowSYN cfg l now in if ok then (RateOK, l) else (RateGlobal, l).

(** ** The reply window (replywindow.go) *)

Definition replyWindow : duration := 300 * Second.
Definition maxReplyWindowPeers : Z := 4096.

(** [outboundContacts.at] *)
Abbreviation contacts := (gmap Z gotime) (only parsing).

Definition pruneLocked (o : contacts) (now : gotime) : contacts :=
  filter (λ e, time_sub now e.2 < replyWindow) o.

Definition note (o : contacts) (peer : Z) (now : gotime) : contacts :=
  if bool_decide (is_Some (o !! peer)) || (Z.of_nat (size o) <? maxReplyWindowPeers)
  then <[peer := now]> o
  else
    let o := pruneLocked o now in
    if maxReplyWindowPeers <=? Z.of_nat (size o) then o else <[peer := now]> o.

Definition recent (o : contacts) (peer : Z) (now : gotime) : bool :=
  match o !! peer with Some t => time_sub now t <? replyWindow | None => false end.

Section Admission.
Context {P : Protocol}.

Definition replyWindowPort (port : Z) : bool :=
  (port =? PortDataExchange) || (port =? PortHandshake).
Definition replyWindowAdmits (o : contacts) (srcNode dstPort : Z) (now : gotime) : bool :=
  replyWindowPort dstPort && recent o srcNode now.
End Admission.

(** ** Trust *)

(** What the handshake service and the registry say of a peer; [registry] is
    [None] with no client, and a failed lookup is [Some false]. *)
Record TrustView := mkTrust { handshakeTrusts : Z → bool; registry : option (Z → bool) }.

Definition registryTrusts (t : TrustView) (srcNode : Z) : bool :=
  match registry t with Some f => f srcNode | None => false end.

Definition isTrustedPeer (t : TrustView) (srcNode : Z) : bool :=
  handshakeTrusts t srcNode || registryTrusts t srcNode.

Definition admitDataPlanePeer (cfg : Config) (t : TrustView) (srcNode : Z) : bool :=
  negb (StrictDataPlaneTrust cfg) || Public cfg || isTrustedPeer t srcNode.

(** ** Network policy *)

Inductive PolicyEventType := PolicyEventConnect | PolicyEventDial | PolicyEventDatagram.

(** A policy runner (an interface; the implementation is a plugin). *)
Record PolicyRunner := mkRunner {
  NetworkID : Z;
  HasMember : Z → bool;
  (* event, port, peer, payload size, direction, local tags, node-info tags *)
  EvaluatePortGate : PolicyEventType → Z → Z → Z → string → list string → list string → bool;
}.

Record PolicyManager := mkPolicyManager { pmGet : Z → option PolicyRunner; pmAll : list PolicyRunner }.

Record PolicyState := mkPolicy {
  netPolicies : gmap Z (list Z);
  memberTags : gmap Z (list string);
  policyManager : option PolicyManager;
  nodeInfoTagsFor : Z → list string;
}.

Definition isPortAllowed (s : PolicyState) (netID port : Z) : bool :=
  match netPolicies s !! netID with
  | None | Some [] => true
  | Some ports => bool_decide (port ∈ ports)
  end.

Definition evaluatePortPolicy (s : PolicyState) (ev : PolicyEventType)
    (netID port peerNodeID payloadSize : Z) (direction : string) : bool :=
  match policyManager s with
  | None => isPortAllowed s netID port
  | Some pm =>
      let gate tagsOf pr := EvaluatePortGate pr ev port peerNodeID payloadSize direction
        (default [] (memberTags s !! tagsOf)) (nodeInfoTagsFor s peerNodeID) in
      let primary := match pmGet pm netID with Some pr => [gate netID pr] | None => [] end in
      let others := map (λ pr, gate (NetworkID pr) pr)
        (List.filter (λ pr, negb (NetworkID pr =? netID) && HasMember pr peerNodeID) (pmAll pm)) in
      match primary ++ others with
      | [] => isPortAllowed s netID port
      | verdicts => forallb id verdicts
      end
  end.

(** One network's fetch: the error, or the ports. *)
Definition netPolicyResult : Type := Z * option (list Z).

Definition mergeNetworkPolicies (prior : gmap Z (list Z)) (results : list netPolicyResult)
  : gmap Z (list Z) :=
  fold_left (λ policies r,
    match r.2 with
    | None => match prior !! r.1 with Some p => <[r.1 := p]> policies | None => policies end
    | Some ports => <[r.1 := ports]> policies
    end) results ∅.

(** ** Theorems *)

Inductive lim_op :=
| LSyn (src : Z) (now : gotime)
| LReap (now : gotime)
| LWhitelist (ids : list Z)
| LMatchAll (on : bool).
Definition lim_step (cfg : Config) (l : Limiter) (o : lim_op) : Limiter :=
  match o with
  | LSyn src now => snd (rateGate cfg l src now)
  | LReap now => reapPerSrcSYN l now
  | LWhitelist ids => SetSYNWhitelist l ids
  | LMatchAll on => SetSYNWhitelistMatchAll l on
  end.

Definition bucket_ok (cap : Z) (b : srcSYNBucket) : Prop := 0 <= tokens b <= cap.

(** Limits the arithmetic of a bucket is sure to hold for, whatever the clock says. *)
Definition maxSafeRate : Z := 2 ^ 23.

Lemma refill_bound elapsed rate :
  minDuration <= elapsed <= maxDuration → 0 <= rate < maxSafeRate →
  int_of_float64 (SFmul 53 1024 (Seconds elapsed) (float64_of_Z rate)) < 2 ^ 62.
Proof.
  intros He Hr. apply (int_below 62); [lia|]. apply (mul_below 37 24); [by apply Seconds_below| |lia].
  apply (float64_below rate 23); unfold maxSafeRate in *; lia.
Qed.

Lemma time_sub_range (a b : gotime) : minDuration <= time_sub a b <= maxDuration.
Proof. unfold time_sub, minDuration, maxDuration. lia. Qed.

Lemma takeToken_ok b now rate cap :
  0 <= rate < maxSafeRate → 0 <= cap <= 2 ^ 61 → bucket_ok cap b → bucket_ok cap (snd (takeToken b now rate cap)).
Proof.
  unfold bucket_ok, takeToken. intros Hr Hc Hb. cbv zeta.
  pose proof (refill_bound (time_sub now (lastFill b)) rate (time_sub_range _ _) Hr) as Hre.
  set (refill := int_of_float64 _) in *. set (b' := if _ && _ then _ else b).
  assert (0 <= tokens b' <= cap) as Hb'.
  { unfold b'. case_zif; [|done]. cbn [tokens]. change (2 ^ 62) with 4611686018427387904 in Hre.
    change (2 ^ 61) with 2305843009213693952 in Hc.
    rewrite i64_id by (unfold minDuration, maxDuration; lia). case_zif; lia. }
  case_zif; cbn [snd tokens]; lia.
Qed.

Record limiter_ok (cfg : Config) (l : Limiter) : Prop := {
  lo_shared : bucket_ok (synRateLimit cfg) (syn l);
  lo_source : map_Forall (λ _, bucket_ok perSourceSYNBurst) (perSrcSYN l);
  lo_size : Z.of_nat (size (perSrcSYN l)) <= maxPerSrcSYNEntries;
}.

Lemma synRateLimit_pos cfg : 0 < synRateLimit cfg.
Proof. unfold synRateLimit, DefaultSYNRateLimit. case_zif; lia. Qed.

Lemma synRateLimit_safe cfg : SYNRateLimit cfg < maxSafeRate → 0 < synRateLimit cfg < maxSafeRate.
Proof. unfold synRateLimit, DefaultSYNRateLimit, maxSafeRate. case_zif; lia. Qed.

Section Safe.
Context (cfg : Config) (Hcfg : SYNRateLimit cfg < maxSafeRate).

Lemma allowSYN_ok l now : limiter_ok cfg l → limiter_ok cfg (snd (allowSYN cfg l now)).
Proof.
  intros [H1 H2 H3]. unfold allowSYN. cbv zeta. pose proof (synRateLimit_safe cfg Hcfg) as Hs.
  assert (0 <= synRateLimit cfg <= 2 ^ 61) as Hc by (unfold maxSafeRate in Hs; lia).
  pose proof (takeToken_ok (syn l) now (synRateLimit cfg) (synRateLimit cfg) ltac:(lia) Hc H1) as H4.
  destruct (takeToken _ _ _ _) as [ok b]. by split.
Qed.

Lemma allowSYNFromSource_ok l src now :
  limiter_ok cfg l → limiter_ok cfg (snd (allowSYNFromSource l src now)).
Proof.
  intros [H1 H2 H3]. unfold allowSYNFromSource. destruct (perSrcSYN l !! src) as [b|] eqn:E.
  - pose proof (takeToken_ok b now perSourceSYNLimit perSourceSYNBurst ltac:(done) ltac:(done) (H2 _ _ E)) as Hb.
    destruct (takeToken _ _ _ _) as [ok b']. split; cbn [syn perSrcSYN with_perSrc snd] in *; [done| |].
    + by apply map_Forall_insert_2.
    + by rewrite map_size_insert_Some by eauto.
  - case_zif; [done|]. split; cbn [syn perSrcSYN with_perSrc snd]; [done| |].
    + apply map_Forall_insert_2; [|done]. unfold bucket_ok, perSourceSYNBurst. simpl. lia.
    + rewrite map_size_insert_None by done. lia.
Qed.

Lemma rateGate_ok l src now : limiter_ok cfg l → limiter_ok cfg (snd (rateGate cfg l src now)).
Proof.
  intros Hl. unfold rateGate. case_zif; [done|].
  pose proof (allowSYNFromSource_ok l src now Hl) as H1.
  destruct (allowSYNFromSource l src now) as [ok l1]. cbn [snd] in H1. case_zif; [done|].
  pose proof (allowSYN_ok l1 now H1) as H2. destruct (allowSYN cfg l1 now) as [ok2 l2].
  by destruct ok2.
Qed.

Lemma lim_step_ok l o : limiter_ok cfg l → limiter_ok cfg (lim_step cfg l o).
Proof.
  intros Hl. destruct o as [src now|now|ids|on]; simpl.
  - by apply rateGate_ok.
  - destruct Hl as [H1 H2 H3]. split; cbn [syn perSrcSYN with_perSrc reapPerSrcSYN].
    + done.
    + intros k b Hb. apply map_lookup_filter_Some in Hb as [Hb _]. by eapply H2.
    + etrans; [|exact H3]. apply inj_le, map_size_filter.
  - by destruct Hl.
  - by destruct Hl.
Qed.

Lemma newLimiter_ok start : limiter_ok cfg (newLimiter cfg start).
Proof.
  pose proof (synRateLimit_safe cfg Hcfg). split.
  - unfold bucket_ok. simpl. lia.
  - apply map_Forall_empty.
  - simpl. rewrite map_size_empty. done.
Qed.
End Safe.

(** C40. The SYN limiter stays within its bounds when the configured limit is below
    2^23 a second (the default is 100; a limit of the order of 10^18 overflows the
    bucket's int, see [huge_limit_overflows]): whatever SYNs arrive from whatever
    sources at whatever times (the clock may even go backwards), and whatever
    reaping and whitelisting happens, no bucket ever holds a negative number of
    tokens or more than its capacity, and at most [maxPerSrcSYNEntries] sources
    are tracked. *)
Theorem limiter_bounds cfg start ops :
  SYNRateLimit cfg < maxSafeRate →
  let l := fold_left (lim_step cfg) ops (newLimiter cfg start) in
  0 <= tokens (syn l) <= synRateLimit cfg ∧
  (∀ src b, perSrcSYN l !! src = Some b → 0 <= tokens b <= perSourceSYNBurst) ∧
  Z.of_nat (size (perSrcSYN l)) <= maxPerSrcSYNEntries.
Proof.
  intros Hcfg. assert (∀ l, limiter_ok cfg l → limiter_ok cfg (fold_left (lim_step cfg) ops l)) as H.
  { induction ops as [|o ops IH]; intros l Hl; [done|]. simpl. by apply IH, lim_step_ok. }
  by destruct (H (newLimiter cfg start) (newLimiter_ok cfg Hcfg start)) as [H1 H2 H3].
Qed.

Lemma limiter_bounds_witness :
  let cfg := mkConfig false false 500 0 0 in
  let l := fold_left (lim_step cfg) [LSyn 7 1000; LSyn 7 (2 * Second); LReap (3 * Second)] (newLimiter cfg 0) in
  tokens (syn l) = 499 ∧
  0 <= tokens (syn l) <= synRateLimit cfg ∧
  (∀ src b, perSrcSYN l !! src = Some b → 0 <= tokens b <= perSourceSYNBurst) ∧
  Z.of_nat (size (perSrcSYN l)) <= maxPerSrcSYNEntries.
Proof.
  split; [vm_compute; reflexivity|].
  apply (limiter_bounds (mkConfig false false 500 0 0) 0
    [LSyn 7 1000; LSyn 7 (2 * Second); LReap (3 * Second)]).
  vm_compute. reflexivity.
Defined.

(** With a limit of 6 * 10^18 a second, the first SYN 0.9 s after the last
    refill overflows the bucket: it goes negative and the SYN is refused. *)
Lemma huge_limit_overflows :
  let cfg := mkConfig false false 6000000000000000000 0 0 in
  let '(ok, l) := allowSYN cfg (newLimiter cfg 0) 900000000 in
  ok = false ∧ tokens (syn l) < 0.
Proof. vm_compute. done. Qed.

(** One source cannot starve the others: a SYN that its source's own
    bucket refuses leaves the shared bucket as it was, and no SYN at all
    changes the bucket of another source. *)
Theorem refused_source_spends_no_shared_token cfg l src now :
  let '(v, l') := rateGate cfg l src now in
  (v = RateSource → syn l' = syn l) ∧
  (∀ other, other ≠ src → perSrcSYN l' !! other = perSrcSYN l !! other).
Proof.
  unfold rateGate. case_zif; [done|].
  assert (syn (snd (allowSYNFromSource l src now)) = syn l ∧
    ∀ other, other ≠ src →
      perSrcSYN (snd (allowSYNFromSource l src now)) !! other = perSrcSYN l !! other) as [H1 H2].
  { unfold allowSYNFromSource. destruct (perSrcSYN l !! src) as [b|].
    - destruct (takeToken _ _ _ _) as [ok b']. split; [done|]. intros other Hne.
      cbn [snd perSrcSYN with_perSrc]. by rewrite lookup_insert_ne.
    - case_zif; [done|]. split; [done|]. intros other Hne. cbn [snd perSrcSYN with_perSrc].
      by rewrite lookup_insert_ne. }
  destruct (allowSYNFromSource l src now) as [ok l1]. cbn [snd] in *. case_zif; [done|].
  unfold allowSYN. cbv zeta. destruct (takeToken _ _ _ _) as [ok2 b2].
  destruct ok2; split; done.
Qed.

(** *** The reply window *)

Inductive contact_op := CNote (peer : Z) (now : gotime) | CPrune (now : gotime).
Definition contact_step (o : contacts) (op : contact_op) : contacts :=
  match op with CNote peer now => note o peer now | CPrune now => pruneLocked o now end.

Lemma pruneLocked_lookup o now peer t :
  pruneLocked o now !! peer = Some t → o !! peer = Some t.
Proof. unfold pruneLocked. rewrite map_lookup_filter_Some. naive_solver. Qed.

Lemma note_lookup o peer now q t :
  note o peer now !! q = Some t → (q = peer ∧ t = now) ∨ o !! q = Some t.
Proof.
  unfold note. repeat case_zif; rewrite ?lookup_insert_Some; try naive_solver.
  - intros ?%pruneLocked_lookup. by right.
  - intros [[-> ->]|[_ ?%pruneLocked_lookup]]; auto.
Qed.

Lemma note_size o peer now :
  Z.of_nat (size o) <= maxReplyWindowPeers → Z.of_nat (size (note o peer now)) <= maxReplyWindowPeers.
Proof.
  intros Ho. unfold note.
  assert (∀ m : contacts, Z.of_nat (size m) < maxReplyWindowPeers →
    Z.of_nat (size (<[peer := now]> m)) <= maxReplyWindowPeers) as Hi.
  { intros m Hm. destruct (m !! peer) eqn:E.
    - rewrite map_size_insert_Some by eauto. lia.
    - rewrite map_size_insert_None by done. lia. }
  case_zif.
  - destruct (o !! peer) as [t|] eqn:E; [by rewrite map_size_insert_Some by eauto|].
    destruct Heqb as [[? ?]%bool_decide_eq_true|?]; [done|]. apply Hi. lia.
  - cbv zeta. case_zif; [|by apply Hi]. etrans; [|exact Ho]. apply inj_le, map_size_filter.
Qed.

(** The reply window admits only replies.  After any history of outbound
    contacts and prunes, a SYN that passes the private node's trust gate
    through the window goes to one of the two reply ports and comes from a peer
    this node itself contacted less than [replyWindow] ago; and the table never
    holds more than [maxReplyWindowPeers] peers. *)
Theorem reply_window_admits_only_replies `{P : Protocol} ops srcNode dstPort now :
  let o := fold_left contact_step ops ∅ in
  Z.of_nat (size o) <= maxReplyWindowPeers ∧
  (replyWindowAdmits o srcNode dstPort now = true →
   (dstPort = PortDataExchange ∨ dstPort = PortHandshake) ∧
   ∃ t, CNote srcNode t ∈ ops ∧ time_sub now t < replyWindow).
Proof.
  assert (∀ ops (o : contacts), Z.of_nat (size o) <= maxReplyWindowPeers →
    let o' := fold_left contact_step ops o in
    Z.of_nat (size o') <= maxReplyWindowPeers ∧
    ∀ q t, o' !! q = Some t → o !! q = Some t ∨ CNote q t ∈ ops) as H.
  { clear. induction ops as [|op ops IH]; intros o Ho; [split; [done|by left]|]. cbn [fold_left].
    destruct (IH (contact_step o op)) as [IH1 IH2].
    { destruct op as [peer now|now]; [by apply note_size|]. etrans; [|exact Ho].
      apply inj_le, map_size_filter. }
    split; [done|]. intros q t Hq. destruct (IH2 q t Hq) as [Hl|?]; [|right; by right].
    destruct op as [peer t'|t']; simpl in Hl.
    - apply note_lookup in Hl as [[-> ->]|?]; [right; by left|by left].
    - left. by eapply pruneLocked_lookup. }
  destruct (H ops ∅) as [H1 H2]; [by rewrite map_size_empty|]. split; [done|].
  unfold replyWindowAdmits, replyWindowPort, recent. intros Ha. zbool. split.
  - destruct H0; zbool; auto.
  - destruct (fold_left _ _ _ !! srcNode) as [t|] eqn:E; [|done]. zbool.
    destruct (H2 _ _ E) as [?|?]; [done|by exists t].
Qed.

(** *** Network policy *)

Lemma mergeNetworkPolicies_lookup prior results n :
  mergeNetworkPolicies prior results !! n =
    match List.find (λ r, (r.1 =? n) && (bool_decide (is_Some r.2) || bool_decide (is_Some (prior !! n))))
            (rev results) with
    | Some (_, Some ports) => Some ports
    | Some (_, None) => prior !! n
    | None => None
    end.
Proof.
  unfold mergeNetworkPolicies. induction results as [|r results IH] using rev_ind; [done|].
  rewrite fold_left_app, rev_app_distr. cbn [fold_left rev app List.find].
  destruct r as [m [ports|]]; cbn [fst snd]; destruct (Z.eqb_spec m n) as [->|Hne]; cbn [andb].
  - rewrite lookup_insert_eq. by rewrite bool_decide_eq_true_2.
  - by rewrite lookup_insert_ne.
  - rewrite (bool_decide_eq_false_2 (is_Some (None : option (list Z)))) by (by intros []). simpl.
    destruct (prior !! n) as [p|] eqn:E.
    + by rewrite bool_decide_eq_true_2, lookup_insert_eq.
    + by rewrite bool_decide_eq_false_2 by (by intros []).
  - destruct (prior !! m); [by rewrite lookup_insert_ne|done].
Qed.

(** A failed policy fetch opens nothing.  If a network restricts its ports
    and every fetch for that network in a reload fails, then after the reload a
    port outside the list is still refused; a policy is relaxed by a successful
    answer only. *)
Theorem failed_fetch_keeps_restriction s prior results n port :
  prior !! n = Some s → s ≠ [] → port ∉ s →
  (∃ r, r ∈ results ∧ r.1 = n) → (∀ r, r ∈ results → r.1 = n → r.2 = None) →
  ∀ tags mgr info,
  isPortAllowed (mkPolicy (mergeNetworkPolicies prior results) tags mgr info) n port = false.
Proof.
  intros Hp Hs Hport (r & Hr & Hn) Hfail tags mgr info.
  unfold isPortAllowed. cbn [netPolicies]. rewrite mergeNetworkPolicies_lookup, Hp.
  rewrite (bool_decide_eq_true_2 (is_Some (Some s))) by eauto.
  match goal with |- context [List.find ?f ?l] => destruct (List.find f l) as [[m o]|] eqn:E end.
  - apply find_some in E as [Hin Hm]. cbn [fst] in Hm. apply andb_true_iff in Hm as [Hm _]. zbool. subst m.
    apply in_rev, list_elem_of_In in Hin. specialize (Hfail _ Hin eq_refl). simpl in Hfail. subst o.
    destruct s as [|x s]; [done|]. by apply bool_decide_eq_false_2.
  - eapply find_none in E; [|by apply in_rev; rewrite rev_involutive; apply list_elem_of_In].
    cbn beta in E. rewrite orb_true_r, andb_true_r, Hn, Z.eqb_refl in E. done.
Qed.

(** Deny wins: an event passes the policy only if the runner of its
    network and every other runner that counts the peer among its members let
    it pass. *)
Theorem policy_deny_wins s ev n port peer sz dir pm :
  policyManager s = Some pm → evaluatePortPolicy s ev n port peer sz dir = true →
  let gate tags pr := EvaluatePortGate pr ev port peer sz dir
    (default [] (memberTags s !! tags)) (nodeInfoTagsFor s peer) in
  (∀ pr, pmGet pm n = Some pr → gate n pr = true) ∧
  (∀ pr, pr ∈ pmAll pm → NetworkID pr ≠ n → HasMember pr peer = true → gate (NetworkID pr) pr = true).
Proof.
  intros Hm. unfold evaluatePortPolicy. rewrite Hm. cbv zeta.
  set (primary := match pmGet pm n with Some _ => _ | None => _ end).
  set (others := map _ _). intros H.
  assert (∀ v, v ∈ primary ++ others → v = true) as Hall.
  { destruct (primary ++ others) as [|v l] eqn:E; [set_solver|]. intros v' Hv.
    rewrite forallb_forall in H. by apply (H v'), list_elem_of_In. }
  split.
  - intros pr Hg. apply Hall, elem_of_app. left. unfold primary. rewrite Hg. by left.
  - intros pr Hin Hne Hmem. apply Hall, elem_of_app. right. unfold others.
    apply list_elem_of_In, in_map_iff. exists pr. split; [done|]. apply filter_In.
    split; [by apply list_elem_of_In|]. rewrite Hmem. by destruct (Z.eqb_spec (NetworkID pr) n).
Qed.

Lemma failed_fetch_keeps_restriction_witness :
  isPortAllowed (mkPolicy (mergeNetworkPolicies {[ 5 := [80; 443] ]} [(5, None); (6, Some [])]) ∅ None
    (λ _, [])) 5 22 = false.
Proof.
  apply (failed_fetch_keeps_restriction [80; 443] {[ 5 := [80; 443] ]} [(5, None); (6, Some [])] 5 22).
  - reflexivity.
  - discriminate.
  - apply (bool_decide_unpack _). reflexivity.
  - exists (5, None). split; [left|reflexivity].
  - intros r [->|[->|Hr%elem_of_nil]%elem_of_cons]%elem_of_cons H; [reflexivity|discriminate H|destruct Hr].
Defined.

(** The runner of network 5 lets port 80 pass only. *)
Definition demo_runner : PolicyRunner := mkRunner 5 (λ n, n =? 9) (λ _ port _ _ _ _ _, port =? 80).
Definition demo_policy : PolicyState :=
  mkPolicy ∅ ∅ (Some (mkPolicyManager (λ n, if n =? 5 then Some demo_runner else None) [demo_runner])) (λ _, []).

Lemma policy_deny_wins_witness :
  evaluatePortPolicy demo_policy PolicyEventConnect 0 80 9 0 EmptyString = true ∧
  EvaluatePortGate demo_runner PolicyEventConnect 80 9 0 EmptyString [] [] = true.
Proof.
  split; [reflexivity|].
  destruct (policy_deny_wins demo_policy PolicyEventConnect 0 80 9 0 EmptyString _ eq_refl eq_refl) as [_ H].
  apply (H demo_runner); [left|discriminate|reflexivity].
Defined.
