(* ===== verification/Accept.v ===== *)
(** * Accepting and starting connections (pkg/daemon/daemon.go:
    [handleStreamPacket] with its SYN branch, [sendRST], and [dialConnectionLocked] up to the
    first SYN)

    A SYN finds its listener, is matched with an existing connection of the
    same ports, passes the gates of Admission in the source's order, creates a
    connection in the port manager and is answered.  [order] is the order in
    which the connection map is ranged over; [trust] is what the handshake
    service and the registry say at that moment. *)
From stdpp Require Import strings.
From S2P Require Import Prelude Protocol Conn Sender PortManager Reassembly Stream Admission.
Open Scope Z_scope.

Section Accept.
Context {P : Protocol}.
Implicit Types (pkt : Packet) (c : Connection).

Record Daemon := mkDaemon {
  cfg : Config;
  ports : PortManager;
  lim : Limiter;
  outbound : contacts;
  policy : PolicyState;
  AcceptQueueDrops : Z;
}.
Definition with_ports (d : Daemon) (pm : PortManager) : Daemon :=
  mkDaemon (cfg d) pm (lim d) (outbound d) (policy d) (AcceptQueueDrops d).
Definition with_lim (d : Daemon) (l : Limiter) : Daemon :=
  mkDaemon (cfg d) (ports d) l (outbound d) (policy d) (AcceptQueueDrops d).
Definition with_drops (d : Daemon) (n : Z) : Daemon :=
  mkDaemon (cfg d) (ports d) (lim d) (outbound d) (policy d) n.

(** A packet back to the sender of [pkt]. *)
Definition answer pkt (flags sq ack window : Z) : Packet :=
  mkPacket Version flags ProtoStream (Dst pkt) (Src pkt) (DstPort pkt) (SrcPort pkt) sq ack window [].

Definition sendRST pkt : Output := OSend (Node (Src pkt)) (answer pkt FlagRST 0 0 0).

Definition synAck c pkt (sq : Z) : Packet :=
  answer pkt (Z.lor FlagSYN FlagACK) sq (RecvAck c) (RecvWindow c).

(** The SYN of a peer that restarted: its old connection, whose FIN is held,
    ends quietly. *)
Definition endRestarted (pm : PortManager) c : PortManager :=
  let c := set_State c StateClosed in
  let c := stopFINHold c in
  let c := set_rx c (CloseRecvBuf (rx c)) in
  snd (RemoveConnection (with_conns pm (<[ID c := c]> (connections pm))) (ID c)).

(** The private-node trust gate. *)
Definition trustGate (d : Daemon) (trust : TrustView) pkt (now : gotime) : bool :=
  Public (cfg d) || handshakeTrusts trust (Node (Src pkt)) ||
  replyWindowAdmits (outbound d) (Node (Src pkt)) (DstPort pkt) now ||
  registryTrusts trust (Node (Src pkt)).

(** The connection a SYN opens, as [NewConnection] made it, and the SYN-ACK. *)
Definition openConn c pkt : Connection * Packet :=
  let c := set_LocalAddr c (Dst pkt) in
  let c := set_State c StateSynReceived in
  let c := set_RecvAck c (u32 (Seq pkt + 1)) in
  let c := set_rx c (set_ExpectedSeq (rx c) (u32 (Seq pkt + 1))) in
  let '(_, c) := updatePeerWin c (Window pkt) in
  let sa := synAck c pkt (SendSeq c) in
  let c := set_SynAck c (SendSeq c) in
  let c := set_SendSeq c (u32 (SendSeq c + 1)) in
  (startRetxLoop (set_State c StateEstablished), sa).

(** Past all gates: register the connection, answer, queue it for [Accept]. *)
Definition acceptSYN (d : Daemon) (ln : nat) (now : gotime) pkt : Daemon * list Output :=
  let '(id, pm) := NewConnection (ports d) now (DstPort pkt) (Src pkt) (SrcPort pkt) in
  let '(c, sa) := openConn (newConn id (DstPort pkt) (Src pkt) (SrcPort pkt) now) pkt in
  let pm := with_conns pm (<[id := c]> (connections pm)) in
  let out := [OEvent (EvSynReceived id); OSend (Node (Src pkt)) sa; OEvent (EvConnEstablished id)] in
  let '(ok, pm) := TrySend pm ln id in
  if ok then (with_ports d pm, out)
  else
    let drops := u64 (AcceptQueueDrops d + 1) in
    let pm := snd (RemoveConnection (SetState pm id StateClosed) id) in
    (with_drops (with_ports d pm) drops,
     out ++ [sendRST pkt; OEvent (EvAcceptQueueFull (DstPort pkt) drops)]).

(** From the trust gate on. *)
Definition admitSYN (d : Daemon) (trust : TrustView) (ln : nat) (now : gotime) pkt
  : Daemon * list Output :=
  if negb (trustGate d trust pkt now) then (d, [OEvent (EvSynRejected (DstPort pkt))])
  else if negb (evaluatePortPolicy (policy d) PolicyEventConnect (Network (Dst pkt)) (DstPort pkt)
                  (Node (Src pkt)) 0 EmptyString) then
    (d, [OEvent (EvSynPortRejected (Node (Src pkt)) (DstPort pkt) (Network (Dst pkt)))])
  else
    let '(verdict, l) := rateGate (cfg d) (lim d) (Node (Src pkt)) now in
    let d := with_lim d l in
    match verdict with
    | RateSource => (d, [])
    | RateGlobal => (d, [OEvent (EvSynRateLimited (SrcPort pkt))])
    | RateOK =>
        if maxConnectionsPerPort (cfg d) <=? ConnectionCountForPort (ports d) (DstPort pkt)
        then (d, [sendRST pkt])
        else if maxTotalConnections (cfg d) <=? TotalActiveConnections (ports d)
        then (d, [sendRST pkt])
        else acceptSYN d ln now pkt
    end.

(** A lone SYN. *)
Definition handleSYN (d : Daemon) (trust : TrustView) (order : list (Z * Connection))
    (now : gotime) pkt : Daemon * list Output :=
  match GetListener (ports d) (DstPort pkt) with
  | None => (d, [sendRST pkt])
  | Some ln =>
      match FindConnection (DstPort pkt) (Src pkt) (SrcPort pkt) order with
      | None => admitSYN d trust ln now pkt
      | Some c =>
          if finPending (rx c) then admitSYN (with_ports d (endRestarted (ports d) c)) trust ln now pkt
          else if is_state c StateSynReceived || is_state c StateEstablished then
            let sq := if SynAckSeqSet c then SynAckSeq c else u32 (SendSeq c - 1) in
            (d, [OSend (Node (Src pkt)) (synAck c pkt sq)])
          else admitSYN d trust ln now pkt
      end
  end.

(** [handleStreamPacket]. An RST also takes the connection out of the table. *)
Definition handleStreamPacket (d : Daemon) (trust : TrustView) (order : list (Z * Connection))
    (now : gotime) pkt (reads : list nat) : Daemon * list Output :=
  if HasFlag pkt FlagSYN && negb (HasFlag pkt FlagACK) then handleSYN d trust order now pkt
  else
    match FindConnection (DstPort pkt) (Src pkt) (SrcPort pkt) order with
    | None => (d, [])
    | Some c =>
        let isRST := negb (HasFlag pkt FlagSYN && HasFlag pkt FlagACK) &&
                     negb (HasFlag pkt FlagFIN) && HasFlag pkt FlagRST in
        let '(c', out) := handlePacket c now pkt reads in
        let pm := with_conns (ports d) (<[ID c := c']> (connections (ports d))) in
        (with_ports d (if isRST then snd (RemoveConnection pm (ID c)) else pm), out)
    end.

(** The half-open connection of a dial and its SYN: [dialConnectionLocked]
    from the port allocation to the first SYN. [None]: no ephemeral port. *)
Definition startDial (pm : PortManager) (nodeID : Z) (dst : Addr) (dstPort : Z) (now : gotime)
  : option (Z * Connection * Packet) * PortManager :=
  let '(localPort, pm) := AllocEphemeralPort pm in
  if localPort =? 0 then (None, pm)
  else
    let '(id, pm) := NewConnection pm now localPort dst dstPort in
    let c := newConn id localPort dst dstPort now in
    let c := set_State (set_LocalAddr c (mkAddr (Network dst) nodeID)) StateSynSent in
    let syn := mkPacket Version FlagSYN ProtoStream (LocalAddr c) dst localPort dstPort
                 (SendSeq c) 0 (RecvWindow c) [] in
    let c := set_SendSeq c (u32 (SendSeq c + 1)) in
    (Some (id, c, syn), with_conns pm (<[id := c]> (connections pm))).
End Accept.
