(* ===== verification/AcceptProofs.v ===== *)
(** * Connections are opened only past every gate, and both ends agree

    Theorems about Accept: what a SYN can and cannot cause, the limits on the
    number of connections, repeated SYNs, and the handshake that establishes
    the starting state of EndToEnd. *)
From stdpp Require Import strings.
From S2P Require Import Prelude Protocol Conn Sender PortManager Reassembly ReassemblyProofs Stream.
From S2P Require Import Writer Endpoint EndpointProofs EndToEnd Admission Accept.
Open Scope Z_scope.

Section Proofs.
Context {P : Protocol}.
Implicit Types (pkt : Packet) (c : Connection) (pm : PortManager) (d : Daemon).

(** ** Counting connections *)

Lemma count_insert (m : gmap Z Connection) id c (f : Connection → bool) :
  length (List.filter (λ e, f e.2) (map_to_list (<[id := c]> m))) =
  ((if f c then 1 else 0) + length (List.filter (λ e, f e.2) (map_to_list (delete id m))))%nat.
Proof.
  rewrite <- insert_delete_eq.
  rewrite <- !(length_fmap snd).
  assert (∀ l1 l2 : list (Z * Connection), l1 ≡ₚ l2 →
    length (List.filter (λ e, f e.2) l1) = length (List.filter (λ e, f e.2) l2)) as Hp.
  { induction 1; simpl; repeat case_match; simpl; congruence. }
  rewrite !length_fmap.
  rewrite (Hp _ _ (map_to_list_insert (delete id m) id c (lookup_delete_eq m id))).
  simpl. by destruct (f c).
Qed.

Lemma count_delete (m : gmap Z Connection) id (f : Connection → bool) :
  (length (List.filter (λ e, f e.2) (map_to_list (delete id m))) ≤
   length (List.filter (λ e, f e.2) (map_to_list m)))%nat.
Proof.
  destruct (m !! id) as [c|] eqn:E; [|by rewrite delete_id].
  rewrite <- (insert_id m id c E) at 2. rewrite count_insert. lia.
Qed.

Lemma countConns_insert pm m id c f :
  connections pm = <[id := c]> m →
  countConns pm f <= (if f c then 1 else 0) + Z.of_nat (length (List.filter (λ e, f e.2) (map_to_list m))).
Proof.
  intros E. unfold countConns. rewrite E, count_insert. pose proof (count_delete m id f).
  destruct (f c); lia.
Qed.

Lemma endRestarted_conns pm c : connections (endRestarted pm c) = delete (ID c) (connections pm).
Proof.
  unfold endRestarted. cbv zeta. rewrite Remove_conns. simpl. apply delete_insert_eq.
Qed.

(** ** What [acceptSYN] does to the connections *)

Lemma openConn_opened id lp ra rp now pkt :
  let '(c, sa) := openConn (newConn id lp ra rp now) pkt in
  opened c 1 (Seq pkt + 1) ∧ sa = synAck c pkt 0 ∧ LocalAddr c = Dst pkt ∧ LocalPort c = lp ∧
  RemoteAddr c = ra ∧ RemotePort c = rp ∧ SynAckSeqSet c = true ∧ SynAckSeq c = 0 ∧ ID c = id.
Proof. cbv beta iota zeta delta [openConn updatePeerWin]. split_and!; try reflexivity. split; reflexivity. Qed.

(** A SYN past the gates leaves one more connection, or none. *)
Lemma acceptSYN_cases d ln now pkt d' out :
  acceptSYN d ln now pkt = (d', out) →
  ∃ id c, openConn (newConn id (DstPort pkt) (Src pkt) (SrcPort pkt) now) pkt = (c, synAck c pkt 0) ∧
    id = nextConnID (ports d) ∧ cfg d' = cfg d ∧ policy d' = policy d ∧ outbound d' = outbound d ∧
    ((connections (ports d') = <[id := c]> (connections (ports d)) ∧ listeners (ports d') = listeners (ports d) ∧
      out = [OEvent (EvSynReceived id); OSend (Node (Src pkt)) (synAck c pkt 0); OEvent (EvConnEstablished id)]) ∨
     (connections (ports d') = delete id (connections (ports d)) ∧ sendRST pkt ∈ out)).
Proof.
  unfold acceptSYN.
  pose proof (NewConnection_conns (ports d) now (DstPort pkt) (Src pkt) (SrcPort pkt)) as HN.
  destruct (NewConnection _ _ _ _ _) as [id pm] eqn:EN. destruct HN as [Hid HN].
  assert (listeners pm = listeners (ports d)) as HL.
  { revert EN. unfold NewConnection, markEphPortUsedLocked. cbv zeta.
    destruct (ephBitIndex _). case_zif; by intros [= <- <-]. }
  pose proof (openConn_opened id (DstPort pkt) (Src pkt) (SrcPort pkt) now pkt) as Ho.
  destruct (openConn _ pkt) as [c sa] eqn:Eo. destruct Ho as (_ & -> & _).
  set (pm1 := with_conns pm _).
  pose proof (TrySend_conns pm1 ln id) as HT.
  assert (listeners (snd (TrySend pm1 ln id)) = listeners (ports d)) as HTL.
  { unfold TrySend. destruct (lnHeap pm1 !! ln); [|done]. by repeat case_zif. }
  destruct (TrySend pm1 ln id) as [ok pm2].
  cbn [snd] in *. intros E. exists id, c. split; [done|]. split; [done|].
  destruct ok; injection E as <- <-; split_and!; try done; [left|right].
  - split_and!; [|done|done]. cbn [ports with_ports]. rewrite HT. unfold pm1. simpl. rewrite HN.
    apply insert_insert_eq.
  - split.
    + cbn [ports with_ports with_drops]. rewrite Remove_conns. cbn [SetState connections with_conns].
      rewrite HT. unfold pm1. simpl. rewrite HN, insert_insert_eq.
      apply map_eq. intros i. destruct (decide (i = id)) as [->|Hne].
      * by rewrite !lookup_delete_eq.
      * by rewrite !lookup_delete_ne, lookup_alter_ne, lookup_insert_ne by done.
    + do 3 right. by left.
Qed.

(** Either a gate stops the SYN, with the connections untouched, or it passes. *)
Lemma admitSYN_cases d trust ln now pkt d' out :
  admitSYN d trust ln now pkt = (d', out) →
  (ports d' = ports d ∧ ∀ id, OEvent (EvConnEstablished id) ∉ out) ∨
  (trustGate d trust pkt now = true ∧
   evaluatePortPolicy (policy d) PolicyEventConnect (Network (Dst pkt)) (DstPort pkt)
     (Node (Src pkt)) 0 EmptyString = true ∧
   ConnectionCountForPort (ports d) (DstPort pkt) < maxConnectionsPerPort (cfg d) ∧
   TotalActiveConnections (ports d) < maxTotalConnections (cfg d) ∧
   ∃ l, acceptSYN (with_lim d l) ln now pkt = (d', out)).
Proof.
  unfold admitSYN. destruct (trustGate _ _ _ _); cbn [negb].
  2:{ intros [= <- <-]. left. split; [done|]. set_solver. }
  destruct (evaluatePortPolicy _ _ _ _ _ _ _); cbn [negb].
  2:{ intros [= <- <-]. left. split; [done|]. set_solver. }
  destruct (rateGate _ _ _ _) as [v l]. destruct v.
  - cbn [cfg ports with_lim]. case_zif; [intros [= <- <-]; left; split; [done|set_solver]|].
    case_zif; [intros [= <- <-]; left; split; [done|set_solver]|]. intros E. right. split_and!; try done.
    by exists l.
  - intros [= <- <-]. left. split; [done|]. set_solver.
  - intros [= <- <-]. left. split; [done|]. set_solver.
Qed.

(** Either nothing is opened, and connections are at most removed, or the SYN
    passed every gate in a state where at most an old connection was removed. *)
Lemma handleSYN_cases d trust order now pkt d' out :
  handleSYN d trust order now pkt = (d', out) →
  (connections (ports d') ⊆ connections (ports d) ∧ ∀ id, OEvent (EvConnEstablished id) ∉ out) ∨
  ∃ d1 ln, GetListener (ports d) (DstPort pkt) = Some ln ∧
    connections (ports d1) ⊆ connections (ports d) ∧ listeners (ports d1) = listeners (ports d) ∧
    trustGate d trust pkt now = true ∧
    evaluatePortPolicy (policy d) PolicyEventConnect (Network (Dst pkt)) (DstPort pkt)
      (Node (Src pkt)) 0 EmptyString = true ∧
    ConnectionCountForPort (ports d1) (DstPort pkt) < maxConnectionsPerPort (cfg d) ∧
    TotalActiveConnections (ports d1) < maxTotalConnections (cfg d) ∧
    acceptSYN d1 ln now pkt = (d', out).
Proof.
  unfold handleSYN. destruct (GetListener _ _) as [ln|] eqn:El.
  2:{ intros [= <- <-]. left. split; [done|]. set_solver. }
  assert (∀ d1, connections (ports d1) ⊆ connections (ports d) → cfg d1 = cfg d →
    listeners (ports d1) = listeners (ports d) →
    trustGate d1 trust pkt now = trustGate d trust pkt now → policy d1 = policy d →
    admitSYN d1 trust ln now pkt = (d', out) →
    (connections (ports d') ⊆ connections (ports d) ∧ ∀ id, OEvent (EvConnEstablished id) ∉ out) ∨
    ∃ d1 ln', Some ln = Some ln' ∧
      connections (ports d1) ⊆ connections (ports d) ∧ listeners (ports d1) = listeners (ports d) ∧
      trustGate d trust pkt now = true ∧
      evaluatePortPolicy (policy d) PolicyEventConnect (Network (Dst pkt)) (DstPort pkt)
        (Node (Src pkt)) 0 EmptyString = true ∧
      ConnectionCountForPort (ports d1) (DstPort pkt) < maxConnectionsPerPort (cfg d) ∧
      TotalActiveConnections (ports d1) < maxTotalConnections (cfg d) ∧
      acceptSYN d1 ln' now pkt = (d', out)) as Hadm.
  { intros d1 Hc Hcfg Hln Ht Hp E. apply admitSYN_cases in E as [[-> ?]|(H1 & H2 & H3 & H4 & l & H5)].
    - by left.
    - right. rewrite Ht in H1. rewrite Hp in H2. rewrite Hcfg in H3, H4.
      by exists (with_lim d1 l), ln. }
  destruct (FindConnection _ _ _ _) as [c|]; [|by apply Hadm].
  case_zif.
  - apply Hadm; try done; cbn [ports with_ports].
    + rewrite endRestarted_conns. apply delete_subseteq.
    + unfold endRestarted. cbv zeta. by rewrite Remove_listeners.
  - case_zif; [intros [= <- <-]; left; split; [done|set_solver]|by apply Hadm].
Qed.

Lemma count_subseteq (m m' : gmap Z Connection) f :
  m' ⊆ m → (length (List.filter (λ e, f e.2) (map_to_list m')) ≤
            length (List.filter (λ e, f e.2) (map_to_list m)))%nat.
Proof.
  revert m'. induction m as [|id c m Hid IH] using map_ind; intros m' Hs.
  { assert (m' = ∅) as ->; [|done]. apply map_eq. intros i. rewrite lookup_empty.
    destruct (m' !! i) eqn:E; [|done]. by apply (lookup_weaken _ _ _ _ E) in Hs. }
  rewrite count_insert, delete_id by done. destruct (m' !! id) as [c'|] eqn:E.
  - assert (c' = c) as ->.
    { apply (lookup_weaken _ _ _ _ E) in Hs. rewrite lookup_insert_eq in Hs. by injection Hs. }
    rewrite <- (insert_id m' id c E), count_insert.
    assert (delete id m' ⊆ m) as H%IH; [|lia].
    etrans; [by apply delete_mono|]. rewrite delete_insert_eq. apply delete_subseteq.
  - assert (m' ⊆ m) as H%IH; [|lia]. rewrite <- (delete_id m' id E), <- (delete_id m id Hid).
    etrans; [by apply delete_mono|]. by rewrite delete_insert_eq.
Qed.

Lemma countConns_le pm pm' f :
  connections pm' ⊆ connections pm → countConns pm' f <= countConns pm f.
Proof. intros H. unfold countConns. pose proof (count_subseteq _ _ f H). lia. Qed.

(** Opening a connection adds at most one to any count, below the limit of
    which it was admitted. *)
Lemma accepted_count d1 ln now pkt d' out f limit :
  acceptSYN d1 ln now pkt = (d', out) →
  (∀ c, f c = true → LocalPort c = DstPort pkt → countConns (ports d1) f < limit) →
  countConns (ports d1) f <= limit → countConns (ports d') f <= limit.
Proof.
  intros Ha Hf Hl. apply acceptSYN_cases in Ha as (id & c & Eo & Hid & _ & _ & _ & [[Hc _]|[Hc _]]).
  - pose proof (countConns_insert _ _ _ _ f Hc) as Hle. unfold countConns at 1 in Hf.
    pose proof (openConn_opened id (DstPort pkt) (Src pkt) (SrcPort pkt) now pkt) as Ho. rewrite Eo in Ho.
    destruct Ho as (_ & _ & _ & Hlp & _). unfold countConns in *.
    destruct (f c) eqn:Efc; [specialize (Hf c Efc Hlp)|]; lia.
  - etrans; [|exact Hl]. apply countConns_le. rewrite Hc. apply delete_subseteq.
Qed.

(** The connection limits hold.  No SYN, whatever the trust store, the
    policy, the rate limiter and the order of the connection table say, takes
    the number of active connections on a port, or in total, above the
    configured maximum. *)
Theorem connection_limits_hold d trust order now pkt d' out :
  handleSYN d trust order now pkt = (d', out) →
  (TotalActiveConnections (ports d) <= maxTotalConnections (cfg d) →
   TotalActiveConnections (ports d') <= maxTotalConnections (cfg d)) ∧
  (∀ port, ConnectionCountForPort (ports d) port <= maxConnectionsPerPort (cfg d) →
   ConnectionCountForPort (ports d') port <= maxConnectionsPerPort (cfg d)).
Proof.
  intros E. apply handleSYN_cases in E as [[Hc _]|(d1 & ln & _ & Hc & _ & _ & _ & Hp & Ht & Ha)].
  - split; [intros H|intros port H]; (etrans; [|exact H]); by apply countConns_le.
  - split; [intros H|intros port H]; eapply accepted_count; try exact Ha; try done.
    + unfold TotalActiveConnections in *. lia.
    + intros c Hf Hlp. zbool. rewrite Hlp in *. subst port. exact Hp.
    + etrans; [|exact H]. by apply countConns_le.
Qed.

(** C14. A connection is opened only past every gate.  If a SYN makes a
    connection appear or change in the table, then a listener was bound to its
    port, its source was trusted (the node is public, or the handshake service
    or the registry vouches for it, or it replies to a recent contact on a
    reply port), the network policy allowed it, and the connection is an
    established one between exactly the addresses and ports of the SYN. *)
Theorem opened_only_past_every_gate d trust order now pkt d' out id c :
  handleSYN d trust order now pkt = (d', out) →
  connections (ports d') !! id = Some c → connections (ports d) !! id ≠ Some c →
  is_Some (GetListener (ports d) (DstPort pkt)) ∧
  (Public (cfg d) = true ∨ isTrustedPeer trust (Node (Src pkt)) = true ∨
   replyWindowAdmits (outbound d) (Node (Src pkt)) (DstPort pkt) now = true) ∧
  evaluatePortPolicy (policy d) PolicyEventConnect (Network (Dst pkt)) (DstPort pkt)
    (Node (Src pkt)) 0 EmptyString = true ∧
  State c = StateEstablished ∧ LocalAddr c = Dst pkt ∧ LocalPort c = DstPort pkt ∧
  RemoteAddr c = Src pkt ∧ RemotePort c = SrcPort pkt ∧ ExpectedSeq (rx c) = u32 (Seq pkt + 1).
Proof.
  intros E Hc Hnew. apply handleSYN_cases in E as [[Hs _]|(d1 & ln & Hl & Hs & _ & Htr & Hpol & _ & _ & Ha)].
  { by apply (lookup_weaken _ _ _ _ Hc) in Hs. }
  split; [by rewrite Hl|]. split.
  { unfold trustGate in Htr. unfold isTrustedPeer. zbool.
    destruct Htr as [[[?| ->]%orb_true_iff|?]%orb_true_iff| ->]; rewrite ?orb_true_r; auto. }
  split; [done|].
  apply acceptSYN_cases in Ha as (id' & c' & Eo & _ & _ & _ & _ & [[Hc' _]|[Hc' _]]).
  2:{ destruct Hnew. eapply lookup_weaken; [|exact Hs]. rewrite Hc' in Hc.
      by apply lookup_delete_Some in Hc as [_ ?]. }
  rewrite Hc' in Hc. apply lookup_insert_Some in Hc as [[-> ->]|[_ Hc]].
  2:{ destruct Hnew. by eapply lookup_weaken. }
  pose proof (openConn_opened id (DstPort pkt) (Src pkt) (SrcPort pkt) now pkt) as Ho. rewrite Eo in Ho.
  destruct Ho as (Ho & _ & ? & ? & ? & ? & _). split_and!; try done; apply Ho.
Qed.

(** ** The handshake *)

Lemma synAck_flags c pkt sq :
  HasFlag (synAck c pkt sq) FlagSYN = true ∧ HasFlag (synAck c pkt sq) FlagACK = true.
Proof.
  pose proof flags_single as (Hs & Ha & _). pose proof flags_disjoint as (Hd & _).
  assert (∀ a b, a ≠ 0 → Z.land b a = 0 → negb (Z.land (Z.lor a b) a =? 0) = true ∧
    negb (Z.land (Z.lor b a) a =? 0) = true) as H.
  { intros a b Hne Hz. rewrite !Z.land_lor_distr_l, Hz, Z.land_diag, Z.lor_0_l, Z.lor_0_r.
    apply Z.eqb_neq in Hne. by rewrite Hne. }
  rewrite !HasFlag_spec. cbn [pkFlags synAck answer]. split.
  - apply H; [done|]. by rewrite Z.land_comm.
  - by apply H.
Qed.

Lemma startDial_opens pm nodeID dst dstPort now id c syn pm' :
  startDial pm nodeID dst dstPort now = (Some (id, c, syn), pm') →
  ∃ lp, c = set_SendSeq (set_State (set_LocalAddr (newConn id lp dst dstPort now)
              (mkAddr (Network dst) nodeID)) StateSynSent) (u32 1) ∧
    connections pm' !! id = Some c ∧
    syn = mkPacket Version FlagSYN ProtoStream (LocalAddr c) dst lp dstPort 0 0 (RecvWindow c) [].
Proof.
  unfold startDial. destruct (AllocEphemeralPort pm) as [lp pm1]. case_zif; [done|].
  destruct (NewConnection pm1 now lp dst dstPort) as [id' pm2] eqn:EN. intros E.
  apply pair_equal_spec in E as [E1 E2]. injection E1 as -> Ec Es. subst pm'. exists lp.
  split; [by rewrite <- Ec|]. split; [|by rewrite <- Es, <- Ec].
  rewrite <- Ec. cbn [connections with_conns]. by rewrite lookup_insert_eq.
Qed.

(** C13. The handshake opens both ends.  A dialer sends its SYN; the acceptor
    takes it (it reports the connection established and sends no RST) and its
    SYN-ACK comes back: then both ends are established with empty buffers,
    each expects the other's stream exactly where the other starts it, and the
    packets of each find the other's connection.  This is the state in which
    the end-to-end theorems start. *)
Theorem handshake_opens_both_ends pm nodeID dst dstPort now id c syn pm' d trust order t d' out idA :
  startDial pm nodeID dst dstPort now = (Some (id, c, syn), pm') →
  handleSYN d trust order t syn = (d', out) → OEvent (EvConnEstablished idA) ∈ out →
  (∀ node pkt, OSend node pkt ∈ out → pkFlags pkt ≠ FlagRST) →
  ∃ cA sa, connections (ports d') !! idA = Some cA ∧ OSend nodeID sa ∈ out ∧
    matches (DstPort sa) (Src sa) (SrcPort sa) c = true ∧
    ∀ t' reads, let c' := startRetxLoop (fst (handlePacket c t' sa reads)) in
    opened cA 1 1 ∧ opened c' 1 1 ∧
    LocalAddr cA = RemoteAddr c' ∧ LocalPort cA = RemotePort c' ∧
    RemoteAddr cA = LocalAddr c' ∧ RemotePort cA = LocalPort c'.
Proof.
  intros Hd E Hev Hrst. apply startDial_opens in Hd as (lp & Hc & _ & Hsyn).
  apply handleSYN_cases in E as [[_ Hno]|(d1 & ln & _ & _ & _ & _ & _ & _ & _ & Ha)].
  { by destruct (Hno idA). }
  apply acceptSYN_cases in Ha as (idA' & cA & Eo & _ & _ & _ & _ & [(Hcs & _ & Hout)|[_ Hr]]).
  2:{ destruct (Hrst _ _ Hr). done. }
  assert (idA' = idA) as ->.
  { rewrite Hout in Hev. set_unfold. naive_solver. }
  pose proof (openConn_opened idA (DstPort syn) (Src syn) (SrcPort syn) t syn) as Ho. rewrite Eo in Ho.
  destruct Ho as (Ho & _ & H1 & H2 & H3 & H4 & _).
  exists cA, (synAck cA syn 0). rewrite Hcs, lookup_insert_eq, Hout.
  assert (Src syn = mkAddr (Network dst) nodeID ∧ Dst syn = dst ∧ SrcPort syn = lp ∧
    DstPort syn = dstPort ∧ Seq syn = 0) as (S1 & S2 & S3 & S4 & S5).
  { rewrite Hsyn, Hc. done. }
  split; [done|]. split.
  { rewrite S1. right. by left. }
  split.
  { unfold matches. cbn [synAck answer DstPort Src SrcPort]. rewrite Hc, S2, S3, S4. simpl.
    rewrite !Z.eqb_refl. by rewrite bool_decide_eq_true_2. }
  intros t' reads. unfold handlePacket. destruct (synAck_flags cA syn 0) as [-> ->]. cbn [andb].
  rewrite S5 in Ho. change (0 + 1) with 1 in Ho. split; [done|].
  unfold handleSYNACK, is_state. rewrite bool_decide_eq_true_2 by (by rewrite Hc). cbn [negb].
  rewrite H1, H2, H3, H4, S1, S2, S3, S4, Hc. split_and!; try reflexivity. split; reflexivity.
Qed.

(** ** Repeated SYNs *)

Lemma find_loop_active lp ra rp order : ∀ fb,
  (∀ c, fb = Some c → active (State c) = false) →
  match find_loop lp ra rp fb order with
  | Some c => if active (State c) then matches lp ra rp c = true ∧ ∃ id, (id, c) ∈ order
              else ∀ e, e ∈ order → matches lp ra rp e.2 = true → active (State e.2) = false
  | None => ∀ e, e ∈ order → matches lp ra rp e.2 = true → active (State e.2) = false
  end.
Proof.
  induction order as [|[id c] order IH]; intros fb Hfb; cbn [find_loop].
  { destruct fb as [c|]; [rewrite (Hfb c eq_refl)|]; set_solver. }
  assert (∀ fb', (∀ c, fb' = Some c → active (State c) = false) →
    (matches lp ra rp c = true → active (State c) = false) →
    match find_loop lp ra rp fb' order with
    | Some c0 => if active (State c0) then matches lp ra rp c0 = true ∧ ∃ id0, (id0, c0) ∈ (id, c) :: order
              else ∀ e, e ∈ (id, c) :: order → matches lp ra rp e.2 = true → active (State e.2) = false
    | None => ∀ e, e ∈ (id, c) :: order → matches lp ra rp e.2 = true → active (State e.2) = false
    end) as Hk.
  { intros fb' Hfb' Hc. specialize (IH fb' Hfb'). destruct (find_loop _ _ _ _ _) as [c0|].
    - destruct (active (State c0)).
      + destruct IH as [? [id0 ?]]. split; [done|]. exists id0. by right.
      + intros e [->|He]%elem_of_cons; auto.
    - intros e [->|He]%elem_of_cons; auto. }
  destruct (matches lp ra rp c) eqn:Em; [destruct (active (State c)) eqn:Ea|].
  - rewrite Ea. split; [done|]. exists id. by left.
  - apply Hk; [|done]. by intros ? [= <-].
  - by apply Hk.
Qed.

(** With no active match before, the one just added is found. *)
Lemma find_new order order' id c pkt (m m1 : gmap Z Connection) :
  order ≡ₚ map_to_list m → m1 ⊆ m →
  (∀ c, FindConnection (DstPort pkt) (Src pkt) (SrcPort pkt) order = Some c → active (State c) = false) →
  matches (DstPort pkt) (Src pkt) (SrcPort pkt) c = true → active (State c) = true →
  order' ≡ₚ map_to_list (<[id := c]> m1) →
  FindConnection (DstPort pkt) (Src pkt) (SrcPort pkt) order' = Some c.
Proof.
  intros Hord Hs Hno Hm Ha Hord'. unfold FindConnection in *.
  assert (∀ e, e ∈ order → matches (DstPort pkt) (Src pkt) (SrcPort pkt) e.2 = true →
    active (State e.2) = false) as Hold.
  { pose proof (find_loop_active (DstPort pkt) (Src pkt) (SrcPort pkt) order None ltac:(done)) as H.
    destruct (find_loop _ _ _ _ order) as [c0|]; [|done]. by rewrite (Hno c0) in H. }
  assert ((id, c) ∈ order') as Hin.
  { rewrite Hord'. apply elem_of_map_to_list. by rewrite lookup_insert_eq. }
  pose proof (find_loop_active (DstPort pkt) (Src pkt) (SrcPort pkt) order' None ltac:(done)) as H.
  destruct (find_loop _ _ _ _ order') as [c0|].
  2:{ specialize (H _ Hin Hm). simpl in H. congruence. }
  destruct (active (State c0)) eqn:Ea0.
  2:{ specialize (H _ Hin Hm). simpl in H. congruence. }
  destruct H as [Hm0 [k Hk]]. rewrite Hord' in Hk. apply elem_of_map_to_list in Hk.
  apply lookup_insert_Some in Hk as [[_ ->]|[_ Hk]]; [done|].
  apply (lookup_weaken _ _ _ _ Hk) in Hs. apply elem_of_map_to_list in Hs. rewrite <- Hord in Hs.
  specialize (Hold _ Hs Hm0). simpl in Hold. congruence.
Qed.

(** A repeated SYN changes nothing.  A SYN was accepted, with no active
    connection on its ports before; the same SYN comes again, because the
    SYN-ACK was lost or slow: it is answered with the very same SYN-ACK, and the
    daemon's whole state is as before, whatever order the table is searched in
    and whatever the gates would now say. *)
Theorem repeated_syn_is_idempotent d trust order now pkt d' out id trust' order' now' :
  order ≡ₚ map_to_list (connections (ports d)) →
  (∀ c, FindConnection (DstPort pkt) (Src pkt) (SrcPort pkt) order = Some c → active (State c) = false) →
  handleSYN d trust order now pkt = (d', out) → OEvent (EvConnEstablished id) ∈ out →
  (∀ node p, OSend node p ∈ out → pkFlags p ≠ FlagRST) →
  order' ≡ₚ map_to_list (connections (ports d')) →
  ∃ sa, OSend (Node (Src pkt)) sa ∈ out ∧
    handleSYN d' trust' order' now' pkt = (d', [OSend (Node (Src pkt)) sa]).
Proof.
  intros Hord Hno E Hev Hrst Hord'. pose proof E as E'.
  apply handleSYN_cases in E' as [[_ Hne]|(d1 & ln & Hl & Hs & Hl1 & _ & _ & _ & _ & Ha)].
  { by destruct (Hne id). }
  apply acceptSYN_cases in Ha as (id' & cA & Eo & _ & _ & _ & _ & [(Hcs & Hls & Hout)|[_ Hr]]).
  2:{ destruct (Hrst _ _ Hr). done. }
  exists (synAck cA pkt 0). split; [rewrite Hout; right; by left|].
  pose proof (openConn_opened id' (DstPort pkt) (Src pkt) (SrcPort pkt) now pkt) as Ho. rewrite Eo in Ho.
  destruct Ho as (Ho & _ & H1 & H2 & H3 & H4 & H5 & H6 & _).
  unfold handleSYN, GetListener in *. rewrite Hls, Hl1, Hl.
  rewrite (find_new order order' id' cA _ (connections (ports d)) (connections (ports d1))); try done.
  2:{ unfold matches. rewrite H2, H3, H4, !Z.eqb_refl. by rewrite bool_decide_eq_true_2. }
  2:{ by rewrite (op_state _ _ _ Ho). }
  2:{ by rewrite Hord', Hcs. }
  rewrite (op_fin _ _ _ Ho), H5, H6. unfold is_state. rewrite (op_state _ _ _ Ho).
  rewrite (bool_decide_eq_true_2 (StateEstablished = StateEstablished)), orb_true_r by done. done.
Qed.
End Proofs.

(** ** A dial and its acceptance *)
Module Demo.
#[local] Existing Instance documented_protocol.

Definition cfg0 : Config := mkConfig true false 0 0 0.
Definition policy0 : PolicyState := mkPolicy ∅ ∅ None (λ _, []).
(** A public node that listens on port 80. *)
Definition d0 : Daemon :=
  mkDaemon cfg0 (snd (Bind NewPortManager 80)) (newLimiter cfg0 100) ∅ policy0 0.
Definition trust0 : TrustView := mkTrust (λ _, false) None.
Definition dial0 := startDial NewPortManager 7 (mkAddr 0 2) 80 100.
Definition c0 : Connection :=
  Eval vm_compute in match fst dial0 with Some (_, c, _) => c | None => newConn 0 0 (mkAddr 0 0) 0 0 end.
Definition syn0 : Packet :=
  Eval vm_compute in match fst dial0 with Some (_, _, s) => s | None => rstPacket c0 end.
Definition d1 : Daemon := fst (handleSYN d0 trust0 [] 200 syn0).
Definition out1 : list Output := snd (handleSYN d0 trust0 [] 200 syn0).

Lemma dialled : startDial NewPortManager 7 (mkAddr 0 2) 80 100 = (Some (1, c0, syn0), snd dial0).
Proof. unfold dial0. vm_compute. reflexivity. Defined.

Lemma accepted : handleSYN d0 trust0 [] 200 syn0 = (d1, out1).
Proof. apply surjective_pairing. Defined.

Lemma established : OEvent (EvConnEstablished 1) ∈ out1.
Proof. vm_compute. right. right. left. Defined.

Lemma no_rst node pkt : OSend node pkt ∈ out1 → pkFlags pkt ≠ FlagRST.
Proof.
  intros H. vm_compute in H.
  repeat (apply elem_of_cons in H as [H|H]; [try discriminate H; injection H as _ ->; vm_compute; discriminate|]).
  apply elem_of_nil in H as [].
Defined.

Lemma handshake_opens_both_ends_witness :
  ∃ cA sa, connections (ports d1) !! 1 = Some cA ∧ OSend 7 sa ∈ out1 ∧
    opened cA 1 1 ∧ opened (startRetxLoop (fst (handlePacket c0 300 sa []))) 1 1.
Proof.
  destruct (handshake_opens_both_ends NewPortManager 7 (mkAddr 0 2) 80 100 1 c0 syn0 (snd dial0)
    d0 trust0 [] 200 d1 out1 1 dialled accepted established no_rst) as (cA & sa & H1 & H2 & _ & H).
  exists cA, sa. destruct (H 300 []) as (H3 & H4 & _).
  split; [exact H1|]. split; [exact H2|]. split; [exact H3|exact H4].
Defined.

Lemma opened_only_past_every_gate_witness :
  ∃ c, connections (ports d1) !! 1 = Some c ∧ State c = StateEstablished ∧
       RemoteAddr c = Src syn0 ∧ Public (cfg d0) = true.
Proof.
  destruct (connections (ports d1) !! 1) as [c|] eqn:E; [|exfalso; vm_compute in E; discriminate].
  exists c. split; [reflexivity|].
  destruct (opened_only_past_every_gate d0 trust0 [] 200 syn0 d1 out1 1 c accepted E) as
    (_ & _ & _ & H1 & _ & _ & H2 & _).
  - vm_compute. discriminate.
  - split; [exact H1|]. split; [exact H2|reflexivity].
Defined.

Lemma connection_limits_hold_witness :
  TotalActiveConnections (ports d1) = 1 ∧
  TotalActiveConnections (ports d1) <= maxTotalConnections (cfg d0).
Proof.
  split; [vm_compute; reflexivity|].
  apply (proj1 (connection_limits_hold d0 trust0 [] 200 syn0 d1 out1 accepted)). vm_compute. discriminate.
Defined.

Lemma repeated_syn_is_idempotent_witness :
  ∃ sa, handleSYN d1 trust0 (map_to_list (connections (ports d1))) 300 syn0 =
          (d1, [OSend (Node (Src syn0)) sa]).
Proof.
  destruct (repeated_syn_is_idempotent d0 trust0 [] 200 syn0 d1 out1 1 trust0
    (map_to_list (connections (ports d1))) 300) as (sa & _ & H).
  - vm_compute. constructor.
  - intros c H. vm_compute in H. discriminate.
  - exact accepted.
  - exact established.
  - exact no_rst.
  - reflexivity.
  - exists sa. exact H.
Defined.
End Demo.
