(* ===== verification/Dial.v ===== *)
(** * Dialling (pkg/daemon/daemon.go: [dialConnectionLocked])

    A dial checks the policy, makes sure of a tunnel, opens the reply window,
    sends a SYN and then waits in a loop for one of four things: the caller
    gives up, the handshake signals, a slow tick, or the retransmission timer.
    The loop is a step function on the dial's local variables; what the tunnel,
    the clock and the configuration say during a step is in [DialEnv], with one
    field per question the source asks, since the answers may change between
    two of them.  The proactive trust handshake, a goroutine on the side, is
    not modelled. *)
From stdpp Require Import strings.
From S2P Require Import Prelude Protocol Conn Sender PortManager Stream Admission Accept.
Open Scope Z_scope.

Definition DialDirectRetries : Z := 3.
Definition DialMaxRetries : Z := 7.
Definition DialInitialRTO : duration := 250 * Millisecond.
Definition DialMaxRTO : duration := 8 * Second.
Definition DialKeyExchangeWait : duration := 10 * Second.

Inductive DialError :=
| ErrContext | ErrPolicy | ErrTunnel | ErrEphemeralExhausted | ErrSend
| ErrConnRefused | ErrDialTimeout | ErrDialKeyExchange.

(** What a dial does to the rest of the daemon, in order. *)
Inductive DialEffect :=
| FxSend (pkt : Packet)          (* hand a SYN to the tunnel *)
| FxSetRelay (on : bool)         (* [tunnels.SetRelayPeer] for the peer *)
| FxStartRetx                    (* [startRetxLoop] *)
| FxForget                       (* [forgetPeerResolution] *)
| FxDialOK                       (* the dial counters after a success *)
| FxDialTimeout.                 (* [consecutiveDialTimeouts.Add(1)] *)

Inductive SendResult := SendOK | SendPendingDropped | SendFailed.

(** The local variables of the loop. *)
Record DialState := mkDial {
  dialConn : Z;
  synPkt : Packet;
  retries : Z;
  directRetries : Z;
  relayActive : bool;
  relayActivatedHere : bool;
  dialRTO : duration;
  synQueued : bool;
  keyWaitUntil : gotime;
}.

(** The answers a timer step gets: [key1] to [key4] are the calls of
    [keyPending] in the order of the source. *)
Record DialEnv := mkDialEnv {
  envNow : gotime;
  connSendSeq : Z;                 (* the connection's SendSeq *)
  beacon : bool;                   (* config.BeaconAddr is set *)
  keyViaRelayOnly : bool;
  relayPinned : bool;
  otherDialOK : bool;              (* another dial completed meanwhile *)
  sendOK : bool;
  key1 : bool; key2 : bool; key3 : bool; key4 : bool;
}.

Inductive DialEvent :=
| DialCancel (pinned : bool)       (* ctx is done *)
| DialPoll (st : ConnState)        (* [DialCh], or the tick: the connection's state *)
| DialTimer (env : DialEnv).

Section Dial.
Context {P : Protocol}.
Implicit Types (x : DialState) (pm : PortManager).

Inductive DialNext :=
| DialGo (x : DialState)
| DialOver (err : option DialError).

Definition with_relay x : DialState :=
  mkDial (dialConn x) (synPkt x) (retries x) (directRetries x) true true DialInitialRTO
    (synQueued x) (keyWaitUntil x).
Definition with_retries x (n : Z) : DialState :=
  mkDial (dialConn x) (synPkt x) n (directRetries x) (relayActive x) (relayActivatedHere x)
    (dialRTO x) (synQueued x) (keyWaitUntil x).
Definition with_direct x (n : Z) : DialState :=
  mkDial (dialConn x) (synPkt x) (retries x) n (relayActive x) (relayActivatedHere x)
    (dialRTO x) (synQueued x) (keyWaitUntil x).
Definition with_syn x (pkt : Packet) (queued : bool) (rto : duration) : DialState :=
  mkDial (dialConn x) pkt (retries x) (directRetries x) (relayActive x) (relayActivatedHere x)
    rto queued (keyWaitUntil x).
Definition set_Seq (p : Packet) (sq : Z) : Packet :=
  mkPacket (pkVersion p) (pkFlags p) (pkProtocol p) (Src p) (Dst p) (SrcPort p) (DstPort p) sq
    (Ack p) (Window p) (Payload p).

(** [dialOutcome]: whether the dial is over, and how. The dial holds the
    connection by pointer, in the table or not; [st] is its state. *)
Definition dialOutcome pm x (st : ConnState) : PortManager * DialNext * list DialEffect :=
  match st with
  | StateEstablished => (pm, DialOver None, [FxStartRetx; FxDialOK])
  | StateFinWait | StateTimeWait => (pm, DialOver None, [FxDialOK])
  | StateClosed => (snd (RemoveConnection pm (dialConn x)), DialOver (Some ErrConnRefused), [])
  | _ => (pm, DialGo x, [])
  end.

(** This dial's own relay flip is undone, unless the flag is pinned by now. *)
Definition undoRelay x (pinned : bool) : list DialEffect :=
  if relayActivatedHere x && negb pinned then [FxSetRelay false] else [].

Definition dialTimer pm x (env : DialEnv) : PortManager * DialNext * list DialEffect :=
  if key1 env && (envNow env <? keyWaitUntil x) then
    if synQueued x then (pm, DialGo x, [])
    else (pm, DialGo (with_syn x (synPkt x) (sendOK env) (dialRTO x)), [FxSend (synPkt x)])
  else
    let viaRelay := negb (key1 env) && negb (relayActive x) && (retries x <? directRetries x) &&
                    beacon env && keyViaRelayOnly env in
    let fx1 := if viaRelay then [FxSetRelay true] else [] in
    let x := if viaRelay then with_direct (with_relay x) 0 else x in
    let x := with_retries x (retries x + 1) in
    let switch := (retries x =? directRetries x) && beacon env && negb (relayActive x) in
    let fx2 := if switch then [FxSetRelay true] else [] in
    let x := if switch then with_relay x else x in
    if DialMaxRetries <? retries x then
      (snd (RemoveConnection pm (dialConn x)),
       DialOver (Some (if key2 env then ErrDialKeyExchange else ErrDialTimeout)),
       fx1 ++ fx2 ++ [FxForget] ++ undoRelay x (relayPinned env) ++
       (if otherDialOK env then [] else [FxDialTimeout]))
    else
      let pkt := set_Seq (synPkt x) (u32 (connSendSeq env - 1)) in
      let resend := negb (key3 env) || negb (synQueued x) in
      let queued := if resend then sendOK env && key4 env else synQueued x in
      let rto := let r := i64 (dialRTO x * 2) in if DialMaxRTO <? r then DialMaxRTO else r in
      (pm, DialGo (with_syn x pkt queued rto),
       fx1 ++ fx2 ++ (if resend then [FxSend pkt] else [])).

(** One round of the loop. *)
Definition dialStep pm x (ev : DialEvent) : PortManager * DialNext * list DialEffect :=
  match ev with
  | DialCancel pinned =>
      (snd (RemoveConnection pm (dialConn x)), DialOver (Some ErrContext), undoRelay x pinned)
  | DialPoll st => dialOutcome pm x st
  | DialTimer env => dialTimer pm x env
  end.

(** The loop, over the events it selects; the rest of the daemon may change
    the port manager before each of them. *)
Fixpoint dialLoop pm x (evs : list ((PortManager → PortManager) * DialEvent))
  : PortManager * DialNext * list DialEffect :=
  match evs with
  | [] => (pm, DialGo x, [])
  | (world, ev) :: evs =>
      let '(pm, next, fx) := dialStep (world pm) x ev in
      match next with
      | DialGo x => let '(pm, next, fx') := dialLoop pm x evs in (pm, next, fx ++ fx')
      | DialOver _ => (pm, next, fx)
      end
  end.

(** What the dial is told before its loop. *)
Record DialStart := mkDialStart {
  ctxDone : bool; tunnelOK : bool; compat : bool; wasRelay : bool; isRelay : bool;
  isPinned : bool; firstSend : SendResult; keyPending : bool; startNow : gotime;
}.

Definition beginDial (d : Daemon) (nodeID : Z) (dst : Addr) (dstPort : Z) (s : DialStart)
  : Daemon * (DialError + DialState) * list DialEffect :=
  if ctxDone s then (d, inl ErrContext, [])
  else if negb (evaluatePortPolicy (policy d) PolicyEventDial (Network dst) dstPort (Node dst) 0
                  EmptyString) then (d, inl ErrPolicy, [])
  else if negb (tunnelOK s) then (d, inl ErrTunnel, [])
  else
    let d := mkDaemon (cfg d) (ports d) (lim d) (note (outbound d) (Node dst) (startNow s))
               (policy d) (AcceptQueueDrops d) in
    let fx := if compat s && negb (wasRelay s) then [FxSetRelay true] else [] in
    let '(r, pm) := startDial (ports d) nodeID dst dstPort (startNow s) in
    match r with
    | None => (with_ports d pm, inl ErrEphemeralExhausted, fx)
    | Some (id, c, syn) =>
        let fx := fx ++ [FxSend syn] in
        match firstSend s with
        | SendFailed => (with_ports d (snd (RemoveConnection pm id)), inl ErrSend, fx)
        | res =>
            let queued := match res with SendOK => keyPending s | _ => false end in
            let direct := if isRelay s && isPinned s then 0 else DialDirectRetries in
            (with_ports d pm,
             inr (mkDial id syn 0 direct (isRelay s) false DialInitialRTO queued
                    (startNow s + DialKeyExchangeWait)), fx)
        end
    end.

(** ** Theorems *)

(** A timer that does not just wait for the key. *)
Definition counted x (ev : DialEvent) : bool :=
  match ev with
  | DialTimer env => negb (key1 env && (envNow env <? keyWaitUntil x))
  | _ => false
  end.
Definition counted_timers x (evs : list ((PortManager → PortManager) * DialEvent)) : Z :=
  Z.of_nat (length (List.filter (λ e, counted x e.2) evs)).

Record dial_ok x : Prop := {
  do_rto : DialInitialRTO <= dialRTO x <= DialMaxRTO;
  do_retries : 0 <= retries x <= DialMaxRetries;
  do_here : relayActivatedHere x = true → relayActive x = true;
}.

Lemma double_rto r :
  DialInitialRTO <= r <= DialMaxRTO →
  DialInitialRTO <= (let r := i64 (r * 2) in if DialMaxRTO <? r then DialMaxRTO else r) <= DialMaxRTO.
Proof.
  unfold DialInitialRTO, DialMaxRTO, Millisecond, Second, i64. intros Hr. cbv zeta.
  rewrite (Z.mod_small (r * 2 + _)) by lia. case_zif; lia.
Qed.

Lemma dialStep_go pm x ev pm' x' fx :
  dial_ok x → dialStep pm x ev = (pm', DialGo x', fx) →
  dial_ok x' ∧ keyWaitUntil x' = keyWaitUntil x ∧ dialConn x' = dialConn x ∧
  retries x' = retries x + (if counted x ev then 1 else 0).
Proof.
  intros [H1 H2 H3]. assert (DialInitialRTO <= DialMaxRTO) as Hm by done.
  destruct ev as [pinned|st|env]; cbn [dialStep].
  - done.
  - unfold dialOutcome. destruct st; intros [= <- <- <-]; split_and!; try done; simpl; lia.
  - unfold dialTimer. cbn [counted]. destruct (key1 env && _) eqn:Ek; cbn [negb].
    + case_zif; intros [= <- <- <-]; split_and!; try done; simpl; lia.
    + set (via := negb (key1 env) && _ && _ && _ && _). cbv zeta.
      set (x1 := if via then _ else x).
      assert (retries x1 = retries x ∧ keyWaitUntil x1 = keyWaitUntil x ∧ dialConn x1 = dialConn x ∧
        DialInitialRTO <= dialRTO x1 <= DialMaxRTO ∧
        (relayActivatedHere x1 = true → relayActive x1 = true)) as (R1 & K1 & C1 & T1 & A1).
      { unfold x1. destruct via; split_and!; try done; simpl; lia. }
      set (sw := (retries (with_retries x1 _) =? _) && _ && _).
      set (x2 := if sw then _ else _).
      assert (retries x2 = retries x + 1 ∧ keyWaitUntil x2 = keyWaitUntil x ∧ dialConn x2 = dialConn x ∧
        DialInitialRTO <= dialRTO x2 <= DialMaxRTO ∧
        (relayActivatedHere x2 = true → relayActive x2 = true)) as (R2 & K2 & C2 & T2 & A2).
      { unfold x2. rewrite <- R1, <- K1, <- C1. destruct sw; split_and!; try done; simpl; lia. }
      case_zif; [done|]. intros E. apply pair_equal_spec in E as [E _].
      apply pair_equal_spec in E as [_ E]. injection E as <-.
      split_and!; [split| | |]; try done.
      * by apply double_rto.
      * cbn [retries with_syn]. rewrite R2. split; lia.
Qed.

(** C16. A dial ends.  While it runs, its retransmission timer is between 250 ms
    and 8 s and it has counted at most [DialMaxRetries] retries; and once the
    timer has fired eight times, not counting the times it only waits for a
    key exchange before its deadline, the dial is over, whatever else happens
    in the daemon, the tunnel or the network. *)
Theorem dial_terminates pm x evs pm' next fx :
  dial_ok x → retries x = 0 → dialLoop pm x evs = (pm', next, fx) →
  (counted_timers x evs > DialMaxRetries → ∃ err, next = DialOver err) ∧
  (∀ x', next = DialGo x' → retries x' = counted_timers x evs ∧
     retries x' <= DialMaxRetries ∧ DialInitialRTO <= dialRTO x' <= DialMaxRTO).
Proof.
  assert (∀ evs pm x pm' next fx, dial_ok x → dialLoop pm x evs = (pm', next, fx) →
    ∀ x', next = DialGo x' → retries x' = retries x + counted_timers x evs ∧ dial_ok x') as H.
  { clear. induction evs as [|[world ev] evs IH]; intros pm x pm' next fx Hx; cbn [dialLoop].
    { intros [= <- <- <-] x' [= <-]. unfold counted_timers. simpl. split; [lia|done]. }
    destruct (dialStep (world pm) x ev) as [[pm1 next1] fx1] eqn:E1. destruct next1 as [x1|err].
    - apply dialStep_go in E1 as (Hx1 & Hk & _ & Hr); [|done].
      destruct (dialLoop pm1 x1 evs) as [[pm2 next2] fx2] eqn:E2. intros [= <- <- <-] x' ->.
      destruct (IH _ _ _ _ _ Hx1 E2 x' eq_refl) as [Hr' ?]. split; [|done].
      rewrite Hr', Hr. unfold counted_timers. cbn [List.filter snd].
      assert (∀ e, counted x1 e = counted x e) as Hc.
      { intros []; try done. simpl. by rewrite Hk. }
      rewrite (filter_ext (λ e, counted x1 e.2) (λ e, counted x e.2)) by (intros; apply Hc).
      destruct (counted x ev); simpl length; lia.
    - intros [= <- <- <-]. done. }
  intros Hx H0 E. split.
  - intros Hc. destruct next as [x'|err]; [|by exists err].
    destruct (H _ _ _ _ _ _ Hx E x' eq_refl) as [Hr [_ Hd _]]. lia.
  - intros x' ->. destruct (H _ _ _ _ _ _ Hx E x' eq_refl) as [Hr [H1 Hd _]].
    split; [lia|]. split; [by destruct Hd|done].
Qed.

(** The relay settings among the effects, in order. *)
Definition relays (fx : list DialEffect) : list bool :=
  omap (λ e, match e with FxSetRelay on => Some on | _ => None end) fx.

Lemma relays_app l k : relays (l ++ k) = relays l ++ relays k.
Proof. apply omap_app. Qed.

Lemma resend_relays (b : bool) pkt : relays (if b then [FxSend pkt] else []) = [].
Proof. by destruct b. Qed.
Lemma timeout_relays (b : bool) : relays (if b then [] else [FxDialTimeout]) = [].
Proof. by destruct b. Qed.

Definition event_pinned (ev : DialEvent) : bool :=
  match ev with DialCancel pinned => pinned | DialTimer env => relayPinned env | DialPoll _ => false end.

(** A round that goes on records a flip it makes, and never takes one back. *)
Lemma dialStep_go_relay pm x ev pm' x' fx :
  dialStep pm x ev = (pm', DialGo x', fx) →
  dialConn x' = dialConn x ∧ (∀ b, b ∈ relays fx → b = true) ∧
  relayActivatedHere x' = relayActivatedHere x || bool_decide (true ∈ relays fx).
Proof.
  destruct ev as [pinned|st|env]; cbn [dialStep]; [done| |].
  - unfold dialOutcome. destruct st; intros [= <- <- <-]; rewrite orb_false_r; (split; [done|split; [set_solver|done]]).
  - unfold dialTimer. destruct (key1 env && _).
    + case_zif; intros [= <- <- <-]; rewrite orb_false_r; (split; [done|split; [set_solver|done]]).
    + set (via := negb (key1 env) && _ && _ && _ && _). cbv zeta.
      set (x1 := if via then _ else x). set (sw := (retries (with_retries x1 _) =? _) && _ && _).
      case_zif; [done|]. intros E. apply pair_equal_spec in E as [E <-].
      apply pair_equal_spec in E as [_ E]. injection E as <-. rewrite !relays_app.
      rewrite resend_relays, app_nil_r.
      unfold x1. destruct via, sw; simpl; (split; [done|split; [set_solver|]]);
        rewrite ?orb_true_r, ?orb_false_r; try done; by rewrite ?orb_true_r.
Qed.

(** The last round removes the connection and undoes this dial's flip. *)
Lemma dialStep_over pm x ev pm' err fx :
  dialStep pm x ev = (pm', DialOver (Some err), fx) →
  pm' = snd (RemoveConnection pm (dialConn x)) ∧
  (err ≠ ErrConnRefused → event_pinned ev = false →
   relayActivatedHere x = true ∨ true ∈ relays fx → last (relays fx) = Some false).
Proof.
  destruct ev as [pinned|st|env]; cbn [dialStep].
  - intros [= <- <- <-]. split; [done|]. intros _ Hp. simpl in Hp. subst pinned. unfold undoRelay.
    destruct (relayActivatedHere x); simpl; [done|]. intros [?|?]; [done|set_solver].
  - unfold dialOutcome. destruct st; intros [= <- <- <-]. by split.
  - unfold dialTimer. destruct (key1 env && _); [by case_zif|].
    set (via := negb (key1 env) && _ && _ && _ && _). cbv zeta.
    set (x1 := if via then _ else x). set (sw := (retries (with_retries x1 _) =? _) && _ && _).
    case_zif; [|done]. intros E. apply pair_equal_spec in E as [E <-].
    apply pair_equal_spec in E as [<- E]. split; [unfold x1; by destruct via, sw|].
    intros _ Hp. cbn [event_pinned] in Hp. rewrite Hp. rewrite !relays_app.
    rewrite timeout_relays.
    unfold x1, undoRelay. destruct via, sw; simpl; try done.
    destruct (relayActivatedHere x); simpl; [done|]. intros [?|?]; [done|set_solver].
Qed.

Lemma last_app_some {A} (l k : list A) y : last k = Some y → last (l ++ k) = Some y.
Proof. intros H. rewrite last_app, H. done. Qed.

(** A failed dial leaves nothing behind.  However a dial fails, its
    connection is gone from the table when it returns; and if it gave up (the
    caller cancelled, or the retries ran out) after switching the peer to the
    relay itself, the last thing it did to the peer's relay flag was to clear
    it, unless the flag was pinned meanwhile. *)
Theorem failed_dial_cleans_up pm x evs pm' err fx :
  relayActivatedHere x = false → dialLoop pm x evs = (pm', DialOver (Some err), fx) →
  connections pm' !! dialConn x = None ∧
  (err ≠ ErrConnRefused → Forall (λ e, event_pinned e.2 = false) evs →
   true ∈ relays fx → last (relays fx) = Some false).
Proof.
  assert (∀ evs pm x pm' err fx, dialLoop pm x evs = (pm', DialOver (Some err), fx) →
    connections pm' !! dialConn x = None ∧
    (err ≠ ErrConnRefused → Forall (λ e, event_pinned e.2 = false) evs →
     relayActivatedHere x = true ∨ true ∈ relays fx → last (relays fx) = Some false)) as H.
  { clear. induction evs as [|[world ev] evs IH]; intros pm x pm' err fx; [done|]. cbn [dialLoop].
    destruct (dialStep (world pm) x ev) as [[pm1 next1] fx1] eqn:E1. destruct next1 as [x1|e1].
    - apply dialStep_go_relay in E1 as (Hc & Ht & Hh).
      destruct (dialLoop pm1 x1 evs) as [[pm2 next2] fx2] eqn:E2. intros [= <- -> <-].
      destruct (IH _ _ _ _ _ E2) as [H1 H2]. rewrite Hc in H1. split; [done|].
      intros He [_ Hp]%Forall_cons Hor. rewrite relays_app in Hor |- *.
      apply last_app_some, H2; [done..|]. rewrite Hh.
      destruct Hor as [->|[Hin|Hin]%elem_of_app]; [by left| |by right].
      left. by rewrite bool_decide_eq_true_2, orb_true_r.
    - intros [= <- -> <-]. apply dialStep_over in E1 as [-> H2]. split.
      + rewrite Remove_conns. apply lookup_delete_eq.
      + intros He [Hp _]%Forall_cons Hor. by apply H2. }
  intros Hx E. destruct (H _ _ _ _ _ _ E) as [H1 H2]. split; [done|]. intros. apply H2; auto.
Qed.
End Dial.

Module Demo.
#[local] Existing Instance documented_protocol.

(** A dial whose direct phase fails: at the third timer it goes to the relay. *)
Definition env0 : DialEnv := mkDialEnv 1000 1 true false false false true false false false false.
Definition syn0 : Packet := mkPacket 1 1 1 (mkAddr 0 7) (mkAddr 0 2) 49152 80 0 0 512 [].
Definition dial0 : DialState := mkDial 1 syn0 0 DialDirectRetries false false DialInitialRTO false 500.
Definition timers : list ((PortManager → PortManager) * DialEvent) := repeat (id, DialTimer env0) 8.
Definition end0 := dialLoop NewPortManager dial0 timers.

Lemma dial0_ok : dial_ok dial0.
Proof. split; vm_compute; try discriminate. split; discriminate. split; discriminate. Defined.

Lemma ends : dialLoop NewPortManager dial0 timers =
  (fst (fst end0), DialOver (Some ErrDialTimeout), snd end0).
Proof. vm_compute. reflexivity. Defined.

Lemma dial_terminates_witness : ∃ err, snd (fst end0) = DialOver err.
Proof.
  destruct (dial_terminates NewPortManager dial0 timers _ (snd (fst end0)) (snd end0) dial0_ok eq_refl
    ends) as [H _].
  apply H. vm_compute. reflexivity.
Defined.

Lemma failed_dial_cleans_up_witness :
  true ∈ relays (snd end0) ∧ last (relays (snd end0)) = Some false.
Proof.
  assert (true ∈ relays (snd end0)) as Hin by (vm_compute; left).
  split; [exact Hin|].
  apply (proj2 (failed_dial_cleans_up NewPortManager dial0 timers _ ErrDialTimeout (snd end0) eq_refl ends)).
  - discriminate.
  - repeat constructor.
  - exact Hin.
Defined.
End Demo.
