(* ===== verification/Sweep.v ===== *)
(** * The connection sweeper (pkg/daemon/daemon.go: [keepaliveSweep] and the
    connection part of [idleSweepLoop])

    Every 15 seconds the daemon removes connections in a terminal state and
    dials older than [SynSentReapDuration], closes those idle for too long, and
    probes idle ones.  A sweep works on a snapshot of connections (pointers);
    each is looked up again in the table here when it is changed. *)
From S2P Require Import Prelude SeqNum Sack Protocol Conn Sender PortManager Reassembly Stream.
From S2P Require Import SenderProofs Endpoint EndpointProofs EndToEnd StreamTheorems Admission Accept AcceptProofs Dial.
Open Scope Z_scope.

Section Sweep.
Context {P : Protocol}.
Implicit Types (c : Connection) (pm : PortManager).

(** Apply [f] to a registered connection. *)
Definition onConn pm (id : Z) (f : Connection → Connection * list Output)
  : PortManager * list Output :=
  match connections pm !! id with
  | None => (pm, [])
  | Some c => let '(c, out) := f c in (with_conns pm (<[id := c]> (connections pm)), out)
  end.

(** Clean up one stale connection: its held FIN goes out, and it is removed. *)
Definition reapConn pm c (now : gotime) : PortManager * list Output :=
  let '(c, out) := releaseHeldFIN c now in
  let c := set_rx c (CloseRecvBuf (rx c)) in
  (snd (RemoveConnection pm (ID c)), out).

Fixpoint sweepStale pm (stale : list Connection) (now : gotime) : PortManager * list Output :=
  match stale with
  | [] => (pm, [])
  | c :: stale =>
      let '(pm, out) := reapConn pm c now in
      let '(pm, out') := sweepStale pm stale now in (pm, out ++ out')
  end.

(** What a close needs to know: the daemon is stopping, SendMu is free, and the
    tunnel's verdicts. *)
Record CloseEnv := mkCloseEnv { stopping : bool; locked : bool; oks : list bool }.

Definition closeIdle c (now : gotime) (env : CloseEnv) : Connection * list Output :=
  let '(c', out) := CloseConnection c now (stopping env) (locked env) (oks env) in
  (c', OEvent (EvConnIdleTimeout (ID c)) :: out).

Definition keepaliveProbe c : Packet := connPacket c FlagACK (SendSeq c) (RecvAck c) (RecvWindow c) [].

Definition keepaliveOne c (now : gotime) (env : CloseEnv) : Connection * list Output :=
  if negb (is_state c StateEstablished) then (c, [])
  else if 3 <=? KeepaliveUnacked c then
    let '(c', out) := CloseConnection c now (stopping env) (locked env) (oks env) in
    (c', OEvent (EvConnDeadPeer (ID c)) :: out)
  else
    (set_KeepaliveUnacked c (KeepaliveUnacked c + 1),
     [OSend (Node (RemoteAddr c)) (keepaliveProbe c)]).

Fixpoint sweepEach pm (conns : list Connection) (f : Connection → Connection * list Output)
  : PortManager * list Output :=
  match conns with
  | [] => (pm, [])
  | c :: conns =>
      let '(pm, out) := onConn pm (ID c) f in
      let '(pm, out') := sweepEach pm conns f in (pm, out ++ out')
  end.

Definition keepaliveSweep pm (now : gotime) (interval : duration) (env : CloseEnv)
  : PortManager * list Output :=
  sweepEach pm (IdleConnections pm now interval) (λ c, keepaliveOne c now env).

(** One tick, as far as connections go. *)
Definition idleSweep pm (now : gotime) (timeWait idle keepalive : duration) (env : CloseEnv)
  : PortManager * list Output :=
  let '(pm, out1) := sweepStale pm (StaleConnections pm now timeWait) now in
  let '(pm, out2) := sweepEach pm (IdleConnections pm now idle) (λ c, closeIdle c now env) in
  let '(pm, out3) := keepaliveSweep pm now keepalive env in
  (pm, out1 ++ out2 ++ out3).

(** ** Theorems *)

(** Entries are registered under their own id. *)
Definition ids_ok pm : Prop := map_Forall (λ id c, ID c = id) (connections pm).

Lemma sweepStale_conns stale : ∀ pm now,
  connections (fst (sweepStale pm stale now)) =
    filter (λ e, e.1 ∉ map ID stale) (connections pm).
Proof.
  induction stale as [|c stale IH]; intros pm now.
  { simpl. symmetry. apply map_filter_id. intros; set_solver. }
  cbn [sweepStale]. unfold reapConn.
  assert (ID (fst (releaseHeldFIN c now)) = ID c) as Hid.
  { unfold releaseHeldFIN. destruct (heldFIN c); cbv zeta; by repeat case_zif. }
  destruct (releaseHeldFIN c now) as [c' o]. cbn [fst] in Hid.
  set (pm1 := snd (RemoveConnection pm _)). specialize (IH pm1 now).
  destruct (sweepStale pm1 stale now) as [pm2 o2]. cbn [fst] in *. rewrite IH.
  unfold pm1. rewrite Remove_conns. cbn [ID set_rx]. rewrite Hid.
  apply map_eq. intros i. apply option_eq. intros x.
  rewrite !map_lookup_filter_Some, lookup_delete_Some. cbn [map fst].
  rewrite not_elem_of_cons. naive_solver.
Qed.

(** What the sweep of stale connections leaves: exactly the fresh ones. *)
Lemma sweepStale_exact pm now timeWait id :
  ids_ok pm →
  connections (fst (sweepStale pm (StaleConnections pm now timeWait) now)) !! id =
    match connections pm !! id with
    | Some c => if is_stale now timeWait c then None else Some c
    | None => None
    end.
Proof.
  intros Hids. rewrite sweepStale_conns. apply option_eq. intros x.
  rewrite map_lookup_filter_Some. cbn [fst].
  assert (∀ c, connections pm !! id = Some c →
    (id ∈ map ID (StaleConnections pm now timeWait) ↔ is_stale now timeWait c = true)) as Hst.
  { intros c Hc. unfold StaleConnections. rewrite map_map. split.
    - intros Hin. apply list_elem_of_In, in_map_iff in Hin as ([id' c'] & Hi & Hin).
      apply filter_In in Hin as [Hin Hs]. apply list_elem_of_In, elem_of_map_to_list in Hin.
      simpl in *. rewrite (Hids _ _ Hin) in Hi. subst id'. congruence.
    - intros Hs. apply list_elem_of_In, in_map_iff. exists (id, c). split; [by apply Hids|].
      apply filter_In. split; [|done]. by apply list_elem_of_In, elem_of_map_to_list. }
  destruct (connections pm !! id) as [c|] eqn:E; [|naive_solver].
  specialize (Hst c eq_refl). destruct (is_stale now timeWait c); naive_solver.
Qed.

(** The sweeper ends dials that are still running.  A dial's connection is
    in SYN_SENT until the SYN-ACK comes; a sweep more than [SynSentReapDuration]
    after the dial began takes it out of the table although the dial's own
    budget (ten seconds of waiting for a key before the first retry counts) is
    longer.  The dial does not notice: it goes on, but a SYN-ACK that comes after
    the sweep finds no connection and is dropped without a trace. *)
Theorem reaped_dial_misses_its_synack d id c now timeWait order trust t pkt reads :
  ids_ok (ports d) → connections (ports d) !! id = Some c → State c = StateSynSent →
  SynSentReapDuration < time_sub now (LastActivity c) →
  (∀ id' c', connections (ports d) !! id' = Some c' →
     matches (LocalPort c) (RemoteAddr c) (RemotePort c) c' = true → id' = id) →
  HasFlag pkt FlagSYN = true → HasFlag pkt FlagACK = true →
  DstPort pkt = LocalPort c → Src pkt = RemoteAddr c → SrcPort pkt = RemotePort c →
  let pm := fst (sweepStale (ports d) (StaleConnections (ports d) now timeWait) now) in
  order ≡ₚ map_to_list (connections pm) →
  SynSentReapDuration < DialKeyExchangeWait ∧
  handleStreamPacket (with_ports d pm) trust order t pkt reads = (with_ports d pm, []) ∧
  ∀ x, dialStep pm x (DialPoll (State c)) = (pm, DialGo x, []).
Proof.
  intros Hids Hc Hs Hold Hone Hsyn Hack Hd Hsrc Hp pm Hord. split; [done|]. split.
  2:{ intros x. cbn [dialStep]. unfold dialOutcome. by rewrite Hs. }
  unfold handleStreamPacket. rewrite Hsyn, Hack. cbn [andb negb].
  assert (FindConnection (DstPort pkt) (Src pkt) (SrcPort pkt) order = None) as ->; [|done].
  apply find_none_match. intros [id' c'] Hin. rewrite Hord in Hin. apply elem_of_map_to_list in Hin.
  unfold pm in Hin. rewrite sweepStale_exact in Hin by done.
  destruct (connections (ports d) !! id') as [c0|] eqn:E; [|done].
  destruct (is_stale now timeWait c0) eqn:Est; [done|]. injection Hin as ->. cbn [snd].
  rewrite Hd, Hsrc, Hp. destruct (matches _ _ _ c') eqn:Em; [|done].
  pose proof (Hone _ _ E Em) as ->. rewrite Hc in E. injection E as <-.
  unfold is_stale in Est. rewrite Hs in Est. zbool. lia.
Qed.

(** Keepalive probes cannot tell the living from the dead.  A peer that is
    established and has nothing to send or to retransmit takes a probe without
    answering anything; and a connection that hears nothing gets three probes
    and, at the fourth sweep, its close.  So an idle connection between two
    healthy nodes is reported as a dead peer and closed. *)
Theorem idle_live_peer_is_declared_dead cA cB now reads :
  at_rest cB →
  let '(cB', out) := handlePacket cB now (keepaliveProbe cA) reads in
  out = [] ∧ State cB' = StateEstablished ∧ rx cB' = rx cB ∧
  (State cA = StateEstablished → KeepaliveUnacked cA = 0 → ∀ t1 t2 t3 t4 env,
   let sweep t c := fst (keepaliveOne c t env) in
   let c3 := sweep t3 (sweep t2 (sweep t1 cA)) in
   State c3 = StateEstablished ∧ State (sweep t4 c3) = StateFinWait ∧
   OEvent (EvConnDeadPeer (ID cA)) ∈ snd (keepaliveOne c3 t4 env)).
Proof.
  intros Hrest.
  destruct (empty_ack_silent cB now (keepaliveProbe cA) reads Hrest eq_refl eq_refl) as (Ho & (HsB & _) & Hx).
  destruct (handlePacket cB now (keepaliveProbe cA) reads) as [cB' out]. cbn [fst snd] in *.
  split; [done|]. split; [done|]. split; [done|].
  intros HsA Hk t1 t2 t3 t4 env.
  assert (∀ c t, State c = StateEstablished → KeepaliveUnacked c < 3 →
    let c' := fst (keepaliveOne c t env) in
    State c' = StateEstablished ∧ KeepaliveUnacked c' = KeepaliveUnacked c + 1 ∧ ID c' = ID c) as Hone.
  { intros c t Hs Hlt. unfold keepaliveOne, is_state. rewrite bool_decide_eq_true_2 by done. cbn [negb].
    case_zif; [lia|done]. }
  cbv zeta. destruct (Hone cA t1) as (A1 & A2 & A3); [done|lia|].
  destruct (Hone (fst (keepaliveOne cA t1 env)) t2) as (B1 & B2 & B3); [done|lia|].
  set (c2 := fst (keepaliveOne (fst (keepaliveOne cA t1 env)) t2 env)) in *.
  destruct (Hone c2 t3) as (C1 & C2 & C3); [done|lia|].
  set (c3 := fst (keepaliveOne c2 t3 env)) in *. split; [done|].
  unfold keepaliveOne, is_state. rewrite (bool_decide_eq_true_2 (State c3 = _)) by done. cbn [negb].
  case_zif; [|lia]. destruct (CloseConnection _ _ _ _ _) as [c4 o] eqn:Ec. split; [|rewrite <- A3, <- B3, <- C3; by left].
  pose proof (CloseConnection_rx c3 t4 (stopping env) (locked env) (oks env)) as [Hf _].
  by rewrite Ec in Hf.
Qed.
End Sweep.

Module Demo.
#[local] Existing Instance documented_protocol.
Import AcceptProofs.Demo.

(** The dialer of [AcceptProofs.Demo], swept six seconds after its dial. *)
Definition dialer : Daemon := mkDaemon cfg0 (snd dial0) (newLimiter cfg0 100) ∅ policy0 0.
Definition sweep_time : gotime := 100 + 6 * Second.
Definition swept : PortManager :=
  fst (sweepStale (ports dialer) (StaleConnections (ports dialer) sweep_time (10 * Second)) sweep_time).
Definition synack0 : Packet := answer syn0 (Z.lor FlagSYN FlagACK) 0 1 512.

Lemma only_conn id c : connections (ports dialer) !! id = Some c → id = 1 ∧ c = c0.
Proof.
  intros H. assert (connections (ports dialer) = {[ 1 := c0 ]}) as E by (vm_compute; reflexivity).
  rewrite E in H. apply lookup_singleton_Some in H as [<- <-]. split; reflexivity.
Defined.

Lemma reaped_dial_misses_its_synack_witness :
  handleStreamPacket (with_ports dialer swept) trust0 (map_to_list (connections swept))
    (sweep_time + 1) synack0 [] = (with_ports dialer swept, []).
Proof.
  apply (reaped_dial_misses_its_synack dialer 1 c0 sweep_time (10 * Second)
    (map_to_list (connections swept)) trust0 (sweep_time + 1) synack0 []).
  - intros id c Hc. apply only_conn in Hc as [-> ->]. reflexivity.
  - vm_compute. reflexivity.
  - reflexivity.
  - vm_compute. reflexivity.
  - intros id c Hc _. apply only_conn in Hc as [-> _]. reflexivity.
  - reflexivity.
  - reflexivity.
  - reflexivity.
  - reflexivity.
  - reflexivity.
  - reflexivity.
Defined.

Lemma idle_live_peer_is_declared_dead_witness :
  snd (handlePacket (EndToEnd.Demo.conn0 2) 300 (keepaliveProbe (EndToEnd.Demo.conn0 1)) []) = [].
Proof.
  pose proof (idle_live_peer_is_declared_dead (EndToEnd.Demo.conn0 1) (EndToEnd.Demo.conn0 2) 300 []) as H.
  destruct (handlePacket _ _ _ _) as [c out]. apply H. split; [reflexivity|]. split; reflexivity.
Defined.
End Demo.
