(* ===== verification/BeaconSelect.v ===== *)
(** * Choosing a beacon (pkg/daemon/routing/select.go, discovery.go;
    pkg/daemon/beacon_discovery.go: [beaconRefreshTick])

    The operator's list is parsed and merged with the list the registry
    returns; a hash of the node's public key picks one entry, and measured
    round-trip times may override it.  A Go string is a list of code points.
    Files, sockets and the registry's reply are inputs of the tick; whether an
    address is reachable ([FilterUnreachable], a parser for IP literals) is a
    predicate the caller supplies. *)
From S2P Require Import Prelude.
Open Scope Z_scope.

Abbreviation gostring := (list Z) (only parsing).

(** ** Parsing *)

(** [unicode.IsSpace] *)
Definition IsSpace (c : Z) : bool :=
  ((9 <=? c) && (c <=? 13)) || (c =? 32) || (c =? 133) || (c =? 160) || (c =? 5760) ||
  ((8192 <=? c) && (c <=? 8202)) || (c =? 8232) || (c =? 8233) || (c =? 8239) || (c =? 8287) ||
  (c =? 12288).

Fixpoint trimLeft (s : gostring) : gostring :=
  match s with c :: s' => if IsSpace c then trimLeft s' else s | [] => [] end.
Definition TrimSpace (s : gostring) : gostring := rev (trimLeft (rev (trimLeft s))).

(** [strings.Split(s, sep)] for a one-character separator. *)
Fixpoint Split (sep : Z) (s : gostring) : list gostring :=
  match s with
  | [] => [[]]
  | c :: s =>
      if c =? sep then [] :: Split sep s
      else match Split sep s with p :: ps => (c :: p) :: ps | [] => [[c]] end
  end.

Definition nonempty (s : gostring) : bool := match s with [] => false | _ => true end.

Definition ParseBeaconList (s : gostring) : list gostring :=
  List.filter nonempty (map TrimSpace (Split 44 s)).

Definition FirstBeacon (s : gostring) : gostring := hd [] (ParseBeaconList s).

(** ** Picking *)

(** [fnv.New32a] over [key]. *)
Definition fnv32a (key : bytes) : Z :=
  fold_left (λ h b, u32 (Z.lxor h b * 16777619)) key 2166136261.

Definition PickBeacon (l : list gostring) (key : bytes) : gostring :=
  match l with
  | [] => []
  | [a] => a
  | _ => nth (Z.to_nat (fnv32a key mod Z.of_nat (length l))) l []
  end.

(** The fastest measured entry, the first among equals. *)
Fixpoint fastest (l : list gostring) (rttMap : gmap gostring duration)
    (best : option (gostring * duration)) : option (gostring * duration) :=
  match l with
  | [] => best
  | a :: l =>
      fastest l rttMap
        match rttMap !! a with
        | None => best
        | Some rtt =>
            match best with
            | None => Some (a, rtt)
            | Some (b, bestRTT) => if rtt <? bestRTT then Some (a, rtt) else Some (b, bestRTT)
            end
        end
  end.

Definition PickBeaconWithRTT (l : list gostring) (key : bytes) (rttMap : gmap gostring duration)
  : gostring :=
  if bool_decide (rttMap = ∅) then PickBeacon l key
  else
    let hashPick := PickBeacon l key in
    match fastest l rttMap None with
    | None => hashPick
    | Some (bestAddr, bestRTT) =>
        match rttMap !! hashPick with
        | None => bestAddr
        | Some hashRTT => if 2 * bestRTT <? hashRTT then bestAddr else hashPick
        end
    end.

(** ** Merging *)

(** One of the two loops: entries not seen yet, in order. *)
Fixpoint addUnseen (out : list gostring) (l : list gostring) : list gostring :=
  match l with
  | [] => out
  | a :: l => addUnseen (if negb (nonempty a) || bool_decide (a ∈ out) then out else out ++ [a]) l
  end.

Definition MergeBeaconLists (bootstrap discovered : list gostring) : list gostring :=
  addUnseen (addUnseen [] bootstrap) discovered.

(** [sort.Strings]: insertion in the order of code points. *)
Fixpoint str_leb (s t : gostring) : bool :=
  match s, t with
  | [], _ => true
  | _ :: _, [] => false
  | a :: s, b :: t => (a <? b) || ((a =? b) && str_leb s t)
  end.
Fixpoint insert_str (s : gostring) (l : list gostring) : list gostring :=
  match l with
  | [] => [s]
  | t :: l' => if str_leb s t then s :: l else t :: insert_str s l'
  end.
Definition sort_strs (l : list gostring) : list gostring := fold_right insert_str [] l.

(** [FetchBeaconList] on the addresses of a reply. *)
Definition FetchBeaconList (reachable : gostring → bool) (addrs : list gostring) : list gostring :=
  sort_strs (List.filter reachable (List.filter nonempty addrs)).

(** ** Refreshing *)

Record BeaconSelectionState := mkSelection {
  bootstrap : list gostring;
  currentList : list gostring;
  currentPick : gostring;
}.
Definition NewBeaconSelectionState (l : list gostring) : BeaconSelectionState := mkSelection l [] [].

Record RefreshDecision := mkDecision { NewList : list gostring; NewPick : gostring; ShouldSwap : bool }.

Definition str_eqb (s t : gostring) : bool := bool_decide (s = t).

Definition ComputeRefreshDecision (state : BeaconSelectionState) (discovered : list gostring)
    (identityKey : bytes) : RefreshDecision :=
  let merged := MergeBeaconLists (bootstrap state) discovered in
  match merged with
  | [] => mkDecision [] [] false
  | _ =>
      let newPick := PickBeacon merged identityKey in
      let previous := currentPick state in
      let shouldSwap := negb (nonempty previous) || negb (str_eqb newPick previous) in
      let shouldSwap :=
        if shouldSwap then true else negb (existsb (λ a, str_eqb a previous) merged) in
      mkDecision merged newPick shouldSwap
  end.

Definition ApplyRefreshDecision (s : BeaconSelectionState) (d : RefreshDecision)
  : BeaconSelectionState :=
  mkSelection (bootstrap s) (NewList d)
    (if ShouldSwap d && nonempty (NewPick d) then NewPick d else currentPick s).

Definition BeaconCacheMaxAge : duration := 3600 * Second.

(** What a tick reads: the registry's answer ([None] on error), the cache with
    its time ([None] when it cannot be read), the measured round trips if the
    probe is on, and whether [SetBeaconAddr] succeeds. *)
Record TickInput := mkTick {
  firstTick : bool;
  fetched : option (list gostring);
  cached : list gostring;
  savedAt : option gotime;
  tickNow : gotime;
  probe : option (gmap gostring duration);
  setOK : bool;
}.

(** The list a tick works with; [None] ends it. *)
Definition tickList (i : TickInput) : option (list gostring) :=
  match fetched i with
  | Some l => Some l
  | None =>
      if negb (firstTick i) then None
      else
        match cached i with
        | [] => None
        | l =>
            match savedAt i with
            | Some t => if BeaconCacheMaxAge <? time_sub (tickNow i) t then None else Some l
            | None => Some l
            end
        end
  end.

(** The effects of a tick: a new beacon address, and what is written to the
    cache. *)
Inductive TickEffect := SetBeacon (addr : gostring) | SaveCache (addrs : list gostring).

Definition probed (s : BeaconSelectionState) (i : TickInput) (key : bytes) (d : RefreshDecision)
  : RefreshDecision :=
  match probe i with
  | Some rttMap =>
      if (1 <? Z.of_nat (length (NewList d))) && negb (bool_decide (rttMap = ∅)) then
        let rttPick := PickBeaconWithRTT (NewList d) key rttMap in
        let pick := if nonempty rttPick then rttPick else NewPick d in
        mkDecision (NewList d) pick (negb (str_eqb pick (currentPick s)))
      else d
  | None => d
  end.

Definition beaconRefreshTick (s : BeaconSelectionState) (i : TickInput) (key : bytes)
  : BeaconSelectionState * list TickEffect :=
  match tickList i with
  | None => (s, [])
  | Some discovered =>
      let d := probed s i key (ComputeRefreshDecision s discovered key) in
      if negb (ShouldSwap d) then
        (s, match discovered with [] => [] | _ => [SaveCache discovered] end)
      else if negb (nonempty (NewPick d)) then (s, [])
      else if negb (setOK i) then (s, [])
      else (ApplyRefreshDecision s d, [SetBeacon (NewPick d); SaveCache discovered])
  end.

(** ** Theorems *)

Lemma elem_of_addUnseen l : ∀ out a, a ∈ addUnseen out l ↔ a ∈ out ∨ (a ∈ l ∧ a ≠ []).
Proof.
  induction l as [|b l IH]; intros out a; cbn [addUnseen]; [set_solver|]. rewrite IH.
  destruct b as [|x b]; cbn [nonempty negb orb]; [set_solver|].
  case_bool_decide; rewrite ?elem_of_app, ?list_elem_of_singleton; set_solver.
Qed.

Lemma NoDup_addUnseen l : ∀ out, NoDup out → NoDup (addUnseen out l).
Proof.
  induction l as [|b l IH]; intros out Ho; cbn [addUnseen]; [done|]. apply IH.
  destruct (nonempty b); cbn [negb orb]; [|done]. case_bool_decide; [done|].
  apply NoDup_app. split; [done|]. split; [set_solver|apply NoDup_singleton].
Qed.

Lemma addUnseen_prefix l : ∀ out, out `prefix_of` addUnseen out l.
Proof.
  induction l as [|b l IH]; intros out; cbn [addUnseen]; [done|].
  etrans; [|apply IH]. case_match; [done|by eexists].
Qed.

(** Merging keeps exactly the non-empty entries of both lists, once each, the
    operator's first. *)
Theorem merge_exact bs ds :
  NoDup (MergeBeaconLists bs ds) ∧
  (∀ a, a ∈ MergeBeaconLists bs ds ↔ a ≠ [] ∧ (a ∈ bs ∨ a ∈ ds)) ∧
  MergeBeaconLists bs [] `prefix_of` MergeBeaconLists bs ds.
Proof.
  unfold MergeBeaconLists. split_and!.
  - apply NoDup_addUnseen, NoDup_addUnseen, NoDup_nil_2.
  - intros a. rewrite !elem_of_addUnseen. set_solver.
  - apply addUnseen_prefix.
Qed.

Lemma pick_in l key : l ≠ [] → PickBeacon l key ∈ l.
Proof.
  intros Hl. unfold PickBeacon. destruct l as [|a [|b l]]; [done|by left|].
  apply list_elem_of_In, nth_In.
  pose proof (Z.mod_pos_bound (fnv32a key) (Z.of_nat (length (a :: b :: l)))). simpl length in *. lia.
Qed.

(** The decision the code's comment describes, without its two extra checks. *)
Definition reference_decision (s : BeaconSelectionState) (discovered : list gostring) (key : bytes)
  : RefreshDecision :=
  let l := MergeBeaconLists (bootstrap s) discovered in
  mkDecision l (PickBeacon l key) (nonempty (PickBeacon l key) && negb (str_eqb (PickBeacon l key) (currentPick s))).

Lemma merged_nonempty bs ds a : a ∈ MergeBeaconLists bs ds → a ≠ [].
Proof. unfold MergeBeaconLists. rewrite !elem_of_addUnseen. set_solver. Qed.

Lemma refresh_decision_ref s discovered key :
  ComputeRefreshDecision s discovered key = reference_decision s discovered key.
Proof.
  unfold ComputeRefreshDecision, reference_decision. cbv zeta.
  destruct (MergeBeaconLists (bootstrap s) discovered) as [|a l] eqn:E; [done|]. rewrite <- E in *.
  set (merged := MergeBeaconLists _ _) in *. assert (merged ≠ []) as Hne by congruence.
  pose proof (pick_in merged key Hne) as Hin. pose proof (merged_nonempty _ _ _ Hin) as Hp.
  f_equal. assert (nonempty (PickBeacon merged key) = true) as -> by (by destruct (PickBeacon merged key)).
  unfold str_eqb. case_bool_decide as He; cbn [negb andb].
  - rewrite orb_false_r. assert (nonempty (currentPick s) = true) as ->.
    { rewrite <- He. by destruct (PickBeacon merged key). }
    cbn [negb]. apply negb_false_iff, existsb_exists. exists (PickBeacon merged key).
    split; [by apply list_elem_of_In|]. by apply bool_decide_eq_true_2.
  - by rewrite orb_true_r.
Qed.

(** A refresh swaps exactly when the pick changed.  The code also tests
    whether there was a pick before and whether the old one is still listed;
    both tests are redundant: the decision is the one of the reference, which
    compares the new pick with the old one and nothing else. *)
Theorem refresh_swaps_iff_pick_changed s discovered key :
  ComputeRefreshDecision s discovered key = reference_decision s discovered key.
Proof. apply refresh_decision_ref. Qed.

(** *** Sorting makes the registry's order irrelevant *)

Lemma str_leb_refl s : str_leb s s = true.
Proof. induction s as [|a s IH]; [done|]. simpl. rewrite Z.eqb_refl, IH. by rewrite orb_true_r. Qed.

Lemma str_leb_antisym s : ∀ t, str_leb s t = true → str_leb t s = true → s = t.
Proof.
  induction s as [|a s IH]; intros [|b t]; simpl; try done. intros H1 H2. zbool.
  destruct H1 as [H1|H1], H2 as [H2|H2]; zbool; try lia. subst b. f_equal. by apply IH.
Qed.

Lemma str_leb_total s : ∀ t, str_leb s t = false → str_leb t s = true.
Proof.
  induction s as [|a s IH]; intros [|b t]; simpl; try done. intros H. zbool. apply orb_true_iff.
  destruct H0; zbool; [left; apply Z.ltb_lt; lia|]. destruct (Z.eqb_spec b a); [|left; apply Z.ltb_lt; lia].
  right. by apply IH.
Qed.

Lemma str_leb_trans s : ∀ t u, str_leb s t = true → str_leb t u = true → str_leb s u = true.
Proof.
  induction s as [|a s IH]; intros [|b t] [|c u]; simpl; try done. intros H1 H2. zbool.
  apply orb_true_iff. destruct H1 as [H1|H1], H2 as [H2|H2]; zbool; try (left; apply Z.ltb_lt; lia).
  right. apply andb_true_iff. split; [apply Z.eqb_eq; lia|]. by eapply IH.
Qed.

Lemma insert_str_perm s l : insert_str s l ≡ₚ s :: l.
Proof.
  induction l as [|t l IH]; [done|]. simpl. case_match; [done|]. rewrite IH. apply perm_swap.
Qed.

Lemma insert_str_swap a b l : insert_str a (insert_str b l) = insert_str b (insert_str a l).
Proof.
  assert (∀ a b l, str_leb a b = true → insert_str a (insert_str b l) = insert_str b (insert_str a l)) as H.
  { clear. intros a b l Hab. induction l as [|c l IH]; simpl.
    - rewrite Hab. destruct (str_leb b a) eqn:E; [|done]. by rewrite (str_leb_antisym a b).
    - destruct (str_leb b c) eqn:Hb; simpl.
      + rewrite Hab, (str_leb_trans _ _ _ Hab Hb). simpl.
        destruct (str_leb b a) eqn:E; [by rewrite (str_leb_antisym a b)|]. by rewrite Hb.
      + destruct (str_leb a c) eqn:Ha; simpl.
        * destruct (str_leb b a) eqn:E.
          { rewrite (str_leb_trans _ _ _ E Ha) in Hb. done. }
          by rewrite Hb.
        * by rewrite Hb, IH. }
  destruct (str_leb a b) eqn:E; [by apply H|]. symmetry. apply H. by apply str_leb_total.
Qed.

Lemma sort_strs_perm l l' : l ≡ₚ l' → sort_strs l = sort_strs l'.
Proof.
  induction 1 as [|x l l' _ IH|x y l|l1 l2 l3 _ IH1 _ IH2]; simpl; try congruence.
  apply insert_str_swap.
Qed.

Lemma filter_perm {A} (f : A → bool) l l' : l ≡ₚ l' → List.filter f l ≡ₚ List.filter f l'.
Proof.
  induction 1 as [|x l l' _ IH|x y l|l1 l2 l3 _ IH1 _ IH2]; simpl.
  - done.
  - case_match; [by rewrite IH|done].
  - repeat case_match; try done. apply perm_swap.
  - by etrans.
Qed.

(** The pick is stable.  The registry may return the same beacons in any
    order: the tick works on the same list and does the same.  And a tick that
    has just moved the daemon to its pick changes nothing when it runs again on
    that list. *)
Theorem beacon_pick_is_stable s key reachable addrs addrs' i :
  addrs ≡ₚ addrs' → probe i = None → setOK i = true →
  fetched i = Some (FetchBeaconList reachable addrs) →
  let i' := mkTick false (Some (FetchBeaconList reachable addrs')) (cached i) (savedAt i) (tickNow i) None true in
  let '(s1, fx1) := beaconRefreshTick s i key in
  beaconRefreshTick s i' key = (s1, fx1) ∧ fst (beaconRefreshTick s1 i' key) = s1 ∧
  (∀ a, SetBeacon a ∉ snd (beaconRefreshTick s1 i' key)).
Proof.
  intros Hp Hpr Hset Hf i'.
  assert (FetchBeaconList reachable addrs' = FetchBeaconList reachable addrs) as Hl.
  { unfold FetchBeaconList. by apply sort_strs_perm, filter_perm, filter_perm. }
  assert (∀ s, beaconRefreshTick s i' key = beaconRefreshTick s i key) as Hi.
  { intros s0. unfold beaconRefreshTick, tickList, probed. rewrite Hf, Hpr, Hset. cbn. by rewrite Hl. }
  destruct (beaconRefreshTick s i key) as [s1 fx1] eqn:E. rewrite !Hi, E. split; [done|].
  revert E. unfold beaconRefreshTick, tickList, probed. rewrite Hf, Hpr, Hset. cbn [negb].
  rewrite !refresh_decision_ref. unfold reference_decision. cbn [ShouldSwap NewPick].
  set (l := FetchBeaconList reachable addrs). set (m := MergeBeaconLists (bootstrap s) l).
  assert (∀ a, SetBeacon a ∉ match l with [] => [] | _ => [SaveCache l] end) as Hno.
  { intros a. destruct l; set_solver. }
  destruct (nonempty (PickBeacon m key)) eqn:En; cbn [andb].
  - destruct (str_eqb (PickBeacon m key) (currentPick s)) eqn:Eq; cbn [negb]; intros [= <- <-].
    + fold m. rewrite En, Eq. cbn [andb negb fst snd]. by split.
    + cbn [bootstrap ApplyRefreshDecision NewList ShouldSwap NewPick currentPick andb]. fold m.
      rewrite En. cbn [andb]. unfold str_eqb. rewrite bool_decide_eq_true_2 by done. cbn [negb andb fst snd].
      by split.
  - intros [= <- <-]. fold m. rewrite En. cbn [andb negb fst snd]. by split.
Qed.

(** *** Round-trip times *)

Lemma fastest_spec l rttMap : ∀ best,
  match fastest l rttMap best with
  | Some (a, r) => (best = Some (a, r) ∨ (a ∈ l ∧ rttMap !! a = Some r)) ∧
      (∀ b rb, best = Some (b, rb) → r <= rb) ∧ (∀ b rb, b ∈ l → rttMap !! b = Some rb → r <= rb)
  | None => best = None ∧ ∀ b, b ∈ l → rttMap !! b = None
  end.
Proof.
  induction l as [|x l IH]; intros best; cbn [fastest].
  { destruct best as [[a r]|]; [|split; [done|set_solver]].
    split; [by left|]. split; [|set_solver]. intros b rb [= -> ->]. lia. }
  match goal with |- context [fastest l rttMap ?n] => set (nb := n); specialize (IH nb) end.
  destruct (fastest l rttMap nb) as [[a r]|].
  - destruct IH as (H1 & H2 & H3).
    assert (nb = Some (a, r) → best = Some (a, r) ∨ (a = x ∧ rttMap !! x = Some r)) as Hn.
    { unfold nb. destruct (rttMap !! x), best as [[b rb]|]; try case_match; intros [= -> ->]; auto. }
    assert (∀ rb, rttMap !! x = Some rb → r <= rb) as Hx.
    { intros rb Hb. unfold nb in H2. rewrite Hb in H2. destruct best as [[b rb']|]; [|by eapply H2].
      destruct (Z.ltb_spec rb rb'); specialize (H2 _ _ eq_refl); lia. }
    split_and!.
    + destruct H1 as [[?|[-> ?]]%Hn|[? ?]]; [by left|right; split; [by left|done]|right; split; [by right|done]].
    + intros b rb ->. unfold nb in H2. destruct (rttMap !! x) as [rx|]; [|by eapply H2].
      destruct (Z.ltb_spec rx rb); specialize (H2 _ _ eq_refl); lia.
    + intros b rb [->|Hin]%elem_of_cons Hb; [by apply Hx|by eapply H3].
  - destruct IH as [Hn H3]. subst nb. destruct (rttMap !! x) as [rx|] eqn:Ex.
    + by destruct best as [[b rb]|]; [case_match|].
    + split; [done|]. intros b [->|Hin]%elem_of_cons; auto.
Qed.

(** The probe never leaves a daemon on a slow or silent beacon: if any
    listed beacon answered, the pick is a listed beacon that answered too, and
    no listed beacon is more than twice as fast. *)
Theorem rtt_pick_within_twice_fastest l key rttMap a ra :
  a ∈ l → rttMap !! a = Some ra → 0 <= ra →
  ∃ r, PickBeaconWithRTT l key rttMap ∈ l ∧ rttMap !! PickBeaconWithRTT l key rttMap = Some r ∧
       r <= 2 * ra.
Proof.
  intros Ha Hra H0. unfold PickBeaconWithRTT.
  rewrite bool_decide_eq_false_2 by (intros ->; by rewrite lookup_empty in Hra).
  pose proof (fastest_spec l rttMap None) as H. cbv zeta.
  destruct (fastest l rttMap None) as [[b rb]|].
  2:{ destruct H as [_ H]. by rewrite (H a Ha) in Hra. }
  destruct H as ([?|[Hb Hrb]] & _ & Hmin); [done|]. specialize (Hmin a ra Ha Hra).
  destruct (rttMap !! PickBeacon l key) as [rh|] eqn:Eh; [|exists rb; split_and!; [done|done|lia]].
  case_zif; [exists rb; split_and!; [done|done|lia]|]. exists rh. split; [|split; [done|lia]].
  apply pick_in. intros ->. set_solver.
Qed.

(** *** Parsing *)

(** Join with commas. *)
Fixpoint join (l : list gostring) : gostring :=
  match l with
  | [] => []
  | [a] => a
  | a :: l => a ++ 44 :: join l
  end.

(** An entry as an operator writes it. *)
Definition clean (a : gostring) : Prop := a ≠ [] ∧ Forall (λ c, c ≠ 44) a ∧ TrimSpace a = a.

Lemma Split_app a s : Forall (λ c, c ≠ 44) a →
  Split 44 (a ++ 44 :: s) = a :: Split 44 s ∧ Split 44 a = [a].
Proof.
  induction 1 as [|c a Hc _ [IH1 IH2]]; [done|]. cbn [app Split].
  destruct (Z.eqb_spec c 44); [done|]. by rewrite IH1, IH2.
Qed.

Lemma Split_join l : Forall clean l → l ≠ [] → Split 44 (join l) = l.
Proof.
  induction 1 as [|a l (_ & Ha & _) _ IH]; intros Hl; [done|].
  destruct l as [|b l]; [by apply (Split_app a [])|]. cbn [join].
  rewrite (proj1 (Split_app a _ Ha)). f_equal. by apply IH.
Qed.

(** Parsing inverts writing: any list of entries that are not empty, hold no
    comma and have no space at either end comes back from the flag that joins
    them with commas, and the first of them is the one used before the node has
    an identity. *)
Theorem parse_join l :
  Forall clean l → ParseBeaconList (join l) = l ∧ FirstBeacon (join l) = hd [] l.
Proof.
  intros Hl. assert (ParseBeaconList (join l) = l) as H; [|unfold FirstBeacon; by rewrite H].
  destruct l as [|a l]; [done|]. unfold ParseBeaconList. rewrite Split_join by done.
  clear - Hl. induction Hl as [|b l' (Hb & _ & Ht) _ IH]; [done|]. cbn [map List.filter].
  rewrite Ht, IH. by destruct b.
Qed.

(** *** Adding a beacon *)

(** The comment on [ComputeRefreshDecision] says that when a beacon is added at
    the end, only the daemons whose hash now points at the new entry move.  A
    daemon with this key moves from the second entry to the first. *)
Theorem added_beacon_moves_others :
  let l := [[97]; [98]] in let key := [0] in
  PickBeacon l key = [98] ∧ PickBeacon (l ++ [[99]]) key = [97].
Proof. split; vm_compute; reflexivity. Qed.

Lemma beacon_pick_is_stable_witness :
  let i := mkTick false (Some (FetchBeaconList (λ _, true) [[98]; [97]])) [] None 0 None true in
  let s1 := fst (beaconRefreshTick (NewBeaconSelectionState [[99]]) i [5]) in
  nonempty (currentPick s1) = true ∧ fst (beaconRefreshTick s1 i [5]) = s1.
Proof.
  split; [vm_compute; reflexivity|].
  pose proof (beacon_pick_is_stable (NewBeaconSelectionState [[99]]) [5] (λ _, true) [[98]; [97]] [[98]; [97]]
    (mkTick false (Some (FetchBeaconList (λ _, true) [[98]; [97]])) [] None 0 None true)
    (Permutation_refl _) eq_refl eq_refl eq_refl) as H.
  destruct (beaconRefreshTick (NewBeaconSelectionState [[99]]) _ [5]) as [s1 fx1]. apply H.
Defined.

Lemma rtt_pick_within_twice_fastest_witness :
  ∃ r, ({[ [97] := 30; [98] := 100 ]} : gmap gostring duration) !!
         PickBeaconWithRTT [[97]; [98]] [5] {[ [97] := 30; [98] := 100 ]} = Some r ∧ r <= 60.
Proof.
  destruct (rtt_pick_within_twice_fastest [[97]; [98]] [5] {[ [97] := 30; [98] := 100 ]} [97] 30) as (r & _ & H & Hr).
  - left.
  - reflexivity.
  - lia.
  - exists r. split; [exact H|lia].
Defined.

Lemma parse_join_witness :
  ParseBeaconList [97; 44; 98] = [[97]; [98]] ∧ clean [97].
Proof.
  assert (Forall clean [[97]; [98]]) as H.
  { repeat constructor; try discriminate. }
  split; [exact (proj1 (parse_join [[97]; [98]] H))|]. inversion H. assumption.
Defined.
