(* ===== verification/Tunnel.v ===== *)
(** * The tunnel manager (pkg/daemon/tunnel.go, peeractivity.go)

    The glue between the socket, routing, key exchange and the envelope: frame
    dispatch, sending with the queue of packets that wait for a key, address
    learning, the rate limits on key exchange, and path upkeep.

    [TunnelManager] groups its fields by the mutex that guards them and holds
    the key-exchange manager ([kx], which owns the session store) and the
    routing manager ([routing]).  The hooks tunnel.go plugs into the key-exchange
    manager are plugged in here too: the sender is [writeFrame] and the
    post-install hook is [onKeyInstalled].  The handlers of keyexchange are
    therefore run in the stages of [KeyExchangeStages], with the hooks between
    them.  The socket answers the n-th send with [sockRes n]; [outbox] lists the
    datagrams it was given, [recvCh] the packets handed to the daemon.

    Log output, the counters of bytes and frames sent, and the goroutines that
    call these functions are not represented. *)
From S2P Require Import Prelude Bitmap Crypto KeyStore Admission Protocol.
From S2P Require Import Envelope KeyExchange KeyExchangeStages Routing.
Open Scope Z_scope.

(** What tunnel.go uses of the wire-protocol package beyond [Protocol]:
    further constants and the packet codec.  [packet_ok] is the packets the
    codec round-trips; the magic numbers are distinct and, as tunnel.go says,
    start above the beacon's message codes; the codes are distinct too. *)
Class PacketCodec {P : Protocol} := {
  TunnelMagic : bytes;
  ProtoControl : Z;
  PortPing : Z;
  BeaconMsgPunchCommand : Z;
  BeaconMsgRelayDeliver : Z;
  PacketHeaderSize : nat;
  Marshal : Packet → option bytes;
  Unmarshal : bytes → option Packet;
  packet_ok : Packet → Prop;
  magics_distinct : NoDup [TunnelMagicAuthEx; TunnelMagicKeyEx; TunnelMagicSecure; TunnelMagicPunch; TunnelMagic];
  magic_not_beacon : ∃ b l, TunnelMagicSecure = b :: l ∧ 16 <= b;
  beacon_code : BeaconMsgRelayDeliver < 16;
  beacon_codes_distinct : NoDup [BeaconMsgDiscoverReply; BeaconMsgPunchCommand; BeaconMsgRelayDeliver];
  Unmarshal_Marshal : ∀ pkt, packet_ok pkt → ∃ data, Marshal pkt = Some data ∧ Unmarshal data = Some pkt;
}.

Definition maxPendingPerPeer : nat := 64.
Definition maxPendingPeers : Z := 256.
Definition perSourceKxLimit : Z := 5.
Definition maxPerSrcKxEntries : Z := 4096.
Definition perRelaySrcKxLimit : Z := 5.
Definition maxRelayKxEntries : Z := 4096.
Definition relayKxPruneAge : duration := 10 * Second.
Definition rekeyRequestInterval : duration := 3 * Second.
Definition pendingDropLogInterval : duration := 5 * Second.
Definition pendingMaxAge : duration := 120 * Second.
Definition maxRekeyRequesters : Z := 4096.
Definition RekeyRelayFallbackAfter : Z := 2.
Definition TunnelKeepaliveInterval : duration := 25 * Second.
Definition PeerIdleAfter : duration := 120 * Second.
Definition discoverReplyWindow : duration := 2 * Second.
Definition beaconMsgNotify : Z := 10.
Definition beaconNotifyHandshake : Z := 1.

(** pendMu *)
Record Pending := mkPendingQueues {
  pending : gmap Z (list bytes);
  pendingSince : gmap Z gotime;
  lastPendDropLog : gmap Z gotime;
  PendingDrops : Z;
}.

(** rekeyMu, kxRateLimMu, relayKxMu *)
Record KxLimits := mkKxLimits {
  lastRekeyReq : gmap Z gotime;
  rekeyWhitelist : option (gset Z);
  rekeyWhitelistAll : bool;
  kxRateLim : gmap bytes srcSYNBucket;
  relayKxLim : gmap Z srcSYNBucket;
}.

Record beaconObservation := mkObservation { endpoint : UDPAddr; obsBeacon : UDPAddr; obsAt : gotime }.

(** obsMu; [lastDiscover] is [lastDiscoverNano], [None] for zero. *)
Record Observations := mkObservations {
  lastDiscover : option gotime;
  obsLatest : option beaconObservation;
  obsPrev : option beaconObservation;
}.

(** Calls to the event bus and to the notify handler. *)
Inductive TunnelEvent :=
| EvNonceReplay (peer counter : Z)
| EvSrcSpoofed (peer claimed : Z)
| EvRelayActivated (peer : Z)
| EvDesyncSalvage (peer : Z) (replayed : nat)
| EvBeaconNotify.

Record IO := mkIO {
  sockCalls : nat;
  outbox : list (bytes * UDPAddr);
  recvCh : list (Packet * option UDPAddr);
  events : list TunnelEvent;
  PktsRecv : Z; BytesRecv : Z; TunnelEncryptFail : Z; LastRecv : gotime;
}.

(** [net.IP.String] identifies an IPv4 address and its 16-byte form. *)
Definition ipKey (ip : bytes) : bytes :=
  if Nat.eqb (length ip) 16 && bool_decide (take 12 ip = v4InV6Prefix) then drop 12 ip else ip.

Definition sameEndpoint (a b : UDPAddr) : bool := IPEqual (IP a) (IP b) && (Port a =? Port b).

Section Tunnel.
Context {P : Protocol} {W : PacketCodec} {K : Type} {C : Cipher K} {X : Primitives K}.

(** [encrypt], the trust gate, the socket's answers, the handler for beacon
    notifies (nil or not). *)
Record TunnelConfig := mkTunnelConfig {
  encrypt : bool;
  tunnelTrustGate : option (Z → bool);
  sockRes : nat → SendResult;
  hasBeaconNotify : bool;
}.

Record TunnelManager := mkTunnel {
  tcfg : TunnelConfig;
  peers : gmap Z (option UDPAddr);
  activity : gmap Z gotime;
  kx : Manager (K := K);
  routing : RManager;
  pend : Pending;
  lims : KxLimits;
  obs : Observations;
  keyViaRelay : gmap Z bool;
  io : IO;
}.
Implicit Types t : TunnelManager.

Definition NewTunnelManager (c : TunnelConfig) (m : Manager) (r : RManager) : TunnelManager :=
  mkTunnel c ∅ ∅ m r (mkPendingQueues ∅ ∅ ∅ 0) (mkKxLimits ∅ None false ∅ ∅)
    (mkObservations None None None) ∅ (mkIO 0 [] [] [] 0 0 0 0).

Definition set_peers t (x : gmap Z (option UDPAddr)) : TunnelManager :=
  mkTunnel (tcfg t) x (activity t) (kx t) (routing t) (pend t) (lims t) (obs t) (keyViaRelay t) (io t).
Definition set_activity t (x : gmap Z gotime) : TunnelManager :=
  mkTunnel (tcfg t) (peers t) x (kx t) (routing t) (pend t) (lims t) (obs t) (keyViaRelay t) (io t).
Definition set_kx t (x : Manager) : TunnelManager :=
  mkTunnel (tcfg t) (peers t) (activity t) x (routing t) (pend t) (lims t) (obs t) (keyViaRelay t) (io t).
Definition set_routing t (x : RManager) : TunnelManager :=
  mkTunnel (tcfg t) (peers t) (activity t) (kx t) x (pend t) (lims t) (obs t) (keyViaRelay t) (io t).
Definition set_pend t (x : Pending) : TunnelManager :=
  mkTunnel (tcfg t) (peers t) (activity t) (kx t) (routing t) x (lims t) (obs t) (keyViaRelay t) (io t).
Definition set_lims t (x : KxLimits) : TunnelManager :=
  mkTunnel (tcfg t) (peers t) (activity t) (kx t) (routing t) (pend t) x (obs t) (keyViaRelay t) (io t).
Definition set_obs t (x : Observations) : TunnelManager :=
  mkTunnel (tcfg t) (peers t) (activity t) (kx t) (routing t) (pend t) (lims t) x (keyViaRelay t) (io t).
Definition set_via t (x : gmap Z bool) : TunnelManager :=
  mkTunnel (tcfg t) (peers t) (activity t) (kx t) (routing t) (pend t) (lims t) (obs t) x (io t).
Definition set_io t (x : IO) : TunnelManager :=
  mkTunnel (tcfg t) (peers t) (activity t) (kx t) (routing t) (pend t) (lims t) (obs t) (keyViaRelay t) x.

Definition store t : Store K := env (kx t).
Definition set_store t (s : Store K) : TunnelManager := set_kx t (with_env (kx t) s).

(** [sock.Send]: one more call, one more datagram. *)
Definition sockSend t (d : bytes * UDPAddr) : TunnelManager :=
  let i := io t in
  set_io t (mkIO (S (sockCalls i)) (outbox i ++ [d]) (recvCh i) (events i)
              (PktsRecv i) (BytesRecv i) (TunnelEncryptFail i) (LastRecv i)).
Definition publishEvent t (e : TunnelEvent) : TunnelManager :=
  let i := io t in
  set_io t (mkIO (sockCalls i) (outbox i) (recvCh i) (events i ++ [e])
              (PktsRecv i) (BytesRecv i) (TunnelEncryptFail i) (LastRecv i)).
Definition countRecv t (n : nat) : TunnelManager :=
  let i := io t in
  set_io t (mkIO (sockCalls i) (outbox i) (recvCh i) (events i)
              (u64 (PktsRecv i + 1)) (u64 (BytesRecv i + Z.of_nat n)) (TunnelEncryptFail i) (LastRecv i)).
Definition deliver t (pkt : Packet) (from : option UDPAddr) : TunnelManager :=
  let i := io t in
  set_io t (mkIO (sockCalls i) (outbox i) (recvCh i ++ [(pkt, from)]) (events i)
              (PktsRecv i) (BytesRecv i) (TunnelEncryptFail i) (LastRecv i)).
Definition countEncryptFail t : TunnelManager :=
  let i := io t in
  set_io t (mkIO (sockCalls i) (outbox i) (recvCh i) (events i)
              (PktsRecv i) (BytesRecv i) (u64 (TunnelEncryptFail i + 1)) (LastRecv i)).
Definition stampRecv t (now : gotime) : TunnelManager :=
  let i := io t in
  set_io t (mkIO (sockCalls i) (outbox i) (recvCh i) (events i)
              (PktsRecv i) (BytesRecv i) (TunnelEncryptFail i) now).

Definition peerAddr t (peer : Z) : option UDPAddr := mjoin (peers t !! peer).
Definition HasPeer t (id : Z) : bool := bool_decide (is_Some (peers t !! id)).
Definition HasCrypto t (id : Z) : bool := Has (store t) id.
Definition IsEncrypted t (id : Z) : bool := IsReady (store t) id.
Definition PeerCount t : nat := size (peers t).

(** ** Activity (peeractivity.go) *)

Definition noteAppActivity t (now : gotime) (id : Z) : TunnelManager :=
  set_activity t (<[id := now]> (activity t)).

(** [open] is the answer of [openConnPeers]. *)
Definition idleFilter t (now : gotime) (open : gset Z) (id : Z) : bool :=
  if bool_decide (id ∈ open) then false
  else match activity t !! id with
       | None => false
       | Some last => PeerIdleAfter <? time_sub now last
       end.

Definition peerInUse t (now : gotime) (open : gset Z) (id : Z) : bool :=
  if bool_decide (id ∈ open) then true
  else match activity t !! id with
       | None => false
       | Some last => time_sub now last <=? PeerIdleAfter
       end.

(** ** Rate limits on key-exchange frames *)

Definition set_kxRateLim t (b : gmap bytes srcSYNBucket) : TunnelManager :=
  let l := lims t in
  set_lims t (mkKxLimits (lastRekeyReq l) (rekeyWhitelist l) (rekeyWhitelistAll l) b (relayKxLim l)).
Definition set_relayKxLim t (b : gmap Z srcSYNBucket) : TunnelManager :=
  let l := lims t in
  set_lims t (mkKxLimits (lastRekeyReq l) (rekeyWhitelist l) (rekeyWhitelistAll l) (kxRateLim l) b).
Definition set_lastRekeyReq t (m : gmap Z gotime) : TunnelManager :=
  let l := lims t in
  set_lims t (mkKxLimits m (rekeyWhitelist l) (rekeyWhitelistAll l) (kxRateLim l) (relayKxLim l)).

Definition pruneKxRateLimLocked (now : gotime) (b : gmap bytes srcSYNBucket) : gmap bytes srcSYNBucket :=
  filter (λ e, time_sub now (lastFill e.2) < relayKxPruneAge) b.
Definition pruneRelayKxLocked (now : gotime) (b : gmap Z srcSYNBucket) : gmap Z srcSYNBucket :=
  filter (λ e, time_sub now (lastFill e.2) < relayKxPruneAge) b.

Definition allowKxFromSource t (now : gotime) (addr : option UDPAddr) : bool * TunnelManager :=
  match addr with
  | None => (true, t)
  | Some a =>
      let key := ipKey (IP a) in
      let b := kxRateLim (lims t) in
      match b !! key with
      | None =>
          let b := if maxPerSrcKxEntries <=? Z.of_nat (size b) then pruneKxRateLimLocked now b else b in
          if maxPerSrcKxEntries <=? Z.of_nat (size b) then (false, set_kxRateLim t b)
          else (true, set_kxRateLim t (<[key := mkBucket (perSourceKxLimit - 1) now]> b))
      | Some bucket =>
          let '(ok, bucket) := takeToken bucket now perSourceKxLimit perSourceKxLimit in
          (ok, set_kxRateLim t (<[key := bucket]> b))
      end
  end.

Definition allowKxFromRelaySrc t (now : gotime) (src : Z) : bool * TunnelManager :=
  let b := relayKxLim (lims t) in
  match b !! src with
  | None =>
      let b := if maxRelayKxEntries <=? Z.of_nat (size b) then pruneRelayKxLocked now b else b in
      if maxRelayKxEntries <=? Z.of_nat (size b) then (false, set_relayKxLim t b)
      else (true, set_relayKxLim t (<[src := mkBucket (perRelaySrcKxLimit - 1) now]> b))
  | Some bucket =>
      let '(ok, bucket) := takeToken bucket now perRelaySrcKxLimit perRelaySrcKxLimit in
      (ok, set_relayKxLim t (<[src := bucket]> b))
  end.

(** ** Sending a frame *)

(** [err], or [None] for nil.  ([diagShouldDropFrame] of the source is a stub that
    answers false unless the binary is built with the diagnostic build tag.) *)
Definition writeFrame t (now : gotime) (id : Z) (addr : option UDPAddr) (frame : bytes)
  : option RouteErr * TunnelManager :=
  let wasRelay := IsRelayPeer (routing t) id in
  let '(dg, res, r) := WriteFrame (routing t) now id addr frame (sockRes (tcfg t) (sockCalls (io t))) in
  let t := set_routing t r in
  let t := match dg with Some d => sockSend t d | None => t end in
  let t := if negb wasRelay && IsRelayPeer r id
           then set_kx t (ResetPendingRekeyAttempts (kx t) id) else t in
  (match res with inl _ => None | inr e => Some e end, t).

(** [routing.SendRelayFrame]; its error is only logged. *)
Definition relayCopy t (id : Z) (frame : bytes) : TunnelManager :=
  match SendRelayFrame (routing t) id frame with
  | Some d => sockSend t d
  | None => t
  end.

Definition encryptFrame t (p : nat) (plaintext : bytes) : bytes * TunnelManager :=
  let '(frame, s) := EncryptWith (store t) p plaintext in (frame, set_store t s).

(** [keyexchange.SendKeyExchangeToNode] with the tunnel's sender. *)
Definition kxSend t (now : gotime) (peer : Z) : bool * TunnelManager :=
  let addr := peerAddr t peer in
  match BuildUnauthFrame (kx t) with
  | None => (false, t)
  | Some unauthFrame =>
      let authFrame := if HasIdentity (kx t) then BuildAuthFrame (kx t) else None in
      let frame := default unauthFrame authFrame in
      let authed := bool_decide (is_Some authFrame) in
      let '(keyRequest, t) :=
        if authed && negb (Has (store t) peer) then
          let '(r, m) := takeKeyRequest (kx t) peer in (r, set_kx t m)
        else (false, t) in
      let '(err, t) := writeFrame t now peer addr frame in
      match err with
      | Some _ => (false, t)
      | None =>
          let '(keyRequest, t) :=
            if keyRequest then
              let '(err, t) := writeFrame t now peer addr unauthFrame in
              match err with
              | None => (true, set_kx t (with_requests (kx t) (u64 (keyRequestsSent (kx t) + 1))))
              | Some _ => (false, t)
              end
            else (false, t) in
          (keyRequest, set_kx t (snd (MarkPendingRekey (kx t) now peer)))
      end
  end.

Definition sendKeyExchangeToNode t (now : gotime) (peer : Z) : TunnelManager :=
  let '(keyRequest, t) := kxSend t now peer in
  if IsRelayPeer (routing t) peer || bool_decide (beaconAddr (routing t) = None) then t
  else
    let authFrame := if HasIdentity (kx t) then BuildAuthFrame (kx t) else None in
    match (match authFrame with Some f => Some f | None => BuildUnauthFrame (kx t) end) with
    | None => t
    | Some frame =>
        let t := relayCopy t peer frame in
        if keyRequest then
          match BuildUnauthFrame (kx t) with Some req => relayCopy t peer req | None => t end
        else t
    end.

Definition recordInboundDecrypt t (now : gotime) (peer : Z) : TunnelManager :=
  let t := set_kx t (ClearRekeyGaveUp (RecordInboundDecrypt (kx t) now peer) peer) in
  set_routing t (ClearSendErrCount (routing t) peer).

(** The hook of the retransmit loop, before it sends. *)
Definition maybeForceRelayOnRekey t (peer attempt : Z) : TunnelManager :=
  if attempt <? RekeyRelayFallbackAfter then t
  else if IsRelayPeer (routing t) peer then t
  else set_routing t (SetRelayPeer (routing t) peer true).

(** One retry of the retransmit loop (keyexchange/loop.go) with the tunnel's hooks. *)
Definition rekeyRetransmit t (now : gotime) (peer attempts : Z) : TunnelManager :=
  snd (kxSend (maybeForceRelayOnRekey t peer (attempts + 1)) now peer).

(** ** The queue of packets waiting for a key *)

Definition set_queues t (q : gmap Z (list bytes)) (since : gmap Z gotime) : TunnelManager :=
  set_pend t (mkPendingQueues q since (lastPendDropLog (pend t)) (PendingDrops (pend t))).

(** The loop of [flushPending] over the frames; it ends early when the session
    it holds is no longer the installed one. *)
Fixpoint flush_frames t (now : gotime) (id : Z) (addr : option UDPAddr) (pc : nat)
    (frames : list bytes) : TunnelManager :=
  match frames with
  | [] => t
  | plaintext :: frames =>
      if bool_decide (Get (store t) id = Some pc) then
        let '(f, t) := encryptFrame t pc plaintext in
        let '(_, t) := writeFrame t now id addr f in
        flush_frames t now id addr pc frames
      else t
  end.

Definition flushPending t (now : gotime) (id : Z) : TunnelManager :=
  let frames := default [] (pending (pend t) !! id) in
  let t := set_queues t (delete id (pending (pend t))) (delete id (pendingSince (pend t))) in
  match frames with
  | [] => t
  | _ =>
      let addr := peerAddr t id in
      match Get (store t) id with
      | None => t
      | Some pc => if IsReady (store t) id then flush_frames t now id addr pc frames else t
      end
  end.

(** [for nodeID, since := range pendingSince]: which queues go, and the start
    time given to a queue without one. *)
Definition reapStalePending t (now : gotime) : nat * TunnelManager :=
  let q := pend t in
  let old := filter (λ e, pendingMaxAge < time_sub now e.2) (pendingSince q) in
  let queues := filter (λ e, old !! e.1 = None) (pending q) in
  let since := pendingSince q ∖ old in
  (size old, set_queues t queues (since ∪ ((λ _, now) <$> queues))).

Definition dropPending t (id : Z) : TunnelManager :=
  let q := pend t in
  set_pend t (mkPendingQueues (delete id (pending q)) (delete id (pendingSince q))
                (delete id (lastPendDropLog q)) (PendingDrops q)).

Definition reapPendDropLog t (now : gotime) : TunnelManager :=
  let q := pend t in
  set_pend t (mkPendingQueues (pending q) (pendingSince q)
    (filter (λ e, now - pendingDropLogInterval <= e.2) (lastPendDropLog q)) (PendingDrops q)).

(** ** Sending a packet *)

Inductive SendToErr := ErrMarshal | ErrNoTunnel | ErrPendingDropped | ErrTooManyPending
  | ErrWrite (e : RouteErr).

Definition isPing (pkt : Packet) : bool :=
  (pkProtocol pkt =? ProtoControl) && (DstPort pkt =? PortPing).

Definition sendPlaintextToNode t (now : gotime) (id : Z) (addr : option UDPAddr) (data : bytes)
  : option SendToErr * TunnelManager :=
  let '(err, t) := writeFrame t now id addr (TunnelMagic ++ data) in (ErrWrite <$> err, t).

(** The branch of [SendTo] for a peer without a session: start a key exchange
    unless one is running, and queue the packet. *)
Definition queuePacket t (now : gotime) (id : Z) (data : bytes) : option SendToErr * TunnelManager :=
  let t := if PendingRekeyHas (kx t) id then t else sendKeyExchangeToNode t now id in
  if PeerInRekeyGaveUp (kx t) now id then (Some ErrPendingDropped, t)
  else
    let q := pend t in
    if bool_decide (pending q !! id = None) && (maxPendingPeers <=? Z.of_nat (size (pending q)))
    then (Some ErrTooManyPending, t)
    else
      let l := default [] (pending q !! id) in
      if Nat.leb maxPendingPerPeer (length l) then
        let last := default zero_time (lastPendDropLog q !! id) in
        let log := if IsZero last || (pendingDropLogInterval <=? time_sub now last)
                   then <[id := now]> (lastPendDropLog q) else lastPendDropLog q in
        (Some ErrPendingDropped,
         set_pend t (mkPendingQueues (pending q) (pendingSince q) log (u64 (PendingDrops q + 1))))
      else
        let since := if Nat.eqb (length l) 0 then <[id := now]> (pendingSince q) else pendingSince q in
        (None, set_queues t (<[id := l ++ [data]]> (pending q)) since).

Definition SendTo t (now : gotime) (addr : option UDPAddr) (id : Z) (pkt : Packet)
  : option SendToErr * TunnelManager :=
  let t := if negb (isPing pkt) then noteAppActivity t now id else t in
  match Marshal pkt with
  | None => (Some ErrMarshal, t)
  | Some data =>
      if encrypt (tcfg t) then
        match Get (store t) id with
        | Some pc =>
            if IsReady (store t) id then
              let t := set_store t (RecordSalvage (store t) now (Some pc) data) in
              let '(frame, t) := encryptFrame t pc data in
              let '(err, t) := writeFrame t now id addr frame in
              (ErrWrite <$> err, t)
            else queuePacket t now id data
        | None => queuePacket t now id data
        end
      else sendPlaintextToNode t now id addr data
  end.

Definition Send t (now : gotime) (id : Z) (pkt : Packet) : option SendToErr * TunnelManager :=
  match peers t !! id with
  | None => (Some ErrNoTunnel, t)
  | Some addr => SendTo t now addr id pkt
  end.

(** ** Key exchange: the post-install hook and the handlers *)

Fixpoint replay_entries t (now : gotime) (peer : Z) (addr : option UDPAddr) (pc : nat)
    (l : list SalvageEntry) (replayed : nat) : nat * TunnelManager :=
  match l with
  | [] => (replayed, t)
  | e :: l =>
      let '(f, t) := encryptFrame t pc (Plaintext e) in
      let '(err, t) := writeFrame t now peer addr f in
      replay_entries t now peer addr pc l (match err with None => S replayed | Some _ => replayed end)
  end.

Definition replaySalvage t (now : gotime) (old : option nat) (new : nat) (peer : Z)
    (addr : option UDPAddr) : TunnelManager :=
  match old, addr with
  | Some _, Some _ =>
      let '(entries, s) := DrainSalvage (store t) now old in
      let t := set_store t s in
      match entries with
      | [] => t
      | _ =>
          let '(n, t) := replay_entries t now peer addr new entries 0 in
          if Nat.ltb 0 n then publishEvent t (EvDesyncSalvage peer n) else t
      end
  | _, _ => t
  end.

(** [learnEndpoint] is the part under [tm.mu]. *)
Definition learnEndpoint t (peer : Z) (from : option UDPAddr) (fromRelay : bool) : TunnelManager :=
  if negb fromRelay then
    match from with Some _ => set_peers t (<[peer := from]> (peers t)) | None => t end
  else
    match beaconAddr (routing t) with
    | None => t
    | Some b =>
        let hasDirect := match peerAddr t peer with
                         | Some existing => negb (sameEndpoint existing b)
                         | None => false
                         end in
        if hasDirect then t
        else
          let t := set_peers t (<[peer := Some b]> (peers t)) in
          set_routing t (snd (AdmitRelayFromBeacon (routing t) peer))
    end.

Definition onKeyInstalled t (now : gotime) (from : option UDPAddr) (fromRelay : bool) (a : Accepted)
  : TunnelManager :=
  let peer := acPeer a in
  let i := acInstalled a in
  let t := recordInboundDecrypt t now peer in
  let t := if negb (hadCrypto i) then noteAppActivity t now peer else t in
  let t := if installs a then set_via t (<[peer := fromRelay]> (keyViaRelay t)) else t in
  let t := learnEndpoint t peer from fromRelay in
  let t := if keyChanged i && bool_decide (is_Some (acOld a))
           then replaySalvage t now (acOld a) (acNew a) peer (peerAddr t peer) else t in
  flushPending t now peer.

(** The bus event and the hook, for a frame that is not a duplicate. *)
Definition announce t (now : gotime) (from : option UDPAddr) (fromRelay authenticated : bool) (a : Accepted)
  : TunnelManager :=
  if acDuplicate a then t
  else
    let t := set_kx t (publish_established (kx t) (acPeer a) authenticated fromRelay
                         (keyChanged (acInstalled a))) in
    onKeyInstalled t now from fromRelay a.

Definition kxHandleAuthFrame t (now : gotime) (data : bytes) (from : option UDPAddr) (fromRelay : bool)
  : TunnelManager :=
  match auth_accept (kx t) now data with
  | (None, m) => set_kx t m
  | (Some a, m) =>
      let t := announce (set_kx t m) now from fromRelay true a in
      let t :=
        if installs a then snd (kxSend t now (acPeer a))
        else if InboundDecryptStale (kx t) now (acPeer a) then
          let '(ok, m) := MarkReplyKeyExchangeSent (kx t) now (acPeer a) in
          let t := set_kx t m in
          if ok then snd (kxSend t now (acPeer a)) else t
        else t in
      set_kx t (ClearPendingRekey (kx t) (acPeer a))
  end.

Definition kxHandleUnauthFrame t (now : gotime) (data : bytes) (from : option UDPAddr) (fromRelay : bool)
  : TunnelManager :=
  match unauth_accept (kx t) now data with
  | (UnauthReject, m) => set_kx t m
  | (UnauthReply peer, m) => snd (kxSend (set_kx t m) now peer)
  | (UnauthAccept a, m) =>
      let t := announce (set_kx t m) now from fromRelay false a in
      let t := if installs a then snd (kxSend t now (acPeer a)) else t in
      set_kx t (ClearPendingRekey (kx t) (acPeer a))
  end.

(** The gates in front of the handlers.  [false] drops the frame. *)
Definition kxGate t (now : gotime) (data : bytes) (from : option UDPAddr) (fromRelay : bool)
  : bool * TunnelManager :=
  if negb (encrypt (tcfg t)) || bool_decide (privKey (cfg (kx t)) = None) then (false, t)
  else
    let '(ok, t) := if negb fromRelay then allowKxFromSource t now from else (true, t) in
    if negb ok then (false, t)
    else if Nat.leb 4 (length data) then
      match tunnelTrustGate (tcfg t) with
      | Some fn => (fn (Uint32 (slice 0 4 data)), t)
      | None => (true, t)
      end
    else (true, t).

Definition handleAuthKeyExchange t (now : gotime) (data : bytes) (from : option UDPAddr) (fromRelay : bool)
  : TunnelManager :=
  let '(ok, t) := kxGate t now data from fromRelay in
  if ok then kxHandleAuthFrame t now data from fromRelay else t.

Definition handleKeyExchange t (now : gotime) (data : bytes) (from : option UDPAddr) (fromRelay : bool)
  : TunnelManager :=
  let '(ok, t) := kxGate t now data from fromRelay in
  if ok then kxHandleUnauthFrame t now data from fromRelay else t.

(** ** Encrypted packets *)

Definition rekeyWhitelisted t (peer : Z) : bool :=
  let l := lims t in
  if rekeyWhitelistAll l then true
  else match rekeyWhitelist l with Some wl => bool_decide (peer ∈ wl) | None => false end.

(** (room for a new entry, the map after pruning) *)
Definition pruneRekeyBudgetLocked (now : gotime) (m : gmap Z gotime) : bool * gmap Z gotime :=
  if Z.of_nat (size m) <? maxRekeyRequesters then (true, m)
  else
    let m := filter (λ e, time_sub now e.2 < rekeyRequestInterval) m in
    (Z.of_nat (size m) <? maxRekeyRequesters, m).

(** The gate of [maybeRequestRekey]: may we, and the table afterwards. *)
Definition rekeyGate t (now : gotime) (peer : Z) : bool * TunnelManager :=
  let whitelisted := rekeyWhitelisted t peer in
  let m := lastRekeyReq (lims t) in
  match m !! peer with
  | Some last =>
      if negb whitelisted && (time_sub now last <? rekeyRequestInterval) then (false, t)
      else (true, set_lastRekeyReq t (<[peer := now]> m))
  | None =>
      let '(room, m) := if whitelisted then (true, m) else pruneRekeyBudgetLocked now m in
      if room then (true, set_lastRekeyReq t (<[peer := now]> m)) else (false, set_lastRekeyReq t m)
  end.

(** Does [peers] hold an address of the peer's own, not the beacon's? *)
Definition knownDirect t (peer : Z) : bool :=
  match peerAddr t peer with
  | None => false
  | Some existing =>
      match beaconAddr (routing t) with
      | None => true
      | Some b => negb (sameEndpoint existing b)
      end
  end.

Definition maybeRequestRekey t (now : gotime) (peer : Z) (from : option UDPAddr) : bool * TunnelManager :=
  if negb (hasSock (routing t)) then (false, t)
  else
    let '(ok, t) := rekeyGate t now peer in
    if negb ok then (false, t)
    else
      let hasDirect := knownDirect t peer in
      let t := if bool_decide (peers t !! peer = None) && bool_decide (is_Some from)
               then set_peers t (<[peer := from]> (peers t)) else t in
      let t := if IsFromBeacon (routing t) from && negb hasDirect
               then set_routing t (snd (AdmitRelayFromBeacon (routing t) peer)) else t in
      let t := if Has (store t) peer then t else set_kx t (MarkKeyRequestDue (kx t) peer) in
      (true, sendKeyExchangeToNode t now peer).

(** The three drop gates have one shape: drop the session the counters blame,
    if it is still the installed one, and ask for a new key. *)
Definition dropAndRekey (should : Store K → gotime → Z → option nat → bool) t (now : gotime)
    (peer : Z) (from : option UDPAddr) : TunnelManager :=
  let pc := Get (store t) peer in
  if should (store t) now peer pc then
    let '(dropped, s) := CompareAndDrop (store t) peer pc in
    let t := set_store t s in
    if dropped then snd (maybeRequestRekey t now peer from) else t
  else t.

Definition isTunnelKeepalive (pkt : Packet) : bool :=
  isPing pkt && Nat.eqb (length (Payload pkt)) 0.
Definition isLegacyUnstampedKeepalive (pkt : Packet) : bool :=
  (Node (Src pkt) =? 0) && isTunnelKeepalive pkt.

(** What a decrypted packet from [from] says about the path. *)
Definition learnPath t (now : gotime) (peer : Z) (from : option UDPAddr) : TunnelManager :=
  let t := recordInboundDecrypt t now peer in
  let t := set_kx t (ClearPendingRekey (kx t) peer) in
  let t := set_routing t (snd (ClearRelayOnDirect (routing t) peer from)) in
  if bool_decide (is_Some from) && negb (IsFromBeacon (routing t) from) then
    let t := set_routing t (RecordDirectRecv (routing t) peer now) in
    set_peers t (<[peer := from]> (peers t))
  else t.

Definition handleEncrypted t (now : gotime) (data : bytes) (from : option UDPAddr) : TunnelManager :=
  let '(res, s) := DecryptFrame (store t) data in
  let t := set_store t s in
  let peer := resPeerNodeID res in
  match resErr res with
  | Some TooShort => t
  | Some NoKey => snd (maybeRequestRekey t now peer from)
  | Some OutsideWindow => dropAndRekey ShouldDropOnOutsideWindow t now peer from
  | Some Replay =>
      dropAndRekey ShouldDropOnReplay (publishEvent t (EvNonceReplay peer (resCounter res))) now peer from
  | Some BadAEAD => dropAndRekey ShouldDropOnDecryptFail (countEncryptFail t) now peer from
  | None =>
      match Unmarshal (default [] (resPlaintext res)) with
      | None => t
      | Some pkt =>
          if negb (Node (Src pkt) =? peer) && negb (isLegacyUnstampedKeepalive pkt)
          then publishEvent t (EvSrcSpoofed peer (Node (Src pkt)))
          else
            let t := countRecv (learnPath t now peer from) (length data + 4) in
            if isTunnelKeepalive pkt then t
            else
              let t := if negb (isPing pkt) then noteAppActivity t now peer else t in
              deliver t pkt from
      end
  end.

(** ** Beacon messages *)

(** A plaintext packet: only on a tunnel without encryption. *)
Definition handlePlaintext t (payload : bytes) (from : option UDPAddr) : TunnelManager :=
  if encrypt (tcfg t) then t
  else if Nat.ltb (length payload) (4 + PacketHeaderSize) then t
  else match Unmarshal (drop 4 payload) with
       | None => t
       | Some pkt => deliver (countRecv t (length payload)) pkt from
       end.

Definition zeroAddr : UDPAddr := mkUDPAddr (v4InV6Prefix ++ [0; 0; 0; 0]) 0.

(** (admitted, state): the relay admission of [handleRelayDeliver]. *)
Definition admitRelayed t (src : Z) : bool * TunnelManager :=
  let hadCrypto := Has (store t) src in
  if knownDirect t src && hadCrypto then (true, t)
  else
    let '((admitted, newlyActivated, shouldAlias), r) :=
      MarkRelayActivatedIfHadCrypto (routing t) src hadCrypto in
    let t := set_routing t r in
    if negb admitted then (false, t)
    else
      let t := if shouldAlias then
                 match beaconAddr (routing t) with
                 | Some b => if bool_decide (peers t !! src = None)
                             then set_peers t (<[src := Some b]> (peers t)) else t
                 | None => t
                 end
               else t in
      (true, if newlyActivated then publishEvent t (EvRelayActivated src) else t).

Definition handleRelayDeliver t (now : gotime) (data : bytes) : TunnelManager :=
  if Nat.ltb (length data) 5 then t
  else
    let src := Uint32 (slice 0 4 data) in
    let payload := drop 4 data in
    let '(admitted, t) := admitRelayed t src in
    if negb admitted then t
    else if Nat.ltb (length payload) 4 then t
    else
      let srcAddr := Some (default zeroAddr (beaconAddr (routing t))) in
      let magic := take 4 payload in
      if bool_decide (magic = TunnelMagicAuthEx) then
        let '(ok, t) := allowKxFromRelaySrc t now src in
        if ok then handleAuthKeyExchange t now (drop 4 payload) srcAddr true else t
      else if bool_decide (magic = TunnelMagicKeyEx) then
        let '(ok, t) := allowKxFromRelaySrc t now src in
        if ok then handleKeyExchange t now (drop 4 payload) srcAddr true else t
      else if bool_decide (magic = TunnelMagicSecure) then handleEncrypted t now (drop 4 payload) srcAddr
      else if bool_decide (magic = TunnelMagic) then handlePlaintext t payload srcAddr
      else t.

(** The same layout as a punch target. *)
Definition parseDiscoverReply (body : bytes) : option UDPAddr := parsePunchTarget body.

Definition noteDiscoverReply t (ep : UDPAddr) (beacon : option UDPAddr) (now : gotime) : TunnelManager :=
  let o := obs t in
  match beacon, lastDiscover o with
  | Some b, Some sent =>
      let age := time_sub now sent in
      if (age <? 0) || (discoverReplyWindow <? age) then t
      else set_obs t (mkObservations (lastDiscover o) (Some (mkObservation ep b now)) (obsLatest o))
  | _, _ => t
  end.

Definition handleBeaconMessage t (now : gotime) (data : bytes) (from : option UDPAddr) : TunnelManager :=
  match data with
  | [] => t
  | code :: body =>
      let fromBeacon := forceRelay (routing t) || IsFromBeacon (routing t) from in
      if code =? BeaconMsgDiscoverReply then
        if fromBeacon then
          match parseDiscoverReply body with
          | Some ep => noteDiscoverReply t ep (beaconAddr (routing t)) now
          | None => t
          end
        else t
      else if code =? BeaconMsgPunchCommand then
        if fromBeacon then fold_left sockSend (HandlePunchCommand (routing t) body) t else t
      else if code =? BeaconMsgRelayDeliver then
        if fromBeacon then handleRelayDeliver t now body else t
      else if code =? beaconMsgNotify then
        if negb fromBeacon then t
        else match body with
             | kind :: _ => if (kind =? beaconNotifyHandshake) && hasBeaconNotify (tcfg t)
                            then publishEvent t EvBeaconNotify else t
             | [] => t
             end
      else t
  end.

(** One iteration of the read loop, on a datagram [frame] from [remote]. *)
Definition readLoopOneIter t (now : gotime) (frame : bytes) (remote : option UDPAddr) : TunnelManager :=
  let t := stampRecv t now in
  match frame with
  | [] => t
  | b :: _ =>
      if b <? 16 then handleBeaconMessage t now frame remote
      else if Nat.ltb (length frame) 4 then t
      else
        let magic := take 4 frame in
        if bool_decide (magic = TunnelMagicAuthEx) then handleAuthKeyExchange t now (drop 4 frame) remote false
        else if bool_decide (magic = TunnelMagicKeyEx) then handleKeyExchange t now (drop 4 frame) remote false
        else if bool_decide (magic = TunnelMagicSecure) then handleEncrypted t now (drop 4 frame) remote
        else if bool_decide (magic = TunnelMagicPunch) then t
        else if bool_decide (magic = TunnelMagic) then handlePlaintext t frame remote
        else t
  end.

(** ** Peers and path upkeep *)

Definition AddPeer t (now : gotime) (id : Z) (addr : option UDPAddr) : TunnelManager :=
  let t := set_peers t (<[id := addr]> (peers t)) in
  if encrypt (tcfg t) && negb (PendingRekeyHas (kx t) id) then sendKeyExchangeToNode t now id else t.

Definition tmRemovePeer t (id : Z) : TunnelManager :=
  let t := set_store t (Drop (store t) id) in
  let t := set_peers t (delete id (peers t)) in
  let t := set_routing t (RRemovePeer (routing t) id) in
  let t := set_kx t (RemovePeer (kx t) id) in
  let t := set_via t (delete id (keyViaRelay t)) in
  set_activity t (delete id (activity t)).

Definition DropCrypto t (id : Z) : TunnelManager :=
  let t := set_store t (Drop (store t) id) in set_kx t (RemovePeer (kx t) id).

Definition ClearLastRekeyReq t (peer : Z) : TunnelManager :=
  set_lastRekeyReq t (delete peer (lastRekeyReq (lims t))).

Definition KeyArrivedViaRelayOnly t (id : Z) : bool :=
  default false (keyViaRelay t !! id) && IsZero (default zero_time (lastDirectRecv (routing t) !! id)).

Definition SetRekeyWhitelist t (nodeIDs : list Z) : TunnelManager :=
  let l := lims t in
  set_lims t (mkKxLimits (lastRekeyReq l) (Some (list_to_set (List.filter (λ id, negb (id =? 0)) nodeIDs)))
                (rekeyWhitelistAll l) (kxRateLim l) (relayKxLim l)).
Definition SetRekeyWhitelistMatchAll t (on : bool) : TunnelManager :=
  let l := lims t in
  set_lims t (mkKxLimits (lastRekeyReq l) (rekeyWhitelist l) on (kxRateLim l) (relayKxLim l)).

(** The stamp is taken before the discover goes out. *)
Definition tmRegisterWithBeacon t (now : gotime) : TunnelManager :=
  let o := obs t in
  let t := if bool_decide (is_Some (beaconAddr (routing t)))
           then set_obs t (mkObservations (Some now) (obsLatest o) (obsPrev o)) else t in
  match RegisterWithBeacon (routing t) with Some d => sockSend t d | None => t end.
Definition tmRequestHolePunch t (target : Z) : TunnelManager :=
  match RequestHolePunch (routing t) target with Some d => sockSend t d | None => t end.
Definition forgetObservedEndpoints t : TunnelManager :=
  set_obs t (mkObservations (lastDiscover (obs t)) None None).
Definition ObservedEndpoint t : option UDPAddr := endpoint <$> obsLatest (obs t).

Definition ReadyPeerIDs t : gset Z := filter (λ id, IsReady (store t) id = true) (dom (peers t)).

(** [nodeID] of the tunnel is the store's local node ID (SetNodeID sets both). *)
Definition newKeepalivePacket t : Packet :=
  mkPacket Version 0 ProtoControl (mkAddr 0 (LocalNodeID (store t))) (mkAddr 0 0) 0 PortPing 0 0 0 [].

(** "pathprobe.v1" *)
Definition pathProbePayload : bytes := [112; 97; 116; 104; 112; 114; 111; 98; 101; 46; 118; 49].
Definition newPathProbePacket t (peer : Z) : Packet :=
  mkPacket Version 0 ProtoControl (mkAddr 0 (LocalNodeID (store t))) (mkAddr 0 peer)
    PortPing PortPing 0 0 0 pathProbePayload.

Inductive ProbeErr := ErrNoEndpoint | ErrBeaconPlaceholder | ErrProbeMarshal | ErrNoSession
  | ErrProbeWrite (e : RouteErr).

Definition SendPathProbe t (now : gotime) (peer : Z) : option ProbeErr * TunnelManager :=
  match peerAddr t peer with
  | None => (Some ErrNoEndpoint, t)
  | Some addr =>
      match Get (store t) peer with
      | Some pc =>
          if IsReady (store t) peer then
            match Marshal (newPathProbePacket t peer) with
            | None => (Some ErrProbeMarshal, t)
            | Some plaintext =>
                let '(frame, t) := encryptFrame t pc plaintext in
                let '(err, t) := writeFrame t now peer (Some addr) frame in
                (ErrProbeWrite <$> err, t)
            end
          else (Some ErrNoSession, t)
      | None => (Some ErrNoSession, t)
      end
  end.

(** [SendDirectProbeTo]; [record] marks the send as SendDirectProbeTo does and
    SendDirectProbe does not. *)
Definition directProbe t (now : gotime) (id : Z) (addr : option UDPAddr) (pkt : Packet) (record : bool)
  : option ProbeErr * TunnelManager :=
  match addr with
  | None => (Some ErrNoEndpoint, t)
  | Some a =>
      if IsFromBeacon (routing t) addr then (Some ErrBeaconPlaceholder, t)
      else
        match Marshal pkt with
        | None => (Some ErrProbeMarshal, t)
        | Some data =>
            let built :=
              if encrypt (tcfg t) then
                match Get (store t) id with
                | Some pc => if IsReady (store t) id then Some (encryptFrame t pc data) else None
                | None => None
                end
              else Some (TunnelMagic ++ data, t) in
            match built with
            | None => (Some ErrNoSession, t)
            | Some (frame, t) =>
                let res := sockRes (tcfg t) (sockCalls (io t)) in
                let t := sockSend t (frame, a) in
                match res with
                | Sent _ => (None, if record then set_routing t (RecordOutboundSend (routing t) id now) else t)
                | SendFailed e => (Some (ErrProbeWrite (ErrSend e)), t)
                end
            end
        end
  end.
Definition SendDirectProbe t (now : gotime) (id : Z) (pkt : Packet) : option ProbeErr * TunnelManager :=
  directProbe t now id (peerAddr t id) pkt false.
Definition SendDirectProbeTo t (now : gotime) (id : Z) (addr : option UDPAddr) (pkt : Packet)
  : option ProbeErr * TunnelManager :=
  directProbe t now id addr pkt true.
Definition SendDirectPathProbe t (now : gotime) (peer : Z) : option ProbeErr * TunnelManager :=
  SendDirectProbe t now peer (newPathProbePacket t peer).

(** Which peers need a keepalive; [order] is the order of the map range. *)
Definition keepaliveDue t (now : gotime) (open : gset Z) (id : Z) : bool :=
  negb (match LastOutboundSend (routing t) id with
        | Some last => time_sub now last <? TunnelKeepaliveInterval
        | None => false
        end) &&
  negb (idleFilter t now open id) && IsReady (store t) id.

Fixpoint sendKeepalives t (now : gotime) (l : list (Z * option UDPAddr * nat)) (sent : nat)
  : nat * TunnelManager :=
  match l with
  | [] => (sent, t)
  | (id, addr, pc) :: l =>
      match Marshal (newKeepalivePacket t) with
      | None => sendKeepalives t now l sent
      | Some plaintext =>
          let '(frame, t) := encryptFrame t pc plaintext in
          let '(err, t) := writeFrame t now id addr frame in
          sendKeepalives t now l (match err with None => S sent | Some _ => sent end)
      end
  end.

Definition keepaliveSweep t (now : gotime) (open : gset Z) (order : list Z) : nat * TunnelManager :=
  sendKeepalives t now
    (omap (λ id, match peers t !! id, Get (store t) id with
                 | Some addr, Some pc => if keepaliveDue t now open id then Some (id, addr, pc) else None
                 | _, _ => None
                 end) order) 0.
End Tunnel.
