(* ===== verification/TunnelProofs.v ===== *)
(** * Theorems on the tunnel manager (model in Tunnel)

    First what every operation of the tunnel leaves alone ([contained]): the
    configuration, the packets delivered so far, the allocated sessions, the
    limits of the queues; and what it may send.  Then the theorems. *)
From S2P Require Import Prelude Bitmap Crypto KeyStore Admission Protocol.
From S2P Require Import Envelope KeyExchange KeyExchangeProofs KeyExchangeStages Routing Tunnel.
Open Scope Z_scope.

Section Frame.
Context {P : Protocol} {W : PacketCodec} {K : Type} {C : Cipher K} {X : Primitives K}.
Implicit Types (t : TunnelManager) (m : Manager) (s : Store K).

(** ** What may leave the host *)

(** [f] is sealed under the key and nonce prefix of a session object of [s], in the
    name of this node. *)
Definition sealed s (f : bytes) : Prop :=
  ∃ p c n pt, heap s !! p = Some c ∧ f = TunnelMagicSecure ++ frame_body (LocalNodeID s) c n pt.
Definition kx_frame m (f : bytes) : Prop := BuildAuthFrame m = Some f ∨ BuildUnauthFrame m = Some f.
Definition safe_frame m (f : bytes) : Prop := sealed (env m) f ∨ kx_frame m f.

(** A datagram is the frame itself, or the frame in a relay message. *)
Definition carries (f d : bytes) : Prop := d = f ∨ ∃ r id, d = relayMsg r id f.
(** The same with its destination: a relay message goes to the beacon. *)
Definition routed (r : RManager) (f : bytes) (d : bytes * UDPAddr) : Prop :=
  d.1 = f ∨ ∃ id b, beaconAddr r = Some b ∧ d = (relayMsg r id f, b).
Lemma routed_carries r f d : routed r f d → carries f d.1.
Proof. intros [->|(id & b & _ & ->)]; [by left|right; by exists r, id]. Qed.

(** Messages of the tunnel's own: a hole punch, or a request to the beacon. *)
Definition control_msg (r : RManager) (d : bytes * UDPAddr) : Prop :=
  d.1 = TunnelMagicPunch ∨
  ∃ b, beaconAddr r = Some b ∧
    (d = ([BeaconMsgDiscover] ++ PutUint32 (Routing.localNodeID r), b) ∨
     ∃ k, d = ([BeaconMsgPunchRequest] ++ PutUint32 (Routing.localNodeID r) ++ PutUint32 k, b)).
Definition safe_dgram (r : RManager) m (d : bytes * UDPAddr) : Prop :=
  control_msg r d ∨ ∃ f, safe_frame m f ∧ routed r f d.

Lemma Build_cfg m m' :
  cfg m' = cfg m → BuildAuthFrame m' = BuildAuthFrame m ∧ BuildUnauthFrame m' = BuildUnauthFrame m.
Proof. intros E. unfold BuildAuthFrame, BuildUnauthFrame, KeyExchange.localNodeID. by rewrite E. Qed.

(** ** The frame of an operation *)

(** Session objects stay, with their key and nonce prefix. *)
Definition same_key (c c' : Crypto K) : Prop := AEAD c' = AEAD c ∧ NoncePrefix c' = NoncePrefix c.
Definition grows s s' : Prop :=
  (store_wf s → store_wf s') ∧ LocalNodeID s' = LocalNodeID s ∧
  ∀ p c, heap s !! p = Some c → ∃ c', heap s' !! p = Some c' ∧ same_key c c'.
#[local] Instance grows_refl : Reflexive grows.
Proof. intros s. split_and!; [done|done|]. intros p c Hc. by exists c. Qed.
#[local] Instance grows_trans : Transitive grows.
Proof.
  intros a b c (H1 & L1 & G1) (H2 & L2 & G2). split_and!; [auto|congruence|].
  intros p x (y & Hy & K1 & N1)%G1. destruct (G2 p y Hy) as (z & Hz & K2 & N2). exists z. split; [done|].
  split; congruence.
Qed.
Lemma grows_alive s s' p : grows s s' → is_Some (heap s !! p) → is_Some (heap s' !! p).
Proof. intros (_ & _ & G) [c (c' & ? & _)%G]. by exists c'. Qed.

Lemma frame_body_key (c c' : Crypto K) local n pt : same_key c c' → frame_body local c' n pt = frame_body local c n pt.
Proof. intros [E1 E2]. unfold frame_body, nonce_bytes. by rewrite E1, E2. Qed.

Lemma safe_frame_mono m m' f : cfg m' = cfg m → grows (env m) (env m') → safe_frame m f → safe_frame m' f.
Proof.
  intros Ec (_ & El & G) [(p & c & n & pt & Hc & ->)|H]; [left|right].
  - destruct (G p c Hc) as (c' & Hc' & Hk). exists p, c', n, pt. split; [done|].
    by rewrite El, (frame_body_key c c').
  - unfold kx_frame in *. by destruct (Build_cfg _ _ Ec) as [-> ->].
Qed.

(** The beacon and this node's number in relay messages. *)
Definition same_route (r r' : RManager) : Prop :=
  beaconAddr r' = beaconAddr r ∧ Routing.localNodeID r' = Routing.localNodeID r.
Lemma routed_same r r' f d : same_route r r' → routed r f d → routed r' f d.
Proof. intros [E1 E2] [?|(id & b & ? & ->)]; [by left|right]. exists id, b. unfold relayMsg. by rewrite E1, E2. Qed.
Lemma safe_dgram_mono r r' m m' d :
  same_route r r' → cfg m' = cfg m → grows (env m) (env m') → safe_dgram r m d → safe_dgram r' m' d.
Proof.
  intros Hr Ec Hg [H|(f & Hf & Hd)]; [left|right].
  - destruct Hr as [E1 E2]. unfold control_msg. by rewrite E1, E2.
  - exists f. split; [by eapply safe_frame_mono|by eapply routed_same].
Qed.

Definition pend_ok (q : Pending) : Prop :=
  (Z.of_nat (size (pending q)) <= maxPendingPeers) ∧
  map_Forall (λ _ l, (length l ≤ maxPendingPerPeer)%nat) (pending q).

(** From [t] to [t'], the packets [r] were delivered. *)
Record contained t (r : list (Packet * option UDPAddr)) t' : Prop := {
  ct_tcfg : tcfg t' = tcfg t;
  ct_cfg : cfg (kx t') = cfg (kx t);
  ct_recv : recvCh (io t') = recvCh (io t) ++ r;
  ct_store : grows (store t) (store t');
  ct_route : same_route (routing t) (routing t');
  ct_pend : pend_ok (pend t) → pend_ok (pend t');
  ct_out : ∃ l, outbox (io t') = outbox (io t) ++ l ∧ Forall (safe_dgram (routing t) (kx t')) l;
}.
Definition quiet t t' : Prop := contained t [] t'.

Lemma contained_trans t r1 t1 r2 t2 :
  contained t r1 t1 → contained t1 r2 t2 → contained t (r1 ++ r2) t2.
Proof.
  intros [] []. split; try congruence.
  - by rewrite app_assoc, <- ct_recv0, <- ct_recv1.
  - by etrans.
  - destruct ct_route0, ct_route1. split; congruence.
  - auto.
  - destruct ct_out0 as (l1 & E1 & H1), ct_out1 as (l2 & E2 & H2). exists (l1 ++ l2).
    split; [by rewrite app_assoc, <- E1, <- E2|]. apply Forall_app. split.
    + eapply Forall_impl; [exact H1|]. intros d. by apply safe_dgram_mono.
    + eapply Forall_impl; [exact H2|]. intros d. apply safe_dgram_mono; [|done|done].
      destruct ct_route0. by split.
Qed.
#[local] Instance quiet_refl : Reflexive quiet.
Proof. intros t. split; rewrite ?app_nil_r; try done. exists []. by rewrite app_nil_r. Qed.
#[local] Instance quiet_trans_tm : Transitive quiet.
Proof. intros a b c H1 H2. exact (contained_trans _ _ _ _ _ H1 H2). Qed.

(** Nothing but fields no theorem here is about. *)
Lemma quiet_fields t t' :
  tcfg t' = tcfg t → kx t' = kx t → pend t' = pend t → io t' = io t →
  same_route (routing t) (routing t') → quiet t t'.
Proof.
  intros E1 E2 E3 E4 E5. destruct (quiet_refl t). by split; unfold store in *; rewrite ?E1, ?E2, ?E3, ?E4.
Qed.

Lemma quiet_kx t m : same_sessions (kx t) m → quiet t (set_kx t m).
Proof.
  intros (E & Ec & _). destruct (quiet_refl t). split; try done; [unfold store; cbn [kx set_kx]; by rewrite E|].
  exists []. by rewrite app_nil_r.
Qed.

Lemma quiet_store t s : grows (store t) s → quiet t (set_store t s).
Proof. intros H. destruct (quiet_refl t). split; try done. exists []. by rewrite app_nil_r. Qed.

Lemma quiet_send t d : safe_dgram (routing t) (kx t) d → quiet t (sockSend t d).
Proof. intros H. destruct (quiet_refl t). split; try done. exists [d]. by split; [|constructor]. Qed.

(** The counters of [io]. *)
Lemma quiet_io t i : recvCh i = recvCh (io t) → outbox i = outbox (io t) → quiet t (set_io t i).
Proof. intros E1 E2. destruct (quiet_refl t). by split; cbn [io set_io]; rewrite ?E1, ?E2. Qed.

Lemma quiet_event t e : quiet t (publishEvent t e).
Proof. by destruct (quiet_refl t); split. Qed.

(** ** Sending *)

Lemma Admit_route r id : same_route r (snd (AdmitRelayFromBeacon r id)).
Proof. unfold AdmitRelayFromBeacon. by case_match. Qed.
Lemma Clear_route r id from : same_route r (snd (ClearRelayOnDirect r id from)).
Proof. unfold ClearRelayOnDirect. by repeat case_match. Qed.
#[local] Hint Extern 4 (same_route _ _) => apply Admit_route : core.
#[local] Hint Extern 4 (same_route _ _) => apply Clear_route : core.
Lemma MaybeFlip_route r now id : same_route r (snd (MaybeFlipBlackhole r now id)).
Proof. unfold MaybeFlipBlackhole. by repeat case_match. Qed.
Lemma HandleSendError_route r id e : same_route r (snd (HandleSendError r id e)).
Proof. unfold HandleSendError. by repeat case_match. Qed.

Lemma WriteFrame_routed r now id addr f res dg o r' :
  WriteFrame r now id addr f res = (dg, o, r') → same_route r r' ∧ ∀ d, dg = Some d → routed r f d.
Proof.
  unfold WriteFrame. pose proof (MaybeFlip_route r now id) as Hr.
  destruct (MaybeFlipBlackhole r now id) as [[[[sr fl] si] mi] r1]. cbn [snd] in Hr.
  assert (∀ e, same_route r (snd (HandleSendError r1 id e))) as He.
  { intros e. destruct Hr, (HandleSendError_route r1 id e). split; congruence. }
  destruct (if (if forceRelay r1 then true else sr) then beaconAddr r1 else None) as [b|] eqn:Eb.
  - assert (beaconAddr r = Some b) as Hb by (destruct Hr; destruct (if forceRelay r1 then true else sr); congruence).
    assert (routed r f (relayMsg r1 id f, b)) as Hd.
    { right. exists id, b. split; [done|]. unfold relayMsg. by destruct Hr as [_ ->]. }
    repeat case_match; intros [= <- <- <-]; (split; [first [exact Hr|apply He]|]); intros d [= <-]; exact Hd.
  - repeat case_match; intros [= <- <- <-]; (split; [first [exact Hr|apply He]|]); intros d [= <-]; by left.
Qed.

Lemma writeFrame_quiet t now id addr f :
  safe_frame (kx t) f → quiet t (snd (writeFrame t now id addr f)).
Proof.
  intros Hf. unfold writeFrame.
  destruct (WriteFrame _ _ _ _ _ _) as [[dg res] r] eqn:E. apply WriteFrame_routed in E as [Hr Hd].
  assert (quiet t (match dg with Some d => sockSend (set_routing t r) d | None => set_routing t r end)) as H.
  { transitivity (set_routing t r); [by apply quiet_fields|]. destruct dg as [d|]; [|done].
    apply quiet_send. right. exists f. split; [done|]. by apply (routed_same (routing t)), Hd. }
  cbn [snd]. etrans; [exact H|]. case_zif; [|done]. by apply quiet_kx.
Qed.

Lemma writeFrame_store t now id addr f : store (snd (writeFrame t now id addr f)) = store t.
Proof. unfold writeFrame. by repeat case_match. Qed.

Lemma writeFrame_peers t now id addr f : peers (snd (writeFrame t now id addr f)) = peers t.
Proof. unfold writeFrame. by repeat case_match. Qed.

Lemma relayCopy_quiet t id f : safe_frame (kx t) f → quiet t (relayCopy t id f).
Proof.
  intros Hf. unfold relayCopy, SendRelayFrame. repeat case_match; simplify_eq; try done.
  apply quiet_send. right. exists f. split; [done|right; eauto].
Qed.

(** A write through a pointer. *)
Lemma grows_write s p c c' : heap s !! p = Some c → same_key c c' → grows s (write s p c').
Proof.
  intros Hc Hk. split_and!; [apply store_wf_write|done|]. intros q x Hq. simpl. destruct (decide (p = q)) as [->|].
  - rewrite lookup_insert_eq. exists c'. split; [done|]. by simplify_eq.
  - rewrite lookup_insert_ne by done. by exists x.
Qed.
Lemma grows_counts s a b : grows s (with_counts s a b).
Proof. split_and!; [done|done|]. intros p c Hc. by exists c. Qed.

Lemma EncryptWith_spec s p pt :
  is_Some (heap s !! p) →
  sealed (snd (EncryptWith s p pt)) (fst (EncryptWith s p pt)) ∧ grows s (snd (EncryptWith s p pt)).
Proof.
  intros [c Hc]. unfold EncryptWith. rewrite Hc. cbn [fst snd]. split.
  - exists p, (with_nonce c (u64 (Nonce c + 1))), (u64 (Nonce c + 1)), pt. split; [simpl; apply lookup_insert_eq|done].
  - etrans; [by apply (grows_write s p c (with_nonce c (u64 (Nonce c + 1))))|]. apply grows_counts.
Qed.

Lemma encryptFrame_quiet t p pt :
  is_Some (heap (store t) !! p) →
  quiet t (snd (encryptFrame t p pt)) ∧ sealed (store (snd (encryptFrame t p pt))) (fst (encryptFrame t p pt)).
Proof.
  intros Hp. unfold encryptFrame. destruct (EncryptWith_spec (store t) p pt Hp) as [Hs Hg].
  destruct (EncryptWith _ _ _) as [f s]. cbn [fst snd] in *. split; [by apply quiet_store|done].
Qed.

Lemma EncryptWith_crypto s p pt : crypto (snd (EncryptWith s p pt)) = crypto s.
Proof. unfold EncryptWith. by case_match. Qed.

(** Sealing and writing one plaintext. *)
Definition sealAndWrite t (now : gotime) (id : Z) (addr : option UDPAddr) (p : nat) (pt : bytes)
  : option RouteErr * TunnelManager :=
  let '(f, t) := encryptFrame t p pt in writeFrame t now id addr f.

Lemma sealAndWrite_quiet t now id addr p pt :
  is_Some (heap (store t) !! p) → quiet t (snd (sealAndWrite t now id addr p pt)).
Proof.
  intros Hp. destruct (encryptFrame_quiet t p pt Hp) as [Hq Hs]. unfold sealAndWrite.
  destruct (encryptFrame t p pt) as [f t1]. cbn [fst snd] in *. etrans; [exact Hq|].
  apply writeFrame_quiet. by left.
Qed.

Lemma kx_frame_unauth m f : BuildUnauthFrame m = Some f → safe_frame m f.
Proof. right. by right. Qed.
Lemma kx_frame_auth m f : (if HasIdentity m then BuildAuthFrame m else None) = Some f → safe_frame m f.
Proof. case_match; [|done]. right. by left. Qed.
Lemma kx_frame_default m f uf :
  BuildUnauthFrame m = Some uf → f = default uf (if HasIdentity m then BuildAuthFrame m else None) →
  safe_frame m f.
Proof.
  intros Hu ->. destruct (if HasIdentity m then _ else _) eqn:E; simpl;
    [by apply kx_frame_auth|by apply kx_frame_unauth].
Qed.

Lemma kxSend_quiet t now peer : quiet t (snd (kxSend t now peer)).
Proof.
  unfold kxSend. destruct (BuildUnauthFrame (kx t)) as [uf|] eqn:Eu; [|done].
  set (f := default uf _).
  assert (safe_frame (kx t) f) as Hf by by eapply kx_frame_default.
  set (x := if _ && _ then _ else _).
  assert (quiet t (snd x)) as Hx.
  { unfold x. case_zif; [|done]. pose proof (takeKeyRequest_keys (kx t) peer) as [Hk _].
    destruct (takeKeyRequest _ _). by apply quiet_kx. }
  destruct x as [kr t1]. cbn [snd] in Hx. clearbody f.
  assert (quiet t1 (snd (writeFrame t1 now peer (peerAddr t peer) f))) as H2.
  { apply writeFrame_quiet. eapply safe_frame_mono; [..|exact Hf]; apply Hx. }
  destruct (writeFrame t1 _ _ _ f) as [err t2]. cbn [snd] in H2.
  destruct err as [e|]; [by etrans|]. 
  set (y := if kr then _ else (false, t2)).
  assert (quiet t2 (snd y)) as Hy.
  { unfold y. destruct kr; [|done].
    assert (quiet t2 (snd (writeFrame t2 now peer (peerAddr t peer) uf))) as H3.
    { apply writeFrame_quiet. eapply safe_frame_mono; [..|by apply (kx_frame_unauth (kx t) uf)].
      - transitivity (cfg (kx t1)); [apply H2|apply Hx].
      - etrans; [apply (ct_store _ _ _ Hx)|apply (ct_store _ _ _ H2)]. }
    destruct (writeFrame t2 _ _ _ uf) as [[e|] t3]; [done|]. etrans; [exact H3|]. by apply quiet_kx. }
  destruct y as [kr' t3]. cbn [snd] in *. etrans; [exact Hx|]. etrans; [exact H2|]. etrans; [exact Hy|].
  apply quiet_kx, MarkPendingRekey_keys.
Qed.

Lemma kxSend_peers t now peer : peers (snd (kxSend t now peer)) = peers t.
Proof.
  unfold kxSend. destruct (BuildUnauthFrame (kx t)) as [uf|]; [|done].
  set (x := if _ && _ then _ else _).
  assert (peers (snd x) = peers t) as Hx by (unfold x; repeat case_match; simplify_eq; done).
  destruct x as [kr t1]. cbn [snd] in Hx. rewrite <- Hx.
  pose proof (writeFrame_peers t1 now peer (peerAddr t peer)
    (default uf (if HasIdentity (kx t) then BuildAuthFrame (kx t) else None))) as H2.
  destruct (writeFrame t1 _ _ _ _) as [[e|] t2]; [done|]. cbn [snd] in H2. rewrite <- H2.
  destruct kr; [|done]. pose proof (writeFrame_peers t2 now peer (peerAddr t peer) uf) as H3.
  destruct (writeFrame t2 _ _ _ _) as [[e|] t3]; done.
Qed.

Lemma sendKeyExchangeToNode_quiet t now peer : quiet t (sendKeyExchangeToNode t now peer).
Proof.
  unfold sendKeyExchangeToNode. pose proof (kxSend_quiet t now peer) as H.
  destruct (kxSend t now peer) as [kr t1]. cbn [snd] in H. case_zif; [done|].
  destruct (if HasIdentity (kx t1) then _ else _) as [af|] eqn:Ea.
  2: destruct (BuildUnauthFrame (kx t1)) as [uf|] eqn:Eu; [|done].
  all: etrans; [exact H|].
  1: assert (quiet t1 (relayCopy t1 peer af)) as H2 by (by apply relayCopy_quiet, kx_frame_auth).
  2: assert (quiet t1 (relayCopy t1 peer uf)) as H2 by (by apply relayCopy_quiet, kx_frame_unauth).
  all: etrans; [exact H2|]; case_zif; [|reflexivity]; destruct (BuildUnauthFrame (kx (relayCopy _ _ _))) eqn:?; [|reflexivity];
    by apply relayCopy_quiet, kx_frame_unauth.
Qed.

Lemma relayCopy_peers t id f : peers (relayCopy t id f) = peers t.
Proof. unfold relayCopy. by case_match. Qed.
Lemma sendKeyExchangeToNode_peers t now peer : peers (sendKeyExchangeToNode t now peer) = peers t.
Proof.
  unfold sendKeyExchangeToNode. rewrite <- (kxSend_peers t now peer).
  destruct (kxSend t now peer) as [kr t1]. cbn [snd].
  repeat case_match; simplify_eq; rewrite ?relayCopy_peers; done.
Qed.

(** ** The queues *)

Lemma pend_ok_delete q id since log n :
  pend_ok q → pend_ok (mkPendingQueues (delete id (pending q)) since log n).
Proof.
  intros [Hs Hl]. split; simpl.
  - rewrite map_size_delete. destruct (pending q !! id); unfold maxPendingPeers in *; simpl; lia.
  - by apply map_Forall_delete.
Qed.

Lemma quiet_pend t q : (pend_ok (pend t) → pend_ok q) → quiet t (set_pend t q).
Proof. intros H. destruct (quiet_refl t). split; try done. Qed.

Lemma flush_frames_cons t now id addr pc pt l :
  flush_frames t now id addr pc (pt :: l) =
  if bool_decide (Get (store t) id = Some pc)
  then flush_frames (snd (sealAndWrite t now id addr pc pt)) now id addr pc l else t.
Proof.
  cbn [flush_frames]. unfold sealAndWrite. case_match; [|done].
  destruct (encryptFrame t pc pt) as [f t1]. by destruct (writeFrame _ _ _ _ _).
Qed.

Lemma quiet_alive t t' p : quiet t t' → is_Some (heap (store t) !! p) → is_Some (heap (store t') !! p).
Proof. intros H. eapply grows_alive, H. Qed.

Lemma flush_frames_quiet t now id addr pc l :
  is_Some (heap (store t) !! pc) → quiet t (flush_frames t now id addr pc l).
Proof.
  revert t. induction l as [|pt l IH]; intros t Hp; [done|]. rewrite flush_frames_cons.
  case_match; [|done]. pose proof (sealAndWrite_quiet t now id addr pc pt Hp) as Hs.
  etrans; [exact Hs|]. apply IH. by eapply quiet_alive.
Qed.

Lemma IsReady_alive s id pc : IsReady s id = true → Get s id = Some pc → is_Some (heap s !! pc).
Proof. unfold IsReady, deref. intros H E. rewrite E in H. simpl in H. destruct (heap s !! pc); [eauto|done]. Qed.

Lemma flushPending_quiet t now id : quiet t (flushPending t now id).
Proof.
  unfold flushPending. set (t1 := set_queues t _ _).
  assert (quiet t t1) as H by (apply quiet_pend, pend_ok_delete).
  etrans; [exact H|]. clear H. case_match; [done|].
  destruct (Get (store t1) id) as [pc|] eqn:Eg; [|done]. case_zif; [|done].
  apply flush_frames_quiet. by eapply IsReady_alive.
Qed.

Lemma sealAndWrite_peers t now id addr p pt : peers (snd (sealAndWrite t now id addr p pt)) = peers t.
Proof.
  unfold sealAndWrite, encryptFrame. destruct (EncryptWith _ _ _) as [f s]. by rewrite writeFrame_peers.
Qed.
Lemma flush_frames_peers t now id addr pc l : peers (flush_frames t now id addr pc l) = peers t.
Proof.
  revert t. induction l as [|pt l IH]; intros t; [done|]. rewrite flush_frames_cons.
  case_match; [|done]. by rewrite IH, sealAndWrite_peers.
Qed.
Lemma flushPending_peers t now id : peers (flushPending t now id) = peers t.
Proof. unfold flushPending. repeat case_match; rewrite ?flush_frames_peers; done. Qed.

Lemma queuePacket_quiet t now id data : quiet t (snd (queuePacket t now id data)).
Proof.
  unfold queuePacket. set (t1 := if PendingRekeyHas _ _ then _ else _).
  assert (quiet t t1) as H.
  { unfold t1. case_match; [done|]. apply sendKeyExchangeToNode_quiet. }
  clearbody t1. case_zif; [done|]. case_zif; [done|]. etrans; [exact H|].
  destruct (Nat.leb_spec maxPendingPerPeer (length (default [] (pending (pend t1) !! id)))); cbn [snd].
  { by apply quiet_pend. }
  apply quiet_pend. intros [Hs Hl]. split; simpl.
  - destruct (pending (pend t1) !! id) as [l|] eqn:E.
    + rewrite map_size_insert_Some; [lia|]. by rewrite E.
    + rewrite map_size_insert_None by done. simpl in *. destruct Heqb0 as [?|?]; [done|zbool; lia].
  - apply map_Forall_insert_2; [|done]. rewrite length_app. simpl in *. lia.
Qed.

(** ** Key exchange *)

Lemma replay_entries_quiet t now peer addr pc l n :
  is_Some (heap (store t) !! pc) → quiet t (snd (replay_entries t now peer addr pc l n)).
Proof.
  revert t n. induction l as [|e l IH]; intros t n Hp; [done|]. cbn [replay_entries].
  pose proof (sealAndWrite_quiet t now peer addr pc (Plaintext e) Hp) as H. unfold sealAndWrite in H.
  destruct (encryptFrame _ _ _) as [f t1]. destruct (writeFrame _ _ _ _ _) as [err t2]. cbn [snd] in H.
  etrans; [exact H|]. apply IH. by eapply quiet_alive.
Qed.

Lemma grows_Drain s now p : grows s (snd (DrainSalvage s now p)).
Proof. unfold DrainSalvage. repeat case_match; try done. by eapply grows_write. Qed.
Lemma grows_Record s now p pt : grows s (RecordSalvage s now p pt).
Proof. unfold RecordSalvage. repeat case_match; try done. by eapply grows_write. Qed.

Lemma replaySalvage_quiet t now old new peer addr :
  is_Some (heap (store t) !! new) → quiet t (replaySalvage t now old new peer addr).
Proof.
  intros Hp. unfold replaySalvage. destruct old as [q|]; [|done]. destruct addr as [a|]; [|done].
  pose proof (grows_Drain (store t) now (Some q)) as Hg.
  destruct (DrainSalvage _ _ _) as [es s]. cbn [snd] in Hg.
  assert (quiet t (set_store t s)) as H by by apply quiet_store.
  destruct es as [|e es]; [done|]. etrans; [exact H|].
  pose proof (replay_entries_quiet (set_store t s) now peer (Some a) new (e :: es) 0
    (quiet_alive _ _ _ H Hp)) as H2.
  destruct (replay_entries _ _ _ _ _ _ _) as [n t1]. cbn [snd] in H2. etrans; [exact H2|].
  case_match; [apply quiet_event|done].
Qed.

Lemma recordInboundDecrypt_quiet t now peer : quiet t (recordInboundDecrypt t now peer).
Proof.
  unfold recordInboundDecrypt. etrans; [apply quiet_kx|by apply quiet_fields]. done.
Qed.

Lemma learnEndpoint_quiet t peer from rel : quiet t (learnEndpoint t peer from rel).
Proof. unfold learnEndpoint. repeat case_match; try done; apply quiet_fields; auto; done. Qed.

Lemma onKeyInstalled_quiet t now from rel a :
  is_Some (heap (store t) !! acNew a) → quiet t (onKeyInstalled t now from rel a).
Proof.
  intros Hp. unfold onKeyInstalled. cbv zeta.
  set (t1 := recordInboundDecrypt _ _ _). set (t2 := if negb (hadCrypto _) then _ else _).
  set (t3 := if installs a then _ else _). set (t4 := learnEndpoint _ _ _ _).
  assert (quiet t t4) as H4.
  { transitivity t1; [apply recordInboundDecrypt_quiet|].
    transitivity t2; [unfold t2; case_match; [by apply quiet_fields|done]|].
    transitivity t3; [unfold t3; case_match; [by apply quiet_fields|done]|]. apply learnEndpoint_quiet. }
  clearbody t4. clear t1 t2 t3. etrans; [exact H4|]. etrans; [|apply flushPending_quiet].
  case_match; [|done]. apply replaySalvage_quiet. by eapply quiet_alive.
Qed.

Lemma install_session_grows m peer pc :
  grows (env m) (env (snd (install_session m peer pc))) ∧
  is_Some (heap (env (snd (install_session m peer pc))) !! fst (install_session m peer pc)).
Proof.
  unfold install_session. pose proof (heap_new_crypto (env m) pc) as Hh.
  pose proof (new_crypto_heap (env m) pc) as Hn. pose proof (store_wf_new_crypto (env m) pc) as Hw.
  assert (LocalNodeID (snd (new_crypto (env m) pc)) = LocalNodeID (env m)) as Hl by done.
  destruct (new_crypto (env m) pc) as [p e]. cbn [fst snd] in *.
  assert (∀ q x, heap (env m) !! q = Some x → ∃ x', heap e !! q = Some x' ∧ same_key x x')
    by (intros q x ?; exists x; split; [eauto|done]).
  case_match; cbn [env with_env]; (split; [split_and!|]); simpl; try by eauto.
  intros. apply store_wf_Install; eauto.
Qed.

(** The first stage of both handlers. *)
Definition accepts m m' (a : Accepted) : Prop :=
  grows (env m) (env m') ∧ cfg m' = cfg m ∧ is_Some (heap (env m') !! acNew a).

Lemma accept_session_spec m now peer pc a m' :
  accept_session m now peer pc = (a, m') → acPeer a = peer ∧ accepts m m' a.
Proof.
  unfold accept_session. destruct (install_session_grows m peer pc) as [Hg Hp].
  destruct (install_session_cfg m peer pc) as [Hc _].
  destruct (install_session m peer pc) as [p m1]. intros [= <- <-]. by split.
Qed.

Lemma same_sessions_grows m m' : same_sessions m m' → grows (env m) (env m') ∧ cfg m' = cfg m.
Proof. intros (-> & -> & _). split; [reflexivity|done]. Qed.

Lemma auth_accept_spec m now data r m' :
  auth_accept m now data = (r, m') →
  grows (env m) (env m') ∧ cfg m' = cfg m ∧
  match r with
  | Some a => acPeer a = Uint32 (slice 0 4 data) ∧ is_Some (heap (env m') !! acNew a)
  | None => True
  end.
Proof.
  unfold auth_accept. case_match; [by intros [= <- <-]|].
  destruct (privKey (cfg m)) as [pr|]; [|by intros [= <- <-]].
  pose proof (resolve_sessions m now (Uint32 (slice 0 4 data)) (slice 36 68 data)) as H1.
  destruct (resolve_identity _ _ _ _) as [[e|] m1]; cbn [snd] in H1;
    apply same_sessions_grows in H1 as [Hg1 Hc1]; [|by intros [= <- <-]].
  case_match; [by intros [= <- <-]|].
  pose proof (DeriveSecret_keys m1 now (slice 4 36 data)) as [H2 _].
  destruct (DeriveSecret _ _ _) as [[pc|] m2]; cbn [snd] in H2;
    apply same_sessions_grows in H2 as [Hg2 Hc2].
  - destruct (accept_session _ _ _ _) as [a m3] eqn:E.
    apply accept_session_spec in E as (Hp & Hg3 & Hc3 & Ha). intros [= <- <-].
    split; [by do 2 (etrans; [eassumption|])|]. split; [simpl; congruence|by split].
  - intros [= <- <-]. split; [by etrans|]. split; [congruence|done].
Qed.

Lemma unauth_accept_spec m now data r m' :
  unauth_accept m now data = (r, m') →
  grows (env m) (env m') ∧ cfg m' = cfg m ∧
  match r with
  | UnauthAccept a => acPeer a = Uint32 (slice 0 4 data) ∧ is_Some (heap (env m') !! acNew a)
  | _ => True
  end.
Proof.
  unfold unauth_accept. case_match; [by intros [= <- <-]|].
  destruct (privKey (cfg m)) as [pr|]; [|by intros [= <- <-]].
  set (x := if HasIdentity m then _ else _).
  assert (same_sessions m (snd x)) as H1.
  { unfold x. case_match; [|done]. pose proof (GetPeerPubKey_sessions m now (Uint32 (slice 0 4 data))) as H1.
    by destruct (GetPeerPubKey _ _ _). }
  destruct x as [known m1]. cbn [snd] in H1. apply same_sessions_grows in H1 as [Hg1 Hc1].
  destruct known; [by intros [= <- <-]|]. case_match; [by intros [= <- <-]|].
  pose proof (DeriveSecret_keys m1 now (slice 4 36 data)) as [H2 _].
  destruct (DeriveSecret _ _ _) as [[pc|] m2]; cbn [snd] in H2;
    apply same_sessions_grows in H2 as [Hg2 Hc2].
  - destruct (accept_session _ _ _ _) as [a m3] eqn:E.
    apply accept_session_spec in E as (Hp & Hg3 & Hc3 & Ha). intros [= <- <-].
    split; [by do 2 (etrans; [eassumption|])|]. split; [congruence|by split].
  - intros [= <- <-]. split; [by etrans|]. split; [congruence|done].
Qed.

Lemma quiet_grown t m : grows (store t) (env m) → cfg m = cfg (kx t) → quiet t (set_kx t m).
Proof. intros Hg Hc. destruct (quiet_refl t). split; try done. exists []. by rewrite app_nil_r. Qed.

Lemma announce_quiet t now from rel au a :
  is_Some (heap (store t) !! acNew a) → quiet t (announce t now from rel au a).
Proof.
  intros Hp. unfold announce. case_match; [done|].
  etrans; [|apply onKeyInstalled_quiet]; [by apply quiet_kx|done].
Qed.

Lemma kxHandleAuthFrame_quiet t now data from rel : quiet t (kxHandleAuthFrame t now data from rel).
Proof.
  unfold kxHandleAuthFrame. destruct (auth_accept (kx t) now data) as [[a|] m] eqn:E;
    apply auth_accept_spec in E as (Hg & Hc & H); [|by apply quiet_grown].
  destruct H as [_ Hp]. set (t1 := announce _ _ _ _ _ _). set (t2 := if installs a then _ else _).
  assert (quiet t t1) as H1.
  { etrans; [by apply quiet_grown|]. by apply announce_quiet. }
  assert (quiet t1 t2) as H2.
  { unfold t2. case_match; [apply kxSend_quiet|]. case_match; [|done].
    pose proof (MarkReply_keys (kx t1) now (acPeer a)) as [Hk _].
    destruct (MarkReplyKeyExchangeSent _ _ _) as [ok m2]. cbn [snd] in Hk.
    transitivity (set_kx t1 m2); [by apply quiet_kx|]. case_match; [apply kxSend_quiet|done]. }
  etrans; [exact H1|]. etrans; [exact H2|]. by apply quiet_kx.
Qed.

Lemma kxHandleUnauthFrame_quiet t now data from rel : quiet t (kxHandleUnauthFrame t now data from rel).
Proof.
  unfold kxHandleUnauthFrame. destruct (unauth_accept (kx t) now data) as [[|peer|a] m] eqn:E;
    apply unauth_accept_spec in E as (Hg & Hc & H).
  - by apply quiet_grown.
  - etrans; [by apply quiet_grown|]. apply kxSend_quiet.
  - destruct H as [_ Hp]. set (t1 := announce _ _ _ _ _ _).
    assert (quiet t t1) as H1.
    { etrans; [by apply quiet_grown|]. by apply announce_quiet. }
    etrans; [exact H1|]. set (t2 := if installs a then _ else _).
    assert (quiet t1 t2) as H2 by (unfold t2; case_match; [apply kxSend_quiet|done]).
    etrans; [exact H2|]. by apply quiet_kx.
Qed.

Lemma allowKx_same t now addr :
  quiet t (snd (allowKxFromSource t now addr)) ∧ kx (snd (allowKxFromSource t now addr)) = kx t ∧
  peers (snd (allowKxFromSource t now addr)) = peers t.
Proof.
  unfold allowKxFromSource. repeat case_match; simplify_eq; try done; (split; [by apply quiet_fields|done]).
Qed.

Lemma kxGate_same t now data from rel :
  quiet t (snd (kxGate t now data from rel)) ∧ kx (snd (kxGate t now data from rel)) = kx t ∧
  peers (snd (kxGate t now data from rel)) = peers t.
Proof.
  unfold kxGate. case_match; [done|]. set (x := if negb rel then _ else _).
  assert (quiet t (snd x) ∧ kx (snd x) = kx t ∧ peers (snd x) = peers t) as Hx.
  { unfold x. case_match; [apply allowKx_same|done]. }
  destruct x as [ok t1]. by repeat case_match.
Qed.

Lemma handleAuthKeyExchange_quiet t now data from rel :
  quiet t (handleAuthKeyExchange t now data from rel).
Proof.
  unfold handleAuthKeyExchange. destruct (kxGate_same t now data from rel) as [H _].
  destruct (kxGate _ _ _ _ _) as [ok t1]. etrans; [exact H|].
  case_match; [apply kxHandleAuthFrame_quiet|done].
Qed.
Lemma handleKeyExchange_quiet t now data from rel : quiet t (handleKeyExchange t now data from rel).
Proof.
  unfold handleKeyExchange. destruct (kxGate_same t now data from rel) as [H _].
  destruct (kxGate _ _ _ _ _) as [ok t1]. etrans; [exact H|].
  case_match; [apply kxHandleUnauthFrame_quiet|done].
Qed.

(** ** Receiving *)

Lemma maybeRequestRekey_quiet t now peer from : quiet t (snd (maybeRequestRekey t now peer from)).
Proof.
  unfold maybeRequestRekey. case_match; [done|].
  assert (quiet t (snd (rekeyGate t now peer))) as H1.
  { unfold rekeyGate. repeat case_match; simplify_eq; try done; by apply quiet_fields. }
  destruct (rekeyGate t now peer) as [ok t1]. cbn [snd] in H1. case_match; [done|].
  set (t2 := if bool_decide _ && _ then _ else _).
  set (t3 := if IsFromBeacon _ _ && _ then _ else _).
  set (t4 := if Has _ _ then _ else _). cbn [snd].
  transitivity t1; [done|]. transitivity t2; [unfold t2; case_match; [by apply quiet_fields|done]|].
  transitivity t3; [unfold t3; case_match; [by apply quiet_fields; auto|done]|].
  transitivity t4; [|apply sendKeyExchangeToNode_quiet]. unfold t4. case_match; [done|].
  apply quiet_kx. unfold MarkKeyRequestDue. by case_match.
Qed.

Lemma grows_wipe s p : grows s (wipeCryptoSecrets s p).
Proof. unfold wipeCryptoSecrets. repeat case_match; try done. by eapply grows_write. Qed.
Lemma grows_delete s peer : grows s (with_map s (delete peer (crypto s))).
Proof. split_and!; [apply store_wf_delete|done|]. intros p c Hc. by exists c. Qed.
Lemma grows_CompareAndDrop s peer p : grows s (snd (CompareAndDrop s peer p)).
Proof.
  unfold CompareAndDrop. case_match; [|done]. cbn [snd].
  etrans; [apply (grows_delete s peer)|apply grows_wipe].
Qed.
Lemma grows_Drop s peer : grows s (Drop s peer).
Proof. unfold Drop. etrans; [apply (grows_delete s peer)|apply grows_wipe]. Qed.

Lemma dropAndRekey_quiet should t now peer from : quiet t (dropAndRekey should t now peer from).
Proof.
  unfold dropAndRekey. case_match; [|done].
  pose proof (grows_CompareAndDrop (store t) peer (Get (store t) peer)) as Hg.
  destruct (CompareAndDrop _ _ _) as [d s]. cbn [snd] in Hg.
  transitivity (set_store t s); [by apply quiet_store|].
  case_match; [apply maybeRequestRekey_quiet|done].
Qed.

Lemma learnPath_quiet t now peer from : quiet t (learnPath t now peer from).
Proof.
  unfold learnPath. transitivity (recordInboundDecrypt t now peer); [apply recordInboundDecrypt_quiet|].
  set (t1 := recordInboundDecrypt t now peer). clearbody t1.
  transitivity (set_kx t1 (ClearPendingRekey (kx t1) peer)); [by apply quiet_kx|].
  pose proof (Clear_route (routing t1) peer from). case_match; by apply quiet_fields.
Qed.

(** The body of a frame opens, under the session of the node it names, to a
    packet. *)
Definition opens t (body : bytes) (pkt : Packet) : Prop :=
  ∃ p c pt, Get (store t) (Uint32 (slice 0 4 body)) = Some p ∧ heap (store t) !! p = Some c ∧
    Ready c = true ∧ WouldAcceptNonce c (frame_counter body) = true ∧
    Open (AEAD c) (slice 4 16 body) (drop 16 body) (PutUint32 (Uint32 (slice 0 4 body))) = Some pt ∧
    Unmarshal pt = Some pkt.

Lemma commit_key (c : Crypto K) n : same_key c (snd (commit c n)).
Proof. unfold commit, CheckAndRecordNonce. by repeat case_match; simplify_eq. Qed.
Lemma rejectResult_key (c : Crypto K) peer n mx : same_key c (snd (rejectResult c peer n mx)).
Proof. unfold rejectResult. by case_match. Qed.
Lemma same_key_trans (a b c : Crypto K) : same_key a b → same_key b c → same_key a c.
Proof. intros [? ?] [? ?]. split; congruence. Qed.

Lemma grows_DecryptFrame s data : grows s (snd (DecryptFrame s data)).
Proof.
  unfold DecryptFrame. case_match; [done|]. case_match; [|done]. case_match eqn:Eh; [|done]. case_match; [done|].
  cbn [precheck]. case_match; [|etrans; [|by eapply (grows_write (with_counts s _ _))]; apply grows_counts].
  case_match.
  - pose proof (rejectResult_key c (Uint32 (slice 0 4 data)) (frame_counter data) (MaxRecvNonce c)) as Hk.
    destruct (rejectResult _ _ _ _) as [res c']. by eapply grows_write.
  - pose proof (commit_key c (frame_counter data)) as Hk.
    destruct (commit _ _) as [[ok mx] c2]. cbn [snd] in Hk. case_match.
    + pose proof (rejectResult_key c2 (Uint32 (slice 0 4 data)) (frame_counter data) mx) as Hk2.
      destruct (rejectResult _ _ _ _) as [res c']. eapply grows_write; [done|by eapply same_key_trans].
    + by eapply grows_write.
Qed.

Lemma rejectResult_err (c : Crypto K) peer n mx : resErr (fst (rejectResult c peer n mx)) ≠ None.
Proof. unfold rejectResult. by case_match. Qed.

Lemma DecryptFrame_delivers t data res s pkt :
  DecryptFrame (store t) data = (res, s) → resErr res = None →
  Unmarshal (default [] (resPlaintext res)) = Some pkt →
  resPeerNodeID res = Uint32 (slice 0 4 data) ∧ opens t data pkt.
Proof.
  unfold DecryptFrame. case_match; [by intros [= <- <-]|].
  destruct (Get _ _) as [p|] eqn:Eg; [|by intros [= <- <-]].
  destruct (heap _ !! p) as [c|] eqn:Ec; [|by intros [= <- <-]].
  destruct (Ready c) eqn:Er; [|by intros [= <- <-]]. cbn [negb precheck].
  destruct (Open _ _ _ _) as [pt|] eqn:Eo; [|by intros [= <- <-]].
  destruct (WouldAcceptNonce _ _) eqn:Ew; cbn [negb].
  - destruct (commit _ _) as [[ok mx] c2]. destruct ok; cbn [negb].
    + intros [= <- <-] _ Hu. split; [done|]. exists p, c, pt. by split_and!.
    + destruct (rejectResult _ _ _ _) as [r c3] eqn:E. intros [= <- <-] Hn.
      exfalso. eapply rejectResult_err. by rewrite E.
  - destruct (rejectResult _ _ _ _) as [r c3] eqn:E. intros [= <- <-] Hn.
    exfalso. eapply rejectResult_err. by rewrite E.
Qed.

Lemma contained_deliver t pkt from : contained t [(pkt, from)] (deliver t pkt from).
Proof. by destruct (quiet_refl t); split. Qed.

(** What an encrypted frame can deliver. *)
Definition delivers t (body : bytes) (src : option UDPAddr) (r : list (Packet * option UDPAddr)) : Prop :=
  r = [] ∨ ∃ pkt, r = [(pkt, src)] ∧ opens t body pkt ∧
    Node (Src pkt) = Uint32 (slice 0 4 body) ∧ isTunnelKeepalive pkt = false.

Lemma handleEncrypted_spec t now data from :
  ∃ r, contained t r (handleEncrypted t now data from) ∧ delivers t data from r.
Proof.
  unfold handleEncrypted. pose proof (grows_DecryptFrame (store t) data) as Hg.
  pose proof (DecryptFrame_delivers t data) as Hd.
  destruct (DecryptFrame (store t) data) as [res s]. cbn [snd] in Hg.
  assert (quiet t (set_store t s)) as H0 by by apply quiet_store.
  assert (∀ t', quiet (set_store t s) t' → ∃ r, contained t r t' ∧ delivers t data from r) as Hq.
  { intros t' H. exists []. split; [exact (contained_trans _ _ _ _ _ H0 H)|by left]. }
  destruct (resErr res) as [[]|] eqn:Ee.
  1: apply Hq, maybeRequestRekey_quiet.
  1: apply Hq; etrans; [apply quiet_event|apply dropAndRekey_quiet].
  1: apply Hq, dropAndRekey_quiet.
  1: apply Hq; etrans; [|apply dropAndRekey_quiet]; by apply quiet_io.
  1: by apply Hq.
  destruct (Unmarshal _) as [pkt|] eqn:Eu; [|by apply Hq].
  destruct (Hd _ _ pkt eq_refl Ee Eu) as [Hp Ho].
  case_match eqn:Es; [apply Hq, quiet_event|].
  set (t1 := countRecv _ _).
  assert (quiet (set_store t s) t1) as H1.
  { etrans; [apply (learnPath_quiet _ now (resPeerNodeID res) from)|]. by apply quiet_io. }
  destruct (isTunnelKeepalive pkt) eqn:Ek; [by apply Hq|].
  set (t2 := if negb (isPing pkt) then _ else _).
  assert (quiet t1 t2) as H2 by (unfold t2; case_match; [by apply quiet_fields|done]).
  exists [(pkt, from)]. split.
  - apply (contained_trans _ [] t2 [(pkt, from)]); [|apply contained_deliver].
    change (quiet t t2). etrans; [exact H0|]. by etrans.
  - right. exists pkt. split_and!; try done. rewrite <- Hp.
    unfold isLegacyUnstampedKeepalive in Es. rewrite Ek, andb_false_r, andb_true_r in Es.
    apply negb_false_iff, Z.eqb_eq in Es. done.
Qed.

Lemma handlePlaintext_encrypted t payload from :
  encrypt (tcfg t) = true → handlePlaintext t payload from = t.
Proof. unfold handlePlaintext. by intros ->. Qed.

Lemma admitRelayed_quiet t src :
  quiet t (snd (admitRelayed t src)) ∧ kx (snd (admitRelayed t src)) = kx t ∧
  beaconAddr (routing (snd (admitRelayed t src))) = beaconAddr (routing t).
Proof.
  unfold admitRelayed, MarkRelayActivatedIfHadCrypto.
  repeat case_match; simplify_eq; try done; split_and!; try done;
    try (by apply quiet_fields); (etrans; [|apply quiet_event]); by apply quiet_fields.
Qed.

Lemma allowRelay_same t now src :
  quiet t (snd (allowKxFromRelaySrc t now src)) ∧ kx (snd (allowKxFromRelaySrc t now src)) = kx t ∧
  peers (snd (allowKxFromRelaySrc t now src)) = peers t.
Proof.
  unfold allowKxFromRelaySrc. repeat case_match; simplify_eq; try done; (split; [by apply quiet_fields|done]).
Qed.

Lemma opens_kx t t' body pkt : kx t' = kx t → opens t' body pkt → opens t body pkt.
Proof. unfold opens, store. by intros ->. Qed.

Definition fromBeacon t (remote : option UDPAddr) : bool :=
  forceRelay (routing t) || IsFromBeacon (routing t) remote.

(** The encrypted frame in a datagram, and the source it is handled with: the
    datagram itself, or what a beacon passes on. *)
Definition secure_body t (frame : bytes) (remote : option UDPAddr) (body : bytes) (src : option UDPAddr) : Prop :=
  (frame = TunnelMagicSecure ++ body ∧ src = remote) ∨
  (∃ id, length id = 4%nat ∧ frame = [BeaconMsgRelayDeliver] ++ id ++ TunnelMagicSecure ++ body ∧
         fromBeacon t remote = true ∧ src = Some (default zeroAddr (beaconAddr (routing t)))).

Lemma magic_split (m l : bytes) : take 4 l = m → l = m ++ drop 4 l.
Proof. intros <-. by rewrite take_drop. Qed.

Lemma handleRelayDeliver_spec t now data :
  encrypt (tcfg t) = true →
  ∃ r, contained t r (handleRelayDeliver t now data) ∧
    (r = [] ∨ ∃ id body, length id = 4%nat ∧ data = id ++ TunnelMagicSecure ++ body ∧
       delivers t body (Some (default zeroAddr (beaconAddr (routing t)))) r).
Proof.
  intros He. unfold handleRelayDeliver.
  assert (∀ t', quiet t t' → ∃ r, contained t r t' ∧
    (r = [] ∨ ∃ id body, length id = 4%nat ∧ data = id ++ TunnelMagicSecure ++ body ∧
       delivers t body (Some (default zeroAddr (beaconAddr (routing t)))) r)) as Hq.
  { intros t' H. exists []. split; [done|by left]. }
  destruct (Nat.ltb_spec (length data) 5); [by apply Hq|].
  destruct (admitRelayed_quiet t (Uint32 (slice 0 4 data))) as (Ha & Hk & Hb).
  destruct (admitRelayed t (Uint32 (slice 0 4 data))) as [ok t1]. cbn [snd] in *.
  destruct ok; [|by apply Hq]. cbn [negb]. case_match; [by apply Hq|].
  set (srcAddr := Some (default zeroAddr (beaconAddr (routing t1)))).
  assert (∀ t', quiet t1 t' → quiet t t') as Ht by (intros; by etrans).
  destruct (allowRelay_same t1 now (Uint32 (slice 0 4 data))) as (Hl & _ & _).
  destruct (allowKxFromRelaySrc _ _ _) as [ok t2]. cbn [snd] in Hl.
  case_match.
  { case_match; [|by apply Hq, Ht]. apply Hq, Ht. etrans; [exact Hl|]. apply handleAuthKeyExchange_quiet. }
  case_match.
  { case_match; [|by apply Hq, Ht]. apply Hq, Ht. etrans; [exact Hl|]. apply handleKeyExchange_quiet. }
  case_match eqn:Em.
  - apply bool_decide_eq_true, magic_split in Em.
    destruct (handleEncrypted_spec t1 now (drop 4 (drop 4 data)) srcAddr) as (r & Hc & Hd).
    exists r. split; [exact (contained_trans _ _ _ _ _ Ha Hc)|]. right.
    exists (take 4 data), (drop 4 (drop 4 data)). split; [rewrite length_take; lia|].
    split; [by rewrite <- Em, take_drop|].
    unfold srcAddr in Hd. rewrite Hb in Hd. destruct Hd as [->|(pkt & -> & Ho & Hr)]; [by left|right].
    exists pkt. eauto using opens_kx.
  - case_match; [|by apply Hq]. rewrite handlePlaintext_encrypted by (by rewrite (ct_tcfg _ _ _ Ha)).
    by apply Hq.
Qed.

Lemma quiet_sends t l : Forall (safe_dgram (routing t) (kx t)) l → quiet t (fold_left sockSend l t).
Proof.
  revert t. induction l as [|d l IH]; intros t Hl; [done|]. inversion Hl; subst. cbn [fold_left].
  etrans; [by apply quiet_send|]. by apply IH.
Qed.

Lemma quiet_stamp t now : quiet t (stampRecv t now).
Proof. by apply quiet_io. Qed.

Lemma readLoop_spec t now frame remote :
  encrypt (tcfg t) = true →
  ∃ r, contained t r (readLoopOneIter t now frame remote) ∧
    (r = [] ∨ ∃ body src, secure_body t frame remote body src ∧ delivers t body src r).
Proof.
  intros He. unfold readLoopOneIter.
  assert (∀ t', quiet (stampRecv t now) t' → ∃ r, contained t r t' ∧
    (r = [] ∨ ∃ body src, secure_body t frame remote body src ∧ delivers t body src r)) as Hq.
  { intros t' H. exists []. split; [|by left].
    apply (contained_trans _ [] (stampRecv t now) []); [|done]. by apply quiet_io. }
  destruct frame as [|b fr]; [by apply Hq|]. case_match.
  - unfold handleBeaconMessage. change (routing (stampRecv t now)) with (routing t).
    fold (fromBeacon t remote). case_match.
    { repeat case_match; try by apply Hq. apply Hq. unfold noteDiscoverReply.
      repeat case_match; try done; by apply quiet_fields. }
    case_match.
    { case_match; [|by apply Hq]. apply Hq, quiet_sends. unfold HandlePunchCommand.
      repeat case_match; try done. apply Forall_replicate. left. by left. }
    case_match eqn:Ec.
    { case_match eqn:Ef; [|by apply Hq].
      destruct (handleRelayDeliver_spec (stampRecv t now) now fr He) as (r & Hc & Hr).
      exists r. split; [exact (contained_trans t [] _ _ _ (quiet_stamp t now) Hc)|].
      destruct Hr as [->|(id & body & Hi & -> & Hd)]; [by left|right].
      exists body, (Some (default zeroAddr (beaconAddr (routing t)))). split; [right|done].
      apply Z.eqb_eq in Ec as ->. by exists id. }
    repeat case_match; try (by apply Hq); apply Hq, quiet_event.
  - case_match; [by apply Hq|].
    case_match; [apply Hq, handleAuthKeyExchange_quiet|].
    case_match; [apply Hq, handleKeyExchange_quiet|].
    case_match eqn:Em.
    + apply bool_decide_eq_true, magic_split in Em.
      destruct (handleEncrypted_spec (stampRecv t now) now (drop 4 (b :: fr)) remote) as (r & Hc & Hd).
      exists r. split; [exact (contained_trans t [] _ _ _ (quiet_stamp t now) Hc)|]. right.
      exists (drop 4 (b :: fr)), remote. split; [by left|done].
    + repeat case_match; try by apply Hq. rewrite handlePlaintext_encrypted by done. by apply Hq.
Qed.

(** ** The other operations *)

Lemma SendTo_quiet t now addr id pkt :
  encrypt (tcfg t) = true → quiet t (snd (SendTo t now addr id pkt)).
Proof.
  intros He. unfold SendTo. set (t1 := if negb (isPing pkt) then _ else _).
  assert (quiet t t1) as H1 by (unfold t1; case_match; [by apply quiet_fields|done]).
  etrans; [exact H1|]. case_match; [|done]. rewrite (ct_tcfg _ _ _ H1), He.
  destruct (Get (store t1) id) as [pc|] eqn:Eg; [|apply queuePacket_quiet].
  destruct (IsReady (store t1) id) eqn:Er; [|apply queuePacket_quiet].
  set (t2 := set_store t1 _).
  assert (quiet t1 t2) as H2 by (apply quiet_store, grows_Record).
  pose proof (sealAndWrite_quiet t2 now id addr pc l
    (quiet_alive _ _ _ H2 (IsReady_alive _ _ _ Er Eg))) as H3.
  unfold sealAndWrite in H3. destruct (encryptFrame _ _ _) as [f t3]. destruct (writeFrame _ _ _ _ _).
  by etrans.
Qed.

Lemma directProbe_quiet t now id addr pkt rec :
  encrypt (tcfg t) = true → quiet t (snd (directProbe t now id addr pkt rec)).
Proof.
  intros He. unfold directProbe. destruct addr as [a|]; [|done]. case_match; [done|].
  destruct (Marshal pkt) as [data|]; [|done]. rewrite He.
  destruct (Get (store t) id) as [pc|] eqn:Eg; [|done].
  destruct (IsReady (store t) id) eqn:Er; [|done].
  destruct (encryptFrame_quiet t pc data (IsReady_alive _ _ _ Er Eg)) as [H1 Hs].
  destruct (encryptFrame t pc data) as [f t1]. cbn [fst snd] in *.
  assert (quiet t (sockSend t1 (f, a))) as H2.
  { etrans; [exact H1|]. apply quiet_send. right. exists f. split; [by left|by left]. }
  case_match; cbn [snd]; [|done]. etrans; [exact H2|]. case_match; [by apply quiet_fields|done].
Qed.

Lemma SendPathProbe_quiet t now peer : quiet t (snd (SendPathProbe t now peer)).
Proof.
  unfold SendPathProbe. destruct (peerAddr t peer) as [a|]; [|done].
  destruct (Get (store t) peer) as [pc|] eqn:Eg; [|done].
  destruct (IsReady (store t) peer) eqn:Er; [|done]. destruct (Marshal _) as [pt|]; [|done].
  pose proof (sealAndWrite_quiet t now peer (Some a) pc pt (IsReady_alive _ _ _ Er Eg)) as H.
  unfold sealAndWrite in H. destruct (encryptFrame _ _ _). by destruct (writeFrame _ _ _ _ _).
Qed.

Lemma sendKeepalives_quiet t now l n :
  Forall (λ e, is_Some (heap (store t) !! e.2)) l → quiet t (snd (sendKeepalives t now l n)).
Proof.
  revert t n. induction l as [|[[id addr] pc] l IH]; intros t n Hl; [done|].
  inversion Hl as [|? ? Hp Hl']; subst. cbn [sendKeepalives]. destruct (Marshal _) as [pt|]; [|by apply IH].
  pose proof (sealAndWrite_quiet t now id addr pc pt Hp) as H. unfold sealAndWrite in H.
  destruct (encryptFrame _ _ _) as [f t1]. destruct (writeFrame _ _ _ _ _) as [err t2]. cbn [snd] in H.
  etrans; [exact H|]. apply IH. eapply Forall_impl; [exact Hl'|]. intros e. by apply quiet_alive.
Qed.

Lemma keepaliveSweep_quiet t now open order : quiet t (snd (keepaliveSweep t now open order)).
Proof.
  apply sendKeepalives_quiet, Forall_forall. intros [[id addr] pc] (x & _ & Hx)%list_elem_of_omap.
  destruct (peers t !! x) as [a|]; [|done]. destruct (Get (store t) x) as [q|] eqn:Eg; [|done].
  destruct (keepaliveDue t now open x) eqn:Ed; [|done]. simplify_eq. simpl.
  unfold keepaliveDue in Ed. zbool. by eapply IsReady_alive.
Qed.

(** ** Runs *)

Inductive t_op :=
| TRead (frame : bytes) (remote : option UDPAddr)
| TSend (id : Z) (pkt : Packet)
| TSendTo (addr : option UDPAddr) (id : Z) (pkt : Packet)
| TAddPeer (id : Z) (addr : option UDPAddr)
| TRemovePeer (id : Z)
| TDropCrypto (id : Z)
| TRetransmit (peer attempts : Z)
| TPathProbe (peer : Z)
| TDirectProbe (id : Z) (pkt : Packet)
| TDirectProbeTo (id : Z) (addr : option UDPAddr) (pkt : Packet)
| TKeepalives (open : gset Z) (order : list Z)
| TReapPending
| TReapDropLog
| TDropPending (id : Z)
| TClearRekeyReq (id : Z)
| TRegister
| THolePunch (target : Z)
| TForgetObserved
| TWhitelist (ids : list Z)
| TWhitelistAll (on : bool).

Definition t_step t (now : gotime) (o : t_op) : TunnelManager :=
  match o with
  | TRead frame remote => readLoopOneIter t now frame remote
  | TSend id pkt => snd (Send t now id pkt)
  | TSendTo addr id pkt => snd (SendTo t now addr id pkt)
  | TAddPeer id addr => AddPeer t now id addr
  | TRemovePeer id => tmRemovePeer t id
  | TDropCrypto id => DropCrypto t id
  | TRetransmit peer attempts => rekeyRetransmit t now peer attempts
  | TPathProbe peer => snd (SendPathProbe t now peer)
  | TDirectProbe id pkt => snd (SendDirectProbe t now id pkt)
  | TDirectProbeTo id addr pkt => snd (SendDirectProbeTo t now id addr pkt)
  | TKeepalives open order => snd (keepaliveSweep t now open order)
  | TReapPending => snd (reapStalePending t now)
  | TReapDropLog => reapPendDropLog t now
  | TDropPending id => dropPending t id
  | TClearRekeyReq id => ClearLastRekeyReq t id
  | TRegister => tmRegisterWithBeacon t now
  | THolePunch target => tmRequestHolePunch t target
  | TForgetObserved => forgetObservedEndpoints t
  | TWhitelist ids => SetRekeyWhitelist t ids
  | TWhitelistAll on => SetRekeyWhitelistMatchAll t on
  end.
Definition t_run t (ops : list (gotime * t_op)) : TunnelManager :=
  fold_left (λ t o, t_step t o.1 o.2) ops t.

Lemma AddPeer_quiet t now id addr : quiet t (AddPeer t now id addr).
Proof.
  unfold AddPeer. transitivity (set_peers t (<[id:=addr]> (peers t))); [by apply quiet_fields|].
  case_match; [apply sendKeyExchangeToNode_quiet|done].
Qed.

Lemma tmRemovePeer_quiet t id : quiet t (tmRemovePeer t id).
Proof.
  unfold tmRemovePeer. set (t1 := set_store _ _). set (t2 := set_peers _ _). set (t3 := set_routing _ _).
  set (t4 := set_kx _ _).
  transitivity t1; [apply quiet_store, grows_Drop|]. transitivity t3; [by apply quiet_fields|].
  transitivity t4; [by apply quiet_kx|by apply quiet_fields].
Qed.

Lemma reapStalePending_quiet t now : quiet t (snd (reapStalePending t now)).
Proof.
  apply quiet_pend. intros [Hs Hl]. split; cbn [pending].
  - etrans; [|exact Hs]. apply Nat2Z.inj_le, map_subseteq_size, map_filter_subseteq.
  - intros i l [Hi _]%map_lookup_filter_Some. exact (Hl i l Hi).
Qed.

Lemma tmRegister_quiet t now : quiet t (tmRegisterWithBeacon t now).
Proof.
  unfold tmRegisterWithBeacon. set (t1 := if bool_decide _ then _ else _).
  transitivity t1; [unfold t1; case_match; [by apply quiet_fields|done]|].
  unfold RegisterWithBeacon. repeat case_match; simplify_eq; try done.
  apply quiet_send. left. right. eexists. split; [done|by left].
Qed.
Lemma tmHolePunch_quiet t target : quiet t (tmRequestHolePunch t target).
Proof.
  unfold tmRequestHolePunch, RequestHolePunch. repeat case_match; simplify_eq; try done.
  apply quiet_send. left. right. eexists. split; [done|]. right. by eexists.
Qed.

Lemma t_step_contained t now o : encrypt (tcfg t) = true → ∃ r, contained t r (t_step t now o).
Proof.
  intros He. destruct o; cbn [t_step].
  1: by destruct (readLoop_spec t now frame remote He) as (r & H & _); exists r.
  all: exists []; change (quiet t ?x) with (contained t [] x).
  - unfold Send. case_match; [by apply SendTo_quiet|by apply quiet_refl].
  - by apply SendTo_quiet.
  - apply AddPeer_quiet.
  - apply tmRemovePeer_quiet.
  - unfold DropCrypto. set (t1 := set_store _ _).
    change (quiet t (set_kx t1 (RemovePeer (kx t1) id))).
    transitivity t1; [apply quiet_store, grows_Drop|by apply quiet_kx].
  - unfold rekeyRetransmit. set (t1 := maybeForceRelayOnRekey _ _ _).
    change (quiet t (snd (kxSend t1 now peer))). transitivity t1; [|apply kxSend_quiet].
    unfold t1, maybeForceRelayOnRekey. repeat case_match; try done. by apply quiet_fields.
  - apply SendPathProbe_quiet.
  - by apply directProbe_quiet.
  - by apply directProbe_quiet.
  - apply keepaliveSweep_quiet.
  - apply reapStalePending_quiet.
  - by apply quiet_pend.
  - apply quiet_pend, pend_ok_delete.
  - by apply quiet_fields.
  - apply tmRegister_quiet.
  - apply tmHolePunch_quiet.
  - by apply quiet_fields.
  - by apply quiet_fields.
  - by apply quiet_fields.
Qed.

Lemma t_run_contained t ops : encrypt (tcfg t) = true → ∃ r, contained t r (t_run t ops).
Proof.
  revert t. induction ops as [|[now o] ops IH]; intros t He; [exists []; apply quiet_refl|].
  destruct (t_step_contained t now o He) as [r1 H1].
  destruct (IH (t_step t now o)) as [r2 H2]; [by rewrite (ct_tcfg _ _ _ H1)|].
  exists (r1 ++ r2). by eapply contained_trans.
Qed.
End Frame.
