(* ===== verification/TunnelTheorems.v ===== *)
(** * What the tunnel guarantees (model in Tunnel, frame lemmas in TunnelProofs)

    Packets handed to the daemon come from the node they claim to come from;
    nothing leaves in the clear; a known peer's address moves only with proof;
    packets queued for a key leave in order once it is there; and what one
    tunnel seals the other delivers. *)
From S2P Require Import Prelude Bitmap Crypto KeyStore Admission Protocol.
From S2P Require Import Envelope KeyExchange KeyExchangeProofs KeyExchangeStages Routing Tunnel TunnelProofs.
Open Scope Z_scope.

Section Theorems.
Context {P : Protocol} {W : PacketCodec} {K : Type} {C : Cipher K} {X : Primitives K}.
Implicit Types (t : TunnelManager) (m : Manager) (s : Store K).

(** C9. Delivered packets are authentic.  On a tunnel with encryption, a
    datagram makes the tunnel hand up at most one packet; and then the datagram
    is an encrypted frame, or one that the beacon relayed, which opens under
    the session installed for the node its header names, has not been seen
    before in that session's window, and holds a packet whose source is that
    same node and which is not a keepalive.  A peer cannot speak for another
    and nothing arrives in the clear. *)
Theorem delivered_packets_are_authentic t now frame remote :
  encrypt (tcfg t) = true →
  let t' := readLoopOneIter t now frame remote in
  recvCh (io t') = recvCh (io t) ∨
  ∃ body src pkt, recvCh (io t') = recvCh (io t) ++ [(pkt, src)] ∧
    secure_body t frame remote body src ∧ opens t body pkt ∧
    Node (Src pkt) = Uint32 (slice 0 4 body) ∧ isTunnelKeepalive pkt = false.
Proof.
  intros He t'. destruct (readLoop_spec t now frame remote He) as (r & Hc & Hr).
  pose proof (ct_recv _ _ _ Hc) as E. fold t' in E.
  destruct Hr as [->|(body & src & Hs & [->|(pkt & -> & Ho & Hn & Hk)])].
  - left. by rewrite app_nil_r in E.
  - left. by rewrite app_nil_r in E.
  - right. by exists body, src, pkt.
Qed.

(** ** Where a peer's address comes from *)

Lemma rekeyGate_peers t now peer : peers (snd (rekeyGate t now peer)) = peers t.
Proof. unfold rekeyGate. by repeat case_match; simplify_eq. Qed.

Lemma maybeRequestRekey_peers t now peer from id a :
  peers t !! id = Some a → peers (snd (maybeRequestRekey t now peer from)) !! id = Some a.
Proof.
  intros Hi. unfold maybeRequestRekey. case_match; [done|].
  rewrite <- (rekeyGate_peers t now peer) in Hi. destruct (rekeyGate t now peer) as [ok t1].
  cbn [snd] in *. case_match; [done|]. cbn [snd]. rewrite sendKeyExchangeToNode_peers.
  set (t2 := if bool_decide _ && _ then _ else _).
  assert (peers t2 !! id = Some a) as H2.
  { unfold t2. case_match; [|done]. zbool. simpl. rewrite lookup_insert_ne; [done|].
    intros ->. by rewrite bool_decide_eq_true, Hi in *. }
  clearbody t2. by repeat case_match.
Qed.

Lemma dropAndRekey_peers should t now peer from id a :
  peers t !! id = Some a → peers (dropAndRekey should t now peer from) !! id = Some a.
Proof.
  intros Hi. unfold dropAndRekey. repeat case_match; try done. by apply maybeRequestRekey_peers.
Qed.

Lemma replay_entries_peers t now peer addr pc l n :
  peers (snd (replay_entries t now peer addr pc l n)) = peers t.
Proof.
  revert t n. induction l as [|e l IH]; intros t n; [done|]. cbn [replay_entries].
  pose proof (sealAndWrite_peers t now peer addr pc (Plaintext e)) as H. unfold sealAndWrite in H.
  destruct (encryptFrame _ _ _) as [f t1]. destruct (writeFrame _ _ _ _ _) as [err t2].
  cbn [snd] in H. by rewrite IH.
Qed.
Lemma replaySalvage_peers t now old new peer addr :
  peers (replaySalvage t now old new peer addr) = peers t.
Proof.
  unfold replaySalvage. destruct old as [q|]; [|done]. destruct addr as [a|]; [|done].
  destruct (DrainSalvage _ _ _) as [[|e l] s]; [done|].
  pose proof (replay_entries_peers (set_store t s) now peer (Some a) new (e :: l) 0) as H.
  destruct (replay_entries _ _ _ _ _ _ _) as [n t1]. cbn [snd] in H. by case_match.
Qed.

Lemma onKeyInstalled_peers t now from rel a id :
  id ≠ acPeer a → peers (onKeyInstalled t now from rel a) !! id = peers t !! id.
Proof.
  intros Hne. unfold onKeyInstalled. rewrite flushPending_peers.
  set (t3 := if installs a then _ else _).
  assert (peers t3 = peers t) as H3 by (unfold t3; by repeat case_match).
  rewrite <- H3. clearbody t3.
  assert (peers (learnEndpoint t3 (acPeer a) from rel) !! id = peers t3 !! id) as <-.
  { unfold learnEndpoint. repeat case_match; try done; simpl; by rewrite lookup_insert_ne. }
  case_match; [|done]. by rewrite replaySalvage_peers.
Qed.

Lemma announce_peers t now from rel au a id :
  id ≠ acPeer a → peers (announce t now from rel au a) !! id = peers t !! id.
Proof. intros. unfold announce. case_match; [done|]. by rewrite onKeyInstalled_peers. Qed.

Lemma kxHandleAuthFrame_peers t now data from rel id :
  peers (kxHandleAuthFrame t now data from rel) !! id = peers t !! id ∨
  ∃ a m, auth_accept (kx t) now data = (Some a, m) ∧ acPeer a = id.
Proof.
  unfold kxHandleAuthFrame. destruct (auth_accept (kx t) now data) as [[a|] m]; [|by left].
  destruct (decide (acPeer a = id)) as [|Hne]; [right; eauto|left]. cbn [peers set_kx].
  pose proof (announce_peers (set_kx t m) now from rel true a id) as Ha.
  cbn [peers set_kx] in Ha. rewrite <- Ha by done.
  set (t1 := announce _ _ _ _ _ _). case_match; [by rewrite kxSend_peers|]. case_match; [|done].
  destruct (MarkReplyKeyExchangeSent _ _ _). case_match; [by rewrite kxSend_peers|done].
Qed.

Lemma kxHandleUnauthFrame_peers t now data from rel id :
  peers (kxHandleUnauthFrame t now data from rel) !! id = peers t !! id ∨
  ∃ a m, unauth_accept (kx t) now data = (UnauthAccept a, m) ∧ acPeer a = id.
Proof.
  unfold kxHandleUnauthFrame. destruct (unauth_accept (kx t) now data) as [[|peer|a] m]; [by left| |].
  { left. by rewrite kxSend_peers. }
  destruct (decide (acPeer a = id)) as [|Hne]; [right; eauto|left]. cbn [peers set_kx].
  pose proof (announce_peers (set_kx t m) now from rel false a id) as Ha.
  cbn [peers set_kx] in Ha. rewrite <- Ha by done.
  case_match; [by rewrite kxSend_peers|done].
Qed.

(** The three ways a frame can speak for [id]: it opens under [id]'s session, or
    it is a handshake frame of [id]'s that is accepted. *)
Definition speaks_for t (now : gotime) (magic body : bytes) (id : Z) : Prop :=
  (magic = TunnelMagicSecure ∧ Uint32 (slice 0 4 body) = id ∧ ∃ pkt, opens t body pkt) ∨
  (magic = TunnelMagicAuthEx ∧ ∃ a m, auth_accept (kx t) now body = (Some a, m) ∧ acPeer a = id) ∨
  (magic = TunnelMagicKeyEx ∧ ∃ a m, unauth_accept (kx t) now body = (UnauthAccept a, m) ∧ acPeer a = id).

Lemma speaks_for_kx t t' now magic body id :
  kx t' = kx t → speaks_for t' now magic body id → speaks_for t now magic body id.
Proof.
  intros E. unfold speaks_for. rewrite E. intros [(? & ? & pkt & Ho)|H]; [left|by right].
  split_and!; [done..|]. exists pkt. by eapply opens_kx.
Qed.

Lemma handleAuthKeyExchange_peers t now data from rel id :
  peers (handleAuthKeyExchange t now data from rel) !! id = peers t !! id ∨
  speaks_for t now TunnelMagicAuthEx data id.
Proof.
  unfold handleAuthKeyExchange. destruct (kxGate_same t now data from rel) as (_ & Hk & Hp).
  destruct (kxGate _ _ _ _ _) as [ok t1]. cbn [snd] in *. case_match; [|left; by rewrite Hp].
  rewrite <- Hp. destruct (kxHandleAuthFrame_peers t1 now data from rel id) as [?|Ha]; [by left|].
  right. apply (speaks_for_kx t t1); [done|]. right. by left.
Qed.
Lemma handleKeyExchange_peers t now data from rel id :
  peers (handleKeyExchange t now data from rel) !! id = peers t !! id ∨
  speaks_for t now TunnelMagicKeyEx data id.
Proof.
  unfold handleKeyExchange. destruct (kxGate_same t now data from rel) as (_ & Hk & Hp).
  destruct (kxGate _ _ _ _ _) as [ok t1]. cbn [snd] in *. case_match; [|left; by rewrite Hp].
  rewrite <- Hp. destruct (kxHandleUnauthFrame_peers t1 now data from rel id) as [?|Ha]; [by left|].
  right. apply (speaks_for_kx t t1); [done|]. right. by right.
Qed.

Lemma handleEncrypted_peers t now data from id a :
  peers t !! id = Some a →
  peers (handleEncrypted t now data from) !! id = Some a ∨ speaks_for t now TunnelMagicSecure data id.
Proof.
  intros Hi. unfold handleEncrypted. pose proof (DecryptFrame_delivers t data) as Hd.
  destruct (DecryptFrame (store t) data) as [res s].
  destruct (resErr res) as [[]|] eqn:Ee.
  1: left; by apply maybeRequestRekey_peers.
  1,2,3: left; by apply dropAndRekey_peers.
  1: by left.
  destruct (Unmarshal _) as [pkt|] eqn:Eu; [|by left].
  destruct (Hd _ _ pkt eq_refl Ee Eu) as [Hp Ho]. case_match; [by left|].
  destruct (decide (resPeerNodeID res = id)) as [<-|Hne]; [right; left; eauto|left].
  assert (peers (learnPath (set_store t s) now (resPeerNodeID res) from) !! id = Some a) as Hl.
  { unfold learnPath. case_match; [|done]. simpl. by rewrite lookup_insert_ne. }
  by repeat case_match.
Qed.

Lemma admitRelayed_peers t src id a :
  peers t !! id = Some a → peers (snd (admitRelayed t src)) !! id = Some a.
Proof.
  intros Hi. unfold admitRelayed. repeat case_match; simplify_eq; try done; simpl;
    (rewrite lookup_insert_ne; [done|]); intros ->;
    match goal with H : bool_decide (_ = None) = true |- _ => apply bool_decide_eq_true in H; simpl in H end;
    congruence.
Qed.

(** The frame a datagram carries for the tunnel: its own, or a relayed one. *)
Definition frame_in (dgram magic body : bytes) : Prop :=
  length magic = 4%nat ∧
  (dgram = magic ++ body ∨
   ∃ id, length id = 4%nat ∧ dgram = [BeaconMsgRelayDeliver] ++ id ++ magic ++ body).

Lemma handleRelayDeliver_peers t now data id a :
  peers t !! id = Some a →
  peers (handleRelayDeliver t now data) !! id = Some a ∨
  speaks_for t now (take 4 (drop 4 data)) (drop 4 (drop 4 data)) id ∧ (8 ≤ length data)%nat.
Proof.
  intros Hi. unfold handleRelayDeliver. case_match; [by left|].
  destruct (admitRelayed_quiet t (Uint32 (slice 0 4 data))) as (_ & Hk & _).
  pose proof (admitRelayed_peers t (Uint32 (slice 0 4 data)) id a Hi) as Hi1.
  destruct (admitRelayed _ _) as [ok t1]. cbn [snd] in *. case_match; [by left|].
  destruct (Nat.ltb_spec (length (drop 4 data)) 4) as [|Hl]; [by left|].
  rewrite length_drop in Hl. set (sa := Some _).
  destruct (allowRelay_same t1 now (Uint32 (slice 0 4 data))) as (_ & Hk2 & Hp2).
  destruct (allowKxFromRelaySrc _ _ _) as [ok2 t2]. cbn [snd] in *.
  assert (∀ t' magic body, peers t' !! id = peers t2 !! id ∨ speaks_for t2 now magic body id →
    peers t' !! id = Some a ∨ speaks_for t now magic body id ∧ (8 ≤ length data)%nat) as Hstep.
  { intros t' magic body [->|Hs]; [left; by rewrite Hp2|right].
    split; [eapply speaks_for_kx; [|exact Hs]; congruence|lia]. }
  case_match eqn:Em.
  { apply bool_decide_eq_true in Em as ->. case_match; [|left; by rewrite Hp2].
    apply Hstep, handleAuthKeyExchange_peers. }
  case_match eqn:Em2.
  { apply bool_decide_eq_true in Em2 as ->. case_match; [|left; by rewrite Hp2].
    apply Hstep, handleKeyExchange_peers. }
  case_match eqn:Em3.
  { apply bool_decide_eq_true in Em3 as ->. destruct (handleEncrypted_peers t1 now (drop 4 (drop 4 data)) sa id a Hi1) as [?|Hs]; [by left|right].
    split; [by eapply speaks_for_kx|lia]. }
  case_match; [|by left]. left. unfold handlePlaintext. by repeat case_match.
Qed.

(** C12. A known address moves only with proof.  Whatever datagram arrives, from
    wherever, the address stored for a peer stays what it was unless the datagram
    carries a frame that speaks for that very peer: an encrypted one that
    opens under the peer's session, or a handshake frame of the peer's that the key
    exchange accepts.  A frame nobody can decrypt, a replay, a beacon message or
    a relayed packet of someone else's does not redirect its traffic. *)
Theorem known_address_moves_only_with_proof t now dgram remote id a :
  peers t !! id = Some a →
  peers (readLoopOneIter t now dgram remote) !! id = Some a ∨
  ∃ magic body, frame_in dgram magic body ∧ speaks_for t now magic body id.
Proof.
  intros Hi. unfold readLoopOneIter. destruct dgram as [|b fr]; [by left|]. case_match.
  - unfold handleBeaconMessage. repeat (case_match; try by left).
    { left. unfold noteDiscoverReply. by repeat case_match. }
    { left. assert (∀ l t, peers (fold_left sockSend l t) = peers t) as Hf.
      { induction l as [|d l IH]; intros u; [done|]. cbn [fold_left]. by rewrite IH. }
      by rewrite Hf. }
    match goal with H : (b =? BeaconMsgRelayDeliver) = true |- _ => apply Z.eqb_eq in H as -> end.
    destruct (handleRelayDeliver_peers (stampRecv t now) now fr id a Hi) as [?|[Hs Hl]]; [by left|right].
    exists (take 4 (drop 4 fr)), (drop 4 (drop 4 fr)). split; [|by eapply speaks_for_kx; [|exact Hs]].
    split; [rewrite length_take, length_drop; lia|right].
    exists (take 4 fr). split; [rewrite length_take; lia|]. simpl. f_equal. by rewrite !take_drop.
  - destruct (Nat.ltb_spec (length (b :: fr)) 4) as [|Hl]; [by left|].
    assert (∀ t', (peers t' !! id = Some a ∨
        speaks_for (stampRecv t now) now (take 4 (b :: fr)) (drop 4 (b :: fr)) id) →
      peers t' !! id = Some a ∨ ∃ magic body, frame_in (b :: fr) magic body ∧ speaks_for t now magic body id)
      as Hstep.
    { intros t' [?|Hs]; [by left|right]. exists (take 4 (b :: fr)), (drop 4 (b :: fr)).
      split; [|by eapply speaks_for_kx; [|exact Hs]].
      split; [rewrite length_take; lia|left; by rewrite take_drop]. }
    case_match eqn:Em; [apply bool_decide_eq_true in Em; rewrite Em in Hstep; apply Hstep; rewrite <- Hi;
      apply (handleAuthKeyExchange_peers (stampRecv t now))|].
    case_match eqn:Em2; [apply bool_decide_eq_true in Em2; rewrite Em2 in Hstep; apply Hstep; rewrite <- Hi;
      apply (handleKeyExchange_peers (stampRecv t now))|].
    case_match eqn:Em3; [apply bool_decide_eq_true in Em3; rewrite Em3 in Hstep;
      by apply Hstep, handleEncrypted_peers|].
    case_match; [by left|]. case_match; [|by left]. left. unfold handlePlaintext. by repeat case_match.
Qed.

(** ** Packets that waited for a key *)

Lemma HandleSendError_sock r id e : hasSock (snd (HandleSendError r id e)) = hasSock r.
Proof. unfold HandleSendError. by repeat case_match. Qed.

(** A frame for [id] as it leaves: to the peer's address, or in a relay message for
    [id] to the beacon. *)
Definition sentTo (r : RManager) (id : Z) (a : UDPAddr) (f : bytes) (d : bytes * UDPAddr) : Prop :=
  d = (f, a) ∨ ∃ b, beaconAddr r = Some b ∧ d = (relayMsg r id f, b).
Lemma sentTo_same r r' id a f d : same_route r r' → sentTo r' id a f d → sentTo r id a f d.
Proof. intros [E1 E2] [?|(b & ? & ->)]; [by left|right]. exists b. unfold relayMsg. rewrite E2. split; [congruence|done]. Qed.

(** With an address and a socket, a frame leaves as exactly one datagram. *)
Lemma WriteFrame_sends r now id a f res :
  hasSock r = true →
  ∃ d o r', WriteFrame r now id (Some a) f res = (Some d, o, r') ∧ hasSock r' = true ∧ sentTo r id a f d.
Proof.
  intros Hs. unfold WriteFrame.
  assert (hasSock (snd (MaybeFlipBlackhole r now id)) = true) as Hs1
    by (unfold MaybeFlipBlackhole; by repeat case_match).
  pose proof (MaybeFlip_route r now id) as Hr.
  destruct (MaybeFlipBlackhole r now id) as [[[[sr fl] si] mi] r1]. cbn [snd] in Hs1, Hr. rewrite Hs1. cbn [negb].
  destruct (if (if forceRelay r1 then true else sr) then beaconAddr r1 else None) as [b|] eqn:Eb;
    destruct res as [n|e]; do 3 eexists; (split; [done|]); simpl;
    rewrite ?HandleSendError_sock; (split; [done|]); try by left.
  all: apply (sentTo_same r r1 id a f _ Hr); right; exists b; (split; [|done]);
    by destruct (if forceRelay r1 then true else sr).
Qed.

Lemma writeFrame_sends t now id a f :
  hasSock (routing t) = true →
  let t' := snd (writeFrame t now id (Some a) f) in
  hasSock (routing t') = true ∧ ∃ d, outbox (io t') = outbox (io t) ++ [d] ∧ sentTo (routing t) id a f d.
Proof.
  intros Hs. unfold writeFrame.
  destruct (WriteFrame_sends (routing t) now id a f (sockRes (tcfg t) (sockCalls (io t))) Hs)
    as (d & o & r' & -> & Hr & Hc). cbn [snd]. case_match; simpl; (split; [done|by exists d]).
Qed.

(** What [EncryptWith] does through a pointer to [c]: the frame with the next
    counter, which becomes the session's. *)
Lemma EncryptWith_next s p c pt :
  heap s !! p = Some c →
  fst (EncryptWith s p pt) = TunnelMagicSecure ++ frame_body (LocalNodeID s) c (u64 (Nonce c + 1)) pt ∧
  heap (snd (EncryptWith s p pt)) !! p = Some (with_nonce c (u64 (Nonce c + 1))) ∧
  LocalNodeID (snd (EncryptWith s p pt)) = LocalNodeID s.
Proof. intros Hc. unfold EncryptWith. rewrite Hc. cbn. by rewrite lookup_insert_eq. Qed.

Lemma u64_succ_l a b : u64 (u64 a + b) = u64 (a + b).
Proof. unfold u64. apply Zplus_mod_idemp_l. Qed.

(** The frames that a list of plaintexts becomes, with consecutive counters. *)
Definition sealed_run (local : Z) (c : Crypto K) (l : list bytes) : list bytes :=
  imap (λ i pt, TunnelMagicSecure ++ frame_body local c (u64 (Nonce c + 1 + Z.of_nat i)) pt) l.

Lemma sealed_run_cons local c pt l :
  sealed_run local c (pt :: l) =
  (TunnelMagicSecure ++ frame_body local c (u64 (Nonce c + 1)) pt) ::
  sealed_run local (with_nonce c (u64 (Nonce c + 1))) l.
Proof.
  unfold sealed_run. rewrite imap_cons. f_equal; [do 3 f_equal; lia|].
  apply imap_ext. intros i x _. simpl. unfold frame_body, nonce_bytes. cbn [AEAD NoncePrefix with_nonce Nonce].
  replace (u64 (u64 (Nonce c + 1) + 1 + Z.of_nat i)) with (u64 (Nonce c + 1 + Z.of_nat (S i))); [done|].
  rewrite <- (Z.add_assoc (u64 _)), u64_succ_l. f_equal. lia.
Qed.

Lemma writeFrame_route t now id addr f : same_route (routing t) (routing (snd (writeFrame t now id addr f))).
Proof.
  unfold writeFrame. destruct (WriteFrame _ _ _ _ _ _) as [[dg res] r] eqn:E. apply WriteFrame_routed in E as [Hr _].
  cbn [snd]. by repeat case_match.
Qed.

Lemma flush_frames_order t now id a p c l :
  Get (store t) id = Some p → heap (store t) !! p = Some c → hasSock (routing t) = true →
  ∃ ds, outbox (io (flush_frames t now id (Some a) p l)) = outbox (io t) ++ ds ∧
        Forall2 (sentTo (routing t) id a) (sealed_run (LocalNodeID (store t)) c l) ds.
Proof.
  revert t c. induction l as [|pt l IH]; intros t c Hg Hc Hs.
  { exists []. rewrite app_nil_r. by split; [|constructor]. }
  rewrite flush_frames_cons, bool_decide_eq_true_2 by done. rewrite sealed_run_cons.
  destruct (EncryptWith_next (store t) p c pt Hc) as (Hf & Hc' & Hl').
  pose proof (EncryptWith_crypto (store t) p pt) as Hcr.
  unfold sealAndWrite, encryptFrame. destruct (EncryptWith (store t) p pt) as [f s]. cbn [fst snd] in *.
  set (t1 := set_store t s). destruct (writeFrame_sends t1 now id a f Hs) as (Hs2 & d & Hd & Hca).
  pose proof (writeFrame_store t1 now id (Some a) f) as Hst.
  set (t2 := snd (writeFrame t1 now id (Some a) f)) in *. change (store t1) with s in Hst.
  destruct (IH t2 (with_nonce c (u64 (Nonce c + 1)))) as (ds & Ho & Hfa); [| |done|].
  { unfold Get in *. by rewrite Hst, Hcr. }
  { by rewrite Hst. }
  exists (d :: ds). split; [rewrite Ho, Hd; by rewrite <- app_assoc|].
  rewrite Hst, Hl' in Hfa. constructor; [by rewrite <- Hf|]. eapply Forall2_impl; [exact Hfa|].
  intros x y. exact (sentTo_same _ _ _ _ _ _ (writeFrame_route t1 now id (Some a) f)).
Qed.

Lemma flush_frames_pend t now id addr p l : pend (flush_frames t now id addr p l) = pend t.
Proof.
  revert t. induction l as [|pt l IH]; intros t; [done|]. rewrite flush_frames_cons. case_match; [|done].
  rewrite IH. unfold sealAndWrite, encryptFrame. destruct (EncryptWith _ _ _). unfold writeFrame.
  by repeat case_match.
Qed.

(** Packets that waited for a key leave in order.  When the session is in,
    the queue of the peer is emptied, and what goes to the socket is exactly the
    queued packets, each sealed under the session, in the order they were
    queued and with consecutive counters; each goes to the peer's address or,
    wrapped, to the beacon. *)
Theorem queued_packets_leave_in_order t now id q p c a :
  pending (pend t) !! id = Some q →
  Get (store t) id = Some p → heap (store t) !! p = Some c → Ready c = true →
  peerAddr t id = Some a → hasSock (routing t) = true →
  let t' := flushPending t now id in
  pending (pend t') !! id = None ∧
  ∃ ds, outbox (io t') = outbox (io t) ++ ds ∧
        Forall2 (sentTo (routing t) id a) (sealed_run (LocalNodeID (store t)) c q) ds.
Proof.
  intros Hq Hg Hc Hr Ha Hs. unfold flushPending. rewrite Hq. cbn [default].
  set (t1 := set_queues t _ _).
  assert (pending (pend t1) !! id = None) as Hd by (simpl; apply lookup_delete_eq).
  destruct q as [|pt q]; [split; [done|]; exists []; rewrite app_nil_r; by split; [|constructor]|].
  change (store t1) with (store t). change (peerAddr t1 id) with (peerAddr t id). rewrite Hg, Ha.
  unfold IsReady. rewrite Hg. simpl deref. rewrite Hc, Hr. cbn match.
  unfold Datatypes.id. split; [by rewrite flush_frames_pend|].
  by apply (flush_frames_order t1 now id a p c (pt :: q)).
Qed.

(** ** From one tunnel to another *)

Lemma handleEncrypted_genuine t now local cs counter pt p cr pkt from :
  is_u32 local → is_u64 counter → paired cs cr →
  Get (store t) local = Some p → heap (store t) !! p = Some cr → WouldAcceptNonce cr counter = true →
  Unmarshal pt = Some pkt → Node (Src pkt) = local → isTunnelKeepalive pkt = false →
  recvCh (io (handleEncrypted t now (frame_body local cs counter pt) from)) = recvCh (io t) ++ [(pkt, from)].
Proof.
  intros Hl Hn Hp Hg Hh Hw Hu Hs Hk. unfold handleEncrypted.
  rewrite (DecryptFrame_genuine (store t) p cs cr local counter pt) by done. rewrite Hw.
  cbn [resErr resPeerNodeID resPlaintext default]. unfold Datatypes.id. rewrite Hu, Hs, Z.eqb_refl, Hk. cbn [negb andb].
  set (t0 := set_store t _).
  pose proof (ct_recv _ _ _ (learnPath_quiet t0 now local from)) as E. rewrite app_nil_r in E.
  case_match; cbn [deliver io set_io recvCh]; cbn [noteAppActivity set_activity countRecv set_io io recvCh]; by rewrite E.
Qed.

(** A packet for a peer with a session leaves as one sealed frame. *)
Lemma SendTo_seals t now a id pkt data p c :
  encrypt (tcfg t) = true → hasSock (routing t) = true →
  Get (store t) id = Some p → heap (store t) !! p = Some c → Ready c = true → Marshal pkt = Some data →
  ∃ d, outbox (io (snd (SendTo t now (Some a) id pkt))) = outbox (io t) ++ [d] ∧
    sentTo (routing t) id a (TunnelMagicSecure ++ frame_body (LocalNodeID (store t)) c (u64 (Nonce c + 1)) data) d.
Proof.
  intros He Hs Hg Hh Hr Hm. unfold SendTo. set (t1 := if negb (isPing pkt) then _ else _). rewrite Hm.
  assert (tcfg t1 = tcfg t ∧ kx t1 = kx t ∧ routing t1 = routing t ∧ io t1 = io t)
    as (E1 & E2 & E3 & E4) by (unfold t1; by case_match).
  clearbody t1. unfold store in *. rewrite E1, E2, He, Hg. unfold IsReady. rewrite Hg. simpl deref.
  rewrite Hh, Hr. set (s1 := RecordSalvage _ _ _ _).
  set (c1 := with_salvage c (salvage_push now data (Salvage c))).
  assert (heap s1 !! p = Some c1 ∧ LocalNodeID s1 = LocalNodeID (env (kx t))) as [Hh1 Hl1].
  { unfold s1, RecordSalvage. rewrite Hh. simpl. by rewrite lookup_insert_eq. }
  destruct (EncryptWith_next s1 p c1 data Hh1) as (Hf & _ & _). unfold encryptFrame.
  change (store (set_store t1 s1)) with s1.
  destruct (EncryptWith s1 p data) as [f s2]. cbn [fst] in Hf. rewrite Hl1 in Hf.
  destruct (writeFrame_sends (set_store (set_store t1 s1) s2) now id a f) as (_ & d & Hd & Hca).
  { simpl. by rewrite E3. }
  destruct (writeFrame _ _ _ _ _) as [err t3]. cbn [snd] in *. exists d. rewrite Hd. simpl.
  rewrite E4. split; [done|]. rewrite Hf in Hca. cbn [routing set_store set_kx] in Hca. by rewrite E3 in Hca.
Qed.

(** The read loop hands an encrypted frame to [handleEncrypted]. *)
Lemma readLoop_secure t now body remote :
  readLoopOneIter t now (TunnelMagicSecure ++ body) remote = handleEncrypted (stampRecv t now) now body remote.
Proof.
  pose proof (proj1 magic_len) as Hml. destruct magic_not_beacon as (b & l & Hb & Hge).
  pose proof magics_distinct as Hnd.
  assert (take 4 (TunnelMagicSecure ++ body) = TunnelMagicSecure) as Ht
    by (rewrite <- Hml; apply take_app_length).
  assert (drop 4 (TunnelMagicSecure ++ body) = body) as Hdr by (rewrite <- Hml; apply drop_app_length).
  assert (TunnelMagicSecure ≠ TunnelMagicAuthEx ∧ TunnelMagicSecure ≠ TunnelMagicKeyEx) as [Hn1 Hn2].
  { split; intros E; rewrite E, !NoDup_cons in Hnd; set_solver. }
  assert (length (TunnelMagicSecure ++ body) = (4 + length body)%nat) as Hlen
    by (rewrite length_app, Hml; done).
  unfold readLoopOneIter. destruct (TunnelMagicSecure ++ body) as [|b' l'] eqn:Eb; [by rewrite Hb in Eb|].
  assert (b' = b) as -> by (rewrite Hb in Eb; simpl in Eb; congruence).
  rewrite (proj2 (Z.ltb_ge b 16)) by done. rewrite Hlen. cbn [Nat.add Nat.ltb Nat.leb].
  by rewrite Ht, Hdr, !bool_decide_eq_false_2, bool_decide_eq_true_2 by done.
Qed.

(** ... and one that the beacon passes on, when there is room for its sender. *)
Lemma admitRelayed_room t src :
  IsRelayPeer (routing t) src = true ∨ RelayPeerCount (routing t) < MaxRelayPeers →
  fst (admitRelayed t src) = true.
Proof.
  intros H. unfold admitRelayed. case_match; [done|]. unfold MarkRelayActivatedIfHadCrypto.
  destruct (Has (store t) src); [|done].
  destruct (negb (flag (relayPeers (routing t)) src) && (MaxRelayPeers <=? RelayPeerCount (routing t))) eqn:E; [|done].
  apply andb_true_iff in E as [E1%negb_true_iff E2%Z.leb_le]. destruct H as [H|H]; [|lia].
  unfold IsRelayPeer in H. congruence.
Qed.

Lemma readLoop_relayed t now src body remote :
  is_u32 src → IsRelayPeer (routing t) src = true ∨ RelayPeerCount (routing t) < MaxRelayPeers →
  fromBeacon t remote = true →
  ∃ t1, kx t1 = kx t ∧ recvCh (io t1) = recvCh (io t) ∧
    readLoopOneIter t now ([BeaconMsgRelayDeliver] ++ PutUint32 src ++ TunnelMagicSecure ++ body) remote =
    handleEncrypted t1 now body (Some (default zeroAddr (beaconAddr (routing t)))).
Proof.
  intros Hu Hroom Hb. pose proof (proj1 magic_len) as Hml. pose proof magics_distinct as Hnd.
  assert (TunnelMagicSecure ≠ TunnelMagicAuthEx ∧ TunnelMagicSecure ≠ TunnelMagicKeyEx) as [Hn1 Hn2].
  { split; intros E; rewrite E, !NoDup_cons in Hnd; set_solver. }
  pose proof beacon_codes_distinct as Hcd. rewrite !NoDup_cons in Hcd.
  cbn [readLoopOneIter app]. rewrite (proj2 (Z.ltb_lt BeaconMsgRelayDeliver 16)) by apply beacon_code.
  unfold handleBeaconMessage. change (routing (stampRecv t now)) with (routing t).
  fold (fromBeacon t remote). rewrite Hb.
  rewrite (proj2 (Z.eqb_neq BeaconMsgRelayDeliver BeaconMsgDiscoverReply)) by (intros E; rewrite E in Hcd; set_solver).
  rewrite (proj2 (Z.eqb_neq BeaconMsgRelayDeliver BeaconMsgPunchCommand)) by (intros E; rewrite E in Hcd; set_solver).
  rewrite Z.eqb_refl. unfold handleRelayDeliver. set (data := PutUint32 src ++ TunnelMagicSecure ++ body).
  assert (length (PutUint32 src) = 4%nat) as Hl4 by done.
  assert (slice 0 4 data = PutUint32 src) as Hs by (by apply (take_app_length' (PutUint32 src))).
  assert (drop 4 data = TunnelMagicSecure ++ body) as Hd by (by apply (drop_app_length' (PutUint32 src))).
  rewrite Hs, Hd. pose proof (Uint32_Put src [] Hu) as Eu. rewrite app_nil_r in Eu. rewrite Eu.
  assert (length data = (8 + length body)%nat) as Hlen by (unfold data; rewrite !length_app, Hml, Hl4; lia).
  rewrite Hlen. cbn [Nat.add Nat.ltb Nat.leb].
  pose proof (admitRelayed_room (stampRecv t now) src Hroom) as Ha.
  destruct (admitRelayed_quiet (stampRecv t now) src) as (Hq & Hk & Hbe).
  destruct (admitRelayed (stampRecv t now) src) as [ok t1]. cbn [fst snd] in *. subst ok. cbn [negb].
  exists t1. split; [done|]. split; [rewrite (ct_recv _ _ _ Hq); by rewrite app_nil_r|].
  rewrite length_app, Hml. cbn [Nat.add Nat.ltb Nat.leb]. rewrite Hbe.
  assert (take 4 (TunnelMagicSecure ++ body) = TunnelMagicSecure) as Ht by (rewrite <-Hml; apply take_app_length).
  assert (drop 4 (TunnelMagicSecure ++ body) = body) as Hdr by (rewrite <-Hml; apply drop_app_length).
  by rewrite Ht, Hdr, !bool_decide_eq_false_2, bool_decide_eq_true_2 by done.
Qed.

(** C10. Nothing leaves in the clear, and the queues stay small.  Start a tunnel
    with encryption and run any sequence of operations.  Every datagram given to
    the socket is one of: a hole punch; a discovery or punch request to the beacon,
    which carries node numbers only; one of the tunnel's own key-exchange frames; or
    a frame sealed, in this node's name, under the key of a session object of its
    own key store.  The last two leave as they are or inside a relay message, which
    goes to the beacon's address and nowhere else.  At most 256 peers have packets
    waiting for a key, and none has more than 64.  From the state so reached, a
    packet for a peer with a ready session, and a queue flushed to it, leave sealed
    under that very peer's session, for that peer. *)
Theorem tunnel_never_sends_plaintext c m r ops :
  encrypt c = true →
  let t := t_run (NewTunnelManager c m r) ops in
  Forall (safe_dgram r (kx t)) (outbox (io t)) ∧ pend_ok (pend t) ∧
  ∀ id p x a, hasSock (routing t) = true →
    Get (store t) id = Some p → heap (store t) !! p = Some x → Ready x = true →
    (∀ now pkt data, Marshal pkt = Some data →
       ∃ d, outbox (io (snd (SendTo t now (Some a) id pkt))) = outbox (io t) ++ [d] ∧
         sentTo r id a (TunnelMagicSecure ++ frame_body (LocalNodeID (store t)) x (u64 (Nonce x + 1)) data) d) ∧
    (∀ now q, pending (pend t) !! id = Some q → peerAddr t id = Some a →
       ∃ ds, outbox (io (flushPending t now id)) = outbox (io t) ++ ds ∧
         Forall2 (sentTo r id a) (sealed_run (LocalNodeID (store t)) x q) ds).
Proof.
  intros He t. destruct (t_run_contained (NewTunnelManager c m r) ops He) as [l Hc].
  destruct (ct_out _ _ _ Hc) as (d & Ed & Hd). split_and!.
  - unfold t. by rewrite Ed.
  - apply (ct_pend _ _ _ Hc). split; [done|]. apply map_Forall_empty.
  - pose proof (ct_route _ _ _ Hc) as Hr. pose proof (ct_tcfg _ _ _ Hc) as Ht. fold t in Hr, Ht.
    cbn [routing tcfg NewTunnelManager] in Hr, Ht. intros id p x a Hs Hg Hh Hx. split.
    + intros now pkt data Hm. destruct (SendTo_seals t now a id pkt data p x) as (d1 & E1 & H1); try done; [congruence|].
      exists d1. split; [done|]. by apply (sentTo_same r (routing t)).
    + intros now q Hq Ha. destruct (queued_packets_leave_in_order t now id q p x a) as (_ & ds & E1 & H1); try done.
      exists ds. split; [done|]. eapply Forall2_impl; [exact H1|]. intros f y. by apply sentTo_same.
Qed.

(** C11. Delivery across two tunnels.  [tA] runs with encryption, has a socket and a
    ready session for [idB], and sends it a packet of its own, which the codec
    round-trips and which is not a tunnel keepalive (those are swallowed by the
    receiver).  Exactly one datagram leaves: the sealed frame to the peer's address,
    or the frame in a relay message for [idB] to the beacon.  Given that [tB]'s
    session for [tA]'s node has the same key and has not seen the counter, [tB] hands
    up exactly that packet when the frame reaches it from any address; and also when
    the frame reaches it in the delivery message of the beacon it uses, under any
    sender number for which its relay table has an entry or room. *)
Theorem packet_crosses_the_tunnel (tA tB : TunnelManager) nowA nowB idB pkt a pA cA pB cB :
  encrypt (tcfg tA) = true → hasSock (routing tA) = true →
  Get (store tA) idB = Some pA → heap (store tA) !! pA = Some cA → Ready cA = true →
  let local := LocalNodeID (store tA) in
  is_u32 local → packet_ok pkt → Node (Src pkt) = local → isTunnelKeepalive pkt = false →
  Get (store tB) local = Some pB → heap (store tB) !! pB = Some cB → paired cA cB →
  WouldAcceptNonce cB (u64 (Nonce cA + 1)) = true →
  ∃ frame d, outbox (io (snd (SendTo tA nowA (Some a) idB pkt))) = outbox (io tA) ++ [d] ∧
    sentTo (routing tA) idB a frame d ∧
    (∀ remote, recvCh (io (readLoopOneIter tB nowB frame remote)) = recvCh (io tB) ++ [(pkt, remote)]) ∧
    (∀ sender remote, is_u32 sender →
       IsRelayPeer (routing tB) sender = true ∨ RelayPeerCount (routing tB) < MaxRelayPeers →
       fromBeacon tB remote = true →
       recvCh (io (readLoopOneIter tB nowB ([BeaconMsgRelayDeliver] ++ PutUint32 sender ++ frame) remote)) =
       recvCh (io tB) ++ [(pkt, Some (default zeroAddr (beaconAddr (routing tB))))]).
Proof.
  intros He Hs Hg Hh Hr local Hl Hok Hsrc Hk HgB HhB Hp Hw.
  destruct (Unmarshal_Marshal pkt Hok) as (data & Hm & Hu).
  destruct (SendTo_seals tA nowA a idB pkt data pA cA He Hs Hg Hh Hr Hm) as (d & Ho & Hc).
  eexists _, d. split; [exact Ho|]. split; [exact Hc|]. split.
  - intros remote. rewrite readLoop_secure.
    apply (handleEncrypted_genuine (stampRecv tB nowB) nowB local cA (u64 (Nonce cA + 1)) data pB cB pkt remote);
      try done. apply u64_range.
  - intros sender remote Hsu Hroom Hb.
    destruct (readLoop_relayed tB nowB sender (frame_body local cA (u64 (Nonce cA + 1)) data) remote Hsu Hroom Hb)
      as (t1 & E1 & <- & E2).
    etrans; [exact (f_equal (λ t, recvCh (io t)) E2)|].
    apply (handleEncrypted_genuine t1 nowB local cA (u64 (Nonce cA + 1)) data pB cB pkt); try done;
      [apply u64_range|unfold store; by rewrite E1..].
Qed.
End Theorems.

(** ** Two nodes, 1001 and 9, with a session *)
Module Demo.
#[local] Existing Instance documented_protocol.
#[local] Existing Instance toy_cipher.

(** A codec that lists the fields. *)
Definition toMarshal (p : Packet) : bytes :=
  [pkVersion p; pkFlags p; pkProtocol p; Network (Src p); Node (Src p); Network (Dst p); Node (Dst p);
   SrcPort p; DstPort p; Seq p; Ack p; Window p] ++ Payload p.
Definition fromMarshal (b : bytes) : option Packet :=
  match b with
  | v :: f :: pr :: sn :: sd :: dn :: dd :: sp :: dp :: sq :: ak :: wi :: pl =>
      Some (mkPacket v f pr (mkAddr sn sd) (mkAddr dn dd) sp dp sq ak wi pl)
  | _ => None
  end.

#[refine] Definition list_codec : PacketCodec := {|
  TunnelMagic := [80; 73; 76; 84]; ProtoControl := 3; PortPing := 7;
  BeaconMsgPunchCommand := 4; BeaconMsgRelayDeliver := 6; PacketHeaderSize := 12;
  Marshal := λ p, Some (toMarshal p); Unmarshal := fromMarshal; packet_ok := λ _, True;
|}.
Proof.
  - apply (bool_decide_unpack _). vm_compute. exact I.
  - exists 80, [73; 76; 83]. done.
  - reflexivity.
  - apply (bool_decide_unpack _). vm_compute. exact I.
  - intros [? ? ? [] [] ? ? ? ? ? ?] _. eexists. split; [reflexivity|]. reflexivity.
Defined.
#[local] Existing Instance list_codec.

#[local] Instance one_key : Primitives Z := {|
  Priv := unit; Identity := unit; IdPublicKey := λ _, []; Sign := λ _ _, [];
  Verify := λ _ _ _, true; ECDH := λ _ pk, Some pk; HMAC := λ _ m, m; NewGCM := λ _, Some 77 |}.

Definition addrA : UDPAddr := mkUDPAddr [10; 0; 0; 1] 4000.
Definition addrB : UDPAddr := mkUDPAddr [10; 0; 0; 2] 4000.
Definition kcfg (node : Z) : Config :=
  mkConfig None (Some tt) (Some (replicate 32 7)) (Some node) false (λ _ _, None) true (λ _, true)
    (λ _, Some [1; 2; 3; 4]) None true true false.
Definition tcfg0 : TunnelConfig := mkTunnelConfig true None (λ _, Sent 1) false.
Definition route0 : RManager := mkRManager true None ∅ ∅ ∅ ∅ ∅ ∅ ∅ ∅ 0 false.
Definition fresh0 (node : Z) : TunnelManager :=
  NewTunnelManager tcfg0 (New (SetLocalNodeID NewStore node) (kcfg node)) route0.
(** With a session, and the peer's address. *)
Definition node (local peer : Z) (a : UDPAddr) : TunnelManager :=
  set_peers (set_store (fresh0 local) (toy_store local peer)) {[peer := Some a]}.
Definition nodeA : TunnelManager := node 1001 9 addrB.
Definition nodeB : TunnelManager := node 9 1001 addrA.
Definition hello : Packet := mkPacket 1 0 1 (mkAddr 0 1001) (mkAddr 0 9) 49152 80 0 0 512 [104; 105].
Definition helloFrame : bytes := TunnelMagicSecure ++ frame_body 1001 toy_session 1 (toMarshal hello).

(** Node 9, behind a beacon. *)
Definition beacon0 : UDPAddr := mkUDPAddr [34; 1; 2; 3] 9001.
Definition nodeR : TunnelManager := set_routing nodeB (mkRManager true (Some beacon0) ∅ ∅ ∅ ∅ ∅ ∅ ∅ ∅ 9 false).
Lemma packet_crosses_the_tunnel_witness :
  ∃ frame d, outbox (io (snd (SendTo nodeA 100 (Some addrB) 9 hello))) = [d] ∧ sentTo (routing nodeA) 9 addrB frame d ∧
    recvCh (io (readLoopOneIter nodeR 200 frame (Some addrA))) = [(hello, Some addrA)] ∧
    recvCh (io (readLoopOneIter nodeR 200 ([BeaconMsgRelayDeliver] ++ PutUint32 1001 ++ frame) (Some beacon0))) =
      [(hello, Some beacon0)].
Proof.
  destruct (packet_crosses_the_tunnel nodeA nodeR 100 200 9 hello addrB 0 toy_session 0 toy_session
    eq_refl eq_refl eq_refl eq_refl eq_refl ltac:(split; vm_compute; congruence) I eq_refl eq_refl
    eq_refl eq_refl ltac:(split_and!; reflexivity) eq_refl) as (frame & d & H1 & H2 & H3 & H4).
  exists frame, d. split; [exact H1|]. split; [exact H2|]. split; [exact (H3 (Some addrA))|].
  apply (H4 1001 (Some beacon0)); [split; vm_compute; congruence|right; reflexivity|reflexivity].
Defined.

Lemma delivered_packets_are_authentic_witness :
  ∃ body src pkt, recvCh (io (readLoopOneIter nodeB 200 helloFrame (Some addrA))) = [(pkt, src)] ∧
    opens nodeB body pkt ∧ Node (Src pkt) = Uint32 (slice 0 4 body).
Proof.
  destruct (delivered_packets_are_authentic nodeB 200 helloFrame (Some addrA) eq_refl)
    as [H|(body & src & pkt & H & _ & Ho & Hn & _)].
  - vm_compute in H. discriminate H.
  - exists body, src, pkt. split; [exact H|]. split; [exact Ho|exact Hn].
Defined.

(** A stranger's bytes under node 1001's name, from elsewhere. *)
Definition forged : bytes := TunnelMagicSecure ++ PutUint32 1001 ++ replicate 28 0.
Lemma known_address_moves_only_with_proof_witness :
  peers (readLoopOneIter nodeB 200 forged (Some (mkUDPAddr [6; 6; 6; 6] 66))) !! 1001 = Some (Some addrA) ∧
  (peers (readLoopOneIter nodeB 200 helloFrame (Some addrB)) !! 1001 = Some (Some addrA) ∨
   ∃ magic body, frame_in helloFrame magic body ∧ speaks_for nodeB 200 magic body 1001).
Proof.
  split; [vm_compute; reflexivity|].
  apply (known_address_moves_only_with_proof nodeB 200 helloFrame (Some addrB) 1001 (Some addrA)).
  reflexivity.
Defined.

(** Node 1001 without a session queues two packets for node 9. *)
Definition waiting : TunnelManager :=
  t_run (fresh0 1001) [(10, TAddPeer 9 (Some addrB)); (20, TSend 9 hello); (30, TSend 9 hello)].
Lemma tunnel_never_sends_plaintext_witness :
  (length (outbox (io waiting)) = 1)%nat ∧ Forall (safe_dgram route0 (kx waiting)) (outbox (io waiting)).
Proof.
  split; [vm_compute; reflexivity|].
  exact (proj1 (tunnel_never_sends_plaintext tcfg0 (kx (fresh0 1001)) route0
    [(10, TAddPeer 9 (Some addrB)); (20, TSend 9 hello); (30, TSend 9 hello)] eq_refl)).
Defined.

Definition keyed : TunnelManager := set_store waiting (toy_store 1001 9).
Lemma queued_packets_leave_in_order_witness :
  (length (default [] (pending (pend keyed) !! 9%Z)) = 2)%nat ∧
  ∃ ds, outbox (io (flushPending keyed 40 9)) = outbox (io keyed) ++ ds ∧
        Forall2 (sentTo route0 9 addrB) (sealed_run 1001 toy_session [toMarshal hello; toMarshal hello]) ds.
Proof.
  split; [vm_compute; reflexivity|].
  exact (proj2 (queued_packets_leave_in_order keyed 40 9 [toMarshal hello; toMarshal hello] 0 toy_session addrB
    eq_refl eq_refl eq_refl eq_refl eq_refl eq_refl)).
Defined.
End Demo.
