(* ===== verification/Registry.v ===== *)
(** * Registry upkeep (pkg/daemon/daemon.go, rxwatchdog.go)

    How the daemon keeps itself registered: dialling the registry, registering
    its endpoint, restoring what the registry lost, the recovery routine shared by
    the watchers ([reestablishTransport]) and the periodic heartbeat.

    The registry client is a separate module.  A request is a [RegCall]; the
    n-th request is answered by [callAns n], the n-th dial by [dialAns n] and the
    n-th look at the stop channel by [stopAt n], all fields of [RegEnv].  [Host]
    is the part of the daemon these functions use: its tunnels, the registry
    connection (pools are numbered by the dial that made them), the outcome of
    the last re-registration, its identity at the registry and the log of
    requests.  An operation takes the time it starts at, [now], and where it
    stamps its end, [fin].  [tp] is the answer of the handshake service's
    TrustedPeers, [None] without such a service.  Events and log lines are not
    represented. *)
From stdpp Require Import strings.
From S2P Require Import Prelude GoText Crypto KeyStore Protocol Envelope KeyExchange Routing Tunnel.
Open Scope Z_scope.

Definition HeartbeatReregThresh : Z := 3.
Definition reestablishCoalesce : duration := 5 * Second.
Definition endpointOnlyRegistryFresh : duration := 300 * Second.
Definition maxRegistryDialAttempts : nat := 10.
Definition registryDialBackoff0 : duration := 500 * Millisecond.
Definition reregBackoff0 : duration := 100 * Millisecond.

Record RegisterOpts := mkRegisterOpts {
  optListenAddr : bytes; optPublicKey : bytes; optOwner : bytes;
  optLANAddrs : list bytes; optVersion : bytes; optRelayOnly : bool;
}.

Inductive RegCall :=
| CRegister (o : RegisterOpts)
| CSetVisibility (id : Z) (public : bool)
| CSetHostname (id : Z) (host : bytes)
| CReportTrust (id peer : Z)
| CHeartbeat (id : Z).

(** The fields the daemon reads of a reply, [None] when missing or of another
    type. *)
Record RegReply := mkRegReply { node_id : option Z; address : option bytes; hostname : option bytes }.
Inductive RegAnswer := AnsOK (r : RegReply) | AnsErr (msg : bytes) | AnsTimeout.

Inductive RegErr :=
| ErrDaemonStopping | ErrNoRegistryConn | ErrMissingNodeID | ErrMissingAddress | ErrInvalidAddress
| ErrRegister (a : RegAnswer)
| ErrFingerprintRequired | ErrInvalidTrust | ErrRegistryDial.

Record RegEnv := mkRegEnv {
  stopAt : nat → bool;
  dialAns : nat → bool;
  callAns : nat → RegCall → RegAnswer;
  ParseAddr : bytes → option Addr;       (* protocol.ParseAddr *)
  localAddr : option bytes;              (* tunnels.LocalAddr().String() *)
}.

(** The fields of the daemon's Config used here; [BeaconAddr] and the others are
    empty when not set. *)
Record RegConfig := mkRegConfig {
  ListenAddr : bytes; Endpoint : bytes; AdvertiseEndpoint : bytes;
  Owner : bytes; rcVersion : bytes; rcPublic : bool; rcHostname : bytes; rcRelayOnly : bool;
  BeaconAddr : bytes; RegistryTLS : bool; RegistryTrust : bytes; RegistryFingerprint : bytes;
}.

(** [regConn]; [dials] counts the dials made, [waits] are the pauses taken between
    them, [closed] the pools closed. *)
Record Conns := mkConns {
  regConn : option nat; dials : nat; closed : list nat; waits : list duration;
}.
(** reestablishMu *)
Record Reestablish := mkReestablish { reestablishOKWall : Z; reestablishOKFull : bool }.
(** addrMu, identityMu, lastRegistryOKNano *)
Record Ident := mkIdent {
  nodeID : Z; nodeAddr : Addr; pubKeyB64 : bytes; lanAddrs : list bytes; lastRegistryOKNano : Z;
}.

(** [net.SplitHostPort] and the wildcard hosts. *)
Definition resolveLocalAddr (addr : bytes) : bytes :=
  match SplitHostPort addr with
  | None => addr
  | Some (host, port) =>
      if bool_decide (host = []) || bool_decide (host = str "0.0.0.0") then str "127.0.0.1:" ++ port
      else if bool_decide (host = str "::") then str "[::1]:" ++ port
      else addr
  end.

Definition isRegistryRejectingUsErr (a : RegAnswer) : bool :=
  match a with
  | AnsErr msg => Contains msg (str "node not found") || Contains msg (str "signature verification failed")
  | _ => false
  end.

Section Registry.
Context {P : Protocol} {W : PacketCodec} {K : Type} {C : Cipher K} {X : Primitives K}.
Context (env : RegEnv) (cfg : RegConfig).

Record Host := mkHost {
  tun : TunnelManager (K := K);
  conns : Conns;
  reest : Reestablish;
  ident : Ident;
  stopReads : nat;
  calls : list RegCall;
}.
Implicit Types n : Host.

Definition set_tun n x : Host := mkHost x (conns n) (reest n) (ident n) (stopReads n) (calls n).
Definition set_conns n x : Host := mkHost (tun n) x (reest n) (ident n) (stopReads n) (calls n).
Definition set_reest n x : Host := mkHost (tun n) (conns n) x (ident n) (stopReads n) (calls n).
Definition set_ident n x : Host := mkHost (tun n) (conns n) (reest n) x (stopReads n) (calls n).

Definition reg n : option nat := regConn (conns n).

Definition stopping n : bool * Host :=
  (stopAt env (stopReads n),
   mkHost (tun n) (conns n) (reest n) (ident n) (S (stopReads n)) (calls n)).

(** [true] when the whole wait passed. *)
Definition sleepOrStop n (wait : duration) : bool * Host :=
  let c := conns n in
  let n := set_conns n (mkConns (regConn c) (dials c) (closed c) (waits c ++ [wait])) in
  let '(s, n) := stopping n in (negb s, n).

(** One request over the registry connection. *)
Definition call n (c : RegCall) : RegAnswer * Host :=
  (callAns env (length (calls n)) c,
   mkHost (tun n) (conns n) (reest n) (ident n) (stopReads n) (calls n ++ [c])).

Definition answered (a : RegAnswer) : bool := match a with AnsOK _ => true | _ => false end.

(** ** Dialling *)

(** The TLS settings of a dial, checked in every round. *)
Definition dialConfigErr : option RegErr :=
  if RegistryTLS cfg then
    let trust := if bool_decide (RegistryTrust cfg = []) then str "pinned" else RegistryTrust cfg in
    if bool_decide (trust = str "pinned") then
      if bool_decide (RegistryFingerprint cfg = []) then Some ErrFingerprintRequired else None
    else if bool_decide (trust = str "system") then None
    else Some ErrInvalidTrust
  else None.

(** [rounds] rounds remain; the source counts up to [maxRegistryDialAttempts]. *)
Fixpoint dialRounds (rounds : nat) n (backoff : duration) : (RegErr + nat) * Host :=
  match rounds with
  | O => (inl ErrRegistryDial, n)
  | S rounds =>
      let '(s, n) := stopping n in
      if s then (inl ErrDaemonStopping, n)
      else
        match dialConfigErr with
        | Some e => (inl e, n)
        | None =>
            let c := conns n in
            let id := dials c in
            let n := set_conns n (mkConns (regConn c) (S id) (closed c) (waits c)) in
            if dialAns env id then (inr id, n)
            else match rounds with
                 | O => (inl ErrRegistryDial, n)
                 | _ =>
                     let '(ok, n) := sleepOrStop n backoff in
                     if ok then dialRounds rounds n (if backoff <? 5 * Second then backoff * 2 else backoff)
                     else (inl ErrDaemonStopping, n)
                 end
        end
  end.
Definition dialRegistryClient n : (RegErr + nat) * Host :=
  dialRounds maxRegistryDialAttempts n registryDialBackoff0.

Definition closeConn n (id : nat) : Host :=
  let c := conns n in set_conns n (mkConns (regConn c) (dials c) (closed c ++ [id]) (waits c)).
Definition swapConn n (id : nat) : option nat * Host :=
  let c := conns n in (regConn c, set_conns n (mkConns (Some id) (dials c) (closed c) (waits c))).

Definition forceReconnectRegistry n : option RegErr * Host :=
  let '(s, n) := stopping n in
  if s then (Some ErrDaemonStopping, n)
  else
    let '(r, n) := dialRegistryClient n in
    match r with
    | inl e => (Some e, n)
    | inr newConn =>
        let '(old, n) := swapConn n newConn in
        let n := match old with Some o => closeConn n o | None => n end in
        let '(s, n) := stopping n in
        if s then (Some ErrDaemonStopping, closeConn n newConn) else (None, n)
    end.

(** ** Registering *)

Definition registrationAddr : bytes :=
  let a := if bool_decide (Endpoint cfg = []) then
             match localAddr env with
             | Some l => resolveLocalAddr l
             | None => resolveLocalAddr (ListenAddr cfg)
             end
           else Endpoint cfg in
  if bool_decide (AdvertiseEndpoint cfg = []) then a else AdvertiseEndpoint cfg.

Definition registerOpts n : RegisterOpts :=
  mkRegisterOpts registrationAddr (pubKeyB64 (ident n)) (Owner cfg) (lanAddrs (ident n))
    (rcVersion cfg) (rcRelayOnly cfg).

(** [tunnels.SetNodeID] *)
Definition SetNodeID (t : TunnelManager (K := K)) (id : Z) : TunnelManager :=
  set_store t (SetLocalNodeID (store t) id).

Definition registerEndpoint n (fin : gotime) : (RegErr + Z * RegReply) * Host :=
  let '(s, n) := stopping n in
  if s then (inl ErrDaemonStopping, n)
  else match reg n with
  | None => (inl ErrNoRegistryConn, n)
  | Some _ =>
      let '(a, n) := call n (CRegister (registerOpts n)) in
      match a with
      | AnsOK resp =>
          match node_id resp with
          | None => (inl ErrMissingNodeID, n)
          | Some v =>
              match address resp with
              | None => (inl ErrMissingAddress, n)
              | Some addrStr =>
                  match ParseAddr env addrStr with
                  | None => (inl ErrInvalidAddress, n)
                  | Some newAddr =>
                      let newNodeID := u32 v in
                      let i := ident n in
                      let n :=
                        if newNodeID =? nodeID i then n
                        else set_tun (set_ident n (mkIdent newNodeID newAddr (pubKeyB64 i) (lanAddrs i)
                                                     (lastRegistryOKNano i)))
                               (SetNodeID (tun n) newNodeID) in
                      let i := ident n in
                      let n := set_ident n (mkIdent (nodeID i) (nodeAddr i) (pubKeyB64 i) (lanAddrs i)
                                              (UnixNano fin)) in
                      (inr (nodeID i, resp), n)
                  end
              end
          end
      | _ => (inl (ErrRegister a), n)
      end
  end.

(** The loop over the trusted peers: how many writes failed, or [None] when the
    daemon stops in between. *)
Fixpoint reportTrusts n (id : Z) (peers : list Z) (failed : nat) : option nat * Host :=
  match peers with
  | [] => (Some failed, n)
  | p :: peers =>
      let '(s, n) := stopping n in
      if s then (None, n)
      else
        let '(a, n) := call n (CReportTrust id p) in
        reportTrusts n id peers (if answered a then failed else S failed)
  end.

Definition registerBeacon n (now : gotime) : Host := set_tun n (tmRegisterWithBeacon (tun n) now).

(** An optional write of the restore: [true] when skipped or accepted. *)
Definition writeIf (b : bool) n (c : RegCall) : bool * Host :=
  if b then let '(a, n) := call n c in (answered a, n) else (true, n).

Definition restoreRegistryState n (now : gotime) (tp : option (list Z)) (id : Z) (trust : bool)
  : bool * Host :=
  let '(s, n) := stopping n in
  if s then (false, n)
  else
    let '(c1, n) := writeIf (rcPublic cfg) n (CSetVisibility id true) in
    let '(c2, n) := writeIf (negb (bool_decide (rcHostname cfg = []))) n (CSetHostname id (rcHostname cfg)) in
    let complete := c1 && c2 in
    let '(s, n) := stopping n in
    if s then (false, n)
    else if negb trust then (complete, n)
    else
      let '(f, n) := match tp with Some peers => reportTrusts n id peers 0 | None => (Some O, n) end in
      match f with
      | None => (false, n)
      | Some failed =>
          (complete && Nat.eqb failed 0,
           if bool_decide (BeaconAddr cfg = []) then n else registerBeacon n now)
      end.

Definition reRegisterFull n (fin : gotime) (tp : option (list Z)) : (RegErr + bool) * Host :=
  let '(r, n) := registerEndpoint n fin in
  match r with
  | inl e => (inl e, n)
  | inr (id, _) => let '(full, n) := restoreRegistryState n fin tp id true in (inr full, n)
  end.

Definition reRegister n (fin : gotime) (tp : option (list Z)) : option RegErr * Host :=
  let '(r, n) := reRegisterFull n fin tp in
  (match r with inl e => Some e | inr _ => None end, n).

(** Whether the registry answered within [endpointOnlyRegistryFresh]. *)
Definition registryFresh n (now : gotime) : bool :=
  let ok := lastRegistryOKNano (ident n) in
  negb ((ok =? 0) || (endpointOnlyRegistryFresh <? time_sub now (timeUnix ok))).

Definition reRegisterEndpoint n (now fin : gotime) (tp : option (list Z)) : option RegErr * Host :=
  if negb (registryFresh n now) then reRegister n fin tp
  else
    let before := nodeID (ident n) in
    let '(r, n) := registerEndpoint n fin in
    match r with
    | inl e => (Some e, n)
    | inr (id, resp) =>
        if negb (id =? before) then (None, snd (restoreRegistryState n fin tp id true))
        else if negb (bool_decide (rcHostname cfg = [])) &&
                negb (bool_decide (default [] (hostname resp) = rcHostname cfg))
        then (None, snd (restoreRegistryState n fin tp id false))
        else (None, n)
    end.

(** ** Recovery *)

Record reestablishOpts := mkReestablishOpts { freshConn : bool; endpointOnly : bool; always : bool }.

Definition reestablishedRecently n (now : gotime) (full : bool) : bool :=
  let r := reest n in
  if (reestablishOKWall r =? 0) || (full && negb (reestablishOKFull r)) then false
  else
    let age := i64 (UnixNano now - reestablishOKWall r) in
    (0 <=? age) && (age <? reestablishCoalesce).

Definition noteReestablished n (fin : gotime) (full : bool) : Host :=
  set_reest n (mkReestablish (UnixNano fin) full).

Definition reestablishTransport n (now fin : gotime) (tp : option (list Z)) (o : reestablishOpts)
  : bool * Host :=
  let n := registerBeacon n now in
  if reestablishedRecently n now (negb (endpointOnly o)) && negb (always o) then (true, n)
  else match reg n with
  | None => (false, n)
  | Some _ =>
      let '(e, n) := if freshConn o then forceReconnectRegistry n else (None, n) in
      match e with
      | Some _ => (false, n)
      | None =>
          let '(r, n) :=
            if endpointOnly o then
              let '(e, n) := reRegisterEndpoint n now fin tp in
              (match e with Some e => inl e | None => inr false end, n)
            else reRegisterFull n fin tp in
          match r with
          | inl _ => (false, n)
          | inr full => (true, noteReestablished n fin full)
          end
      end
  end.

(** ** Heartbeat *)

Definition reconnectRegistrySerialised n (stale : option nat) (callStart : gotime)
  : (RegErr + bool) * Host :=
  if negb (bool_decide (reg n = stale)) then (inr (reestablishOKWall (reest n) <? UnixNano callStart), n)
  else
    let '(e, n) := forceReconnectRegistry n in
    (match e with Some e => inl e | None => inr true end, n).

Definition reRegisterSerialised n (now fin : gotime) (tp : option (list Z)) : option RegErr * Host :=
  if reestablishedRecently n now true then (None, n)
  else
    let '(r, n) := reRegisterFull n fin tp in
    match r with
    | inl e => (Some e, n)
    | inr full => (None, noteReestablished n fin full)
    end.

(** The locals of trustRepublishLoop. *)
Record Heartbeat := mkHeartbeat { consecutiveFailures : Z; reregBackoff : duration }.
Definition newHeartbeat : Heartbeat := mkHeartbeat 0 reregBackoff0.

(** One tick up to the request: the connection it goes over and the answer.
    [None]: no registry. *)
Definition heartbeatCall n : option (nat * RegAnswer) * Host :=
  match reg n with
  | None => (None, n)
  | Some rc => let '(a, n) := call n (CHeartbeat (nodeID (ident n))) in (Some (rc, a), n)
  end.

(** How many failures a failed heartbeat leaves on record, after the reconnect a
    timeout asks for. *)
Definition heartbeatFailures (h : Heartbeat) n (rc : nat) (a : RegAnswer) (callStart : gotime)
  : Z * Host :=
  let failures := consecutiveFailures h + 1 in
  let '(failures, n) :=
    match a with
    | AnsTimeout =>
        let '(r, n) := reconnectRegistrySerialised n (Some rc) callStart in
        (match r with inr true => HeartbeatReregThresh | _ => failures end, n)
    | _ => (failures, n)
    end in
  (if isRegistryRejectingUsErr a && (failures <? HeartbeatReregThresh) then HeartbeatReregThresh else failures, n).

(** The rest of the tick.  [jitter] is drawn below half the backoff; [None]: the
    daemon stops. *)
Definition heartbeatDone (h : Heartbeat) n (rc : nat) (a : RegAnswer) (callStart now fin : gotime)
    (jitter : Z) (tp : option (list Z)) : option Heartbeat * Host :=
  if answered a then
    let i := ident n in
    (Some (mkHeartbeat 0 reregBackoff0),
     set_ident n (mkIdent (nodeID i) (nodeAddr i) (pubKeyB64 i) (lanAddrs i) (UnixNano now)))
  else
    let '(failures, n) := heartbeatFailures h n rc a callStart in
    if HeartbeatReregThresh <=? failures then
      let '(ok, n) := sleepOrStop n (reregBackoff h + jitter) in
      if negb ok then (None, n)
      else
        let '(_, n) := reRegisterSerialised n now fin tp in
        (Some (mkHeartbeat 0 (Z.min (reregBackoff h * 2) (30 * Second))), n)
    else (Some (mkHeartbeat failures (reregBackoff h)), n).
End Registry.
