(* ===== verification/RegistryProofs.v ===== *)
(** * Theorems about registry upkeep ([Registry])

    What a recovery that reports success has done at the registry, when one may
    be skipped, and that the connection, the heartbeat's counter and its backoff
    stay within their limits. *)
From stdpp Require Import strings.
From S2P Require Import Prelude GoText Crypto KeyStore Protocol Envelope KeyExchange Routing Tunnel.
From S2P Require Import TunnelTheorems Registry.
Open Scope Z_scope.

Section RegistryProofs.
Context {P : Protocol} {W : PacketCodec} {K : Type} {C : Cipher K} {X : Primitives K}.
Context (env : RegEnv) (cfg : RegConfig).
Implicit Types n : Host (K := K) (X := X).

(** ** The request log only grows *)

Definition grows n n' : Prop := ∃ l, calls n' = calls n ++ l.

#[local] Instance grows_preorder : PreOrder grows.
Proof.
  split; [intros n; exists []; by rewrite app_nil_r|].
  intros a b c [l E] [k F]. exists (l ++ k). by rewrite F, E, app_assoc.
Qed.
Lemma grows_same n n' : calls n' = calls n → grows n n'.
Proof. intros E. exists []. by rewrite app_nil_r. Qed.
Lemma grows_call n c : grows n (snd (call env n c)).
Proof. by exists [c]. Qed.
Lemma grows_length n n' : grows n n' → (length (calls n) ≤ length (calls n'))%nat.
Proof. intros [l ->]. rewrite length_app. lia. Qed.

(** Request [c] is in the log at or after position [k], and was accepted. *)
Definition accepted n (k : nat) (c : RegCall) : Prop :=
  ∃ i, (k ≤ i)%nat ∧ calls n !! i = Some c ∧ answered (callAns env i c) = true.

Lemma accepted_grows n n' k c : grows n n' → accepted n k c → accepted n' k c.
Proof. intros [l E] (i & ? & Hi & ?). exists i. rewrite E. split_and!; [done|by apply lookup_app_l_Some|done]. Qed.
Lemma accepted_weaken n k k' c : (k' ≤ k)%nat → accepted n k c → accepted n k' c.
Proof. intros ? (i & ? & ?). exists i. split; [lia|done]. Qed.
Lemma accepted_call n c :
  answered (fst (call env n c)) = true → accepted (snd (call env n c)) (length (calls n)) c.
Proof. intros Ha. exists (length (calls n)). cbn in *. by rewrite list_lookup_middle. Qed.

(** Everything a full restore writes, for the node number [id] and the trusted
    peers [tp], was accepted at or after position [k]. *)
Record restored n (k : nat) (id : Z) (tp : option (list Z)) : Prop := {
  rs_visibility : rcPublic cfg = true → accepted n k (CSetVisibility id true);
  rs_hostname : rcHostname cfg ≠ [] → accepted n k (CSetHostname id (rcHostname cfg));
  rs_trust : ∀ p, p ∈ default [] tp → accepted n k (CReportTrust id p);
}.

Lemma restored_grows n n' k id tp : grows n n' → restored n k id tp → restored n' k id tp.
Proof. intros G [? ? ?]. split; intros; eapply accepted_grows; eauto. Qed.

(** ** What each operation does to the log and the recovery record *)

(** [noted]: the operation leaves [reest] alone and only appends to the log;
    [quietly]: it leaves the identity alone too. *)
Definition noted n n' : Prop := grows n n' ∧ reest n' = reest n.
Definition quietly n n' : Prop := noted n n' ∧ ident n' = ident n.
#[local] Instance noted_preorder : PreOrder noted.
Proof.
  split; [intros n; split; done|]. intros a b c [G1 E1] [G2 E2].
  split; [by etrans|congruence].
Qed.
#[local] Instance quietly_preorder : PreOrder quietly.
Proof.
  split; [intros n; split; done|]. intros a b c [G1 E1] [G2 E2].
  split; [by etrans|congruence].
Qed.
Lemma quietly_call n c : quietly n (snd (call env n c)).
Proof. split; [split; [apply grows_call|done]|done]. Qed.
Lemma quietly_same n n' : calls n' = calls n → reest n' = reest n → ident n' = ident n → quietly n n'.
Proof. intros ? ? ?. split; [split; [by apply grows_same|done]|done]. Qed.
Lemma noted_same n n' : calls n' = calls n → reest n' = reest n → noted n n'.
Proof. intros ? ?. split; [by apply grows_same|done]. Qed.
#[local] Hint Extern 5 (noted _ _) => (apply noted_same; reflexivity) : core.
#[local] Hint Extern 5 (quietly _ _) => (apply quietly_same; reflexivity) : core.

Lemma dialRounds_quiet r n b : quietly n (snd (dialRounds env cfg r n b)).
Proof.
  revert n b. induction r as [|r IH]; intros n b; [done|].
  cbn [dialRounds]. unfold sleepOrStop, stopping. cbv beta iota zeta. cbn [conns stopReads dials].
  destruct (stopAt env (stopReads n)); [auto|]. destruct (dialConfigErr cfg); [auto|].
  destruct (dialAns env _); [auto|]. destruct r as [|r]; [auto|].
  destruct (negb _); [|auto]. etrans; [|apply IH]. auto.
Qed.

Lemma forceReconnect_quiet n : quietly n (snd (forceReconnectRegistry env cfg n)).
Proof.
  unfold forceReconnectRegistry. cbn [stopping]. destruct (stopAt env (stopReads n)); [auto|].
  match goal with |- context [dialRegistryClient env cfg ?m] =>
    pose proof (dialRounds_quiet maxRegistryDialAttempts m registryDialBackoff0 : quietly m (snd (dialRegistryClient env cfg m))) as Q;
    destruct (dialRegistryClient env cfg m) as [[e|c] n1]; cbn in Q; (etrans; [|etrans; [apply Q|]]) end; auto.
  cbn. destruct (regConn (conns n1)); cbn; destruct (stopAt env _); auto.
Qed.

Lemma registerEndpoint_spec n fin r n' :
  registerEndpoint env cfg n fin = (r, n') →
  noted n n' ∧
  match r with
  | inr (id, resp) =>
      accepted n' (length (calls n)) (CRegister (registerOpts env cfg n)) ∧
      nodeID (ident n') = id ∧ calls n' = calls n ++ [CRegister (registerOpts env cfg n)] ∧
      callAns env (length (calls n)) (CRegister (registerOpts env cfg n)) = AnsOK resp
  | inl _ => True
  end.
Proof.
  unfold registerEndpoint. cbn [stopping]. destruct (stopAt env (stopReads n)).
  { intros [= <- <-]. auto. }
  unfold reg. cbn [conns]. destruct (regConn (conns n)); [|intros [= <- <-]; auto].
  cbn [call calls]. destruct (callAns env _ _) as [resp|m|] eqn:Ha; [|intros [= <- <-]; split; [split; [by eexists|done]|done]..].
  destruct (node_id resp) as [v|]; [|intros [= <- <-]; split; [split; [by eexists|done]|done]].
  destruct (address resp) as [a|]; [|intros [= <- <-]; split; [split; [by eexists|done]|done]].
  destruct (ParseAddr env a); [|intros [= <- <-]; split; [split; [by eexists|done]|done]].
  intros [= <- <-]. cbn. destruct (u32 v =? nodeID (ident n)); cbn.
  all: split_and!; try done; try (split; [by eexists|done]).
  all: exists (length (calls n)); cbn; rewrite list_lookup_middle by done; split_and!; try done.
  all: change (registerOpts env cfg {| tun := tun n; conns := conns n; reest := reest n; ident := ident n;
    stopReads := S (stopReads n); calls := calls n |}) with (registerOpts env cfg n) in *; by rewrite Ha.
Qed.

Lemma writeIf_spec b n c r n' :
  writeIf env b n c = (r, n') →
  quietly n n' ∧ (r = true → b = true → accepted n' (length (calls n)) c).
Proof.
  unfold writeIf. destruct b; [|intros [= <- <-]; done]. pose proof (accepted_call n c) as Hacc.
  pose proof (quietly_call n c) as Hq. destruct (call env n c) as [a n1]. intros [= <- <-]. auto.
Qed.

Lemma reportTrusts_spec ps : ∀ n id f r n',
  reportTrusts env n id ps f = (r, n') →
  quietly n n' ∧
  match r with
  | None => True
  | Some f' => (f ≤ f')%nat ∧ (f' = f → ∀ p, p ∈ ps → accepted n' (length (calls n)) (CReportTrust id p))
  end.
Proof.
  induction ps as [|p ps IH]; intros n id f r n'; cbn.
  { intros [= <- <-]. split; [done|]. split; [done|]. intros _ p Hp. by apply not_elem_of_nil in Hp. }
  destruct (stopAt env (stopReads n)); [intros [= <- <-]; auto|]. cbn [calls].
  set (a := callAns env _ _). set (n1 := mkHost _ _ _ _ _ _). intros E.
  assert (quietly n n1) as Q1 by (split; [split; [by eexists|done]|done]).
  apply IH in E as [Q2 H]. split; [by etrans|]. destruct r as [f'|]; [|done].
  destruct H as [Hle Hacc]. split; [destruct (answered a); lia|]. intros ->.
  assert (answered a = true) as Ha by (destruct (answered a); [done|lia]). rewrite Ha in Hacc.
  intros q [->|Hq]%elem_of_cons.
  - eapply accepted_grows; [apply Q2|]. exists (length (calls n)). cbn. by rewrite list_lookup_middle.
  - eapply accepted_weaken; [|by apply Hacc]. apply grows_length, Q1.
Qed.

Lemma restore_spec n now tp id trust r n' :
  restoreRegistryState env cfg n now tp id trust = (r, n') →
  quietly n n' ∧ (r = true → trust = true → restored n' (length (calls n)) id tp).
Proof.
  unfold restoreRegistryState. cbn [stopping].
  destruct (stopAt env (stopReads n)); [intros [= <- <-]; split; [auto|done]|].
  set (n0 := mkHost _ _ _ _ _ _). assert (quietly n n0) as Q0 by auto.
  destruct (writeIf env (rcPublic cfg) n0 (CSetVisibility id true)) as [c1 n1] eqn:E1. apply writeIf_spec in E1 as [Q1 A1].
  match goal with |- context [writeIf env ?b n1 ?c] => destruct (writeIf env b n1 c) as [c2 n2] eqn:E2 end.
  apply writeIf_spec in E2 as [Q2 A2].
  destruct (stopAt env (stopReads n2)).
  { intros [= <- <-]. split; [|done]. etrans; [apply Q0|]. etrans; [apply Q1|]. etrans; [apply Q2|]. auto. }
  set (n3 := mkHost _ _ _ _ _ _). assert (quietly n2 n3) as Q3 by auto.
  assert (quietly n n3) as Q by (etrans; [apply Q0|etrans; [apply Q1|etrans; [apply Q2|apply Q3]]]).
  destruct trust; cbn [negb]; [|intros [= <- <-]; done].
  destruct (match tp with Some ps => reportTrusts env n3 id ps 0 | None => (Some O, n3) end)
    as [f n4] eqn:E4.
  assert (quietly n3 n4 ∧ match f with None => True | Some f' =>
    f' = O → ∀ p, p ∈ default [] tp → accepted n4 (length (calls n3)) (CReportTrust id p) end) as [Q4 A4].
  { destruct tp as [ps|]; [|injection E4 as <- <-; split; [done|]; intros _ p Hp; by apply not_elem_of_nil in Hp].
    apply reportTrusts_spec in E4 as [Q4 H4]. split; [done|]. destruct f; [|done]. intros ->. by apply H4. }
  destruct f as [f|]; [|intros [= <- <-]; split; [by etrans|done]].
  intros [= <- <-]. set (n5 := if bool_decide _ then _ else _). assert (quietly n4 n5) as Q5.
  { unfold n5. destruct (bool_decide (BeaconAddr cfg = [])); apply quietly_same; reflexivity. }
  split; [by etrans; [|etrans]|]. intros [[Hc1 Hc2]%andb_true_iff Hf%Nat.eqb_eq]%andb_true_iff _.
  assert (grows n1 n5) as G1 by (etrans; [apply Q2|etrans; [apply Q3|etrans; [apply Q4|apply Q5]]]).
  assert (length (calls n) ≤ length (calls n1))%nat by (etrans; [apply grows_length, Q0|apply grows_length, Q1]).
  split.
  - intros Hp. eapply accepted_weaken, accepted_grows; [..|by apply A1]; [apply grows_length, Q0|apply G1].
  - intros Hh. eapply accepted_weaken, accepted_grows; [..|apply A2; [done|]].
    + done.
    + etrans; [apply Q3|etrans; [apply Q4|apply Q5]].
    + by rewrite bool_decide_false.
  - intros p Hp. eapply accepted_weaken, accepted_grows; [..|by apply A4]; [|apply Q5].
    etrans; [apply grows_length, Q|done].
Qed.

Lemma reRegisterFull_spec n fin tp r n' :
  reRegisterFull env cfg n fin tp = (r, n') →
  noted n n' ∧
  match r with
  | inl _ => True
  | inr full => accepted n' (length (calls n)) (CRegister (registerOpts env cfg n)) ∧
      (full = true → restored n' (length (calls n)) (nodeID (ident n')) tp)
  end.
Proof.
  unfold reRegisterFull. destruct (registerEndpoint env cfg n fin) as [[e|[id resp]] n1] eqn:E1;
    apply registerEndpoint_spec in E1 as [Q1 H1]; [intros [= <- <-]; done|].
  destruct H1 as (A1 & Hid & _). destruct (restoreRegistryState env cfg n1 fin tp id true) as [full n2] eqn:E2.
  intros [= <- <-].
  apply restore_spec in E2 as [Q2 H2]. split; [etrans; [apply Q1|apply Q2]|]. split.
  - eapply accepted_grows; [apply Q2|done].
  - intros ->. destruct Q2 as [Q2 Hi]. rewrite Hi, Hid. destruct (H2 eq_refl eq_refl) as [? ? ?].
    assert (length (calls n) ≤ length (calls n1))%nat by apply grows_length, Q1.
    split; intros; eapply accepted_weaken; eauto.
Qed.

Lemma reRegisterEndpoint_spec n now fin tp e n' :
  reRegisterEndpoint env cfg n now fin tp = (e, n') →
  noted n n' ∧ (e = None → accepted n' (length (calls n)) (CRegister (registerOpts env cfg n))).
Proof.
  unfold reRegisterEndpoint, reRegister. destruct (negb (registryFresh n now)).
  { destruct (reRegisterFull env cfg n fin tp) as [r n1] eqn:E. apply reRegisterFull_spec in E as [Q H].
    intros [= <- <-]. split; [done|]. destruct r; [done|]. intros _. apply H. }
  destruct (registerEndpoint env cfg n fin) as [[x|[id resp]] n1] eqn:E1;
    apply registerEndpoint_spec in E1 as [Q1 H1]; [intros [= <- <-]; done|].
  destruct H1 as (A1 & _).
  assert (∀ b, quietly n1 (snd (restoreRegistryState env cfg n1 fin tp id b))) as HR.
  { intros b. destruct (restoreRegistryState _ _ _ _ _ _ _) eqn:E. by apply restore_spec in E as [Q _]. }
  destruct (negb (id =? _)); [|destruct (_ && _)]; intros [= <- <-].
  1,2: split; [etrans; [apply Q1|apply HR]|intros _; eapply accepted_grows; [apply HR|done]].
  done.
Qed.

(** A run that began in [n], ended at [fin] in [n'], and left a record of itself:
    in it the registry accepted the registration and, when the record says full,
    every other write for the node number and the trusted peers [tp] as well. *)
Record recorded n n' (fin : gotime) (tp : option (list Z)) : Prop := {
  rec_wall : reestablishOKWall (reest n') = UnixNano fin;
  rec_registered : ∃ m, ident m = ident n ∧ accepted n' (length (calls n)) (CRegister (registerOpts env cfg m));
  rec_full : reestablishOKFull (reest n') = true → restored n' (length (calls n)) (nodeID (ident n')) tp;
}.

Lemma recorded_before n0 n n' fin tp :
  grows n0 n → ident n = ident n0 → recorded n n' fin tp → recorded n0 n' fin tp.
Proof.
  intros G%grows_length Hi [Hw (m & Hm & A) Hf]. split; [done| |].
  - exists m. split; [congruence|]. by eapply accepted_weaken.
  - intros [? ? ?]%Hf. split; intros; eapply accepted_weaken; eauto.
Qed.

Lemma reRegisterFull_recorded n fin tp full n1 :
  reRegisterFull env cfg n fin tp = (inr full, n1) → recorded n (noteReestablished n1 fin full) fin tp.
Proof.
  intros [Q [A H]]%reRegisterFull_spec. split; [done| |].
  - exists n. split; [done|]. apply (accepted_grows n1); [by apply grows_same|done].
  - intros Hf. apply (restored_grows n1); [by apply grows_same|by apply H].
Qed.

(** What a recovery reports and records. *)
Lemma reestablish_spec n now fin tp o r n' :
  reestablishTransport env cfg n now fin tp o = (r, n') →
  grows n n' ∧
  ((reest n' = reest n ∧
    (r = true → calls n' = calls n ∧ always o = false ∧
                reestablishedRecently n now (negb (endpointOnly o)) = true)) ∨
   (r = true ∧ recorded n n' fin tp ∧ (reestablishOKFull (reest n') = true → endpointOnly o = false))).
Proof.
  unfold reestablishTransport. change (reestablishedRecently (registerBeacon n now) now) with (reestablishedRecently n now).
  destruct (reestablishedRecently n now (negb (endpointOnly o)) && negb (always o)) eqn:Er.
  { apply andb_true_iff in Er as [Er ?%negb_true_iff]. intros [= <- <-]. split; [by apply grows_same|]. by left. }
  destruct (reg (registerBeacon n now)) eqn:Ec; [|intros [= <- <-]; split; [by apply grows_same|]; by left].
  destruct (if freshConn o then forceReconnectRegistry env cfg (registerBeacon n now) else (None, registerBeacon n now))
    as [e n1] eqn:E1.
  assert (quietly n n1 ∧ ident n1 = ident n) as [Q1 Hi1].
  { destruct (freshConn o).
    - pose proof (forceReconnect_quiet (registerBeacon n now)) as Q. rewrite E1 in Q. split; [|apply Q].
      etrans; [|apply Q]. auto.
    - injection E1 as <- <-. split; [auto|done]. }
  destruct e; [intros [= <- <-]; split; [apply Q1|]; left; split; [apply Q1|done]|].
  destruct (endpointOnly o).
  - destruct (reRegisterEndpoint env cfg n1 now fin tp) as [e n2] eqn:E2.
    apply reRegisterEndpoint_spec in E2 as [Q2 H2]. destruct e; intros [= <- <-].
    + split; [etrans; [apply Q1|apply Q2]|]. left. split; [|done]. transitivity (reest n1); [apply Q2|apply Q1].
    + split; [etrans; [apply Q1|apply Q2]|]. right. split_and!; try done.
      apply (recorded_before n n1); [apply Q1|done|]. split; [done| |done]. exists n1. split; [done|].
      apply (accepted_grows n2); [by apply grows_same|by apply H2].
  - destruct (reRegisterFull env cfg n1 fin tp) as [r2 n2] eqn:E2. pose proof E2 as E3.
    apply reRegisterFull_spec in E2 as [Q2 H2]. destruct r2 as [x|full]; intros [= <- <-].
    + split; [etrans; [apply Q1|apply Q2]|]. left. split; [|done]. transitivity (reest n1); [apply Q2|apply Q1].
    + split; [etrans; [apply Q1|apply Q2]|]. right. split_and!; try done.
      apply (recorded_before n n1); [apply Q1|done|by apply reRegisterFull_recorded].
Qed.

(** ** Histories *)

(** Recoveries, heartbeats (the request and what follows it are separate steps, so
    that a recovery can run while the heartbeat waits), and anything else the
    daemon does to its tunnels and identity. *)
Inductive upkeep_step n : Host (K := K) (X := X) → Prop :=
| US_recover now fin tp o : upkeep_step n (snd (reestablishTransport env cfg n now fin tp o))
| US_beat_call : upkeep_step n (snd (heartbeatCall env n))
| US_beat_done h rc a callStart now fin jitter tp :
    upkeep_step n (snd (heartbeatDone env cfg h n rc a callStart now fin jitter tp))
| US_tunnels t : upkeep_step n (set_tun n t)
| US_identity i : upkeep_step n (set_ident n i).

(** The steps among them that may register this node, with the time they end and
    the trusted peers they report. *)
Inductive recovery_run n (fin : gotime) (tp : option (list Z)) : Host (K := K) (X := X) → Prop :=
| RR_recover now o : recovery_run n fin tp (snd (reestablishTransport env cfg n now fin tp o))
| RR_beat h rc a callStart now jitter :
    recovery_run n fin tp (snd (heartbeatDone env cfg h n rc a callStart now fin jitter tp)).

(** [n]'s record of the last recovery was left by a run since [n0]. *)
Definition recorded_by n0 n n1 n2 (fin : gotime) (tp : option (list Z)) : Prop :=
  rtc upkeep_step n0 n1 ∧ recovery_run n1 fin tp n2 ∧ recorded n1 n2 fin tp ∧
  rtc upkeep_step n2 n ∧ reest n = reest n2.
Definition record_honest n0 n : Prop :=
  reest n = reest n0 ∨ ∃ n1 n2 fin tp, recorded_by n0 n n1 n2 fin tp.

Lemma reRegisterSerialised_spec n now fin tp e n' :
  reRegisterSerialised env cfg n now fin tp = (e, n') → reest n' = reest n ∨ recorded n n' fin tp.
Proof.
  unfold reRegisterSerialised. destruct (reestablishedRecently n now true); [intros [= <- <-]; by left|].
  destruct (reRegisterFull env cfg n fin tp) as [[x|full] n1] eqn:E1; intros [= <- <-].
  - left. by apply reRegisterFull_spec in E1 as [[_ ?] _].
  - right. by apply reRegisterFull_recorded.
Qed.

Lemma heartbeatFailures_quiet h n rc a t : quietly n (snd (heartbeatFailures env cfg h n rc a t)).
Proof.
  unfold heartbeatFailures. destruct a; [change (quietly n n); reflexivity..|].
  unfold reconnectRegistrySerialised. pose proof (forceReconnect_quiet n) as Q.
  destruct (negb (bool_decide (reg n = Some rc))); [change (quietly n n); reflexivity|].
  destruct (forceReconnectRegistry env cfg n) as [e n1]. apply Q.
Qed.

Lemma heartbeatDone_record h n rc a cs now fin j tp :
  let n' := snd (heartbeatDone env cfg h n rc a cs now fin j tp) in
  reest n' = reest n ∨ recorded n n' fin tp.
Proof.
  unfold heartbeatDone. destruct (answered a); [by left|].
  pose proof (heartbeatFailures_quiet h n rc a cs) as Q.
  destruct (heartbeatFailures env cfg h n rc a cs) as [f n1]. cbn [snd] in Q.
  destruct Q as [[G E] Hi]. destruct (HeartbeatReregThresh <=? f); [|by left].
  unfold sleepOrStop. cbn [stopping stopReads set_conns]. destruct (negb (negb _)); [by left|].
  match goal with |- context [reRegisterSerialised env cfg ?m now fin tp] =>
    destruct (reRegisterSerialised env cfg m now fin tp) as [e n2] eqn:E2 end.
  apply reRegisterSerialised_spec in E2 as [E2|E2]; [left; cbn in *; congruence|right].
  eapply recorded_before; [|exact Hi|]; [exact G|]. eapply recorded_before; [..|exact E2]; [by apply grows_same|done].
Qed.

Lemma upkeep_record n n' : upkeep_step n n' →
  reest n' = reest n ∨ ∃ fin tp, recovery_run n fin tp n' ∧ recorded n n' fin tp.
Proof.
  intros [now fin tp o| |h rc a cs now fin j tp|t|i]; [| |..|by left|by left].
  - destruct (reestablishTransport _ _ _ _ _ _ _) as [r m] eqn:E. pose proof (RR_recover n fin tp now o) as HR.
    rewrite E in HR. apply reestablish_spec in E as [_ [[Er _]|(_ & Hr & _)]]; [by left|]. right. by exists fin, tp.
  - left. unfold heartbeatCall. by destruct (reg n).
  - destruct (heartbeatDone_record h n rc a cs now fin j tp) as [E|E]; [by left|]. right. exists fin, tp.
    split; [apply RR_beat|done].
Qed.

Lemma upkeep_honest n0 n : rtc upkeep_step n0 n → record_honest n0 n.
Proof.
  apply (rtc_ind_r (record_honest n0)); [by left|]. intros y z Hy Hs IH.
  destruct (upkeep_record _ _ Hs) as [E|(fin & tp & Hrun & Hrec)].
  - unfold record_honest, recorded_by. rewrite E. destruct IH as [IH|(n1 & n2 & fin & tp & ? & ? & ? & ? & ?)]; [by left|].
    right. exists n1, n2, fin, tp. split_and!; try done. by eapply rtc_r.
  - right. exists y, z, fin, tp. split_and!; done.
Qed.

Definition fresh_node n : Prop := reest n = mkReestablish 0 false.

(** C30. When a recovery reports that the registry has this node, either the registry
    accepted this node's registration in this run, or the run was skipped and sent
    nothing, because an earlier recovery or heartbeat of this daemon ended less than
    five seconds before: in that earlier run the registry accepted the node's
    registration and, when the skipped recovery was a full one, accepted every other
    write of a full restore too (visibility, hostname, each trusted peer of that
    run).  A recovery for a change of address is never skipped. *)
Theorem recovery_reports_truth n0 n now fin tp o n' :
  fresh_node n0 → rtc upkeep_step n0 n →
  reestablishTransport env cfg n now fin tp o = (true, n') →
  (∃ m, ident m = ident n ∧ accepted n' (length (calls n)) (CRegister (registerOpts env cfg m))) ∨
  (always o = false ∧ calls n' = calls n ∧
   ∃ n1 n2 fin' tp', rtc upkeep_step n0 n1 ∧ recovery_run n1 fin' tp' n2 ∧ rtc upkeep_step n2 n ∧
     0 <= i64 (UnixNano now - UnixNano fin') < 5 * Second ∧
     (∃ m, ident m = ident n1 ∧ accepted n2 (length (calls n1)) (CRegister (registerOpts env cfg m))) ∧
     (endpointOnly o = false → restored n2 (length (calls n1)) (nodeID (ident n2)) tp')).
Proof.
  intros H0 Hreach E. apply reestablish_spec in E as [G [[_ Hr]|(_ & Hrec & _)]]; [|left; apply Hrec].
  right. destruct (Hr eq_refl) as (Hc & Ha & Hrec). clear Hr. split_and!; [done..|].
  unfold reestablishedRecently in Hrec.
  destruct (upkeep_honest _ _ Hreach) as [E0|(n1 & n2 & fin' & tp' & H1 & Hrun & [Hw Hm Hf] & H2 & E2)].
  { rewrite E0, H0 in Hrec. done. }
  rewrite E2, Hw in Hrec. destruct (_ || _) eqn:Ez; [done|].
  apply orb_false_iff in Ez as [_ Ez]. apply andb_true_iff in Hrec as [? ?]. zbool.
  exists n1, n2, fin', tp'. split_and!; try done. intros Ho. rewrite Ho in Ez. apply Hf.
  destruct Ez as [?|Ez%negb_false_iff]; done.
Qed.

(** After a change of address, a registry that answered lately and still knows
    this node (it replies with our number and hostname) is sent exactly one
    request, the new endpoint: no visibility, hostname or trust write. *)
Theorem address_change_is_one_write n now fin tp c resp v a ad e n' :
  registryFresh n now = true → stopAt env (stopReads n) = false → reg n = Some c →
  callAns env (length (calls n)) (CRegister (registerOpts env cfg n)) = AnsOK resp →
  node_id resp = Some v → u32 v = nodeID (ident n) →
  address resp = Some a → ParseAddr env a = Some ad →
  default [] (hostname resp) = rcHostname cfg →
  reRegisterEndpoint env cfg n now fin tp = (e, n') →
  e = None ∧ calls n' = calls n ++ [CRegister (registerOpts env cfg n)] ∧
  nodeID (ident n') = nodeID (ident n) ∧ lastRegistryOKNano (ident n') = UnixNano fin.
Proof.
  intros Hf Hs Hr Ha Hv Hu Had Hp Hh. unfold reRegisterEndpoint, registerEndpoint. rewrite Hf. cbn [negb stopping].
  rewrite Hs. unfold reg in *. cbn [conns call calls]. rewrite Hr.
  change (registerOpts env cfg {| tun := tun n; conns := conns n; reest := reest n; ident := ident n;
    stopReads := S (stopReads n); calls := calls n |}) with (registerOpts env cfg n).
  rewrite Ha, Hv, Had, Hp. cbn [ident]. rewrite Hu, Z.eqb_refl. cbn [ident set_ident nodeID]. rewrite Z.eqb_refl.
  cbn [negb]. rewrite (bool_decide_true (default [] (hostname resp) = rcHostname cfg)) by done.
  rewrite andb_false_r. intros [= <- <-]. done.
Qed.

(** ** Connections *)

(** The pool in use and every pool that was replaced or refused are accounted
    for: a pool that a dial opened is the current one or closed. *)
Record pools_ok (c : Conns) : Prop := {
  po_open : ∀ id, (id < dials c)%nat → dialAns env id = true → regConn c = Some id ∨ id ∈ closed c;
  po_current : ∀ id, regConn c = Some id → (id < dials c)%nat;
}.

(** The dial loop: how many dials, how long it pauses, and that only its last
    dial can have opened a pool. *)
Definition backoff_sum (w : list duration) : duration := fold_right Z.add 0 w.

Lemma dialRounds_spec r : ∀ n b x n',
  dialRounds env cfg r n b = (x, n') →
  let c := conns n in let c' := conns n' in
  regConn c' = regConn c ∧ closed c' = closed c ∧ (dials c ≤ dials c')%nat ∧
  (∀ id, (dials c ≤ id < dials c')%nat → dialAns env id = true → x = inr id) ∧
  (∀ id, x = inr id → (dials c ≤ id < dials c')%nat).
Proof.
  induction r as [|r IH]; intros n b x n'.
  { intros [= <- <-]. cbn. split_and!; try done. intros; lia. }
  cbn [dialRounds]. unfold sleepOrStop, stopping. cbv beta iota zeta. cbn [conns stopReads dials set_conns].
  destruct (stopAt env (stopReads n)); [intros [= <- <-]; cbn; split_and!; try done; intros; lia|].
  destruct (dialConfigErr cfg); [intros [= <- <-]; cbn; split_and!; try done; intros; lia|].
  destruct (dialAns env (dials (conns n))) eqn:Hd.
  { intros [= <- <-]. cbn. split_and!; try done; [lia|intros id ? _|intros id [= <-]; lia]. do 2 f_equal. lia. }
  assert (∀ id, (dials (conns n) ≤ id < S (dials (conns n)))%nat → dialAns env id = true → False) as Hone.
  { intros id ? Hi. replace id with (dials (conns n)) in Hi by lia. congruence. }
  destruct r as [|r]; [|destruct (negb _)].
  1,3: intros [= <- <-]; cbn; (split_and!; [done|done|lia|intros id ? ?; exfalso; by eapply Hone|done]).
  intros E. apply IH in E. cbn [conns dials regConn closed] in E. destruct E as (-> & -> & Hle & Hin & Hout).
  cbn. split_and!; try done; [lia| |].
  - intros id Hid Hi. apply Hin; [|done]. destruct (decide (id = dials (conns n))) as [->|]; [congruence|lia].
  - intros id Hx%Hout. lia.
Qed.

Lemma forceReconnect_pools n e n' :
  forceReconnectRegistry env cfg n = (e, n') → pools_ok (conns n) →
  pools_ok (conns n') ∧ (dials (conns n) ≤ dials (conns n'))%nat ∧
  (e = None → ∃ c, reg n' = Some c ∧ (dials (conns n) ≤ c)%nat).
Proof.
  unfold forceReconnectRegistry. cbn [stopping]. destruct (stopAt env (stopReads n)); [by intros [= <- <-]|].
  set (n0 := mkHost _ _ _ _ _ _). intros E [Hopen Hcur].
  destruct (dialRegistryClient env cfg n0) as [[x|id] n1] eqn:E1;
    apply dialRounds_spec in E1 as (Hr & Hcl & Hle & Hin & Hout); cbn in *.
  { injection E as <- <-. split_and!; try done. split; [|intros id; rewrite Hr; intros ?%Hcur; lia].
    intros id Hid Hd. rewrite Hr, Hcl. apply Hopen; [|done].
    destruct (decide (id < dials (conns n))%nat); [done|]. pose proof (Hin id ltac:(lia) Hd). done. }
  destruct (Hout id eq_refl) as [Hlo Hhi]. unfold reg.
  assert (∀ cl w, (∀ o, regConn (conns n) = Some o → o ∈ cl) → closed (conns n) ⊆ cl →
    pools_ok (mkConns (Some id) (dials (conns n1)) cl w)) as Hok.
  { intros cl w Ho Hsub. split; cbn; [|intros ? [= <-]; lia]. intros i Hi Hd.
    destruct (decide (i < dials (conns n))%nat) as [Hl|Hl].
    - right. destruct (Hopen i Hl Hd); auto.
    - left. pose proof (Hin i ltac:(lia) Hd). congruence. }
  revert E. rewrite Hr, Hcl. destruct (regConn (conns n)) as [o|] eqn:Ho; cbn;
    destruct (stopAt env _); intros [= <- <-]; cbn;
    (split_and!; [apply Hok; set_solver|lia|try done; intros _; by exists id]).
Qed.

(** [conns] is left alone by everything but a reconnect and a pause. *)
Definition same_pools n n' : Prop :=
  regConn (conns n') = regConn (conns n) ∧ dials (conns n') = dials (conns n) ∧ closed (conns n') = closed (conns n).
#[local] Instance same_pools_preorder : PreOrder same_pools.
Proof. split; [done|]. intros a b c (?&?&?) (?&?&?). split_and!; congruence. Qed.
#[local] Hint Extern 4 (same_pools _ _) => done : core.

Lemma same_pools_ok n n' : same_pools n n' → pools_ok (conns n) → pools_ok (conns n').
Proof. intros (Er & Ed & Ec) [Ho Hc]. split; [rewrite Er, Ed, Ec|rewrite Er, Ed]; eauto. Qed.

Lemma registerEndpoint_pools n fin : same_pools n (snd (registerEndpoint env cfg n fin)).
Proof.
  unfold registerEndpoint. cbn [stopping]. destruct (stopAt env (stopReads n)); [done|].
  destruct (reg _); [|done]. cbn [call]. destruct (callAns env _ _) as [resp| |]; [|done..].
  destruct (node_id resp); [|done]. destruct (address resp) as [a|]; [|done]. destruct (ParseAddr env a); [|done].
  cbn. by destruct (_ =? _).
Qed.

Lemma reportTrusts_pools ps : ∀ n id f, same_pools n (snd (reportTrusts env n id ps f)).
Proof.
  induction ps as [|p ps IH]; intros n id f; cbn; [done|]. destruct (stopAt env (stopReads n)); [done|].
  cbn. etrans; [|apply IH]. done.
Qed.

Lemma restore_pools n now tp id b : same_pools n (snd (restoreRegistryState env cfg n now tp id b)).
Proof.
  unfold restoreRegistryState, writeIf. cbn [stopping]. destruct (stopAt env (stopReads n)); [done|].
  destruct (rcPublic cfg), (negb (bool_decide (rcHostname cfg = []))); cbn;
    (destruct (stopAt env _); [done|]); (destruct (negb b); [done|]);
    (destruct tp as [ps|]; [|destruct (bool_decide (BeaconAddr cfg = [])); done]);
    match goal with |- context [reportTrusts env ?m id ps 0] =>
      pose proof (reportTrusts_pools ps m id 0) as Q; destruct (reportTrusts env m id ps 0) as [[f|] m'];
      [destruct (bool_decide (BeaconAddr cfg = []))|] end; exact Q.
Qed.

Lemma reRegisterFull_pools n fin tp : same_pools n (snd (reRegisterFull env cfg n fin tp)).
Proof.
  unfold reRegisterFull. pose proof (registerEndpoint_pools n fin) as Q.
  destruct (registerEndpoint env cfg n fin) as [[e|[id resp]] n1]; [exact Q|].
  etrans; [exact Q|]. pose proof (restore_pools n1 fin tp id true) as Q'.
  destruct (restoreRegistryState env cfg n1 fin tp id true). exact Q'.
Qed.

Lemma reRegisterEndpoint_pools n now fin tp : same_pools n (snd (reRegisterEndpoint env cfg n now fin tp)).
Proof.
  unfold reRegisterEndpoint, reRegister. destruct (negb (registryFresh n now)).
  { pose proof (reRegisterFull_pools n fin tp) as Q. destruct (reRegisterFull env cfg n fin tp). exact Q. }
  pose proof (registerEndpoint_pools n fin) as Q.
  destruct (registerEndpoint env cfg n fin) as [[e|[id resp]] n1]; [exact Q|]. etrans; [exact Q|].
  destruct (negb (id =? _)); [apply restore_pools|]. destruct (_ && _); [apply restore_pools|done].
Qed.

Lemma reestablish_pools n now fin tp o :
  pools_ok (conns n) → pools_ok (conns (snd (reestablishTransport env cfg n now fin tp o))).
Proof.
  intros H. unfold reestablishTransport. destruct (_ && negb (always o)); [done|].
  destruct (reg (registerBeacon n now)); [|done].
  destruct (if freshConn o then forceReconnectRegistry env cfg (registerBeacon n now) else (None, registerBeacon n now))
    as [e n1] eqn:E1.
  assert (pools_ok (conns n1)) as H1.
  { destruct (freshConn o); [|by injection E1 as <- <-]. by apply forceReconnect_pools in E1 as [? _]. }
  destruct e; [done|]. destruct (endpointOnly o).
  - pose proof (reRegisterEndpoint_pools n1 now fin tp) as Q.
    destruct (reRegisterEndpoint env cfg n1 now fin tp) as [[e|] n2]; by apply (same_pools_ok n1).
  - pose proof (reRegisterFull_pools n1 fin tp) as Q.
    destruct (reRegisterFull env cfg n1 fin tp) as [[e|f] n2]; by apply (same_pools_ok n1).
Qed.

Lemma reconnectSerialised_pools n rc t :
  pools_ok (conns n) → pools_ok (conns (snd (reconnectRegistrySerialised env cfg n rc t))).
Proof.
  intros H. unfold reconnectRegistrySerialised. destruct (negb _); [done|].
  destruct (forceReconnectRegistry env cfg n) as [e n1] eqn:E. by apply forceReconnect_pools in E as [? _].
Qed.

Lemma heartbeatFailures_pools h n rc a t :
  pools_ok (conns n) → pools_ok (conns (snd (heartbeatFailures env cfg h n rc a t))).
Proof.
  intros H. unfold heartbeatFailures. destruct a; [exact H|exact H|].
  pose proof (reconnectSerialised_pools n (Some rc) t H) as H'.
  destruct (reconnectRegistrySerialised env cfg n (Some rc) t). exact H'.
Qed.

Lemma reRegisterSerialised_pools n now fin tp : same_pools n (snd (reRegisterSerialised env cfg n now fin tp)).
Proof.
  unfold reRegisterSerialised. destruct (reestablishedRecently n now true); [done|].
  pose proof (reRegisterFull_pools n fin tp) as Q. destruct (reRegisterFull env cfg n fin tp) as [[e|f] n2]; exact Q.
Qed.

Lemma heartbeatDone_pools h n rc a cs now fin j tp :
  pools_ok (conns n) → pools_ok (conns (snd (heartbeatDone env cfg h n rc a cs now fin j tp))).
Proof.
  intros H. unfold heartbeatDone. destruct (answered a); [exact H|].
  pose proof (heartbeatFailures_pools h n rc a cs H) as H1.
  destruct (heartbeatFailures env cfg h n rc a cs) as [f n1].
  destruct (HeartbeatReregThresh <=? f); [|exact H1].
  unfold sleepOrStop. cbn [stopping stopReads set_conns].
  destruct (negb (negb _)); [by apply (same_pools_ok n1)|].
  match goal with |- context [reRegisterSerialised env cfg ?m now fin tp] =>
    pose proof (reRegisterSerialised_pools m now fin tp) as Q;
    destruct (reRegisterSerialised env cfg m now fin tp) as [e n2] end.
  apply (same_pools_ok n1); [|exact H1]. etrans; [|exact Q]. done.
Qed.

(** C31. Whatever recoveries, reconnects and heartbeats run, in any order, every
    registry connection pool a dial opened is the one in use or has been closed. *)
Theorem pools_never_leak n0 n : pools_ok (conns n0) → rtc upkeep_step n0 n → pools_ok (conns n).
Proof.
  intros H0. apply (rtc_ind_r (λ m, pools_ok (conns m)) n0); [done|]. intros y z _ Hs Hy. destruct Hs.
  - by apply reestablish_pools.
  - unfold heartbeatCall. by destruct (reg y).
  - by apply heartbeatDone_pools.
  - done.
  - done.
Qed.

(** A heartbeat that timed out on a connection a recovery has meanwhile replaced
    does not dial again. *)
Lemma replaced_connection_not_redialled h n rc cs :
  reg n ≠ Some rc → conns (snd (heartbeatFailures env cfg h n rc AnsTimeout cs)) = conns n.
Proof. intros H. unfold heartbeatFailures, reconnectRegistrySerialised. by rewrite bool_decide_false. Qed.

(** ** The heartbeat's own limits *)

Definition heartbeat_ok (h : Heartbeat) : Prop :=
  0 <= consecutiveFailures h < HeartbeatReregThresh ∧ reregBackoff0 <= reregBackoff h <= 30 * Second.

Lemma heartbeat_stays_ok h n rc a cs now fin j tp h' n' :
  heartbeat_ok h → heartbeatDone env cfg h n rc a cs now fin j tp = (Some h', n') → heartbeat_ok h'.
Proof.
  unfold heartbeat_ok, heartbeatDone. intros [Hf Hb].
  destruct (answered a); [intros [= <- _]; cbn; unfold reregBackoff0, Millisecond, Second; cbn; lia|].
  destruct (heartbeatFailures env cfg h n rc a cs) as [f n1] eqn:Ef.
  assert (0 <= f) as H0.
  { revert Ef. unfold heartbeatFailures.
    destruct (match a with AnsTimeout => _ | _ => _ end) as [x y] eqn:E.
    assert (0 <= x) by (destruct a; [injection E as <- _; lia..|];
      destruct (reconnectRegistrySerialised _ _ _ _ _) as [[?|[]] ?]; injection E as <- _; unfold HeartbeatReregThresh; lia).
    destruct (_ && _); intros [= <- _]; unfold HeartbeatReregThresh; lia. }
  destruct (HeartbeatReregThresh <=? f) eqn:E; zbool; [|intros [= <- _]; cbn; lia].
  destruct (sleepOrStop env n1 _) as [[] n2]; cbn [negb]; [|done].
  destruct (reRegisterSerialised env cfg n2 now fin tp) as [e n3]. intros [= <- _]. cbn.
  unfold reregBackoff0, Millisecond, Second in *. lia.
Qed.
End RegistryProofs.

(** ** A node that moves *)
Module RegDemo.
#[local] Existing Instance documented_protocol.
#[local] Existing Instance toy_cipher.
#[local] Existing Instance Demo.list_codec.
#[local] Existing Instance Demo.one_key.

Definition renv : RegEnv :=
  mkRegEnv (λ _, false) (λ _, true) (λ _ _, AnsOK (mkRegReply (Some 1001) (Some (str "0:1001")) (Some (str "alice"))))
    (λ _, Some (mkAddr 0 1001)) (Some (str "0.0.0.0:4000")).
Definition rcfg : RegConfig :=
  mkRegConfig [] [] [] (str "me") (str "v1") true (str "alice") false (str "b:9001") false [] [].
Definition t0 : gotime := unixEpoch + 1000 * Second.
Definition host0 : Host :=
  mkHost Demo.nodeA (mkConns (Some O) 1 [] []) (mkReestablish 0 false)
    (mkIdent 1001 (mkAddr 0 1001) [1] [] (1000 * 1000000000)) 0 [].
Definition full_opts : reestablishOpts := mkReestablishOpts false false false.
Definition addr_opts : reestablishOpts := mkReestablishOpts true true true.
Definition tp0 : option (list Z) := Some [9; 12].
(** The host after a full recovery, and a second one a second later. *)
Definition host1 : Host := snd (reestablishTransport renv rcfg host0 t0 (t0 + Second) tp0 full_opts).
Definition second_run := reestablishTransport renv rcfg host1 (t0 + 2 * Second) (t0 + 3 * Second) tp0 full_opts.

Lemma recovery_reports_truth_witness :
  length (calls host1) = 5%nat ∧ fst second_run = true ∧ calls (snd second_run) = calls host1 ∧
  ((∃ m, ident m = ident host1 ∧
    accepted renv (snd second_run) (length (calls host1)) (CRegister (registerOpts renv rcfg m))) ∨
   (always full_opts = false ∧ calls (snd second_run) = calls host1 ∧
    ∃ n1 n2 fin' tp', rtc (upkeep_step renv rcfg) host0 n1 ∧ recovery_run renv rcfg n1 fin' tp' n2 ∧
      rtc (upkeep_step renv rcfg) n2 host1 ∧
      0 <= i64 (UnixNano (t0 + 2 * Second) - UnixNano fin') < 5 * Second ∧
      (∃ m, ident m = ident n1 ∧
         accepted renv n2 (length (calls n1)) (CRegister (registerOpts renv rcfg m))) ∧
      (endpointOnly full_opts = false → restored renv rcfg n2 (length (calls n1)) (nodeID (ident n2)) tp'))).
Proof.
  split; [vm_compute; reflexivity|]. split; [vm_compute; reflexivity|]. split; [vm_compute; reflexivity|].
  refine (recovery_reports_truth renv rcfg host0 host1 (t0 + 2 * Second) (t0 + 3 * Second) tp0 full_opts
            (snd second_run) _ _ _).
  - reflexivity.
  - apply rtc_once. unfold host1. apply US_recover.
  - apply injective_projections; vm_compute; reflexivity.
Defined.

Definition moved := reRegisterEndpoint renv rcfg host1 (t0 + 9 * Second) (t0 + 10 * Second) tp0.
Lemma address_change_is_one_write_witness :
  fst moved = None ∧ calls (snd moved) = calls host1 ++ [CRegister (registerOpts renv rcfg host1)] ∧
  nodeID (ident (snd moved)) = 1001 ∧
  lastRegistryOKNano (ident (snd moved)) = UnixNano (t0 + 10 * Second).
Proof.
  exact (address_change_is_one_write renv rcfg host1 (t0 + 9 * Second) (t0 + 10 * Second) tp0 0%nat
    (mkRegReply (Some 1001) (Some (str "0:1001")) (Some (str "alice"))) 1001 (str "0:1001") (mkAddr 0 1001)
    (fst moved) (snd moved) eq_refl eq_refl eq_refl eq_refl eq_refl eq_refl eq_refl eq_refl eq_refl
    (surjective_pairing _)).
Defined.

Definition host2 : Host := snd (reestablishTransport renv rcfg host1 (t0 + 9 * Second) (t0 + 10 * Second) tp0 addr_opts).
Lemma pools_never_leak_witness :
  regConn (conns host2) = Some 1%nat ∧ closed (conns host2) = [0%nat] ∧ pools_ok renv (conns host2).
Proof.
  split; [vm_compute; reflexivity|]. split; [vm_compute; reflexivity|].
  apply (pools_never_leak renv rcfg host1 host2).
  - assert (conns host1 = mkConns (Some O) 1 [] []) as -> by (vm_compute; reflexivity).
    split; cbn; [|intros id [= <-]; lia]. intros id Hid _. left. f_equal. lia.
  - apply rtc_once. unfold host2. apply US_recover.
Defined.
End RegDemo.
