(* ===== verification/RxWatchdog.v ===== *)
(** * The inbound-path watchdog (pkg/daemon/rxwatchdog.go)

    A tick compares the counters of received and sent packets with the last
    progress, tries soft recoveries, and as a last resort asks for the process to
    be restarted, at most [rxWedgeLoopMax] times in [rxWedgeLoopWindow]: the exits
    are counted in a file next to the identity that survives the restart.

    [Watched] is what a tick works on: the [Host] of [Registry], the counter of
    dial timeouts and the content of the exit log ([None]: missing or unreadable).
    [sent] is the tunnel's counter of packets sent, [wr] what a failed write of
    the exit log leaves behind ([None]: it succeeded).  Events and log lines are not
    represented, the request to exit is the tick's result. *)
From stdpp Require Import strings.
From S2P Require Import Prelude GoText Crypto KeyStore Protocol Envelope KeyExchange Routing Tunnel.
From S2P Require Import Registry.
Open Scope Z_scope.

Definition Minute : duration := 60 * Second.
Definition rxWatchdogTickInterval : duration := 30 * Second.
Definition suspendGapThreshold : duration := 4 * rxWatchdogTickInterval.
Definition rxSilenceThreshold : duration := 3 * Minute.
Definition rxSilenceMinSentDelta : Z := 30.
Definition dialWedgeThreshold : Z := 4.
Definition rxWatchdogSoftMax : Z := 3.
Definition rxWedgeMinUptime : duration := 30 * Minute.
Definition rxWedgeRegistryFresh : duration := 5 * Minute.
Definition rxWedgeLoopWindow : duration := 120 * Minute.
Definition rxWedgeLoopMax : Z := 3.

Record rxWatchdogState := mkRx {
  lastProgress : gotime; recvSeen : Z; sentAtProgress : Z; softAttempts : Z; suspendSeen : bool;
}.

Inductive rxWatchdogAction :=
| rxActionNone | rxActionProgress | rxActionSoftRecover | rxActionExitWithheld | rxActionExit | rxActionRestartLoop.
#[export] Instance rxWatchdogAction_eq_dec : EqDecision rxWatchdogAction.
Proof. solve_decision. Defined.

(** ** The exit log *)

Definition rxWedgeExitLogPath (identityPath : bytes) : bytes :=
  if bool_decide (identityPath = []) then [] else identityPath ++ str ".rxwedge".

(** One line of the log; blank and malformed lines are skipped. *)
Definition parseExit (line : bytes) : option Z :=
  let line := TrimSpace line in
  if bool_decide (line = []) then None else ParseInt line.
Definition parseLog (data : bytes) : list Z := omap parseExit (SplitByte 10 (TrimSpace data)).
Definition formatLog (ts : list Z) : bytes := concat ((λ t, FormatInt t ++ [10]) <$> ts).

(** [log]: the content of the file at [path]. *)
Definition recentRxWedgeExits (path : bytes) (log : option bytes) (now : gotime) (window : duration) : list Z :=
  if bool_decide (path = []) then []
  else match log with
       | None => []
       | Some data =>
           let cutoff := UnixNano (now - window) in
           List.filter (λ ts, cutoff <=? ts) (parseLog data)
       end.

Definition recordRxWedgeExit (path : bytes) (log : option bytes) (now : gotime) (window : duration)
    (wr : option (option bytes)) : option bytes :=
  if bool_decide (path = []) then log
  else
    let recent := recentRxWedgeExits path log now window ++ [UnixNano now] in
    match wr with None => Some (formatLog recent) | Some left_behind => left_behind end.

Section RxWatchdog.
Context {P : Protocol} {W : PacketCodec} {K : Type} {C : Cipher K} {X : Primitives K}.
Context (env : RegEnv) (cfg : RegConfig) (IdentityPath : bytes) (startTime : gotime).

Record Watched := mkWatched {
  host : Host (K := K) (X := X);
  consecutiveDialTimeouts : Z;
  exitLog : option bytes;
}.
Implicit Types w : Watched.

Definition PktsRecvNow w : Z := PktsRecv (io (tun (host w))).

Definition rxWatchdogResume (st : rxWatchdogState) w (now fin : gotime) (sent : Z) (tp : option (list Z))
  : rxWatchdogState * Watched :=
  let '(_, h) := reestablishTransport env cfg (host w) now fin tp (mkReestablishOpts true false false) in
  let w := mkWatched h 0 (exitLog w) in
  (mkRx now (PktsRecvNow w) sent 0 true, w).

(** Which of the guards in front of the hard exit let it through. *)
Definition exitAllowed (st : rxWatchdogState) w (now : gotime) : bool :=
  let ok := lastRegistryOKNano (ident (host w)) in
  let registryAge := if 0 <? ok then time_sub now (timeUnix ok) else -1 in
  negb ((recvSeen st =? 0) && negb (suspendSeen st)) &&
  negb ((registryAge <? 0) || (rxWedgeRegistryFresh <? registryAge)) &&
  negb (time_sub now startTime <? rxWedgeMinUptime).

Definition with_soft (st : rxWatchdogState) (k : Z) : rxWatchdogState :=
  mkRx (lastProgress st) (recvSeen st) (sentAtProgress st) k (suspendSeen st).

Definition rxWatchdogTick (st : rxWatchdogState) w (now fin : gotime) (sent : Z) (tp : option (list Z))
    (wr : option (option bytes)) : rxWatchdogAction * rxWatchdogState * Watched :=
  let recv := PktsRecvNow w in
  let dialTimeouts := consecutiveDialTimeouts w in
  let rxProgressed := negb (recv =? recvSeen st) in
  let dialWedged := dialWedgeThreshold <=? dialTimeouts in
  if rxProgressed && negb dialWedged then
    (rxActionProgress, mkRx now recv sent 0 (suspendSeen st), w)
  else
    let st := if rxProgressed then mkRx now recv sent (softAttempts st) (suspendSeen st) else st in
    let silence := time_sub now (lastProgress st) in
    let sentDelta := u64 (sent - sentAtProgress st) in
    let rxSilentWedge := (rxSilenceThreshold <=? silence) && (rxSilenceMinSentDelta <=? sentDelta) in
    if negb rxSilentWedge && negb dialWedged then (rxActionNone, st, w)
    else if softAttempts st <? rxWatchdogSoftMax then
      let '(_, h) := reestablishTransport env cfg (host w) now fin tp (mkReestablishOpts false false false) in
      (rxActionSoftRecover, with_soft st (softAttempts st + 1), mkWatched h 0 (exitLog w))
    else if exitAllowed st w now then
      let path := rxWedgeExitLogPath IdentityPath in
      let recent := recentRxWedgeExits path (exitLog w) now rxWedgeLoopWindow in
      if rxWedgeLoopMax <=? Z.of_nat (length recent) then (rxActionRestartLoop, with_soft st 0, w)
      else (rxActionExit, st,
            mkWatched (host w) dialTimeouts (recordRxWedgeExit path (exitLog w) now rxWedgeLoopWindow wr))
    else (rxActionExitWithheld, with_soft st 0, w).

(** One turn of rxWatchdogLoop: a late tick is a resume.  [None]: the loop ended. *)
Definition rxWatchdogTurn (st : rxWatchdogState) w (lastTick now fin : gotime) (sent : Z) (tp : option (list Z))
    (wr : option (option bytes)) : option rxWatchdogState * Watched :=
  let '(st, w) := if suspendGapThreshold <=? time_sub now lastTick
                  then rxWatchdogResume st w now fin sent tp else (st, w) in
  let '(act, st, w) := rxWatchdogTick st w now fin sent tp wr in
  (if bool_decide (act = rxActionExit) then None else Some st, w).
End RxWatchdog.
