(* ===== verification/RxWatchdogProofs.v ===== *)
(** * Theorems about the inbound-path watchdog ([RxWatchdog])

    The exit log reads back what was written to it; a restart is asked for only
    after three soft recoveries and past every guard; and the fourth restart comes
    more than two hours after the first, however the process and its tunnels
    change in between. *)
From stdpp Require Import strings.
From S2P Require Import Prelude GoText Crypto KeyStore Protocol Envelope KeyExchange Routing Tunnel.
From S2P Require Import TunnelTheorems Registry RegistryProofs RxWatchdog.
Open Scope Z_scope.

(** ** The exit log *)

Lemma parseExit_FormatInt z : is_i64 z → parseExit (FormatInt z) = Some z.
Proof.
  intros Hz. destruct (FormatInt_word z) as [Hw Hne]. unfold parseExit.
  rewrite TrimSpace_noSpace, bool_decide_false by done. by apply ParseInt_FormatInt.
Qed.

Lemma formatLog_app l k : formatLog (l ++ k) = formatLog l ++ formatLog k.
Proof. unfold formatLog. by rewrite fmap_app, concat_app. Qed.

Lemma formatLog_trim l z : TrimSpace (formatLog (l ++ [z])) = formatLog l ++ FormatInt z.
Proof.
  rewrite formatLog_app. cbn. rewrite app_nil_r, app_assoc.
  destruct (FormatInt_word z) as [Hw Hne].
  assert (∃ b t, formatLog l ++ FormatInt z = b :: t ∧ isSpace b = false) as (b & t & Hb & Ib).
  { destruct l as [|y l]; cbn.
    - destruct (FormatInt z) as [|b t]; [done|]. apply Forall_cons in Hw as [? _]. eauto.
    - destruct (FormatInt_word y) as [Hy Hney]. destruct (FormatInt y) as [|b t]; [done|].
      apply Forall_cons in Hy as [? _]. cbn. eauto. }
  assert (∃ c u, FormatInt z = u ++ [c] ∧ isSpace c = false) as (c & u & Hc & Ic).
  { destruct (FormatInt z) as [|x s] using rev_ind; [done|]. apply Forall_app in Hw as [_ Hc].
    apply Forall_cons in Hc as [? _]. eauto. }
  apply (TrimSpace_newline _ b c t (formatLog l ++ u)); [done| |done..]. by rewrite <- app_assoc, <- Hc.
Qed.

Lemma SplitByte_formatLog l z :
  SplitByte 10 (formatLog l ++ FormatInt z) = (FormatInt <$> l) ++ [FormatInt z].
Proof.
  induction l as [|y l IH]; cbn.
  - apply SplitByte_none, noSpace_newline, FormatInt_word.
  - rewrite <- !app_assoc. cbn. rewrite SplitByte_cons by (apply noSpace_newline, FormatInt_word). by f_equal.
Qed.

(** What was recorded is read back, whatever the times are. *)
Theorem exit_log_roundtrip ts : Forall is_i64 ts → parseLog (formatLog ts) = ts.
Proof.
  intros H. destruct ts as [|z l _] using rev_ind; [done|].
  unfold parseLog. rewrite formatLog_trim, SplitByte_formatLog, omap_app.
  apply Forall_app in H as [Hl Hz]. apply Forall_cons in Hz as [Hz _]. cbn. rewrite parseExit_FormatInt by done.
  f_equal. induction Hl as [|y l Hy _ IH]; cbn; [done|]. by rewrite parseExit_FormatInt, IH by done.
Qed.

Lemma ParseInt_i64 s z : ParseInt s = Some z → is_i64 z.
Proof.
  unfold ParseInt, is_i64. destruct (match s with [] => None | _ :: _ => _ end) as [y|]; [|done].
  destruct (_ && _) eqn:E; [|done]. zbool. intros [= <-]. lia.
Qed.

Lemma parseLog_i64 data : Forall is_i64 (parseLog data).
Proof.
  apply Forall_forall. intros z (line & _ & Hl)%list_elem_of_omap. unfold parseExit in Hl.
  destruct (bool_decide _); [done|]. by eapply ParseInt_i64.
Qed.

(** ** Filtering by a cutoff *)

Definition since (cut : Z) (l : list Z) : list Z := List.filter (λ ts, cut <=? ts) l.

Lemma since_since c c' l : c <= c' → since c' (since c l) = since c' l.
Proof.
  intros H. unfold since. induction l as [|x l IH]; [done|]. cbn. destruct (c <=? x) eqn:E; cbn; rewrite IH; [done|].
  destruct (c' <=? x) eqn:E'; [|done]. zbool. lia.
Qed.
Lemma since_app c l k : since c (l ++ k) = since c l ++ since c k.
Proof. apply List.filter_app. Qed.
Lemma since_Forall (Q : Z → Prop) c l : Forall Q l → Forall Q (since c l).
Proof. unfold since. induction 1 as [|x l Hx _ IH]; cbn; [constructor|]. destruct (c <=? x); [by constructor|done]. Qed.

Definition entries (log : option bytes) : list Z := match log with None => [] | Some d => parseLog d end.

Lemma recent_entries path log now w :
  path ≠ [] → recentRxWedgeExits path log now w = since (UnixNano (now - w)) (entries log).
Proof. intros H. unfold recentRxWedgeExits. rewrite bool_decide_false by done. by destruct log. Qed.

Lemma UnixNano_ok t d : clock_ok t → 0 <= d <= rxWedgeLoopWindow → UnixNano (t - d) = t - d - unixEpoch.
Proof.
  unfold clock_ok, UnixNano, rxWedgeLoopWindow, Minute, Second, maxDuration. intros.
  apply i64_id. unfold minDuration, maxDuration. lia.
Qed.
Lemma UnixNano_now t : clock_ok t → UnixNano t = t - unixEpoch ∧ is_i64 (UnixNano t).
Proof.
  intros H. pose proof (UnixNano_ok t 0 H) as E. rewrite Z.sub_0_r in E. rewrite E.
  - unfold clock_ok in H. unfold is_i64, minDuration, maxDuration in *. lia.
  - unfold rxWedgeLoopWindow, Minute, Second. lia.
Qed.

Lemma record_entries path log now :
  path ≠ [] → clock_ok now →
  entries (recordRxWedgeExit path log now rxWedgeLoopWindow None) =
    since (UnixNano (now - rxWedgeLoopWindow)) (entries log) ++ [UnixNano now].
Proof.
  intros Hp Hc. unfold recordRxWedgeExit. rewrite bool_decide_false by done.
  rewrite recent_entries by done. cbn. apply exit_log_roundtrip, Forall_app. split.
  - apply since_Forall. destruct log; cbn; [apply parseLog_i64|constructor].
  - repeat constructor; by apply UnixNano_now.
Qed.

Section RxProofs.
Context {P : Protocol} {W : PacketCodec} {K : Type} {C : Cipher K} {X : Primitives K}.
Context (env : RegEnv) (cfg : RegConfig) (IdentityPath : bytes) (startTime : gotime).
Implicit Types w : Watched (K := K) (X := X).

(** ** When a tick asks for a restart *)

(** The transport counts as wedged: no inbound packet for three minutes while
    packets go out, or a run of failed dials. *)
Definition wedged (st : rxWatchdogState) w (now : gotime) (sent : Z) : Prop :=
  (rxSilenceThreshold <= time_sub now (lastProgress st) ∧ rxSilenceMinSentDelta <= u64 (sent - sentAtProgress st)) ∨
  dialWedgeThreshold <= consecutiveDialTimeouts w.

Lemma tick_exit st w now fin sent tp wr st' w' :
  rxWatchdogTick env cfg IdentityPath startTime st w now fin sent tp wr = (rxActionExit, st', w') →
  rxWatchdogSoftMax <= softAttempts st ∧ softAttempts st' = softAttempts st ∧
  suspendSeen st' = suspendSeen st ∧ recvSeen st' = PktsRecvNow w ∧
  wedged st' w now sent ∧ exitAllowed startTime st' w now = true ∧
  Z.of_nat (length (recentRxWedgeExits (rxWedgeExitLogPath IdentityPath) (exitLog w) now rxWedgeLoopWindow))
    < rxWedgeLoopMax ∧
  host w' = host w ∧
  exitLog w' = recordRxWedgeExit (rxWedgeExitLogPath IdentityPath) (exitLog w) now rxWedgeLoopWindow wr.
Proof.
  unfold rxWatchdogTick. destruct (negb (PktsRecvNow w =? recvSeen st)) eqn:Hp;
    destruct (dialWedgeThreshold <=? consecutiveDialTimeouts w) eqn:Hd; cbn [andb negb]; try done.
  all: match goal with |- context [softAttempts ?s <? rxWatchdogSoftMax] => set (st1 := s) end.
  all: try (destruct ((rxSilenceThreshold <=? _) && (rxSilenceMinSentDelta <=? _)) eqn:Hw; cbn [andb negb]; [|done]).
  all: rewrite ?andb_false_r; destruct (softAttempts st1 <? rxWatchdogSoftMax) eqn:Hs;
    [destruct (reestablishTransport _ _ _ _ _ _ _); done|].
  all: destruct (exitAllowed startTime st1 w now) eqn:Ha; [|done].
  all: destruct (rxWedgeLoopMax <=? _) eqn:Hm; [done|]; intros [= <- <-]; cbn in *.
  all: assert (wedged st1 w now sent) by (zbool; unfold wedged; auto).
  all: zbool; split_and!; try done; lia.
Qed.

(** A process's ticks and resumes from a state with no soft attempt on record,
    with the number of soft recoveries that ran. *)
Definition soft_count (act : rxWatchdogAction) : nat := match act with rxActionSoftRecover => 1 | _ => 0 end.
Inductive rx_run : nat → rxWatchdogState → Prop :=
| rr_start st : softAttempts st <= 0 → rx_run 0 st
| rr_resume k st w now fin sent tp st' w' :
    rx_run k st → rxWatchdogResume env cfg st w now fin sent tp = (st', w') → rx_run k st'
| rr_tick k st w now fin sent tp wr act st' w' :
    rx_run k st → rxWatchdogTick env cfg IdentityPath startTime st w now fin sent tp wr = (act, st', w') →
    rx_run (soft_count act + k) st'.

Lemma tick_soft st w now fin sent tp wr act st' w' :
  rxWatchdogTick env cfg IdentityPath startTime st w now fin sent tp wr = (act, st', w') →
  softAttempts st' <= Z.max 0 (softAttempts st) + Z.of_nat (soft_count act).
Proof.
  unfold rxWatchdogTick. destruct (_ && _); [intros [= <- <- _]; cbn; lia|]. cbv zeta.
  match goal with |- context [softAttempts ?s <? rxWatchdogSoftMax] => set (st1 := s) end.
  assert (softAttempts st1 = softAttempts st) as Hs by (unfold st1; by destruct (negb _)).
  destruct (_ && _); [intros [= <- <- _]; cbn; lia|].
  destruct (_ <? rxWatchdogSoftMax); [destruct (reestablishTransport _ _ _ _ _ _ _); intros [= <- <- _]; cbn; lia|].
  destruct (exitAllowed _ _ _ _); [destruct (rxWedgeLoopMax <=? _)|]; intros [= <- <- _]; cbn; lia.
Qed.

Lemma rx_run_soft k st : rx_run k st → softAttempts st <= Z.of_nat k.
Proof.
  induction 1 as [st H|k st w now fin sent tp st' w' _ IH E|k st w now fin sent tp wr act st' w' _ IH E]; [lia| |].
  - revert E. unfold rxWatchdogResume. destruct (reestablishTransport _ _ _ _ _ _ _). intros [= <- _]. cbn. lia.
  - apply tick_soft in E. lia.
Qed.

(** C32. The watchdog asks for a restart only when the transport is wedged, at least
    three soft recoveries have run, something was once received (or the host
    slept), the registry answered within five minutes, the process is at least
    half an hour old, and fewer than three restarts are on record in the last two
    hours. *)
Theorem restart_needs_every_guard k st w now fin sent tp wr st' w' :
  rx_run k st →
  rxWatchdogTick env cfg IdentityPath startTime st w now fin sent tp wr = (rxActionExit, st', w') →
  (3 ≤ k)%nat ∧ wedged st' w now sent ∧
  (PktsRecvNow w ≠ 0 ∨ suspendSeen st = true) ∧
  0 < lastRegistryOKNano (ident (host w)) ∧
  0 <= time_sub now (timeUnix (lastRegistryOKNano (ident (host w)))) <= rxWedgeRegistryFresh ∧
  rxWedgeMinUptime <= time_sub now startTime ∧
  Z.of_nat (length (recentRxWedgeExits (rxWedgeExitLogPath IdentityPath) (exitLog w) now rxWedgeLoopWindow)) < 3.
Proof.
  intros Hrun%rx_run_soft (Hs & _ & Hsu & Hr & Hw & Ha & Hm & _)%tick_exit.
  unfold exitAllowed in Ha. rewrite Hr, Hsu in Ha. unfold rxWatchdogSoftMax in Hs.
  apply andb_true_iff in Ha as [[Hx Hy]%andb_true_iff Hz]. zbool.
  assert (0 < lastRegistryOKNano (ident (host w)) ∧
    0 <= time_sub now (timeUnix (lastRegistryOKNano (ident (host w)))) <= rxWedgeRegistryFresh) as [? ?].
  { destruct (0 <? lastRegistryOKNano (ident (host w))) eqn:E; zbool; [lia|lia]. }
  split_and!; try done; try lia. destruct Hx as [Hx|Hx]; zbool; auto.
Qed.

(** ** At most three restarts in two hours *)

(** What can happen over the life of the exit log: ticks of any process, whatever
    its watchdog state, and anything that does not touch the log.  [L] are the
    times of the restarts asked for, newest first. *)
Inductive rx_history : gotime → list gotime → Watched (K := K) (X := X) → Prop :=
| rx_start t w : rx_history t [] w
| rx_other t t' L w w' : rx_history t L w → t <= t' → exitLog w' = exitLog w → rx_history t' L w'
| rx_tick t L w st now fin sent tp act st' w' :
    rx_history t L w → t <= now → clock_ok now →
    rxWatchdogTick env cfg IdentityPath startTime st w now fin sent tp None = (act, st', w') →
    rx_history now (if bool_decide (act = rxActionExit) then now :: L else L) w'.

Record history_inv (t : gotime) (L : list gotime) w : Prop := {
  hi_sorted : ∀ i j a b, (i ≤ j)%nat → L !! i = Some a → L !! j = Some b → b <= a;
  hi_before : ∀ a, a ∈ L → a <= t ∧ clock_ok a;
  hi_logged : ∀ cut, t - rxWedgeLoopWindow - unixEpoch <= cut →
    (length (since cut (UnixNano <$> L)) ≤ length (since cut (entries (exitLog w))))%nat;
}.

Lemma tick_quiet_log st w now fin sent tp wr act st' w' :
  rxWatchdogTick env cfg IdentityPath startTime st w now fin sent tp wr = (act, st', w') →
  act ≠ rxActionExit → exitLog w' = exitLog w.
Proof.
  unfold rxWatchdogTick. destruct (_ && _); [by intros [= <- <- <-]|]. cbv zeta. destruct (_ && _); [by intros [= <- <- <-]|].
  destruct (_ <? rxWatchdogSoftMax); [destruct (reestablishTransport _ _ _ _ _ _ _); by intros [= <- <- <-]|].
  destruct (exitAllowed _ _ _ _); [|by intros [= <- <- <-]].
  destruct (rxWedgeLoopMax <=? _); by intros [= <- <- <-].
Qed.

Lemma path_nonempty : IdentityPath ≠ [] → rxWedgeExitLogPath IdentityPath ≠ [].
Proof. intros H. unfold rxWedgeExitLogPath. rewrite bool_decide_false by done. by destruct IdentityPath. Qed.

Lemma history_inv_mono t t' L w w' :
  history_inv t L w → t <= t' → exitLog w' = exitLog w → history_inv t' L w'.
Proof.
  intros [Hs Hb Hl] Ht Ho. split; [done| |].
  - intros a Ha. destruct (Hb a Ha). split; [lia|done].
  - intros cut Hc. rewrite Ho. apply Hl. lia.
Qed.

Lemma history_inv_exit t L w now w' :
  history_inv t L w → t <= now → clock_ok now → IdentityPath ≠ [] →
  exitLog w' = recordRxWedgeExit (rxWedgeExitLogPath IdentityPath) (exitLog w) now rxWedgeLoopWindow None →
  history_inv now (now :: L) w'.
Proof.
  intros [Hs Hb Hl] Ht Hc Hp Ho. split.
  - intros [|i] [|j] a b Hij; cbn; try lia.
    + intros [= ->] [= ->]. lia.
    + intros [= <-] Hj. apply list_elem_of_lookup_2, Hb in Hj. lia.
    + apply Hs. lia.
  - intros a [->|Ha]%elem_of_cons; [done|]. destruct (Hb a Ha). split; [lia|done].
  - intros cut Hcut. rewrite Ho, record_entries, UnixNano_ok by (try done; try apply path_nonempty; try done;
      unfold rxWedgeLoopWindow, Minute, Second; lia).
    rewrite since_app, since_since, length_app by lia. rewrite fmap_cons.
    change (UnixNano now :: (UnixNano <$> L)) with ([UnixNano now] ++ (UnixNano <$> L)).
    rewrite since_app, length_app. specialize (Hl cut ltac:(lia)). lia.
Qed.

Lemma history_ok t L w : IdentityPath ≠ [] → rx_history t L w → history_inv t L w.
Proof.
  intros Hp. induction 1 as [t w|t t' L w w' _ IH Ht Ho|t L w st now fin sent tp act st' w' _ IH Ht Hc E].
  - split; cbn; try done. by intros a Ha%not_elem_of_nil. intros; lia.
  - by eapply history_inv_mono.
  - case_bool_decide as Ha.
    + subst act. apply tick_exit in E as (_ & _ & _ & _ & _ & _ & _ & _ & Ho). by eapply history_inv_exit.
    + eapply history_inv_mono; [done..|]. by eapply tick_quiet_log.
Qed.

(** The fourth restart comes more than two hours after the first, over any
    sequence of processes that share the exit log. *)
Theorem restart_loop_is_broken t L w i a b :
  IdentityPath ≠ [] → rx_history t L w → L !! i = Some b → L !! (i + 3)%nat = Some a →
  rxWedgeLoopWindow < b - a.
Proof.
  intros Hp H. revert i a b. induction H as [t w|t t' L w w' H IH Ht Ho|t L w st now fin sent tp act st' w' H IH Ht Hc E].
  - intros i a b Hi. by rewrite lookup_nil in Hi.
  - exact IH.
  - case_bool_decide as Ha; [|exact IH]. subst act. intros [|i] a b; cbn; [|apply IH].
    intros [= <-] Hthird. apply tick_exit in E as (_ & _ & _ & _ & _ & _ & Hlt & _).
    rewrite recent_entries in Hlt by (by apply path_nonempty).
    destruct (history_ok _ _ _ Hp H) as [Hs Hb Hl].
    rewrite UnixNano_ok in Hlt by (try done; unfold rxWedgeLoopWindow, Minute, Second; lia).
    destruct (decide (rxWedgeLoopWindow < now - a)) as [|Hle]; [done|]. exfalso.
    specialize (Hl (now - rxWedgeLoopWindow - unixEpoch) ltac:(lia)).
    assert (3 ≤ length (since (now - rxWedgeLoopWindow - unixEpoch) (UnixNano <$> L)))%nat.
    { destruct L as [|x [|y [|z L]]]; try done. injection Hthird as <-.
      assert (z <= x ∧ z <= y) as [? ?].
      { split; [apply (Hs 0%nat 2%nat)|apply (Hs 1%nat 2%nat)]; cbn; try done; lia. }
      assert (∀ v, v ∈ x :: y :: z :: L → UnixNano v = v - unixEpoch) as Hu.
      { intros v Hv. apply UnixNano_now. by apply Hb. }
      rewrite !fmap_cons, !Hu by set_solver. unfold since. cbn [List.filter].
      do 3 (case_zif; [|lia]). cbn. lia. }
    unfold rxWedgeLoopMax in Hlt. lia.
Qed.
End RxProofs.

(** ** A daemon that keeps being restarted *)
Module RxDemo.
#[local] Existing Instance documented_protocol.
#[local] Existing Instance toy_cipher.
#[local] Existing Instance Demo.list_codec.
#[local] Existing Instance Demo.one_key.
Import RegDemo.

Lemma exit_log_roundtrip_witness : parseLog (formatLog [1783944000000000000; 1783946400000000000]) =
  [1783944000000000000; 1783946400000000000].
Proof. apply exit_log_roundtrip. repeat constructor; unfold is_i64, minDuration, maxDuration; lia. Defined.

Definition idPath : bytes := str "/var/lib/pilot/identity.json".
Definition boot : gotime := t0.
(** The registry answered a minute before [now]; [dt] dials in a row have failed. *)
Definition wAt (now : gotime) (dt : Z) (log : option bytes) : Watched :=
  mkWatched (set_ident host0 (mkIdent 1001 (mkAddr 0 1001) [1] [] (UnixNano (now - Minute)))) dt log.
Definition tickAt st (now : gotime) log :=
  rxWatchdogTick renv rcfg idPath boot st (wAt now 4 log) now now 0 None None.
Definition logAfter (r : rxWatchdogAction * rxWatchdogState * Watched) : option bytes := exitLog (snd r).

(** Three soft recoveries, then the restart. *)
Definition st0 : rxWatchdogState := mkRx boot 0 0 0 true.
Definition r1 := tickAt st0 (boot + 40 * Minute) None.
Definition r2 := tickAt (snd (fst r1)) (boot + 41 * Minute) None.
Definition r3 := tickAt (snd (fst r2)) (boot + 42 * Minute) None.
Definition r4 := tickAt (snd (fst r3)) (boot + 43 * Minute) None.

Lemma restart_needs_every_guard_witness :
  fst (fst r4) = rxActionExit ∧ (3 ≤ 3)%nat ∧ wedged (snd (fst r4)) (wAt (boot + 43 * Minute) 4 None) (boot + 43 * Minute) 0.
Proof.
  split; [vm_compute; reflexivity|].
  destruct (restart_needs_every_guard renv rcfg idPath boot 3 (snd (fst r3)) (wAt (boot + 43 * Minute) 4 None)
    (boot + 43 * Minute) (boot + 43 * Minute) 0 None None (snd (fst r4)) (snd r4)) as (H1 & H2 & _); [| |by split].
  - apply (rr_tick renv rcfg idPath boot 2 (snd (fst r2)) (wAt (boot + 42 * Minute) 4 None) (boot + 42 * Minute)
      (boot + 42 * Minute) 0 None None rxActionSoftRecover _ (snd r3)); [|vm_compute; reflexivity].
    apply (rr_tick renv rcfg idPath boot 1 (snd (fst r1)) (wAt (boot + 41 * Minute) 4 None) (boot + 41 * Minute)
      (boot + 41 * Minute) 0 None None rxActionSoftRecover _ (snd r2)); [|vm_compute; reflexivity].
    apply (rr_tick renv rcfg idPath boot 0 st0 (wAt (boot + 40 * Minute) 4 None) (boot + 40 * Minute)
      (boot + 40 * Minute) 0 None None rxActionSoftRecover _ (snd r1)); [|vm_compute; reflexivity].
    constructor. cbn. lia.
  - vm_compute. reflexivity.
Defined.

(** Four restarts of a daemon whose path never heals. *)
Definition st3 : rxWatchdogState := mkRx boot 0 0 3 true.
Definition e1 := tickAt st3 (boot + 40 * Minute) None.
Definition e2 := tickAt st3 (boot + 80 * Minute) (logAfter e1).
Definition e3 := tickAt st3 (boot + 120 * Minute) (logAfter e2).
Definition e4 := tickAt st3 (boot + 161 * Minute) (logAfter e3).
Definition held := tickAt st3 (boot + 160 * Minute) (logAfter e3).

Lemma restart_loop_is_broken_witness :
  fst (fst held) = rxActionRestartLoop ∧ rxWedgeLoopWindow < (boot + 161 * Minute) - (boot + 40 * Minute).
Proof.
  split; [vm_compute; reflexivity|].
  assert (∀ t L w d log,
    rx_history renv rcfg idPath boot t L w → t <= boot + d → clock_ok (boot + d) → exitLog w = log →
    tickAt st3 (boot + d) log = (rxActionExit, st3, snd (tickAt st3 (boot + d) log)) →
    rx_history renv rcfg idPath boot (boot + d) (boot + d :: L) (snd (tickAt st3 (boot + d) log))) as Hstep.
  { intros t L w d log H Ht Hc Hlog E.
    apply (rx_tick renv rcfg idPath boot t L (wAt (boot + d) 4 log) st3 (boot + d) (boot + d) 0 None
      rxActionExit st3); [|done..]. by apply (rx_other renv rcfg idPath boot t t L w). }
  refine (restart_loop_is_broken renv rcfg idPath boot (boot + 161 * Minute)
    [boot + 161 * Minute; boot + 120 * Minute; boot + 80 * Minute; boot + 40 * Minute] (snd e4) 0 _ _ _ _ eq_refl eq_refl).
  - done.
  - eapply Hstep; [eapply Hstep; [eapply Hstep; [eapply Hstep; [apply (rx_start _ _ _ _ boot (wAt boot 4 None))|..]|..]|..]|..].
    all: try (vm_compute; reflexivity). all: unfold clock_ok, boot, t0, unixEpoch, Minute, Second, maxDuration; lia.
Defined.
End RxDemo.
