(* ===== verification/AddrWatch.v ===== *)
(** * The own-address watcher (pkg/daemon/addrwatch.go)

    Once a second the daemon samples the source address the kernel would use
    toward its beacon, reads the beacon's latest two replies about where it sees
    us, and when either shows a move re-announces itself to the beacon, the peers
    and the registry.

    The text of an IP address is a string for the local address (empty: none) and,
    for what the beacon reports, the canonical bytes of the address ([ipKey]), an
    option because the source uses the empty string for "none".  A beacon is
    named by host and port.  [src beacon] is the kernel's answer: an address, and
    whether there is a route.  [ord] is the order in which Go ranges over the
    set of peers. *)
From stdpp Require Import strings.
From S2P Require Import Prelude GoText Crypto KeyStore Protocol Envelope KeyExchange Routing Tunnel.
From S2P Require Import Registry RxWatchdog.
Open Scope Z_scope.

Definition Hour : duration := 60 * Minute.
Definition addrWatchPollInterval : duration := Second.
Definition addrRecoverCooldown : duration := 10 * Second.
Definition addrRecoverCooldownMax : duration := 2 * Minute.
Definition addrRecoverQuiet : duration := 10 * Minute.
Definition addrObservedCooldown : duration := Minute.
Definition addrObservedCooldownMax : duration := Hour.
Definition addrObservedQuiet : duration := 2 * addrObservedCooldownMax.
Definition addrObservedConfirmGap : duration := 30 * Second.
Definition addrRegistryRetryMax : Z := 3.
Definition addrAnnounceRetryDelays : list duration := [Second; 2 * Second].
Definition addrBeaconReregisterDelay : duration := 31 * Second.

Inductive addrReason := addrReasonLocal | addrReasonObserved | addrReasonRegistry.
#[export] Instance addrReason_eq_dec : EqDecision addrReason.
Proof. solve_decision. Defined.

Record addrBackoff := mkBackoff { last : gotime; streak : Z }.

Record addrWatchState := mkAddrWatch {
  beacon : option (bytes * Z); awBeaconAddr : option UDPAddr;
  local : bytes; announced : bytes;
  observed : option bytes; observedCurrent : option bytes;
  confirmAskedFor : gotime; lastConfirm : gotime;
  registryRetries : Z;
  lastRecover : gotime;
  localGap : addrBackoff; observedGap : addrBackoff; registryGap : addrBackoff;
}.
Definition newAddrWatch : addrWatchState :=
  mkAddrWatch None None [] [] None None 0 0 0 0 (mkBackoff 0 0) (mkBackoff 0 0) (mkBackoff 0 0).
Implicit Types st : addrWatchState.

Definition set_local st l a : addrWatchState :=
  mkAddrWatch (beacon st) (awBeaconAddr st) l a (observed st) (observedCurrent st) (confirmAskedFor st)
    (lastConfirm st) (registryRetries st) (lastRecover st) (localGap st) (observedGap st) (registryGap st).
Definition set_observed st o c : addrWatchState :=
  mkAddrWatch (beacon st) (awBeaconAddr st) (local st) (announced st) o c (confirmAskedFor st)
    (lastConfirm st) (registryRetries st) (lastRecover st) (localGap st) (observedGap st) (registryGap st).
Definition set_confirm st a l : addrWatchState :=
  mkAddrWatch (beacon st) (awBeaconAddr st) (local st) (announced st) (observed st) (observedCurrent st) a l
    (registryRetries st) (lastRecover st) (localGap st) (observedGap st) (registryGap st).
Definition set_beacon st b u : addrWatchState :=
  mkAddrWatch b u (local st) (announced st) (observed st) (observedCurrent st) (confirmAskedFor st)
    (lastConfirm st) (registryRetries st) (lastRecover st) (localGap st) (observedGap st) (registryGap st).
Definition set_retries st r : addrWatchState :=
  mkAddrWatch (beacon st) (awBeaconAddr st) (local st) (announced st) (observed st) (observedCurrent st)
    (confirmAskedFor st) (lastConfirm st) r (lastRecover st) (localGap st) (observedGap st) (registryGap st).
Definition set_gaps st t l o r : addrWatchState :=
  mkAddrWatch (beacon st) (awBeaconAddr st) (local st) (announced st) (observed st) (observedCurrent st)
    (confirmAskedFor st) (lastConfirm st) (registryRetries st) t l o r.

(** [UDPAddr.String] *)
Definition addrKey (a : UDPAddr) : bytes * Z := (ipKey (IP a), Port a).

(** ** The decisions *)

Definition noteBeacon st (b : option (bytes * Z)) : addrWatchState :=
  if bool_decide (b = beacon st) then st
  else
    let st := set_beacon st b (awBeaconAddr st) in
    let st := if bool_decide (local st = announced st) then set_local st [] [] else st in
    set_confirm (set_observed st None None) zero_time zero_time.

Definition noteLocal st (sample : bytes * bool) : addrWatchState :=
  let '(addr, ok) := sample in
  if negb ok || bool_decide (addr = []) then st
  else set_local st addr (if bool_decide (announced st = []) then addr else announced st).

Definition fromBeacon st (o : beaconObservation) : bool :=
  bool_decide (Some (addrKey (obsBeacon o)) = beacon st).

Definition noteObserved st (latest prev : option beaconObservation) : addrWatchState :=
  match latest, prev with
  | Some l, Some p =>
      if fromBeacon st l && fromBeacon st p && IPEqual (IP (endpoint l)) (IP (endpoint p)) then
        let ip := Some (ipKey (IP (endpoint l))) in
        set_observed st (match observed st with None => ip | Some _ => observed st end) ip
      else st
  | _, _ => st
  end.

Definition recentlyAt (t now : gotime) (d : duration) : bool :=
  if IsZero t then false
  else let since := time_sub now t in (0 <=? since) && (since <? d).

Definition wantConfirm st (latest : option beaconObservation) (now : gotime) : bool * addrWatchState :=
  match latest with
  | None => (false, st)
  | Some l =>
      if negb (fromBeacon st l) || bool_decide (Some (ipKey (IP (endpoint l))) = observedCurrent st)
         || (obsAt l =? confirmAskedFor st) then (false, st)
      else if recentlyAt (lastConfirm st) now addrObservedConfirmGap then (false, st)
      else (true, set_confirm st (obsAt l) now)
  end.

Definition pending st : option addrReason :=
  if negb (bool_decide (local st = announced st)) then Some addrReasonLocal
  else if negb (bool_decide (observed st = None)) && negb (bool_decide (observedCurrent st = observed st))
  then Some addrReasonObserved
  else if 0 <? registryRetries st then Some addrReasonRegistry
  else None.

(** First gap, cap, quiet period. *)
Definition addrGapParams (r : addrReason) : duration * duration * duration :=
  match r with
  | addrReasonObserved => (addrObservedCooldown, addrObservedCooldownMax, addrObservedQuiet)
  | _ => (addrRecoverCooldown, addrRecoverCooldownMax, addrRecoverQuiet)
  end.
Definition gapFor st (r : addrReason) : addrBackoff :=
  match r with
  | addrReasonObserved => observedGap st
  | addrReasonRegistry => registryGap st
  | addrReasonLocal => localGap st
  end.

(** [for i := 1; i < streak && gap < max; i++ { gap *= 2 }]; [k] is [streak - 1]. *)
Fixpoint doubleGap (k : nat) (gap max : duration) : duration :=
  match k with
  | O => gap
  | S k => if gap <? max then doubleGap k (gap * 2) max else gap
  end.
Definition cooldown st (r : addrReason) : duration :=
  let '(base, max, _) := addrGapParams r in
  Z.min (doubleGap (Z.to_nat (streak (gapFor st r) - 1)) base max) max.

Definition due st (now : gotime) : option addrReason :=
  match pending st with
  | None => None
  | Some r =>
      if recentlyAt (lastRecover st) now addrRecoverCooldown then None
      else if recentlyAt (last (gapFor st r)) now (cooldown st r) then None
      else Some r
  end.

(** The addresses the move goes from and to, and the state. *)
Definition bumped st (now : gotime) (r : addrReason) : addrBackoff :=
  let b := gapFor st r in
  let quiet := snd (addrGapParams r) in
  let s := if negb (IsZero (last b)) && (quiet <=? time_sub now (last b)) then 0 else streak b in
  mkBackoff now (s + 1).

Definition began st (now : gotime) (r : addrReason) : (option bytes * option bytes) * addrWatchState :=
  let b := bumped st now r in
  let st := match r with
            | addrReasonLocal => set_gaps st now b (observedGap st) (registryGap st)
            | addrReasonObserved => set_gaps st now (localGap st) b (registryGap st)
            | addrReasonRegistry => set_gaps st now (localGap st) (observedGap st) b
            end in
  let move := match r with
              | addrReasonObserved => (observed st, observedCurrent st)
              | _ => (Some (announced st), Some (local st))
              end in
  let st := match r with addrReasonObserved => set_observed st (observedCurrent st) (observedCurrent st) | _ => st end in
  let st := set_local st (local st) (local st) in
  let st := match r with addrReasonLocal => set_observed st None None | _ => st end in
  (move,
   match r with
   | addrReasonRegistry => set_retries st (registryRetries st - 1)
   | _ => set_gaps (set_retries st 0) (lastRecover st) (localGap st) (observedGap st) (mkBackoff now 1)
   end).

Definition finished st (r : addrReason) (registryOK : bool) : addrWatchState :=
  if registryOK then set_retries st 0
  else match r with addrReasonRegistry => st | _ => set_retries st addrRegistryRetryMax end.

Section AddrWatch.
Context {P : Protocol} {W : PacketCodec} {K : Type} {C : Cipher K} {X : Primitives K}.
Context (env : RegEnv) (cfg : RegConfig) (compat : bool) (collectLANAddrs : bytes → list bytes)
  (ord : gset Z → list Z).
Implicit Types h : Host (K := K) (X := X).

(** ** The recovery *)

(** The peers still to be told: with [since], those that have not sent us a direct
    frame after it. *)
Definition awaited (t : TunnelManager (K := K) (X := X)) (since : gotime) (id : Z) : bool :=
  IsZero since || negb (since <? default zero_time (lastDirectRecv (routing t) !! id)).

Fixpoint sendProbes (t : TunnelManager (K := K) (X := X)) (now since : gotime) (ids : list Z) (sent : Z)
  : Z * TunnelManager :=
  match ids with
  | [] => (sent, t)
  | id :: ids =>
      if awaited t since id then
        let '(err, t) := SendDirectPathProbe t now id in
        sendProbes t now since ids (match err with None => sent + 1 | Some _ => sent end)
      else sendProbes t now since ids sent
  end.
Definition announceToPeers h (now since : gotime) : Z * Host :=
  if rcRelayOnly cfg then (0, h)
  else let '(sent, t) := sendProbes (tun h) now since (ord (ReadyPeerIDs (tun h))) 0 in (sent, set_tun h t).

Definition refreshLANAddrs h : Host :=
  if compat then h
  else match localAddr env with
  | None => h
  | Some la =>
      match SplitHostPort la with
      | None => h
      | Some (_, port) =>
          if bool_decide (port = []) || bool_decide (port = str "0") then h
          else
            let i := ident h in
            set_ident h (mkIdent (nodeID i) (nodeAddr i) (pubKeyB64 i) (collectLANAddrs port) (lastRegistryOKNano i))
      end
  end.

(** The synchronous part of the recovery: how many peers were told, whether the
    registry accepted.  The repeats run later ([addrAnnounceFollowUp]). *)
Definition recoverFromAddrChange h (now fin : gotime) (tp : option (list Z)) (announce : bool)
  : Z * bool * Host :=
  let '(notified, h) :=
    if announce then announceToPeers (registerBeacon h now) now zero_time else (0, h) in
  let h := refreshLANAddrs h in
  let '(ok, h) := reestablishTransport env cfg h now fin tp (mkReestablishOpts true true true) in
  (notified, ok, h).

(** The rounds of the follow-up, one after each delay, starting at [now]: [false]
    when the daemon stopped during a wait.  [meanwhile t] is what the rest of the
    daemon did up to [t]. *)
Fixpoint followUpRounds h (started now : gotime) (delays : list duration) (meanwhile : gotime → Host → Host)
  : bool * Host :=
  match delays with
  | [] => (true, h)
  | wait :: delays =>
      let now := now + wait in
      let '(s, h) := stopping env (meanwhile now h) in
      if s then (false, h)
      else
        let '(sent, h) := announceToPeers h now started in
        if sent =? 0 then (true, h) else followUpRounds h started now delays meanwhile
  end.

(** Then the beacon once more, [addrBeaconReregisterDelay] after the start. *)
Definition addrAnnounceFollowUp h (started : gotime) (meanwhile : gotime → Host → Host) : Host :=
  let '(ok, h) := followUpRounds h started started addrAnnounceRetryDelays meanwhile in
  if negb ok then h
  else
    let now := started + addrBeaconReregisterDelay in
    let '(s, h) := stopping env (meanwhile now h) in
    if s then h else registerBeacon h now.

(** ** The tick *)

(** Everything up to the decision: the state after this tick's samples, the host
    (a confirming discover may have gone out) and whether there is a route. *)
Definition sampled st h (src : option UDPAddr → bytes * bool) (now : gotime) : addrWatchState * Host * bool :=
  let b := beaconAddr (routing (tun h)) in
  let key := addrKey <$> b in
  let st :=
    if bool_decide (key = beacon st) then st
    else
      let st := if bool_decide (announced st = []) then st else noteLocal st (src (awBeaconAddr st)) in
      let st := noteBeacon st key in
      set_beacon st (beacon st) b in
  let sample := src b in
  let ok := snd sample in
  let st := noteLocal st sample in
  let o := obs (tun h) in
  let st := noteObserved st (obsLatest o) (obsPrev o) in
  let '(want, st) := if ok then wantConfirm st (obsLatest o) now else (false, st) in
  (st, if want then registerBeacon h now else h, ok).

(** [fired] with its reason, or [None]. *)
Definition addrWatchTick st h (src : option UDPAddr → bytes * bool) (now fin : gotime) (tp : option (list Z))
  : option addrReason * addrWatchState * Host :=
  let '(st, h, ok) := sampled st h src now in
  match due st now with
  | None => (None, st, h)
  | Some r =>
      if negb ok then (None, st, h)
      else
        let '(_, st) := began st now r in
        let h := match r with addrReasonLocal => set_tun h (forgetObservedEndpoints (tun h)) | _ => h end in
        let '(_, registryOK, h) :=
          recoverFromAddrChange h now fin tp (negb (bool_decide (r = addrReasonRegistry))) in
        (Some r, finished st r registryOK, h)
  end.
End AddrWatch.
