(* ===== verification/AddrWatchProofs.v ===== *)
(** * Theorems about the own-address watcher ([AddrWatch])

    Recoveries are spaced, and those of one input ever further apart while it
    keeps changing; a change of address is announced as soon as there is a route
    and at most two minutes after the previous recovery, and is not lost before;
    a single reply from the beacon never counts as a move; the registry is
    retried three times per move at most. *)
From stdpp Require Import strings.
From S2P Require Import Prelude GoText Crypto KeyStore Protocol Envelope KeyExchange Routing Tunnel.
From S2P Require Import TunnelTheorems Registry RegistryProofs RxWatchdog AddrWatch.
Open Scope Z_scope.
Implicit Types st : addrWatchState.

(** ** What the samples leave alone *)

(** The recovery history is only written by [began] and [finished]. *)
Definition same_history st st' : Prop :=
  lastRecover st' = lastRecover st ∧ localGap st' = localGap st ∧ observedGap st' = observedGap st ∧
  registryGap st' = registryGap st ∧ registryRetries st' = registryRetries st.
#[local] Instance same_history_preorder : PreOrder same_history.
Proof. split; [done|]. intros a b c (?&?&?&?&?) (?&?&?&?&?). split_and!; congruence. Qed.

Lemma noteBeacon_history st b : same_history st (noteBeacon st b).
Proof. unfold noteBeacon. do 2 (case_bool_decide; try done). Qed.
Lemma noteLocal_history st s : same_history st (noteLocal st s).
Proof. unfold noteLocal. destruct s. by destruct (_ || _). Qed.
Lemma noteObserved_history st l p : same_history st (noteObserved st l p).
Proof. unfold noteObserved. destruct l, p; try done. by destruct (_ && _). Qed.
Lemma wantConfirm_history st l now : same_history st (snd (wantConfirm st l now)).
Proof. unfold wantConfirm. destruct l; [|done]. destruct (_ || _); [done|]. by destruct (recentlyAt _ _ _). Qed.

Lemma gapFor_history st st' r : same_history st st' → gapFor st' r = gapFor st r.
Proof. intros (?&?&?&?&?). by destruct r. Qed.

(** ** The gap *)

Lemma doubleGap_spec k : ∀ gap max, 0 < gap <= max →
  Z.min (doubleGap k gap max) max = Z.min (gap * 2 ^ Z.of_nat k) max.
Proof.
  induction k as [|k IH]; intros gap max Hg; cbn [doubleGap]; [f_equal; lia|].
  rewrite Nat2Z.inj_succ, Z.pow_succ_r by lia. pose proof (Z.pow_pos_nonneg 2 (Z.of_nat k)).
  destruct (gap <? max) eqn:E; zbool; [|nia].
  destruct (decide (gap * 2 <= max)); [rewrite IH by lia; f_equal; lia|].
  assert (∀ j g, max <= g → 0 < g → max <= doubleGap j g max) as Hmono.
  { induction j as [|j IHj]; intros g Hm Hp; cbn; [done|]. destruct (g <? max) eqn:E'; zbool; [lia|done]. }
  specialize (Hmono k (gap * 2) ltac:(lia) ltac:(lia)). nia.
Qed.

(** After [k] recoveries in a row the gap is the first gap doubled [k - 1] times,
    up to the cap. *)
Lemma cooldown_spec st r k :
  streak (gapFor st r) = Z.of_nat (S k) →
  cooldown st r = Z.min (fst (fst (addrGapParams r)) * 2 ^ Z.of_nat k) (snd (fst (addrGapParams r))).
Proof.
  intros Hs. unfold cooldown. rewrite Hs. replace (Z.to_nat (Z.of_nat (S k) - 1)) with k by lia.
  destruct r; apply doubleGap_spec; vm_compute; split; congruence.
Qed.

Lemma cooldown_range st r :
  fst (fst (addrGapParams r)) <= cooldown st r <= snd (fst (addrGapParams r)).
Proof.
  unfold cooldown. destruct (addrGapParams r) as [[base max] q] eqn:E.
  assert (0 < base <= max) as Hb by (destruct r; injection E as <- <- <-; vm_compute; split; congruence).
  rewrite doubleGap_spec by done. pose proof (Z.pow_pos_nonneg 2 (Z.of_nat (Z.to_nat (streak (gapFor st r) - 1)))).
  cbn. nia.
Qed.

Lemma recentlyAt_false t now d :
  clock_ok t → clock_ok now → t <= now → recentlyAt t now d = false → d <= now - t.
Proof.
  intros Ht Hn Hle. unfold recentlyAt. rewrite clock_nonzero, clock_sub by done. intros. zbool. lia.
Qed.
Lemma recentlyAt_old t now d :
  clock_ok now → t = zero_time ∨ clock_ok t → t + d <= now → recentlyAt t now d = false.
Proof.
  intros Hn [->|Ht] Hd; [done|]. unfold recentlyAt. rewrite clock_nonzero, clock_sub by done.
  apply andb_false_iff. right. lia.
Qed.

Section AddrProofs.
Context {P : Protocol} {W : PacketCodec} {K : Type} {C : Cipher K} {X : Primitives K}.
Context (env : RegEnv) (cfg : RegConfig) (compat : bool) (lan : bytes → list bytes) (ord : gset Z → list Z).
Implicit Types h : Host (K := K) (X := X).
Let tick := addrWatchTick (P := P) (X := X) env cfg compat lan ord.

Lemma sampled_history st h src now : same_history st (fst (fst (sampled st h src now))).
Proof.
  unfold sampled. cbv zeta. set (b := beaconAddr _).
  set (s1 := if bool_decide _ then st else _).
  assert (same_history st s1) as H1.
  { unfold s1. case_bool_decide; [done|]. etrans; [|eapply noteBeacon_history].
    case_bool_decide; [done|apply noteLocal_history]. }
  set (s2 := noteObserved _ _ _).
  assert (same_history st s2) as H2.
  { etrans; [exact H1|]. etrans; [apply noteLocal_history|apply noteObserved_history]. }
  destruct (snd (src b)); [|exact H2]. pose proof (wantConfirm_history s2 (obsLatest (obs (tun h))) now) as H3.
  destruct (wantConfirm s2 _ now). etrans; [exact H2|exact H3].
Qed.

(** A tick in terms of its decision. *)
Lemma addrTick_spec st h src now fin tp fired st' h' :
  tick st h src now fin tp = (fired, st', h') →
  ∃ s1 h1 ok, sampled st h src now = (s1, h1, ok) ∧ same_history st s1 ∧
  match fired with
  | None => st' = s1 ∧ h' = h1 ∧ (ok = true → due s1 now = None)
  | Some r => due s1 now = Some r ∧ ok = true ∧ ∃ regOK n h2,
      h2 = match r with addrReasonLocal => set_tun h1 (forgetObservedEndpoints (tun h1)) | _ => h1 end ∧
      recoverFromAddrChange env cfg compat lan ord h2 now fin tp (negb (bool_decide (r = addrReasonRegistry)))
        = (n, regOK, h') ∧
      st' = finished (snd (began s1 now r)) r regOK
  end.
Proof.
  unfold tick, addrWatchTick. pose proof (sampled_history st h src now) as Hh.
  destruct (sampled st h src now) as [[s1 h1] ok]. cbn in Hh. intros E. exists s1, h1, ok.
  split; [done|]. split; [done|]. destruct (due s1 now) as [r|] eqn:Hd; [|injection E as <- <- <-; by split_and!].
  destruct ok; cbn [negb] in E; [|injection E as <- <- <-; split_and!; [done..|discriminate]].
  destruct (began s1 now r) as [mv s2] eqn:Hb.
  destruct (recoverFromAddrChange _ _ _ _ _ _ _ _ _ _) as [[n regOK] h3] eqn:Hr. injection E as <- <- <-.
  split_and!; [done..|]. exists regOK, n. eexists. split_and!; [reflexivity|exact Hr|by rewrite ?Hb].
Qed.

(** ** Histories of recoveries *)

(** Ticks of one watcher on a clock that does not go back, with whatever the rest
    of the daemon did to the host in between.  [F] are the recoveries that ran,
    newest first. *)
Inductive addr_run : gotime → list (gotime * addrReason) → addrWatchState → Prop :=
| ar_start t : addr_run t [] newAddrWatch
| ar_tick t F st h src now fin tp fired st' h' :
    addr_run t F st → t <= now → clock_ok now → tick st h src now fin tp = (fired, st', h') →
    addr_run now (match fired with Some r => (now, r) :: F | None => F end) st'.

(** The times of the recoveries of one input. *)
Definition times (r : addrReason) (F : list (gotime * addrReason)) : list gotime :=
  omap (λ e, if bool_decide (e.2 = r) then Some e.1 else None) F.

Lemma times_cons r a q F :
  times r ((a, q) :: F) = if bool_decide (q = r) then a :: times r F else times r F.
Proof. unfold times. cbn. by destruct (bool_decide (q = r)). Qed.
#[local] Arguments times : simpl never.

(** How many recoveries in a row, newest first, follow each other within [quiet]. *)
Fixpoint in_a_row (quiet : duration) (l : list gotime) : nat :=
  match l with
  | [] => 0
  | a :: l => match l with
              | b :: _ => if quiet <=? a - b then 1 else S (in_a_row quiet l)
              | [] => 1
              end
  end.
Definition quietOf (r : addrReason) : duration := snd (addrGapParams r).
Definition headTime (l : list gotime) : gotime := default zero_time (head l).

Record addr_inv (t : gotime) (F : list (gotime * addrReason)) st : Prop := {
  ai_last : lastRecover st = headTime (F.*1);
  ai_clock : ∀ a r, (a, r) ∈ F → clock_ok a ∧ a <= t;
  ai_gap : ∀ r, r ≠ addrReasonRegistry → last (gapFor st r) = headTime (times r F);
  ai_streak : ∀ r, r ≠ addrReasonRegistry → streak (gapFor st r) = Z.of_nat (in_a_row (quietOf r) (times r F));
}.

Lemma times_clock r F t a : (∀ b q, (b, q) ∈ F → clock_ok b ∧ b <= t) → a ∈ times r F → clock_ok a ∧ a <= t.
Proof.
  intros H ([b q] & Hin & Hb)%list_elem_of_omap. cbn in Hb. case_bool_decide; [|done]. injection Hb as <-. eauto.
Qed.

Lemma finished_history st r b :
  lastRecover (finished st r b) = lastRecover st ∧ ∀ q, gapFor (finished st r b) q = gapFor st q.
Proof. unfold finished. destruct b; [|destruct r]; (split; [done|by intros []]). Qed.

Lemma began_history st now r :
  lastRecover (snd (began st now r)) = now ∧
  (∀ q, q ≠ addrReasonRegistry → gapFor (snd (began st now r)) q = if bool_decide (q = r) then bumped st now r else gapFor st q).
Proof. destruct r; cbn; (split; [done|]); intros []; done. Qed.

Lemma in_a_row_bump quiet a l :
  Z.of_nat (in_a_row quiet (a :: l)) =
  (if match l with [] => false | b :: _ => quiet <=? a - b end then 0 else Z.of_nat (in_a_row quiet l)) + 1.
Proof.
  destruct l as [|b l]; [done|]. cbn [in_a_row]. destruct (quiet <=? a - b); [done|].
  rewrite Nat2Z.inj_succ. cbn [in_a_row]. lia.
Qed.

Lemma addr_inv_fire t F st s1 now r b :
  addr_inv t F st → same_history st s1 → t <= now → clock_ok now →
  addr_inv now ((now, r) :: F) (finished (snd (began s1 now r)) r b).
Proof.
  intros [Hl Hc Hg Hs] Hh Ht Hn. destruct (finished_history (snd (began s1 now r)) r b) as [El Eg].
  destruct (began_history s1 now r) as [Bl Bg]. split.
  - rewrite El, Bl. done.
  - intros a q [[= -> ->]|Ha]%elem_of_cons; [done|]. destruct (Hc a q Ha). split; [done|lia].
  - intros q Hq. rewrite Eg, Bg, times_cons by done. destruct (decide (q = r)) as [->|Hne].
    + rewrite !bool_decide_true by done. done.
    + rewrite !bool_decide_false by congruence. rewrite (gapFor_history st s1) by done. by apply Hg.
  - intros q Hq. rewrite Eg, Bg, times_cons by done. destruct (decide (q = r)) as [->|Hne].
    + rewrite !bool_decide_true by done. rewrite in_a_row_bump. unfold bumped. cbn.
      rewrite (gapFor_history st s1), Hg, Hs by done. f_equal. unfold quietOf.
      destruct (times r F) as [|x l] eqn:E; cbn; [done|].
      assert (clock_ok x) by (apply (times_clock r F t x); [done|rewrite E; set_solver]).
      by rewrite clock_nonzero, clock_sub by done.
    + rewrite !bool_decide_false by congruence. rewrite (gapFor_history st s1) by done. by apply Hs.
Qed.

Lemma addr_run_inv t F st : addr_run t F st → addr_inv t F st.
Proof.
  induction 1 as [t|t F st h src now fin tp fired st' h' _ IH Ht Hc E].
  - split; [done|intros a r Ha; by apply not_elem_of_nil in Ha|by intros []|by intros []].
  - apply addrTick_spec in E as (s1 & h1 & ok & _ & Hh & H). destruct fired as [r|].
    + destruct H as (_ & _ & regOK & n & h2 & _ & _ & ->). by eapply addr_inv_fire.
    + destruct H as (-> & _). destruct IH as [Hl Hcl Hg Hs]. destruct Hh as (Elr & Hgaps). split.
      * by rewrite Elr.
      * intros a r Ha. destruct (Hcl a r Ha). split; [done|lia].
      * intros r Hr. rewrite <- Hg by done. by rewrite (gapFor_history st s1).
      * intros r Hr. rewrite <- Hs by done. by rewrite (gapFor_history st s1).
Qed.

Lemma due_spec st now r :
  due st now = Some r → pending st = Some r ∧ recentlyAt (lastRecover st) now addrRecoverCooldown = false ∧
  recentlyAt (last (gapFor st r)) now (cooldown st r) = false.
Proof.
  unfold due. destruct (pending st) as [q|]; [|done]. destruct (recentlyAt (lastRecover st) _ _) eqn:E1; [done|].
  destruct (recentlyAt (last (gapFor st q)) _ _) eqn:E2; [done|]. by intros [= <-].
Qed.

Lemma cooldown_history st st' r : same_history st st' → cooldown st' r = cooldown st r.
Proof. intros H. unfold cooldown. by rewrite (gapFor_history st st'). Qed.

(** A recovery that fires keeps the distances. *)
Lemma fire_distance t F st s1 now r :
  addr_inv t F st → same_history st s1 → t <= now → clock_ok now → due s1 now = Some r →
  (∀ b q F', F = (b, q) :: F' → addrRecoverCooldown <= now - b) ∧
  (r ≠ addrReasonRegistry → ∀ b l, times r F = b :: l → cooldown st r <= now - b).
Proof.
  intros [Hl Hc Hg Hs] Hh Ht Hn (_ & H1 & H2)%due_spec. split.
  - intros b q F' ->. rewrite (proj1 Hh), Hl in H1. cbn in H1.
    destruct (Hc b q ltac:(set_solver)). apply recentlyAt_false in H1; try done. lia.
  - intros Hr b l E. rewrite (gapFor_history st s1), Hg, (cooldown_history st s1), E in H2 by done. cbn in H2.
    destruct (times_clock r F t b Hc ltac:(rewrite E; set_solver)). apply recentlyAt_false in H2; try done. lia.
Qed.

(** Any two recoveries are at least ten seconds apart, and of one input (the local
    address, or the address the beacon sees) the gap after [k] in a row is the
    first gap doubled [k - 1] times up to the cap: 10 s to 2 min, 1 min to 1 h. *)
Theorem recoveries_back_off t F st :
  addr_run t F st →
  (∀ pre a p b q post, F = pre ++ (a, p) :: (b, q) :: post → addrRecoverCooldown <= a - b) ∧
  (∀ r pre a b post, r ≠ addrReasonRegistry → times r F = pre ++ a :: b :: post →
     Z.min (fst (fst (addrGapParams r)) * 2 ^ (Z.of_nat (in_a_row (quietOf r) (b :: post)) - 1))
       (snd (fst (addrGapParams r))) <= a - b).
Proof.
  induction 1 as [t|t F st h src now fin tp fired st' h' Hrun IH Ht Hc E].
  { split; [intros [] ? ? ? ? ? ?; done|intros r [] a b post Hr; done]. }
  apply addrTick_spec in E as (s1 & h1 & ok & _ & Hh & H). destruct fired as [r|]; [|exact IH].
  destruct H as (Hd & _). apply addr_run_inv in Hrun as Hinv.
  destruct (fire_distance t F st s1 now r Hinv Hh Ht Hc Hd) as [D1 D2]. destruct IH as [IH1 IH2]. split.
  - intros [|e pre] a p b q post Eq; [|injection Eq as _ Eq; by eapply IH1].
    injection Eq as <- <- Eq. by eapply D1.
  - intros r' pre a b post Hr' Eq. rewrite times_cons in Eq. destruct (decide (r = r')) as [->|];
      [rewrite bool_decide_true in Eq by done|rewrite bool_decide_false in Eq by done; by eapply IH2].
    destruct pre as [|e pre]; [|injection Eq as _ Eq; by eapply IH2]. injection Eq as <- Eq.
    specialize (D2 Hr' b post Eq). destruct Hinv as [_ _ _ Hs]. specialize (Hs r' Hr'). rewrite Eq in Hs.
    assert (∃ k, in_a_row (quietOf r') (b :: post) = S k) as [k Hk].
    { cbn. destruct post; [by exists O|]. destruct (_ <=? _); eauto. }
    rewrite Hk in *. rewrite (cooldown_spec st r' k) in D2 by done.
    replace (Z.of_nat (S k) - 1) with (Z.of_nat k) by lia. done.
Qed.

(** ** No change is lost *)

(** A local change that is waiting stays waiting, or is announced, unless the
    address goes back. *)
Lemma noteLocal_route st addr :
  addr ≠ [] → local (noteLocal st (addr, true)) = addr ∧
  announced (noteLocal st (addr, true)) = (if bool_decide (announced st = []) then addr else announced st).
Proof. intros H. unfold noteLocal. cbn. by rewrite (bool_decide_false (addr = [])). Qed.

Lemma sampled_local st h src now s1 h1 ok addr :
  sampled st h src now = (s1, h1, ok) →
  src (beaconAddr (routing (tun h))) = (addr, true) → addr ≠ [] →
  ok = true ∧ local s1 = addr ∧
  (announced st ≠ [] → (addrKey <$> beaconAddr (routing (tun h)) = beacon st ∨
     local st ≠ announced st ∧ snd (src (awBeaconAddr st)) = false) → announced s1 = announced st).
Proof.
  unfold sampled. cbv zeta. intros E Hsrc Ha. rewrite Hsrc in E. cbn [snd] in E.
  set (s0 := if bool_decide _ then st else _) in E. set (s2 := noteLocal s0 (addr, true)) in E.
  set (s3 := noteObserved s2 _ _) in E.
  assert (local s3 = local s2 ∧ announced s3 = announced s2) as [L3 A3].
  { unfold s3, noteObserved. destruct (obsLatest _), (obsPrev _); try done. by destruct (_ && _). }
  destruct (wantConfirm s3 _ now) as [want s4] eqn:Ew. injection E as <- <- <-.
  assert (local s4 = local s3 ∧ announced s4 = announced s3) as [L4 A4].
  { revert Ew. unfold wantConfirm. destruct (obsLatest _); [|by intros [= <- <-]].
    destruct (_ || _); [by intros [= <- <-]|]. destruct (recentlyAt _ _ _); by intros [= <- <-]. }
  destruct (noteLocal_route s0 addr Ha) as [L2 A2]. split_and!; [done|by rewrite L4, L3|].
  intros Hann Hcase. rewrite A4, A3. unfold s2. rewrite A2.
  assert (announced s0 = announced st) as Hs0; [|by rewrite Hs0, bool_decide_false].
  unfold s0. destruct (decide (addrKey <$> beaconAddr (routing (tun h)) = beacon st)) as [Hb|Hb];
    [by rewrite (bool_decide_true _ Hb)|rewrite (bool_decide_false _ Hb)].
  destruct Hcase as [?|[Hne Hoff]]; [done|]. rewrite (bool_decide_false (announced st = [])) by done. destruct (src (awBeaconAddr st)) as [x y]. cbn in Hoff. subst y. cbn.
  unfold noteBeacon. rewrite (bool_decide_false _ Hb). cbn.
  by rewrite (bool_decide_false (local st = announced st)) by done.
Qed.

(** C33. A change of the address in use is announced.  When the route to the beacon
    now gives a non-empty address that differs from the one announced before, two
    minutes have passed since the last recovery of that kind and ten seconds since
    any, then the tick announces it, and afterwards the address announced is the
    one in use.  The beacon must be the same as at the last tick, or a change must
    already be waiting while the route to the previous beacon is down: after any
    other switch of beacon the code starts a new baseline and announces nothing,
    by design. *)
Theorem change_is_announced t F st h src now fin tp fired st' h' addr :
  addr_run t F st → t <= now → clock_ok now →
  src (beaconAddr (routing (tun h))) = (addr, true) → addr ≠ [] → announced st ≠ [] → addr ≠ announced st →
  (addrKey <$> beaconAddr (routing (tun h)) = beacon st ∨
   local st ≠ announced st ∧ snd (src (awBeaconAddr st)) = false) →
  (∀ a r, (a, r) ∈ F → a + addrRecoverCooldown <= now) →
  (∀ a, a ∈ times addrReasonLocal F → a + addrRecoverCooldownMax <= now) →
  tick st h src now fin tp = (fired, st', h') →
  fired = Some addrReasonLocal ∧ announced st' = addr ∧ local st' = addr.
Proof.
  intros Hrun Ht Hc Hsrc Haddr Hann Hne Hb Hold Hold' E. apply addr_run_inv in Hrun as [Hl Hcl Hg Hs].
  apply addrTick_spec in E as (s1 & h1 & ok & Es & Hh & H).
  destruct (sampled_local _ _ _ _ _ _ _ _ Es Hsrc Haddr) as (-> & L1 & A1). specialize (A1 Hann Hb).
  assert (due s1 now = Some addrReasonLocal) as Hd.
  { unfold due, pending. rewrite L1, A1, bool_decide_false by done. cbn [negb].
    rewrite (recentlyAt_old (lastRecover s1) now addrRecoverCooldown); [|done|..].
    - rewrite (recentlyAt_old (last _) now); [done|done|..].
      + rewrite (gapFor_history st s1), Hg by done. destruct (times addrReasonLocal F) as [|b l] eqn:Et; [by left|].
        right. eapply times_clock; [exact Hcl|]. rewrite Et. set_solver.
      + pose proof (cooldown_range s1 addrReasonLocal) as Hr. cbn in Hr.
        rewrite (gapFor_history st s1), Hg by done. destruct (times addrReasonLocal F) as [|b l] eqn:Et; cbn.
        * unfold clock_ok, unixEpoch, zero_time, addrRecoverCooldownMax, Minute, Second in *. lia.
        * specialize (Hold' b ltac:(set_solver)). lia.
    - rewrite (proj1 Hh), Hl. destruct F as [|[b q] F]; [by left|]. right. by apply (Hcl b q), list_elem_of_here.
    - rewrite (proj1 Hh), Hl. destruct F as [|[b q] F]; cbn.
      + unfold clock_ok, unixEpoch, zero_time, addrRecoverCooldown, Second in *. lia.
      + apply (Hold b q). apply list_elem_of_here. }
  destruct fired as [r|]; [|destruct H as (_ & _ & H); by rewrite H in Hd].
  destruct H as (Hd' & _ & regOK & n & h2 & _ & _ & ->). rewrite Hd in Hd'. injection Hd' as <-.
  split; [done|]. unfold finished. by destruct regOK.
Qed.

(** A tick that announces nothing keeps the waiting change (same beacon). *)
Lemma waiting_change_kept st h src now fin tp st' h' :
  announced st ≠ [] → addrKey <$> beaconAddr (routing (tun h)) = beacon st →
  tick st h src now fin tp = (None, st', h') → announced st' = announced st.
Proof.
  intros Hann Hb (s1 & h1 & ok & Es & _ & -> & _)%addrTick_spec. revert Es. unfold sampled. cbv zeta.
  rewrite (bool_decide_true _ Hb). set (s2 := noteLocal st _). set (s3 := noteObserved s2 _ _).
  assert (announced s3 = announced st) as H3.
  { transitivity (announced s2).
    - unfold s3, noteObserved. destruct (obsLatest _), (obsPrev _); try done. by destruct (_ && _).
    - unfold s2, noteLocal. destruct (src _) as [x []]; cbn; [|done]. case_bool_decide; cbn; [done|].
      by rewrite (bool_decide_false (announced st = [])). }
  destruct (snd _); [|by intros [= <- _ _]]. unfold wantConfirm. destruct (obsLatest _); [|by intros [= <- _ _]].
  destruct (_ || _); [by intros [= <- _ _]|]. destruct (recentlyAt _ _ _); by intros [= <- _ _].
Qed.

(** ** What the beacon says *)

(** The two latest replies in [h] come from beacon [b] and agree on [ip]. *)
Definition agreed h (b : option (bytes * Z)) (ip : bytes) : Prop :=
  ∃ l p, obsLatest (obs (tun h)) = Some l ∧ obsPrev (obs (tun h)) = Some p ∧
    Some (addrKey (obsBeacon l)) = b ∧ Some (addrKey (obsBeacon p)) = b ∧
    IPEqual (IP (endpoint l)) (IP (endpoint p)) = true ∧ ipKey (IP (endpoint l)) = ip.

(** [hs]: the hosts the watcher's ticks have seen. *)
Inductive addr_seen : list (Host (K := K) (X := X)) → addrWatchState → Prop :=
| as_start : addr_seen [] newAddrWatch
| as_tick hs st h src now fin tp fired st' h' :
    addr_seen hs st → tick st h src now fin tp = (fired, st', h') → addr_seen (h :: hs) st'.

Definition vouched (hs : list (Host (K := K) (X := X))) st : Prop :=
  (∀ ip, observed st = Some ip ∨ observedCurrent st = Some ip → ∃ h, h ∈ hs ∧ agreed h (beacon st) ip) ∧
  (observedCurrent st = None → observed st = None).

Lemma vouched_same hs st st' :
  observed st' = observed st → observedCurrent st' = observedCurrent st → beacon st' = beacon st →
  vouched hs st → vouched hs st'.
Proof. unfold vouched. intros -> -> ->. done. Qed.

Lemma vouched_none hs st : observed st = None → observedCurrent st = None → vouched hs st.
Proof. intros H1 H2. split; [|done]. rewrite H1, H2. by intros ip [|]. Qed.

Lemma noteObserved_vouched hs st h :
  vouched (h :: hs) st → vouched (h :: hs) (noteObserved st (obsLatest (obs (tun h))) (obsPrev (obs (tun h)))).
Proof.
  intros [Hv Hn]. unfold noteObserved. destruct (obsLatest (obs (tun h))) as [l|] eqn:El; [|done].
  destruct (obsPrev (obs (tun h))) as [p|] eqn:Ep; [|done].
  unfold fromBeacon. destruct (_ && _) eqn:E; [|done].
  apply andb_true_iff in E as [[H1%bool_decide_eq_true H2%bool_decide_eq_true]%andb_true_iff H3].
  assert (∃ h0, h0 ∈ h :: hs ∧ agreed h0 (beacon st) (ipKey (IP (endpoint l)))) as Hnew.
  { exists h. split; [set_solver|]. exists l, p. by split_and!. }
  split; [|done]. intros ip [Hip|Hip]; cbn in Hip; cbn.
  - destruct (observed st) eqn:Eo; [|by injection Hip as <-]. apply Hv. left. congruence.
  - by injection Hip as <-.
Qed.

Lemma noteLocal_observed st s :
  observed (noteLocal st s) = observed st ∧ observedCurrent (noteLocal st s) = observedCurrent st ∧
  beacon (noteLocal st s) = beacon st.
Proof. unfold noteLocal. destruct s. by destruct (_ || _). Qed.

Lemma vouched_noteLocal hs st s : vouched hs st → vouched hs (noteLocal st s).
Proof. destruct (noteLocal_observed st s) as (?&?&?). by apply vouched_same. Qed.

Lemma vouched_noteBeacon hs st b u : vouched hs st → vouched hs (set_beacon (noteBeacon st b) (beacon (noteBeacon st b)) u).
Proof.
  intros Hv. unfold noteBeacon. destruct (decide (b = beacon st)) as [E|E].
  - rewrite (bool_decide_true _ E). by apply (vouched_same hs st).
  - rewrite (bool_decide_false _ E). by apply vouched_none.
Qed.

Lemma sampled_vouched hs st h src now s1 h1 ok :
  sampled st h src now = (s1, h1, ok) → vouched hs st → vouched (h :: hs) s1.
Proof.
  unfold sampled. cbv zeta. intros E Hv. set (s0 := if bool_decide _ then st else _) in E.
  assert (vouched (h :: hs) s0) as H0.
  { assert (vouched (h :: hs) st) as Hv' 
      by (split; [intros ip Hip; destruct (proj1 Hv ip Hip) as (h0 & ? & ?); exists h0; set_solver|apply Hv]).
    unfold s0. destruct (bool_decide (_ <$> _ = _)); [done|].
    apply vouched_noteBeacon. destruct (bool_decide (announced st = [])); [done|]. by apply vouched_noteLocal. }
  set (s2 := noteLocal s0 _) in E. assert (vouched (h :: hs) s2) as H2 by (by apply vouched_noteLocal).
  apply noteObserved_vouched in H2. set (s3 := noteObserved s2 _ _) in *.
  destruct (snd _); [|injection E as <- _ _; done]. unfold wantConfirm in E.
  destruct (obsLatest _); [|by injection E as <- _ _]. destruct (_ || _); [by injection E as <- _ _|].
  destruct (recentlyAt _ _ _); injection E as <- _ _; [done|]. by apply (vouched_same _ s3).
Qed.

Lemma addr_seen_vouched hs st : addr_seen hs st → vouched hs st.
Proof.
  induction 1 as [|hs st h src now fin tp fired st' h' _ IH E]; [by apply vouched_none|].
  apply addrTick_spec in E as (s1 & h1 & ok & Es & _ & H). apply (sampled_vouched hs) in Es; [|done].
  destruct fired as [r|]; [|by destruct H as (-> & _)]. destruct H as (_ & _ & regOK & n & h2 & _ & _ & ->).
  assert (∀ s, vouched (h :: hs) s → vouched (h :: hs) (finished s r regOK)) as Hf.
  { intros s Hs. unfold finished. destruct regOK; [|destruct r]; try done; by apply (vouched_same _ s). }
  apply Hf. destruct r; [by apply vouched_none| |by apply (vouched_same _ s1)].
  destruct Es as [Hv Hn]. split; [|done]. intros ip [Hip|Hip]; apply Hv; right; exact Hip.
Qed.

(** The watcher takes us for moved on the beacon's word only after that beacon
    named one address twice in a row, and then another twice in a row: a single
    reply, forged or from a NAT with several addresses, starts no recovery. *)
Theorem observed_move_needs_two_replies hs st h src now fin tp st' h' :
  addr_seen hs st → tick st h src now fin tp = (Some addrReasonObserved, st', h') →
  ∃ old new ho hn, old ≠ new ∧ ho ∈ h :: hs ∧ hn ∈ h :: hs ∧
    agreed ho (beacon st') old ∧ agreed hn (beacon st') new.
Proof.
  intros Hs E. apply addr_seen_vouched in Hs. apply addrTick_spec in E as (s1 & h1 & ok & Es & _ & Hd & _ & regOK & n & h2 & _ & _ & ->).
  apply (sampled_vouched hs) in Es; [|done]. apply due_spec in Hd as (Hp & _). unfold pending in Hp.
  destruct (negb (bool_decide (local s1 = announced s1))); [done|].
  destruct (_ && _) eqn:E; [|by destruct (0 <? registryRetries s1)].
  apply andb_true_iff in E as [H1%negb_true_iff%bool_decide_eq_false H2%negb_true_iff%bool_decide_eq_false].
  destruct (observed s1) as [old|] eqn:Eo; [|done].
  assert (beacon (finished (snd (began s1 now addrReasonObserved)) addrReasonObserved regOK) = beacon s1) as ->
    by (unfold finished; by destruct regOK).
  destruct (proj1 Es old) as (ho & ? & ?); [by left|].
  destruct (observedCurrent s1) as [new|] eqn:Ec.
  - destruct (proj1 Es new) as (hn & ? & ?); [by right|]. exists old, new, ho, hn. split_and!; try done. congruence.
  - destruct Es as [_ Hn]. by rewrite Hn in Eo.
Qed.

(** ** Registry retries *)

(** The registry-only retries since the last move. *)
Fixpoint retries_since (F : list (gotime * addrReason)) : Z :=
  match F with
  | (_, addrReasonRegistry) :: F => 1 + retries_since F
  | _ => 0
  end.

(** A move is followed by at most three attempts to tell the registry alone. *)
Theorem registry_retries_bounded t F st :
  addr_run t F st → 0 <= registryRetries st ∧ registryRetries st + retries_since F <= addrRegistryRetryMax.
Proof.
  induction 1 as [t|t F st h src now fin tp fired st' h' _ IH Ht Hc E]; [cbn; unfold addrRegistryRetryMax; lia|].
  apply addrTick_spec in E as (s1 & h1 & ok & _ & Hh & H). assert (registryRetries s1 = registryRetries st) as Hr by apply Hh.
  destruct fired as [r|]; [|destruct H as (-> & _); lia].
  destruct H as ((Hp & _)%due_spec & _ & regOK & n & h2 & _ & _ & ->). unfold finished.
  destruct r; try (destruct regOK; cbn; unfold addrRegistryRetryMax; lia).
  assert (0 < registryRetries s1).
  { unfold pending in Hp. destruct (negb _); [done|]. destruct (_ && _); [done|].
    destruct (0 <? registryRetries s1) eqn:E; [by zbool|done]. }
  destruct regOK; cbn; rewrite ?Hr in *; lia.
Qed.
End AddrProofs.

(** ** A host that moves from 192.0.2.7 to 192.0.2.8 and back *)
Module AddrDemo.
#[local] Existing Instance documented_protocol.
#[local] Existing Instance toy_cipher.
#[local] Existing Instance Demo.list_codec.
#[local] Existing Instance Demo.one_key.
Import RegDemo.

Definition ip7 : bytes := str "192.0.2.7".
Definition ip8 : bytes := str "192.0.2.8".
Definition at7 (_ : option UDPAddr) : bytes * bool := (ip7, true).
Definition at8 (_ : option UDPAddr) : bytes * bool := (ip8, true).
Definition bk : UDPAddr := mkUDPAddr [203; 0; 113; 1] 9001.
Definition withObs (o : Observations) : Host :=
  set_tun host0 (set_obs (set_routing (tun host0) (SetBeaconAddrUDP (routing (tun host0)) (Some bk))) o).
Definition hostB : Host := withObs (mkObservations None None None).
Definition lan0 (_ : bytes) : list bytes := [].
Definition run_tick st (h : Host) src (now : gotime) :=
  addrWatchTick renv rcfg false lan0 elements st h src now now None.
Definition stOf (r : option addrReason * addrWatchState * Host (X := Demo.one_key)) : addrWatchState := snd (fst r).

Lemma run_tick_eta st h src now :
  addrWatchTick renv rcfg false lan0 elements st h src now now None =
  (fst (fst (run_tick st h src now)), stOf (run_tick st h src now), snd (run_tick st h src now)).
Proof. unfold stOf, run_tick. by destruct (addrWatchTick _ _ _ _ _ _ _ _ _ _ _) as [[? ?] ?]. Qed.

Definition a0 := run_tick newAddrWatch hostB at7 (t0 + 0).
Definition a1 := run_tick (stOf a0) hostB at8 (t0 + Second).
Definition a2 := run_tick (stOf a1) hostB at7 (t0 + 3 * Second).
Definition a3 := run_tick (stOf a2) hostB at7 (t0 + 12 * Second).
Definition F3 : list (gotime * addrReason) :=
  [(t0 + 12 * Second, addrReasonLocal); (t0 + Second, addrReasonLocal)].

Lemma clock_demo d : 0 <= d <= 1000 * Second → clock_ok (t0 + d).
Proof. unfold clock_ok, t0, unixEpoch, Second, maxDuration. lia. Qed.

(** A tick of the demo extends its run by what fired. *)
Lemma demo_step t F st h src d fired :
  addr_run renv rcfg false lan0 elements t F st → t <= t0 + d → 0 <= d <= 1000 * Second →
  fst (fst (run_tick st h src (t0 + d))) = fired →
  addr_run renv rcfg false lan0 elements (t0 + d)
    (match fired with Some r => (t0 + d, r) :: F | None => F end) (stOf (run_tick st h src (t0 + d))).
Proof.
  intros Hr Ht Hd <-.
  apply (ar_tick renv rcfg false lan0 elements t F st h src (t0 + d) (t0 + d) None _ _ (snd (run_tick st h src (t0 + d))));
    [done|done|by apply clock_demo|apply run_tick_eta].
Qed.

Lemma demo_run3 :
  addr_run renv rcfg false lan0 elements (t0 + 12 * Second) F3 (stOf a3) ∧
  addr_run renv rcfg false lan0 elements (t0 + 3 * Second) [(t0 + Second, addrReasonLocal)] (stOf a2).
Proof.
  assert (addr_run renv rcfg false lan0 elements (t0 + 3 * Second) [(t0 + Second, addrReasonLocal)] (stOf a2)) as H.
  { unfold a2. apply (demo_step (t0 + Second) [(t0 + Second, addrReasonLocal)] (stOf a1) hostB at7 (3 * Second) None);
      [|unfold Second; lia|unfold Second; lia|vm_compute; reflexivity].
    unfold a1. apply (demo_step (t0 + 0) [] (stOf a0) hostB at8 Second (Some addrReasonLocal));
      [|unfold Second; lia|unfold Second; lia|vm_compute; reflexivity].
    unfold a0.
    apply (demo_step t0 [] newAddrWatch hostB at7 0 None);
      [constructor|lia|unfold Second; lia|vm_compute; reflexivity]. }
  split; [|exact H]. unfold a3, F3.
  apply (demo_step (t0 + 3 * Second) [(t0 + Second, addrReasonLocal)] (stOf a2) hostB at7 (12 * Second) (Some addrReasonLocal));
    [exact H|unfold Second; lia|unfold Second; lia|vm_compute; reflexivity].
Qed.

Lemma recoveries_back_off_witness :
  times addrReasonLocal F3 = [t0 + 12 * Second; t0 + Second] ∧
  addrRecoverCooldown <= (t0 + 12 * Second) - (t0 + Second).
Proof.
  split; [vm_compute; reflexivity|].
  exact (proj1 (recoveries_back_off renv rcfg false lan0 elements _ F3 (stOf a3) (proj1 demo_run3))
    [] _ _ _ _ [] eq_refl).
Defined.

(** At [t0 + 121 s] the address is back at .8: announced at once. *)
Definition a4 := run_tick (stOf a3) hostB at8 (t0 + 132 * Second).
Lemma change_is_announced_witness :
  fst (fst a4) = Some addrReasonLocal ∧ announced (stOf a4) = ip8 ∧ local (stOf a4) = ip8.
Proof.
  apply (change_is_announced renv rcfg false lan0 elements (t0 + 12 * Second) F3 (stOf a3) hostB at8
    (t0 + 132 * Second) (t0 + 132 * Second) None (fst (fst a4)) (stOf a4) (snd a4) ip8).
  - exact (proj1 demo_run3).
  - unfold Second. lia.
  - apply clock_demo. unfold Second. lia.
  - reflexivity.
  - discriminate.
  - vm_compute. discriminate.
  - vm_compute. discriminate.
  - left. vm_compute. reflexivity.
  - intros a r [[= -> ->]|[[= -> ->]|Ha%not_elem_of_nil]%elem_of_cons]%elem_of_cons;
      unfold addrRecoverCooldown, Second; (lia || done).
  - intros a Ha. assert (times addrReasonLocal F3 = [t0 + 12 * Second; t0 + Second]) as E by (vm_compute; reflexivity).
    rewrite E in Ha. unfold addrRecoverCooldownMax, Minute, Second in *.
    apply elem_of_cons in Ha as [->|[->|Ha%not_elem_of_nil]%elem_of_cons]; (lia || done).
  - unfold a4. apply run_tick_eta.
Defined.

(** The beacon names 198.51.100.1 twice, then .2 twice. *)
Definition ob (n : Z) (t : gotime) : option beaconObservation :=
  Some (mkObservation (mkUDPAddr [198; 51; 100; n] 4000) bk t).
Definition seen1 : Host := withObs (mkObservations None (ob 1 t0) (ob 1 t0)).
Definition seen2 : Host := withObs (mkObservations None (ob 2 t0) (ob 1 t0)).
Definition seen3 : Host := withObs (mkObservations None (ob 2 t0) (ob 2 t0)).
Definition o1 := run_tick newAddrWatch seen1 at7 t0.
Definition o2 := run_tick (stOf o1) seen2 at7 (t0 + Second).
Definition o3 := run_tick (stOf o2) seen3 at7 (t0 + 2 * Second).

Lemma observed_move_needs_two_replies_witness :
  fst (fst o2) = None ∧ fst (fst o3) = Some addrReasonObserved ∧
  ∃ old new ho hn, old ≠ new ∧ ho ∈ [seen3; seen2; seen1] ∧ hn ∈ [seen3; seen2; seen1] ∧
    agreed ho (beacon (stOf o3)) old ∧ agreed hn (beacon (stOf o3)) new.
Proof.
  split; [vm_compute; reflexivity|]. split; [vm_compute; reflexivity|].
  assert (∀ hs st h src now, addr_seen renv rcfg false lan0 elements hs st →
    addr_seen renv rcfg false lan0 elements (h :: hs) (stOf (run_tick st h src now))) as Hstep.
  { intros hs st h src now H.
    exact (as_tick renv rcfg false lan0 elements hs st h src now now None _ _ _ H (run_tick_eta st h src now)). }
  apply (observed_move_needs_two_replies renv rcfg false lan0 elements [seen2; seen1] (stOf o2) seen3 at7
    (t0 + 2 * Second) (t0 + 2 * Second) None (stOf o3) (snd o3)).
  - unfold o2. apply Hstep. unfold o1. apply Hstep. constructor.
  - assert (fst (fst o3) = Some addrReasonObserved) as E by (vm_compute; reflexivity).
    rewrite <- E. unfold o3. apply run_tick_eta.
Defined.

Lemma registry_retries_bounded_witness :
  0 <= registryRetries (stOf a3) ∧ registryRetries (stOf a3) + retries_since F3 <= addrRegistryRetryMax.
Proof. exact (registry_retries_bounded renv rcfg false lan0 elements _ F3 (stOf a3) (proj1 demo_run3)). Defined.
End AddrDemo.
