(* ===== verification/HandshakePoll.v ===== *)
(** * Scheduling of relayed-handshake polls (pkg/daemon/handshakepoll.go)

    Handshakes of private nodes are parked at the registry, which a node polls:
    every minute, faster while a request it sent is unanswered, on demand for a
    local client, and when the beacon pokes it.  [handshakePollSched] is the
    state all of them share; each critical section is one operation, with the
    time read inside it as [now].  A channel closed at the end of a poll is the
    number of that poll; [wake] says whether the one-place channel is full.
    [order] is the order in which Go ranges over the waiting peers. *)
From S2P Require Import Prelude GoText RxWatchdog.
Open Scope Z_scope.

Definition handshakeFastPollInterval : duration := 2 * Second.
Definition handshakeFastPollWindow : duration := 2 * Minute.
Definition handshakeAutoRearm : duration := 10 * Minute.
Definition handshakeMaxWaiting : nat := 64.
Definition handshakeOnDemandGap : duration := 2 * Second.
Definition handshakePollSlack : duration := 100 * Millisecond.
Definition handshakeOnDemandTimeout : duration := 3 * Second.
Definition handshakePokeBurst : Z := 3.
Definition handshakePokeRefill : duration := 5 * Second.

Record handshakeWait := mkWait { until : gotime; rearm : gotime }.

Record handshakePollSched := mkSched {
  lastPoll : gotime;
  waiting : gmap Z handshakeWait;
  pokeDue : bool; pokeTokens : Z; pokeFill : gotime;
  wake : bool;
  running : option Z;
  closed : bool;
  polls : Z;
}.
Implicit Types s : handshakePollSched.

Definition newHandshakePollSched : handshakePollSched :=
  mkSched zero_time ∅ false handshakePokeBurst zero_time false None false 0.

Definition set_waiting s m : handshakePollSched :=
  mkSched (lastPoll s) m (pokeDue s) (pokeTokens s) (pokeFill s) (wake s) (running s) (closed s) (polls s).
Definition set_poke s due tokens fill : handshakePollSched :=
  mkSched (lastPoll s) (waiting s) due tokens fill (wake s) (running s) (closed s) (polls s).
Definition set_run s lp r c n : handshakePollSched :=
  mkSched lp (waiting s) (pokeDue s) (pokeTokens s) (pokeFill s) (wake s) r c n.
Definition nudge s : handshakePollSched :=
  mkSched (lastPoll s) (waiting s) (pokeDue s) (pokeTokens s) (pokeFill s) true (running s) (closed s) (polls s).
(** The loop's receive from [wake]. *)
Definition takeWake s : handshakePollSched :=
  mkSched (lastPoll s) (waiting s) (pokeDue s) (pokeTokens s) (pokeFill s) false (running s) (closed s) (polls s).

(** ** Requests in flight *)

Definition open_at (now : gotime) (w : handshakeWait) : bool := now <? until w.

Definition pruneLocked (now : gotime) (m : gmap Z handshakeWait) : gmap Z handshakeWait :=
  filter (λ e, now < until e.2 ∨ now < rearm e.2) m.

(** The loop that picks the expired peer whose rearm ends soonest. *)
Definition pickOldest (now : gotime) (m : gmap Z handshakeWait) (order : list Z) : option (Z * gotime) :=
  fold_left (λ best p,
    match m !! p with
    | Some w => if open_at now w then best
                else match best with
                     | Some (_, r) => if rearm w <? r then Some (p, rearm w) else best
                     | None => Some (p, rearm w)
                     end
    | None => best
    end) order None.

Definition requestSent s (now : gotime) (peer : Z) (explicit : bool) (order : list Z) : handshakePollSched :=
  let enter (m : gmap Z handshakeWait) :=
    nudge (set_waiting s (<[peer := mkWait (now + handshakeFastPollWindow) (now + handshakeAutoRearm)]> m)) in
  match waiting s !! peer with
  | Some w =>
      if open_at now w then s
      else if negb explicit && (now <? rearm w) then s
      else enter (waiting s)
  | None =>
      if Nat.leb handshakeMaxWaiting (size (waiting s)) then
        let m := pruneLocked now (waiting s) in
        let m := if Nat.leb handshakeMaxWaiting (size m) then
                   match pickOldest now m order with
                   | Some (p, _) => delete p m
                   | None => m
                   end
                 else m in
        if Nat.leb handshakeMaxWaiting (size m) then set_waiting s m else enter m
      else enter (waiting s)
  end.

Definition settle (m : gmap Z handshakeWait) (peer : Z) : gmap Z handshakeWait :=
  match m !! peer with
  | Some w => <[peer := mkWait zero_time (rearm w)]> m
  | None => m
  end.
Definition answered s (peer : Z) : handshakePollSched := set_waiting s (settle (waiting s) peer).

Definition waitingOn s (now : gotime) (peer : Z) : bool :=
  match waiting s !! peer with Some w => open_at now w | None => false end.

(** [trusted] is asked without the lock; [meanwhile] is what other goroutines did
    to the waiting peers before the settled ones are written back. *)
Definition fastActive s (now : gotime) (trusted : Z → bool)
    (meanwhile : gmap Z handshakeWait → gmap Z handshakeWait) : bool * handshakePollSched :=
  let m := pruneLocked now (waiting s) in
  let open := List.filter (λ p, waitingOn (set_waiting s m) now p) (elements (dom m)) in
  let settled := List.filter trusted open in
  let active := existsb (λ p, negb (trusted p)) open in
  (active, set_waiting s (fold_left settle settled (meanwhile m))).

(** ** Polls *)

Definition claimLocked s (now : gotime) (minGap : duration) : bool * handshakePollSched :=
  if negb (IsZero (lastPoll s)) && (time_sub now (lastPoll s) <? minGap) then (false, s)
  else (true, set_poke (set_run s now (running s) (closed s) (polls s)) false (pokeTokens s) (pokeFill s)).

(** The poll whose end covers the trigger ([None]: none needed), and whether the
    caller must run it.  The channel of a new poll is a fresh one, [polls] here. *)
Definition begin s (now : gotime) (minGap : duration) : option Z * bool * handshakePollSched :=
  match running s with
  | Some r => (Some r, false, s)
  | None =>
      if closed s then (None, false, s)
      else
        let '(ok, s) := claimLocked s now minGap in
        if ok then
          let ch := polls s in
          (Some ch, true, set_run s (lastPoll s) (Some ch) (closed s) (polls s))
        else (None, false, s)
  end.

Definition hs_end s : handshakePollSched :=
  nudge (match running s with
         | Some _ => set_run s (lastPoll s) None (closed s) (polls s)
         | None => s
         end).

(** The critical section of shutdown: the poll it then waits for. *)
Definition shutdown s : option Z * handshakePollSched :=
  (running s, set_run s (lastPoll s) (running s) true (polls s)).

Definition sinceLastPoll s (now : gotime) : duration := time_sub now (lastPoll s).

Definition refillPoke s (now : gotime) : handshakePollSched :=
  let fill := if IsZero (pokeFill s) then now else pokeFill s in
  let n := Z.quot (time_sub now fill) handshakePokeRefill in
  if 0 <? n then
    let tokens := pokeTokens s + n in
    if handshakePokeBurst <=? tokens then set_poke s (pokeDue s) handshakePokeBurst now
    else set_poke s (pokeDue s) tokens (fill + n * handshakePokeRefill)
  else set_poke s (pokeDue s) (pokeTokens s) fill.

Definition poke s (now : gotime) : bool * handshakePollSched :=
  if pokeDue s then (false, s)
  else
    let s := refillPoke s now in
    if pokeTokens s <=? 0 then (false, s)
    else (true, set_poke s true (pokeTokens s - 1) (pokeFill s)).
Definition handshakePoke s (now : gotime) : handshakePollSched :=
  let '(ok, s) := poke s now in if ok then nudge s else s.

Definition pokeWait s (now : gotime) : bool * duration :=
  if negb (pokeDue s) then (false, 0)
  else match running s with
  | Some _ => (true, handshakeOnDemandGap)
  | None =>
      if IsZero (lastPoll s) then (true, 0)
      else (true, Z.max 0 (handshakeOnDemandGap - time_sub now (lastPoll s)))
  end.

(** What a trigger does before it blocks: whether it started a poll, and how long
    it then waits for the poll that covers it ([None]: it does not). *)
Definition pollHandshakes s (now : gotime) (stopped noRegistry : bool) (minGap wait : duration)
  : bool * option duration * handshakePollSched :=
  if stopped then (false, None, s)
  else if noRegistry then (false, None, set_poke s false (pokeTokens s) (pokeFill s))
  else
    let '(done, start, s) := begin s now minGap in
    match done with
    | None => (false, None, s)
    | Some _ =>
        let s := if start then set_run s (lastPoll s) (running s) (closed s) (u64 (polls s + 1)) else s in
        let remaining := wait - sinceLastPoll s now in
        (start, if (wait <=? 0) || (remaining <=? 0) then None else Some remaining, s)
    end.
Definition pollHandshakesOnDemand s (now : gotime) (stopped noRegistry : bool) :=
  pollHandshakes s now stopped noRegistry handshakeOnDemandGap handshakeOnDemandTimeout.
Definition pollHandshakesForTrustWait s (now : gotime) (stopped noRegistry trusted : bool) (peer : Z)
  : bool * option duration * handshakePollSched :=
  if trusted || negb (waitingOn s now peer) then (false, None, s)
  else pollHandshakesOnDemand s now stopped noRegistry.

(** ** The loop *)

(** What the select statement of handshakePollLoop met. *)
Inductive loopEvent := LJitter | LTick | LExtra | LWake.

Definition owed s (now : gotime) : bool := let '(due, wait) := pokeWait s now in due && (wait =? 0).

(** One iteration: whether it started a poll, whether the extra timer is armed,
    the delay it was armed with in this iteration, the state. *)
Definition loopIteration s (armed : bool) (ev : loopEvent) (now : gotime) (stopped noRegistry : bool)
    (trusted : Z → bool) : bool * bool * option duration * handshakePollSched :=
  let quiet m : gmap Z handshakeWait := m in
  let '(started, armed, s) :=
    match ev with
    | LJitter => (false, armed, s)
    | LTick => let '(b, _, s) := pollHandshakes s now stopped noRegistry 0 0 in (b, armed, s)
    | LExtra =>
        let '(go, s) := if owed s now then (true, s) else fastActive s now trusted quiet in
        if go then
          let '(b, _, s) := pollHandshakes s now stopped noRegistry (handshakeOnDemandGap - handshakePollSlack) 0 in
          (b, false, s)
        else (false, false, s)
    | LWake =>
        let s := takeWake s in
        if owed s now then
          let '(b, _, s) := pollHandshakes s now stopped noRegistry handshakeOnDemandGap 0 in (b, armed, s)
        else (false, armed, s)
    end in
  let '(due, wait) := pokeWait s now in
  let next := if due then Some wait else None in
  let '(fast, s) := fastActive s now trusted quiet in
  let next := if fast && match next with None => true | Some w => handshakeFastPollInterval <? w end
              then Some handshakeFastPollInterval else next in
  match next with
  | None => (started, false, None, s)
  | Some d => if armed then (started, true, None, s) else (started, true, Some d, s)
  end.
