(* ===== verification/HandshakePollProofs.v ===== *)
(** * Theorems about handshake polls ([HandshakePoll])

    One step relation runs every trigger, in any order, on a clock that does not
    go back, and records what happened.  Polls never overlap, keep the gap their
    trigger asked for and stop at shutdown; a flood of pokes costs the burst plus
    one poll per refill period; fast polling needs a request of the last two
    minutes; the table of waiting peers stays bounded. *)
From S2P Require Import Prelude GoText RxWatchdog HandshakePoll.
Open Scope Z_scope.
Implicit Types s : handshakePollSched.

Inductive hs_op :=
| OReq (peer : Z) (explicit : bool) (order : list Z)
| OAnswered (peer : Z)
| OFast (trusted : Z → bool)
| OPoll (stopped noRegistry : bool) (minGap wait : duration)
| OEnd
| OShutdown
| OPoke
| OTakeWake.

Inductive hs_event :=
| PStart (t : gotime) (minGap : duration)
| PEnd
| PShut
| PPoke (t : gotime)
| PReq (t : gotime) (peer : Z).

Definition hs_exec s (now : gotime) (op : hs_op) : list hs_event * handshakePollSched :=
  match op with
  | OReq p e order => ([PReq now p], requestSent s now p e order)
  | OAnswered p => ([], answered s p)
  | OFast tr => ([], snd (fastActive s now tr (λ m, m)))
  | OPoll st nr g w =>
      let '(b, _, s') := pollHandshakes s now st nr g w in (if b then [PStart now g] else [], s')
  | OEnd => (match running s with Some _ => [PEnd] | None => [] end, hs_end s)
  | OShutdown => ([PShut], snd (shutdown s))
  | OPoke => let '(b, _) := poke s now in (if b then [PPoke now] else [], handshakePoke s now)
  | OTakeWake => ([], takeWake s)
  end.

(** [tr]: what happened so far, newest first. *)
Inductive hs_run : gotime → list hs_event → handshakePollSched → Prop :=
| hr_start t : hs_run t [] newHandshakePollSched
| hr_step t tr s now op evs s' :
    hs_run t tr s → t <= now → clock_ok now → hs_exec s now op = (evs, s') → hs_run now (evs ++ tr) s'.

(** ** Polls *)

(** Whether the trace ends inside a poll, and when the last one started. *)
Fixpoint busy (tr : list hs_event) : bool :=
  match tr with
  | PStart _ _ :: _ => true
  | PEnd :: _ => false
  | _ :: tr => busy tr
  | [] => false
  end.
Fixpoint lastStart (tr : list hs_event) : option gotime :=
  match tr with
  | PStart t _ :: _ => Some t
  | _ :: tr => lastStart tr
  | [] => None
  end.
Fixpoint shut (tr : list hs_event) : bool :=
  match tr with PShut :: _ => true | _ :: tr => shut tr | [] => false end.

(** The fields that decide about polls. *)
Definition same_polls s s' : Prop :=
  running s' = running s ∧ closed s' = closed s ∧ lastPoll s' = lastPoll s.
#[local] Instance same_polls_preorder : PreOrder same_polls.
Proof. split; [done|]. intros a b c (?&?&?) (?&?&?). split_and!; congruence. Qed.

Record polls_inv (t : gotime) (tr : list hs_event) s : Prop := {
  pi_busy : busy tr = bool_decide (is_Some (running s));
  pi_shut : shut tr = closed s;
  pi_last : lastPoll s = default zero_time (lastStart tr);
  pi_clock : ∀ a, lastStart tr = Some a → clock_ok a ∧ a <= t;
}.

Lemma requestSent_polls s now p e order : same_polls s (requestSent s now p e order).
Proof.
  unfold requestSent. cbv zeta. destruct (waiting s !! p); repeat case_match; done.
Qed.
Lemma refillPoke_polls s now : same_polls s (refillPoke s now).
Proof. unfold refillPoke. destruct (0 <? _); [|done]. by destruct (_ <=? _). Qed.
Lemma poke_polls s now : same_polls s (snd (poke s now)).
Proof.
  unfold poke. destruct (pokeDue s); [done|]. pose proof (refillPoke_polls s now).
  by destruct (pokeTokens (refillPoke s now) <=? 0).
Qed.
Lemma handshakePoke_polls s now : same_polls s (handshakePoke s now).
Proof. unfold handshakePoke. pose proof (poke_polls s now) as H. by destruct (poke s now) as [[] s']. Qed.

(** A trigger starts a poll only when none runs, nothing was shut down and its gap
    has passed. *)
Lemma pollHandshakes_spec s now st nr g w b d s' :
  pollHandshakes s now st nr g w = (b, d, s') →
  if b then running s = None ∧ closed s = false ∧
       (IsZero (lastPoll s) = true ∨ g <= time_sub now (lastPoll s)) ∧
       is_Some (running s') ∧ closed s' = false ∧ lastPoll s' = now
  else same_polls s s'.
Proof.
  unfold pollHandshakes. destruct st; [by intros [= <- <- <-]|]. destruct nr; [by intros [= <- <- <-]|].
  unfold begin, claimLocked. destruct (running s) eqn:Er.
  { intros [= <- <- <-]. done. }
  destruct (closed s) eqn:Ec; [by intros [= <- <- <-]|].
  destruct (negb (IsZero (lastPoll s)) && (time_sub now (lastPoll s) <? g)) eqn:E; [by intros [= <- <- <-]|].
  intros [= <- <- <-]. cbn. split_and!; try done. apply andb_false_iff in E as [E|E]; zbool; auto.
Qed.

Lemma polls_inv_same t tr s now s' evs :
  polls_inv t tr s → same_polls s s' → t <= now →
  busy (evs ++ tr) = busy tr → lastStart (evs ++ tr) = lastStart tr → shut (evs ++ tr) = shut tr →
  polls_inv now (evs ++ tr) s'.
Proof.
  intros [Hb Hs Hl Hc] (Er & Ec & El) Ht Eb Els Es. split.
  - by rewrite Eb, Er.
  - by rewrite Es, Ec.
  - by rewrite Els, El.
  - rewrite Els. intros a Ha. destruct (Hc a Ha). split; [done|lia].
Qed.

Lemma polls_inv_step t tr s now op evs s' :
  polls_inv t tr s → t <= now → clock_ok now → hs_exec s now op = (evs, s') → polls_inv now (evs ++ tr) s'.
Proof.
  intros Hi Ht Hc E. destruct op; cbn in E.
  - injection E as <- <-. apply (polls_inv_same t _ s); try done. apply requestSent_polls.
  - injection E as <- <-. by apply (polls_inv_same t _ s).
  - injection E as <- <-. by apply (polls_inv_same t _ s).
  - destruct (pollHandshakes s now stopped noRegistry minGap wait) as [[b d] s1] eqn:Ep.
    injection E as <- <-. apply pollHandshakes_spec in Ep. destruct b; [|by apply (polls_inv_same t _ s)].
    destruct Ep as (_ & Hcl & _ & Hr & Hc' & Hl). destruct Hi as [_ Hs _ _]. split; cbn.
    + by rewrite bool_decide_true.
    + by rewrite Hc', Hs.
    + done.
    + intros a [= <-]. done.
  - destruct (running s) eqn:Er; injection E as <- <-.
    + destruct Hi as [Hb Hs Hl Hcl]. unfold hs_end. rewrite Er. split; cbn; try done.
      intros a Ha. destruct (Hcl a Ha). split; [done|lia].
    + unfold hs_end. rewrite Er. by apply (polls_inv_same t _ s).
  - injection E as <- <-. destruct Hi as [Hb Hs Hl Hcl]. split; cbn; try done.
    intros a Ha. destruct (Hcl a Ha). split; [done|lia].
  - pose proof (handshakePoke_polls s now) as Hp. destruct (poke s now) as [[] s1]; injection E as <- <-;
      by apply (polls_inv_same t _ s).
  - injection E as <- <-. by apply (polls_inv_same t _ s).
Qed.

Lemma hs_run_polls t tr s : hs_run t tr s → polls_inv t tr s.
Proof.
  induction 1 as [t|t tr s now op evs s' _ IH Ht Hc E]; [by split|]. by eapply polls_inv_step.
Qed.

(** Whatever triggers polls, and in whatever order: a poll starts only when the
    previous one has ended, never after shutdown, and at least its trigger's gap
    after the previous start. *)
Theorem polls_never_overlap t tr s pre now g post :
  hs_run t tr s → tr = pre ++ PStart now g :: post →
  busy post = false ∧ shut post = false ∧ ∀ a, lastStart post = Some a → g <= now - a.
Proof.
  intros Hr. revert pre. induction Hr as [t|t tr s now' op evs s' Hr IH Ht Hc E]; intros pre Heq; [by destruct pre|].
  assert (∀ e, evs = [e] ∨ evs = [] → (∀ n g, e ≠ PStart n g) → ∃ pre', tr = pre' ++ PStart now g :: post) as Hold.
  { intros e [->| ->] He; [|by exists pre]. destruct pre as [|e' pre]; injection Heq as Hh Ht'; [|by exists pre].
    by destruct (He now g). }
  assert ((∃ pre', tr = pre' ++ PStart now g :: post) → busy post = false ∧ shut post = false ∧
    ∀ a, lastStart post = Some a → g <= now - a) as Hdone by (intros [pre' Hp]; by eapply IH).
  destruct op; cbn in E.
  1,2,3,6,8: injection E as <- <-; apply Hdone.
  1: by apply (Hold (PReq now' peer)); auto.
  1,2,4: by apply (Hold PEnd); auto.
  1: by apply (Hold PShut); auto.
  - destruct (pollHandshakes s now' stopped noRegistry minGap wait) as [[b d] s1] eqn:Ep. injection E as <- <-.
    apply pollHandshakes_spec in Ep. destruct b; [|apply Hdone, (Hold PEnd); auto].
    destruct pre as [|e pre]; [injection Heq as -> -> ->|injection Heq as _ Hp; apply Hdone; by exists pre].
    destruct Ep as (Er & Ecl & Hg & _). destruct (hs_run_polls _ _ _ Hr) as [Hb Hs Hl Hcl].
    rewrite Hb, Hs, Er, Ecl. split_and!; [done..|]. intros a Ha. destruct (Hcl a Ha) as [Hca Hle].
    rewrite Hl, Ha in Hg. cbn in Hg. rewrite clock_nonzero, clock_sub in Hg by done. by destruct Hg.
  - destruct (running s); injection E as <- <-; apply Hdone, (Hold PEnd); auto.
  - destruct (poke s now') as [[] s1]; injection E as <- <-; apply Hdone, (Hold (PPoke now')); auto.
Qed.

(** ** Pokes *)

Definition pokesOf (tr : list hs_event) : list gotime :=
  omap (λ e, match e with PPoke t => Some t | _ => None end) tr.

(** The bucket in nanoseconds: whole tokens, and the time since the last refill. *)
Definition credit s (t : gotime) : Z := pokeTokens s * handshakePokeRefill + (t - pokeFill s).

Record bucket_ok (t : gotime) s : Prop := {
  bo_tokens : 0 <= pokeTokens s <= handshakePokeBurst;
  bo_fill : pokeFill s = zero_time ∨ clock_ok (pokeFill s) ∧ pokeFill s <= t;
}.

Definition same_bucket s s' : Prop := pokeTokens s' = pokeTokens s ∧ pokeFill s' = pokeFill s.
#[local] Hint Extern 4 (same_bucket _ _) => done : core.

Lemma bucket_mono t t' s s' : t <= t' → same_bucket s s' → bucket_ok t s → bucket_ok t' s'.
Proof. intros Ht [E1 E2] [H1 H2]. split; rewrite ?E1, ?E2; [done|]. destruct H2 as [|[? ?]]; [auto|right]. split; [done|lia]. Qed.

Lemma requestSent_bucket s now p e order : same_bucket s (requestSent s now p e order).
Proof. unfold requestSent. cbv zeta. destruct (waiting s !! p); repeat case_match; done. Qed.

Lemma pollHandshakes_bucket s now st nr g w : same_bucket s (snd (pollHandshakes s now st nr g w)).
Proof.
  unfold pollHandshakes, begin, claimLocked. destruct st; [done|]. destruct nr; [done|].
  destruct (running s); [done|]. destruct (closed s); [done|]. by destruct (_ && _).
Qed.

(** Refilling never adds credit, and leaves less than one period since the last. *)
Lemma refill_spec s now :
  clock_ok now → bucket_ok now s →
  let s' := refillPoke s now in
  bucket_ok now s' ∧ clock_ok (pokeFill s') ∧ 0 <= now - pokeFill s' < handshakePokeRefill ∧
  (pokeFill s ≠ zero_time → credit s' now <= credit s now).
Proof.
  intros Hc [Ht Hf]. cbv zeta. unfold refillPoke, credit.
  destruct (IsZero (pokeFill s)) eqn:Ez.
  { apply Z.eqb_eq in Ez. rewrite clock_sub, Z.sub_diag by done. change (0 <? Z.quot 0 handshakePokeRefill) with false.
    cbn [pokeFill pokeTokens set_poke].
    split_and!; [split; cbn [pokeFill pokeTokens set_poke]; [done|right; split; [done|lia]]|done|lia|unfold handshakePokeRefill, Second; lia|done]. }
  assert (clock_ok (pokeFill s) ∧ pokeFill s <= now) as [Hcf Hle].
  { destruct Hf as [Hf|]; [|done]. rewrite Hf in Ez. done. }
  rewrite clock_sub by done. set (d := now - pokeFill s).
  assert (0 < handshakePokeRefill) as HR by (unfold handshakePokeRefill, Second; lia).
  assert (Z.quot d handshakePokeRefill = d / handshakePokeRefill) as -> by (apply Z.quot_div_nonneg; unfold d; lia).
  pose proof (Z.div_mod d handshakePokeRefill ltac:(lia)) as Hdm.
  pose proof (Z.mod_pos_bound d handshakePokeRefill HR) as Hm.
  set (n := d / handshakePokeRefill) in *. assert (0 <= n) by (apply Z.div_pos; unfold d; lia).
  assert (d = now - pokeFill s) as Hd by done.
  destruct (0 <? n) eqn:En; zbool.
  - destruct (handshakePokeBurst <=? pokeTokens s + n) eqn:Eb; zbool; cbn [pokeFill pokeTokens set_poke].
    + split_and!; [split; cbn [pokeFill pokeTokens set_poke]; [unfold handshakePokeBurst; lia|right; split; [done|lia]]|done|lia|lia|]. intros _. nia.
    + assert (0 <= handshakePokeRefill * n) by nia.
      split_and!; [split; cbn [pokeFill pokeTokens set_poke]; [lia|right]| |lia|lia|].
      * unfold clock_ok in *. split; [split|]; lia.
      * unfold clock_ok in *. split; lia.
      * intros _. nia.
  - assert (n = 0) as E0 by lia. rewrite E0 in Hdm. cbn [pokeFill pokeTokens set_poke]. split_and!; [split; cbn [pokeFill pokeTokens set_poke]; [done|right; done]|done|lia|lia|lia].
Qed.

Lemma poke_spec s now :
  clock_ok now → bucket_ok now s →
  let '(b, s') := poke s now in
  bucket_ok now s' ∧ (pokeFill s ≠ zero_time → pokeFill s' ≠ zero_time) ∧
  (pokeFill s ≠ zero_time → credit s' now <= credit s now - (if b then handshakePokeRefill else 0)) ∧
  (b = true → 0 <= credit s' now < handshakePokeBurst * handshakePokeRefill ∧ pokeFill s' ≠ zero_time).
Proof.
  intros Hc Hb. unfold poke. destruct (pokeDue s). { split_and!; try done. intros _. lia. }
  destruct (refill_spec s now Hc Hb) as (Hb' & Hcf & Hd & Hcr). set (s1 := refillPoke s now) in *.
  assert (pokeFill s1 ≠ zero_time) as Hnz by (intros E; rewrite E in Hcf; unfold clock_ok, unixEpoch, zero_time, Second in Hcf; lia).
  destruct (pokeTokens s1 <=? 0) eqn:Et; zbool.
  { split_and!; try done. intros Hz. specialize (Hcr Hz). lia. }
  destruct Hb' as [Htok Hfill]. unfold credit in *. cbn [pokeFill pokeTokens set_poke].
  assert (0 < handshakePokeRefill) by (unfold handshakePokeRefill, Second; lia).
  split_and!; try done.
  - split; cbn [pokeFill pokeTokens set_poke]; [lia|done].
  - intros Hz. specialize (Hcr Hz). lia.
  - intros _. split; [|done]. nia.
Qed.

(** The bound kept for every accepted poke [a]: what is left in the bucket, plus
    what was taken since, is less than a full bucket plus the time since. *)
Definition poke_inv (t : gotime) (tr : list hs_event) s : Prop :=
  bucket_ok t s ∧ (pokesOf tr ≠ [] → pokeFill s ≠ zero_time) ∧
  ∀ W a post, pokesOf tr = W ++ a :: post →
    credit s t + Z.of_nat (length W) * handshakePokeRefill < handshakePokeBurst * handshakePokeRefill + (t - a).

Lemma poke_inv_same t tr s now s' evs :
  poke_inv t tr s → same_bucket s s' → t <= now → pokesOf evs = [] → poke_inv now (evs ++ tr) s'.
Proof.
  intros (Hb & Hn & Hw) Hs Ht He.
  assert (pokesOf (evs ++ tr) = pokesOf tr) as Ep by (unfold pokesOf in *; by rewrite omap_app, He).
  unfold poke_inv. rewrite Ep. destruct Hs as [E1 E2] eqn:?. split_and!.
  - by eapply bucket_mono.
  - by rewrite E2.
  - intros W a post Hp. specialize (Hw W a post Hp). unfold credit in *. rewrite E1, E2. lia.
Qed.

Lemma poke_inv_poke t tr s now b s1 :
  poke_inv t tr s → t <= now → clock_ok now → poke s now = (b, s1) →
  poke_inv now ((if b then [PPoke now] else []) ++ tr) s1 ∧
  (b = true → ∀ W a post, pokesOf tr = W ++ a :: post →
    Z.of_nat (length W + 2) * handshakePokeRefill < (handshakePokeBurst + 1) * handshakePokeRefill + (now - a)).
Proof.
  intros (Hb & Hn & Hw) Ht Hc E. pose proof (poke_spec s now Hc (bucket_mono t now s s Ht ltac:(done) Hb)) as Hp.
  rewrite E in Hp. destruct Hp as (Hb1 & Hz & Hcr & Hacc).
  assert (∀ W a post, pokesOf tr = W ++ a :: post →
    credit s1 now + (if b then handshakePokeRefill else 0) + Z.of_nat (length W) * handshakePokeRefill
      < handshakePokeBurst * handshakePokeRefill + (now - a)) as Hstep.
  { intros W a post HW. specialize (Hw W a post HW).
    assert (pokeFill s ≠ zero_time) as Hnz by (apply Hn; rewrite HW; by destruct W).
    specialize (Hcr Hnz). unfold credit in *. lia. }
  split.
  - destruct b; cbn [app].
    + split_and!; [done|intros _; by apply Hacc|]. intros W a post HW. cbn in HW.
      destruct W as [|x W]; injection HW as <- HW.
      * destruct (Hacc eq_refl) as [? _]. cbn. lia.
      * specialize (Hstep W a post HW). cbn [length]. lia.
    + split_and!; [done|intros Hne; by apply Hz, Hn|]. intros W a post HW. specialize (Hstep W a post HW). lia.
  - intros -> W a post HW. specialize (Hstep W a post HW). destruct (Hacc eq_refl) as [[? _] _]. lia.
Qed.

Lemma poke_inv_step t tr s now op evs s' :
  poke_inv t tr s → t <= now → clock_ok now → hs_exec s now op = (evs, s') → poke_inv now (evs ++ tr) s'.
Proof.
  intros Hi Ht Hc E. destruct op; cbn in E.
  - injection E as <- <-. apply (poke_inv_same t _ s); try done. apply requestSent_bucket.
  - injection E as <- <-. by apply (poke_inv_same t _ s).
  - injection E as <- <-. by apply (poke_inv_same t _ s).
  - pose proof (pollHandshakes_bucket s now stopped noRegistry minGap wait) as Hb.
    destruct (pollHandshakes s now stopped noRegistry minGap wait) as [[b d] s1].
    injection E as <- <-. apply (poke_inv_same t _ s); try done. by destruct b.
  - unfold hs_end in E. destruct (running s); injection E as <- <-; by apply (poke_inv_same t _ s).
  - injection E as <- <-. by apply (poke_inv_same t _ s).
  - unfold handshakePoke in E. destruct (poke s now) as [b s1] eqn:Ep.
    destruct (poke_inv_poke t tr s now b s1 Hi Ht Hc Ep) as [H _]. injection E as <- <-.
    destruct b; [|done]. apply (poke_inv_same now _ s1 now _ []); try done.
  - injection E as <- <-. by apply (poke_inv_same t _ s).
Qed.

Lemma hs_run_pokes t tr s : hs_run t tr s → poke_inv t tr s.
Proof.
  induction 1 as [t|t tr s now op evs s' _ IH Ht Hc E]; [|by eapply poke_inv_step].
  split_and!; [split; cbn; [unfold handshakePokeBurst; lia|by left]|done|]. intros W a post HW. by destruct W.
Qed.

(** However many pokes arrive, [k] of them are accepted between [a] and [b] only if
    [k] is at most the burst plus one per refill period begun since [a]. *)
Theorem poke_flood_is_bounded t tr s pre b W a post :
  hs_run t tr s → pokesOf tr = pre ++ b :: W ++ a :: post →
  Z.of_nat (length W + 2) * handshakePokeRefill < (handshakePokeBurst + 1) * handshakePokeRefill + (b - a).
Proof.
  intros Hr. revert pre. induction Hr as [t|t tr s now op evs s' Hr IH Ht Hc E]; intros pre Hp; [by destruct pre|].
  assert (pokesOf evs = [] → Z.of_nat (length W + 2) * handshakePokeRefill
    < (handshakePokeBurst + 1) * handshakePokeRefill + (b - a)) as Hold.
  { intros He. apply (IH pre). unfold pokesOf in *. by rewrite omap_app, He in Hp. }
  destruct op; cbn in E; try (injection E as <- <-; by apply Hold).
  - destruct (pollHandshakes s now stopped noRegistry minGap wait) as [[[] d] s1]; injection E as <- <-; by apply Hold.
  - destruct (running s); injection E as <- <-; by apply Hold.
  - destruct (poke s now) as [[] s1] eqn:Ep; injection E as <- <-; [|by apply Hold].
    destruct (poke_inv_poke t tr s now true s1 (hs_run_pokes _ _ _ Hr) Ht Hc Ep) as [_ Hb].
    destruct pre as [|x pre]; cbn in Hp; injection Hp as -> Hp; [by eapply Hb|by eapply IH].
Qed.

(** ** Waiting peers *)

(** Every window was opened by a request, and the table is bounded. *)
Record wait_inv (tr : list hs_event) (m : gmap Z handshakeWait) : Prop := {
  wi_request : ∀ p w, m !! p = Some w →
    until w = zero_time ∨ ∃ a, PReq a p ∈ tr ∧ clock_ok a ∧ until w = a + handshakeFastPollWindow;
  wi_size : (size m ≤ handshakeMaxWaiting)%nat;
}.

Lemma wait_inv_sub tr m m' : m' ⊆ m → wait_inv tr m → wait_inv tr m'.
Proof.
  intros Hs [H1 H2]. split.
  - intros p w Hp. apply H1. by eapply lookup_weaken.
  - etrans; [|exact H2]. by apply map_subseteq_size.
Qed.
Lemma wait_inv_tr tr tr' m : tr ⊆ tr' → wait_inv tr m → wait_inv tr' m.
Proof.
  intros Hs [H1 H2]. split; [|done]. intros p w Hp. destruct (H1 p w Hp) as [|(a & ? & ? & ?)]; [auto|].
  right. exists a. split_and!; auto.
Qed.
Lemma wait_inv_settle tr m p : wait_inv tr m → wait_inv tr (settle m p).
Proof.
  intros [H1 H2]. unfold settle. destruct (m !! p) as [w|] eqn:E; [|done]. split.
  - intros q w' [[-> <-]|[Hne Hq]]%lookup_insert_Some; [by left|]. by apply H1.
  - by rewrite map_size_insert_Some by (by rewrite E).
Qed.
Lemma wait_inv_prune tr now m : wait_inv tr m → wait_inv tr (pruneLocked now m).
Proof. apply wait_inv_sub, map_filter_subseteq. Qed.
Lemma wait_inv_insert tr m now p :
  clock_ok now → PReq now p ∈ tr → (is_Some (m !! p) ∨ (size m < handshakeMaxWaiting)%nat) → wait_inv tr m →
  wait_inv tr (<[p := mkWait (now + handshakeFastPollWindow) (now + handshakeAutoRearm)]> m).
Proof.
  intros Hc Hin Hroom [H1 H2]. split.
  - intros q w [[-> <-]|[Hne Hq]]%lookup_insert_Some; [right; by exists now|by apply H1].
  - destruct (m !! p) as [w|] eqn:E.
    + by rewrite map_size_insert_Some by (by rewrite E).
    + rewrite map_size_insert_None by done. destruct Hroom as [[? ?]|]; [done|lia].
Qed.

Lemma requestSent_wait tr s now p e order :
  clock_ok now → wait_inv tr (waiting s) → wait_inv (PReq now p :: tr) (waiting (requestSent s now p e order)).
Proof.
  intros Hc Hi. apply (wait_inv_tr _ (PReq now p :: tr)) in Hi; [|set_solver].
  assert (PReq now p ∈ PReq now p :: tr) as Hin by set_solver.
  unfold requestSent. cbv zeta. destruct (waiting s !! p) as [w|] eqn:E.
  { destruct (open_at now w); [done|]. destruct (negb e && (now <? rearm w)); [done|].
    apply wait_inv_insert; try done. left. by rewrite E. }
  destruct (Nat.leb handshakeMaxWaiting (size (waiting s))) eqn:Efull.
  2:{ apply wait_inv_insert; try done. right. by apply Nat.leb_gt. }
  set (m1 := pruneLocked now (waiting s)). set (m2 := if Nat.leb handshakeMaxWaiting (size m1) then _ else m1).
  assert (m2 ⊆ waiting s) as Hsub.
  { transitivity m1; [|apply map_filter_subseteq]. unfold m2. destruct (Nat.leb handshakeMaxWaiting (size m1)); [|reflexivity].
    destruct (pickOldest now m1 order) as [[q r]|]; [|reflexivity].
    apply map_subseteq_spec. by intros k x [_ ?]%lookup_delete_Some. }
  destruct (Nat.leb handshakeMaxWaiting (size m2)) eqn:E2; [by apply (wait_inv_sub _ (waiting s))|].
  apply wait_inv_insert; try done; [right; by apply Nat.leb_gt|by apply (wait_inv_sub _ (waiting s))].
Qed.

Lemma fastActive_wait tr s now f :
  wait_inv tr (waiting s) → wait_inv tr (waiting (snd (fastActive s now f (λ m, m)))).
Proof.
  intros Hi. assert (∀ l m, wait_inv tr m → wait_inv tr (fold_left settle l m)) as Hf.
  { induction l as [|p l IH]; intros m Hm; cbn; [done|]. by apply IH, wait_inv_settle. }
  unfold fastActive. cbn [snd waiting set_waiting]. by apply Hf, wait_inv_prune.
Qed.

Lemma poke_waiting s now : waiting (handshakePoke s now) = waiting s.
Proof.
  unfold handshakePoke, poke, refillPoke. destruct (pokeDue s); [done|]. cbv zeta. repeat case_match; simplify_eq; done.
Qed.
Lemma pollHandshakes_waiting s now st nr g w : waiting (snd (pollHandshakes s now st nr g w)) = waiting s.
Proof.
  unfold pollHandshakes, begin, claimLocked. destruct st; [done|]. destruct nr; [done|].
  destruct (running s); [done|]. destruct (closed s); [done|]. by destruct (_ && _).
Qed.

Lemma hs_run_waiting t tr s : hs_run t tr s → wait_inv tr (waiting s).
Proof.
  induction 1 as [t|t tr s now op evs s' _ IH Ht Hc E].
  { split; [intros p w Hp; cbn in Hp; by rewrite lookup_empty in Hp|]. cbn. unfold handshakeMaxWaiting. rewrite map_size_empty. lia. }
  assert (∀ m, wait_inv tr m → wait_inv (evs ++ tr) m) as Hw by (intros m; apply wait_inv_tr; set_solver).
  destruct op; cbn in E.
  - injection E as <- <-. by apply requestSent_wait.
  - injection E as <- <-. apply Hw. by apply wait_inv_settle.
  - injection E as <- <-. apply Hw. by apply fastActive_wait.
  - pose proof (pollHandshakes_waiting s now stopped noRegistry minGap wait) as Ep.
    destruct (pollHandshakes s now stopped noRegistry minGap wait) as [[b d] s1]. injection E as <- <-. cbn in Ep.
    apply Hw. by rewrite Ep.
  - unfold hs_end in E. destruct (running s); injection E as <- <-; by apply Hw.
  - injection E as <- <-. by apply Hw.
  - pose proof (poke_waiting s now) as Ep. destruct (poke s now) as [b s1]. injection E as <- <-. apply Hw. by rewrite Ep.
  - injection E as <- <-. by apply Hw.
Qed.

(** The loop polls fast only while a request to a peer that is not trusted yet was
    sent in the last two minutes; at most 64 peers are remembered. *)
Theorem fast_polling_is_bounded t tr s now trusted s' :
  hs_run t tr s → clock_ok now → fastActive s now trusted (λ m, m) = (true, s') →
  (∃ p a, PReq a p ∈ tr ∧ trusted p = false ∧ now < a + handshakeFastPollWindow) ∧
  (size (waiting s) ≤ handshakeMaxWaiting)%nat.
Proof.
  intros Hr%hs_run_waiting Hc E. split; [|apply Hr]. unfold fastActive in E. injection E as E _.
  apply existsb_exists in E as (p & Hp & Ht%negb_true_iff). apply List.filter_In in Hp as [_ Hop].
  unfold waitingOn in Hop. cbn in Hop. destruct (pruneLocked now (waiting s) !! p) as [w|] eqn:Ew; [|done].
  apply (wait_inv_prune tr now) in Hr as [H1 _]. unfold open_at in Hop. zbool.
  destruct (H1 p w Ew) as [Hz|(a & Hin & Ha & Hu)].
  - unfold clock_ok, unixEpoch, zero_time, Second in *. lia.
  - exists p, a. split_and!; [done|done|lia].
Qed.

(** ** A node that asks peer 9 for trust and is poked *)
Module HsDemo.
Definition t0 : gotime := unixEpoch + 1000 * Second.
Definition at_ (d : duration) s (op : hs_op) : list hs_event * handshakePollSched := hs_exec s (t0 + d) op.
Definition h1 := at_ 0 newHandshakePollSched (OReq 9 true []).
Definition h2 := at_ 0 (snd h1) (OPoll false false 0 0).
Definition h3 := at_ Second (snd h2) OPoke.
Definition h4 := at_ Second (snd h3) OEnd.
Definition h5 := at_ (2 * Second) (snd h4) (OPoll false false handshakeOnDemandGap 0).
Definition h6 := at_ (2 * Second) (snd h5) OEnd.
Definition h7 := at_ (3 * Second) (snd h6) OPoke.
Definition tr7 : list hs_event :=
  [PPoke (t0 + 3 * Second); PEnd; PStart (t0 + 2 * Second) handshakeOnDemandGap; PEnd;
   PPoke (t0 + Second); PStart (t0 + 0) 0; PReq (t0 + 0) 9].

Lemma hs_demo_step c tr s d op evs :
  hs_run (t0 + c) tr s → c <= d → 0 <= d <= 1000 * Second → fst (at_ d s op) = evs →
  hs_run (t0 + d) (evs ++ tr) (snd (at_ d s op)).
Proof.
  intros H Hcd Hd <-. eapply hr_step; [exact H|lia| |apply surjective_pairing].
  unfold clock_ok, t0, unixEpoch, Second, maxDuration in *. lia.
Qed.

Lemma demo_run : hs_run (t0 + 3 * Second) tr7 (snd h7).
Proof.
  assert (Second = 1000000000) as ES by done.
  apply (hs_demo_step (2 * Second) (tail tr7) (snd h6) (3 * Second) OPoke [PPoke (t0 + 3 * Second)]);
    [|lia|lia|vm_compute; reflexivity].
  apply (hs_demo_step (2 * Second) (drop 2 tr7) (snd h5) (2 * Second) OEnd [PEnd]); [|lia|lia|vm_compute; reflexivity].
  apply (hs_demo_step Second (drop 3 tr7) (snd h4) (2 * Second) (OPoll false false handshakeOnDemandGap 0)
    [PStart (t0 + 2 * Second) handshakeOnDemandGap]); [|lia|lia|vm_compute; reflexivity].
  apply (hs_demo_step Second (drop 4 tr7) (snd h3) Second OEnd [PEnd]); [|lia|lia|vm_compute; reflexivity].
  apply (hs_demo_step 0 (drop 5 tr7) (snd h2) Second OPoke [PPoke (t0 + Second)]); [|lia|lia|vm_compute; reflexivity].
  apply (hs_demo_step 0 (drop 6 tr7) (snd h1) 0 (OPoll false false 0 0) [PStart (t0 + 0) 0]);
    [|lia|lia|vm_compute; reflexivity].
  apply (hs_demo_step 0 [] newHandshakePollSched 0 (OReq 9 true []) [PReq (t0 + 0) 9]);
    [constructor|lia|lia|vm_compute; reflexivity].
Qed.

Lemma polls_never_overlap_witness :
  busy (drop 3 tr7) = false ∧ shut (drop 3 tr7) = false ∧
  ∀ a, lastStart (drop 3 tr7) = Some a → handshakeOnDemandGap <= (t0 + 2 * Second) - a.
Proof.
  exact (polls_never_overlap _ tr7 (snd h7) [PPoke (t0 + 3 * Second); PEnd] (t0 + 2 * Second)
    handshakeOnDemandGap (drop 3 tr7) demo_run eq_refl).
Defined.

Lemma poke_flood_is_bounded_witness :
  pokesOf tr7 = [t0 + 3 * Second; t0 + Second] ∧
  2 * handshakePokeRefill < (handshakePokeBurst + 1) * handshakePokeRefill + ((t0 + 3 * Second) - (t0 + Second)).
Proof.
  split; [vm_compute; reflexivity|].
  exact (poke_flood_is_bounded _ tr7 (snd h7) [] (t0 + 3 * Second) [] (t0 + Second) [] demo_run eq_refl).
Defined.

Lemma fast_polling_is_bounded_witness :
  fst (fastActive (snd h7) (t0 + 10 * Second) (λ _, false) (λ m, m)) = true ∧
  ∃ p a, PReq a p ∈ tr7 ∧ false = false ∧ t0 + 10 * Second < a + handshakeFastPollWindow.
Proof.
  split; [vm_compute; reflexivity|].
  apply (proj1 (fast_polling_is_bounded _ tr7 (snd h7) (t0 + 10 * Second) (λ _, false)
    (snd (fastActive (snd h7) (t0 + 10 * Second) (λ _, false) (λ m, m))) demo_run
    ltac:(unfold clock_ok, t0, unixEpoch, Second, maxDuration; lia)
    ltac:(apply injective_projections; vm_compute; reflexivity))).
Defined.
End HsDemo.
