(* ===== verification/NetIP.v ===== *)
(** * IP addresses as text (Go's net.ParseIP and the methods of net.IP)

    An address is its bytes, 4 or 16 of them; [ParseIP] always gives the 16-byte
    form, as Go does, with an IPv4 address under [v4InV6Prefix]. *)
From stdpp Require Import strings.
From S2P Require Import Prelude GoText Routing Tunnel.
Open Scope Z_scope.

Definition To4 (ip : bytes) : option bytes :=
  if Nat.eqb (length ip) 4 then Some ip
  else if Nat.eqb (length ip) 16 && bool_decide (take 12 ip = v4InV6Prefix) then Some (drop 12 ip)
  else None.

Definition IsLoopback (ip : bytes) : bool :=
  match To4 ip with
  | Some b => bool_decide (head b = Some 127)
  | None => bool_decide (ip = replicate 15 0 ++ [1])
  end.
Definition IsUnspecified (ip : bytes) : bool :=
  match To4 ip with
  | Some b => bool_decide (b = [0; 0; 0; 0])
  | None => bool_decide (ip = replicate 16 0)
  end.
Definition IsPrivate (ip : bytes) : bool :=
  match To4 ip with
  | Some [a; b; _; _] => (a =? 10) || ((a =? 172) && (Z.land b 240 =? 16)) || ((a =? 192) && (b =? 168))
  | Some _ => false
  | None => Nat.eqb (length ip) 16 && (Z.land (default 0 (head ip)) 254 =? 252)
  end.
Definition IsLinkLocalUnicast (ip : bytes) : bool :=
  match To4 ip with
  | Some (a :: b :: _) => (a =? 169) && (b =? 254)
  | Some _ => false
  | None => match ip with
            | a :: b :: _ => Nat.eqb (length ip) 16 && (a =? 254) && (Z.land b 192 =? 128)
            | _ => false
            end
  end.

(** [ip.To4().Mask(net.CIDRMask(24, 32))] *)
Definition mask24 (ip4 : bytes) : bytes := take 3 ip4 ++ [0].

(** ** Parsing *)

(** One decimal field of an IPv4 address: 1 to 3 digits, no leading zero, at most
    255. *)
Definition parseOctet (s : bytes) : option Z :=
  if Nat.ltb 1 (length s) && bool_decide (head s = Some 48) then None
  else match parseUint s with
       | Some v => if Nat.leb (length s) 3 && (v <=? 255) then Some v else None
       | None => None
       end.
Definition parseIPv4 (s : bytes) : option bytes :=
  match mapM parseOctet (SplitByte 46 s) with
  | Some [a; b; c; d] => Some [a; b; c; d]
  | _ => None
  end.

Definition hexDigit (c : Z) : option Z :=
  if isDigit c then Some (c - 48)
  else if (97 <=? c) && (c <=? 102) then Some (c - 97 + 10)
  else if (65 <=? c) && (c <=? 70) then Some (c - 65 + 10)
  else None.
(** The leading hex digits: their value, how many, and the rest. *)
Fixpoint hexRun (s : bytes) (acc : Z) (n : nat) : Z * nat * bytes :=
  match s with
  | [] => (acc, n, [])
  | c :: s' => match hexDigit c with
               | Some v => hexRun s' (acc * 16 + v) (S n)
               | None => (acc, n, s)
               end
  end.

(** The loop of parseIPv6 on the rest [s]: the bytes so far, the position of the
    ellipsis.  Eight groups fill the address, so eight rounds are enough. *)
Fixpoint groups6 (fuel : nat) (s ip : bytes) (ell : option nat) : option (bytes * bytes * option nat) :=
  match fuel with
  | O => Some (s, ip, ell)
  | S fuel =>
      let '(acc, off, rest) := hexRun s 0 0 in
      if Nat.eqb off 0 || Nat.ltb 4 off then None
      else match rest with
      | 46 :: _ =>
          if bool_decide (ell = None) && negb (Nat.eqb (length ip) 12) then None
          else if Nat.ltb 16 (length ip + 4) then None
          else match parseIPv4 s with
               | Some v4 => Some ([], ip ++ v4, ell)
               | None => None
               end
      | [] => Some ([], ip ++ [acc / 256; acc mod 256], ell)
      | c :: rest =>
          let ip := ip ++ [acc / 256; acc mod 256] in
          if negb (c =? 58) then None
          else match rest with
          | [] => None
          | 58 :: rest =>
              match ell with
              | Some _ => None
              | None => match rest with
                        | [] => Some ([], ip, Some (length ip))
                        | _ => groups6 fuel rest ip (Some (length ip))
                        end
              end
          | _ => groups6 fuel rest ip ell
          end
      end
  end.

Definition parseIPv6 (s : bytes) : option bytes :=
  let start := match s with
               | 58 :: 58 :: s => (s, Some O)
               | _ => (s, None)
               end in
  let '(s, ell) := start in
  if bool_decide (s = []) && bool_decide (ell = Some O) then Some (replicate 16 0)
  else match groups6 8 s [] ell with
  | Some ([], ip, ell) =>
      if Nat.ltb (length ip) 16 then
        match ell with
        | None => None
        | Some e => Some (take e ip ++ replicate (16 - length ip) 0 ++ drop e ip)
        end
      else match ell with Some _ => None | None => Some ip end
  | _ => None
  end.

(** A '%' (a zone) is refused: net.ParseIP does not accept zones. *)
Fixpoint ParseIPfrom (rest s : bytes) : option bytes :=
  match rest with
  | [] => None
  | c :: rest =>
      if c =? 46 then (v4InV6Prefix ++.) <$> parseIPv4 s
      else if c =? 58 then if hasByte s 37 then None else parseIPv6 s
      else if c =? 37 then None
      else ParseIPfrom rest s
  end.
Definition ParseIP (s : bytes) : option bytes := ParseIPfrom s s.

(** [IP.String] of an IPv4 address *)
Definition formatIPv4 (ip : bytes) : bytes :=
  match ip with
  | [a; b; c; d] => FormatInt a ++ 46 :: FormatInt b ++ 46 :: FormatInt c ++ 46 :: FormatInt d
  | _ => []
  end.

(** ** Lemmas *)

(** An octet prints as at most three digits without a leading zero. *)
Lemma parseOctet_FormatInt a : is_u8 a → parseOctet (FormatInt a) = Some a.
Proof.
  intros Ha. assert (a ∈ seqZ 0 256) as Hin by (apply elem_of_seqZ; unfold is_u8 in *; lia).
  assert (Forall (λ a, parseOctet (FormatInt a) = Some a) (seqZ 0 256)) as H.
  { apply (bool_decide_unpack _). vm_compute. exact I. }
  by eapply Forall_forall in H.
Qed.

Lemma octet_no_dot a : is_u8 a → (46 ∉ FormatInt a) ∧ (58 ∉ FormatInt a) ∧ (37 ∉ FormatInt a).
Proof.
  intros Ha. assert (a ∈ seqZ 0 256) as Hin by (apply elem_of_seqZ; unfold is_u8 in *; lia).
  assert (Forall (λ a, (46 ∉ FormatInt a) ∧ (58 ∉ FormatInt a) ∧ (37 ∉ FormatInt a)) (seqZ 0 256)) as H.
  { apply (bool_decide_unpack _). vm_compute. exact I. }
  by eapply Forall_forall in H.
Qed.

Lemma parseIPv4_format a b c d :
  is_u8 a → is_u8 b → is_u8 c → is_u8 d → parseIPv4 (formatIPv4 [a; b; c; d]) = Some [a; b; c; d].
Proof.
  intros Ha Hb Hc Hd. unfold parseIPv4, formatIPv4.
  rewrite !SplitByte_cons, SplitByte_none by (by apply octet_no_dot). cbn.
  by rewrite !parseOctet_FormatInt by done.
Qed.

Lemma ParseIPfrom_dot pre rest s :
  46 ∉ pre → 58 ∉ pre → 37 ∉ pre → ParseIPfrom (pre ++ 46 :: rest) s = (v4InV6Prefix ++.) <$> parseIPv4 s.
Proof.
  induction pre as [|c pre IH]; cbn; [done|]. intros H1 H2 H3.
  apply not_elem_of_cons in H1 as [? ?], H2 as [? ?], H3 as [? ?].
  do 3 (case_zif; [congruence|]). by apply IH.
Qed.

(** Printing an IPv4 address and parsing it gives its 16-byte form. *)
Lemma ParseIP_format a b c d :
  is_u8 a → is_u8 b → is_u8 c → is_u8 d →
  ParseIP (formatIPv4 [a; b; c; d]) = Some (v4InV6Prefix ++ [a; b; c; d]).
Proof.
  intros Ha Hb Hc Hd. unfold ParseIP. destruct (octet_no_dot a Ha) as (H1 & H2 & H3).
  transitivity ((v4InV6Prefix ++.) <$> parseIPv4 (formatIPv4 [a; b; c; d])).
  - cbn [formatIPv4]. by rewrite ParseIPfrom_dot.
  - by rewrite parseIPv4_format.
Qed.
