(* ===== verification/Resolve.v ===== *)
(** * Finding peers: resolve caches, tunnels on demand, datagrams (pkg/daemon/daemon.go)

    [ensureTunnel] gives the tunnel manager an address for a peer, from a cache or
    the registry, prefers the LAN when both ends share one, and keeps a relay-only
    peer off the direct path.  Datagrams and broadcasts are sent over it.  The
    sweeper forgets caches and peers that nobody uses.

    [Peering] is the daemon's state these functions use: the [Host] of [Registry],
    the three caches, the ports and the policies.  The n-th registry resolve is
    answered by [resolveAns n] ([None]: an error or no answer in time), a node
    list by [listNodes]; [resolveUDP] is net.ResolveUDPAddr.  A JSON array that may
    hold values of another type is a list of options. *)
From stdpp Require Import strings.
From S2P Require Import Prelude GoText NetIP Crypto KeyStore Protocol Envelope KeyExchange Routing Tunnel.
From S2P Require Import Admission Conn PortManager Registry RxWatchdog.
Open Scope Z_scope.

Definition EndpointCacheTTL : duration := 5 * Minute.
Definition ResolveCacheTTL : duration := 60 * Second.
Definition hostnameCacheTTL : duration := 60 * Second.
Definition peerReapIdleTimeout : duration := 5 * Minute.

Record ResolveReply := mkResolveReply {
  real_addr : option bytes;
  lan_addrs : option (list (option bytes));
  relay_only : bool;
  tags : option (list (option string));
}.
Record endpointEntry := mkEndpointEntry { epAddr : bytes; epCachedAt : gotime }.
Record resolveEntry := mkResolveEntry { resp : ResolveReply; cachedAt : gotime }.
Record hostnameCacheEntry := mkHostnameEntry { hnResp : jval; hnCachedAt : gotime }.

Inductive EnsureErr := ErrResolveCached | ErrResolveNode | ErrNoRealAddress | ErrResolveAddr.

Record ResolveEnv := mkResolveEnv {
  resolveAns : nat → Z → option ResolveReply;
  resolveUDP : bytes → option UDPAddr;
}.

(** ** LAN addresses *)

Definition hostIP (addr : bytes) : option bytes :=
  match SplitHostPort addr with Some (h, _) => ParseIP h | None => None end.
Definition hostIP4 (addr : bytes) : option bytes :=
  match hostIP addr with Some ip => To4 ip | None => None end.

Definition sameSlash24 (theirs ours : bytes) : bool :=
  match hostIP4 theirs, hostIP4 ours with
  | Some t, Some o => bool_decide (mask24 o = mask24 t)
  | _, _ => false
  end.
(** The first of theirs on a /24 of ours; empty: none. *)
Fixpoint matchLANSubnet (ours : list bytes) (theirs : list (option bytes)) : bytes :=
  match theirs with
  | [] => []
  | Some t :: theirs => if existsb (sameSlash24 t) ours then t else matchLANSubnet ours theirs
  | None :: theirs => matchLANSubnet ours theirs
  end.

(** [local]: the address of the tunnel socket. *)
Definition addrFamilyMismatch (local : option bytes) (addr : bytes) : bool :=
  match local with
  | None => false
  | Some l =>
      match hostIP l, hostIP addr with
      | Some lip, Some rip =>
          if IsUnspecified lip then false
          else negb (eqb (bool_decide (is_Some (To4 lip))) (bool_decide (is_Some (To4 rip))))
      | _, _ => false
      end
  end.

Definition isPrivateAddr (addr : bytes) : bool :=
  match hostIP addr with
  | Some ip => IsPrivate ip || IsLoopback ip || IsLinkLocalUnicast ip
  | None => false
  end.

(** An interface: up, loopback, its IP addresses ([None] when they cannot be read). *)
Record iface := mkIface { ifUp : bool; ifLoopback : bool; ifAddrs : option (list bytes) }.
Definition collectLANAddrs (ifaces : option (list iface)) (port : bytes) : list bytes :=
  match ifaces with
  | None => []
  | Some l =>
      concat (map (λ i,
        if ifLoopback i || negb (ifUp i) then []
        else match ifAddrs i with
        | None => []
        | Some addrs => omap (λ ip, match To4 ip with
                              | None => None
                              | Some v4 => if IsLoopback ip then None
                                           else if IsPrivate ip || IsLinkLocalUnicast ip
                                           then Some (JoinHostPort (formatIPv4 v4) port) else None
                              end) addrs
        end) l)
  end.

Section Resolve.
Context {P : Protocol} {W : PacketCodec} {K : Type} {C : Cipher K} {X : Primitives K}.
Context (env : RegEnv) (cfg : RegConfig) (renv : ResolveEnv).

Record Peering := mkPeering {
  phost : Host (K := K) (X := X);
  epCache : gmap Z endpointEntry;
  resolveCache : gmap Z resolveEntry;
  hostnameCache : gmap bytes hostnameCacheEntry;
  resolves : nat;
  orphanSeen : gmap Z gotime;
  pports : PortManager;
}.
Implicit Types p : Peering.

Definition set_phost p x : Peering :=
  mkPeering x (epCache p) (resolveCache p) (hostnameCache p) (resolves p) (orphanSeen p) (pports p).
Definition set_caches p e r h : Peering :=
  mkPeering (phost p) e r h (resolves p) (orphanSeen p) (pports p).
Definition set_orphans p o : Peering :=
  mkPeering (phost p) (epCache p) (resolveCache p) (hostnameCache p) (resolves p) o (pports p).
Definition set_ports p x : Peering :=
  mkPeering (phost p) (epCache p) (resolveCache p) (hostnameCache p) (resolves p) (orphanSeen p) x.
Definition ptun p : TunnelManager := tun (phost p).
Definition set_ptun p t : Peering := set_phost p (set_tun (phost p) t).

(** ** Caches *)

Definition cacheEndpoint p (now : gotime) (id : Z) (addr : bytes) : Peering :=
  set_caches p (<[id := mkEndpointEntry addr now]> (epCache p)) (resolveCache p) (hostnameCache p).
Definition cachedEndpoint p (id : Z) : option bytes := epAddr <$> (epCache p !! id).
Definition isEndpointStale p (now : gotime) (id : Z) : bool :=
  match epCache p !! id with
  | None => true
  | Some e => EndpointCacheTTL <? time_sub now (epCachedAt e)
  end.
Definition cachedResolve p (now : gotime) (id : Z) : option ResolveReply :=
  match resolveCache p !! id with
  | None => None
  | Some e => if ResolveCacheTTL <? time_sub now (cachedAt e) then None else Some (resp e)
  end.
Definition cacheResolve p (now : gotime) (id : Z) (r : ResolveReply) : Peering :=
  set_caches p (epCache p) (<[id := mkResolveEntry r now]> (resolveCache p)) (hostnameCache p).
Definition forgetPeerResolution p (id : Z) : Peering :=
  set_caches p (delete id (epCache p)) (delete id (resolveCache p)) (hostnameCache p).

Definition reapCaches p (now : gotime) : Peering :=
  set_caches p
    (filter (λ e, time_sub now (epCachedAt e.2) <= 12 * EndpointCacheTTL) (epCache p))
    (filter (λ e, time_sub now (cachedAt e.2) <= 2 * ResolveCacheTTL) (resolveCache p))
    (filter (λ e, time_sub now (hnCachedAt e.2) <= 2 * hostnameCacheTTL) (hostnameCache p)).

(** What is written to disk, and what a start reads back of it. *)
Definition persistHostnameCache p : gmap bytes hostnameCacheEntry := hostnameCache p.
Definition loadHostnameCache p (now : gotime) (snap : gmap bytes hostnameCacheEntry) : Peering :=
  set_caches p (epCache p) (resolveCache p)
    (filter (λ e, time_sub now (hnCachedAt e.2) < hostnameCacheTTL) snap ∪ hostnameCache p).

(** The tags of a peer: the registry's, then the policy's, without duplicates. *)
Definition nodeInfoTags p (id : Z) : list string :=
  match resolveCache p !! id with
  | Some e => match tags (resp e) with Some l => omap (λ t, t) l | None => [] end
  | None => []
  end.
Fixpoint dedup (seen l : list string) : list string :=
  match l with
  | [] => []
  | t :: l => if bool_decide (t ∈ seen) then dedup seen l else t :: dedup (t :: seen) l
  end.
Definition peerTagsFor p (id : Z) (localTags : list string) : list string :=
  dedup [] (nodeInfoTags p id ++ localTags).

(** ** ensureTunnel *)

(** One registry resolve. *)
Definition askRegistry p (id : Z) : option ResolveReply * Peering :=
  (resolveAns renv (resolves p) id,
   mkPeering (phost p) (epCache p) (resolveCache p) (hostnameCache p) (S (resolves p)) (orphanSeen p) (pports p)).

Definition addPeer p (now : gotime) (id : Z) (a : UDPAddr) : Peering :=
  set_ptun p (AddPeer (ptun p) now id (Some a)).

(** The address to use for a reply with [realAddr]. *)
Definition targetAddrFor p (r : ResolveReply) (realAddr : bytes) : bytes :=
  let isLoopback := match hostIP realAddr with Some ip => IsLoopback ip | None => false end in
  if isLoopback then realAddr
  else match lan_addrs r with
  | Some (x :: l) =>
      let lanAddr := matchLANSubnet (lanAddrs (ident (phost p))) (x :: l) in
      if bool_decide (lanAddr = []) || addrFamilyMismatch (localAddr env) lanAddr then realAddr else lanAddr
  | _ => realAddr
  end.

(** What [ensureTunnel] does with a reply. *)
Definition usePeerReply p (now : gotime) (id : Z) (r : ResolveReply) : option EnsureErr * Peering :=
  match real_addr r with
  | None | Some [] => (Some ErrNoRealAddress, p)
  | Some realAddr =>
      let targetAddr := targetAddrFor p r realAddr in
      let p := cacheEndpoint p now id targetAddr in
      match resolveUDP renv targetAddr with
      | None => (Some ErrResolveAddr, p)
      | Some udpAddr =>
          if relay_only r then
            let t := ptun p in
            let p := set_ptun p (set_routing t (SetRelayPeerPinned (routing t) id true)) in
            (None, addPeer p now id udpAddr)
          else
            let p := if bool_decide (targetAddr = realAddr) && negb (bool_decide (BeaconAddr cfg = []))
                     then set_ptun p (tmRequestHolePunch (ptun p) id) else p in
            (None, addPeer p now id udpAddr)
      end
  end.

Definition ensureTunnel p (now : gotime) (id : Z) : option EnsureErr * Peering :=
  if HasPeer (ptun p) id then (None, p)
  else match cachedResolve p now id with
  | Some r => usePeerReply p now id r
  | None =>
      let '(ans, p) := askRegistry p id in
      match ans with
      | Some r => usePeerReply (cacheResolve p now id r) now id r
      | None =>
          match cachedEndpoint p id with
          | Some ep =>
              match resolveUDP renv ep with
              | None => (Some ErrResolveCached, p)
              | Some a => (None, addPeer p now id a)
              end
          | None => (Some ErrResolveNode, p)
          end
      end
  end.

(** ** Datagrams *)

(** Of the wire-protocol package. *)
Context (ProtoDatagram : Z) (IsBroadcast : Addr → bool).

Inductive DatagramErr :=
| ErrBroadcastAddr | ErrPortPolicy | ErrEphemeralExhausted | ErrEnsure (e : EnsureErr) | ErrTunnelSend (e : SendToErr)
| ErrNoAdminToken | ErrBadAdminToken | ErrBackbone | ErrListNodes | ErrNotMember.

Definition datagram p (dst : Addr) (srcPort dstPort : Z) (data : bytes) : Packet :=
  mkPacket Version 0 ProtoDatagram (mkAddr (Network dst) (nodeID (ident (phost p)))) dst srcPort dstPort 0 0 0 data.

(** Run [f] with an ephemeral port that is given back afterwards. *)
Definition withEphemeralPort {A} p (exhausted : A) (f : Peering → Z → A * Peering) : A * Peering :=
  let '(srcPort, pm) := AllocEphemeralPort (pports p) in
  let p := set_ports p pm in
  if srcPort =? 0 then (exhausted, p)
  else
    let '(r, p) := f p srcPort in
    (r, set_ports p (ReleaseEphemeralPort (pports p) srcPort)).

Definition SendDatagram p (now : gotime) (pol : PolicyState) (dst : Addr) (dstPort : Z) (data : bytes)
  : option DatagramErr * Peering :=
  if IsBroadcast dst then (Some ErrBroadcastAddr, p)
  else if negb (evaluatePortPolicy pol PolicyEventDatagram (Network dst) dstPort (Node dst) (blen data) "out")
  then (Some ErrPortPolicy, p)
  else withEphemeralPort p (Some ErrEphemeralExhausted) (λ p srcPort,
    let '(e, p) := ensureTunnel p now (Node dst) in
    match e with
    | Some e => (Some (ErrEnsure e), p)
    | None =>
        let '(e, t) := Send (ptun p) now (Node dst) (datagram p dst srcPort dstPort data) in
        (ErrTunnelSend <$> e, set_ptun p t)
    end).

(** The registry's answer to a node list: an error, no list, or the entries
    (the node number, [None] when missing). *)
Inductive NodeList := NodesErr | NodesMissing | Nodes (l : list (option Z)).

Fixpoint broadcastTo p (now : gotime) (pol : PolicyState) (netID srcPort dstPort : Z) (data : bytes)
    (nodes : list (option Z)) : Peering :=
  match nodes with
  | [] => p
  | n :: nodes =>
      let rest p := broadcastTo p now pol netID srcPort dstPort data nodes in
      match n with
      | None => rest p
      | Some v =>
          let id := u32 v in
          if id =? nodeID (ident (phost p)) then rest p
          else if negb (evaluatePortPolicy pol PolicyEventDatagram netID dstPort id (blen data) "out") then rest p
          else
            let '(e, p) := ensureTunnel p now id in
            match e with
            | Some _ => rest p
            | None =>
                rest (set_ptun p (snd (Send (ptun p) now id (datagram p (mkAddr netID id) srcPort dstPort data))))
            end
      end
  end.

Definition broadcastDatagram p (now : gotime) (pol : PolicyState) (listNodes : NodeList)
    (netID srcPort dstPort : Z) (data : bytes) : option DatagramErr * Peering :=
  if netID =? 0 then (Some ErrBackbone, p)
  else match listNodes with
  | NodesErr => (Some ErrListNodes, p)
  | NodesMissing => (None, p)
  | Nodes l =>
      if negb (existsb (λ n, match n with Some v => u32 v =? nodeID (ident (phost p)) | None => false end) l)
      then (Some ErrNotMember, p)
      else (None, broadcastTo p now pol netID srcPort dstPort data l)
  end.

(** [consent]: the broadcasts switch of the user's settings. *)
Definition BroadcastDatagram p (now : gotime) (pol : PolicyState) (listNodes : NodeList) (consent : bool)
    (cfgToken token : bytes) (netID dstPort : Z) (data : bytes) : option DatagramErr * Peering :=
  if negb consent then (None, p)
  else if bool_decide (cfgToken = []) then (Some ErrNoAdminToken, p)
  else if negb (bool_decide (token = cfgToken)) then (Some ErrBadAdminToken, p)
  else withEphemeralPort p (Some ErrEphemeralExhausted) (λ p srcPort,
    broadcastDatagram p now pol listNodes netID srcPort dstPort data).

(** ** Reaping peers *)

Definition laterOf (a : gotime) (b : option gotime) : gotime :=
  match b with Some t => if a <? t then t else a | None => a end.
Definition lastPeerContact p (id : Z) : gotime :=
  let t := ptun p in
  let latest := default zero_time (lastDirectRecv (routing t) !! id) in
  let latest := laterOf latest (LastOutboundSend (routing t) id) in
  laterOf latest (LastInboundDecrypt (kx t) id).

Definition forgetPeer p (id : Z) : Peering := set_ptun p (dropPending (tmRemovePeer (ptun p) id) id).

(** Peers with a tunnel entry, in some order; [active]: nodes with a connection. *)
Fixpoint reapPeers p (now : gotime) (active : gset Z) (order : list Z) : Peering :=
  match order with
  | [] => p
  | id :: order =>
      if bool_decide (id ∈ active) then reapPeers p now active order
      else
        let latest := lastPeerContact p id in
        if IsZero latest then reapPeers p now active order
        else if peerReapIdleTimeout <? time_sub now latest
        then reapPeers (forgetPeer p id) now active order
        else reapPeers p now active order
  end.

Definition statePeerIDs p : gset Z :=
  RPeerIDs (routing (ptun p)) ∪ kxPeerIDs (kx (ptun p)) ∪ list_to_set (PeerIDs (store (ptun p))).

Definition reapOrphan p (now : gotime) (active : gset Z) (id : Z) : Peering :=
  if bool_decide (id ∈ active) || HasPeer (ptun p) id then set_orphans p (delete id (orphanSeen p))
  else
    let latest := lastPeerContact p id in
    match (if IsZero latest then orphanSeen p !! id else Some latest) with
    | None => set_orphans p (<[id := now]> (orphanSeen p))
    | Some latest =>
        if peerReapIdleTimeout <? time_sub now latest then
          let p := forgetPeer p id in set_orphans p (delete id (orphanSeen p))
        else p
    end.
Definition reapOrphanedPeerState p (now : gotime) (active : gset Z) (order : gset Z → list Z) : Peering :=
  let ids := statePeerIDs p in
  let p := set_orphans p (filter (λ e, e.1 ∈ ids) (orphanSeen p)) in
  fold_left (λ p id, reapOrphan p now active id) (order ids) p.

Definition reapStalePeers p (now : gotime) (order : gset Z → list Z) : Peering :=
  let active := ActiveNodeIDs (pports p) in
  reapOrphanedPeerState (reapPeers p now active (order (dom (peers (ptun p))))) now active order.
End Resolve.
