(* ===== verification/ResolveProofs.v ===== *)
(** * Theorems about finding peers ([Resolve])

    A relay-only peer is contacted through the beacon alone; a tunnel is set up
    exactly when [ensureTunnel] succeeds; every datagram gives its port back; a
    LAN address is used only on a shared /24; the sweeper leaves no state of a
    peer that is gone. *)
From stdpp Require Import strings.
From S2P Require Import Prelude GoText NetIP Bitmap Crypto KeyStore Protocol Envelope KeyExchange Routing Tunnel.
From S2P Require Import TunnelProofs Rekey TunnelTheorems Admission Conn PortManager.
From S2P Require Import Registry RegistryProofs RxWatchdog Resolve.
Open Scope Z_scope.

Section ResolveProofs.
Context {P : Protocol} {W : PacketCodec} {K : Type} {C : Cipher K} {X : Primitives K}.
Context (env : RegEnv) (cfg : RegConfig) (renv : ResolveEnv).
Implicit Types t : TunnelManager (K := K) (X := X).
Implicit Types p : Peering (K := K) (X := X).

(** ** Relay-only peers *)

(** [t'] comes from [t] by sending frames to [id] through the beacon [b] only. *)
Record relayed (id : Z) (b : UDPAddr) t t' : Prop := {
  rl_flag : IsRelayPeer (routing t') id = true;
  rl_beacon : beaconAddr (routing t') = Some b;
  rl_local : localNodeID (routing t') = localNodeID (routing t);
  rl_pinned : relayPinned (routing t') = relayPinned (routing t);
  rl_sent : ∃ ds, outbox (io t') = outbox (io t) ++ ds ∧
    Forall (λ d, ∃ f, d = (relayMsg (routing t) id f, b)) ds;
}.

Lemma relayed_refl id b t :
  IsRelayPeer (routing t) id = true → beaconAddr (routing t) = Some b → relayed id b t t.
Proof. intros. split; try done. exists []. by rewrite app_nil_r. Qed.

Lemma relayed_trans id b t1 t2 t3 : relayed id b t1 t2 → relayed id b t2 t3 → relayed id b t1 t3.
Proof.
  intros [_ _ L1 P1 (d1 & E1 & F1)] [R2 B2 L2 P2 (d2 & E2 & F2)]. split; try done; [congruence..|].
  exists (d1 ++ d2). rewrite E2, E1, app_assoc. split; [done|]. apply Forall_app. split; [done|].
  eapply Forall_impl; [exact F2|]. intros d [f ->]. exists f. unfold relayMsg. by rewrite L1.
Qed.

(** Changes outside routing and the outbox. *)
Lemma relayed_quiet id b t t' t'' :
  relayed id b t t' → routing t'' = routing t' → outbox (io t'') = outbox (io t') → relayed id b t t''.
Proof. intros [? ? ? ? ?] Er Eo. split; rewrite ?Er, ?Eo; done. Qed.

Lemma HandleSendError_keeps m id e :
  flag (relayPeers m) id = true →
  flag (relayPeers (snd (HandleSendError m id e))) id = true ∧
  beaconAddr (snd (HandleSendError m id e)) = beaconAddr m ∧
  relayPinned (snd (HandleSendError m id e)) = relayPinned m.
Proof.
  intros Hf. destruct e; cbn; [|done]. rewrite Hf, andb_false_r. done.
Qed.

Lemma writeFrame_relayed id b t now a f :
  IsRelayPeer (routing t) id = true → beaconAddr (routing t) = Some b →
  relayed id b t (snd (writeFrame t now id a f)).
Proof.
  intros Hr Hb. unfold writeFrame, WriteFrame, MaybeFlipBlackhole. unfold IsRelayPeer in Hr at 1.
  rewrite Hr. replace (if forceRelay (routing t) then true else true) with true by (by destruct (forceRelay _)).
  rewrite Hb. destruct (hasSock (routing t)) eqn:Hs; cbn [negb].
  2:{ cbn. unfold IsRelayPeer. rewrite Hr. cbn. by apply (relayed_quiet id b t t); [apply relayed_refl|..]. }
  destruct (sockRes (tcfg t) (sockCalls (io t))) as [n|e] eqn:Hres; cbn -[IsRelayPeer HandleSendError].
  - unfold IsRelayPeer at 1 2. cbn. rewrite Hr. cbn.
    split; cbn; [done|done|done|done|]. exists [(relayMsg (routing t) id f, b)]. split; [done|].
    repeat constructor. by exists f.
  - destruct (HandleSendError_keeps (routing t) id e Hr) as (H1 & H2 & H3).
    unfold IsRelayPeer at 1 2. cbn -[HandleSendError]. rewrite Hr, H1. cbn -[HandleSendError].
    split; cbn -[HandleSendError]; [done|by rewrite H2|apply HandleSendError_local|done|].
    exists [(relayMsg (routing t) id f, b)]. split; [done|]. repeat constructor. by exists f.
Qed.

Lemma relayCopy_relayed id b t f :
  IsRelayPeer (routing t) id = true → beaconAddr (routing t) = Some b → relayed id b t (relayCopy t id f).
Proof.
  intros Hr Hb. unfold relayCopy, SendRelayFrame. rewrite Hb. destruct (hasSock (routing t)); [|by apply relayed_refl].
  split; try done. exists [(relayMsg (routing t) id f, b)]. split; [done|]. repeat constructor. by exists f.
Qed.

Lemma kxSend_relayed id b t now :
  IsRelayPeer (routing t) id = true → beaconAddr (routing t) = Some b →
  relayed id b t (snd (kxSend t now id)).
Proof.
  intros Hr Hb. unfold kxSend. destruct (BuildUnauthFrame (kx t)) as [uf|]; [|by apply relayed_refl].
  set (authFrame := if HasIdentity (kx t) then BuildAuthFrame (kx t) else None).
  destruct (if bool_decide _ && _ then _ else _) as [req t1] eqn:E1.
  assert (relayed id b t t1) as R1.
  { destruct (_ && _); [|injection E1 as <- <-; by apply relayed_refl].
    destruct (takeKeyRequest (kx t) id) as [r m]. injection E1 as <- <-.
    by apply (relayed_quiet id b t t); [apply relayed_refl|..]. }
  pose proof (writeFrame_relayed id b t1 now (peerAddr t id) (default uf authFrame) (rl_flag _ _ _ _ R1) (rl_beacon _ _ _ _ R1)) as R2.
  destruct (writeFrame t1 now id (peerAddr t id) (default uf authFrame)) as [err t2]. cbn in R2.
  destruct err; [by eapply relayed_trans|]. pose proof (relayed_trans _ _ _ _ _ R1 R2) as R12.
  destruct req.
  - pose proof (writeFrame_relayed id b t2 now (peerAddr t id) uf (rl_flag _ _ _ _ R2) (rl_beacon _ _ _ _ R2)) as R3.
    destruct (writeFrame t2 now id (peerAddr t id) uf) as [err' t3]. cbn in R3.
    pose proof (relayed_trans _ _ _ _ _ R12 R3) as R13. destruct err'; by apply (relayed_quiet id b t t3).
  - by apply (relayed_quiet id b t t2).
Qed.

Lemma sendKeyExchange_relayed id b t now :
  IsRelayPeer (routing t) id = true → beaconAddr (routing t) = Some b →
  relayed id b t (sendKeyExchangeToNode t now id).
Proof.
  intros Hr Hb. unfold sendKeyExchangeToNode. pose proof (kxSend_relayed id b t now Hr Hb) as R.
  destruct (kxSend t now id) as [q t1]. cbn in R. by rewrite (rl_flag _ _ _ _ R).
Qed.

Lemma AddPeer_relayed id b t now a :
  IsRelayPeer (routing t) id = true → beaconAddr (routing t) = Some b → relayed id b t (AddPeer t now id a).
Proof.
  intros Hr Hb. unfold AddPeer. set (t1 := set_peers t _).
  assert (relayed id b t t1) as R1 by (by apply (relayed_quiet id b t t); [apply relayed_refl|..]).
  destruct (encrypt _ && negb _); [|done]. eapply relayed_trans; [exact R1|]. by apply sendKeyExchange_relayed.
Qed.

(** C34. On a node that knows a beacon address, a peer without a tunnel which the
    registry calls relay-only (in its answer now, or in an answer cached within the
    last minute) is contacted through the beacon alone: no hole punch is asked for
    and nothing goes to any other address, and when it succeeds the relay is
    pinned.  (Outside the claim: with no beacon address the key exchange goes
    straight to the peer, [relay_only_peer_without_beacon]; and with the registry
    down and no cached answer the last endpoint known is used, relay-only or
    not.) *)
Theorem relay_only_peer_stays_hidden p now id r b e p' :
  HasPeer (ptun p) id = false →
  cachedResolve p now id = Some r ∨ cachedResolve p now id = None ∧ resolveAns renv (resolves p) id = Some r →
  relay_only r = true → beaconAddr (routing (ptun p)) = Some b →
  ensureTunnel env cfg renv p now id = (e, p') →
  (∃ ds, outbox (io (ptun p')) = outbox (io (ptun p)) ++ ds ∧
     Forall (λ d, ∃ f, d = (relayMsg (routing (ptun p)) id f, b)) ds) ∧
  (e = None → IsRelayPeer (routing (ptun p')) id = true ∧ IsRelayPinned (routing (ptun p')) id = true).
Proof.
  intros Hp Hr Hro Hb. unfold ensureTunnel. rewrite Hp.
  assert (∀ q q' e, ptun q = ptun p → usePeerReply env cfg renv q now id r = (e, q') →
    (∃ ds, outbox (io (ptun q')) = outbox (io (ptun p)) ++ ds ∧
       Forall (λ d, ∃ f, d = (relayMsg (routing (ptun p)) id f, b)) ds) ∧
    (e = None → IsRelayPeer (routing (ptun q')) id = true ∧ IsRelayPinned (routing (ptun q')) id = true)) as Huse.
  { intros q q' e' Hq. unfold usePeerReply.
    assert (∀ q1, ptun q1 = ptun q → ∃ ds, outbox (io (ptun q1)) = outbox (io (ptun p)) ++ ds ∧
       Forall (λ d, ∃ f, d = (relayMsg (routing (ptun p)) id f, b)) ds) as Hnone.
    { intros q1 ->. exists []. by rewrite Hq, app_nil_r. }
    destruct (real_addr r) as [[|x l]|]; [intros [= <- <-]; split; [by apply Hnone|done]| |
      intros [= <- <-]; split; [by apply Hnone|done]].
    cbv zeta. destruct (resolveUDP renv _) as [u|]; [|intros [= <- <-]; split; [by apply Hnone|done]].
    rewrite Hro. intros [= <- <-].
    set (t1 := set_routing (ptun q) (SetRelayPeerPinned (routing (ptun q)) id true)).
    assert (relayed id b t1 (AddPeer t1 now id (Some u))) as [R1 B1 L1 P1 (ds & Eds & Fds)].
    { apply AddPeer_relayed; cbn; [|by rewrite Hq]. unfold IsRelayPeer. cbn. by rewrite flag_insert, Z.eqb_refl. }
    split.
    - exists ds. split; [by rewrite <- Hq|]. eapply Forall_impl; [exact Fds|].
      intros d [f ->]. exists f. unfold relayMsg. cbn. by rewrite Hq.
    - intros _. split; [exact R1|]. unfold IsRelayPinned.
      etrans; [apply (f_equal (λ m, flag m id) P1)|]. cbn. by rewrite flag_insert, Z.eqb_refl. }
  destruct Hr as [Hc|[Hc Ha]]; rewrite Hc; [by apply Huse|]. unfold askRegistry. rewrite Ha. by apply Huse.
Qed.

(** ** What [ensureTunnel] achieves *)

Lemma AddPeer_has t now id a : HasPeer (AddPeer t now id a) id = true.
Proof.
  unfold AddPeer, HasPeer. destruct (_ && _); [rewrite sendKeyExchangeToNode_peers|];
    apply bool_decide_true; cbn; by rewrite lookup_insert_eq.
Qed.

(** On success there is a tunnel entry for the peer; on an error the tunnels are
    as before. *)
Theorem ensureTunnel_makes_peer p now id e p' :
  ensureTunnel env cfg renv p now id = (e, p') →
  match e with
  | None => HasPeer (ptun p') id = true
  | Some _ => ptun p' = ptun p
  end.
Proof.
  unfold ensureTunnel. destruct (HasPeer (ptun p) id) eqn:Hp; [by intros [= <- <-]|].
  assert (∀ q r e q', ptun q = ptun p → usePeerReply env cfg renv q now id r = (e, q') →
    match e with None => HasPeer (ptun q') id = true | Some _ => ptun q' = ptun p end) as Huse.
  { intros q r e' q' Hq. unfold usePeerReply. destruct (real_addr r) as [[|x l]|]; [by intros [= <- <-]| |by intros [= <- <-]].
    cbv zeta. destruct (resolveUDP renv _) as [u|]; [|by intros [= <- <-]].
    destruct (relay_only r); intros [= <- <-]; apply AddPeer_has. }
  destruct (cachedResolve p now id) as [r|]; [by apply Huse|]. unfold askRegistry.
  destruct (resolveAns renv (resolves p) id) as [r|]; [by apply Huse|].
  destruct (cachedEndpoint _ id) as [ep|]; [|by intros [= <- <-]].
  destruct (resolveUDP renv ep) as [a|]; intros [= <- <-]; [apply AddPeer_has|done].
Qed.

(** The registry is asked at most once, and not at all while an answer less than a
    minute old is cached; a reset forgets that answer. *)
Lemma ensureTunnel_resolves p now id :
  resolves (snd (ensureTunnel env cfg renv p now id)) =
  (if HasPeer (ptun p) id || bool_decide (is_Some (cachedResolve p now id)) then resolves p else S (resolves p)).
Proof.
  assert (∀ q r, resolves (snd (usePeerReply env cfg renv q now id r)) = resolves q) as Huse.
  { intros q r. unfold usePeerReply. destruct (real_addr r) as [[|x l]|]; [done| |done]. cbv zeta.
    destruct (resolveUDP renv _); [|done]. destruct (relay_only r); [done|]. by destruct (_ && _). }
  unfold ensureTunnel. destruct (HasPeer (ptun p) id); [done|].
  destruct (cachedResolve p now id) as [r|]; [by rewrite Huse|]. unfold askRegistry.
  destruct (resolveAns renv (resolves p) id) as [r|]; [by rewrite Huse|].
  destruct (cachedEndpoint _ id) as [ep|]; [|done]. by destruct (resolveUDP renv ep).
Qed.

Lemma forget_then_ask p now id : cachedResolve (forgetPeerResolution p id) now id = None.
Proof. unfold cachedResolve, forgetPeerResolution. cbn. by rewrite lookup_delete_eq. Qed.

(** ** LAN addresses *)

(** A LAN address is chosen exactly when the peer and we have addresses on one
    /24, and it is one of the peer's. *)
Theorem LAN_address_shares_subnet ours theirs :
  (matchLANSubnet ours theirs = [] ∧ (∀ a o, Some a ∈ theirs → o ∈ ours → sameSlash24 a o = true → a = [])) ∨
  (Some (matchLANSubnet ours theirs) ∈ theirs ∧
   ∃ o, o ∈ ours ∧ sameSlash24 (matchLANSubnet ours theirs) o = true).
Proof.
  induction theirs as [|[a|] theirs IH]; cbn.
  - left. split; [done|]. intros a o Ha. by apply not_elem_of_nil in Ha.
  - destruct (existsb (sameSlash24 a) ours) eqn:E.
    + right. split; [set_solver|]. apply existsb_exists in E as (o & Ho & Hs). exists o.
      split; [by apply list_elem_of_In|done].
    + destruct IH as [[H1 H2]|[H1 (o & Ho & Hs)]]; [left|right].
      * split; [done|]. intros a' o [[= ->]|Ha]%elem_of_cons Ho Hs; [|by eapply H2].
        exfalso. assert (existsb (sameSlash24 a) ours = true); [|congruence].
        apply existsb_exists. exists o. split; [by apply list_elem_of_In|done].
      * split; [set_solver|]. by exists o.
  - destruct IH as [[H1 H2]|[H1 H2]]; [left|right]; (split; [set_solver|done]) || idtac.
    split; [done|]. intros a' o [|Ha]%elem_of_cons; [done|by eapply H2].
Qed.

(** ** Datagrams *)

Context (ProtoDatagram : Z) (IsBroadcast : Addr → bool).

Lemma usePeerReply_ports q now id r : pports (snd (usePeerReply env cfg renv q now id r)) = pports q.
Proof.
  unfold usePeerReply. destruct (real_addr r) as [[|x l]|]; [done| |done]. cbv zeta.
  destruct (resolveUDP renv _); [|done]. destruct (relay_only r); [done|]. by destruct (_ && _).
Qed.
Lemma ensureTunnel_ports p now id : pports (snd (ensureTunnel env cfg renv p now id)) = pports p.
Proof.
  unfold ensureTunnel. destruct (HasPeer (ptun p) id); [done|].
  destruct (cachedResolve p now id) as [r|]; [by rewrite usePeerReply_ports|]. unfold askRegistry.
  destruct (resolveAns renv (resolves p) id) as [r|]; [by rewrite usePeerReply_ports|].
  destruct (cachedEndpoint _ id) as [ep|]; [|done]. by destruct (resolveUDP renv ep).
Qed.

Definition same_reserved (a b : PortManager) : Prop := ∀ q, ephemeral q → reserved b q = reserved a q.

(** A port taken for the length of a call is free again afterwards. *)
Lemma withEphemeralPort_returns {A} p (ex : A) f r p' :
  pm_wf (pports p) → live_reserved (pports p) → (∀ q s, pports (snd (f q s)) = pports q) →
  withEphemeralPort p ex f = (r, p') →
  same_reserved (pports p) (pports p') ∧ connections (pports p') = connections (pports p).
Proof.
  intros Hwf Hl Hf. unfold withEphemeralPort. pose proof (Alloc_spec (pports p) Hwf) as Ha.
  destruct (AllocEphemeralPort (pports p)) as [port pm]. destruct Ha as (Hwf' & Hc & Hcase).
  destruct (port =? 0) eqn:E0; zbool.
  { intros [= <- <-]. destruct Hcase as [(_ & -> & _)|(He & _)]; [done|].
    pose proof eph_range. unfold ephemeral in He. lia. }
  destruct Hcase as [(? & _)|(He & Hfree & Hres)]; [done|].
  pose proof (Hf (set_ports p pm) port) as Hfp. destruct (f (set_ports p pm) port) as [r1 p1]. cbn in Hfp.
  intros [= <- <-]. cbn [pports set_ports]. rewrite Hfp. unfold ReleaseEphemeralPort.
  destruct (clear_spec pm port Hwf') as (_ & Hcc & Hclr). split; [|congruence].
  intros q Hq. rewrite Hclr, Hres by done. destruct (Z.eqb_spec q port) as [->|Hne]; cbn [andb orb]; [|done].
  destruct (portInUse pm port) eqn:Eu; cbn [negb]; [|done]. exfalso.
  unfold portInUse in Eu. apply existsb_exists in Eu as ([id c] & Hin & [Hlp Hact]%andb_true_iff). cbn in Hlp, Hact. zbool.
  apply list_elem_of_In, elem_of_map_to_list in Hin. rewrite Hc in Hin.
  specialize (Hl id c Hin Hact). rewrite Hlp in Hl. rewrite Hl in Hfree; done.
Qed.

Lemma broadcastTo_ports l : ∀ p now pol n s d data,
  pports (broadcastTo env cfg renv ProtoDatagram p now pol n s d data l) = pports p.
Proof.
  induction l as [|[v|] l IH]; intros p now pol n s d data; cbn [broadcastTo]; [done| |apply IH].
  destruct (u32 v =? _); [apply IH|]. destruct (negb _); [apply IH|].
  pose proof (ensureTunnel_ports p now (u32 v)) as E.
  destruct (ensureTunnel env cfg renv p now (u32 v)) as [[e|] p1]; cbn in E; rewrite IH; done.
Qed.

(** Sending a datagram or a broadcast holds an ephemeral port only while it runs:
    whatever happens, exactly the same ports are reserved afterwards. *)
Theorem datagrams_return_their_port p now pol dst dstPort data nodes consent ct tok netID :
  pm_wf (pports p) → live_reserved (pports p) →
  same_reserved (pports p) (pports (snd (SendDatagram env cfg renv ProtoDatagram IsBroadcast p now pol dst dstPort data))) ∧
  same_reserved (pports p)
    (pports (snd (BroadcastDatagram env cfg renv ProtoDatagram p now pol nodes consent ct tok netID dstPort data))).
Proof.
  intros Hwf Hl. split.
  - unfold SendDatagram. destruct (IsBroadcast dst); [done|]. destruct (negb _); [done|].
    match goal with |- context [withEphemeralPort p ?e ?f] => destruct (withEphemeralPort p e f) as [r p'] eqn:E end.
    apply withEphemeralPort_returns in E as [H _]; try done. intros q s.
    pose proof (ensureTunnel_ports q now (Protocol.Node dst)) as Eq.
    destruct (ensureTunnel env cfg renv q now (Protocol.Node dst)) as [[e|] q1]; cbn in *; [done|].
    by destruct (Send _ _ _ _).
  - unfold BroadcastDatagram. destruct (negb consent); [done|]. destruct (bool_decide _); [done|].
    destruct (negb _); [done|].
    match goal with |- context [withEphemeralPort p ?e ?f] => destruct (withEphemeralPort p e f) as [r p'] eqn:E end.
    apply withEphemeralPort_returns in E as [H _]; try done. intros q s. unfold broadcastDatagram.
    destruct (netID =? 0); [done|]. destruct nodes as [| |l]; [done|done|]. destruct (negb _); [done|]. apply broadcastTo_ports.
Qed.

(** An administrator's broadcast reaches no network the sender is not in, and never
    the backbone, whatever the token. *)
Theorem broadcast_needs_membership p now pol l netID s d data p' :
  broadcastDatagram env cfg renv ProtoDatagram p now pol (Nodes l) netID s d data = (None, p') →
  netID ≠ 0 ∧ ∃ v, Some v ∈ l ∧ u32 v = nodeID (ident (phost p)).
Proof.
  unfold broadcastDatagram. destruct (netID =? 0) eqn:E0; [done|]. zbool.
  destruct (existsb _ l) eqn:E; [|done]. intros _. split; [done|].
  apply existsb_exists in E as ([v|] & Hin & Hv); [|done]. zbool. exists v. split; [by apply list_elem_of_In|done].
Qed.

(** ** The sweeper *)

(** All that is kept for one node: the path to it, the key exchange with it, the
    frames waiting for it, its session (the object's salvage ring apart, see
    [forgetPeer_cell]), its addresses. *)
Definition routeState (m : RManager) (id : Z) :=
  (relayPeers m !! id, relayPinned m !! id, lastDirectRecv m !! id, blackholeMissCount m !! id,
   directClearCount m !! id, sendErrCount m !! id, lastOutboundSend m !! id, firstOutboundSend m !! id).
Definition kxState (m : Manager (K := K) (X := X)) (id : Z) :=
  (peerPubKeys (keys m) !! id, negPubKeys (keys m) !! id, pendingRekey (rk m) !! id,
   lastInboundDecrypt (rk m) !! id, rekeyGaveUp (rk m) !! id, lastKeyExchangeReply (rk m) !! id,
   bool_decide (id ∈ keyRequestDue (rk m))).
Definition pendState (q : Pending) (id : Z) :=
  (Tunnel.pending q !! id, pendingSince q !! id, lastPendDropLog q !! id).
Definition sessionState (s : Store K) (id : Z) :=
  (Get s id, (λ c, with_salvage c []) <$> deref s (Get s id)).
Definition nodeState p (id : Z) :=
  (peers (ptun p) !! id, activity (ptun p) !! id, keyViaRelay (ptun p) !! id, routeState (routing (ptun p)) id,
   kxState (kx (ptun p)) id, pendState (pend (ptun p)) id, sessionState (store (ptun p)) id,
   (epCache p !! id, resolveCache p !! id)).

(** What the sweeper looks at for one node, and what there is to lose. *)
Definition nodeView p (id : Z) :=
  (HasPeer (ptun p) id, lastPeerContact p id, bool_decide (id ∈ statePeerIDs p), nodeState p id, orphanSeen p !! id).

Lemma Drop_PeerIDs (s : Store K) id : list_to_set (PeerIDs (Drop s id)) =@{gset Z} list_to_set (PeerIDs s) ∖ {[id]}.
Proof.
  unfold PeerIDs. rewrite !list_to_set_elements_L. unfold Drop.
  rewrite crypto_wipe. cbn. by rewrite dom_delete_L.
Qed.

Lemma union3_difference (a b c d : gset Z) : (a ∖ d) ∪ (b ∖ d) ∪ (c ∖ d) = (a ∪ b ∪ c) ∖ d.
Proof. set_solver. Qed.

Lemma forgetPeer_kx p id :
  kx (ptun (forgetPeer p id)) = RemovePeer (with_env (kx (ptun p)) (Drop (store (ptun p)) id)) id.
Proof. done. Qed.
Lemma forgetPeer_routing p id : routing (ptun (forgetPeer p id)) = RRemovePeer (routing (ptun p)) id.
Proof. done. Qed.
Lemma forgetPeer_store p id : store (ptun (forgetPeer p id)) = Drop (store (ptun p)) id.
Proof. done. Qed.
Lemma kxPeerIDs_env (m : Manager (K := K) (X := X)) s : kxPeerIDs (with_env m s) = kxPeerIDs m.
Proof. done. Qed.

Lemma forgetPeer_IDs p id : statePeerIDs (forgetPeer p id) = statePeerIDs p ∖ {[id]}.
Proof.
  unfold statePeerIDs. rewrite forgetPeer_kx, forgetPeer_routing, forgetPeer_store.
  rewrite (proj1 (RemovePeer_forgets _ _)), kxPeerIDs_env, RRemovePeer_forgets, Drop_PeerIDs. apply union3_difference.
Qed.

Lemma forgetPeer_inbound p id j : j ≠ id →
  LastInboundDecrypt (kx (ptun (forgetPeer p id))) j = LastInboundDecrypt (kx (ptun p)) j.
Proof.
  intros Hj. rewrite forgetPeer_kx. edestruct RemovePeer_forgets as (_ & _ & _ & Ho).
  by destruct (Ho j Hj) as (_ & _ & _ & -> & _).
Qed.

Lemma forgetPeer_peers p id : peers (ptun (forgetPeer p id)) = delete id (peers (ptun p)).
Proof. done. Qed.

Lemma forgetPeer_self p id :
  (id ∉ statePeerIDs (forgetPeer p id)) ∧ HasPeer (ptun (forgetPeer p id)) id = false ∧
  (Tunnel.pending (pend (ptun (forgetPeer p id)))) !! id = None.
Proof.
  rewrite forgetPeer_IDs. unfold HasPeer. rewrite forgetPeer_peers, lookup_delete_eq.
  split_and!; [by rewrite elem_of_difference, elem_of_singleton; intros []|by rewrite bool_decide_eq_false_2 by (by intros [? ?])|].
  unfold forgetPeer, ptun. cbn -[tmRemovePeer]. apply lookup_delete_eq.
Qed.

Lemma Drop_session (s : Store K) i j : j ≠ i → sessionState (Drop s i) j = sessionState s j.
Proof.
  intros Hj. unfold sessionState, Drop, Get. rewrite crypto_wipe. cbn. rewrite lookup_delete_ne by done.
  f_equal. destruct (crypto s !! j) as [q|]; [|done]. cbn. unfold wipeCryptoSecrets.
  destruct (crypto s !! i) as [r|]; [|done]. cbn. destruct (heap s !! r) as [c|] eqn:E; [|done].
  cbn. destruct (decide (r = q)) as [->|Hq]; [by rewrite lookup_insert_eq, E|by rewrite lookup_insert_ne].
Qed.

Lemma forgetPeer_nodeState p id j : j ≠ id → nodeState (forgetPeer p id) j = nodeState p j.
Proof.
  intros Hj. unfold nodeState. rewrite forgetPeer_peers, forgetPeer_routing, forgetPeer_kx, forgetPeer_store.
  rewrite Drop_session by done. unfold routeState, kxState, pendState, forgetPeer, ptun. cbn.
  rewrite !lookup_delete_ne by done.
  by rewrite (bool_decide_ext (j ∈ keyRequestDue _ ∖ {[id]}) (j ∈ keyRequestDue (rk (kx (tun (phost p))))))
    by set_solver.
Qed.

(** The session object of a node that shares it with no other. *)
Definition ownsCell p (id : Z) (c : nat) : Prop :=
  Get (store (ptun p)) id = Some c ∧ ∀ i, i ≠ id → Get (store (ptun p)) i ≠ Some c.

Lemma forgetPeer_cell p i j c : j ≠ i → ownsCell p j c →
  ownsCell (forgetPeer p i) j c ∧ heap (store (ptun (forgetPeer p i))) !! c = heap (store (ptun p)) !! c.
Proof.
  intros Hj [Hg Ho]. unfold ownsCell. rewrite forgetPeer_store. set (s := store (ptun p)) in *.
  assert (∀ k, Get (Drop s i) k = if decide (k = i) then None else Get s k) as HG.
  { intros k. unfold Drop, Get. rewrite crypto_wipe. cbn.
    destruct (decide (k = i)) as [->|]; [apply lookup_delete_eq|by apply lookup_delete_ne]. }
  split; [split|].
  - by rewrite HG, decide_False.
  - intros k Hk. rewrite HG. destruct (decide (k = i)); [done|by apply Ho].
  - unfold Drop, wipeCryptoSecrets. destruct (Get s i) as [r|] eqn:Er; [|done]. cbn.
    destruct (heap s !! r); [|done]. cbn. apply lookup_insert_ne. intros ->. by apply (Ho i).
Qed.

Lemma forgetPeer_other p id j : j ≠ id → nodeView (forgetPeer p id) j = nodeView p j.
Proof.
  intros Hj. unfold nodeView. rewrite (forgetPeer_nodeState p id j Hj).
  unfold nodeView, lastPeerContact, HasPeer, LastOutboundSend. rewrite forgetPeer_IDs, forgetPeer_peers, forgetPeer_routing, (forgetPeer_inbound p id j Hj).
  unfold RRemovePeer. cbn [lastDirectRecv lastOutboundSend]. rewrite !lookup_delete_ne by done.
  f_equal. f_equal. f_equal. apply bool_decide_ext. rewrite elem_of_difference, elem_of_singleton. naive_solver.
Qed.

(** A tunnel entry the sweeper may keep. *)
Definition peerKept (now : gotime) (active : gset Z) p (id : Z) : Prop :=
  id ∈ active ∨ IsZero (lastPeerContact p id) = true ∨ time_sub now (lastPeerContact p id) <= peerReapIdleTimeout.

Definition reapable (now : gotime) (active : gset Z) p (id : Z) : bool :=
  negb (bool_decide (id ∈ active)) && negb (IsZero (lastPeerContact p id)) &&
  (peerReapIdleTimeout <? time_sub now (lastPeerContact p id)).

Lemma reapPeers_cons p now active id l :
  reapPeers p now active (id :: l) = reapPeers (if reapable now active p id then forgetPeer p id else p) now active l.
Proof.
  unfold reapable. cbn [reapPeers]. destruct (bool_decide (id ∈ active)); [done|].
  destruct (IsZero _); [done|]. by destruct (_ <? _).
Qed.

Lemma reapable_kept now active p id : reapable now active p id = false → peerKept now active p id.
Proof.
  unfold reapable, peerKept. destruct (bool_decide_reflect (id ∈ active)); [by left|].
  destruct (IsZero _) eqn:E; [by right; left|]. cbn. intros H. zbool. by right; right.
Qed.

Lemma nodeView_inv p q j : nodeView q j = nodeView p j →
  HasPeer (ptun q) j = HasPeer (ptun p) j ∧ lastPeerContact q j = lastPeerContact p j ∧
  bool_decide (j ∈ statePeerIDs q) = bool_decide (j ∈ statePeerIDs p) ∧ orphanSeen q !! j = orphanSeen p !! j.
Proof.
  intros H. split_and!; [exact (f_equal (λ v, v.1.1.1.1) H)|exact (f_equal (λ v, v.1.1.1.2) H)|
    exact (f_equal (λ v, v.1.1.2) H)|exact (f_equal snd H)].
Qed.

Lemma nodeView_contact p q j : nodeView q j = nodeView p j →
  HasPeer (ptun q) j = HasPeer (ptun p) j ∧ lastPeerContact q j = lastPeerContact p j.
Proof. by intros (? & ? & _)%nodeView_inv. Qed.

Lemma forgetPeer_contact p id : lastPeerContact (forgetPeer p id) id = zero_time.
Proof.
  unfold lastPeerContact, LastOutboundSend, LastInboundDecrypt. rewrite forgetPeer_routing, forgetPeer_kx.
  unfold RRemovePeer, RemovePeer. cbn. by rewrite !lookup_delete_eq.
Qed.

Lemma reapable_view now active p q j : nodeView q j = nodeView p j → reapable now active q j = reapable now active p j.
Proof. intros H%nodeView_contact. unfold reapable. by destruct H as [_ ->]. Qed.

Lemma reapable_forgotten now active p id : reapable now active (forgetPeer p id) id = false.
Proof. unfold reapable. rewrite forgetPeer_contact. by rewrite andb_false_r. Qed.

Lemma reapPeers_spec l : ∀ p now active,
  let p' := reapPeers p now active l in
  orphanSeen p' = orphanSeen p ∧ ∀ j,
  (reapable now active p j = false → nodeView p' j = nodeView p j) ∧
  (j ∈ l ∨ reapable now active p j = false → reapable now active p' j = false).
Proof.
  induction l as [|i l IH]; intros p now active; cbn zeta.
  { cbn. split; [done|]. intros j. split; [done|]. intros [H|H]; [by apply elem_of_nil in H|done]. }
  rewrite reapPeers_cons. set (q := if reapable now active p i then _ else _).
  assert (∀ j, j ≠ i ∨ reapable now active p i = false → nodeView q j = nodeView p j) as Hq.
  { intros j Hj. unfold q. destruct (reapable now active p i); [|done].
    destruct Hj as [Hj|Hj]; [by apply forgetPeer_other|done]. }
  assert (reapable now active q i = false) as Hi.
  { unfold q. destruct (reapable now active p i) eqn:E; [apply reapable_forgotten|done]. }
  destruct (IH q now active) as [Ho Hj]. split.
  { rewrite Ho. unfold q. by destruct (reapable _ _ _ _). }
  intros j. destruct (Hj j) as [H1 H2]. split.
  - intros E. assert (nodeView q j = nodeView p j) as Ev by (apply Hq; destruct (decide (j = i)) as [->|]; auto).
    rewrite H1; [done|]. by rewrite (reapable_view _ _ p).
  - intros E. apply H2. destruct (decide (j = i)) as [->|Hji]; [by right|].
    rewrite (reapable_view _ _ p) by (apply Hq; auto).
    destruct E as [[->|?]%elem_of_cons|E]; [done|by left|by right].
Qed.

Lemma forgetPeer_has p i j : HasPeer (ptun (forgetPeer p i)) j = true → is_Some (peers (ptun p) !! j).
Proof.
  unfold HasPeer. rewrite forgetPeer_peers, bool_decide_eq_true. intros [x [_ Hx]%lookup_delete_Some]. by exists x.
Qed.

Lemma reapPeers_has l : ∀ p now active j,
  HasPeer (ptun (reapPeers p now active l)) j = true → is_Some (peers (ptun p) !! j).
Proof.
  induction l as [|i l IH]; intros p now active j; [unfold HasPeer; by rewrite bool_decide_eq_true|].
  rewrite reapPeers_cons. intros H%IH. destruct (reapable _ _ _ _); [|done].
  apply (forgetPeer_has _ i). unfold HasPeer. by apply bool_decide_eq_true.
Qed.

Lemma nodeView_state p q j : nodeView q j = nodeView p j → j ∈ statePeerIDs q → j ∈ statePeerIDs p.
Proof.
  intros (_ & _ & H & _)%nodeView_inv Hq.
  by rewrite <- bool_decide_eq_true, <- H, bool_decide_eq_true.
Qed.

(** State of a node the sweep of orphans may keep. *)
Definition orphanKept (now : gotime) (active : gset Z) p (id : Z) : Prop :=
  id ∈ statePeerIDs p → id ∈ active ∨ HasPeer (ptun p) id = true ∨
  ∃ t : gotime, (lastPeerContact p id = t ∨ IsZero (lastPeerContact p id) = true ∧ orphanSeen p !! id = Some t) ∧
       time_sub now t <= peerReapIdleTimeout.

Lemma orphanKept_view now active p q j :
  nodeView q j = nodeView p j → orphanKept now active p j → orphanKept now active q j.
Proof.
  intros E H Hin. apply (nodeView_state _ _ _ E) in Hin as Hp. apply nodeView_inv in E as (H1 & H2 & _ & H4).
  rewrite H1, H2, H4. auto.
Qed.

Lemma set_orphans_view p o j : o !! j = orphanSeen p !! j → nodeView (set_orphans p o) j = nodeView p j.
Proof. unfold nodeView. intros H. cbn [orphanSeen set_orphans]. by rewrite H. Qed.

Lemma set_orphans_contact p o j :
  HasPeer (ptun (set_orphans p o)) j = HasPeer (ptun p) j ∧
  lastPeerContact (set_orphans p o) j = lastPeerContact p j ∧ statePeerIDs (set_orphans p o) = statePeerIDs p.
Proof. done. Qed.

Lemma reapOrphan_other p now active i j : j ≠ i → nodeView (reapOrphan p now active i) j = nodeView p j.
Proof.
  intros Hj. unfold reapOrphan.
  destruct (_ || _); [apply set_orphans_view; by rewrite lookup_delete_ne|].
  destruct (if IsZero _ then _ else _) as [t|]; [|apply set_orphans_view; by rewrite lookup_insert_ne].
  destruct (_ <? _); [|done]. rewrite set_orphans_view; [by apply forgetPeer_other|].
  rewrite lookup_delete_ne by done. done.
Qed.

Lemma reapOrphan_kept p now active i : orphanKept now active (reapOrphan p now active i) i.
Proof.
  unfold reapOrphan. destruct (bool_decide_reflect (i ∈ active)) as [Ha|Ha]; cbn [orb]; [intros _; by left|].
  destruct (HasPeer (ptun p) i) eqn:Hp; [intros _; by right; left|].
  destruct (if IsZero _ then _ else _) as [t|] eqn:Et; cbn zeta; cycle 1.
  - destruct (IsZero (lastPeerContact p i)) eqn:Ez; [|done].
    intros _. right; right. exists now. split; [right; split; [done|apply lookup_insert_eq]|].
    unfold time_sub, peerReapIdleTimeout, minDuration, maxDuration, Minute, Second. lia.
  - destruct (peerReapIdleTimeout <? time_sub now t) eqn:El; zbool.
    + intros Hin. rewrite (proj2 (proj2 (set_orphans_contact _ _ i))) in Hin.
      by destruct (proj1 (forgetPeer_self p i)).
    + intros _. right; right. exists t. split; [|done].
      destruct (IsZero (lastPeerContact p i)) eqn:Ez; [by right|left; congruence].
Qed.

Lemma reapOrphans_spec l : ∀ p now active j,
  let p' := fold_left (λ p id, reapOrphan p now active id) l p in
  (j ∈ l ∨ orphanKept now active p j → orphanKept now active p' j) ∧
  (j ∉ l → nodeView p' j = nodeView p j).
Proof.
  induction l as [|i l IH]; intros p now active j; cbn zeta; cbn [fold_left].
  { split; [intros [H|H]; [by apply elem_of_nil in H|done]|done]. }
  destruct (IH (reapOrphan p now active i) now active j) as [H1 H2]. split.
  - intros H. apply H1. destruct (decide (j = i)) as [->|Hji]; [right; apply reapOrphan_kept|].
    destruct H as [[->|?]%elem_of_cons|H]; [done|by left|right].
    eapply orphanKept_view; [by apply reapOrphan_other|done].
  - intros [Hji Hl]%not_elem_of_cons. rewrite H2 by done. by apply reapOrphan_other.
Qed.

Lemma reapOrphans_has l : ∀ p now active j,
  HasPeer (ptun (fold_left (λ p id, reapOrphan p now active id) l p)) j = true → HasPeer (ptun p) j = true.
Proof.
  induction l as [|i l IH]; intros p now active j; cbn [fold_left]; [done|]. intros H%IH. revert H.
  unfold reapOrphan. destruct (_ || _); [done|]. destruct (if IsZero _ then _ else _); [|done]. destruct (_ <? _); [|done].
  intros H%(forgetPeer_has _ i). by apply bool_decide_eq_true.
Qed.

(** A node the sweeper must not touch: it has a connection, or a tunnel entry, or it
    was heard of in time. *)
Definition inUse (now : gotime) (active : gset Z) p (id : Z) : Prop :=
  reapable now active p id = false ∧
  (id ∈ active ∨ HasPeer (ptun p) id = true ∨ IsZero (lastPeerContact p id) = false).

Definition stateView p (id : Z) := fst (nodeView p id).

Lemma reapOrphan_inUse p now active i j :
  inUse now active p j → stateView (reapOrphan p now active i) j = stateView p j.
Proof.
  intros [Hr Hu]. destruct (decide (j = i)) as [<-|Hji]; cycle 1.
  { unfold stateView. by rewrite reapOrphan_other. }
  unfold reapOrphan. destruct (bool_decide_reflect (j ∈ active)) as [Ha|Ha]; cbn [orb]; [done|].
  destruct (HasPeer (ptun p) j) eqn:Hp; [done|].
  destruct Hu as [?|[?|Hz]]; [done|congruence|]. rewrite Hz.
  unfold reapable in Hr. rewrite Hz, bool_decide_eq_false_2 in Hr by done. cbn in Hr. by rewrite Hr.
Qed.

Lemma inUse_view now active p q j : stateView q j = stateView p j → inUse now active p j → inUse now active q j.
Proof.
  intros H. pose proof (f_equal (λ v, v.1.1.1) H) as H1. pose proof (f_equal (λ v, v.1.1.2) H) as H2.
  unfold stateView, nodeView in H1, H2. cbn [fst snd] in H1, H2. unfold inUse, reapable. by rewrite H1, H2.
Qed.

Lemma reapOrphans_inUse l : ∀ p now active j,
  inUse now active p j → stateView (fold_left (λ p id, reapOrphan p now active id) l p) j = stateView p j.
Proof.
  induction l as [|i l IH]; intros p now active j Hu; cbn [fold_left]; [done|].
  pose proof (reapOrphan_inUse p now active i j Hu) as E. rewrite IH; [done|]. by eapply inUse_view.
Qed.

(** ** The session object of a node in use *)

Lemma forgetPeer_orphans_cell p o i j c : j ≠ i → ownsCell p j c →
  ownsCell (set_orphans (forgetPeer p i) o) j c ∧
  heap (store (ptun (set_orphans (forgetPeer p i) o))) !! c = heap (store (ptun p)) !! c.
Proof. exact (forgetPeer_cell p i j c). Qed.

Lemma reapOrphan_cell p now active i j c : inUse now active p j → ownsCell p j c →
  ownsCell (reapOrphan p now active i) j c ∧
  heap (store (ptun (reapOrphan p now active i))) !! c = heap (store (ptun p)) !! c.
Proof.
  intros [Hr Hu] Ho. unfold reapOrphan. destruct (bool_decide_reflect (i ∈ active)) as [Ha|Ha]; cbn [orb]; [done|].
  destruct (HasPeer (ptun p) i) eqn:Hp; [done|].
  destruct (if IsZero _ then _ else _) as [t|] eqn:Et; cbn zeta; [|done].
  destruct (_ <? time_sub now t) eqn:El; [|done]. apply forgetPeer_orphans_cell; [|done]. intros ->.
  destruct Hu as [?|[?|Hz]]; [done|congruence|]. rewrite Hz in Et. injection Et as <-.
  unfold reapable in Hr. rewrite Hz, bool_decide_eq_false_2, El in Hr by done. done.
Qed.

Lemma reapOrphans_cell l : ∀ p now active j c, inUse now active p j → ownsCell p j c →
  heap (store (ptun (fold_left (λ p id, reapOrphan p now active id) l p))) !! c = heap (store (ptun p)) !! c.
Proof.
  induction l as [|i l IH]; intros p now active j c Hu Ho; cbn [fold_left]; [done|].
  destruct (reapOrphan_cell p now active i j c Hu Ho) as [Ho' <-]. apply (IH _ _ _ j); [|done].
  eapply inUse_view; [by apply reapOrphan_inUse|done].
Qed.

Lemma reapPeers_cell l : ∀ p now active j c, reapable now active p j = false → ownsCell p j c →
  ownsCell (reapPeers p now active l) j c ∧
  heap (store (ptun (reapPeers p now active l))) !! c = heap (store (ptun p)) !! c.
Proof.
  induction l as [|i l IH]; intros p now active j c Hr Ho; [done|]. rewrite reapPeers_cons.
  destruct (reapable now active p i) eqn:E; [|by apply IH].
  assert (j ≠ i) as Hj by (intros ->; congruence). destruct (forgetPeer_cell p i j c Hj Ho) as [Ho' <-].
  apply IH; [|done]. by rewrite (reapable_view _ _ p) by (by apply forgetPeer_other).
Qed.

Lemma nodeView_seen p q j : nodeView q j = nodeView p j → orphanSeen q !! j = orphanSeen p !! j.
Proof. by intros (_ & _ & _ & ?)%nodeView_inv. Qed.

(** The clock of an orphan: kept, stopped, or started now. *)
Definition clockKept (now : gotime) (o o' : gmap Z gotime) (id : Z) : Prop :=
  o' !! id = o !! id ∨ o' !! id = None ∨ (o !! id = None ∧ o' !! id = Some now).

Lemma reapOrphan_clock p now active i j : clockKept now (orphanSeen p) (orphanSeen (reapOrphan p now active i)) j.
Proof.
  destruct (decide (j = i)) as [->|Hj].
  2:{ left. by apply nodeView_seen, reapOrphan_other. }
  unfold reapOrphan, clockKept. destruct (_ || _); [right; left; apply lookup_delete_eq|].
  destruct (IsZero (lastPeerContact p i)).
  - destruct (orphanSeen p !! i) as [t0|] eqn:E; [|right; right; split; [done|apply lookup_insert_eq]].
    destruct (_ <? _); [right; left; apply lookup_delete_eq|by left].
  - destruct (_ <? _); [right; left; apply lookup_delete_eq|by left].
Qed.

Lemma reapOrphans_clock l : ∀ p now active j, NoDup l →
  clockKept now (orphanSeen p) (orphanSeen (fold_left (λ p id, reapOrphan p now active id) l p)) j.
Proof.
  induction l as [|i l IH]; intros p now active j Hnd; cbn [fold_left]; [by left|].
  apply NoDup_cons in Hnd as [Hi Hnd]. destruct (decide (j = i)) as [->|Hj].
  - destruct (reapOrphans_spec l (reapOrphan p now active i) now active i) as [_ Hv]. specialize (Hv Hi).
    unfold clockKept. rewrite (nodeView_seen _ _ _ Hv). apply reapOrphan_clock.
  - unfold clockKept. rewrite <- (nodeView_seen _ _ _ (reapOrphan_other p now active i j Hj)). by apply IH.
Qed.

(** C35. After a sweep every tunnel entry has a connection, is new or was heard of in the
    last five minutes; whatever else is kept for a node has a tunnel entry, a
    connection, a recent contact, or was first found without any in the last five
    minutes, and the time it was first found does not move.  A node in use (not idle
    for more than five minutes, and with a connection, a tunnel entry or a recorded
    contact) is left as it was: its address, its relay flag and pin and every other
    routing entry, its key-exchange entries, the frames waiting for it, its session
    and its cached addresses, and the session object itself when, as the key
    exchange makes them, it is not another node's as well. *)
Theorem sweep_leaves_no_stale_state p now (order : gset Z → list Z) j :
  (∀ s, order s ≡ₚ elements s) →
  let active := ActiveNodeIDs (pports p) in
  let p' := reapStalePeers p now order in
  (HasPeer (ptun p') j = true → peerKept now active p' j) ∧
  orphanKept now active p' j ∧ clockKept now (orphanSeen p) (orphanSeen p') j ∧
  (inUse now active p j → nodeState p' j = nodeState p j ∧
     ∀ c, ownsCell p j c → heap (store (ptun p')) !! c = heap (store (ptun p)) !! c).
Proof.
  intros Hperm. assert (∀ s x, x ∈ order s ↔ x ∈ s) as Hord by (intros s x; rewrite Hperm; apply elem_of_elements).
  cbn zeta. unfold reapStalePeers, reapOrphanedPeerState. set (active := ActiveNodeIDs (pports p)).
  set (q := reapPeers p now active (order (dom (peers (ptun p))))). set (ids := statePeerIDs q).
  set (q' := set_orphans q _). destruct (reapPeers_spec (order (dom (peers (ptun p)))) p now active) as [Hseen Hv].
  fold q in Hv. destruct (Hv j) as [Hv1 Hv2]. destruct (reapOrphans_spec (order ids) q' now active j) as [Ho1 Ho2].
  assert (HasPeer (ptun q) j = true → reapable now active q j = false) as Hq.
  { intros Hj. apply Hv2. destruct (reapable now active p j) eqn:Er; [left|by right].
    apply Hord, elem_of_dom. by eapply reapPeers_has, Hj. }
  split_and!.
  - set (p' := fold_left _ _ _). intros Hp. apply reapable_kept.
    assert (HasPeer (ptun q) j = true) as Hqj by (by apply (reapOrphans_has (order ids) q' now active j)).
    assert (inUse now active q' j) as Hu by (split; [by apply Hq|right; by left]).
    pose proof (inUse_view _ _ _ _ _ (reapOrphans_inUse (order ids) q' now active j Hu) Hu) as [? _]. done.
  - destruct (decide (j ∈ order ids)) as [Hin|Hout]; [apply Ho1; by left|].
    intros Hp. exfalso. apply Hout, Hord. apply (nodeView_state _ _ _ (Ho2 Hout)) in Hp. exact Hp.
  - fold q in Hseen. rewrite <- Hseen. assert (NoDup (order ids)) as Hnd by (rewrite Hperm; apply NoDup_elements).
    pose proof (reapOrphans_clock (order ids) q' now active j Hnd) as Hc.
    unfold clockKept in *. destruct (decide (j ∈ ids)) as [Hj|Hj].
    + assert (orphanSeen q' !! j = orphanSeen q !! j) as <-; [|done].
      unfold q'. cbn [orphanSeen set_orphans]. rewrite map_lookup_filter.
      destruct (orphanSeen q !! j) as [t0|]; [|done]. cbn. by rewrite option_guard_True.
    + assert (j ∉ order ids) as Hout by (by rewrite Hord).
      rewrite (nodeView_seen _ _ _ (Ho2 Hout)). right; left.
      unfold q'. cbn [orphanSeen set_orphans]. apply map_lookup_filter_None_2. right. by intros x _.
  - intros Hu. assert (nodeView q j = nodeView p j) as E by (by apply Hv1; destruct Hu).
    assert (inUse now active q' j) as Hu'.
    { apply (inUse_view _ _ p); [|done]. unfold stateView. by rewrite <- E. }
    split.
    + pose proof (f_equal snd (reapOrphans_inUse (order ids) q' now active j Hu')) as E'.
      pose proof (f_equal (λ v, snd (fst v)) E) as E2. exact (eq_trans E' E2).
    + intros c Ho. destruct (reapPeers_cell (order (dom (peers (ptun p)))) p now active j c (proj1 Hu) Ho) as [Ho' Hh].
      etrans; [exact (reapOrphans_cell (order ids) q' now active j c Hu' Ho')|exact Hh].
Qed.
End ResolveProofs.

(** ** Witnesses *)

Module FindDemo.
#[local] Existing Instance documented_protocol.
#[local] Existing Instance toy_cipher.
#[local] Existing Instance Demo.list_codec.
#[local] Existing Instance Demo.one_key.

Definition beacon : UDPAddr := mkUDPAddr [34; 1; 2; 3] 9001.
(** Peer 7 hides behind the beacon, every other peer is on our LAN. *)
Definition hidden : ResolveReply := mkResolveReply (Some (str "198.51.100.7:4000")) None true None.
Definition onLAN : ResolveReply :=
  mkResolveReply (Some (str "203.0.113.5:4000")) (Some [Some (str "192.168.1.9:4000")]) false None.
Definition rsv : ResolveEnv :=
  mkResolveEnv (λ _ id, Some (if id =? 7 then hidden else onLAN))
    (λ a, Some (mkUDPAddr (if bool_decide (a = str "192.168.1.9:4000") then [192; 168; 1; 9] else [198; 51; 100; 7]) 4000)).
Definition tunB : TunnelManager :=
  set_routing (Demo.fresh0 1001) (mkRManager true (Some beacon) ∅ ∅ ∅ ∅ ∅ ∅ ∅ ∅ 1001 false).
Definition hostB : Host :=
  mkHost tunB (mkConns (Some O) 1 [] []) (mkReestablish 0 false)
    (mkIdent 1001 (mkAddr 0 1001) [1] [str "192.168.1.20:4000"] 0) 0 [].
Definition peering0 : Peering := mkPeering hostB ∅ ∅ ∅ 0 ∅ NewPortManager.

Definition found7 := ensureTunnel RegDemo.renv RegDemo.rcfg rsv peering0 RegDemo.t0 7.
Lemma relay_only_peer_stays_hidden_witness :
  fst found7 = None ∧ outbox (io (ptun (snd found7))) ≠ [] ∧
  (∃ ds, outbox (io (ptun (snd found7))) = outbox (io (ptun peering0)) ++ ds ∧
     Forall (λ d, ∃ f, d = (relayMsg (routing (ptun peering0)) 7 f, beacon)) ds) ∧
  (fst found7 = None → IsRelayPeer (routing (ptun (snd found7))) 7 = true ∧
     IsRelayPinned (routing (ptun (snd found7))) 7 = true).
Proof.
  split; [vm_compute; reflexivity|]. split; [vm_compute; discriminate|].
  apply (relay_only_peer_stays_hidden RegDemo.renv RegDemo.rcfg rsv peering0 RegDemo.t0 7 hidden beacon
           (fst found7) (snd found7)).
  - reflexivity.
  - right. split; reflexivity.
  - reflexivity.
  - reflexivity.
  - apply surjective_pairing.
Defined.

(** Before a beacon address is known, the relay flag and the pin do not help:
    WriteFrame falls through to the direct path. *)
Definition unled : Peering := set_ptun peering0
  (set_routing tunB (mkRManager true None ∅ ∅ ∅ ∅ ∅ ∅ ∅ ∅ 1001 false)).
Definition shown7 := ensureTunnel RegDemo.renv RegDemo.rcfg rsv unled RegDemo.t0 7.
Lemma relay_only_peer_without_beacon :
  fst shown7 = None ∧ IsRelayPinned (routing (ptun (snd shown7))) 7 = true ∧
  map snd (outbox (io (ptun (snd shown7)))) = [mkUDPAddr [198; 51; 100; 7] 4000].
Proof. vm_compute. done. Qed.

(** Peer 9 was found on the LAN and sent to, then nothing happened for six minutes. *)
Definition met9 : Peering := snd (ensureTunnel RegDemo.renv RegDemo.rcfg rsv peering0 RegDemo.t0 9).
Definition later : gotime := RegDemo.t0 + 6 * Minute.
Definition swept : Peering := reapStalePeers met9 later elements.
Lemma sweep_leaves_no_stale_state_witness :
  epAddr <$> (epCache met9 !! 9) = Some (str "192.168.1.9:4000") ∧
  HasPeer (ptun met9) 9 = true ∧ HasPeer (ptun swept) 9 = false ∧ bool_decide (9 ∈ statePeerIDs swept) = false ∧
  orphanKept later (ActiveNodeIDs (pports met9)) swept 9 ∧
  nodeState (reapStalePeers met9 (RegDemo.t0 + Minute) elements) 9 = nodeState met9 9.
Proof.
  split; [vm_compute; reflexivity|]. split; [vm_compute; reflexivity|].
  split; [vm_compute; reflexivity|]. split; [vm_compute; reflexivity|].
  split.
  - refine (proj1 (proj2 (sweep_leaves_no_stale_state met9 later elements 9 _))).
    intros s. reflexivity.
  - refine (proj1 (proj2 (proj2 (proj2 (sweep_leaves_no_stale_state met9 (RegDemo.t0 + Minute) elements 9 _))) _)).
    + intros s. reflexivity.
    + split; [vm_compute; reflexivity|]. right; left. vm_compute. reflexivity.
Defined.
End FindDemo.
