(* ===== verification/PathWatch.v ===== *)
(** * The per-peer path watcher (pkg/daemon/pathwatch.go)

    Every 10 s each peer with a session that is in use is looked at: one silent for
    55 s is probed up to three times, then its path is reset in place.  A peer the
    key exchange gave up on is reset too, at most every 30 s.

    [Watcher] is the watcher's memory beside the daemon's [Peering].  A reset asked
    for by the key exchange runs in a goroutine of its own: [onRekeyGaveUp] queues
    it and [runGaveUpReset] is that goroutine.  The key exchange names the peers it
    gives up on by the hook events of [KeyExchange]. *)
From stdpp Require Import strings.
From S2P Require Import Prelude GoText NetIP Crypto KeyStore Protocol Envelope KeyExchange Routing Tunnel.
From S2P Require Import Admission Conn PortManager Registry RxWatchdog Resolve.
Open Scope Z_scope.

Definition pathWatchTickInterval : duration := 10 * Second.
Definition pathSilenceThreshold : duration := 55 * Second.
Definition pathProbeMax : Z := 3.
Definition pathResetCooldown : duration := 2 * Minute.
Definition gaveUpResetCooldown : duration := 30 * Second.

Record pathPeerState := mkPathState { probesSent : Z; lastResetAt : gotime }.

Inductive pathWatchAction :=
| pathActionHealthy | pathActionProbe | pathActionReset | pathActionCooldown | pathActionSkip.
#[export] Instance pathWatchAction_eq_dec : EqDecision pathWatchAction.
Proof. solve_decision. Defined.

Inductive PathEvent :=
| EvPathRecovered (id probes : Z)
| EvPathSuspect (id probes : Z)
| EvPathGaveUp (id : Z).

Record peerPathReset := mkPathReset {
  HadTunnel : bool; WasRelayActive : bool; WasRelayPinned : bool; PilaPushed : bool;
  ResolveErr : option (option EnsureErr);   (* [Some None]: no registry connection *)
}.

Section PathWatch.
Context {P : Protocol} {W : PacketCodec} {K : Type} {C : Cipher K} {X : Primitives K}.
Context (env : RegEnv) (cfg : RegConfig) (renv : ResolveEnv).
Implicit Types p : Peering (K := K) (X := X).

(** [pendingResets]: goroutines [onRekeyGaveUp] started. *)
Record Watcher := mkWatcher {
  peering : Peering (K := K) (X := X);
  states : gmap Z pathPeerState;
  lastGaveUpReset : gmap Z gotime;
  pendingResets : list Z;
  pathEvents : list PathEvent;
}.
Implicit Types w : Watcher.
Definition set_peering w p : Watcher := mkWatcher p (states w) (lastGaveUpReset w) (pendingResets w) (pathEvents w).
Definition set_states w s : Watcher := mkWatcher (peering w) s (lastGaveUpReset w) (pendingResets w) (pathEvents w).
Definition publish w (e : PathEvent) : Watcher :=
  mkWatcher (peering w) (states w) (lastGaveUpReset w) (pendingResets w) (pathEvents w ++ [e]).

(** What a reset clears and puts back, before it resolves the peer again. *)
Definition clearPeerPath p (id : Z) : Peering :=
  let t := ptun p in
  let hadTunnel := HasPeer t id in
  let wasActive := IsRelayPeer (routing t) id in
  let t := if IsRelayPinned (routing t) id then set_routing t (SetRelayPeerPinned (routing t) id false) else t in
  let p := forgetPeerResolution (set_ptun p t) id in
  let lastUse := activity t !! id in
  let t := if hadTunnel then tmRemovePeer t id else t in
  let t := match lastUse with Some use => noteAppActivity t use id | None => t end in
  let t := if wasActive then set_routing t (SetRelayPeer (routing t) id true) else t in
  let t := ClearLastRekeyReq t id in
  set_ptun p (set_kx t (ClearRekeyGaveUp (kx t) id)).

Definition resetPeerPath p (now : gotime) (id : Z) : peerPathReset * Peering :=
  let t := ptun p in
  let res := mkPathReset (HasPeer t id) (IsRelayPeer (routing t) id) (IsRelayPinned (routing t) id) in
  let p := clearPeerPath p id in
  match regConn (conns (phost p)) with
  | None => (res false (Some None), p)
  | Some _ =>
      let '(e, p) := ensureTunnel env cfg renv p now id in
      match e with
      | Some e => (res false (Some (Some e)), p)
      | None => (res true None, set_ptun p (sendKeyExchangeToNode (ptun p) now id))
      end
  end.

(** The decision of [pathWatchPeer]: what is done, and the peer's next state. *)
Definition pathDecision (last : option gotime) (st : pathPeerState) (now : gotime)
  : pathWatchAction * pathPeerState :=
  match last with
  | None => (pathActionSkip, st)
  | Some last =>
      if time_sub now last <? pathSilenceThreshold then (pathActionHealthy, mkPathState 0 (lastResetAt st))
      else if negb (IsZero (lastResetAt st)) && (time_sub now (lastResetAt st) <? pathResetCooldown)
      then (pathActionCooldown, st)
      else if probesSent st <? pathProbeMax
      then (pathActionProbe, mkPathState (probesSent st + 1) (lastResetAt st))
      else (pathActionReset, mkPathState 0 now)
  end.

Definition pathWatchPeer w (id : Z) (st : pathPeerState) (now : gotime) : pathWatchAction * pathPeerState * Watcher :=
  let '(act, st') := pathDecision (LastInboundDecrypt (kx (ptun (peering w))) id) st now in
  let w' :=
    match act with
    | pathActionHealthy => if 0 <? probesSent st then publish w (EvPathRecovered id (probesSent st)) else w
    | pathActionProbe => set_peering w (set_ptun (peering w) (snd (SendPathProbe (ptun (peering w)) now id)))
    | pathActionReset =>
        let w := publish w (EvPathSuspect id (probesSent st)) in
        set_peering w (snd (resetPeerPath (peering w) now id))
    | pathActionCooldown | pathActionSkip => w
    end in
  (act, st', w').

(** One peer of a tick; [open]: peers with an open connection when the tick began. *)
Definition watchOne (now : gotime) (open : gset Z) (wl : Watcher * gset Z) (id : Z) : Watcher * gset Z :=
  let '(w, live) := wl in
  if idleFilter (ptun (peering w)) now open id then (w, live)
  else
    let st := default (mkPathState 0 zero_time) (states w !! id) in
    let '(_, st', w) := pathWatchPeer w id st now in
    (set_states w (<[id := st']> (states w)), {[id]} ∪ live).

(** [order]: how the range over the tunnel's map enumerates it. *)
Definition pathWatchTick (order : gset Z → list Z) w (now : gotime) : Watcher :=
  let ready := order (ReadyPeerIDs (ptun (peering w))) in
  let open := ActiveNodeIDs (pports (peering w)) in
  let '(w, live) := fold_left (watchOne now open) ready (w, ∅) in
  set_states w (filter (λ e, e.1 ∈ live) (states w)).

(** ** Peers the key exchange gave up on *)

Definition onRekeyGaveUp w (now : gotime) (id : Z) : Watcher :=
  if negb (peerInUse (ptun (peering w)) now (ActiveNodeIDs (pports (peering w))) id) then w
  else if match lastGaveUpReset w !! id with
          | Some last => time_sub now last <? gaveUpResetCooldown
          | None => false
          end then w
  else
    let m := <[id := now]> (lastGaveUpReset w) in
    let m := if 1024 <? Z.of_nat (size m)
             then filter (λ e, time_sub now e.2 <= 5 * gaveUpResetCooldown) m else m in
    mkWatcher (peering w) (states w) m (pendingResets w ++ [id]) (pathEvents w).

(** The [n]-th of the goroutines runs. *)
Definition runGaveUpReset w (now : gotime) (n : nat) : Watcher :=
  match pendingResets w !! n with
  | None => w
  | Some id =>
      let w := mkWatcher (snd (resetPeerPath (peering w) now id)) (states w) (lastGaveUpReset w)
                 (take n (pendingResets w) ++ drop (S n) (pendingResets w)) (pathEvents w) in
      publish w (EvPathGaveUp id)
  end.
End PathWatch.
