(* ===== verification/PathWatchProofs.v ===== *)
(** * Theorems about the path watcher ([PathWatch])

    A path is reset only after three unanswered probes, and never while the peer is
    heard; a reset replaces the session of one peer and leaves the others alone;
    resets after a failed key exchange are spaced out; the two-minute cooldown after
    a reset does not survive a tick without a session. *)
From stdpp Require Import strings.
From S2P Require Import Prelude GoText NetIP Crypto KeyStore Protocol Envelope KeyExchange Routing Tunnel.
From S2P Require Import TunnelProofs Rekey TunnelTheorems Admission Conn PortManager.
From S2P Require Import Registry RegistryProofs RxWatchdog Resolve ResolveProofs PathWatch.
Open Scope Z_scope.

(** ** The decisions about one peer *)

(** One look at a peer: when it was last heard, and the time. *)
Definition look : Type := option gotime * gotime.
Fixpoint watched (st : pathPeerState) (ls : list look) : list pathWatchAction :=
  match ls with
  | [] => []
  | l :: ls => let '(a, st) := pathDecision l.1 st l.2 in a :: watched st ls
  end.
Fixpoint watchedState (st : pathPeerState) (ls : list look) : pathPeerState :=
  match ls with
  | [] => st
  | l :: ls => watchedState (snd (pathDecision l.1 st l.2)) ls
  end.
(** Probes since the peer was last heard in time or reset. *)
Definition countProbe (n : Z) (a : pathWatchAction) : Z :=
  match a with
  | pathActionProbe => n + 1
  | pathActionHealthy | pathActionReset => 0
  | pathActionCooldown | pathActionSkip => n
  end.
Definition probesSince (n : Z) (acts : list pathWatchAction) : Z := fold_left countProbe acts n.
(** The time of the last reset among some looks. *)
Fixpoint lastReset (at_ : gotime) (ls : list look) (acts : list pathWatchAction) : gotime :=
  match ls, acts with
  | l :: ls, a :: acts => lastReset (if decide (a = pathActionReset) then l.2 else at_) ls acts
  | _, _ => at_
  end.

Lemma pathDecision_counts last st now :
  probesSent (snd (pathDecision last st now)) = countProbe (probesSent st) (fst (pathDecision last st now)) ∧
  lastResetAt (snd (pathDecision last st now)) =
    (if decide (fst (pathDecision last st now) = pathActionReset) then now else lastResetAt st).
Proof.
  unfold pathDecision. destruct last as [l|]; [|done]. destruct (_ <? pathSilenceThreshold); [done|].
  destruct (_ && _); [done|]. by destruct (_ <? pathProbeMax).
Qed.

Lemma watchedState_counts ls : ∀ st,
  probesSent (watchedState st ls) = probesSince (probesSent st) (watched st ls) ∧
  lastResetAt (watchedState st ls) = lastReset (lastResetAt st) ls (watched st ls).
Proof.
  induction ls as [|l ls IH]; intros st; cbn; [done|].
  destruct (pathDecision_counts l.1 st l.2) as [H1 H2].
  destruct (pathDecision l.1 st l.2) as [a st']. cbn in *. destruct (IH st') as [I1 I2]. rewrite I1, I2, H1, H2. done.
Qed.

Lemma watchedState_bound ls : ∀ st, probesSent st <= pathProbeMax → probesSent (watchedState st ls) <= pathProbeMax.
Proof.
  induction ls as [|l ls IH]; intros st H; cbn; [done|]. apply IH. unfold pathDecision.
  destruct l.1; [|done]. destruct (_ <? _); [cbn; unfold pathProbeMax; lia|]. destruct (_ && _); [done|].
  destruct (_ <? _) eqn:E; zbool; cbn; unfold pathProbeMax in *; lia.
Qed.

Lemma watched_app st ls l :
  watched st (ls ++ [l]) = watched st ls ++ [fst (pathDecision l.1 (watchedState st ls) l.2)].
Proof.
  revert st. induction ls as [|m ls IH]; intros st; cbn; [by destruct (pathDecision _ _ _)|].
  destruct (pathDecision m.1 st m.2) as [a st']. cbn. by rewrite IH.
Qed.

(** Whatever was seen of a peer since the watcher first saw it: its path is reset
    only when it has been silent for 55 s, exactly three probes were sent since it
    was last heard in time, and two minutes passed since the last reset the watcher
    remembers; a peer heard in the last 55 s is neither probed nor reset. *)
Theorem path_reset_is_earned ls last now :
  let st0 := mkPathState 0 zero_time in
  let act := fst (pathDecision last (watchedState st0 ls) now) in
  (act = pathActionReset →
    (∃ t, last = Some t ∧ pathSilenceThreshold <= time_sub now t) ∧
    probesSince 0 (watched st0 ls) = pathProbeMax ∧
    (lastReset zero_time ls (watched st0 ls) = zero_time ∨
     pathResetCooldown <= time_sub now (lastReset zero_time ls (watched st0 ls)))) ∧
  (∀ t, last = Some t → time_sub now t < pathSilenceThreshold →
    act = pathActionHealthy ∧ probesSent (snd (pathDecision last (watchedState st0 ls) now)) = 0).
Proof.
  cbn zeta. destruct (watchedState_counts ls (mkPathState 0 zero_time)) as [H1 H2].
  pose proof (watchedState_bound ls (mkPathState 0 zero_time) ltac:(done)) as Hb.
  cbn [probesSent lastResetAt] in *. rewrite <- H1, <- H2. set (st := watchedState _ ls) in *.
  unfold pathDecision. destruct last as [t|]; [|split; [done|intros t; done]].
  destruct (time_sub now t <? pathSilenceThreshold) eqn:E1; zbool.
  { split; [done|]. by intros _ [= <-] _. }
  split; [|intros t' [= <-]; lia].
  destruct (negb (IsZero (lastResetAt st)) && _) eqn:E2; [done|].
  destruct (probesSent st <? pathProbeMax) eqn:E3; [done|]. zbool. intros _.
  split; [by exists t|]. split; [lia|]. zbool. destruct E2 as [E2|E2].
  - left. unfold IsZero in E2. destruct (_ =? _) eqn:E; [by zbool|done].
  - right. by zbool.
Qed.


Section PathWatchProofs.
Context {P : Protocol} {W : PacketCodec} {K : Type} {C : Cipher K} {X : Primitives K}.
Context (env : RegEnv) (cfg : RegConfig) (renv : ResolveEnv).
Implicit Types w : Watcher (K := K) (X := X).
Implicit Types p : Peering (K := K) (X := X).
Implicit Types t : TunnelManager (K := K) (X := X).

(** ** What sending leaves alone *)

(** Sessions, activity, the times peers were heard, and the tunnel entries. *)
Record keeps t t' : Prop := {
  kp_crypto : crypto (store t') = crypto (store t);
  kp_activity : activity t' = activity t;
  kp_heard : lastInboundDecrypt (rk (kx t')) = lastInboundDecrypt (rk (kx t));
  kp_peers : peers t' = peers t;
}.
#[local] Instance keeps_refl : Reflexive keeps.
Proof. by split. Qed.
#[local] Instance keeps_trans : Transitive keeps.
Proof. intros t1 t2 t3 [? ? ? ?] [? ? ? ?]. split; congruence. Qed.

Lemma ResetPendingRekeyAttempts_heard (m : Manager (K := K) (X := X)) id :
  lastInboundDecrypt (rk (ResetPendingRekeyAttempts m id)) = lastInboundDecrypt (rk m) ∧
  crypto (KeyExchange.env (ResetPendingRekeyAttempts m id)) = crypto (KeyExchange.env m).
Proof. unfold ResetPendingRekeyAttempts. by repeat case_match. Qed.

Lemma writeFrame_keeps t now id a f : keeps t (snd (writeFrame t now id a f)).
Proof.
  unfold writeFrame. destruct (WriteFrame _ _ _ _ _ _) as [[dg res] r]. cbn [snd].
  set (t1 := match dg with Some d => sockSend (set_routing t r) d | None => set_routing t r end).
  assert (keeps t t1) as H by (unfold t1; by destruct dg). destruct (_ && _); [|done].
  etrans; [exact H|]. destruct (ResetPendingRekeyAttempts_heard (kx t1) id). by split.
Qed.

Lemma kxSend_keeps t now id : keeps t (snd (kxSend t now id)).
Proof.
  unfold kxSend. destruct (BuildUnauthFrame (kx t)) as [uf|]; [|done]. set (f := default uf _). clearbody f.
  set (x := if _ && _ then _ else _).
  assert (keeps t (snd x)) as Hx.
  { unfold x. destruct (_ && _); [|done]. unfold takeKeyRequest. by destruct (bool_decide _). }
  destruct x as [kr t1]. cbn [snd] in Hx. pose proof (writeFrame_keeps t1 now id (peerAddr t id) f) as H2.
  destruct (writeFrame t1 _ _ _ f) as [[e|] t2]; cbn [snd] in H2; [by etrans|].
  set (y := if kr then _ else (false, t2)).
  assert (keeps t2 (snd y)) as Hy.
  { unfold y. destruct kr; [|done]. pose proof (writeFrame_keeps t2 now id (peerAddr t id) uf) as H3.
    destruct (writeFrame t2 _ _ _ uf) as [[e|] t3]; cbn [snd] in H3; [done|]. etrans; [exact H3|by split]. }
  destruct y as [kr' t3]. cbn [snd] in *. etrans; [exact Hx|]. etrans; [exact H2|]. etrans; [exact Hy|].
  unfold MarkPendingRekey. by destruct (match rekeyGaveUp _ !! _ with Some _ => _ | None => _ end).
Qed.

Lemma relayCopy_keeps t id f : keeps t (relayCopy t id f).
Proof. unfold relayCopy. by destruct (SendRelayFrame _ _ _). Qed.

Lemma sendKeyExchange_keeps t now id : keeps t (sendKeyExchangeToNode t now id).
Proof.
  unfold sendKeyExchangeToNode. pose proof (kxSend_keeps t now id) as H.
  destruct (kxSend t now id) as [q t1]. cbn [snd] in H. destruct (_ || _); [done|].
  destruct (match (if HasIdentity _ then _ else _) with Some _ => _ | None => _ end) as [f|]; [|done].
  etrans; [exact H|]. pose proof (relayCopy_keeps t1 id f) as H2. destruct q; [|done].
  destruct (BuildUnauthFrame _); [|done]. etrans; [exact H2|]. apply relayCopy_keeps.
Qed.

(** [keeps] but for the tunnel entry of one peer. *)
Record keepsBut (id : Z) t t' : Prop := {
  kb_crypto : crypto (store t') = crypto (store t);
  kb_activity : activity t' = activity t;
  kb_heard : lastInboundDecrypt (rk (kx t')) = lastInboundDecrypt (rk (kx t));
  kb_peers : ∀ j, j ≠ id → peers t' !! j = peers t !! j;
}.
Lemma keepsBut_keeps id t1 t2 t3 : keeps t1 t2 → keepsBut id t2 t3 → keepsBut id t1 t3.
Proof. intros [? ? ? ?] [? ? ? Hp]. split; [congruence..|]. intros j Hj. rewrite Hp by done. congruence. Qed.

Lemma AddPeer_keepsBut t now id a : keepsBut id t (AddPeer t now id a).
Proof.
  unfold AddPeer. set (t1 := set_peers t _).
  assert (keepsBut id t t1) as H1.
  { split; try done. intros j Hj. unfold t1. cbn. by rewrite lookup_insert_ne. }
  destruct (_ && _); [|done]. destruct (sendKeyExchange_keeps t1 now id) as [H2 H3 H4 H5], H1 as [G1 G2 G3 G4].
  split; [congruence..|]. intros j Hj. rewrite H5. by apply G4.
Qed.

Lemma ensureTunnel_keepsBut p now id : keepsBut id (ptun p) (ptun (snd (ensureTunnel env cfg renv p now id))).
Proof.
  assert (∀ q r, ptun q = ptun p → keepsBut id (ptun p) (ptun (snd (usePeerReply env cfg renv q now id r)))) as Huse.
  { intros q r <-. unfold usePeerReply. destruct (real_addr r) as [[|x l]|]; [by split| |by split]. cbv zeta.
    destruct (resolveUDP renv _); [|by split]. destruct (relay_only r); cbn [snd].
    - eapply keepsBut_keeps; [|apply AddPeer_keepsBut]. by split.
    - eapply keepsBut_keeps; [|apply AddPeer_keepsBut]. destruct (_ && _); [|done].
      unfold tmRequestHolePunch. cbn. by destruct (RequestHolePunch _ _). }
  unfold ensureTunnel. destruct (HasPeer (ptun p) id); [by split|].
  destruct (cachedResolve p now id) as [r|]; [by apply Huse|]. unfold askRegistry.
  destruct (resolveAns renv (resolves p) id) as [r|]; [by apply Huse|].
  destruct (cachedEndpoint _ id) as [ep|]; [|by split]. destruct (resolveUDP renv ep); [|by split].
  apply (AddPeer_keepsBut (ptun p)).
Qed.

(** ** What a reset does *)

Lemma Drop_crypto (s : Store K) id : crypto (Drop s id) = delete id (crypto s).
Proof. unfold Drop. by rewrite crypto_wipe. Qed.

Lemma restore_activity (m : gmap Z gotime) id :
  match m !! id with Some use => <[id := use]> (delete id m) | None => delete id m end = m.
Proof.
  destruct (m !! id) as [u|] eqn:E; [by apply insert_delete_id|by apply delete_id].
Qed.

(** Clearing removes the peer's session, its tunnel entry and what was resolved, and
    keeps the relay flag (without the pin) and the time the peer was last used. *)
Lemma clearPeerPath_spec p id : HasPeer (ptun p) id = true →
  let q := clearPeerPath p id in
  crypto (store (ptun q)) = delete id (crypto (store (ptun p))) ∧
  activity (ptun q) = activity (ptun p) ∧
  peers (ptun q) = delete id (peers (ptun p)) ∧
  lastInboundDecrypt (rk (kx (ptun q))) = delete id (lastInboundDecrypt (rk (kx (ptun p)))) ∧
  resolves q = resolves p ∧ regConn (conns (phost q)) = regConn (conns (phost p)) ∧
  epCache q = delete id (epCache p) ∧ resolveCache q = delete id (resolveCache p).
Proof.
  intros Hp q. unfold q, clearPeerPath. rewrite Hp.
  set (t := if IsRelayPinned _ id then _ else _).
  assert (store t = store (ptun p) ∧ activity t = activity (ptun p) ∧ peers t = peers (ptun p) ∧ kx t = kx (ptun p))
    as (E1 & E2 & E3 & E4) by (unfold t; by destruct (IsRelayPinned _ _)).
  set (t1 := match activity t !! id with Some use => _ | None => tmRemovePeer t id end).
  assert (crypto (store t1) = delete id (crypto (store t)) ∧ activity t1 = activity t ∧
    peers t1 = delete id (peers t) ∧
    lastInboundDecrypt (rk (kx t1)) = delete id (lastInboundDecrypt (rk (kx t)))) as (F1 & F2 & F3 & F4).
  { rewrite <- Drop_crypto. pose proof (restore_activity (activity t) id) as Ha. unfold t1.
    destruct (activity t !! id); split_and!; done. }
  rewrite <- E1, <- E2, <- E3, <- E4, <- F1, <- F2, <- F3, <- F4.
  by destruct (IsRelayPeer (routing (ptun p)) id).
Qed.

(** An answer of the registry is used as [usePeerReply] does: the new tunnel entry
    holds the address it names. *)
Lemma usePeerReply_address p now id r : fst (usePeerReply env cfg renv p now id r) = None →
  ∃ real a, real_addr r = Some real ∧ resolveUDP renv (targetAddrFor env p r real) = Some a ∧
    peers (ptun (snd (usePeerReply env cfg renv p now id r))) !! id = Some (Some a).
Proof.
  unfold usePeerReply. destruct (real_addr r) as [[|x l]|]; [done| |done]. cbv zeta.
  destruct (resolveUDP renv _) as [a|] eqn:Ea; [|done]. intros _. exists (x :: l), a. split; [done|]. split; [done|].
  assert (∀ t, peers (AddPeer t now id (Some a)) !! id = Some (Some a)) as H.
  { intros t. unfold AddPeer. destruct (_ && _); [rewrite (kp_peers _ _ (sendKeyExchange_keeps _ now id))|];
      apply lookup_insert_eq. }
  destruct (relay_only r); apply H.
Qed.

(** Without an entry and with nothing cached, success means the registry answered. *)
Lemma ensureTunnel_fresh p now id :
  HasPeer (ptun p) id = false → cachedResolve p now id = None → cachedEndpoint p id = None →
  fst (ensureTunnel env cfg renv p now id) = None →
  ∃ r real a, resolveAns renv (resolves p) id = Some r ∧ real_addr r = Some real ∧
    resolveUDP renv (targetAddrFor env (cacheResolve (snd (askRegistry renv p id)) now id r) r real) = Some a ∧
    peers (ptun (snd (ensureTunnel env cfg renv p now id))) !! id = Some (Some a).
Proof.
  intros Hp Hc He. unfold ensureTunnel. rewrite Hp, Hc. cbn [askRegistry].
  destruct (resolveAns renv (resolves p) id) as [r|] eqn:Er.
  - intros H. destruct (usePeerReply_address _ _ _ _ H) as (real & a & H1 & H2 & H3). by exists r, real, a.
  - change (cachedEndpoint _ id) with (cachedEndpoint p id). by rewrite He.
Qed.

(** A reset of one peer drops its session and its tunnel entry, forgets what was
    resolved and asks the registry once; a key exchange is pushed exactly when that
    makes a new entry, at the address the registry named just now.  The other peers
    and the record of who is used stay as they were. *)
Theorem reset_starts_over p now id res p' :
  HasPeer (ptun p) id = true → resetPeerPath env cfg renv p now id = (res, p') →
  crypto (store (ptun p')) = delete id (crypto (store (ptun p))) ∧
  activity (ptun p') = activity (ptun p) ∧
  (∀ j, j ≠ id → peers (ptun p') !! j = peers (ptun p) !! j) ∧
  (∀ j, j ≠ id → LastInboundDecrypt (kx (ptun p')) j = LastInboundDecrypt (kx (ptun p)) j) ∧
  PilaPushed res = HasPeer (ptun p') id ∧
  match regConn (conns (phost p)) with
  | None => PilaPushed res = false ∧ resolves p' = resolves p
  | Some _ =>
      resolves p' = S (resolves p) ∧
      (PilaPushed res = true → ∃ r real a q, resolveAns renv (resolves p) id = Some r ∧ real_addr r = Some real ∧
         phost q = phost (clearPeerPath p id) ∧
         resolveUDP renv (targetAddrFor env q r real) = Some a ∧ peers (ptun p') !! id = Some (Some a))
  end.
Proof.
  intros Hp. unfold resetPeerPath. destruct (clearPeerPath_spec p id Hp) as (C1 & C2 & C3 & C4 & C5 & C6 & C7 & C8).
  set (q := clearPeerPath p id) in *. rewrite <- C6.
  assert (HasPeer (ptun q) id = false) as Hq.
  { unfold HasPeer. rewrite C3, lookup_delete_eq. by rewrite bool_decide_eq_false_2 by (by intros [? ?]). }
  destruct (regConn (conns (phost q))) as [k|] eqn:Ek; cycle 1.
  { intros [= <- <-]. split_and!; try done; intros j Hj; [|unfold LastInboundDecrypt; rewrite C4];
      rewrite ?C3, ?lookup_delete_ne; done. }
  pose proof (ensureTunnel_keepsBut q now id) as [B1 B2 B3 B4].
  pose proof (ensureTunnel_resolves env cfg renv q now id) as R.
  rewrite Hq in R. cbn [orb] in R. unfold cachedResolve in R. rewrite C8, lookup_delete_eq, bool_decide_eq_false_2 in R by (by intros [? ?]). clearbody q.
  assert (cachedEndpoint q id = None) as Hep by (unfold cachedEndpoint; by rewrite C7, lookup_delete_eq).
  pose proof (ensureTunnel_fresh q now id Hq ltac:(unfold cachedResolve; by rewrite C8, lookup_delete_eq) Hep) as F.
  pose proof (ensureTunnel_makes_peer env cfg renv q now id) as M.
  destruct (ensureTunnel env cfg renv q now id) as [[e|] q'] eqn:E; cbn [fst snd] in *; intros [= <- <-].
  - specialize (M _ _ eq_refl). cbn beta iota in M.
    split_and!; [congruence|congruence| | |cbn [PilaPushed]; by rewrite M, Hq|by rewrite R, C5|done].
    + intros j Hj. rewrite B4, C3, lookup_delete_ne; done.
    + intros j Hj. unfold LastInboundDecrypt. rewrite B3, C4, lookup_delete_ne; done.
  - specialize (M _ _ eq_refl). cbn beta iota in M. destruct (sendKeyExchange_keeps (ptun q') now id) as [K1 K2 K3 K4].
    change (ptun (set_ptun q' (sendKeyExchangeToNode (ptun q') now id))) with (sendKeyExchangeToNode (ptun q') now id).
    split_and!; [congruence|congruence| | | |by cbn; rewrite R, C5|].
    + intros j Hj. rewrite K4, B4, C3, lookup_delete_ne; done.
    + intros j Hj. unfold LastInboundDecrypt. rewrite K3, B3, C4, lookup_delete_ne; done.
    + unfold HasPeer in *. rewrite K4, M. done.
    + intros _. destruct (F eq_refl) as (r & real & a & G1 & G2 & G3 & G4). rewrite C5 in G1.
      exists r, real, a, q. split_and!; [done|done|done|exact G3|by rewrite K4].
Qed.

(** ** One tick *)

(** A step on behalf of [id] leaves alone what the watcher reads of the others. *)
Definition othersKept (id : Z) p p' : Prop :=
  activity (ptun p') = activity (ptun p) ∧
  ∀ j, j ≠ id → LastInboundDecrypt (kx (ptun p')) j = LastInboundDecrypt (kx (ptun p)) j.

Lemma clearPeerPath_others p id : othersKept id p (clearPeerPath p id).
Proof.
  destruct (HasPeer (ptun p) id) eqn:Hp.
  - destruct (clearPeerPath_spec p id Hp) as (_ & C2 & _ & C4 & _). split; [done|]. intros j Hj.
    unfold LastInboundDecrypt. by rewrite C4, lookup_delete_ne.
  - unfold othersKept, clearPeerPath. rewrite Hp. set (t := if IsRelayPinned _ id then _ else _).
    assert (activity t = activity (ptun p) ∧ kx t = kx (ptun p)) as [<- <-] by (unfold t; by destruct (IsRelayPinned _ _)).
    destruct (activity t !! id) as [u|] eqn:Eu.
    + apply insert_id in Eu. by destruct (IsRelayPeer (routing (ptun p)) id).
    + by destruct (IsRelayPeer (routing (ptun p)) id).
Qed.

Lemma resetPeerPath_others p now id : othersKept id p (snd (resetPeerPath env cfg renv p now id)).
Proof.
  unfold resetPeerPath. destruct (clearPeerPath_others p id) as [H1 H2].
  destruct (regConn _); [|done]. destruct (ensureTunnel_keepsBut (clearPeerPath p id) now id) as [_ B2 B3 _].
  destruct (ensureTunnel env cfg renv (clearPeerPath p id) now id) as [[e|] q] eqn:E; cbn [snd] in *.
  - split; [congruence|]. intros j Hj. rewrite <- H2 by done. unfold LastInboundDecrypt. by rewrite B3.
  - change (ptun (set_ptun q (sendKeyExchangeToNode (ptun q) now id))) with (sendKeyExchangeToNode (ptun q) now id) in *.
    destruct (sendKeyExchange_keeps (ptun q) now id) as [_ K2 K3 _]. split; [change (activity (sendKeyExchangeToNode (ptun q) now id) = activity (ptun p)); congruence|].
    intros j Hj. rewrite <- H2 by done. change (LastInboundDecrypt (kx (sendKeyExchangeToNode (ptun q) now id)) j =
      LastInboundDecrypt (kx (ptun (clearPeerPath p id))) j). unfold LastInboundDecrypt. by rewrite K3, B3.
Qed.

Lemma SendPathProbe_others p now id : othersKept id p (set_ptun p (snd (SendPathProbe (ptun p) now id))).
Proof.
  unfold SendPathProbe. destruct (peerAddr _ _) as [a|]; [|done]. destruct (Get _ _) as [pc|]; [|done].
  destruct (IsReady _ _); [|done]. destruct (Marshal _) as [pt|]; [|done].
  destruct (encryptFrame (ptun p) pc pt) as [f t1] eqn:E. unfold encryptFrame in E.
  destruct (EncryptWith _ _ _) as [f' s]. injection E as <- <-.
  pose proof (writeFrame_keeps (set_store (ptun p) s) now id (Some a) f') as [_ K2 K3 _].
  destruct (writeFrame _ _ _ _ _) as [e t2]. cbn [snd] in *.
  split; [exact K2|]. intros j Hj. change (LastInboundDecrypt (kx t2) j = LastInboundDecrypt (kx (ptun p)) j).
  unfold LastInboundDecrypt. by rewrite K3.
Qed.

Definition watchState w (id : Z) : pathPeerState := default (mkPathState 0 zero_time) (states w !! id).
Definition heard w (id : Z) : option gotime := LastInboundDecrypt (kx (ptun (peering w))) id.

Lemma watchOne_spec now open w live id w' live' :
  watchOne env cfg renv now open (w, live) id = (w', live') →
  let idle := idleFilter (ptun (peering w)) now open id in
  activity (ptun (peering w')) = activity (ptun (peering w)) ∧
  (∀ j, j ≠ id → heard w' j = heard w j ∧ states w' !! j = states w !! j) ∧
  live' = (if idle then live else {[id]} ∪ live) ∧
  states w' !! id = (if idle then states w !! id
                     else Some (snd (pathDecision (heard w id) (watchState w id) now))).
Proof.
  unfold watchOne. destruct (idleFilter _ _ _ _); [by intros [= <- <-]|]. unfold pathWatchPeer.
  change (default (mkPathState 0 zero_time) (states w !! id)) with (watchState w id). fold (heard w id).
  destruct (pathDecision (heard w id) (watchState w id) now) as [act st'].
  set (w1 := match act with pathActionHealthy => _ | _ => _ end). intros [= <- <-].
  assert (othersKept id (peering w) (peering w1) ∧ states w1 = states w) as [[Ha Hh] ->].
  { unfold w1. destruct act; try done; [by destruct (0 <? _)|split; [apply SendPathProbe_others|done]|].
    split; [apply resetPeerPath_others|done]. }
  split; [exact Ha|]. split; [|split; [done|apply lookup_insert_eq]].
  intros j Hj. split; [by apply Hh|]. by apply lookup_insert_ne.
Qed.

Lemma watchAll_spec now open l : ∀ w live w' live', NoDup l →
  fold_left (watchOne env cfg renv now open) l (w, live) = (w', live') → ∀ id,
  let idle := idleFilter (ptun (peering w)) now open id in
  (id ∈ live' ↔ id ∈ live ∨ (id ∈ l ∧ idle = false)) ∧
  states w' !! id = (if decide (id ∈ l ∧ idle = false)
                     then Some (snd (pathDecision (heard w id) (watchState w id) now)) else states w !! id).
Proof.
  induction l as [|i l IH]; intros w live w' live' Hnd E id; cbn zeta; cbn [fold_left] in E.
  { injection E as <- <-. rewrite decide_False by (intros [H _]; by apply elem_of_nil in H). set_solver. }
  apply NoDup_cons in Hnd as [Hi Hnd]. destruct (watchOne env cfg renv now open (w, live) i) as [w1 live1] eqn:E1.
  apply watchOne_spec in E1 as (Ha & Ho & -> & Hs). cbn zeta in Hs.
  destruct (IH _ _ _ _ Hnd E id) as [I1 I2]. cbn zeta in I1, I2.
  assert (idleFilter (ptun (peering w1)) now open id = idleFilter (ptun (peering w)) now open id) as Hid
    by (unfold idleFilter; by rewrite Ha). rewrite Hid in I1, I2.
  destruct (decide (id = i)) as [->|Hne].
  - rewrite decide_False in I2 by (by intros [? _]). rewrite I2, Hs.
    destruct (idleFilter (ptun (peering w)) now open i) eqn:Ei.
    + rewrite decide_False by (by intros [_ ?]). split; [|done]. rewrite I1. split; [intros [?|[_ ?]]; [by left|done]|intros [?|[_ ?]]; [by left|done]].
    + rewrite decide_True by (split; [apply elem_of_cons; by left|done]). split; [|done].
      rewrite I1. split; [intros _; right; split; [apply elem_of_cons; by left|done]|intros _; left; set_solver].
  - destruct (Ho id Hne) as [Hh Hst]. unfold watchState in *. rewrite Hh, Hst in I2. split.
    + rewrite I1, elem_of_cons. destruct (idleFilter (ptun (peering w)) now open i); [|rewrite elem_of_union, elem_of_singleton]; naive_solver.
    + rewrite I2. destruct (decide (id ∈ l ∧ _)) as [[? ?]|Hn].
      * by rewrite decide_True by (split; [apply elem_of_cons; by right|done]).
      * rewrite decide_False; [done|]. intros [[?|?]%elem_of_cons ?]; [done|by destruct Hn].
Qed.

(** A tick decides about every peer with a session that is in use from the state it
    has for it, whatever the order, and forgets the state of every other peer. *)
Theorem tick_decides_for_each (order : gset Z → list Z) w now id :
  (∀ s, order s ≡ₚ elements s) →
  states (pathWatchTick env cfg renv order w now) !! id =
    (if decide (id ∈ ReadyPeerIDs (ptun (peering w))) then
       if idleFilter (ptun (peering w)) now (ActiveNodeIDs (pports (peering w))) id then None
       else Some (snd (pathDecision (heard w id) (watchState w id) now))
     else None).
Proof.
  intros Hord. unfold pathWatchTick. set (open := ActiveNodeIDs _). set (ready := order _).
  destruct (fold_left (watchOne env cfg renv now open) ready (w, ∅)) as [w' live] eqn:E.
  assert (NoDup ready) as Hnd by (unfold ready; rewrite Hord; apply NoDup_elements).
  assert (id ∈ ready ↔ id ∈ ReadyPeerIDs (ptun (peering w))) as Hr by (unfold ready; rewrite Hord; apply elem_of_elements).
  destruct (watchAll_spec now open ready w ∅ w' live Hnd E id) as [Hl Hs]. cbn [states set_states].
  destruct (decide (id ∈ live)) as [Hin|Hout].
  - pose proof Hin as [?|[H1 H2]]%Hl; [set_solver|].
    rewrite map_lookup_filter, Hs. rewrite decide_True by done. cbn. rewrite option_guard_True by done.
    rewrite decide_True by (by apply Hr). by rewrite H2.
  - rewrite map_lookup_filter_None_2 by (right; intros x _; exact Hout).
    destruct (decide (id ∈ ReadyPeerIDs (ptun (peering w)))) as [H1|]; [|done]. destruct (idleFilter _ _ _ _) eqn:Ei; [done|].
    destruct Hout. apply Hl. right. split; [by apply Hr|done].
Qed.

(** ** Resets after a failed key exchange *)

(** What happens to the watcher: the key exchange gives up on a peer, a queued reset
    runs, a tick, or anything else the daemon does to its tunnels.  The list holds
    the resets that were asked for, with their times. *)
Inductive watchStep : (gotime * list (gotime * Z) * Watcher (K := K) (X := X)) →
                      (gotime * list (gotime * Z) * Watcher (K := K) (X := X)) → Prop :=
| WS_gaveUp now now' log w id : now <= now' →
    watchStep (now, log, w)
      (now', if decide (pendingResets (onRekeyGaveUp w now' id) = pendingResets w) then log else log ++ [(now', id)],
       onRekeyGaveUp w now' id)
| WS_run now now' log w n : now <= now' → watchStep (now, log, w) (now', log, runGaveUpReset env cfg renv w now' n)
| WS_tick now now' log w order : now <= now' →
    watchStep (now, log, w) (now', log, pathWatchTick env cfg renv order w now')
| WS_other now now' log w p : now <= now' → watchStep (now, log, w) (now', log, set_peering w p).

Definition spaced (id : Z) (log : list (gotime * Z)) : Prop :=
  ∀ i j ti tj, (i < j)%nat → log !! i = Some (ti, id) → log !! j = Some (tj, id) → gaveUpResetCooldown <= tj - ti.

(** The map knows the last reset of a peer, or it was long ago. *)
Definition gaveUpInv (s : gotime * list (gotime * Z) * Watcher (K := K) (X := X)) : Prop :=
  let '(now, log, w) := s in
  ∀ id, spaced id log ∧ ∀ i ti, log !! i = Some (ti, id) →
    ti <= now ∧ (gaveUpResetCooldown < now - ti ∨ ∃ last, lastGaveUpReset w !! id = Some last ∧ ti <= last).

Lemma time_sub_least now last d : 0 <= d < maxDuration → d <= time_sub now last ↔ d <= now - last.
Proof. unfold time_sub, maxDuration, minDuration. lia. Qed.

Lemma watchOne_gaveUp now open wl id :
  lastGaveUpReset (fst (watchOne env cfg renv now open wl id)) = lastGaveUpReset (fst wl).
Proof.
  destruct wl as [w live]. unfold watchOne. destruct (idleFilter _ _ _ _); [done|]. unfold pathWatchPeer.
  destruct (pathDecision _ _ _) as [a st]. destruct a; cbn; try done. by destruct (0 <? _).
Qed.

Lemma pathWatchTick_gaveUp order w now :
  lastGaveUpReset (pathWatchTick env cfg renv order w now) = lastGaveUpReset w.
Proof.
  unfold pathWatchTick. generalize (order (ReadyPeerIDs (ptun (peering w)))) as l. intros l.
  assert (∀ wl, lastGaveUpReset (fst (fold_left (watchOne env cfg renv now (ActiveNodeIDs (pports (peering w)))) l wl)) =
    lastGaveUpReset (fst wl)) as H.
  { induction l as [|i l IH]; intros wl; cbn; [done|]. by rewrite IH, watchOne_gaveUp. }
  specialize (H (w, ∅)). by destruct (fold_left _ _ _) as [w' live].
Qed.

Lemma runGaveUpReset_gaveUp w now n : lastGaveUpReset (runGaveUpReset env cfg renv w now n) = lastGaveUpReset w.
Proof. unfold runGaveUpReset. by destruct (pendingResets w !! n). Qed.

(** Nothing is queued, or the peer was not reset for 30 s and its time is noted. *)
Lemma onRekeyGaveUp_spec w now id :
  onRekeyGaveUp w now id = w ∨
  (pendingResets (onRekeyGaveUp w now id) = pendingResets w ++ [id] ∧
   peerInUse (ptun (peering w)) now (ActiveNodeIDs (pports (peering w))) id = true ∧
   (∀ last, lastGaveUpReset w !! id = Some last → gaveUpResetCooldown <= now - last) ∧
   lastGaveUpReset (onRekeyGaveUp w now id) !! id = Some now ∧
   ∀ j last, j ≠ id → lastGaveUpReset w !! j = Some last →
     lastGaveUpReset (onRekeyGaveUp w now id) !! j = Some last ∨ gaveUpResetCooldown < now - last).
Proof.
  unfold onRekeyGaveUp. destruct (peerInUse _ _ _ _); cbn [negb]; [|by left].
  destruct (match lastGaveUpReset w !! id with Some _ => _ | None => _ end) eqn:E; [by left|right].
  cbn [pendingResets lastGaveUpReset]. split_and!; [done|done| | |].
  - intros last Hl. rewrite Hl in E. zbool. apply time_sub_least in E; [done|]. by vm_compute.
  - clear E. destruct (1024 <? _); [|apply lookup_insert_eq]. apply map_lookup_filter_Some. split; [apply lookup_insert_eq|].
    unfold time_sub, gaveUpResetCooldown, minDuration, maxDuration, Second. cbn. lia.
  - intros j last Hj Hl. rewrite <- (lookup_insert_ne _ id j now) in Hl by done. clear E. destruct (1024 <? _); [|by left].
    destruct (decide (time_sub now last <= 5 * gaveUpResetCooldown)) as [Hd|Hd].
    + left. by apply map_lookup_filter_Some.
    + right. unfold time_sub, gaveUpResetCooldown, minDuration, maxDuration, Second in *. lia.
Qed.

Lemma gaveUpInv_later now now' log w w' : now <= now' → lastGaveUpReset w' = lastGaveUpReset w →
  gaveUpInv (now, log, w) → gaveUpInv (now', log, w').
Proof.
  intros Hn Hw H id. destruct (H id) as [Hs Hl]. split; [done|]. intros i ti Hi.
  destruct (Hl i ti Hi) as [H1 H2]. split; [lia|]. rewrite Hw. destruct H2 as [H2|H2]; [left; lia|by right].
Qed.

Lemma spaced_snoc id log now' id' :
  spaced id log → (id' = id → ∀ i ti, log !! i = Some (ti, id) → gaveUpResetCooldown <= now' - ti) →
  spaced id (log ++ [(now', id')]).
Proof.
  intros Hs Hn i j ti tj Hij Hi Hj. apply lookup_snoc_Some in Hj as [[Hj1 Hj]|[Hj1 [= <- <-]]].
  - rewrite lookup_app_l in Hi by lia. by eapply (Hs i j).
  - rewrite lookup_app_l in Hi by lia. by eapply Hn.
Qed.

Lemma gaveUpInv_step s s' : watchStep s s' → gaveUpInv s → gaveUpInv s'.
Proof.
  intros [now now' log w id Hn|now now' log w n Hn|now now' log w order Hn|now now' log w p Hn] H.
  - destruct (onRekeyGaveUp_spec w now' id) as [->|(Hp & _ & Hc & Hid & Ho)].
    { rewrite decide_True by done. by eapply gaveUpInv_later. }
    rewrite decide_False.
    2:{ rewrite Hp. intros E. apply (f_equal length) in E. rewrite length_app in E. cbn in E. lia. }
    intros j. destruct (H j) as [Hs Hl]. split.
    + apply spaced_snoc; [done|]. intros -> i ti Hi. destruct (Hl i ti Hi) as [_ [Hd|(last & Hla & Hle)]]; [lia|].
      specialize (Hc last Hla). lia.
    + intros i ti Hi. apply lookup_snoc_Some in Hi as [[_ Hi]|[_ [= <- <-]]].
      2:{ split; [lia|]. right. exists now'. split; [done|lia]. }
      destruct (Hl i ti Hi) as [H1 H2]. split; [lia|]. destruct H2 as [H2|(last & Hla & Hle)]; [left; lia|].
      destruct (decide (j = id)) as [->|Hj]; [right; exists now'; split; [done|lia]|].
      destruct (Ho j last Hj Hla) as [Hk|Hk]; [right; by exists last|left; lia].
  - eapply gaveUpInv_later; [done| |done]. apply runGaveUpReset_gaveUp.
  - eapply gaveUpInv_later; [done| |done]. apply pathWatchTick_gaveUp.
  - by eapply gaveUpInv_later.
Qed.

(** However often the key exchange gives up, and however its events interleave with
    ticks, resets and pruning, two resets it asks for of one peer are 30 s apart. *)
Theorem gave_up_resets_are_spaced now0 w0 now log w :
  rtc watchStep (now0, [], w0) (now, log, w) → ∀ id, spaced id log.
Proof.
  intros H id. assert (gaveUpInv (now, log, w)) as Hi; [|by apply (Hi id)].
  assert (gaveUpInv (now0, [], w0)) as H0 by (intros j; split; by intros ?).
  revert H0. generalize dependent (now, log, w). generalize (now0, @nil (gotime * Z), w0). intros s s' H H0.
  induction H as [|s1 s2 s3 Hst _ IH]; [done|]. apply IH. by eapply gaveUpInv_step.
Qed.
End PathWatchProofs.

(** ** Witnesses, and a cooldown that is lost *)

Module PathDemo.
#[local] Existing Instance documented_protocol.
#[local] Existing Instance toy_cipher.
#[local] Existing Instance Demo.list_codec.
#[local] Existing Instance Demo.one_key.

Definition T : gotime := RegDemo.t0.
(** Our node with a session with peer 9, last heard at [t]. *)
Definition sessionAt (t : gotime) : Peering :=
  mkPeering (mkHost (recordInboundDecrypt Demo.nodeA t 9) (mkConns (Some O) 1 [] []) (mkReestablish 0 false)
    (mkIdent 1001 (mkAddr 0 1001) [1] [str "192.168.1.20:4000"] 0) 0 []) ∅ ∅ ∅ 0 ∅ NewPortManager.
Definition tick (w : Watcher) (s : Z) : Watcher :=
  pathWatchTick RegDemo.renv RegDemo.rcfg FindDemo.rsv elements w (T + s * Second).

(** Silent since [T]: three probes, a reset at 85 s; a tick without a session at 95 s;
    a new session at 96 s, silent again: the next reset comes at 181 s. *)
Definition w0 : Watcher := mkWatcher (sessionAt T) ∅ ∅ [] [].
Definition w1 : Watcher := fold_left tick [55; 65; 75] w0.
Definition w2 : Watcher := tick w1 85.
Definition w3 : Watcher := tick w2 95.
Definition w4 : Watcher := set_peering w3 (sessionAt (T + 96 * Second)).
Definition w5 : Watcher := fold_left tick [105; 151; 161; 171] w4.
Definition w6 : Watcher := tick w5 181.

(** A reset takes the session with it, so the next tick forgets the peer's state and
    with it the time of the reset: a peer that sets up a session and goes silent
    again is reset a second time within the two minutes of the cooldown. *)
Theorem reset_cooldown_is_lost :
  pathEvents w1 = [] ∧ pathEvents w2 = [EvPathSuspect 9 3] ∧
  states w2 !! 9 = Some (mkPathState 0 (T + 85 * Second)) ∧ states w3 !! 9 = None ∧
  pathEvents w5 = [EvPathSuspect 9 3] ∧ pathEvents w6 = [EvPathSuspect 9 3; EvPathSuspect 9 3] ∧
  time_sub (T + 181 * Second) (T + 85 * Second) < pathResetCooldown.
Proof. vm_compute. split_and!; reflexivity. Qed.

Definition reset9 := resetPeerPath RegDemo.renv RegDemo.rcfg FindDemo.rsv (sessionAt T) (T + Second) 9.
Lemma reset_starts_over_witness :
  PilaPushed (fst reset9) = true ∧ PilaPushed (fst reset9) = HasPeer (ptun (snd reset9)) 9 ∧
  resolves (snd reset9) = 1%nat ∧
  crypto (store (ptun (snd reset9))) = delete 9 (crypto (store (ptun (sessionAt T)))).
Proof.
  destruct (reset_starts_over RegDemo.renv RegDemo.rcfg FindDemo.rsv (sessionAt T) (T + Second) 9
    (fst reset9) (snd reset9)) as (H1 & _ & _ & _ & H2 & H3).
  - vm_compute; reflexivity.
  - apply surjective_pairing.
  - split; [vm_compute; reflexivity|]. split; [exact H2|]. split; [exact (proj1 H3)|exact H1].
Defined.

(** Peer 9 has been used; the key exchange gives up on it at 1 s, 11 s and 41 s. *)
Definition used : Watcher :=
  set_peering w0 (set_ptun (sessionAt T) (noteAppActivity (ptun (sessionAt T)) T 9)).
Definition g1 : Watcher := onRekeyGaveUp used (T + 1 * Second) 9.
Definition g2 : Watcher := onRekeyGaveUp g1 (T + 11 * Second) 9.
Definition g3 : Watcher := onRekeyGaveUp g2 (T + 41 * Second) 9.
Lemma gave_up_resets_are_spaced_witness :
  pendingResets g3 = [9; 9] ∧ spaced 9 [(T + 1 * Second, 9); (T + 41 * Second, 9)].
Proof.
  split; [vm_compute; reflexivity|].
  refine (gave_up_resets_are_spaced RegDemo.renv RegDemo.rcfg FindDemo.rsv T used (T + 41 * Second) _ g3 _ 9).
  apply (rtc_l _ _ (T + 1 * Second, [(T + 1 * Second, 9)], g1)); [exact (WS_gaveUp _ _ _ T (T + 1 * Second) [] used 9 ltac:(unfold T, Second; lia))|].
  apply (rtc_l _ _ (T + 11 * Second, [(T + 1 * Second, 9)], g2));
    [exact (WS_gaveUp _ _ _ (T + 1 * Second) (T + 11 * Second) _ g1 9 ltac:(unfold T, Second; lia))|].
  apply rtc_once. exact (WS_gaveUp _ _ _ (T + 11 * Second) (T + 41 * Second) _ g2 9 ltac:(unfold T, Second; lia)).
Defined.

Lemma tick_decides_for_each_witness :
  states (tick w0 55) !! 9 = Some (mkPathState 1 zero_time).
Proof.
  unfold tick. rewrite (tick_decides_for_each RegDemo.renv RegDemo.rcfg FindDemo.rsv elements w0 (T + 55 * Second) 9).
  - vm_compute; reflexivity.
  - intros s. reflexivity.
Defined.
End PathDemo.
