(* ===== verification/Json.v ===== *)
(** * JSON text (encoding/json, as json.Marshal writes it)

    Objects are Go maps: their keys are written in byte order.  Strings are escaped
    the way the encoder does by default: quotes, control bytes and the characters
    that are special in HTML, and a byte that is not part of a rune in UTF-8 becomes
    the replacement character. *)
From stdpp Require Import strings.
From S2P Require Import Prelude GoText.
Open Scope Z_scope.

(** The length of the rune at the front of the text, if it is a valid one. *)
Definition contByte (lo hi : Z) (b : option Z) : bool :=
  match b with Some b => (lo <=? b) && (b <=? hi) | None => false end.
Definition runeLen (s : bytes) : option nat :=
  let second lo hi := contByte lo hi (s !! 1%nat) in
  let third := contByte 128 191 (s !! 2%nat) in
  let fourth := contByte 128 191 (s !! 3%nat) in
  match s with
  | [] => None
  | b :: _ =>
      if b <? 128 then Some 1%nat
      else if (194 <=? b) && (b <=? 223) then if second 128 191 then Some 2%nat else None
      else if (224 <=? b) && (b <=? 239) then
        let lo := if b =? 224 then 160 else 128 in
        let hi := if b =? 237 then 159 else 191 in
        if second lo hi && third then Some 3%nat else None
      else if (240 <=? b) && (b <=? 244) then
        let lo := if b =? 240 then 144 else 128 in
        let hi := if b =? 244 then 143 else 191 in
        if second lo hi && third && fourth then Some 4%nat else None
      else None
  end.

Definition hexDigit (n : Z) : Z := if n <? 10 then 48 + n else 87 + n.
Definition escapeByte (b : Z) : bytes :=
  if (b =? 34) || (b =? 92) then [92; b]
  else if b =? 8 then str "\b" else if b =? 12 then str "\f"
  else if b =? 10 then str "\n" else if b =? 13 then str "\r" else if b =? 9 then str "\t"
  else if (b <? 32) || (b =? 60) || (b =? 62) || (b =? 38) then str "\u00" ++ [hexDigit (b / 16); hexDigit (b mod 16)]
  else [b].

(** [skip] bytes of a rune are left, to be copied or not. *)
Fixpoint escapeScan (skip : nat) (copy : bool) (s : bytes) : bytes :=
  match s with
  | [] => []
  | b :: rest =>
      match skip with
      | S k => (if copy then [b] else []) ++ escapeScan k copy rest
      | O =>
          if b <? 128 then escapeByte b ++ escapeScan 0 true rest
          else match runeLen s with
          | None => str "\ufffd" ++ escapeScan 0 true rest
          | Some n =>
              if bool_decide (take 2 s = [226; 128]) && contByte 168 169 (s !! 2%nat) then
                str "\u202" ++ [hexDigit (match s !! 2%nat with Some c => c - 160 | None => 0 end)] ++ escapeScan 2 false rest
              else b :: escapeScan (n - 1) true rest
          end
      end
  end.
Definition quote (s : bytes) : bytes := [34] ++ escapeScan 0 true s ++ [34].

Fixpoint commaJoin (rows : list bytes) : bytes :=
  match rows with
  | [] => []
  | [r] => r
  | r :: rows => r ++ [44] ++ commaJoin rows
  end.

(** Byte order of keys. *)
Fixpoint bytesLess (s u : bytes) : bool :=
  match s, u with
  | _, [] => false
  | [], _ :: _ => true
  | a :: s, b :: u => (a <? b) || ((a =? b) && bytesLess s u)
  end.
Fixpoint insertKey (e : bytes * bytes) (l : list (bytes * bytes)) : list (bytes * bytes) :=
  match l with
  | [] => [e]
  | f :: l => if bytesLess e.1 f.1 then e :: f :: l else f :: insertKey e l
  end.
Definition sortKeys (l : list (bytes * bytes)) : list (bytes * bytes) := fold_right insertKey [] l.

Fixpoint Marshal (j : jval) : bytes :=
  match j with
  | JNull => str "null"
  | JBool b => if b then str "true" else str "false"
  | JNum z => FormatInt z
  | JStr s => quote s
  | JList l => [91] ++ commaJoin (map Marshal l) ++ [93]
  | JObj l =>
      [123] ++ commaJoin (map (λ e, quote e.1 ++ [58] ++ e.2) (sortKeys (map (λ e, (e.1, Marshal e.2)) l))) ++ [125]
  end.

Example marshal_object :
  Marshal (JObj [(str "b", JList [JNum (-3); JBool true]); (str "a", JStr [60; 10; 226; 128; 168; 255; 195; 169])])
  = str "{" ++ [34] ++ str "a" ++ [34] ++ str ":" ++ [34] ++ str "\u003c\n\u2028\ufffd" ++ [195; 169; 34] ++ str "," ++ [34]
    ++ str "b" ++ [34] ++ str ":[-3,true]}".
Proof. reflexivity. Qed.

Lemma length_commaJoin l r : l ≠ [] → blen (commaJoin (l ++ [r])) = blen (commaJoin l) + 1 + blen r.
Proof.
  induction l as [|x l IH]; [done|]. intros _. destruct l as [|y l].
  - cbn [commaJoin app]. rewrite !blen_app. unfold blen. cbn [length]. lia.
  - change (commaJoin ((x :: y :: l) ++ [r])) with (x ++ [44] ++ commaJoin ((y :: l) ++ [r])).
    change (commaJoin (x :: y :: l)) with (x ++ [44] ++ commaJoin (y :: l)).
    rewrite !blen_app, IH by done. unfold blen. lia.
Qed.
