(* ===== verification/Managed.v ===== *)
(** * Managed networks (pkg/daemon/managed.go)

    A managed engine keeps a bounded set of peers of one network: each cycle drops
    the worst ranked ones that are past their grace period and fills the set up with
    random members.  The registry is a separate module: [ExtCall] lists the calls the
    daemon makes to it and to the plugins, and the n-th of them is answered by
    [ext n], an error text or a JSON value.  The order in which Go ranges over the
    peers, the draws of the random source and what another cycle does while this one
    waits for the registry are arguments; a file is represented by its content, and a
    duration text of the rules by its value next to it. *)
From Stdlib Require Import Sorting.Permutation.
From stdpp Require Import strings.
From S2P Require Import Prelude GoText.
Open Scope Z_scope.

(** ** Calls that leave the daemon *)

Inductive ExtCall :=
| XResolveHostname (h : bytes) | XSetHostname (id : Z) (h : bytes) | XSetVisibility (id : Z) (public : bool)
| XDeregister (id : Z) | XSetTags (id : Z) (tags : list bytes) | XLookup (id : Z) | XRotateKey (id : Z) (sig pub : bytes)
| XListNetworks | XJoinNetwork (id net : Z) (token admin : bytes) | XLeaveNetwork (id net : Z) (admin : bytes)
| XListNodes (net : Z) (admin : bytes) | XInvite (net id target : Z) (admin : bytes)
| XPollInvites (id : Z) | XRespondInvite (id net : Z) (accept : bool)
| XGetNetworkPolicy (net : Z) | XGetExprPolicy (net : Z)
| XGetMemberTags (net node : Z) | XSetMemberTags (net node : Z) (tags : list bytes) (admin : bytes)
| XSubmitBadge (id : Z) (badge badgeSig sig : bytes) | XEnrollRecovery (id : Z) (enr enrSig sig : bytes)
| XPollHandshakes (id : Z)
| XHsSend (node : Z) (reason : bytes) | XHsApprove (node : Z) | XHsReject (node : Z) (reason : bytes)
| XHsPending | XHsTrusted | XHsRevoke (node : Z) | XHsWait (node : Z) (wait : duration) | XHsIsTrusted (node : Z)
| XHsRelayedRequest (node : Z) (reason : bytes) | XHsRelayedApproval (node : Z) | XHsRelayedRejection (node : Z)
| XRunnerStatus (net : Z) | XRunnerCycle (net : Z) | XRunnerReconcile (net : Z) | XRunnerPeers (net : Z)
| XRunnerPolicy (net : Z) | XStartRunner (net : Z) (policy : bytes) | XStopRunner (net : Z)
| XSetWebhook (url : bytes).

Definition Ask := nat → ExtCall → bytes + jval.

Section Ask.
Context (ext : Ask).
(** The next call, given the calls made so far. *)
Definition askLog (log : list ExtCall) (q : ExtCall) : (bytes + jval) * list ExtCall :=
  (ext (length log) q, log ++ [q]).
End Ask.

(** ** State *)

(** [graceDur]: what time.ParseDuration makes of [Grace], 0 if it is empty or wrong. *)
Record NetworkRules := mkRules {
  Links : Z; Cycle : bytes; Prune : Z; PruneBy : bytes; Fill : Z; FillHow : bytes; Grace : bytes; graceDur : duration;
}.

Record managedPeer := mkManagedPeer { mpNode : Z; mpTags : list string; AddedAt : gotime; LastSeen : gotime }.

Record ManagedEngine := mkEngine {
  meNet : Z; rules : NetworkRules; mpeers : gmap Z managedPeer; joinedAt : gotime; meStopped : bool;
}.
Implicit Types me : ManagedEngine.
Definition set_mpeers me m : ManagedEngine := mkEngine (meNet me) (rules me) m (joinedAt me) (meStopped me).

Record managedSnapshot := mkManagedSnapshot { snapPeers : gmap Z managedPeer; snapJoined : gotime }.

(** RFC 3339 text keeps whole seconds. *)
Definition wholeSeconds (t : gotime) : gotime := t / Second * Second.

Definition persist me : managedSnapshot := mkManagedSnapshot (mpeers me) (wholeSeconds (joinedAt me)).
Definition load me (file : option managedSnapshot) : ManagedEngine :=
  match file with
  | None => me
  | Some s => mkEngine (meNet me) (rules me) (snapPeers s) (snapJoined s) (meStopped me)
  end.
Definition NewManagedEngine (netID : Z) (r : NetworkRules) (now : gotime) (file : option managedSnapshot) : ManagedEngine :=
  load (mkEngine netID r ∅ now false) file.
Definition meStop me : ManagedEngine := mkEngine (meNet me) (rules me) (mpeers me) (joinedAt me) true.

(** ** Random choice *)

(** The two assignments of the swap function. *)
Definition swapAt (l : list Z) (i j : nat) : list Z :=
  match l !! i, l !! j with Some x, Some y => <[i := y]> (<[j := x]> l) | _, _ => l end.

(** From the last index down to 1; [draw i] is the answer of rand.Int below i+1
    ([None]: an error, the element stays). *)
Fixpoint shuffleFrom (i : nat) (draw : nat → option Z) (l : list Z) : list Z :=
  match i with
  | O => l
  | S i' =>
      let idx := match draw i with Some r => Z.to_nat (r mod Z.of_nat (S i)) | None => i end in
      shuffleFrom i' draw (if Nat.eqb idx i then l else swapAt l idx i)
  end.
Definition cryptoShuffle (draw : nat → option Z) (l : list Z) : list Z := shuffleFrom (length l - 1) draw l.

(** ** Members *)

Definition memberIDs (l : list jval) : list Z := omap jnode l.
Definition fetchAttempts : nat := 5.

Section Managed.
Context (ext : Ask).

(** The loop: [more] attempts are left.  The waits between them are not represented. *)
Fixpoint fetchRounds (more : nat) (netID : Z) (admin : bytes) (log : list ExtCall) (lastErr : bytes)
  : (bytes + list Z) * list ExtCall :=
  match more with
  | O => (inl (str "fetchMembers: failed after 5 attempts: " ++ lastErr), log)
  | S more =>
      let '(a, log) := askLog ext log (XListNodes netID admin) in
      match a with
      | inr resp =>
          match jfield resp (str "nodes") with
          | Some (JList l) => (inr (memberIDs l), log)
          | _ => (inl (str "unexpected list_nodes response"), log)
          end
      | inl e => fetchRounds more netID admin log e
      end
  end.
Definition fetchMembers (netID : Z) (admin : bytes) (log : list ExtCall) := fetchRounds fetchAttempts netID admin log [].

(** [candidates[:n]] added with the time [now]. *)
Definition addNew (now : gotime) (ids : list Z) (m : gmap Z managedPeer) : gmap Z managedPeer :=
  fold_left (λ m id, <[id := mkManagedPeer id [] now zero_time]> m) ids m.

Definition Bootstrap me (myID : Z) (admin : bytes) (log : list ExtCall) (draw : nat → option Z) (now : gotime)
  : option bytes * ManagedEngine * list ExtCall :=
  let '(ms, log) := fetchMembers (meNet me) admin log in
  match ms with
  | inl e => (Some (str "managed bootstrap: " ++ e), me, log)
  | inr members =>
      let candidates := cryptoShuffle draw (List.filter (λ id, negb (id =? myID)) members) in
      let limit := Z.min (Links (rules me)) (Z.of_nat (length candidates)) in
      (None,
       set_mpeers me (fold_left (λ m id,
         match m !! id with Some _ => m | None => <[id := mkManagedPeer id [] now zero_time]> m end)
         (take (Z.to_nat limit) candidates) (mpeers me)),
       log)
  end.

(** The start of the loop goroutine. *)
Definition engineStart me (myID : Z) (admin : bytes) (log : list ExtCall) (draw : nat → option Z) (now : gotime)
  : ManagedEngine * list ExtCall :=
  if bool_decide (mpeers me = ∅) then
    let '(_, me, log) := Bootstrap me myID admin log draw now in (me, log)
  else (me, log).

(** ** The cycle *)

Definition insertBy (less : managedPeer → managedPeer → bool) (x : managedPeer) : list managedPeer → list managedPeer :=
  fix go l := match l with
              | [] => [x]
              | y :: l => if less x y then x :: y :: l else y :: go l
              end.
(** sort.Slice: any order that agrees with [less]; the order of its input decides
    which. *)
Definition sortSlice (less : managedPeer → managedPeer → bool) (l : list managedPeer) : list managedPeer :=
  fold_right (insertBy less) [] l.

Definition pruneLess (by_ : bytes) : option (managedPeer → managedPeer → bool) :=
  if bool_decide (by_ = str "age") then Some (λ p q, AddedAt p <? AddedAt q)
  else if bool_decide (by_ = str "activity") then Some (λ p q, LastSeen p <? LastSeen q)
  else None.

(** [order]: the keys as Go ranges over them. *)
Definition rankedPeers me (order : list Z) : list managedPeer :=
  let l := omap (λ k, mpeers me !! k) order in
  match pruneLess (PruneBy (rules me)) with Some less => sortSlice less l | None => l end.

Definition inGrace (r : NetworkRules) (now : gotime) (p : managedPeer) : bool :=
  (0 <? graceDur r) && (time_sub now (AddedAt p) <? graceDur r).

Fixpoint pruneLoop (r : NetworkRules) (now : gotime) (ranked : list managedPeer) (pruned : Z)
    (m : gmap Z managedPeer) : Z * gmap Z managedPeer :=
  match ranked with
  | [] => (pruned, m)
  | p :: ranked =>
      if Prune r <=? pruned then (pruned, m)
      else if inGrace r now p then pruneLoop r now ranked pruned m
      else pruneLoop r now ranked (pruned + 1) (delete (mpNode p) m)
  end.
Definition prune me (ranked : list managedPeer) (now : gotime) : Z * ManagedEngine :=
  let '(n, m) := pruneLoop (rules me) now ranked 0 (mpeers me) in (n, set_mpeers me m).

Definition fillCandidates me (myID : Z) (members : list Z) : list Z :=
  List.filter (λ id, negb (id =? myID) && negb (bool_decide (is_Some (mpeers me !! id)))) members.
Definition fill me (myID : Z) (members : list Z) (draw : nat → option Z) (now : gotime) : Z * ManagedEngine :=
  let candidates := cryptoShuffle draw (fillCandidates me myID members) in
  let available := Z.max 0 (Links (rules me) - Z.of_nat (size (mpeers me))) in
  let toFill := Z.min (Z.min (Fill (rules me)) available) (Z.of_nat (length candidates)) in
  (toFill, set_mpeers me (addNew now (take (Z.to_nat toFill) candidates) (mpeers me))).

(** What a cycle met: the order of the peers, the draws, the two times and what
    other cycles did between the two critical sections. *)
Record CycleRun := mkCycleRun {
  order : list Z; draw : nat → option Z; pruneNow : gotime; fillNow : gotime; meanwhile : ManagedEngine → ManagedEngine;
}.
(** [None] for the file: this cycle does not write it. *)
Record CycleResult := mkCycleResult { crPruned : Z; crFilled : Z; crErr : option bytes; crPeers : Z; crFile : option managedSnapshot }.

Definition runCycle me (myID : Z) (admin : bytes) (log : list ExtCall) (run : CycleRun)
  : CycleResult * ManagedEngine * list ExtCall :=
  let '(pruned, me) := prune me (rankedPeers me (order run)) (pruneNow run) in
  let me := meanwhile run me in
  let '(ms, log) := fetchMembers (meNet me) admin log in
  match ms with
  | inl e => (mkCycleResult pruned 0 (Some e) 0 None, me, log)
  | inr members =>
      let '(filled, me) := fill me myID members (draw run) (fillNow run) in
      (mkCycleResult pruned filled None (Z.of_nat (size (mpeers me))) (Some (persist me)), me, log)
  end.

Definition cycleReply me (r : CycleResult) : jval :=
  match crErr r with
  | Some e => JObj [(str "pruned", JNum (crPruned r)); (str "filled", JNum 0); (str "error", JStr e)]
  | None => JObj [(str "network_id", JNum (meNet me)); (str "pruned", JNum (crPruned r)); (str "filled", JNum (crFilled r));
                  (str "peers", JNum (crPeers r))]
  end.

(** [joined_at] is written as text; its value here. *)
Definition Status me : jval :=
  let r := rules me in
  JObj [(str "network_id", JNum (meNet me)); (str "peers", JNum (Z.of_nat (size (mpeers me)))); (str "max_links", JNum (Links r));
        (str "cycle", JStr (Cycle r)); (str "prune", JNum (Prune r)); (str "prune_by", JStr (PruneBy r));
        (str "fill", JNum (Fill r)); (str "fill_how", JStr (FillHow r)); (str "grace", JStr (Grace r));
        (str "joined_at", JNum (wholeSeconds (joinedAt me)))].
End Managed.
