(* ===== verification/ManagedProofs.v ===== *)
(** * Managed networks: what a cycle guarantees *)
From Stdlib Require Import Sorting.Permutation Sorting.Sorted.
From stdpp Require Import strings.
From S2P Require Import Prelude GoText Managed.
Open Scope Z_scope.

(** ** Shuffling *)

Lemma swapAt_perm l i j : swapAt l i j ≡ₚ l.
Proof.
  unfold swapAt. destruct (l !! i) as [x|] eqn:Ei; [|done]. destruct (l !! j) as [y|] eqn:Ej; [|done].
  by apply Permutation_insert_swap.
Qed.

Lemma shuffleFrom_perm i dr l : shuffleFrom i dr l ≡ₚ l.
Proof.
  revert l. induction i as [|i IH]; intros l; cbn [shuffleFrom]; [done|].
  etrans; [apply IH|]. case_match; [done|apply swapAt_perm].
Qed.
Lemma cryptoShuffle_perm dr l : cryptoShuffle dr l ≡ₚ l.
Proof. apply shuffleFrom_perm. Qed.

(** ** Ranking *)

Section Sorting.
Context (less : managedPeer → managedPeer → bool).
(** [y] may follow [x]. *)
Definition ranksBefore (x y : managedPeer) : Prop := less y x = false.
Context (less_trans : ∀ x y z, ranksBefore x y → ranksBefore y z → ranksBefore x z)
        (less_asym : ∀ x y, less x y = true → less y x = false).

Lemma insertBy_perm x l : insertBy less x l ≡ₚ x :: l.
Proof. induction l as [|y l IH]; cbn; [done|]. case_match; [done|]. by rewrite IH, Permutation_swap. Qed.
Lemma sortSlice_perm l : sortSlice less l ≡ₚ l.
Proof. induction l as [|x l IH]; cbn; [done|]. unfold sortSlice in *. by rewrite insertBy_perm, IH. Qed.

Lemma insertBy_sorted x l : StronglySorted ranksBefore l → StronglySorted ranksBefore (insertBy less x l).
Proof.
  induction 1 as [|y l Hs IH Hy]; cbn; [by repeat constructor|].
  destruct (less x y) eqn:E.
  - constructor; [by constructor|]. constructor; [by apply less_asym|].
    eapply Forall_impl; [exact Hy|]. intros z Hz. eapply less_trans; [|exact Hz]. by apply less_asym.
  - constructor; [done|]. rewrite insertBy_perm. by constructor.
Qed.
Lemma sortSlice_sorted l : StronglySorted ranksBefore (sortSlice less l).
Proof. induction l; cbn; [constructor|]. by apply insertBy_sorted. Qed.
End Sorting.

Lemma pruneLess_order b less :
  pruneLess b = Some less →
  (∀ x y z, ranksBefore less x y → ranksBefore less y z → ranksBefore less x z) ∧
  (∀ x y, less x y = true → less y x = false).
Proof.
  unfold pruneLess, ranksBefore. intros H. repeat case_match; simplify_eq; split; intros *; zbool; intros; zbool; lia.
Qed.

Lemma StronglySorted_filter {A} (R : A → A → Prop) (f : A → bool) l :
  StronglySorted R l → StronglySorted R (List.filter f l).
Proof.
  induction 1 as [|x l Hs IH Hx]; cbn; [constructor|]. case_match; [|done].
  constructor; [done|]. rewrite List.Forall_forall in *. intros y [Hy _]%List.filter_In. by apply Hx.
Qed.
Lemma StronglySorted_app_rel {A} (R : A → A → Prop) l k x y :
  StronglySorted R (l ++ k) → x ∈ l → y ∈ k → R x y.
Proof.
  induction l as [|z l IH]; [by intros _ ?%elem_of_nil|]. cbn. intros H Hx Hy.
  apply StronglySorted_inv in H as [Hs Hz]. apply elem_of_cons in Hx as [->|Hx]; [|by apply IH].
  rewrite Forall_forall in Hz. apply Hz, elem_of_app. by right.
Qed.

(** ** Pruning *)

Definition eligible (r : NetworkRules) (now : gotime) (p : managedPeer) : bool := negb (inGrace r now p).
(** The peers a prune of the ranking takes. *)
Definition pruneSet (r : NetworkRules) (now : gotime) (ranked : list managedPeer) (k : Z) : list managedPeer :=
  take (Z.to_nat (Prune r - k)) (List.filter (eligible r now) ranked).
Definition dropAll (ps : list managedPeer) (m : gmap Z managedPeer) : gmap Z managedPeer :=
  fold_left (λ m p, delete (mpNode p) m) ps m.

Lemma pruneLoop_spec r now ranked k m :
  pruneLoop r now ranked k m =
  (k + Z.of_nat (length (pruneSet r now ranked k)), dropAll (pruneSet r now ranked k) m).
Proof.
  revert k m. unfold pruneSet, eligible. induction ranked as [|p ranked IH]; intros k m; cbn [pruneLoop List.filter].
  { rewrite take_nil. cbn. f_equal. lia. }
  case_zif.
  - replace (Z.to_nat (Prune r - k)) with 0%nat by lia. rewrite take_0. cbn. f_equal. lia.
  - destruct (inGrace r now p); cbn [negb]; [apply IH|].
    rewrite IH. replace (Z.to_nat (Prune r - k)) with (S (Z.to_nat (Prune r - (k + 1)))) by lia.
    cbn [take length dropAll fold_left]. f_equal. lia.
Qed.

Lemma lookup_dropAll ps m k :
  dropAll ps m !! k = if bool_decide (k ∈ mpNode <$> ps) then None else m !! k.
Proof.
  unfold dropAll. revert m. induction ps as [|p ps IH]; intros m; cbn; [done|]. rewrite IH.
  destruct (decide (k ∈ mpNode <$> ps)).
  { rewrite !bool_decide_true; [done| |done]. apply elem_of_cons. by right. }
  rewrite (bool_decide_false (k ∈ mpNode <$> ps)) by done.
  destruct (decide (k = mpNode p)) as [->|Hk].
  - rewrite lookup_delete_eq, bool_decide_true; [done|]. apply elem_of_cons. by left.
  - rewrite lookup_delete_ne by done. rewrite bool_decide_false; [done|]. by intros [?|?]%elem_of_cons.
Qed.

(** Every peer is stored under its own number. *)
Definition keyed (m : gmap Z managedPeer) : Prop := map_Forall (λ k p, mpNode p = k) m.
(** [order] names each key once. *)
Definition ranges (m : gmap Z managedPeer) (order : list Z) : Prop := NoDup order ∧ ∀ k, k ∈ order ↔ is_Some (m !! k).

Section Ranked.
Context (me : ManagedEngine) (ord : list Z) (Hord : ranges (mpeers me) ord) (Hkey : keyed (mpeers me)).

Lemma rankedPeers_perm : rankedPeers me ord ≡ₚ omap (λ k, mpeers me !! k) ord.
Proof. unfold rankedPeers. case_match; [apply sortSlice_perm|done]. Qed.

Lemma elem_of_rankedPeers p : p ∈ rankedPeers me ord ↔ mpeers me !! mpNode p = Some p.
Proof.
  rewrite rankedPeers_perm, list_elem_of_omap. split.
  - intros (k & _ & Hk). by rewrite (Hkey _ _ Hk).
  - intros Hp. exists (mpNode p). split; [|done]. apply Hord. by exists p.
Qed.

Lemma rankedPeers_NoDup : NoDup (mpNode <$> rankedPeers me ord).
Proof.
  rewrite rankedPeers_perm. destruct Hord as [Hn Hin].
  assert (∀ l, (∀ k, k ∈ l → is_Some (mpeers me !! k)) → mpNode <$> omap (λ k, mpeers me !! k) l = l) as ->; [|done|naive_solver].
  induction l as [|k l IH]; intros Hl; [done|]. cbn.
  destruct (Hl k) as [p Hp]; [by apply list_elem_of_here|]. rewrite Hp. cbn. rewrite (Hkey _ _ Hp), IH; [done|].
  intros j Hj. apply Hl. by apply list_elem_of_further.
Qed.
End Ranked.

Lemma filter_perm_length {A} (f : A → bool) l k : l ≡ₚ k → length (List.filter f l) = length (List.filter f k).
Proof. induction 1; cbn; repeat case_match; cbn; congruence. Qed.

Lemma filter_sublist {A} (f : A → bool) l : List.filter f l `sublist_of` l.
Proof. induction l; cbn; [constructor|]. by case_match; constructor. Qed.

Lemma elem_of_pruneSet r now ranked k p : p ∈ pruneSet r now ranked k → p ∈ ranked ∧ inGrace r now p = false.
Proof.
  intros (i & Hi & _)%elem_of_take.
  apply list_elem_of_lookup_2, list_elem_of_In, List.filter_In in Hi as [Hi He].
  split; [by apply list_elem_of_In|]. unfold eligible in He. by destruct (inGrace r now p).
Qed.

Lemma size_dropAll ps m :
  NoDup (mpNode <$> ps) → (∀ p, p ∈ ps → is_Some (m !! mpNode p)) → (size (dropAll ps m) + length ps = size m)%nat.
Proof.
  unfold dropAll. revert m. induction ps as [|p ps IH]; intros m Hn Hin; cbn; [lia|].
  cbn in Hn. apply NoDup_cons in Hn as [Hp Hn].
  destruct (Hin p) as [q Hq]; [by apply list_elem_of_here|].
  assert (size m ≠ 0%nat). { rewrite map_size_ne_0_lookup. naive_solver. }
  assert (size (delete (mpNode p) m) = pred (size m)) as Hd by (apply map_size_delete_Some; eauto).
  specialize (IH (delete (mpNode p) m) Hn). rewrite Hd in IH. rewrite <-Nat.add_1_r. rewrite Nat.add_assoc, IH; [lia|].
  intros x Hx. rewrite lookup_delete_ne; [apply Hin; by apply list_elem_of_further|].
  intros He. apply Hp. rewrite He. by apply list_elem_of_fmap_2.
Qed.

(** A prune removes the peers its strategy ranks first among those past their grace
    period, as many as the rules say or as there are, and no others. *)
Theorem prune_takes_the_worst me ord now n me' :
  ranges (mpeers me) ord → keyed (mpeers me) →
  prune me (rankedPeers me ord) now = (n, me') →
  mpeers me' ⊆ mpeers me ∧
  n = Z.of_nat (size (mpeers me)) - Z.of_nat (size (mpeers me')) ∧
  n = Z.min (Z.max 0 (Prune (rules me)))
            (Z.of_nat (length (List.filter (eligible (rules me) now) (omap (λ k, mpeers me !! k) ord)))) ∧
  (∀ p, mpeers me !! mpNode p = Some p → mpeers me' !! mpNode p = None → inGrace (rules me) now p = false) ∧
  (∀ p q less, pruneLess (PruneBy (rules me)) = Some less →
     mpeers me !! mpNode p = Some p → mpeers me' !! mpNode p = None →
     mpeers me' !! mpNode q = Some q → inGrace (rules me) now q = false → less q p = false).
Proof.
  intros Ho Hk. unfold prune. rewrite pruneLoop_spec. intros H. injection H as <- <-. cbn [mpeers set_mpeers].
  set (R := pruneSet _ _ _ 0).
  assert (∀ p, mpeers me !! mpNode p = Some p → dropAll R (mpeers me) !! mpNode p = None → p ∈ R) as Hgone.
  { intros p Hp. rewrite lookup_dropAll. case_bool_decide as Hin; [|congruence]. intros _.
    apply list_elem_of_fmap in Hin as (q & Hq & HqR). replace p with q; [done|].
    apply elem_of_pruneSet in HqR as HqR'. destruct HqR' as [Hr _].
    apply (elem_of_rankedPeers me ord Ho Hk) in Hr. rewrite <-Hq in Hr. congruence. }
  assert (NoDup (mpNode <$> R) ∧ ∀ p, p ∈ R → is_Some (mpeers me !! mpNode p)) as [Hnd Hin].
  { split.
    - pose proof (rankedPeers_NoDup me ord Ho Hk) as Hn. unfold R, pruneSet. rewrite fmap_take.
      eapply sublist_NoDup; [|apply sublist_take]. eapply sublist_NoDup; [exact Hn|]. apply fmap_sublist, filter_sublist.
    - intros p [Hp _]%elem_of_pruneSet. apply (elem_of_rankedPeers me ord Ho Hk) in Hp. by exists p. }
  repeat split.
  - apply map_subseteq_spec. intros k p. rewrite lookup_dropAll. by case_bool_decide.
  - pose proof (size_dropAll R (mpeers me) Hnd Hin). lia.
  - rewrite <-(filter_perm_length _ _ _ (rankedPeers_perm me ord)). unfold R, pruneSet. rewrite length_take. lia.
  - intros p Hp Hd. by apply (elem_of_pruneSet (rules me) now (rankedPeers me ord) 0), Hgone.
  - intros p q less HL Hp Hd Hq Hg. apply (pruneLess_order _ _) in HL as HL'. destruct HL' as [Ht Ha].
    assert (StronglySorted (ranksBefore less) (rankedPeers me ord)) as Hs.
    { unfold rankedPeers. rewrite HL. by apply sortSlice_sorted. }
    apply (StronglySorted_filter _ (eligible (rules me) now)) in Hs.
    rewrite <-(take_drop (Z.to_nat (Prune (rules me) - 0)) (List.filter _ _)) in Hs.
    refine (StronglySorted_app_rel _ _ _ p q Hs _ _); [by apply Hgone|].
    rewrite lookup_dropAll in Hq. case_bool_decide as Hqin; [done|].
    assert (q ∈ List.filter (eligible (rules me) now) (rankedPeers me ord)) as Hf.
    { apply list_elem_of_In, List.filter_In. split; [|unfold eligible; by rewrite Hg].
      apply list_elem_of_In. by apply elem_of_rankedPeers. }
    rewrite <-(take_drop (Z.to_nat (Prune (rules me) - 0)) (List.filter _ _)) in Hf.
    apply elem_of_app in Hf as [Hf|Hf]; [|done]. destruct Hqin. by apply list_elem_of_fmap_2.
Qed.

(** ** The peer set *)

Record engine_ok (myID : Z) (me : ManagedEngine) : Prop := {
  eo_keyed : keyed (mpeers me);
  eo_self : mpeers me !! myID = None;
  eo_links : Z.of_nat (size (mpeers me)) <= Z.max 0 (Links (rules me));
}.

Lemma addNew_spec now ids m :
  keyed m → keyed (addNew now ids m) ∧ (size (addNew now ids m) <= size m + length ids)%nat ∧
  ∀ k, is_Some (addNew now ids m !! k) ↔ is_Some (m !! k) ∨ k ∈ ids.
Proof.
  unfold addNew. revert m. induction ids as [|i ids IH]; intros m Hm; cbn.
  { split_and!; [done|lia|]. set_solver. }
  destruct (IH (<[i := mkManagedPeer i [] now zero_time]> m)) as (H1 & H2 & H3).
  { by apply map_Forall_insert_2. }
  split_and!; [done| |].
  - rewrite map_size_insert in H2. destruct (m !! i); cbn in H2; lia.
  - intros k. rewrite H3, elem_of_cons. destruct (decide (k = i)) as [->|Hk].
    + rewrite lookup_insert_eq. naive_solver.
    + rewrite lookup_insert_ne by done. naive_solver.
Qed.

Lemma prune_ok myID me ranked now : engine_ok myID me → engine_ok myID (snd (prune me ranked now)).
Proof.
  intros [H1 H2 H3]. unfold prune. rewrite pruneLoop_spec.
  set (m := dropAll _ _).
  assert (m ⊆ mpeers me) as Hm.
  { apply map_subseteq_spec. intros k p. unfold m. rewrite lookup_dropAll. by case_bool_decide. }
  split; cbn.
  - intros k p Hp. apply H1. by eapply lookup_weaken.
  - destruct (m !! myID) eqn:E; [|done]. by rewrite (lookup_weaken _ _ _ _ E Hm) in H2.
  - apply map_subseteq_size in Hm. lia.
Qed.

Lemma fill_ok myID me members dr now :
  engine_ok myID me →
  engine_ok myID (snd (fill me myID members dr now)) ∧
  ∀ k, is_Some (mpeers (snd (fill me myID members dr now)) !! k) → is_Some (mpeers me !! k) ∨ k ∈ members.
Proof.
  intros [H1 H2 H3]. unfold fill. cbn [snd mpeers set_mpeers].
  set (cs := cryptoShuffle _ _). set (n := Z.min _ _).
  assert (∀ k, k ∈ take (Z.to_nat n) cs → k ∈ members ∧ k ≠ myID) as Hcs.
  { intros k (i & Hi & _)%elem_of_take. apply list_elem_of_lookup_2 in Hi. unfold cs in Hi.
    rewrite cryptoShuffle_perm in Hi. apply list_elem_of_In, List.filter_In in Hi as [Hi Hf].
    rewrite list_elem_of_In. split; [done|]. intros ->. by rewrite Z.eqb_refl in Hf. }
  destruct (addNew_spec now (take (Z.to_nat n) cs) (mpeers me) H1) as (A1 & A2 & A3).
  split.
  - split; cbn; [done| |].
    + apply eq_None_not_Some. rewrite A3. intros [[? ?]|Hin]; [congruence|]. by apply Hcs in Hin as [_ ?].
    + rewrite length_take in A2. lia.
  - intros k. rewrite A3. intros [?|Hin]; [by left|]. right. by apply Hcs.
Qed.

Lemma fetchRounds_ok ext n netID admin log e : ∃ k, (k <= n)%nat ∧
  snd (fetchRounds ext n netID admin log e) = log ++ replicate k (XListNodes netID admin).
Proof.
  revert log e. induction n as [|n IH]; intros log e; cbn [fetchRounds].
  { exists 0%nat. by rewrite app_nil_r. }
  unfold askLog. destruct (ext (length log) _) as [err|resp].
  - destruct (IH (log ++ [XListNodes netID admin]) err) as (k & Hk & ->). exists (S k). split; [lia|].
    by rewrite <-app_assoc.
  - exists 1%nat. split; [lia|]. by repeat case_match.
Qed.

Lemma prune_rules me ranked now : rules (snd (prune me ranked now)) = rules me.
Proof. unfold prune. by destruct (pruneLoop _ _ _ _ _). Qed.

(** A cycle keeps the peer set within the links of the rules, without this node, and
    takes new peers only from the member list; if the members cannot be fetched it
    adds nothing and leaves the file as it is. *)
Theorem cycle_keeps_set ext myID admin log run me res me' log' :
  engine_ok myID me →
  (∀ e, engine_ok myID e → engine_ok myID (meanwhile run e)) →
  runCycle ext me myID admin log run = (res, me', log') →
  engine_ok myID me' ∧
  (crFile res = match crErr res with None => Some (persist me') | Some _ => None end) ∧
  ∀ k, is_Some (mpeers me' !! k) →
    is_Some (mpeers (meanwhile run (snd (prune me (rankedPeers me (order run)) (pruneNow run)))) !! k) ∨
    ∃ e members, fetchMembers ext (meNet e) admin log = (inr members, log') ∧ k ∈ members ∧ k ≠ myID.
Proof.
  intros Hok Hmw. unfold runCycle.
  pose proof (prune_ok myID me (rankedPeers me (order run)) (pruneNow run) Hok) as Hp.
  destruct (prune _ _ _) as [n me1]. cbn [snd] in *. apply Hmw in Hp.
  set (me2 := meanwhile run me1) in *.
  destruct (fetchMembers ext (meNet me2) admin log) as [[e|members] log1] eqn:Hf.
  - intros H. injection H as <- <- <-. split_and!; [done..|]. by left.
  - destruct (fill_ok myID me2 members (draw run) (fillNow run) Hp) as [H1 H2].
    destruct (fill _ _ _ _ _) as [k me3]. cbn [snd] in *. intros H. injection H as <- <- <-.
    split_and!; [done..|]. intros j Hj. destruct (H2 j Hj) as [?|?]; [by left|]. right.
    exists me2, members. split_and!; [done..|]. intros ->. by apply eo_self, eq_None_not_Some in H1.
Qed.

(** Start, stop and start again: the peers are those that were written. *)
Theorem engine_restart me now : 
  let me' := NewManagedEngine (meNet me) (rules me) now (Some (persist me)) in
  mpeers me' = mpeers me ∧ joinedAt me' = wholeSeconds (joinedAt me) ∧
  ∀ ext myID admin log dr t, mpeers me ≠ ∅ → engineStart ext me' myID admin log dr t = (me', log).
Proof.
  cbn. split_and!; [done..|]. intros. unfold engineStart. cbn. by rewrite bool_decide_false.
Qed.

Module ManagedDemo.
Definition r := mkRules 3 (str "1h") 1 (str "age") 2 (str "random") (str "1m") (60 * Second).
Definition peer (id at_ : Z) : Z * managedPeer := (id, mkManagedPeer id [] at_ 0).
Definition t0 : gotime := unixEpoch.
Definition e : ManagedEngine :=
  mkEngine 7 r (list_to_map [peer 1 t0; peer 2 (t0 - 300 * Second); peer 3 (t0 - 200 * Second)]) t0 false.
Definition members : jval :=
  JObj [(str "nodes", JList [JObj [(str "node_id", JNum 1)]; JObj [(str "node_id", JNum 4)]; JObj [(str "node_id", JNum 9)]])].
Definition ans : Ask := λ _ _, inr members.
Definition run : CycleRun := mkCycleRun [3; 1; 2] (λ _, Some 0) t0 t0 id.

(** Peer 1 is in its grace period, peer 2 the oldest of the others. *)
Lemma prune_takes_the_worst_witness :
  ranges (mpeers e) [3; 1; 2] ∧ (prune e (rankedPeers e [3; 1; 2]) t0).1 = 1 ∧
  1 = Z.of_nat (size (mpeers e)) - Z.of_nat (size (mpeers (prune e (rankedPeers e [3; 1; 2]) t0).2)).
Proof.
  assert (ranges (mpeers e) [3; 1; 2]) as Hr.
  { split; [by apply (bool_decide_unpack _); vm_compute|].
    intros k. split.
    - intros [->|[->|[->|H]%elem_of_cons]%elem_of_cons]%elem_of_cons; [vm_compute; eauto..|]. by apply elem_of_nil in H.
    - intros [p Hp]. apply (elem_of_list_to_map_2 (M := gmap Z)) in Hp. cbn in Hp.
      repeat (apply elem_of_cons in Hp as [Hp|Hp]; [injection Hp as -> _; set_solver|]). by apply elem_of_nil in Hp. }
  split; [exact Hr|]. split; [vm_compute; reflexivity|].
  assert (keyed (mpeers e)) as Hk.
  { unfold keyed. by apply (bool_decide_unpack _); vm_compute. }
  destruct (prune_takes_the_worst e [3; 1; 2] t0 1 (prune e (rankedPeers e [3; 1; 2]) t0).2 Hr Hk) as (_ & H & _).
  - vm_compute. reflexivity.
  - exact H.
Defined.

Lemma cycle_keeps_set_witness :
  crFilled (runCycle ans e 9 [] [] run).1.1 = 1 ∧ engine_ok 9 (runCycle ans e 9 [] [] run).1.2.
Proof.
  split; [vm_compute; reflexivity|].
  destruct (runCycle ans e 9 [] [] run) as [[res me'] log'] eqn:E.
  refine (proj1 (cycle_keeps_set ans 9 [] [] run e res me' log' _ (λ _ H, H) E)).
  split; [|vm_compute; reflexivity|vm_compute; discriminate].
  unfold keyed. by apply (bool_decide_unpack _); vm_compute.
Defined.
End ManagedDemo.
