(* ===== verification/Networks.v ===== *)
(** * Network membership, port policies and managed engines (pkg/daemon/daemon.go)

    What the daemon knows of the networks it is in: the port policies and member tags
    it enforces, the short-lived cache of the membership list, the managed engines,
    the snapshot it keeps on disk, and the events it publishes when a tick of the
    synchronisation finds a difference.  Registry calls go through [Ask] as in
    [Managed]; a call that times out is answered with an error.  Events that one tick
    publishes for several networks come in the order Go ranges over a map, here the
    order of [elements]. *)
From stdpp Require Import strings.
From S2P Require Import Prelude GoText Json Managed RxWatchdog HandshakePoll Admission.
Open Scope Z_scope.

Definition nodeNetworksTTL : duration := 1 * Second.
Definition policyAttempts : nat := 3.

(** Go's string from the bytes of a JSON string. *)
Definition text (b : bytes) : string := String.string_of_list_ascii (Ascii.ascii_of_nat ∘ Z.to_nat <$> b).

Inductive NetEvent :=
| NetworkJoined (net : Z) (rules : option jval) (policy : option jval) (tags : list string)
| NetworkLeft (net : Z)
| TagsChanged (net : Z) (tags : list string)
| PolicyLoadFailed (net : Z) (hadPrior : bool)
| AutoJoined (net : Z).

Record networkSnapshot := mkNetworkSnapshot {
  snapNetworks : list Z; snapPolicies : gmap Z (list Z); snapTags : gmap Z (list string);
}.

Record Nets := mkNets {
  npol : PolicyState;
  nodeNetworksCache : list Z; nodeNetworksCacheAt : gotime;
  managed : gmap Z ManagedEngine;
  managedFiles : gmap Z managedSnapshot;
  netFile : option networkSnapshot;
  busEvents : list NetEvent;
  asked : list ExtCall;
}.
Implicit Types n : Nets.

Definition set_policies n m : Nets :=
  mkNets (mkPolicy m (memberTags (npol n)) (policyManager (npol n)) (nodeInfoTagsFor (npol n)))
    (nodeNetworksCache n) (nodeNetworksCacheAt n) (managed n) (managedFiles n) (netFile n) (busEvents n) (asked n).
Definition set_memberTags n m : Nets :=
  mkNets (mkPolicy (netPolicies (npol n)) m (policyManager (npol n)) (nodeInfoTagsFor (npol n)))
    (nodeNetworksCache n) (nodeNetworksCacheAt n) (managed n) (managedFiles n) (netFile n) (busEvents n) (asked n).
Definition set_cache n l t : Nets :=
  mkNets (npol n) l t (managed n) (managedFiles n) (netFile n) (busEvents n) (asked n).
Definition set_managed n m f : Nets :=
  mkNets (npol n) (nodeNetworksCache n) (nodeNetworksCacheAt n) m f (netFile n) (busEvents n) (asked n).
Definition set_netFile n f : Nets :=
  mkNets (npol n) (nodeNetworksCache n) (nodeNetworksCacheAt n) (managed n) (managedFiles n) f (busEvents n) (asked n).
Definition publish n e : Nets :=
  mkNets (npol n) (nodeNetworksCache n) (nodeNetworksCacheAt n) (managed n) (managedFiles n) (netFile n) (busEvents n ++ [e]) (asked n).
Definition set_asked n l : Nets :=
  mkNets (npol n) (nodeNetworksCache n) (nodeNetworksCacheAt n) (managed n) (managedFiles n) (netFile n) (busEvents n) l.

(** ** Network ids in JSON *)

(** Numbers are integers in this model; the source also refuses fractions. *)
Definition networkIDInRange (f : Z) : bool := (0 <=? f) && (f <=? 65535).
Definition networkIDFromJSON (v : option jval) : option Z :=
  match v with
  | Some (JNum f) => if networkIDInRange f then Some f else None
  | _ => None
  end.

(** The answer's list under [key], empty if it is not one. *)
Definition jlist (j : jval) (key : string) : list jval :=
  match jfield j (str key) with Some (JList l) => l | _ => [] end.

Section Networks.
Context (ext : Ask) (ParseRules : jval → option NetworkRules).

Definition ask n (q : ExtCall) : (bytes + jval) * Nets :=
  let '(a, log) := askLog ext (asked n) q in (a, set_asked n log).
(** A call whose answer is not used. *)
Definition tell n (q : ExtCall) : Nets := snd (ask n q).

(** ** Membership *)

(** [None]: the lookup failed (Go's nil slice). *)
Definition nodeNetworksFresh n (myID : Z) (now : gotime) : option (list Z) * Nets :=
  let '(a, n) := ask n (XLookup myID) in
  match a with
  | inl _ => (None, n)
  | inr resp =>
      let nets := omap (λ v, networkIDFromJSON (Some v)) (jlist resp "networks") in
      (Some nets, set_cache n nets now)
  end.
Definition nodeNetworks n (myID : Z) (now : gotime) : option (list Z) * Nets :=
  if negb (IsZero (nodeNetworksCacheAt n)) && (time_sub now (nodeNetworksCacheAt n) <? nodeNetworksTTL)
  then (Some (nodeNetworksCache n), n)
  else nodeNetworksFresh n myID now.
Definition invalidateNodeNetworksCache n : Nets := set_cache n [] zero_time.

(** ** Port policies *)

Fixpoint fetchPolicy (attempts : nat) n (net : Z) : (bytes + jval) * Nets :=
  let '(a, n) := ask n (XGetNetworkPolicy net) in
  match a, attempts with
  | inl _, S more => fetchPolicy more n net
  | _, _ => (a, n)
  end.
Definition allowedPorts (resp : jval) : list Z :=
  omap (λ v, match v with JNum f => Some (u16 f) | _ => None end) (jlist resp "allowed_ports").

(** One network's turn of the loop; [prior] is the policy cache before it. *)
Definition loadOne (prior : gmap Z (list Z)) (acc : list netPolicyResult * Nets) (net : Z)
  : list netPolicyResult * Nets :=
  let '(results, n) := acc in
  let '(a, n) := fetchPolicy (policyAttempts - 1) n net in
  match a with
  | inl _ => (results ++ [(net, None)], publish n (PolicyLoadFailed net (bool_decide (is_Some (prior !! net)))))
  | inr resp => (results ++ [(net, Some (allowedPorts resp))], n)
  end.
Definition loadNetworkPolicies n (myID : Z) (now : gotime) : Nets :=
  let '(nets, n) := nodeNetworks n myID now in
  let prior := netPolicies (npol n) in
  let '(results, n) := fold_left (loadOne prior) (default [] nets) ([], n) in
  set_policies n (mergeNetworkPolicies prior results).

(** ** Member tags *)

Definition stringSliceEqual (a b : list string) : bool :=
  Nat.eqb (length a) (length b) && forallb (λ p, bool_decide (p.1 = p.2)) (zip a b).

Definition refreshOne (myID : Z) (acc : gmap Z (list string) * Nets) (net : Z) : gmap Z (list string) * Nets :=
  let '(changes, n) := acc in
  if net =? 0 then (changes, n)
  else
    let '(a, n) := ask n (XGetMemberTags net myID) in
    match a with
    | inl _ => (changes, n)
    | inr resp =>
        let tags := omap (λ v, match v with JStr s => Some (text s) | _ => None end) (jlist resp "tags") in
        let prev := default [] (memberTags (npol n) !! net) in
        (if stringSliceEqual prev tags then changes else <[net := tags]> changes,
         set_memberTags n (<[net := tags]> (memberTags (npol n))))
    end.
Definition refreshMemberTagsAndDiff n (myID : Z) (nets : list Z) : gmap Z (list string) * Nets :=
  fold_left (refreshOne myID) nets (∅, n).

Definition GetMemberTags n (net : Z) : list string := default [] (memberTags (npol n) !! net).

(** ** The synchronisation tick *)

Definition knownNetworkSet n : gset Z :=
  (dom (netPolicies (npol n)) ∖ {[0]})
  ∪ match policyManager (npol n) with Some pm => list_to_set (NetworkID <$> pmAll pm) | None => ∅ end
  ∪ dom (managed n) ∪ dom (memberTags (npol n)).

Definition clearNetworkState n (net : Z) : Nets :=
  let n := set_policies n (delete net (netPolicies (npol n))) in
  set_memberTags n (delete net (memberTags (npol n))).

(** [hasPath]: an identity path is configured; [wrote]: the file could be written. *)
Definition saveNetworkSnapshot n (hasPath wrote : bool) (nets : list Z) : Nets :=
  if hasPath && wrote then
    set_netFile n (Some (mkNetworkSnapshot nets (netPolicies (npol n)) (memberTags (npol n))))
  else n.
Definition loadNetworkSnapshot n (hasPath : bool) : Nets :=
  match (if hasPath then netFile n else None) with
  | None => n
  | Some s =>
      let n := set_policies n (netPolicies (npol n) ∪ snapPolicies s) in
      set_memberTags n (memberTags (npol n) ∪ snapTags s)
  end.

(** Later entries of the list replace earlier ones of the same id. *)
Definition networksByID (l : list jval) : gmap Z jval :=
  fold_left (λ m j, match j with
                    | JObj _ => match networkIDFromJSON (jfield j (str "id")) with Some id => <[id := j]> m | None => m end
                    | _ => m
                    end) l ∅.

Definition present (v : option jval) : option jval := match v with Some JNull => None | _ => v end.

Definition buildJoinPayload n (net : Z) (entry : option jval) : NetEvent * Nets :=
  let rules := match entry with Some j => present (jfield j (str "rules")) | None => None end in
  let has := match entry with
             | Some j => match jfield j (str "has_expr_policy") with Some (JBool b) => b | _ => false end
             | None => false
             end in
  let '(policy, n) :=
    if has then
      let '(a, n) := ask n (XGetExprPolicy net) in
      (match a with inl _ => None | inr r => present (jfield r (str "expr_policy")) end, n)
    else (None, n) in
  (NetworkJoined net rules policy (GetMemberTags n net), n).

Definition joinOne (byID : gmap Z jval) n (net : Z) : Nets :=
  let '(e, n) := buildJoinPayload n net (byID !! net) in publish n e.
Definition leaveOne n (net : Z) : Nets := publish (clearNetworkState n net) (NetworkLeft net).

(** [regNil]: there is no registry client. *)
Definition reconcileMembership n (regNil hasPath wrote : bool) (myID : Z) (now later : gotime) : Nets :=
  if regNil then n
  else
    let '(fresh, n) := nodeNetworksFresh n myID now in
    match fresh with
    | None => n
    | Some newNets =>
        let newSet : gset Z := list_to_set newNets in
        let oldSet := knownNetworkSet n in
        let n := loadNetworkPolicies n myID later in
        let '(a, n) := ask n XListNetworks in
        let byID := networksByID (match a with inl _ => [] | inr r => jlist r "networks" end) in
        let '(changes, n) := refreshMemberTagsAndDiff n myID newNets in
        let n := fold_left (joinOne byID) (elements (newSet ∖ oldSet ∖ {[0]})) n in
        let n := fold_left leaveOne (elements (oldSet ∖ newSet)) n in
        let n := fold_left (λ n e, publish n (TagsChanged e.1 e.2)) (map_to_list changes) n in
        saveNetworkSnapshot n hasPath wrote newNets
    end.

(** ** Managed engines *)

Definition StartManagedEngine n (net : Z) (r : NetworkRules) (now : gotime) : Nets :=
  match managed n !! net with
  | Some _ => n
  | None => set_managed n (<[net := NewManagedEngine net r now (managedFiles n !! net)]> (managed n)) (managedFiles n)
  end.
Definition StopManagedEngine n (net : Z) : Nets := set_managed n (delete net (managed n)) (managedFiles n).
Definition GetManagedEngine n (net : Z) : option ManagedEngine := managed n !! net.

Definition handleNetworkJoinedInternal n (net : Z) (rules : option jval) (now : gotime) : Nets :=
  match rules with
  | None => n
  | Some j =>
      match managed n !! net with
      | Some _ => n
      | None => match ParseRules j with Some r => StartManagedEngine n net r now | None => n end
      end
  end.
Definition handleNetworkLeftInternal n (net : Z) : Nets := StopManagedEngine n net.

(** The daemon's own subscription to its events. *)
Definition networkBusEvent n (e : NetEvent) (now : gotime) : Nets :=
  match e with
  | NetworkJoined net rules _ _ => handleNetworkJoinedInternal n net rules now
  | NetworkLeft net => handleNetworkLeftInternal n net
  | _ => n
  end.

(** Whether the node is in the network, by the cached list. *)
Definition isMember n (myID net : Z) (now : gotime) : bool * Nets :=
  let '(nets, n) := nodeNetworks n myID now in (bool_decide (net ∈ default [] nets), n).

Definition startManagedOne (myID : Z) (now : gotime) n (raw : jval) : Nets :=
  match raw with
  | JObj _ =>
      match present (jfield raw (str "rules")), networkIDFromJSON (jfield raw (str "id")) with
      | Some j, Some net =>
          let '(mem, n) := isMember n myID net now in
          if mem then
            match ParseRules j with
            | Some r => set_managed n (<[net := NewManagedEngine net r now (managedFiles n !! net)]> (managed n)) (managedFiles n)
            | None => n
            end
          else n
      | _, _ => n
      end
  | _ => n
  end.
Definition startManaged n (myID : Z) (now : gotime) : Nets :=
  let '(a, n) := ask n XListNetworks in
  match a with
  | inl _ => n
  | inr resp => fold_left (startManagedOne myID now) (jlist resp "networks") n
  end.
(** Every engine is stopped; the table keeps them. *)
Definition stopManaged n : Nets := set_managed n (meStop <$> managed n) (managedFiles n).

(** ** Policy runners (a plugin) *)

Definition StartPolicyRunner n (net : Z) (policy : bytes) : option bytes * Nets :=
  match policyManager (npol n) with
  | None => (Some (str "policy plugin not registered"), n)
  | Some _ =>
      let '(a, n) := ask n (XStartRunner net policy) in
      (match a with inl e => Some e | inr _ => None end, n)
  end.
Definition StopPolicyRunner n (net : Z) : Nets :=
  match policyManager (npol n) with None => n | Some _ => tell n (XStopRunner net) end.

(** A policy as the registry gives it: its text, or an object. *)
Definition policyText (v : option jval) : option bytes :=
  match v with
  | Some (JStr s) => Some s
  | Some (JObj _ as j) => Some (Marshal j)
  | _ => None
  end.

Definition loadRunnerOne (myID : Z) (now : gotime) n (raw : jval) : Nets :=
  match raw with
  | JObj _ =>
      match jfield raw (str "has_expr_policy"), networkIDFromJSON (jfield raw (str "id")) with
      | Some (JBool true), Some net =>
          let '(mem, n) := isMember n myID net now in
          if mem then
            let '(a, n) := ask n (XGetExprPolicy net) in
            match a with
            | inl _ => n
            | inr r => match policyText (jfield r (str "expr_policy")) with
                       | Some p => snd (StartPolicyRunner n net p)
                       | None => n
                       end
            end
          else n
      | _, _ => n
      end
  | _ => n
  end.
Definition loadPolicyRunners n (myID : Z) (now : gotime) : Nets :=
  let '(a, n) := ask n XListNetworks in
  match a with
  | inl _ => n
  | inr resp => fold_left (loadRunnerOne myID now) (jlist resp "networks") n
  end.

Definition autoJoinNetworks n (myID : Z) (admin : bytes) (networks : list Z) : Nets :=
  if bool_decide (admin = []) || bool_decide (networks = []) then n
  else fold_left (λ n net,
    let '(a, n) := ask n (XJoinNetwork myID net [] admin) in
    match a with inl _ => n | inr _ => publish n (AutoJoined net) end) networks n.

(** ** Relayed handshakes *)

(** The sender of a relayed message. *)
Definition fromNode (j : jval) : option Z :=
  match j with JObj _ => match jfield j (str "from_node_id") with Some (JNum v) => Some (u32 v) | _ => None end | _ => None end.

Definition relayedRequest (hasService : bool) n (j : jval) : Nets :=
  match fromNode j with
  | None => n
  | Some from =>
      let why := match jfield j (str "justification") with Some (JStr s) => s | _ => [] end in
      if hasService then tell n (XHsRelayedRequest from why) else n
  end.
Definition relayedResponse (hasService : bool) (acc : handshakePollSched * Nets) (j : jval) : handshakePollSched * Nets :=
  let '(s, n) := acc in
  match fromNode j with
  | None => (s, n)
  | Some from =>
      let accept := match jfield j (str "accept") with Some (JBool b) => b | _ => false end in
      (answered s from,
       if hasService then tell n (if accept then XHsRelayedApproval from else XHsRelayedRejection from) else n)
  end.
Definition pollRelayedHandshakes (s : handshakePollSched) n (regNil hasService : bool) (myID : Z)
  : handshakePollSched * Nets :=
  if regNil then (s, n)
  else
    let '(a, n) := ask n (XPollHandshakes myID) in
    match a with
    | inl _ => (s, n)
    | inr resp =>
        let n := fold_left (relayedRequest hasService) (jlist resp "requests") n in
        fold_left (relayedResponse hasService) (jlist resp "responses") (s, n)
    end.
End Networks.
