(* ===== verification/NetworksProofs.v ===== *)
(** * Network membership: policies fail closed, ticks report what changed

    The policy cache, the delta events of a synchronisation tick, and what the
    daemon still knows of a network it has left. *)
From stdpp Require Import strings.
From S2P Require Import Prelude GoText Json Managed RxWatchdog HandshakePoll Admission Networks.
Open Scope Z_scope.

Implicit Types n : Nets.

(** ** Frames *)

(** [n'] differs from [n] in the calls made and in events of the kind [ok]. *)
Record quiet (ok : NetEvent → Prop) n n' : Prop := {
  q_pol : npol n' = npol n;
  q_managed : managed n' = managed n;
  q_cache : nodeNetworksCache n' = nodeNetworksCache n ∧ nodeNetworksCacheAt n' = nodeNetworksCacheAt n;
  q_file : netFile n' = netFile n ∧ managedFiles n' = managedFiles n;
  q_bus : ∃ evs, busEvents n' = busEvents n ++ evs ∧ Forall ok evs;
}.

Lemma net_quiet_refl ok n : quiet ok n n.
Proof. split; [done..|]. exists []. by rewrite app_nil_r. Qed.
Lemma net_quiet_trans ok n1 n2 n3 : quiet ok n1 n2 → quiet ok n2 n3 → quiet ok n1 n3.
Proof.
  intros [A1 A2 [A3 A4] [A5 A6] (e1 & A7 & A8)] [B1 B2 [B3 B4] [B5 B6] (e2 & B7 & B8)].
  split; [congruence..|split; congruence|split; congruence|].
  exists (e1 ++ e2). rewrite B7, A7, app_assoc. split; [done|]. by apply Forall_app.
Qed.
Lemma quiet_publish (ok : NetEvent → Prop) n e : ok e → quiet ok n (publish n e).
Proof. intros He. split; [done..|]. exists [e]. split; [done|]. by constructor. Qed.

Section Proofs.
Context (ext : Ask) (ParseRules : jval → option NetworkRules).

Lemma quiet_ask ok n q : quiet ok n (snd (ask ext n q)).
Proof. split; [done..|]. exists []. by rewrite app_nil_r. Qed.

Definition failedLoad (e : NetEvent) : Prop := match e with PolicyLoadFailed _ _ => True | _ => False end.

Lemma fetchPolicy_quiet ok k n net : quiet ok n (snd (fetchPolicy ext k n net)).
Proof.
  revert n. induction k as [|k IH]; intros n; cbn; destruct (ext _ _); cbn; try apply (quiet_ask ok n (XGetNetworkPolicy net)).
  eapply net_quiet_trans; [|apply IH]. apply (quiet_ask ok n (XGetNetworkPolicy net)).
Qed.
(** An answer that is used came from the registry. *)
Lemma fetchPolicy_answer k n net r : (fetchPolicy ext k n net).1 = inr r → ∃ i, ext i (XGetNetworkPolicy net) = inr r.
Proof. revert n. induction k as [|k IH]; intros n; cbn; destruct (ext _ _) eqn:E; cbn; intros H; simplify_eq; eauto. Qed.
(** With the registry down for this call, every attempt fails. *)
Lemma fetchPolicy_down k n net : (∀ i, ∃ e, ext i (XGetNetworkPolicy net) = inl e) → ∃ e, (fetchPolicy ext k n net).1 = inl e.
Proof.
  intros Hd. revert n. induction k as [|k IH]; intros n; cbn; destruct (Hd (length (asked n))) as [e He]; rewrite He; cbn; eauto.
Qed.

(** ** Port policies *)

(** What a result may be: nothing, or what the registry answered. *)
Definition result_ok (r : netPolicyResult) : Prop :=
  match r.2 with None => True | Some ps => ∃ i a, ext i (XGetNetworkPolicy r.1) = inr a ∧ ps = allowedPorts a end.

Lemma loadOne_spec prior res n net :
  Forall result_ok res →
  let out := loadOne ext prior (res, n) net in
  quiet failedLoad n out.2 ∧ Forall result_ok out.1 ∧ out.1.*1 = res.*1 ++ [net].
Proof.
  intros Hres. unfold loadOne. pose proof (fetchPolicy_quiet failedLoad (policyAttempts - 1) n net) as Hq.
  pose proof (fetchPolicy_answer (policyAttempts - 1) n net) as Ha.
  destruct (fetchPolicy ext _ n net) as [[e|r] n1]; cbn [fst snd] in *.
  - split_and!; [by eapply net_quiet_trans, quiet_publish| |by rewrite fmap_app].
    apply Forall_app. split; [done|]. by repeat constructor.
  - split_and!; [done| |by rewrite fmap_app].
    apply Forall_app. split; [done|]. constructor; [|constructor]. destruct (Ha r eq_refl) as [i Hi]. by exists i, r.
Qed.

Lemma loadOne_fold prior nets res n :
  Forall result_ok res →
  let out := fold_left (loadOne ext prior) nets (res, n) in
  quiet failedLoad n out.2 ∧ Forall result_ok out.1 ∧ out.1.*1 = res.*1 ++ nets.
Proof.
  revert res n. induction nets as [|net nets IH]; intros res n Hres; cbn [fold_left].
  { split_and!; [apply net_quiet_refl|done|by rewrite app_nil_r]. }
  destruct (loadOne_spec prior res n net Hres) as (A1 & A2 & A3).
  destruct (loadOne ext prior (res, n) net) as [res1 n1]. cbn [fst snd] in *.
  destruct (IH res1 n1 A2) as (I1 & I2 & I3).
  split_and!; [by eapply net_quiet_trans|done|]. by rewrite I3, A3, <-app_assoc.
Qed.

Lemma merge_spec (prior : gmap Z (list Z)) (results : list netPolicyResult) (acc : gmap Z (list Z)) net :
  let out := fold_left (λ policies r,
    match r.2 with
    | None => match prior !! r.1 with Some p => <[r.1 := p]> policies | None => policies end
    | Some ports => <[r.1 := ports]> policies
    end) results acc in
  (∀ ps, out !! net = Some ps → acc !! net = Some ps ∨ prior !! net = Some ps ∨ (net, Some ps) ∈ results) ∧
  (net ∈ results.*1 → is_Some (prior !! net) → is_Some (out !! net)) ∧
  (is_Some (acc !! net) → is_Some (out !! net)) ∧ (net ∉ results.*1 → out !! net = acc !! net).
Proof.
  revert acc. induction results as [|[m o] results IH]; intros acc; cbn [fold_left fmap list_fmap fst snd].
  { split_and!; intros; try set_solver; by left. }
  set (acc1 := match o with Some _ => _ | None => _ end).
  destruct (IH acc1) as (I1 & I2 & I3 & I4).
  assert (Hac : ∀ ps, acc1 !! net = Some ps → acc !! net = Some ps ∨ prior !! net = Some ps ∨ (m = net ∧ o = Some ps)).
  { intros ps. unfold acc1. destruct o as [po|]; [|destruct (prior !! m) as [pm|] eqn:Em; [|by left]];
      (destruct (decide (m = net)) as [->|]; [rewrite lookup_insert_eq; naive_solver|rewrite lookup_insert_ne by done; by left]). }
  assert (Hmono : is_Some (acc !! net) → is_Some (acc1 !! net)).
  { unfold acc1. intros. destruct o; [|destruct (prior !! m); [|done]];
      (destruct (decide (m = net)) as [->|]; [rewrite lookup_insert_eq; eauto|by rewrite lookup_insert_ne]). }
  split_and!.
  - intros ps [H|[H|H]]%I1; [|by right; left|right; right; by apply list_elem_of_further].
    destruct (Hac ps H) as [?|[?|[-> ->]]]; [by left|by right; left|right; right; by apply list_elem_of_here].
  - intros [->|Hin]%elem_of_cons [p Hp]; [|by apply I2; eauto]. apply I3. unfold acc1.
    destruct o; [rewrite lookup_insert_eq; eauto|]. rewrite Hp, lookup_insert_eq. eauto.
  - intros. by apply I3, Hmono.
  - intros [Hne Hnin]%not_elem_of_cons. rewrite I4 by done. unfold acc1.
    destruct o; [|destruct (prior !! m); [|done]]; by rewrite lookup_insert_ne by congruence.
Qed.

Lemma nodeNetworks_frame n myID now :
  let n' := (nodeNetworks ext n myID now).2 in
  npol n' = npol n ∧ managed n' = managed n ∧ busEvents n' = busEvents n ∧ netFile n' = netFile n.
Proof. unfold nodeNetworks, nodeNetworksFresh, ask, askLog. destruct (_ && _); [done|]. by destruct (ext (length (asked n)) (XLookup myID)). Qed.

(** What [loadNetworkPolicies] does besides the policies. *)
Lemma loadNetworkPolicies_frame n myID now :
  let n' := loadNetworkPolicies ext n myID now in
  memberTags (npol n') = memberTags (npol n) ∧ policyManager (npol n') = policyManager (npol n) ∧
  managed n' = managed n ∧ netFile n' = netFile n ∧ ∃ evs, busEvents n' = busEvents n ++ evs ∧ Forall failedLoad evs.
Proof.
  unfold loadNetworkPolicies. pose proof (nodeNetworks_frame n myID now) as (A1 & A2 & A3 & A4).
  destruct (nodeNetworks ext n myID now) as [nets n1]. cbn [snd] in *.
  destruct (loadOne_fold (netPolicies (npol n1)) (default [] nets) [] n1 (Forall_nil_2 _)) as ([B1 B2 _ [B3 _] B4] & _).
  destruct (fold_left _ _ _) as [results n2]. cbn [fst snd] in *. cbn.
  rewrite B1, A1, B2, A2, B3, A4. rewrite A3 in B4. by split_and!.
Qed.

Lemma loadNetworkPolicies_policies n myID now :
  let prior := netPolicies (npol n) in
  let nets := default [] (nodeNetworks ext n myID now).1 in
  let after := netPolicies (npol (loadNetworkPolicies ext n myID now)) in
  ∀ net, (net ∉ nets → after !! net = None) ∧
    (net ∈ nets → is_Some (prior !! net) → is_Some (after !! net)) ∧
    (∀ ps, after !! net = Some ps →
       prior !! net = Some ps ∨ ∃ i a, ext i (XGetNetworkPolicy net) = inr a ∧ ps = allowedPorts a).
Proof.
  cbv zeta. unfold loadNetworkPolicies. pose proof (nodeNetworks_frame n myID now) as (A1 & _).
  destruct (nodeNetworks ext n myID now) as [nets n1]. cbn [fst snd] in *.
  destruct (loadOne_fold (netPolicies (npol n1)) (default [] nets) [] n1 (Forall_nil_2 _)) as (_ & B1 & B2).
  destruct (fold_left _ _ _) as [results n2]. cbn [fst snd fmap list_fmap app] in *. cbn [npol set_policies netPolicies].
  rewrite A1 in *. intros net. unfold mergeNetworkPolicies.
  destruct (merge_spec (netPolicies (npol n)) results ∅ net) as (M1 & M2 & _ & M4). rewrite B2 in *.
  split_and!; [intros H; by rewrite M4, lookup_empty|done|].
  intros ps [H|[H|H]]%M1; [by rewrite lookup_empty in H|by left|]. right.
  rewrite Forall_forall in B1. exact (B1 _ H).
Qed.

(** C26. A restriction is not lost to a failing policy call: while the membership list can be
    read and names the network, a network that has a policy keeps one, the policy
    changes only to what the registry answered for that network, and if every policy
    call for it fails it stays the same.  (When the list does not name the network, or
    cannot be read, its policy is dropped: [failed_lookup_drops_policies].) *)
Theorem policies_fail_closed n myID now nets net :
  (nodeNetworks ext n myID now).1 = Some nets → net ∈ nets →
  let after := netPolicies (npol (loadNetworkPolicies ext n myID now)) in
  (is_Some (netPolicies (npol n) !! net) → is_Some (after !! net)) ∧
  (∀ ps, after !! net = Some ps →
     netPolicies (npol n) !! net = Some ps ∨ ∃ i a, ext i (XGetNetworkPolicy net) = inr a ∧ ps = allowedPorts a) ∧
  ((∀ i, ∃ e, ext i (XGetNetworkPolicy net) = inl e) → after !! net = netPolicies (npol n) !! net).
Proof.
  intros Hn Hin. destruct (loadNetworkPolicies_policies n myID now net) as (_ & H2 & H3). rewrite Hn in *. cbn [default] in *.
  split_and!; [by apply H2|done|]. intros Hdown.
  destruct (netPolicies (npol (loadNetworkPolicies ext n myID now)) !! net) as [ps|] eqn:E.
  - destruct (H3 ps eq_refl) as [->|(i & a & Hi & _)]; [done|]. destruct (Hdown i); congruence.
  - destruct (netPolicies (npol n) !! net) eqn:E2; [|done]. by destruct (H2 Hin ltac:(eauto)).
Qed.

(** When the membership list itself cannot be read, every policy is dropped and every
    port of every network is allowed. *)
Lemma failed_lookup_drops_policies n myID now net port :
  (nodeNetworks ext n myID now).1 = None →
  isPortAllowed (npol (loadNetworkPolicies ext n myID now)) net port = true.
Proof.
  intros Hn. destruct (loadNetworkPolicies_policies n myID now net) as (H & _). rewrite Hn in H.
  unfold isPortAllowed. by rewrite H by set_solver.
Qed.

(** C27. A start while the membership lookup fails (and no membership is cached): the
    snapshot of the last run restores the policy of a network, so that exactly its ports
    are allowed; the load that follows drops it, and every port is allowed. *)
Theorem snapshot_is_lost_without_registry n myID now snap net ps port :
  netFile n = Some snap → netPolicies (npol n) !! net = None → snapPolicies snap !! net = Some ps → ps ≠ [] →
  nodeNetworksCacheAt n = zero_time →
  (∃ e, ext (length (asked n)) (XLookup myID) = inl e) →
  isPortAllowed (npol (loadNetworkSnapshot n true)) net port = bool_decide (port ∈ ps) ∧
  isPortAllowed (npol (loadNetworkPolicies ext (loadNetworkSnapshot n true) myID now)) net port = true.
Proof.
  intros Hf Hn Hs Hps Hc [e He]. split.
  { unfold loadNetworkSnapshot, isPortAllowed. rewrite Hf. cbn. rewrite lookup_union, Hn, Hs. by destruct ps. }
  apply failed_lookup_drops_policies.
  assert (nodeNetworksCacheAt (loadNetworkSnapshot n true) = zero_time ∧ asked (loadNetworkSnapshot n true) = asked n) as [H1 H2].
  { unfold loadNetworkSnapshot. by destruct (netFile n). }
  unfold nodeNetworks. rewrite H1. cbn. unfold nodeNetworksFresh, ask, askLog. by rewrite H2, He.
Qed.

(** ** The tick *)

Lemma refresh_fold myID nets ch n :
  let out := fold_left (refreshOne ext myID) nets (ch, n) in
  netPolicies (npol out.2) = netPolicies (npol n) ∧ policyManager (npol out.2) = policyManager (npol n) ∧
  managed out.2 = managed n ∧ busEvents out.2 = busEvents n ∧
  ∀ net, is_Some (memberTags (npol out.2) !! net) → is_Some (memberTags (npol n) !! net) ∨ net ∈ nets.
Proof.
  revert ch n. induction nets as [|m nets IH]; intros ch n; cbn [fold_left].
  { split_and!; [done..|]. by left. }
  assert (∃ ch1 n1, refreshOne ext myID (ch, n) m = (ch1, n1) ∧
    netPolicies (npol n1) = netPolicies (npol n) ∧ policyManager (npol n1) = policyManager (npol n) ∧
    managed n1 = managed n ∧ busEvents n1 = busEvents n ∧
    ∀ net, is_Some (memberTags (npol n1) !! net) → is_Some (memberTags (npol n) !! net) ∨ net = m) as (ch1 & n1 & -> & A1 & A2 & A3 & A4 & A5).
  { unfold refreshOne. case_match; [eexists _, _; split_and!; [done..|]; by left|].
    cbn. destruct (ext _ _); cbn; (eexists _, _; split_and!; [done..|]); [by left|].
    intros net. cbn. destruct (decide (net = m)) as [->|]; [by right|]. rewrite lookup_insert_ne by done. by left. }
  destruct (IH ch1 n1) as (B1 & B2 & B3 & B4 & B5). split_and!; [congruence..|].
  intros net [[?| ->]%A5|?]%B5; set_solver.
Qed.

Definition joinedEvent (net : Z) (e : NetEvent) : Prop := ∃ r p t, e = NetworkJoined net r p t.

Lemma join_fold byID l n :
  let n' := fold_left (joinOne ext byID) l n in
  npol n' = npol n ∧ managed n' = managed n ∧
  ∃ evs, busEvents n' = busEvents n ++ evs ∧ Forall2 joinedEvent l evs.
Proof.
  revert n. induction l as [|m l IH]; intros n; cbn [fold_left].
  { split_and!; [done..|]. exists []. by rewrite app_nil_r. }
  assert (∃ e, joinedEvent m e ∧ npol (joinOne ext byID n m) = npol n ∧ managed (joinOne ext byID n m) = managed n ∧
    busEvents (joinOne ext byID n m) = busEvents n ++ [e]) as (e & E1 & E2 & E3 & E4).
  { unfold joinOne, buildJoinPayload. set (has := match byID !! m with Some _ => _ | None => _ end).
    destruct has; cbn; (eexists; split_and!; [by eexists _, _, _|done..]). }
  destruct (IH (joinOne ext byID n m)) as (B1 & B2 & evs & B3 & B4).
  split_and!; [congruence..|]. exists (e :: evs). rewrite B3, E4, <-app_assoc. split; [done|]. by constructor.
Qed.

Lemma leave_fold l n :
  let n' := fold_left leaveOne l n in
  managed n' = managed n ∧ policyManager (npol n') = policyManager (npol n) ∧ busEvents n' = busEvents n ++ (NetworkLeft <$> l) ∧
  ∀ net, netPolicies (npol n') !! net = (if bool_decide (net ∈ l) then None else netPolicies (npol n) !! net) ∧
         memberTags (npol n') !! net = (if bool_decide (net ∈ l) then None else memberTags (npol n) !! net).
Proof.
  revert n. induction l as [|m l IH]; intros n; cbn [fold_left fmap list_fmap].
  { split_and!; [done..|by rewrite app_nil_r|]. intros net. by rewrite bool_decide_false by set_solver. }
  destruct (IH (leaveOne n m)) as (B1 & B2 & B3 & B4). split_and!; [done..|by rewrite B3; cbn; rewrite <-app_assoc|].
  intros net. destruct (B4 net) as [-> ->]. cbn.
  destruct (decide (net = m)) as [->|Hm].
  - rewrite !lookup_delete_eq, (bool_decide_true (m ∈ m :: l)) by set_solver. by case_bool_decide.
  - rewrite !lookup_delete_ne by done. by rewrite (bool_decide_ext (net ∈ m :: l) (net ∈ l)) by set_solver.
Qed.

Lemma tags_fold (l : list (Z * list string)) n :
  let n' := fold_left (λ n e, publish n (TagsChanged e.1 e.2)) l n in
  npol n' = npol n ∧ managed n' = managed n ∧ busEvents n' = busEvents n ++ ((λ e, TagsChanged e.1 e.2) <$> l).
Proof.
  revert n. induction l as [|m l IH]; intros n; cbn [fold_left fmap list_fmap]; [by rewrite app_nil_r|].
  destruct (IH (publish n (TagsChanged m.1 m.2))) as (-> & -> & ->). cbn. by rewrite <-app_assoc.
Qed.

Definition isTags (e : NetEvent) : Prop := match e with TagsChanged _ _ => True | _ => False end.

(** A tick whose lookup answers, in one piece. *)
Lemma sync_tick_spec n hasPath wrote myID now later nets n1 :
  nodeNetworksFresh ext n myID now = (Some nets, n1) →
  let old := knownNetworkSet n in
  let gone := elements (old ∖ list_to_set nets) in
  let n' := reconcileMembership ext n false hasPath wrote myID now later in
  policyManager (npol n') = policyManager (npol n) ∧ managed n' = managed n ∧
  (∃ failed joined tags, busEvents n' = busEvents n ++ failed ++ joined ++ (NetworkLeft <$> gone) ++ tags ∧
     Forall failedLoad failed ∧ Forall2 joinedEvent (elements (list_to_set nets ∖ old ∖ {[0]})) joined ∧ Forall isTags tags) ∧
  (∀ net, netPolicies (npol n') !! net =
     if bool_decide (net ∈ gone) then None else netPolicies (npol (loadNetworkPolicies ext n1 myID later)) !! net) ∧
  (∀ net, is_Some (memberTags (npol n') !! net) → (net ∉ gone) ∧ (is_Some (memberTags (npol n) !! net) ∨ net ∈ nets)).
Proof.
  intros Hf. cbv zeta. unfold reconcileMembership. rewrite Hf.
  assert (npol n1 = npol n ∧ managed n1 = managed n ∧ busEvents n1 = busEvents n) as (F1 & F2 & F3).
  { unfold nodeNetworksFresh, ask, askLog in Hf. destruct (ext _ _); [done|]. by injection Hf as <- <-. }
  assert (knownNetworkSet n1 = knownNetworkSet n) as -> by (unfold knownNetworkSet; by rewrite F1, F2).
  set (old := knownNetworkSet n). set (new := (list_to_set nets : gset Z)).
  destruct (loadNetworkPolicies_frame n1 myID later) as (A1 & A2 & A3 & _ & failed & A4 & A5).
  set (n2 := loadNetworkPolicies ext n1 myID later) in *.
  destruct (ask ext n2 XListNetworks) as [a n3] eqn:Ea.
  assert (npol n3 = npol n2 ∧ managed n3 = managed n2 ∧ busEvents n3 = busEvents n2) as (G1 & G2 & G3).
  { unfold ask, askLog in Ea. by injection Ea as _ <-. }
  unfold refreshMemberTagsAndDiff.
  destruct (refresh_fold myID nets ∅ n3) as (R1 & R2 & R3 & R4 & R5).
  destruct (fold_left (refreshOne ext myID) nets (∅, n3)) as [ch n4]. cbn [fst snd] in *.
  set (byID := networksByID _).
  destruct (join_fold byID (elements (new ∖ old ∖ {[0]})) n4) as (J1 & J2 & joined & J3 & J4).
  set (n5 := fold_left (joinOne ext byID) _ n4) in *.
  destruct (leave_fold (elements (old ∖ new)) n5) as (L1 & L2 & L3 & L4).
  set (n6 := fold_left leaveOne _ n5) in *.
  destruct (tags_fold (map_to_list ch) n6) as (T1 & T2 & T3).
  set (n7 := fold_left _ (map_to_list ch) n6) in *.
  assert (∀ x, npol (saveNetworkSnapshot n7 hasPath wrote x) = npol n7 ∧ managed (saveNetworkSnapshot n7 hasPath wrote x) = managed n7
            ∧ busEvents (saveNetworkSnapshot n7 hasPath wrote x) = busEvents n7) as Hsave.
  { intros x. unfold saveNetworkSnapshot. by destruct (_ && _). }
  destruct (Hsave nets) as (-> & -> & ->). rewrite T1, T2.
  split_and!.
  - by rewrite L2, J1, R2, G1, A2, F1.
  - by rewrite L1, J2, R3, G2, A3, F2.
  - exists failed, joined, ((λ e, TagsChanged e.1 e.2) <$> map_to_list ch). split_and!; [|done..|].
    + by rewrite T3, L3, J3, R4, G3, A4, F3, <-!app_assoc.
    + apply Forall_fmap. by apply Forall_forall.
  - intros net. destruct (L4 net) as [-> _]. by rewrite J1, R1, G1.
  - intros net. destruct (L4 net) as [_ ->]. case_bool_decide; [by intros [? ?]|]. rewrite J1. intros Hs. split; [done|].
    destruct (R5 net Hs) as [Hs'|?]; [|by right]. left. by rewrite G1, A1, F1 in Hs'.
Qed.

(** A tick reports a network as left exactly if it was known and is no longer listed,
    and as joined exactly if it is newly listed and not the backbone; a tick whose
    lookup fails changes nothing. *)
Theorem tick_reports_difference n hasPath wrote myID now later :
  let old := knownNetworkSet n in
  let n' := reconcileMembership ext n false hasPath wrote myID now later in
  match (nodeNetworksFresh ext n myID now).1 with
  | None => npol n' = npol n ∧ managed n' = managed n ∧ busEvents n' = busEvents n ∧ netFile n' = netFile n
  | Some nets =>
      ∃ evs, busEvents n' = busEvents n ++ evs ∧
        (∀ net, NetworkLeft net ∈ evs ↔ net ∈ old ∧ net ∉ nets) ∧
        (∀ net, (∃ e, e ∈ evs ∧ joinedEvent net e) ↔ net ∈ nets ∧ (net ∉ old) ∧ net ≠ 0)
  end.
Proof.
  cbv zeta. destruct (nodeNetworksFresh ext n myID now) as [[nets|] n1] eqn:Hf; cbn [fst].
  - destruct (sync_tick_spec n hasPath wrote myID now later nets n1 Hf) as (_ & _ & (failed & joined & tags & E & Hfl & Hj & Ht) & _).
    exists (failed ++ joined ++ (NetworkLeft <$> elements (knownNetworkSet n ∖ list_to_set nets)) ++ tags).
    split; [exact E|]. rewrite Forall_forall in Hfl, Ht.
    split; intros net.
    + rewrite !elem_of_app, list_elem_of_fmap. split.
      * intros [H|[H|[(m & [= <-] & H)|H]]]; [by apply Hfl in H| |by set_solver|by apply Ht in H].
        apply list_elem_of_lookup in H as [i Hi]. destruct (Forall2_lookup_r _ _ _ _ _ Hj Hi) as (m & _ & ? & ? & ? & ?). done.
      * intros [H1 H2]. right; right; left. exists net. split; [done|]. set_solver.
    + setoid_rewrite elem_of_app. setoid_rewrite elem_of_app. setoid_rewrite elem_of_app. setoid_rewrite list_elem_of_fmap. split.
      * intros (e & [H|[H|[(m & -> & H)|H]]] & r & p & t & ?); subst; [by apply Hfl in H| |done|by apply Ht in H].
        apply list_elem_of_lookup in H as [i Hi]. destruct (Forall2_lookup_r _ _ _ _ _ Hj Hi) as (m & Hm & ? & ? & ? & [= -> _ _ _]).
        apply list_elem_of_lookup_2 in Hm. set_solver.
      * intros (H1 & H2 & H3). assert (net ∈ elements (list_to_set nets ∖ knownNetworkSet n ∖ {[0]})) as Hm by set_solver.
        apply list_elem_of_lookup in Hm as [i Hi]. destruct (Forall2_lookup_l _ _ _ _ _ Hj Hi) as (e & He & Hje).
        exists e. split; [|done]. right; left. by eapply list_elem_of_lookup_2.
  - unfold reconcileMembership. rewrite Hf. unfold nodeNetworksFresh, ask, askLog in Hf.
    destruct (ext _ _); [|done]. by injection Hf as <-.
Qed.

(** ** What is left of a network *)

Lemma networkBusEvent_managed n e now net :
  is_Some (managed (networkBusEvent ParseRules n e now) !! net) →
  joinedEvent net e ∨ (is_Some (managed n !! net) ∧ e ≠ NetworkLeft net).
Proof.
  destruct e as [m r p t|m| | |]; cbn; try (intros; by right).
  - unfold handleNetworkJoinedInternal, StartManagedEngine. intros H.
    destruct (decide (net = m)) as [->|]; [left; by eexists _, _, _|]. right. split; [|done].
    destruct r; [|done]. destruct (managed n !! m) eqn:Em; [done|]. destruct (ParseRules j); [|done].
    cbn in H. by rewrite lookup_insert_ne in H.
  - unfold handleNetworkLeftInternal, StopManagedEngine. cbn. intros H. right.
    destruct (decide (net = m)) as [->|]; [by rewrite lookup_delete_eq in H; destruct H|].
    rewrite lookup_delete_ne in H by done. split; [done|]. congruence.
Qed.
Lemma networkBusEvent_npol n e now : npol (networkBusEvent ParseRules n e now) = npol n.
Proof. destruct e; cbn; [unfold handleNetworkJoinedInternal, StartManagedEngine|..]; by repeat case_match. Qed.

Lemma bus_fold evs n now net :
  let n' := fold_left (λ n e, networkBusEvent ParseRules n e now) evs n in
  npol n' = npol n ∧
  (is_Some (managed n' !! net) → (∃ e, e ∈ evs ∧ joinedEvent net e) ∨ (is_Some (managed n !! net) ∧ NetworkLeft net ∉ evs)).
Proof.
  revert n. induction evs as [|e evs IH]; intros n; cbn [fold_left].
  { split; [done|]. intros. right. split; [done|]. set_solver. }
  destruct (IH (networkBusEvent ParseRules n e now)) as [I1 I2]. split; [by rewrite I1, networkBusEvent_npol|].
  intros [(e' & H1 & H2)|[H1 H2]]%I2; [left; exists e'; set_solver|].
  apply networkBusEvent_managed in H1 as [H1|[H1 H3]]; [left; exists e; set_solver|].
  right. split; [done|]. set_solver.
Qed.

(** After a tick and the daemon's own handling of its events, the policies, tags and
    managed engines the daemon holds are those of networks it is in. *)
Theorem left_networks_are_forgotten n hasPath wrote myID now later nets n1 evs :
  nodeNetworksFresh ext n myID now = (Some nets, n1) →
  now ≠ zero_time → time_sub later now < nodeNetworksTTL →
  busEvents (reconcileMembership ext n false hasPath wrote myID now later) = busEvents n ++ evs →
  let n' := fold_left (λ n e, networkBusEvent ParseRules n e later) evs
              (reconcileMembership ext n false hasPath wrote myID now later) in
  ∀ net, (is_Some (netPolicies (npol n') !! net) ∨ is_Some (memberTags (npol n') !! net) ∨ is_Some (managed n' !! net)) →
    net ∈ nets.
Proof.
  intros Hf Hnow Hl Hev. cbv zeta. intros net.
  destruct (sync_tick_spec n hasPath wrote myID now later nets n1 Hf) as (_ & Hm & (failed & joined & tags & E & Hfl & Hj & Ht) & Hp & Htag).
  set (n2 := reconcileMembership ext n false hasPath wrote myID now later) in *.
  rewrite E in Hev. apply app_inv_head in Hev. subst evs.
  destruct (bus_fold (failed ++ joined ++ (NetworkLeft <$> elements (knownNetworkSet n ∖ list_to_set nets)) ++ tags) n2 later net)
    as [-> Hman].
  intros H. destruct (decide (net ∈ nets)) as [|Hnet]; [done|exfalso]. destruct H as [H|[H|H]].
  - rewrite Hp in H. case_bool_decide; [by destruct H|].
    destruct (loadNetworkPolicies_policies n1 myID later net) as (Hnone & _). rewrite Hnone in H; [by destruct H|].
    assert ((nodeNetworks ext n1 myID later).1 = Some nets) as ->; [|done].
    unfold nodeNetworksFresh, ask, askLog in Hf. destruct (ext _ _); [done|]. injection Hf as <- <-.
    unfold nodeNetworks. cbn. unfold IsZero. zbool. 
    destruct (now =? zero_time) eqn:Ez; [by apply Z.eqb_eq in Ez|]. cbn.
    by destruct (time_sub later now <? nodeNetworksTTL) eqn:El; [|apply Z.ltb_ge in El; lia].
  - apply Htag in H as [Hg [H|H]]; [|done]. apply Hg. apply elem_of_elements. unfold knownNetworkSet.
    apply elem_of_dom in H. set_solver.
  - destruct (Hman H) as [(e & He & r & p & t & ->)|[H1 H2]].
    + rewrite !elem_of_app, list_elem_of_fmap in He. rewrite Forall_forall in Hfl, Ht.
      destruct He as [He|[He|[(m & ? & _)|He]]]; [by apply Hfl in He| |done|by apply Ht in He].
      apply list_elem_of_lookup in He as [i Hi]. destruct (Forall2_lookup_r _ _ _ _ _ Hj Hi) as (m & Hmm & ? & ? & ? & [= -> _ _ _]).
      apply list_elem_of_lookup_2 in Hmm. set_solver.
    + apply H2. rewrite !elem_of_app, list_elem_of_fmap. right; right; left. exists net. split; [done|].
      rewrite Hm in H1. apply elem_of_dom in H1. apply elem_of_elements. unfold knownNetworkSet. set_solver.
Qed.

(** What is saved is what the next start reads. *)
Theorem snapshot_roundtrip n n0 nets :
  netPolicies (npol n0) = ∅ → memberTags (npol n0) = ∅ →
  netFile n0 = netFile (saveNetworkSnapshot n true true nets) →
  netPolicies (npol (loadNetworkSnapshot n0 true)) = netPolicies (npol n) ∧
  memberTags (npol (loadNetworkSnapshot n0 true)) = memberTags (npol n).
Proof. intros H1 H2 H3. unfold loadNetworkSnapshot. rewrite H3. cbn. by rewrite H1, H2, !(left_id_L ∅ (∪)). Qed.
End Proofs.

Module NetworksDemo.
Definition pol (ps : gmap Z (list Z)) : PolicyState := mkPolicy ps ∅ None (λ _, []).
Definition rules7 : NetworkRules := mkRules 3 [] 1 [] 1 [] [] 0.
Definition t0 : gotime := unixEpoch.
(** Networks 5 (restricted to port 80) and 7 (managed) are known. *)
Definition s0 : Nets :=
  mkNets (pol {[5 := [80]]}) [] zero_time {[7 := mkEngine 7 rules7 ∅ t0 false]} ∅ None [] [].
(** The node is in networks 0 and 5 now; policies cannot be fetched. *)
Definition listed : jval := JObj [(str "networks", JList [JNum 0; JNum 5; JNum 70000])].
Definition ans : Ask := λ _ q, match q with XLookup _ => inr listed | _ => inl (str "down") end.
Definition down : Ask := λ _ _, inl (str "down").
Definition noRules : jval → option NetworkRules := λ _, None.

Lemma policies_fail_closed_witness :
  netPolicies (npol (loadNetworkPolicies ans s0 1 t0)) !! 5 = Some [80].
Proof.
  assert (netPolicies (npol s0) !! 5 = Some [80]) as H by (vm_compute; reflexivity). rewrite <-H.
  apply (proj2 (proj2 (policies_fail_closed ans s0 1 t0 [0; 5] 5 ltac:(vm_compute; reflexivity) ltac:(set_solver)))).
  intros i. by exists (str "down").
Defined.

(** Port 443 of network 5 was forbidden, and is open after a start without the registry. *)
Definition s1 : Nets := mkNets (pol ∅) [] zero_time ∅ ∅ (Some (mkNetworkSnapshot [5] {[5 := [80]]} ∅)) [] [].
Lemma snapshot_is_lost_witness :
  isPortAllowed (npol (loadNetworkSnapshot s1 true)) 5 443 = false ∧
  isPortAllowed (npol (loadNetworkPolicies down (loadNetworkSnapshot s1 true) 1 t0)) 5 443 = true.
Proof.
  apply (snapshot_is_lost_without_registry down s1 1 t0 (mkNetworkSnapshot [5] {[5 := [80]]} ∅) 5 [80] 443);
    try reflexivity; [discriminate|]. by exists (str "down").
Defined.

Definition tick : Nets := reconcileMembership ans s0 false true true 1 t0 t0.
Lemma left_networks_are_forgotten_witness :
  busEvents tick = [PolicyLoadFailed 0 false; PolicyLoadFailed 5 true; NetworkLeft 7] ∧
  managed (fold_left (λ n e, networkBusEvent noRules n e t0) (busEvents tick) tick) !! 7 = None.
Proof.
  split; [vm_compute; reflexivity|].
  apply eq_None_not_Some. intros H.
  assert (7 ∈ [0; 5]) as Hin; [|by apply (bool_decide_unpack _) in Hin || set_solver].
  eapply (left_networks_are_forgotten ans noRules s0 true true 1 t0 t0 [0; 5] (nodeNetworksFresh ans s0 1 t0).2 (busEvents tick)).
  - vm_compute. reflexivity.
  - by vm_compute.
  - by vm_compute.
  - reflexivity.
  - right. right. exact H.
Defined.

Lemma snapshot_roundtrip_witness :
  netPolicies (npol (loadNetworkSnapshot (set_netFile s1 (netFile (saveNetworkSnapshot s0 true true [5]))) true)) = {[5 := [80]]}.
Proof.
  apply (snapshot_roundtrip s0 (set_netFile s1 (netFile (saveNetworkSnapshot s0 true true [5]))) [5]); reflexivity.
Defined.
End NetworksDemo.
