(* ===== verification/IpcConn.v ===== *)
(** * One IPC client (pkg/daemon/ipc.go: [ipcConn])

    Replies and pushed messages go through a bounded channel to one writer
    goroutine.  [Pipe] is that channel with its writer: any number of callers are
    inside [ipcWrite], each at one of its select statements, while the writer runs
    and [Close] may come at any moment.  A select with several ready cases may take
    any of them, so a step function lists the possible results.

    [Client] is the client's bookkeeping: the ports and connections it owns and the
    cancel functions of its dials in flight. *)
From stdpp Require Import gmap.
From S2P Require Import Prelude.
Open Scope Z_scope.

Definition ipcSendBuffer : nat := 256.
Definition ipcMaxInflightPerClient : nat := 1024.
Definition MaxConnsPerIPCClient : nat := 4096.
Definition MaxIPCClients : nat := 1024.

(** ** The pipe *)

Inductive writerState := WriterRuns | WriterDrains | WriterExited.
#[export] Instance writerState_eq_dec : EqDecision writerState.
Proof. solve_decision. Defined.

(** [wire]: the messages written to the socket; [lost]: the one whose write failed. *)
Record Pipe := mkPipe {
  sendCh : list bytes;
  icDone : bool;
  writer : writerState;
  wire : list bytes;
  lost : list bytes;
}.
Implicit Types p : Pipe.
Definition newPipe : Pipe := mkPipe [] false WriterRuns [] [].

Definition writeDone p : bool := bool_decide (writer p = WriterExited).
Definition hasRoom p : bool := Nat.ltb (length (sendCh p)) ipcSendBuffer.
Definition enqueue p (m : bytes) : Pipe := mkPipe (sendCh p ++ [m]) (icDone p) (writer p) (wire p) (lost p).
Definition set_writer p (w : writerState) : Pipe := mkPipe (sendCh p) (icDone p) w (wire p) (lost p).

(** Where a caller of [ipcWrite] is: before each of the four selects, or returned
    ([true]: ErrIPCClosed). *)
Inductive writePC := AtDone | AtWriteDone | AtTry | AtBlock | Returned (closed : bool).
#[export] Instance writePC_eq_dec : EqDecision writePC.
Proof. solve_decision. Defined.

Definition ipcWriteStep p (m : bytes) (pc : writePC) : list (writePC * Pipe) :=
  match pc with
  | AtDone => [(if icDone p then Returned true else AtWriteDone, p)]
  | AtWriteDone => [(if writeDone p then Returned true else AtTry, p)]
  | AtTry =>
      let ready := (if hasRoom p then [(Returned false, enqueue p m)] else []) ++
                   (if icDone p then [(Returned true, p)] else []) in
      match ready with [] => [(AtBlock, p)] | _ => ready end
  | AtBlock =>
      (if hasRoom p then [(Returned false, enqueue p m)] else []) ++
      (if icDone p || writeDone p then [(Returned true, p)] else [])
  | Returned _ => []
  end.

(** A message is taken off the channel and written; [ok]: the socket took it in
    time.  Otherwise the socket is closed and the writer ends. *)
Definition writeOut p (m : bytes) (rest : list bytes) (ok : bool) : Pipe :=
  if ok then mkPipe rest (icDone p) (writer p) (wire p ++ [m]) (lost p)
  else mkPipe rest (icDone p) WriterExited (wire p) (lost p ++ [m]).

Definition writeLoopStep p (ok : bool) : list Pipe :=
  match writer p, sendCh p with
  | WriterRuns, m :: rest => writeOut p m rest ok :: (if icDone p then [set_writer p WriterDrains] else [])
  | WriterRuns, [] => if icDone p then [set_writer p WriterDrains] else []
  | WriterDrains, m :: rest => [writeOut p m rest ok]
  | WriterDrains, [] => [set_writer p WriterExited]
  | WriterExited, _ => []
  end.

(** [closeOnce]: only the first call does anything. *)
Definition pipeClose p : Pipe := mkPipe (sendCh p) true (writer p) (wire p) (lost p).

(** ** The client *)

Record Client := mkClient {
  icPorts : list Z;
  icConns : list Z;
  whitelisted : bool;
  peerPID : Z;
  dialCancels : gset Z;        (* the dials that can be cancelled, by id *)
  nextCancelID : Z;
  cancelled : gset Z;          (* the dials whose context is done *)
  clClosed : bool;
}.
Implicit Types c : Client.
Definition newIPCConn (pid : Z) (wl : bool) : Client := mkClient [] [] wl pid ∅ 0 ∅ false.

Definition set_lists c ports conns : Client :=
  mkClient ports conns (whitelisted c) (peerPID c) (dialCancels c) (nextCancelID c) (cancelled c) (clClosed c).
Definition set_cancels c live next done_ closed : Client :=
  mkClient (icPorts c) (icConns c) (whitelisted c) (peerPID c) live next done_ closed.

Definition trackPort c (port : Z) : Client := set_lists c (icPorts c ++ [port]) (icConns c).

(** The first match is removed. *)
Fixpoint removeFirst (x : Z) (l : list Z) : option (list Z) :=
  match l with
  | [] => None
  | y :: l => if y =? x then Some l else (cons y) <$> removeFirst x l
  end.
Definition removePort c (port : Z) : bool * Client :=
  match removeFirst port (icPorts c) with
  | Some ports => (true, set_lists c ports (icConns c))
  | None => (false, c)
  end.
Definition trackConn c (id : Z) : Client := set_lists c (icPorts c) (icConns c ++ [id]).
Definition removeConn c (id : Z) : Client :=
  match removeFirst id (icConns c) with
  | Some conns => set_lists c (icPorts c) conns
  | None => c
  end.
Definition connCount c : nat := length (icConns c).

Definition addDialCancel c : Z * Client :=
  let id := u64 (nextCancelID c + 1) in
  (id, set_cancels c ({[id]} ∪ dialCancels c) id (cancelled c) (clClosed c)).
(** The deferred calls of a dial: its own cancel, then [removeDialCancel]. *)
Definition removeDialCancel c (id : Z) : Client :=
  set_cancels c (dialCancels c ∖ {[id]}) (nextCancelID c) (cancelled c) (clClosed c).
Definition cancelAllDials c : nat * Client :=
  (size (dialCancels c), set_cancels c ∅ (nextCancelID c) (dialCancels c ∪ cancelled c) (clClosed c)).
Definition clientClose c : Client :=
  if clClosed c then c
  else let '(_, c) := cancelAllDials c in set_cancels c (dialCancels c) (nextCancelID c) (cancelled c) true.
