(* ===== verification/IpcConnProofs.v ===== *)
(** * Theorems about one IPC client ([IpcConn])

    What is written to a client is what was accepted for it, in order and once;
    nothing accepted is dropped unless the socket fails or the message was accepted
    after the writer left; no caller stays blocked once the client is closed. *)
From stdpp Require Import gmap.
From S2P Require Import Prelude IpcConn.
Open Scope Z_scope.

(** Callers of [ipcWrite] by number, and the messages accepted so far. *)
Record System := mkSystem {
  pipe : Pipe;
  callers : gmap nat (bytes * writePC);
  accepted : list bytes;
}.

Inductive step : System → System → Prop :=
| S_call s k m : callers s !! k = None →
    step s (mkSystem (pipe s) (<[k := (m, AtDone)]> (callers s)) (accepted s))
| S_write s k m pc pc' p' : callers s !! k = Some (m, pc) → (pc', p') ∈ ipcWriteStep (pipe s) m pc →
    step s (mkSystem p' (<[k := (m, pc')]> (callers s))
              (if decide (pc' = Returned false) then accepted s ++ [m] else accepted s))
| S_loop s ok p' : p' ∈ writeLoopStep (pipe s) ok → step s (mkSystem p' (callers s) (accepted s))
| S_close s : step s (mkSystem (pipeClose (pipe s)) (callers s) (accepted s)).

Definition system0 : System := mkSystem newPipe ∅ [].

Record pipe_inv (s : System) : Prop := {
  pi_order : accepted s = wire (pipe s) ++ lost (pipe s) ++ sendCh (pipe s);
  pi_room : (length (sendCh (pipe s)) ≤ ipcSendBuffer)%nat;
  pi_lost : lost (pipe s) = [] ∨ writer (pipe s) = WriterExited ∧ ∃ m, lost (pipe s) = [m];
  pi_done : writer (pipe s) = WriterDrains → icDone (pipe s) = true;
}.

Lemma enqueue_inv s m cs : pipe_inv s → hasRoom (pipe s) = true →
  pipe_inv (mkSystem (enqueue (pipe s) m) cs (accepted s ++ [m])).
Proof.
  intros [H1 H2 H3 H4] Hr%Nat.ltb_lt. split; cbn; [|rewrite length_app; cbn; lia|done|done].
  by rewrite H1, <- !app_assoc.
Qed.

Lemma same_pipe_inv s cs : pipe_inv s → pipe_inv (mkSystem (pipe s) cs (accepted s)).
Proof. intros []. by split. Qed.

(** The cases of a select. *)
Ltac pick_case H :=
  repeat match type of H with
  | _ ∈ _ :: _ => apply elem_of_cons in H as [[= -> ->]|H]
  | _ ∈ [] => by apply elem_of_nil in H
  end.

Lemma ipcWriteStep_cases p m pc pc' p' : (pc', p') ∈ ipcWriteStep p m pc →
  (p' = p ∧ pc' ≠ Returned false) ∨ (pc' = Returned false ∧ p' = enqueue p m ∧ hasRoom p = true).
Proof.
  destruct pc; cbn [ipcWriteStep]; cbv zeta; intros H.
  - apply list_elem_of_singleton in H as [= -> ->]. left. split; [done|]. by destruct (icDone p).
  - apply list_elem_of_singleton in H as [= -> ->]. left. split; [done|]. by destruct (writeDone p).
  - destruct (hasRoom p), (icDone p); cbn in H; pick_case H; solve [by right|left; split; [reflexivity|discriminate]].
  - destruct (hasRoom p), (icDone p || writeDone p); cbn in H; pick_case H; solve [by right|left; split; [reflexivity|discriminate]].
  - by apply elem_of_nil in H.
Qed.

Lemma writeOut_inv s m rest ok : pipe_inv s → sendCh (pipe s) = m :: rest →
  writer (pipe s) ≠ WriterExited →
  pipe_inv (mkSystem (writeOut (pipe s) m rest ok) (callers s) (accepted s)).
Proof.
  intros [H1 H2 H3 H4] E Hw. rewrite E in *. destruct H3 as [H3|[? _]]; [|done]. rewrite H3 in H1.
  unfold writeOut. cbn in H2. destruct ok; split; cbn; try done; try lia.
  - by rewrite H1, H3, <- app_assoc.
  - by left.
  - by rewrite H1, H3.
  - rewrite H3. right. split; [done|]. by exists m.
Qed.

Lemma step_pipe_inv s s' : step s s' → pipe_inv s → pipe_inv s'.
Proof.
  intros [s0 k m Hk|s0 k m pc pc' p' Hk Hp|s0 ok p' Hp|s0] H.
  - by apply same_pipe_inv.
  - apply ipcWriteStep_cases in Hp as [[-> Hn]|(-> & -> & Hr)].
    + rewrite decide_False by done. by apply same_pipe_inv.
    + rewrite decide_True by done. by apply enqueue_inv.
  - pose proof H as [H1 H2 H3 H4]. unfold writeLoopStep in Hp.
    assert (∀ w, (w = WriterDrains → icDone (pipe s0) = true) → (writer (pipe s0) = WriterExited → w = WriterExited) →
      pipe_inv (mkSystem (set_writer (pipe s0) w) (callers s0) (accepted s0))) as Hset.
    { intros w Hw Hw'. split; cbn; try done. destruct H3 as [|[? ?]]; [by left|right; auto]. }
    destruct (writer (pipe s0)) eqn:Ew, (sendCh (pipe s0)) as [|m rest] eqn:Es.
    + destruct (icDone (pipe s0)) eqn:Ed; [|by apply elem_of_nil in Hp].
      apply list_elem_of_singleton in Hp as ->. by apply Hset.
    + apply elem_of_cons in Hp as [->|Hp]; [by apply writeOut_inv; rewrite ?Ew|].
      destruct (icDone (pipe s0)) eqn:Ed; [|by apply elem_of_nil in Hp].
      apply list_elem_of_singleton in Hp as ->. by apply Hset.
    + apply list_elem_of_singleton in Hp as ->. by apply Hset.
    + apply list_elem_of_singleton in Hp as ->. by apply writeOut_inv; rewrite ?Ew.
    + by apply elem_of_nil in Hp.
    + by apply elem_of_nil in Hp.
  - destruct H as [? ? ? ?]. by split.
Qed.

Lemma reach_pipe_inv s : rtc step system0 s → pipe_inv s.
Proof.
  apply (rtc_ind_r pipe_inv system0); [|intros y z _ Hs Hy; by eapply step_pipe_inv].
  split; cbn; [done|lia|by left|done].
Qed.

(** C25. Whatever the callers, the writer and Close do, in any interleaving: what was
    written to a client is a prefix of the messages accepted for it, in the order
    they were accepted; the channel never holds more than 256; a message that is
    neither written nor waiting is the single one whose write failed, after which
    the writer ended.  In particular a writer that ends by draining has written
    everything accepted before. *)
Theorem client_messages_in_order s :
  rtc step system0 s →
  wire (pipe s) `prefix_of` accepted s ∧
  (length (sendCh (pipe s)) ≤ ipcSendBuffer)%nat ∧
  accepted s = wire (pipe s) ++ lost (pipe s) ++ sendCh (pipe s) ∧
  (lost (pipe s) = [] ∨ writer (pipe s) = WriterExited ∧ ∃ m, lost (pipe s) = [m]) ∧
  (∀ ok p', writer (pipe s) = WriterDrains → p' ∈ writeLoopStep (pipe s) ok → writer p' = WriterExited →
     lost p' = [] → wire p' = accepted s).
Proof.
  intros [H1 H2 H3 H4]%reach_pipe_inv. split_and!; [rewrite H1; by apply prefix_app_r|done|done|done|].
  intros ok p' Hw Hp Hx Hl. destruct H3 as [H3|[? _]]; [|congruence]. unfold writeLoopStep in Hp. rewrite Hw in Hp.
  destruct (sendCh (pipe s)) as [|m rest] eqn:Es; apply list_elem_of_singleton in Hp as ->.
  - cbn. by rewrite H1, H3, !app_nil_r.
  - unfold writeOut in *. destruct ok; cbn in *; [congruence|]. by rewrite H3 in Hl.
Qed.

(** No caller hangs on a closed client: as soon as the client is closed or its
    writer has ended, every caller still inside [ipcWrite] can go on, and a caller
    that starts then is refused. *)
Theorem no_write_hangs p m pc :
  icDone p = true ∨ writeDone p = true →
  pc = Returned true ∨ pc = Returned false ∨
  (ipcWriteStep p m pc ≠ [] ∧
   (icDone p = true → pc = AtDone → ipcWriteStep p m pc = [(Returned true, p)]) ∧
   (writeDone p = true → pc = AtWriteDone → ipcWriteStep p m pc = [(Returned true, p)])).
Proof.
  intros H. destruct pc as [| | | |[]]; [right; right..|by left|by right; left]; split_and!; try done;
    cbn [ipcWriteStep]; cbv zeta.
  - by intros -> _.
  - by intros -> _.
  - by destruct (hasRoom p), (icDone p).
  - assert (icDone p || writeDone p = true) as -> by (destruct H as [->| ->]; by rewrite ?orb_true_r).
    by destruct (hasRoom p).
Qed.
