(* ===== verification/Ipc.v ===== *)
(** * The IPC server (pkg/daemon/ipc.go)

    Local programs control the daemon over a Unix socket: a message is a command
    byte and a payload.  A handler takes the daemon's state [Desk] and the client and
    says what it answers: [Replied], [Silent] (nothing is written) or [Panicked]
    (the panic boundary of the dispatch goroutine ends it without an answer).  Every
    branch of the handlers returns right after the answer it writes, so one call has
    one outcome.

    The registry client, the handshake plugin, the policy plugin and the request
    signatures are separate modules.  Calls to them are answered as in [Managed];
    requests that are JSON come decoded, and the JSON text of a reply is represented
    by its value where its length does not matter.  The wire form of addresses is the
    interface [AddrCodec].  [Desk] collects what goes out: streams written to, packets
    of closes, messages the handlers signed.  The reports of info and health are inputs. *)
From stdpp Require Import strings.
From S2P Require Import Prelude GoText NetIP Crypto KeyStore Protocol Envelope KeyExchange Routing Tunnel.
From S2P Require Import Admission Conn PortManager Sender Stream Registry RxWatchdog HandshakePoll Resolve PathWatch.
From S2P Require Import Json Managed Networks IpcConn.
Open Scope Z_scope.

(** ** Commands *)

Definition CmdBind : Z := 1.
Definition CmdBindOK : Z := 2.
Definition CmdDial : Z := 3.
Definition CmdDialOK : Z := 4.
Definition CmdAccept : Z := 5.
Definition CmdSend : Z := 6.
Definition CmdRecv : Z := 7.
Definition CmdClose : Z := 8.
Definition CmdCloseOK : Z := 9.
Definition CmdError : Z := 10.
Definition CmdSendTo : Z := 11.
Definition CmdRecvFrom : Z := 12.
Definition CmdInfo : Z := 13.
Definition CmdInfoOK : Z := 14.
Definition CmdHandshake : Z := 15.
Definition CmdHandshakeOK : Z := 16.
Definition CmdResolveHostname : Z := 17.
Definition CmdResolveHostnameOK : Z := 18.
Definition CmdSetHostname : Z := 19.
Definition CmdSetHostnameOK : Z := 20.
Definition CmdSetVisibility : Z := 21.
Definition CmdSetVisibilityOK : Z := 22.
Definition CmdDeregister : Z := 23.
Definition CmdDeregisterOK : Z := 24.
Definition CmdSetTags : Z := 25.
Definition CmdSetTagsOK : Z := 26.
Definition CmdSetWebhook : Z := 27.
Definition CmdSetWebhookOK : Z := 28.
Definition CmdNetwork : Z := 31.
Definition CmdNetworkOK : Z := 32.
Definition CmdHealth : Z := 33.
Definition CmdHealthOK : Z := 34.
Definition CmdManaged : Z := 35.
Definition CmdManagedOK : Z := 36.
Definition CmdRotateKey : Z := 37.
Definition CmdRotateKeyOK : Z := 38.
Definition CmdBroadcast : Z := 41.
Definition CmdBroadcastOK : Z := 42.
Definition CmdCancel : Z := 43.
Definition CmdPreferDirect : Z := 45.
Definition CmdPreferDirectOK : Z := 46.
Definition CmdSubmitBadge : Z := 47.
Definition CmdSubmitBadgeOK : Z := 48.
Definition CmdEnrollRecovery : Z := 49.
Definition CmdEnrollRecoveryOK : Z := 50.
Definition CmdSignEnvelope : Z := 51.
Definition CmdSignEnvelopeOK : Z := 52.
Definition CmdVerifyEnvelope : Z := 53.
Definition CmdVerifyEnvelopeOK : Z := 54.
Definition CmdUnbind : Z := 55.
Definition CmdUnbindOK : Z := 56.
Definition CmdSendToConfirm : Z := 57.
Definition CmdSendToOK : Z := 58.

Definition SubNetworkList : Z := 1.
Definition SubNetworkJoin : Z := 2.
Definition SubNetworkLeave : Z := 3.
Definition SubNetworkMembers : Z := 4.
Definition SubNetworkInvite : Z := 5.
Definition SubNetworkPollInvites : Z := 6.
Definition SubNetworkRespondInvite : Z := 7.
Definition SubManagedStatus : Z := 2.
Definition SubManagedCycle : Z := 4.
Definition SubManagedPolicy : Z := 5.
Definition SubManagedMemberTags : Z := 6.
Definition SubManagedReconcile : Z := 7.
Definition SubHandshakeSend : Z := 1.
Definition SubHandshakeApprove : Z := 2.
Definition SubHandshakeReject : Z := 3.
Definition SubHandshakePending : Z := 4.
Definition SubHandshakeTrusted : Z := 5.
Definition SubHandshakeRevoke : Z := 6.
Definition SubHandshakeWait : Z := 7.

Definition infoReplyTTL : duration := 200 * Millisecond.

(** ** Values *)

Inductive Body := BBytes (b : bytes) | BJson (j : jval).
Inductive Outcome := Replied (cmd : Z) (b : Body) | Silent | Panicked.

(** The request bodies that are JSON, as decoded by json.Unmarshal. *)
Record SignRequest := mkSignRequest { rqAudience : bytes; rqBodyHash : bytes; rqBodyB64 : bytes; rqNonce : bytes }.
Record SigEnvelope := mkSigEnvelope {
  evNetwork : Z; evNode : Z; evTimestamp : Z; evNonce : bytes; evBodyHash : bytes; evAudience : bytes;
}.

Record VerifyRequest := mkVerifyRequest { vqEnvelope : bytes; vqSignature : bytes; vqMaxSkew : duration; vqStanding : bool }.

(** What the handshake service lists. *)
Record PendingRequest := mkPendingRequest { prNode : Z; prKey : bytes; prWhy : bytes; prAt : gotime }.
Record TrustRecord := mkTrustRecord { trNode : Z; trKey : bytes; trAt : gotime; trMutual : bool; trNetwork : Z }.

(** What the handlers use of the modules common/crypto, common/ipcutil,
    common/reqsig, common/badgeverify and common/urlvalidate, and the inputs that
    other goroutines decide. *)
Record IpcEnv := mkIpcEnv {
  ext : Ask;
  MaxMessageSize : Z;                          (* of ipcutil *)
  decodeTags : bytes → bytes + list bytes;
  decodePair : bytes → bytes + bytes * bytes;
  decodeSign : bytes → bytes + SignRequest;
  decodeVerify : bytes → bytes + VerifyRequest;
  b64encode : bytes → bytes;
  b64decode : bytes → bytes + bytes;
  EncodePublicKey : bytes → bytes;
  HashBody : bytes → bytes;
  NewNonce : nat → bytes + bytes;
  Canonical : SigEnvelope → bytes + bytes;
  ParseEnvelope : bytes → bytes + SigEnvelope;
  CheckFresh : SigEnvelope → gotime → duration → option bytes;
  VerifySig : pubkey → bytes → bytes → option bytes; (* key, envelope, signature; the refusal *)
  ParseEnrollment : bytes → bytes + bytes;    (* the commitment *)
  ValidateWebhookURL : bytes → option bytes;
  datagramErr : DatagramErr → bytes;
  kxErr : KxError → bytes;
  addrText : Z → Z → bytes;
  listNodes : Z → NodeList;
  broadcastConsent : bool;
  stoppedHs : bool;                            (* stopCh is closed *)
  hsOrder : list Z;                            (* how Go ranges over the waiting peers *)
  hsPending : nat → list PendingRequest;
  hsTrusted : nat → list TrustRecord;
  closeArgs : Z → bool * bool * list bool;     (* the verdicts [CloseConnection] meets, by id *)
  infoReport : nat → bytes + jval;
  healthReport : nat → bytes + jval;
  cycleRun : nat → CycleRun;
  cycleTimedOut : nat → bool;
  rangeFirst : nat;                            (* which engine a range over them meets first *)
}.

Class AddrCodec := {
  AddrSize : nat;
  UnmarshalAddr : bytes → Addr;
  MarshalAddr : Addr → bytes;
  length_MarshalAddr : ∀ a, length (MarshalAddr a) = AddrSize;
}.

(** ** Replies that must fit one message

    [frame pre post rows] is the JSON text with the encoded rows under its list. *)
Definition frame (pre post : bytes) (rows : list bytes) : bytes := pre ++ [91] ++ commaJoin rows ++ [93] ++ post.

(** The loop: how many leading rows fit. *)
Fixpoint rowsThatFit (rows : list bytes) (keep : nat) (size budget : Z) : nat :=
  match rows with
  | [] => keep
  | r :: rows =>
      let add := blen r + (if Nat.eqb keep 0 then 0 else 1) in
      if budget <? size + add then keep else rowsThatFit rows (S keep) (size + add) budget
  end.
Definition marshalRowsWithinBudget (pre post : bytes) (rows : list bytes) (budget : Z) : bytes :=
  let base := frame pre post [] in
  frame pre post (take (rowsThatFit rows 0 (blen base) budget) rows).

(** %02X *)
Definition hexUpper (n : Z) : Z := if n <? 10 then 48 + n else 55 + n.
Definition hexByte (b : Z) : bytes := [hexUpper (b / 16); hexUpper (b mod 16)].
(** [Time.Unix] *)
Definition Unix (t : gotime) : Z := (t - unixEpoch) / Second.

Section Ipc.
Context {P : Protocol} {W : PacketCodec} {K : Type} {C : Cipher K} {X : Primitives K} {A : AddrCodec}.
Context (env : RegEnv) (renv : ResolveEnv) (ie : IpcEnv).
Context (ProtoDatagram : Z) (IsBroadcast : Addr → bool) (genIdentity : nat → bytes + Identity (Primitives := X)).

(** The daemon as the handlers use it.  [dcfg] is the configuration, which some of
    them change; [handshakes] tells whether the handshake service is registered. *)
Record Desk := mkDesk {
  peerings : Peering (K := K) (X := X);
  dcfg : RegConfig;
  adminToken : bytes;
  dident : option (Identity (Primitives := X));
  nets : Nets;
  handshakes : bool;
  hsPoll : handshakePollSched;
  handshakeInFlight : gset Z;
  outbound : gmap Z gotime;
  infoData : option (gotime * jval);
  signed : list bytes;
  streamWrites : list (Z * bytes);
  outs : list Output;
  dnow : gotime;
}.
Implicit Types d : Desk.
Implicit Types c : Client.

Definition set_peerings d p : Desk :=
  mkDesk p (dcfg d) (adminToken d) (dident d) (nets d) (handshakes d) (hsPoll d) (handshakeInFlight d) (outbound d)
    (infoData d) (signed d) (streamWrites d) (outs d) (dnow d).
Definition set_dcfg d x : Desk :=
  mkDesk (peerings d) x (adminToken d) (dident d) (nets d) (handshakes d) (hsPoll d) (handshakeInFlight d) (outbound d)
    (infoData d) (signed d) (streamWrites d) (outs d) (dnow d).
Definition set_dident d x : Desk :=
  mkDesk (peerings d) (dcfg d) (adminToken d) x (nets d) (handshakes d) (hsPoll d) (handshakeInFlight d) (outbound d)
    (infoData d) (signed d) (streamWrites d) (outs d) (dnow d).
Definition set_nets d x : Desk :=
  mkDesk (peerings d) (dcfg d) (adminToken d) (dident d) x (handshakes d) (hsPoll d) (handshakeInFlight d) (outbound d)
    (infoData d) (signed d) (streamWrites d) (outs d) (dnow d).
Definition set_hs d s f o : Desk :=
  mkDesk (peerings d) (dcfg d) (adminToken d) (dident d) (nets d) (handshakes d) s f o
    (infoData d) (signed d) (streamWrites d) (outs d) (dnow d).
Definition set_info d i : Desk :=
  mkDesk (peerings d) (dcfg d) (adminToken d) (dident d) (nets d) (handshakes d) (hsPoll d) (handshakeInFlight d) (outbound d)
    i (signed d) (streamWrites d) (outs d) (dnow d).
Definition set_logs d s w o : Desk :=
  mkDesk (peerings d) (dcfg d) (adminToken d) (dident d) (nets d) (handshakes d) (hsPoll d) (handshakeInFlight d) (outbound d)
    (infoData d) s w o (dnow d).

Definition dports d : PortManager := pports (peerings d).
Definition set_dports d pm : Desk := set_peerings d (set_ports (peerings d) pm).
Definition dnode d : Z := nodeID (ident (phost (peerings d))).

Definition query d (q : ExtCall) : (bytes + jval) * Desk :=
  let '(a, n) := ask (ext ie) (nets d) q in (a, set_nets d n).
(** A call whose answer is not used. *)
Definition notify d (q : ExtCall) : Desk := snd (query d q).
Definition dcalls d : nat := length (asked (nets d)).

Definition errorReply (msg : bytes) : Outcome := Replied CmdError (BBytes (PutUint16 1 ++ msg)).

(** Forward to the registry (or a plugin) and reply with what it says. *)
Definition forward d (okCmd : Z) (what : bytes) (q : ExtCall) (andThen : Desk → jval → Desk) : Desk * Outcome :=
  let '(a, d) := query d q in
  match a with
  | inl e => (d, errorReply (what ++ str ": " ++ e))
  | inr r => (andThen d r, Replied okCmd (BJson r))
  end.
Definition keep d (_ : jval) : Desk := d.

(** ** Ports *)

Definition handleBind d c (payload : bytes) : Desk * Client * Outcome :=
  if Nat.ltb (length payload) 2 then (d, c, errorReply (str "bind: missing port"))
  else
    let port := Uint16 payload in
    let '(ln, pm) := Bind (dports d) port in
    match ln with
    | None => (d, c, errorReply (str "port " ++ FormatInt port ++ str " already bound"))
    | Some _ => (set_dports d pm, trackPort c port, Replied CmdBindOK (BBytes (PutUint16 port)))
    end.

(** One connection off the accept queue of a port the client bound. *)
Definition acceptPush c (port : Z) (conn : Connection) : Client * Body :=
  (trackConn c (ID conn),
   BBytes (PutUint16 port ++ PutUint32 (ID conn) ++ MarshalAddr (RemoteAddr conn) ++ PutUint16 (RemotePort conn))).

Definition handleUnbind d c (payload : bytes) : Desk * Client * Outcome :=
  if negb (Nat.eqb (length payload) 2) then (d, c, errorReply (str "unbind: port is required"))
  else
    let port := Uint16 payload in
    let '(mine, c) := removePort c port in
    if negb mine then (d, c, errorReply (str "unbind: port is not owned by this client"))
    else (set_dports d (Unbind (dports d) port), c, Replied CmdUnbindOK (BBytes (PutUint16 port))).

(** ** Connections *)

(** [CloseConnection] on the connection with this id, if there is one. *)
Definition closeID d (id : Z) : Desk :=
  match GetConnection (dports d) id with
  | None => d
  | Some conn =>
      let '(stopping, locked, oks) := closeArgs ie id in
      let '(conn, out) := CloseConnection conn (dnow d) stopping locked oks in
      let d := set_dports d (with_conns (dports d) (<[id := conn]> (connections (dports d)))) in
      set_logs d (signed d) (streamWrites d) (outs d ++ out)
  end.

Definition dialQuota c : bool := negb (whitelisted c) && Nat.leb MaxConnsPerIPCClient (connCount c).

(** Up to the dial itself: the error, or where it goes and its cancel id. *)
Definition beginDial c (payload : bytes) : (Outcome + Addr * Z * Z) * Client :=
  if Nat.ltb (length payload) (AddrSize + 2) then (inl (errorReply (str "dial: missing address/port")), c)
  else if dialQuota c then (inl (errorReply (str "dial: per-client connection quota (4096) reached")), c)
  else
    let '(id, c) := addDialCancel c in
    (inr (UnmarshalAddr (take AddrSize payload), Uint16 (drop AddrSize payload), id), c).

(** The dial returned [res]: a connection or an error text.  [late]: it was cancelled
    after the reply was written. *)
Definition finishDial d c (cancelID : Z) (res : bytes + Z) (late : bool) : Desk * Client * Outcome :=
  let gone := bool_decide (cancelID ∈ cancelled c) in
  let '(d, c, o) :=
    match res with
    | inl e => (d, c, errorReply e)
    | inr id =>
        if gone then (closeID d id, c, Silent)
        else
          let c := trackConn c id in
          if clClosed c then (closeID d id, removeConn c id, Silent)
          else if late then (closeID d id, removeConn c id, Replied CmdDialOK (BBytes (PutUint32 id)))
          else (d, c, Replied CmdDialOK (BBytes (PutUint32 id)))
    end in
  (d, removeDialCancel c cancelID, o).

Definition handleSend d (payload : bytes) : Desk * Outcome :=
  if Nat.ltb (length payload) 4 then (d, Silent)
  else
    let id := Uint32 payload in
    match GetConnection (dports d) id with
    | None => (d, Silent)
    | Some _ => (set_logs d (signed d) (streamWrites d ++ [(id, drop 4 payload)]) (outs d), Silent)
    end.

Definition handleClose d c (payload : bytes) : Desk * Client * Outcome :=
  if Nat.ltb (length payload) 4 then (d, c, errorReply (str "close: missing conn_id"))
  else
    let id := Uint32 payload in
    (closeID d id, removeConn c id, Replied CmdCloseOK (BBytes (PutUint32 id))).

(** One turn of the receive pusher of connection [id]: data, or its end. *)
Definition recvPush c (id : Z) (data : option bytes) : Client * (Z * Body) :=
  match data with
  | Some b =>
      if clClosed c then (removeConn c id, (CmdRecv, BBytes (PutUint32 id ++ b)))
      else (c, (CmdRecv, BBytes (PutUint32 id ++ b)))
  | None => (removeConn c id, (CmdCloseOK, BBytes (PutUint32 id)))
  end.

(** ** Datagrams *)

Definition sendTo d (payload : bytes) : option DatagramErr * Desk :=
  let dst := UnmarshalAddr (take AddrSize payload) in
  let port := Uint16 (drop AddrSize payload) in
  let '(e, p) := SendDatagram env (dcfg d) renv ProtoDatagram IsBroadcast (peerings d) (dnow d) (npol (nets d))
                   dst port (drop (AddrSize + 2) payload) in
  (e, set_peerings d p).

Definition handleSendTo d (payload : bytes) : Desk * Outcome :=
  if Nat.ltb (length payload) (AddrSize + 2) then (d, Silent)
  else let '(_, d) := sendTo d payload in (d, Silent).

Definition handleSendToConfirm d (payload : bytes) : Desk * Outcome :=
  if Nat.ltb (length payload) (AddrSize + 2) then (d, errorReply (str "sendto: missing header"))
  else
    let '(e, d) := sendTo d payload in
    match e with
    | Some e => (d, errorReply (str "sendto: " ++ datagramErr ie e))
    | None => (d, Replied CmdSendToOK (BBytes []))
    end.

(** [b[lo:hi]] with the bounds checked; [None]: the panic. *)
Definition sliceChecked (b : bytes) (lo hi : Z) : option bytes :=
  if (0 <=? lo) && (lo <=? hi) && (hi <=? blen b) then Some (slice (Z.to_nat lo) (Z.to_nat hi) b) else None.

(** A token of [tokenLen] bytes at [off], and what follows it.  The guard in front
    computes in int, the slice bound [off+tokenLen] in uint16. *)
Definition splitToken (payload : bytes) (off tokenLen : Z) : option (bytes * bytes) :=
  match sliceChecked payload off (u16 (off + tokenLen)) with
  | Some token =>
      match sliceChecked payload (u16 (off + tokenLen)) (blen payload) with
      | Some data => Some (token, data)
      | None => None
      end
  | None => None
  end.

Definition handleBroadcast d (payload : bytes) : Desk * Outcome :=
  if Nat.ltb (length payload) 6 then (d, errorReply (str "broadcast: missing header"))
  else
    let netID := Uint16 payload in
    let dstPort := Uint16 (drop 2 payload) in
    let tokenLen := Uint16 (drop 4 payload) in
    if blen payload <? 6 + tokenLen then (d, errorReply (str "broadcast: truncated token"))
    else
      match splitToken payload 6 tokenLen with
      | None => (d, Panicked)
      | Some (token, data) =>
          let '(e, p) := BroadcastDatagram env (dcfg d) renv ProtoDatagram (peerings d) (dnow d) (npol (nets d))
                           (listNodes ie netID) (broadcastConsent ie) (adminToken d) token netID dstPort data in
          let d := set_peerings d p in
          match e with
          | Some e => (d, errorReply (str "broadcast: " ++ datagramErr ie e))
          | None => (d, Replied CmdBroadcastOK (BBytes []))
          end
      end.

(** The message a client gets for a datagram addressed to this node. *)
Definition recvFromBody (src : Addr) (srcPort dstPort : Z) (data : bytes) : Body :=
  BBytes (MarshalAddr src ++ PutUint16 srcPort ++ PutUint16 dstPort ++ data).
Definition DeliverDatagram (clients : gmap nat Client) (src : Addr) (srcPort dstPort : Z) (data : bytes)
  : gmap nat (Z * Body) :=
  (λ _, (CmdRecvFrom, recvFromBody src srcPort dstPort data)) <$> clients.

(** ** Paths, names, registration *)

Definition handlePreferDirect d (payload : bytes) : Desk * Outcome :=
  if negb (Nat.eqb (length payload) 4) then (d, errorReply (str "prefer_direct: payload must be 4 bytes (node_id)"))
  else
    let id := Uint32 payload in
    let '(res, p) := resetPeerPath env (dcfg d) renv (peerings d) (dnow d) id in
    (set_peerings d p,
     Replied CmdPreferDirectOK (BJson (JObj [
       (str "node_id", JNum id); (str "had_tunnel", JBool (HadTunnel res));
       (str "was_relay_active", JBool (WasRelayActive res)); (str "was_relay_pinned", JBool (WasRelayPinned res));
       (str "pila_pushed", JBool (PilaPushed res));
       (str "resolve_error", JStr (match ResolveErr res with
                                   | None => []
                                   | Some None => str "no registry connection"
                                   | Some (Some e) => datagramErr ie (ErrEnsure e)
                                   end))]))).

(** The prewarm of the resolve cache, a goroutine: one registry resolve. *)
Definition prewarm d (id : Z) : Desk :=
  let '(ans, p) := askRegistry renv (peerings d) id in
  set_peerings d (match ans with Some r => cacheResolve p (dnow d) id r | None => p end).

Definition cacheHostname d (h : bytes) (r : jval) : Desk :=
  let p := peerings d in
  set_peerings d (set_caches p (epCache p) (resolveCache p) (<[h := mkHostnameEntry r (dnow d)]> (hostnameCache p))).

Definition handleResolveHostname d (payload : bytes) : Desk * Outcome :=
  let h := payload in
  if bool_decide (h = []) then (d, errorReply (str "resolve_hostname: missing hostname"))
  else
    match (match hostnameCache (peerings d) !! h with
           | Some e => if time_sub (dnow d) (hnCachedAt e) <? hostnameCacheTTL then Some (hnResp e) else None
           | None => None
           end) with
    | Some r => (d, Replied CmdResolveHostnameOK (BJson r))
    | None =>
        forward d CmdResolveHostnameOK (str "resolve_hostname") (XResolveHostname h) (λ d r,
          let d := if bool_decide (jnode r = Some (dnode d)) then d else cacheHostname d h r in
          match jnode r with Some id => prewarm d id | None => d end)
    end.

Definition forgetHostname (m : gmap bytes hostnameCacheEntry) (h : bytes) : gmap bytes hostnameCacheEntry :=
  if bool_decide (h = []) then m else delete h m.

Definition with_hostname (x : RegConfig) (h : bytes) : RegConfig :=
  mkRegConfig (ListenAddr x) (Endpoint x) (AdvertiseEndpoint x) (Owner x) (rcVersion x) (rcPublic x) h (rcRelayOnly x)
    (BeaconAddr x) (RegistryTLS x) (RegistryTrust x) (RegistryFingerprint x).
Definition with_public (x : RegConfig) (b : bool) : RegConfig :=
  mkRegConfig (ListenAddr x) (Endpoint x) (AdvertiseEndpoint x) (Owner x) (rcVersion x) b (rcHostname x) (rcRelayOnly x)
    (BeaconAddr x) (RegistryTLS x) (RegistryTrust x) (RegistryFingerprint x).

Definition handleSetHostname d (payload : bytes) : Desk * Outcome :=
  let h := payload in
  let prev := rcHostname (dcfg d) in
  forward d CmdSetHostnameOK (str "set_hostname") (XSetHostname (dnode d) h) (λ d _,
    let d := set_dcfg d (with_hostname (dcfg d) h) in
    let p := peerings d in
    set_peerings d (set_caches p (epCache p) (resolveCache p)
      (forgetHostname (forgetHostname (hostnameCache p) prev) h))).

Definition handleSetVisibility d (payload : bytes) : Desk * Outcome :=
  match payload with
  | [] => (d, errorReply (str "set_visibility: missing value"))
  | b :: _ =>
      let public := b =? 1 in
      forward d CmdSetVisibilityOK (str "set_visibility") (XSetVisibility (dnode d) public) (λ d _,
        set_dcfg d (with_public (dcfg d) public))
  end.

Definition handleDeregister d : Desk * Outcome :=
  forward d CmdDeregisterOK (str "deregister") (XDeregister (dnode d)) keep.

Definition handleSetTags d (payload : bytes) : Desk * Outcome :=
  match decodeTags ie payload with
  | inl e => (d, errorReply (str "set_tags: invalid JSON: " ++ e))
  | inr tags =>
      if Nat.ltb 3 (length tags) then (d, errorReply (str "set_tags: maximum 3 tags allowed"))
      else forward d CmdSetTagsOK (str "set_tags") (XSetTags (dnode d) tags) keep
  end.

Definition handleSetWebhook d (payload : bytes) : Desk * Outcome :=
  let url := payload in
  match (if bool_decide (url = []) then None else ValidateWebhookURL ie url) with
  | Some e => (d, errorReply e)
  | None => (notify d (XSetWebhook url), Replied CmdSetWebhookOK (BJson (JObj [(str "webhook", JStr url)])))
  end.

(** Info replies are shared for [infoReplyTTL]. *)
Definition handleInfo d : Desk * Outcome :=
  match (match infoData d with
         | Some (at_, r) => if time_sub (dnow d) at_ <? infoReplyTTL then Some r else None
         | None => None
         end) with
  | Some r => (d, Replied CmdInfoOK (BJson r))
  | None =>
      match infoReport ie (dcalls d) with
      | inl e => (d, errorReply (str "info marshal: " ++ e))
      | inr r => (set_info d (Some (dnow d, r)), Replied CmdInfoOK (BJson r))
      end
  end.

Definition handleHealth d : Desk * Outcome :=
  match healthReport ie (dcalls d) with
  | inl e => (d, errorReply (str "health marshal: " ++ e))
  | inr r => (d, Replied CmdHealthOK (BJson r))
  end.

(** ** Signatures *)

(** [Daemon.Sign]: nothing without an identity.  The log [signed] has what the handlers
    sign; key-exchange frames (KeyExchange), the registry client's requests and the
    plugins are signed elsewhere and are not in it. *)
Definition dSign d (msg : bytes) : option bytes * Desk :=
  match dident d with
  | None => (None, d)
  | Some id => (Some (Sign id msg), set_logs d (signed d ++ [msg]) (streamWrites d) (outs d))
  end.

Definition badgeMessage (id : Z) (badge : bytes) : bytes := str "submit_badge:" ++ FormatInt id ++ [58] ++ badge.
Definition enrollMessage (id : Z) (commitment : bytes) : bytes :=
  str "enroll_recovery:" ++ FormatInt id ++ [58] ++ commitment.

Definition handleSubmitBadge d (payload : bytes) : Desk * Outcome :=
  match decodePair ie payload with
  | inl e => (d, errorReply (str "submit_badge: bad payload: " ++ e))
  | inr (badge, badgeSig) =>
      if bool_decide (badge = []) || bool_decide (badgeSig = []) then
        (d, errorReply (str "submit_badge: badge and badge_sig required"))
      else match regConn (conns (phost (peerings d))) with
      | None => (d, errorReply (str "submit_badge: registry connection unavailable"))
      | Some _ =>
          let '(sig, d) := dSign d (badgeMessage (dnode d) badge) in
          match sig with
          | None => (d, errorReply (str "submit_badge: daemon has no identity"))
          | Some sig =>
              forward d CmdSubmitBadgeOK (str "submit_badge") (XSubmitBadge (dnode d) badge badgeSig (b64encode ie sig)) keep
          end
      end
  end.

Definition handleEnrollRecovery d (payload : bytes) : Desk * Outcome :=
  match decodePair ie payload with
  | inl e => (d, errorReply (str "enroll_recovery: bad payload: " ++ e))
  | inr (enr, enrSig) =>
      if bool_decide (enr = []) || bool_decide (enrSig = []) then
        (d, errorReply (str "enroll_recovery: enrollment and enrollment_sig required"))
      else match ParseEnrollment ie enr with
      | inl e => (d, errorReply (str "enroll_recovery: bad enrollment: " ++ e))
      | inr commitment =>
          match regConn (conns (phost (peerings d))) with
          | None => (d, errorReply (str "enroll_recovery: registry connection unavailable"))
          | Some _ =>
              let '(sig, d) := dSign d (enrollMessage (dnode d) commitment) in
              match sig with
              | None => (d, errorReply (str "enroll_recovery: daemon has no identity"))
              | Some sig =>
                  forward d CmdEnrollRecoveryOK (str "enroll_recovery")
                    (XEnrollRecovery (dnode d) enr enrSig (b64encode ie sig)) keep
              end
          end
      end
  end.

(** The hash of the body to sign, or the refusal. *)
Definition signBodyHash (r : SignRequest) : bytes + bytes :=
  if bool_decide (rqBodyB64 r = []) then
    if bool_decide (rqBodyHash r = []) then inl (str "sign_envelope: body_hash or body_b64 required")
    else inr (rqBodyHash r)
  else if negb (bool_decide (rqBodyHash r = [])) then
    inl (str "sign_envelope: body_hash and body_b64 are mutually exclusive")
  else match b64decode ie (rqBodyB64 r) with
       | inl e => inl (str "sign_envelope: body_b64 not base64: " ++ e)
       | inr body =>
           let h := HashBody ie body in
           if bool_decide (h = []) then inl (str "sign_envelope: body_hash or body_b64 required") else inr h
       end.
Definition signNonce d (r : SignRequest) : bytes + bytes :=
  if bool_decide (rqNonce r = []) then
    match NewNonce ie (length (signed d)) with inl e => inl (str "sign_envelope: " ++ e) | inr n => inr n end
  else inr (rqNonce r).
(** The daemon's own address, the node number filled in if it is missing. *)
Definition ownAddr d : Addr :=
  let a := nodeAddr (ident (phost (peerings d))) in
  if Node a =? 0 then mkAddr (Network a) (dnode d) else a.
Definition ownEnvelope d (r : SignRequest) (hash nonce : bytes) : SigEnvelope :=
  mkSigEnvelope (Network (ownAddr d)) (Node (ownAddr d)) (Unix (dnow d)) nonce hash (rqAudience r).

Definition handleSignEnvelope d (payload : bytes) : Desk * Outcome :=
  match decodeSign ie payload with
  | inl e => (d, errorReply (str "sign_envelope: bad payload: " ++ e))
  | inr r =>
      if bool_decide (rqAudience r = []) then (d, errorReply (str "sign_envelope: audience required"))
      else match signBodyHash r with
      | inl e => (d, errorReply e)
      | inr hash =>
          match signNonce d r with
          | inl e => (d, errorReply e)
          | inr nonce =>
              if Node (ownAddr d) =? 0 then
                (d, errorReply (str "sign_envelope: daemon not registered (no address)"))
              else match Canonical ie (ownEnvelope d r hash nonce) with
              | inl e => (d, errorReply (str "sign_envelope: " ++ e))
              | inr canonical =>
                  let '(sig, d) := dSign d canonical in
                  match sig with
                  | None => (d, errorReply (str "sign_envelope: daemon has no identity"))
                  | Some sig =>
                      (d, Replied CmdSignEnvelopeOK (BJson (JObj [
                        (str "type", JStr (str "sign_envelope_ok")); (str "envelope", JStr canonical);
                        (str "signature", JStr (b64encode ie sig));
                        (str "address", JStr (addrText ie (Network (ownAddr d)) (Node (ownAddr d))))])))
                  end
              end
          end
      end
  end.

(** The signer's standing at the registry, the fields it gave. *)
Definition standing d (e : SigEnvelope) : list (bytes * jval) * Desk :=
  match regConn (conns (phost (peerings d))) with
  | None => ([], d)
  | Some _ =>
      let '(a, d) := query d (XLookup (evNode e)) in
      match a with
      | inl _ => ([], d)
      | inr lk =>
          let seen := match jfield lk (str "last_seen_unix") with
                      | Some (JNum v) => [(str "last_seen_unix", JNum v);
                                          (str "online", JBool (Z.abs (Unix (dnow d) - v) <=? 180))]
                      | _ => []
                      end in
          let gen := match jfield lk (str "key_generation") with
                     | Some (JNum v) => [(str "key_generation", JNum (u32 v))]
                     | _ => []
                     end in
          let mem := match jfield lk (str "networks") with
                     | Some (JList l) =>
                         [(str "network_member",
                           JBool (existsb (λ v, match v with JNum f => u16 f =? evNetwork e | _ => false end) l))]
                     | _ => []
                     end in
          (seen ++ gen ++ mem, d)
      end
  end.

Definition dtrusts d (node : Z) : bool * Desk :=
  if handshakes d then
    let '(a, d) := query d (XHsIsTrusted node) in
    (match a with inr (JBool b) => b | _ => false end, d)
  else (false, d).

Definition rejectEnvelope d (reason : bytes) : Desk * Outcome :=
  (d, Replied CmdVerifyEnvelopeOK (BJson (JObj [
        (str "type", JStr (str "verify_envelope_ok")); (str "valid", JBool false); (str "reason", JStr reason)]))).

Definition handleVerifyEnvelope d (payload : bytes) : Desk * Outcome :=
  match decodeVerify ie payload with
  | inl e => (d, errorReply (str "verify_envelope: bad payload: " ++ e))
  | inr r =>
      if bool_decide (vqEnvelope r = []) || bool_decide (vqSignature r = []) then
        (d, errorReply (str "verify_envelope: envelope and signature required"))
      else match ParseEnvelope ie (vqEnvelope r) with
      | inl e => rejectEnvelope d e
      | inr e =>
          match CheckFresh ie e (dnow d) (vqMaxSkew r) with
          | Some why => rejectEnvelope d why
          | None =>
              let t := tun (phost (peerings d)) in
              let via := if HasPeerPubKey (kx t) (evNode e) then str "cache" else str "registry" in
              let '(pk, m) := GetPeerPubKey (kx t) (dnow d) (evNode e) in
              let d := set_peerings d (set_ptun (peerings d) (set_kx t m)) in
              match pk with
              | inr err => rejectEnvelope d (str "public key for node " ++ FormatInt (evNode e) ++ str " unavailable: " ++ kxErr ie err)
              | inl pub =>
                  match VerifySig ie pub (vqEnvelope r) (vqSignature r) with
                  | Some why => rejectEnvelope d why
                  | None =>
                      let '(tr, d) := dtrusts d (evNode e) in
                      let '(more, d) := if vqStanding r then standing d e else ([], d) in
                      (d, Replied CmdVerifyEnvelopeOK (BJson (JObj ([
                            (str "type", JStr (str "verify_envelope_ok")); (str "valid", JBool true);
                            (str "node_id", JNum (evNode e)); (str "address", JStr (addrText ie (evNetwork e) (evNode e)));
                            (str "verified_via", JStr via); (str "trusted", JBool tr)] ++ more))))
                  end
              end
          end
      end
  end.

(** ** Key rotation *)

Definition rotateMessage (id : Z) (pub : bytes) : bytes := str "rotate:" ++ FormatInt id ++ [58] ++ pub.

Definition SetIdentity (m : Manager (K := K) (X := X)) (id : Identity (Primitives := X)) : Manager :=
  let c := cfg m in
  mkManager (KeyExchange.env m)
    (KeyExchange.mkConfig (Some id) (privKey c) (pubKey c) (localNodeIDFn c) (hasVerify c) (KeyExchange.registry c) (hasSender c) (sendOK c)
       (noncePrefixes c) (trustFn c) (hasPostInstall c) (hasPreRetx c) (hasOnGaveUp c))
    (keys m) (rk m) (keyRequestsSent m) (replyWhitelist m) (replyWhitelistAll m) (trace m) (lookups m) (sends m) (draws m).

(** The new key is signed with the old one; both the daemon and the key exchange use
    it once the registry has accepted it.  Writing it to disk is not represented. *)
Definition RotateKey d : (bytes + jval) * Desk :=
  match dident d with
  | None => (inl (str "rotate_key: daemon has no identity"), d)
  | Some current =>
      match regConn (conns (phost (peerings d))) with
      | None => (inl (str "rotate_key: registry connection unavailable"), d)
      | Some _ =>
          match genIdentity (dcalls d) with
          | inl e => (inl (str "rotate_key: generate keypair: " ++ e), d)
          | inr newID =>
              let pub := EncodePublicKey ie (IdPublicKey newID) in
              let challenge := rotateMessage (dnode d) pub in
              let d := set_logs d (signed d ++ [challenge]) (streamWrites d) (outs d) in
              let '(a, d) := query d (XRotateKey (dnode d) (b64encode ie (Sign current challenge)) pub) in
              match a with
              | inl e => (inl (str "rotate_key: registry: " ++ e), d)
              | inr resp =>
                  let d := set_dident d (Some newID) in
                  let t := tun (phost (peerings d)) in
                  (inr resp, set_peerings d (set_ptun (peerings d) (set_kx t (SetIdentity (kx t) newID))))
              end
          end
      end
  end.
Definition handleRotateKey d : Desk * Outcome :=
  let '(a, d) := RotateKey d in
  match a with
  | inl e => (d, errorReply e)
  | inr r => (d, Replied CmdRotateKeyOK (BJson r))
  end.

(** ** Handshakes *)

Inductive HsSendErr := HsInFlight | HsFailed (e : bytes).

Definition noteOutboundContact d (node : Z) : Desk :=
  set_hs d (hsPoll d) (handshakeInFlight d) (note (outbound d) node (dnow d)).
Definition HandshakeSendRequest d (node : Z) (reason : bytes) : option HsSendErr * Desk :=
  if negb (handshakes d) then (Some (HsFailed (str "handshake service not registered")), d)
  else
    let d := noteOutboundContact d node in
    if bool_decide (node ∈ handshakeInFlight d) then (Some HsInFlight, d)
    else
      let d := set_hs d (hsPoll d) ({[node]} ∪ handshakeInFlight d) (outbound d) in
      let '(a, d) := query d (XHsSend node reason) in
      let d := set_hs d (hsPoll d) (handshakeInFlight d ∖ {[node]}) (outbound d) in
      (match a with inl e => Some (HsFailed e) | inr _ => None end, d).
Definition handshakeRequestSent d (node : Z) (explicit : bool) : Desk :=
  if negb (handshakes d) then d
  else
    let '(tr, d) := dtrusts d node in
    if tr then d
    else set_hs d (requestSent (hsPoll d) (dnow d) node explicit (hsOrder ie)) (handshakeInFlight d) (outbound d).

Definition regNil d : bool := negb (bool_decide (is_Some (regConn (conns (phost (peerings d)))))).

(** The poll a trigger starts, to its end. *)
Definition runPoll d (started : bool) (s : handshakePollSched) : Desk :=
  if started then
    let '(s, n) := pollRelayedHandshakes (ext ie) s (nets d) (regNil d) (handshakes d) (dnode d) in
    set_hs (set_nets d n) (hs_end s) (handshakeInFlight d) (outbound d)
  else set_hs d s (handshakeInFlight d) (outbound d).
Definition pollOnDemand d : Desk :=
  let '(started, _, s) := pollHandshakesOnDemand (hsPoll d) (dnow d) (stoppedHs ie) (regNil d) in runPoll d started s.
Definition pollForTrustWait d (node : Z) : Desk :=
  let '(tr, d) := dtrusts d node in
  let '(started, _, s) := pollHandshakesForTrustWait (hsPoll d) (dnow d) (stoppedHs ie) (regNil d) tr node in
  runPoll d started s.

Definition hsOK (fields : list (bytes * jval)) : Outcome := Replied CmdHandshakeOK (BJson (JObj fields)).
Definition hsStatus (status : string) (node : Z) : Outcome :=
  hsOK [(str "status", JStr (str status)); (str "node_id", JNum node)].

(** Calls of the service that name a peer: the error, or the status. *)
Definition hsForward d (what status : string) (node : Z) (q : ExtCall) : Desk * Outcome :=
  let '(a, d) := query d q in
  match a with
  | inl e => (d, errorReply (str "handshake " ++ str what ++ str ": " ++ e))
  | inr _ => (d, hsStatus status node)
  end.

Definition pendingRow (p : PendingRequest) : jval :=
  JObj [(str "node_id", JNum (prNode p)); (str "public_key", JStr (prKey p)); (str "justification", JStr (prWhy p));
        (str "received_at", JNum (Unix (prAt p)))].
Definition trustRow (t : TrustRecord) : jval :=
  JObj [(str "node_id", JNum (trNode t)); (str "public_key", JStr (trKey t)); (str "approved_at", JNum (Unix (trAt t)));
        (str "mutual", JBool (trMutual t)); (str "network", JNum (trNetwork t))].

(** sort.SliceStable, newest first. *)
Fixpoint insertNewest (t : TrustRecord) (l : list TrustRecord) : list TrustRecord :=
  match l with
  | [] => [t]
  | u :: l => if Unix (trAt t) <? Unix (trAt u) then u :: insertNewest t l else t :: u :: l
  end.
Definition newestFirst (l : list TrustRecord) : list TrustRecord := fold_right insertNewest [] l.

Definition ipcReplyBudget : Z := MaxMessageSize ie - 64.
Definition trustedPre : bytes := [123] ++ quote (str "trusted") ++ [58].
Definition trustedCut : bytes := [44] ++ quote (str "trusted_truncated") ++ str ":true}".
Definition trustedReply (l : list TrustRecord) : bytes :=
  let data := Marshal (JObj [(str "trusted", JList (trustRow <$> l))]) in
  if ipcReplyBudget <? blen data then
    marshalRowsWithinBudget trustedPre trustedCut (Marshal ∘ trustRow <$> newestFirst l) ipcReplyBudget
  else data.

Definition handleHandshake d (payload : bytes) : Desk * Outcome :=
  match payload with
  | [] => (d, errorReply (str "handshake: missing sub-command"))
  | sub :: rest =>
      if negb (handshakes d) then (d, errorReply (str "handshake: service not registered"))
      else
        let short := Nat.ltb (length rest) 4 in
        let node := Uint32 rest in
        if sub =? SubHandshakeSend then
          if short then (d, errorReply (str "handshake request: missing node_id"))
          else
            let '(e, d) := HandshakeSendRequest d node (drop 4 rest) in
            match e with
            | None => (handshakeRequestSent d node true, hsStatus "sent" node)
            | Some HsInFlight => (handshakeRequestSent d node true, hsStatus "in_flight" node)
            | Some (HsFailed e) => (d, errorReply (str "handshake request: " ++ e))
            end
        else if sub =? SubHandshakeApprove then
          if short then (d, errorReply (str "handshake approve: missing node_id"))
          else hsForward (pollOnDemand d) "approve" "approved" node (XHsApprove node)
        else if sub =? SubHandshakeReject then
          if short then (d, errorReply (str "handshake reject: missing node_id"))
          else hsForward (pollOnDemand d) "reject" "rejected" node (XHsReject node (drop 4 rest))
        else if sub =? SubHandshakePending then
          let d := pollOnDemand d in
          let d' := notify d XHsPending in
          (d', hsOK [(str "pending", JList (pendingRow <$> hsPending ie (dcalls d)))])
        else if sub =? SubHandshakeTrusted then
          let d := pollOnDemand d in
          let d' := notify d XHsTrusted in
          (d', Replied CmdHandshakeOK (BBytes (trustedReply (hsTrusted ie (dcalls d)))))
        else if sub =? SubHandshakeRevoke then
          if short then (d, errorReply (str "handshake revoke: missing node_id"))
          else hsForward d "revoke" "revoked" node (XHsRevoke node)
        else if sub =? SubHandshakeWait then
          if Nat.ltb (length rest) 8 then
            (d, errorReply (str "handshake wait: payload must be [nodeID(4)][timeoutMs(4)]"))
          else
            let timeoutMs := Z.min (Uint32 (drop 4 rest)) 30000 in
            let d := pollForTrustWait d node in
            let '(a, d) := query d (XHsWait node (timeoutMs * Millisecond)) in
            (d, hsOK [(str "node_id", JNum node); (str "trusted", JBool (match a with inr (JBool b) => b | _ => false end))])
        else (d, errorReply (str "handshake: unknown sub-command 0x" ++ hexByte sub))
  end.

(** ** Networks *)

Definition loadPolicies d : Desk := set_nets d (loadNetworkPolicies (ext ie) (nets d) (dnode d) (dnow d)).

Definition afterJoin (net : Z) d (result : jval) : Desk :=
  let d := set_nets d (invalidateNodeNetworksCache (nets d)) in
  let d := loadPolicies d in
  match policyText (jfield result (str "expr_policy")) with
  | Some p => if bool_decide (p = []) then d else set_nets d (snd (StartPolicyRunner (ext ie) (nets d) net p))
  | None => d
  end.
Definition afterLeave (net : Z) d (_ : jval) : Desk :=
  let n := invalidateNodeNetworksCache (nets d) in
  let n := StopPolicyRunner (ext ie) n net in
  let n := StopManagedEngine n net in
  loadPolicies (set_nets d (clearNetworkState n net)).

Definition handleNetwork d (payload : bytes) : Desk * Outcome :=
  match payload with
  | [] => (d, errorReply (str "network: missing sub-command"))
  | sub :: rest =>
      let net := Uint16 rest in
      let short (n : nat) := Nat.ltb (length rest) n in
      if sub =? SubNetworkList then forward d CmdNetworkOK (str "network list") XListNetworks keep
      else if sub =? SubNetworkJoin then
        if short 2%nat then (d, errorReply (str "network join: missing network_id"))
        else forward d CmdNetworkOK (str "network join") (XJoinNetwork (dnode d) net (drop 2 rest) (adminToken d)) (afterJoin net)
      else if sub =? SubNetworkLeave then
        if short 2%nat then (d, errorReply (str "network leave: missing network_id"))
        else forward d CmdNetworkOK (str "network leave") (XLeaveNetwork (dnode d) net (adminToken d)) (afterLeave net)
      else if sub =? SubNetworkMembers then
        if short 2%nat then (d, errorReply (str "network members: missing network_id"))
        else forward d CmdNetworkOK (str "network members") (XListNodes net (adminToken d)) keep
      else if sub =? SubNetworkInvite then
        if short 6%nat then (d, errorReply (str "network invite: missing network_id or target_node_id"))
        else forward d CmdNetworkOK (str "network invite") (XInvite net (dnode d) (Uint32 (drop 2 rest)) (adminToken d)) keep
      else if sub =? SubNetworkPollInvites then
        forward d CmdNetworkOK (str "network poll-invites") (XPollInvites (dnode d)) keep
      else if sub =? SubNetworkRespondInvite then
        if short 3%nat then (d, errorReply (str "network respond-invite: missing network_id or accept flag"))
        else forward d CmdNetworkOK (str "network respond-invite")
               (XRespondInvite (dnode d) net (bool_decide (rest !! 2%nat = Some 1))) keep
      else (d, errorReply (str "network: unknown sub-command 0x" ++ hexByte sub))
  end.

(** ** Managed networks *)

Definition managedOK (j : jval) : Outcome := Replied CmdManagedOK (BJson j).

Definition GetPolicyRunner d (net : Z) : option PolicyRunner :=
  match policyManager (npol (nets d)) with Some pm => pmGet pm net | None => None end.
(** The runner or engine of the network, or the first one for network 0. *)
Definition findPolicyRunner d (net : Z) : option PolicyRunner :=
  if net =? 0 then match policyManager (npol (nets d)) with Some pm => head (pmAll pm) | None => None end
  else GetPolicyRunner d net.
Definition findManagedEngine d (net : Z) : option ManagedEngine :=
  if net =? 0 then
    let es := snd <$> map_to_list (managed (nets d)) in es !! Nat.modulo (rangeFirst ie) (length es)
  else GetManagedEngine (nets d) net.

(** The optional network id of status, cycle and reconcile. *)
Definition optNet (rest : bytes) : Z := if Nat.ltb (length rest) 2 then 0 else Uint16 rest.

Definition runnerSays d (q : ExtCall) : jval * Desk :=
  let '(a, d) := query d q in (match a with inr j => j | inl _ => JNull end, d).

(** [ForceCycle] of an engine: the table and the file as the cycle leaves them. *)
Definition engineCycle d (me : ManagedEngine) : jval * Desk :=
  let n := nets d in
  let '(r, me', log) := runCycle (ext ie) me (dnode d) (adminToken d) (asked n) (cycleRun ie (dcalls d)) in
  let files := match crFile r with Some f => <[meNet me := f]> (managedFiles n) | None => managedFiles n end in
  (cycleReply me' r, set_nets d (set_asked (set_managed n (<[meNet me := me']> (managed n)) files) log)).

(** The cycle runs in its own goroutine; after 5s the reply is an error. *)
Definition handleManagedCycle d (net : Z) : Desk * Outcome :=
  match findPolicyRunner d net, findManagedEngine d net with
  | None, None => (d, errorReply (str "managed: no active managed networks"))
  | pr, me =>
      let late := cycleTimedOut ie (dcalls d) in
      let '(j, d) := match pr, me with
                     | Some pr, _ => runnerSays d (XRunnerCycle (NetworkID pr))
                     | None, Some me => engineCycle d me
                     | None, None => (JNull, d)
                     end in
      (d, if late then errorReply (str "managed: force cycle timed out after 5s") else managedOK j)
  end.

Definition policyReply (net : Z) (more : list (bytes * jval)) : Outcome :=
  managedOK (JObj ([(str "type", JStr (str "managed_policy_ok")); (str "network_id", JNum net)] ++ more)).

Definition managedPolicyGet d (net : Z) : Desk * Outcome :=
  match GetPolicyRunner d net with
  | Some _ =>
      let '(j, d) := runnerSays d (XRunnerPolicy net) in
      (d, policyReply net [(str "expr_policy", j); (str "engine", JStr (str "policy"))])
  | None =>
      (d, policyReply net [(str "engine", JStr (match GetManagedEngine (nets d) net with
                                                | Some _ => str "managed" | None => str "none" end))])
  end.

Definition managedPolicySet d (net : Z) (rest : bytes) : Desk * Outcome :=
  if Nat.ltb (length rest) 5 then (d, errorReply (str "managed policy set: missing token length"))
  else
    let tokenLen := Uint16 (drop 3 rest) in
    if blen rest <? 5 + tokenLen then (d, errorReply (str "managed policy set: truncated token"))
    else
      match splitToken rest 5 tokenLen with
      | None => (d, Panicked)
      | Some (token, policy) =>
          if negb (bool_decide (adminToken d = [])) && negb (bool_decide (token = adminToken d)) then
            (d, errorReply (str "managed policy set: invalid admin token"))
          else if bool_decide (policy = []) then (d, errorReply (str "managed policy set: missing policy JSON"))
          else
            let '(e, n) := StartPolicyRunner (ext ie) (nets d) net policy in
            let d := set_nets d n in
            match e with
            | Some e => (d, errorReply (str "managed policy set: " ++ e))
            | None => (d, policyReply net [(str "applied", JBool true)])
            end
      end.

Definition managedMemberTags d (rest : bytes) : Desk * Outcome :=
  if Nat.ltb (length rest) 7 then (d, errorReply (str "managed member-tags: missing action, network_id, or node_id"))
  else
    let net := Uint16 (drop 1 rest) in
    let node := Uint32 (drop 3 rest) in
    match rest with
    | 0 :: _ => forward d CmdManagedOK (str "member-tags get") (XGetMemberTags net node) keep
    | 1 :: _ =>
        if Nat.ltb (length rest) 8 then (d, errorReply (str "managed member-tags set: missing tags JSON"))
        else match decodeTags ie (drop 7 rest) with
        | inl e => (d, errorReply (str "member-tags set: invalid tags JSON: " ++ e))
        | inr tags => forward d CmdManagedOK (str "member-tags set") (XSetMemberTags net node tags (adminToken d)) keep
        end
    | a :: _ => (d, errorReply (str "managed member-tags: unknown action 0x" ++ hexByte a))
    | [] => (d, errorReply (str "managed member-tags: missing action, network_id, or node_id"))
    end.

Definition handleManaged d (payload : bytes) : Desk * Outcome :=
  match payload with
  | [] => (d, errorReply (str "managed: missing sub-command"))
  | sub :: rest =>
      if sub =? SubManagedStatus then
        let net := optNet rest in
        match findPolicyRunner d net, findManagedEngine d net with
        | Some pr, _ => let '(j, d) := runnerSays d (XRunnerStatus (NetworkID pr)) in (d, managedOK j)
        | None, Some me => (d, managedOK (Status me))
        | None, None => (d, errorReply (str "managed: no active managed networks"))
        end
      else if sub =? SubManagedCycle then handleManagedCycle d (optNet rest)
      else if sub =? SubManagedReconcile then
        let net := optNet rest in
        match findPolicyRunner d net with
        | None => (d, errorReply (str "managed: no active policy runner for network"))
        | Some pr =>
            let d := notify d (XRunnerReconcile (NetworkID pr)) in
            let '(j, d) := runnerSays d (XRunnerPeers (NetworkID pr)) in
            (d, managedOK (JObj [(str "type", JStr (str "managed_reconcile_ok")); (str "network_id", JNum net);
                                 (str "peers", JNum (match j with JList l => Z.of_nat (length l) | _ => 0 end))]))
        end
      else if sub =? SubManagedPolicy then
        if Nat.ltb (length rest) 3 then (d, errorReply (str "managed policy: missing sub-sub-command and network_id"))
        else
          let net := Uint16 (drop 1 rest) in
          match rest with
          | 0 :: _ => managedPolicyGet d net
          | 1 :: _ => managedPolicySet d net rest
          | a :: _ => (d, errorReply (str "managed policy: unknown action 0x" ++ hexByte a))
          | [] => (d, errorReply (str "managed policy: missing sub-sub-command and network_id"))
          end
      else if sub =? SubManagedMemberTags then managedMemberTags d rest
      else (d, errorReply (str "managed: unknown sub-command 0x" ++ hexByte sub))
  end.

(** ** Dispatch *)

(** [DialConnectionContext] (see [Dial]): the daemon afterwards, and the error or the
    id of the connection.  While it runs other messages of the client are handled;
    [meanwhile] is what they do to it. *)
Context (dialConn : Desk → Addr → Z → Desk * (bytes + Z)) (meanwhile : Client → Client) (late : bool).

Definition handleDial d c (payload : bytes) : Desk * Client * Outcome :=
  let '(r, c) := beginDial c payload in
  match r with
  | inl o => (d, c, o)
  | inr (dst, port, id) =>
      let '(d, res) := dialConn d dst port in finishDial d (meanwhile c) id res late
  end.

Definition withClient c (r : Desk * Outcome) : Desk * Client * Outcome := (r.1, c, r.2).

Definition dispatch d c (cmd : Z) (payload : bytes) : Desk * Client * Outcome :=
  if cmd =? CmdBind then handleBind d c payload
  else if cmd =? CmdUnbind then handleUnbind d c payload
  else if cmd =? CmdDial then handleDial d c payload
  else if cmd =? CmdClose then handleClose d c payload
  else withClient c (
    if cmd =? CmdSend then handleSend d payload
    else if cmd =? CmdSendTo then handleSendTo d payload
    else if cmd =? CmdSendToConfirm then handleSendToConfirm d payload
    else if cmd =? CmdBroadcast then handleBroadcast d payload
    else if cmd =? CmdInfo then handleInfo d
    else if cmd =? CmdHandshake then handleHandshake d payload
    else if cmd =? CmdResolveHostname then handleResolveHostname d payload
    else if cmd =? CmdSetHostname then handleSetHostname d payload
    else if cmd =? CmdSetVisibility then handleSetVisibility d payload
    else if cmd =? CmdDeregister then handleDeregister d
    else if cmd =? CmdSetTags then handleSetTags d payload
    else if cmd =? CmdSetWebhook then handleSetWebhook d payload
    else if cmd =? CmdNetwork then handleNetwork d payload
    else if cmd =? CmdHealth then handleHealth d
    else if cmd =? CmdManaged then handleManaged d payload
    else if cmd =? CmdRotateKey then handleRotateKey d
    else if cmd =? CmdPreferDirect then handlePreferDirect d payload
    else if cmd =? CmdSubmitBadge then handleSubmitBadge d payload
    else if cmd =? CmdEnrollRecovery then handleEnrollRecovery d payload
    else if cmd =? CmdSignEnvelope then handleSignEnvelope d payload
    else if cmd =? CmdVerifyEnvelope then handleVerifyEnvelope d payload
    else (d, errorReply (str "unknown command: 0x" ++ hexByte cmd))).

(** ** The session of a client

    [tasks] are the dispatched requests that have not finished; [answers] the replies
    in the order they were given to the pipe. *)
Record Session := mkSession {
  sdesk : Desk; sclient : Client; tasks : list (Z * bytes); answers : list (Z * Body); reading : bool;
}.
Implicit Types s : Session.

Definition newSession d (pid : Z) (wl : bool) : Session := mkSession d (newIPCConn pid wl) [] [] true.

Definition reply (o : Outcome) (l : list (Z * Body)) : list (Z * Body) :=
  match o with Replied cmd b => l ++ [(cmd, b)] | _ => l end.
Definition inline s (r : Desk * Outcome) : Session :=
  mkSession r.1 (sclient s) (tasks s) (reply r.2 (answers s)) (reading s).

(** One turn of the read loop.  [None] for the message: the read failed.  No result:
    the loop waits for a free slot. *)
Definition readStep s (msg : option bytes) : option Session :=
  if negb (reading s) then None
  else match msg with
  | None => Some (mkSession (sdesk s) (sclient s) (tasks s) (answers s) false)
  | Some [] => Some s
  | Some (cmd :: payload) =>
      if cmd =? CmdCancel then
        Some (mkSession (sdesk s) (snd (cancelAllDials (sclient s))) (tasks s) (answers s) (reading s))
      else if cmd =? CmdSend then Some (inline s (handleSend (sdesk s) payload))
      else if cmd =? CmdSendTo then Some (inline s (handleSendTo (sdesk s) payload))
      else if cmd =? CmdSendToConfirm then Some (inline s (handleSendToConfirm (sdesk s) payload))
      else if cmd =? CmdHealth then Some (inline s (handleHealth (sdesk s)))
      else if Nat.ltb (length (tasks s)) ipcMaxInflightPerClient then
        Some (mkSession (sdesk s) (sclient s) (tasks s ++ [(cmd, payload)]) (answers s) (reading s))
      else if clClosed (sclient s) then Some (mkSession (sdesk s) (sclient s) (tasks s) (answers s) false)
      else None
  end.

(** The i-th of the dispatched requests runs, in the order the scheduler chooses. *)
Definition taskStep s (i : nat) : option Session :=
  match tasks s !! i with
  | None => None
  | Some (cmd, payload) =>
      let '(d, c, o) := dispatch (sdesk s) (sclient s) cmd payload in
      Some (mkSession d c (delete i (tasks s)) (reply o (answers s)) (reading s))
  end.

(** The goroutine of handleBind: it takes a connection off the queue of the listener it
    was started with and tracks it.  It belongs to the daemon, not to the requests the
    cleanup waits for, and runs on until the listener is closed and its queue empty. *)
Definition acceptStep s (ln : nat) : option Session :=
  match lnHeap (dports (sdesk s)) !! ln with
  | Some l =>
    match AcceptCh l with
    | id :: queue =>
      let pm := dports (sdesk s) in
      let pm := mkPortManager (listeners pm) (<[ln := mkListener (lnPort l) queue (lnClosed l)]> (lnHeap pm))
                  (connections pm) (nextConnID pm) (nextEphPort pm) (ephBitmap pm) in
      Some (mkSession (set_dports (sdesk s) pm) (trackConn (sclient s) id) (tasks s) (answers s) (reading s))
    | [] => None
    end
  | None => None
  end.

(** The deferred cleanup: once no request is running it copies the two lists, then closes
    the connections and unbinds the ports one by one, then closes the client. *)
Inductive Cleanup := CleanupWaits | Cleaning (conns ports : list Z) | CleanedUp.
Definition teardownStep s (k : Cleanup) : option (Session * Cleanup) :=
  match k with
  | CleanupWaits =>
    if reading s || negb (bool_decide (tasks s = [])) then None
    else Some (s, Cleaning (icConns (sclient s)) (icPorts (sclient s)))
  | Cleaning (id :: conns) ports =>
    Some (mkSession (closeID (sdesk s) id) (sclient s) (tasks s) (answers s) (reading s), Cleaning conns ports)
  | Cleaning [] (q :: ports) =>
    Some (mkSession (set_dports (sdesk s) (Unbind (dports (sdesk s)) q)) (sclient s) (tasks s) (answers s) (reading s), Cleaning [] ports)
  | Cleaning [] [] => Some (mkSession (sdesk s) (clientClose (sclient s)) (tasks s) (answers s) (reading s), CleanedUp)
  | CleanedUp => None
  end.
(** The cleanup with nothing in between. *)
Definition closeAll d (conns ports : list Z) : Desk :=
  let d := fold_left closeID conns d in
  fold_left (λ d p, set_dports d (Unbind (dports d) p)) ports d.
End Ipc.

(** ** Accepting clients *)

Record Server := mkServer { clients : gmap nat Client; srvDone : bool }.

(** [uidOK]: the peer is of our user; [name]: its process name, if it can be told. *)
Definition isWhitelisted (wl : list bytes) (pid : Z) (name : bytes) : bool :=
  (0 <? pid) && negb (bool_decide (wl = [])) && negb (bool_decide (name = [])) && bool_decide (name ∈ wl).

(** The fate of one accepted connection [k]: whether it is served, whether the loop
    goes on, the server. *)
Definition acceptClient (s : Server) (k : nat) (uidOK : bool) (pid : Z) (name : bytes) (wl : list bytes)
  : bool * bool * Server :=
  if negb uidOK then (false, true, s)
  else if srvDone s then (false, false, s)
  else if Nat.leb MaxIPCClients (size (clients s)) then (false, true, s)
  else (true, true, mkServer (<[k := newIPCConn pid (isWhitelisted wl pid name)]> (clients s)) (srvDone s)).
(** The last deferred call of a client's handler. *)
Definition removeClient (s : Server) (k : nat) : Server := mkServer (delete k (clients s)) (srvDone s).
Definition serverClose (s : Server) : Server := mkServer (clientClose <$> clients s) true.
