(* ===== verification/IpcProofs.v ===== *)
(** * The IPC server: every request is answered, and what a client may do

    Replies of the dispatcher, the panic on long tokens, replies that fit a message,
    signatures, ownership of ports, the session of a client. *)
From stdpp Require Import strings.
From S2P Require Import Prelude GoText NetIP Crypto KeyStore Protocol Envelope KeyExchange Routing Tunnel.
From S2P Require Import Admission Conn PortManager Sender Stream Registry RxWatchdog HandshakePoll Resolve PathWatch.
From S2P Require Import Json Managed Networks IpcConn Ipc.
Open Scope Z_scope.

(** ** Replies that must fit *)

Lemma blen_frame_snoc pre post rows r :
  blen (frame pre post (rows ++ [r])) = blen (frame pre post rows) + blen r + (if Nat.eqb (length rows) 0 then 0 else 1).
Proof.
  unfold frame. rewrite !blen_app. destruct rows as [|x rows]; cbn [Nat.eqb length app].
  - unfold blen. cbn. lia.
  - change (x :: rows ++ [r]) with ((x :: rows) ++ [r]). rewrite length_commaJoin by done. lia.
Qed.

Lemma rowsThatFit_spec pre post rows kept budget :
  blen (frame pre post kept) <= budget →
  let n := rowsThatFit rows (length kept) (blen (frame pre post kept)) budget in
  (length kept <= n <= length kept + length rows)%nat ∧
  blen (frame pre post (take n (kept ++ rows))) <= budget ∧
  ((n < length kept + length rows)%nat → budget < blen (frame pre post (take (S n) (kept ++ rows)))).
Proof.
  revert kept. induction rows as [|r rows IH]; intros kept Hk; cbn [rowsThatFit length].
  { rewrite app_nil_r, firstn_all. split_and!; [lia..|done|lia]. }
  cbv zeta. pose proof (blen_frame_snoc pre post kept r) as Hs.
  destruct (budget <? _) eqn:E.
  - apply Z.ltb_lt in E. rewrite take_app_length. split_and!; [lia..|done|].
    intros _. replace (kept ++ r :: rows) with ((kept ++ [r]) ++ rows) by (by rewrite <-app_assoc).
    replace (S (length kept)) with (length (kept ++ [r])) by (rewrite length_app; cbn; lia).
    rewrite take_app_length. lia.
  - apply Z.ltb_ge in E. specialize (IH (kept ++ [r]) ltac:(lia)). cbv zeta in IH.
    rewrite Hs, length_app in IH. cbn [length] in IH. rewrite <-app_assoc in IH. cbn [app] in IH.
    rewrite Nat.add_1_r, <-Z.add_assoc in IH.
    replace (length kept + S (length rows))%nat with (S (length kept) + length rows)%nat by lia.
    destruct IH as (I1 & I2 & I3). split_and!; [lia|lia|exact I2|exact I3].
Qed.

(** A cut reply fits its budget and keeps as many of the leading rows as fit. *)
Theorem cut_reply_fits pre post rows budget :
  blen (frame pre post []) <= budget →
  ∃ n, marshalRowsWithinBudget pre post rows budget = frame pre post (take n rows) ∧
    blen (frame pre post (take n rows)) <= budget ∧
    ((n < length rows)%nat → budget < blen (frame pre post (take (S n) rows))).
Proof.
  intros H. destruct (rowsThatFit_spec pre post rows [] budget H) as (H1 & H2 & H3). cbn [app length] in *.
  eexists. split; [reflexivity|]. by split.
Qed.

(** ** Newest first *)

Lemma insertNewest_perm t l : insertNewest t l ≡ₚ t :: l.
Proof. induction l as [|u l IH]; cbn; [done|]. case_match; [by rewrite IH, Permutation_swap|done]. Qed.
Lemma newestFirst_perm l : newestFirst l ≡ₚ l.
Proof. induction l as [|t l IH]; cbn; [done|]. unfold newestFirst in *. by rewrite insertNewest_perm, IH. Qed.

(** ** Every request is answered *)

Section Answers.
Context {P : Protocol} {W : PacketCodec} {K : Type} {C : Cipher K} {X : Primitives K} {A : AddrCodec}.
Context (env : RegEnv) (renv : ResolveEnv) (ie : IpcEnv) (ProtoDatagram : Z) (IsBroadcast : Addr → bool)
  (genIdentity : nat → bytes + Identity (Primitives := X)).
Implicit Types d : Desk (K := K) (X := X).

(** One answer: the confirmation that belongs to the command, or an error; and
    nothing was signed. *)
Definition answersTo (cmd : Z) (o : Outcome) : Prop := ∃ k b, o = Replied k b ∧ (k = CmdError ∨ k = cmd + 1).
Definition handled d (cmd : Z) (r : Desk * Outcome) : Prop := answersTo cmd r.2 ∧ signed r.1 = signed d.

Lemma errorReply_answers cmd e : answersTo cmd (errorReply e).
Proof. eexists _, _. split; [done|]. by left. Qed.
Lemma ok_answers cmd k b : k = cmd + 1 → answersTo cmd (Replied k b).
Proof. intros ->. eexists _, _. split; [done|]. by right. Qed.

Lemma handled_error d d' cmd e : signed d' = signed d → handled d cmd (d', errorReply e).
Proof. split; [apply errorReply_answers|done]. Qed.
Lemma handled_ok d d' cmd k b : k = cmd + 1 → signed d' = signed d → handled d cmd (d', Replied k b).
Proof. intros. split; [by apply ok_answers|done]. Qed.

Lemma forward_handled d cmd okCmd what q andThen :
  okCmd = cmd + 1 → (∀ d r, signed (andThen d r) = signed d) → handled d cmd (forward ie d okCmd what q andThen).
Proof.
  intros Hc Ha. unfold forward. destruct (query ie d q) as [a d1] eqn:E.
  assert (signed d1 = signed d) as Hs by (unfold query, ask, askLog in E; by injection E as _ <-).
  destruct a; [by apply handled_error|]. apply handled_ok; [done|]. by rewrite Ha.
Qed.

Lemma handleInfo_handled d : handled d CmdInfo (handleInfo ie d).
Proof. unfold handleInfo. repeat case_match; first [apply handled_error; reflexivity|by apply handled_ok]. Qed.
Lemma handleHealth_handled d : handled d CmdHealth (handleHealth ie d).
Proof. unfold handleHealth. case_match; first [apply handled_error; reflexivity|by apply handled_ok]. Qed.
Lemma handleDeregister_handled d : handled d CmdDeregister (handleDeregister ie d).
Proof. by apply forward_handled. Qed.
Lemma handleSetTags_handled d p : handled d CmdSetTags (handleSetTags ie d p).
Proof. unfold handleSetTags. repeat case_match; first [by apply handled_error|by apply forward_handled]. Qed.
Lemma handleSetWebhook_handled d p : handled d CmdSetWebhook (handleSetWebhook ie d p).
Proof. unfold handleSetWebhook. case_match; first [by apply handled_error|by apply handled_ok]. Qed.
Lemma handleSetVisibility_handled d p : handled d CmdSetVisibility (handleSetVisibility ie d p).
Proof. unfold handleSetVisibility. case_match; first [by apply handled_error|by apply forward_handled]. Qed.
Lemma handleSetHostname_handled d p : handled d CmdSetHostname (handleSetHostname ie d p).
Proof. by apply forward_handled. Qed.
Lemma handleResolveHostname_handled d p : handled d CmdResolveHostname (handleResolveHostname renv ie d p).
Proof.
  unfold handleResolveHostname. case_match; [by apply handled_error|]. case_match; [by apply handled_ok|].
  apply forward_handled; [done|]. intros d1 r. unfold prewarm. destruct (jnode r), (bool_decide (_ = Some (dnode d1))); try done; by destruct (askRegistry _ _ _).
Qed.
Lemma handlePreferDirect_handled d p : handled d CmdPreferDirect (handlePreferDirect env renv ie d p).
Proof. unfold handlePreferDirect. case_match; [by apply handled_error|]. destruct (resetPeerPath _ _ _ _ _ _). by apply handled_ok. Qed.
Lemma handleSendToConfirm_handled d p :
  handled d CmdSendToConfirm (handleSendToConfirm env renv ie ProtoDatagram IsBroadcast d p).
Proof.
  unfold handleSendToConfirm. case_match; [by apply handled_error|]. unfold sendTo. destruct (SendDatagram _ _ _ _ _ _ _ _ _ _ _) as [e p1].
  case_match; [by apply handled_error|by apply handled_ok].
Qed.
Lemma handleNetwork_handled d p : handled d CmdNetwork (handleNetwork ie d p).
Proof.
  unfold handleNetwork. repeat (case_match; try by apply handled_error);
    (apply forward_handled; [done|]); try done; intros d1 r; unfold afterJoin, afterLeave; repeat case_match; done.
Qed.

Lemma query_signed d q : signed (query ie d q).2 = signed d.
Proof. reflexivity. Qed.
Lemma dtrusts_signed d n : signed (dtrusts ie d n).2 = signed d.
Proof. unfold dtrusts. by case_match. Qed.
Lemma runPoll_signed d b s : signed (runPoll ie d b s) = signed d.
Proof. unfold runPoll. destruct b; [|done]. by destruct (pollRelayedHandshakes _ _ _ _ _ _). Qed.
Lemma pollOnDemand_signed d : signed (pollOnDemand ie d) = signed d.
Proof. unfold pollOnDemand. destruct (pollHandshakesOnDemand _ _ _ _) as [[b w] s]. apply runPoll_signed. Qed.
Lemma pollForTrustWait_signed d n : signed (pollForTrustWait ie d n) = signed d.
Proof.
  unfold pollForTrustWait. pose proof (dtrusts_signed d n) as H. destruct (dtrusts ie d n) as [tr d1]. cbn in H.
  destruct (pollHandshakesForTrustWait _ _ _ _ _ _) as [[b w] s]. by rewrite runPoll_signed.
Qed.
Lemma HandshakeSendRequest_signed d n why : signed (HandshakeSendRequest ie d n why).2 = signed d.
Proof. unfold HandshakeSendRequest. destruct (handshakes d); [|done]. cbn. by case_match. Qed.
Lemma handshakeRequestSent_signed d n b : signed (handshakeRequestSent ie d n b) = signed d.
Proof.
  unfold handshakeRequestSent. case_match; [done|]. pose proof (dtrusts_signed d n) as Hs.
  destruct (dtrusts ie d n) as [tr d1]. by destruct tr.
Qed.
Lemma hsForward_handled d what status n q : handled d CmdHandshake (hsForward ie d what status n q).
Proof.
  unfold hsForward. destruct (query ie d q) as [a d1] eqn:E. assert (signed d1 = signed d) by (by rewrite <-(query_signed d q), E).
  destruct a; [by apply handled_error|by apply handled_ok].
Qed.
Lemma handled_trans d d1 cmd r : signed d1 = signed d → handled d1 cmd r → handled d cmd r.
Proof. intros H [? H2]. split; [done|]. by rewrite H2. Qed.

Lemma handleHandshake_handled d p : handled d CmdHandshake (handleHandshake ie d p).
Proof.
  unfold handleHandshake. destruct p as [|sub rest]; [by apply handled_error|]. case_match; [by apply handled_error|].
  pose proof (pollOnDemand_signed d) as Hp.
  case_match; [case_match; [by apply handled_error|]|].
  { pose proof (HandshakeSendRequest_signed d (Uint32 rest) (drop 4 rest)) as Hs.
    destruct (HandshakeSendRequest _ _ _ _) as [[[|e]|] d1]; cbn in Hs;
      [apply handled_ok; [done|by rewrite handshakeRequestSent_signed]|by apply handled_error|
       apply handled_ok; [done|by rewrite handshakeRequestSent_signed]]. }
  case_match; [case_match; [by apply handled_error|]; eapply handled_trans; [exact Hp|apply hsForward_handled]|].
  case_match; [case_match; [by apply handled_error|]; eapply handled_trans; [exact Hp|apply hsForward_handled]|].
  case_match; [by apply handled_ok|]. case_match; [by apply handled_ok|].
  case_match; [case_match; [by apply handled_error|]; apply hsForward_handled|].
  case_match; [|by apply handled_error]. case_match; [by apply handled_error|].
  pose proof (pollForTrustWait_signed d (Uint32 rest)) as Hw.
  destruct (query ie (pollForTrustWait ie d (Uint32 rest)) _) as [a d1] eqn:E. apply handled_ok; [done|].
  rewrite <-Hw, <-(query_signed (pollForTrustWait ie d (Uint32 rest)) (XHsWait (Uint32 rest) (Z.min (Uint32 (drop 4 rest)) 30000 * Millisecond))).
  by rewrite E.
Qed.

(** *** Long tokens *)

Lemma sliceChecked_ok b lo hi : 0 <= lo → lo <= hi → hi <= blen b → sliceChecked b lo hi ≠ None.
Proof. intros. unfold sliceChecked. rewrite !(proj2 (Z.leb_le _ _)) by lia. done. Qed.
Lemma splitToken_panics b off len :
  is_u16 len → 0 <= off < 65536 → off + len <= blen b → (splitToken b off len = None ↔ 65536 <= off + len).
Proof.
  intros Hl Ho Hb. unfold splitToken, u16. destruct (decide (off + len < 65536)) as [Hlt|Hge].
  - rewrite (Z.mod_small (off + len)) by (unfold is_u16 in Hl; lia). unfold is_u16 in Hl.
    pose proof (sliceChecked_ok b off (off + len) ltac:(lia) ltac:(lia) Hb).
    pose proof (sliceChecked_ok b (off + len) (blen b) ltac:(lia) ltac:(lia) ltac:(lia)).
    repeat case_match; simplify_eq; split; (done || lia).
  - split; [lia|intros _]. unfold is_u16 in Hl.
    assert ((off + len) mod 65536 < off) as Hm.
    { replace (off + len) with (off + len - 65536 + 1 * 65536) by lia. rewrite Z.mod_add by lia. rewrite Z.mod_small; lia. }
    unfold sliceChecked. rewrite (proj2 (Z.leb_gt off _)) by exact Hm. by rewrite andb_false_r.
Qed.

Lemma Uint16_range l : bytes_ok l → is_u16 (Uint16 l).
Proof.
  intros H. unfold Uint16. pose proof (be_get_bound (take 2 l) (bytes_ok_take 2 l H)) as Hb.
  assert (256 ^ blen (take 2 l) <= 65536) as Hp.
  { unfold blen. rewrite length_take. change 65536 with (256 ^ 2). apply Z.pow_le_mono_r; lia. }
  unfold is_u16. lia.
Qed.

(** A request with a token length so long that [offset+length] overflows uint16,
    although the payload holds the token. *)
Definition overflows (off : Z) (body : bytes) (at_ : nat) : Prop :=
  off + Uint16 (drop at_ body) <= blen body ∧ 65536 <= off + Uint16 (drop at_ body).

Lemma handleBroadcast_spec d p :
  bytes_ok p →
  let r := handleBroadcast env renv ie ProtoDatagram d p in
  (r.2 = Panicked ∧ r.1 = d ∧ overflows 6 p 4) ∨ (handled d CmdBroadcast r ∧ ¬ overflows 6 p 4).
Proof.
  intros Hp. cbv zeta. unfold handleBroadcast, overflows. case_match.
  { right. split; [by apply handled_error|]. zbool. unfold blen. intros [H1 _].
    pose proof (Uint16_range (drop 4 p) (bytes_ok_drop 4 p Hp)) as Hr. unfold is_u16 in Hr.
    assert ((length p < 6)%nat) by (apply Nat.ltb_lt; done). lia. }
  case_match.
  { right. split; [by apply handled_error|]. zbool. lia. }
  pose proof (splitToken_panics p 6 (Uint16 (drop 4 p)) (Uint16_range _ (bytes_ok_drop 4 p Hp)) ltac:(lia)) as Hs.
  assert (6 + Uint16 (drop 4 p) <= blen p) as Hb by (apply Z.ltb_ge; done). specialize (Hs Hb).
  destruct (splitToken p 6 _) as [[token data]|].
  - right. split.
    + destruct (BroadcastDatagram _ _ _ _ _ _ _ _ _ _ _ _ _ _) as [[e|] p1]; [by apply handled_error|by apply handled_ok].
    + intros [_ Ho]. by apply Hs in Ho.
  - left. split_and!; [done..|]. by apply Hs.
Qed.

Lemma runnerSays_signed d q : signed (runnerSays ie d q).2 = signed d.
Proof. reflexivity. Qed.
Lemma runnerSays_handled d d0 q (f : jval → jval) :
  signed d = signed d0 → handled d0 CmdManaged (let '(j, d) := runnerSays ie d q in (d, managedOK (f j))).
Proof. intros H. unfold runnerSays, query, ask, askLog. by apply handled_ok. Qed.
Lemma StartPolicyRunner_desk d net p : signed (set_nets d (StartPolicyRunner (ext ie) (nets d) net p).2) = signed d.
Proof. reflexivity. Qed.

Lemma managedPolicySet_spec d net rest :
  bytes_ok rest →
  let r := managedPolicySet ie d net rest in
  (r.2 = Panicked ∧ r.1 = d ∧ overflows 5 rest 3) ∨ (handled d CmdManaged r ∧ ¬ overflows 5 rest 3).
Proof.
  intros Hp. cbv zeta. unfold managedPolicySet, overflows. case_match.
  { right. split; [by apply handled_error|]. unfold blen. intros [Ho _].
    pose proof (Uint16_range (drop 3 rest) (bytes_ok_drop 3 rest Hp)) as Hr. unfold is_u16 in Hr.
    assert ((length rest < 5)%nat) by (apply Nat.ltb_lt; done). lia. }
  case_match.
  { right. split; [by apply handled_error|]. zbool. lia. }
  pose proof (splitToken_panics rest 5 (Uint16 (drop 3 rest)) (Uint16_range _ (bytes_ok_drop 3 rest Hp)) ltac:(lia)) as Hs.
  assert (5 + Uint16 (drop 3 rest) <= blen rest) as Hb by (apply Z.ltb_ge; done). specialize (Hs Hb).
  destruct (splitToken rest 5 _) as [[token policy]|].
  - right. split; [|intros [_ Ho]; by apply Hs in Ho].
    case_match; [by apply handled_error|]. case_match; [by apply handled_error|].
    destruct (StartPolicyRunner _ _ _ _) as [[e|] n]; [by apply handled_error|by apply handled_ok].
  - left. split_and!; [done..|]. by apply Hs.
Qed.

Lemma engineCycle_signed d me : signed (engineCycle ie d me).2 = signed d.
Proof. unfold engineCycle. by destruct (runCycle _ _ _ _ _ _) as [[r me'] log]. Qed.

Lemma handleManagedCycle_handled d net : handled d CmdManaged (handleManagedCycle ie d net).
Proof.
  unfold handleManagedCycle. destruct (findPolicyRunner d net) as [pr|], (findManagedEngine ie d net) as [me|];
    [| | |by apply handled_error].
  3: pose proof (engineCycle_signed d me) as He; destruct (engineCycle ie d me) as [j d1]; cbn in He.
  all: destruct (cycleTimedOut ie (dcalls d)); [by apply handled_error|by apply handled_ok].
Qed.
Lemma managedMemberTags_handled d rest : handled d CmdManaged (managedMemberTags ie d rest).
Proof.
  unfold managedMemberTags. repeat (case_match; try by apply handled_error); by apply forward_handled.
Qed.

Lemma handleManaged_spec d p :
  bytes_ok p →
  let r := handleManaged ie d p in
  (r.2 = Panicked ∧ r.1 = d ∧ ∃ net, p !! 0%nat = Some SubManagedPolicy ∧ p !! 1%nat = Some 1 ∧ net = Uint16 (drop 2 p) ∧
     overflows 5 (drop 1 p) 3) ∨
  handled d CmdManaged r.
Proof.
  intros Hp. cbv zeta. destruct p as [|sub rest]; [right; by apply handled_error|]. cbn [handleManaged].
  apply Forall_cons in Hp as [_ Hp].
  destruct (sub =? SubManagedStatus).
  { right. destruct (findPolicyRunner _ _); [by apply (runnerSays_handled d d _ (λ j, j))|].
    case_match; [by apply handled_ok|by apply handled_error]. }
  destruct (sub =? SubManagedCycle); [right; apply handleManagedCycle_handled|].
  destruct (sub =? SubManagedReconcile).
  { right. case_match; [|by apply handled_error]. cbv zeta. by apply runnerSays_handled. }
  destruct (sub =? SubManagedPolicy) eqn:Es; [apply Z.eqb_eq in Es as ->|].
  - destruct (Nat.ltb (length rest) 3) eqn:El; [right; by apply handled_error|].
    destruct rest as [|a rest']; [right; by apply handled_error|].
    destruct (decide (a = 0)) as [->|Ha0].
    { right. unfold managedPolicyGet. case_match; [|by apply handled_ok]. by apply runnerSays_handled. }
    destruct (decide (a = 1)) as [->|Ha1].
    { destruct (managedPolicySet_spec d (Uint16 (drop 1 (1 :: rest'))) (1 :: rest') Hp) as [(H1 & H2 & H3)|[H _]]; [|by right].
      left. split_and!; [done..|]. eexists. by split_and!. }
    right. destruct a as [|[]|]; try done; by apply handled_error.
  - right. case_match; [apply managedMemberTags_handled|by apply handled_error].
Qed.

(** ** Signatures *)

(** A message the daemon signs names this node. *)
Definition ownMessage d (m : bytes) : Prop :=
  (∃ badge, m = badgeMessage (dnode d) badge) ∨ (∃ com, m = enrollMessage (dnode d) com) ∨
  (∃ pub, m = rotateMessage (dnode d) pub) ∨
  (∃ e, Canonical ie e = inr m ∧ evNode e = Node (ownAddr d) ∧ evNetwork e = Network (ownAddr d) ∧ evTimestamp e = Unix (dnow d)).
(** What a request adds to the log of signatures. *)
Definition signsOwn d d' : Prop := ∃ l, signed d' = signed d ++ l ∧ (length l <= 1)%nat ∧ Forall (ownMessage d) l.

Lemma signsOwn_none d d' : signed d' = signed d → signsOwn d d'.
Proof. intros H. exists []. rewrite app_nil_r. split_and!; [done|cbn; lia|done]. Qed.
Lemma dSign_own d m : ownMessage d m → signsOwn d (dSign d m).2.
Proof.
  intros Hm. unfold dSign. destruct (dident d); [|by apply signsOwn_none]. exists [m].
  split_and!; [done|cbn; lia|by constructor].
Qed.
Lemma signsOwn_then d d1 d2 : signsOwn d d1 → signed d2 = signed d1 → signsOwn d d2.
Proof. intros (l & H1 & H2 & H3) H. exists l. by rewrite H. Qed.

Definition handledSigning d (cmd : Z) (r : Desk * Outcome) : Prop := answersTo cmd r.2 ∧ signsOwn d r.1.
Lemma handled_signing d cmd r : handled d cmd r → handledSigning d cmd r.
Proof. intros [H1 H2]. split; [done|by apply signsOwn_none]. Qed.
Lemma handled_after d d1 cmd r : signsOwn d d1 → handled d1 cmd r → handledSigning d cmd r.
Proof. intros H [H1 H2]. split; [done|by eapply signsOwn_then]. Qed.

Ltac signing H :=
  match goal with
  | |- context [dSign ?d ?m] =>
      assert (ownMessage d m) as Hown by H;
      pose proof (dSign_own d m Hown) as Hsig; destruct (dSign d m) as [sig d1]; cbn [snd] in Hsig;
      eapply handled_after; [exact Hsig|]; case_match; first [by apply handled_error|by apply forward_handled|by apply handled_ok]
  end.

Lemma handleSubmitBadge_handled d p : handledSigning d CmdSubmitBadge (handleSubmitBadge ie d p).
Proof.
  unfold handleSubmitBadge. case_match; [by apply handled_signing, handled_error|]. destruct p0 as [badge sig0].
  case_match; [by apply handled_signing, handled_error|].
  case_match; [|by apply handled_signing, handled_error]. signing ltac:(left; by eexists).
Qed.
Lemma handleEnrollRecovery_handled d p : handledSigning d CmdEnrollRecovery (handleEnrollRecovery ie d p).
Proof.
  unfold handleEnrollRecovery. case_match; [by apply handled_signing, handled_error|]. destruct p0 as [enr sig0].
  case_match; [by apply handled_signing, handled_error|].
  case_match; [by apply handled_signing, handled_error|].
  case_match; [|by apply handled_signing, handled_error]. signing ltac:(right; left; by eexists).
Qed.
Lemma handleSignEnvelope_handled d p : handledSigning d CmdSignEnvelope (handleSignEnvelope ie d p).
Proof.
  unfold handleSignEnvelope. do 6 (case_match; [by apply handled_signing, handled_error|]).
  signing ltac:(right; right; right; by eexists).
Qed.
Lemma handleVerifyEnvelope_handled d p : handled d CmdVerifyEnvelope (handleVerifyEnvelope ie d p).
Proof.
  assert (∀ d0 d1 why, signed d1 = signed d0 → handled d0 CmdVerifyEnvelope (rejectEnvelope d1 why)) as Hrej
    by (intros; by apply handled_ok).
  unfold handleVerifyEnvelope. do 2 (case_match; [by apply handled_error|]). do 2 (case_match; [by apply Hrej|]).
  cbv zeta. destruct (GetPeerPubKey _ _ _) as [pk m]. case_match; [|by apply Hrej]. case_match; [by apply Hrej|].
  match goal with |- context [dtrusts ie ?d1 ?n] => pose proof (dtrusts_signed d1 n) as Ht; destruct (dtrusts ie d1 n) as [tr d2] end.
  cbn [snd] in Ht. destruct (vqStanding _); [|by apply handled_ok].
  assert (signed (standing ie d2 s).2 = signed d2) as Hst by (unfold standing; case_match; [|done]; cbn; by case_match).
  destruct (standing ie d2 s) as [more d3]. cbn [snd] in Hst. apply handled_ok; [done|]. by rewrite Hst.
Qed.
Lemma handleRotateKey_handled d : handledSigning d CmdRotateKey (handleRotateKey ie genIdentity d).
Proof.
  unfold handleRotateKey, RotateKey. destruct (dident d) as [cur|]; [|by apply handled_signing, handled_error].
  destruct (regConn _); [|by apply handled_signing, handled_error].
  destruct (genIdentity _) as [e|newID]; [by apply handled_signing, handled_error|].
  unfold query, ask, askLog. set (m := rotateMessage (dnode d) (EncodePublicKey ie (IdPublicKey newID))). assert (ownMessage d m) as Hm by (right; right; left; by eexists).
  cbv zeta. match goal with |- context [ext ie ?i ?q] => destruct (ext ie i q) end; (split; [first [apply errorReply_answers|by apply ok_answers]|]);
    (exists [m]; split_and!; [done|cbn; lia|by constructor]).
Qed.

(** ** Dispatch *)

Context (dialConn : Desk (K := K) (X := X) → Addr → Z → Desk (K := K) (X := X) * (bytes + Z)) (meanwhile : Client → Client) (late : bool).

Lemma closeID_signed d id : signed (closeID ie d id) = signed d.
Proof. unfold closeID. case_match; [|done]. destruct (closeArgs ie id) as [[a b] l]. by destruct (CloseConnection _ _ _ _ _). Qed.

(** The requests that may go unanswered: data and plain datagrams, and a dial that
    its client gave up. *)
Definition mayBeSilent c (cmd : Z) (payload : bytes) : Prop :=
  cmd = CmdSend ∨ cmd = CmdSendTo ∨
  (cmd = CmdDial ∧ ∃ id, nextCancelID (beginDial c payload).2 = id ∧
     (id ∈ cancelled (meanwhile (beginDial c payload).2) ∨ clClosed (meanwhile (beginDial c payload).2) = true)).
(** The requests whose handler panics. *)
Definition tokenTooLong (cmd : Z) (payload : bytes) : Prop :=
  (cmd = CmdBroadcast ∧ overflows 6 payload 4) ∨ (cmd = CmdManaged ∧ overflows 5 (drop 1 payload) 3).

Definition outcomeOK c (cmd : Z) (payload : bytes) (o : Outcome) : Prop :=
  match o with
  | Replied k _ => k = CmdError ∨ k = cmd + 1
  | Silent => mayBeSilent c cmd payload
  | Panicked => tokenTooLong cmd payload
  end.

Lemma answersTo_ok c cmd p o : answersTo cmd o → outcomeOK c cmd p o.
Proof. by intros (k & b & -> & H). Qed.
Lemma withClient_ok d c cmd p r : handledSigning d cmd r →
  outcomeOK c cmd p (withClient c r).2 ∧ (cmd ≠ CmdDial → signsOwn d (withClient c r).1.1).
Proof. intros [H1 H2]. split; [by apply answersTo_ok|done]. Qed.

Lemma handleDial_ok d c p :
  outcomeOK c CmdDial p (handleDial ie dialConn meanwhile late d c p).2.
Proof.
  unfold handleDial. destruct (beginDial c p) as [[o|[[dst port] id]] c1] eqn:Eb.
  { unfold beginDial in Eb. repeat (case_match; [by injection Eb as <- _; left|]). done. }
  assert (nextCancelID c1 = id) as Hid.
  { unfold beginDial in Eb. repeat (case_match; [done|]). by injection Eb as _ _ <- <-. }
  destruct (dialConn d dst port) as [d1 res].
  unfold finishDial. destruct res as [e|cid]; [by left|].
  case_bool_decide as Hg; [right; right; split; [done|]; rewrite Eb; cbn; eauto|].
  change (clClosed (trackConn (meanwhile c1) cid)) with (clClosed (meanwhile c1)).
  destruct (clClosed (meanwhile c1)) eqn:Ec; [right; right; split; [done|]; rewrite Eb; cbn; eauto|].
  destruct late; by right.
Qed.

(** The next command of the chain, or the rest of it. *)
Ltac route :=
  match goal with
  | |- context [if ?c =? ?k then _ else _] => destruct (c =? k) eqn:E; [apply Z.eqb_eq in E as ->|clear E]
  end.

Lemma dispatch_spec d c cmd p :
  bytes_ok p →
  let r := dispatch env renv ie ProtoDatagram IsBroadcast genIdentity dialConn meanwhile late d c cmd p in
  outcomeOK c cmd p r.2 ∧ (cmd ≠ CmdDial → signsOwn d r.1.1).
Proof.
  intros Hp. cbv zeta. unfold dispatch.
  route.
  { unfold handleBind. case_match; [split; [by left|intros _; by apply signsOwn_none]|].
    destruct (Bind _ _) as [[a|] pm]; (split; [first [by left|by right]|intros _; by apply signsOwn_none]). }
  route.
  { unfold handleUnbind. case_match; [split; [by left|intros _; by apply signsOwn_none]|].
    destruct (removePort _ _) as [[] c1]; (split; [first [by left|by right]|intros _; by apply signsOwn_none]). }
  route.
  { split; [apply handleDial_ok|done]. }
  route.
  { unfold handleClose. case_match; (split; [first [by left|by right]|intros _; apply signsOwn_none]); [done|]. cbn. apply closeID_signed. }
  route.
  { unfold handleSend. repeat case_match; (split; [by left|intros _; by apply signsOwn_none]). }
  route.
  { unfold handleSendTo, sendTo. case_match; [split; [by right; left|intros _; by apply signsOwn_none]|].
    destruct (SendDatagram _ _ _ _ _ _ _ _ _ _ _) as [e p1]. split; [by right; left|intros _; by apply signsOwn_none]. }
  route.
  { apply withClient_ok, handled_signing, handleSendToConfirm_handled. }
  route.
  { destruct (handleBroadcast_spec d p Hp) as [(H1 & H2 & H3)|[H _]]; [|by apply withClient_ok, handled_signing].
    unfold withClient. cbn [fst snd]. rewrite H1, H2. split; [by left|intros _; by apply signsOwn_none]. }
  route; [apply withClient_ok, handled_signing, handleInfo_handled|].
  route; [apply withClient_ok, handled_signing, handleHandshake_handled|].
  route; [apply withClient_ok, handled_signing, handleResolveHostname_handled|].
  route; [apply withClient_ok, handled_signing, handleSetHostname_handled|].
  route; [apply withClient_ok, handled_signing, handleSetVisibility_handled|].
  route; [apply withClient_ok, handled_signing, handleDeregister_handled|].
  route; [apply withClient_ok, handled_signing, handleSetTags_handled|].
  route; [apply withClient_ok, handled_signing, handleSetWebhook_handled|].
  route; [apply withClient_ok, handled_signing, handleNetwork_handled|].
  route; [apply withClient_ok, handled_signing, handleHealth_handled|].
  route.
  { destruct (handleManaged_spec d p Hp) as [(H1 & H2 & net & _ & _ & _ & H3)|H]; [|by apply withClient_ok, handled_signing].
    unfold withClient. cbn [fst snd]. rewrite H1, H2. split; [by right|intros _; by apply signsOwn_none]. }
  route; [apply withClient_ok, handleRotateKey_handled|].
  route; [apply withClient_ok, handled_signing, handlePreferDirect_handled|].
  route; [apply withClient_ok, handleSubmitBadge_handled|].
  route; [apply withClient_ok, handleEnrollRecovery_handled|].
  route; [apply withClient_ok, handleSignEnvelope_handled|].
  route; [apply withClient_ok, handled_signing, handleVerifyEnvelope_handled|].
  split; [by left|intros _; by apply signsOwn_none].
Qed.

(** C17. What a dispatched request is answered with is the confirmation of its own command
    or an error.  Only data and plain datagrams, and a dial whose client gave it up or
    is closed, have no answer by design; the one other way is a token so long that its
    end overflows uint16, where the handler panics. *)
Theorem requests_are_answered d c cmd p :
  bytes_ok p →
  outcomeOK c cmd p (dispatch env renv ie ProtoDatagram IsBroadcast genIdentity dialConn meanwhile late d c cmd p).2.
Proof. intros Hp. by apply dispatch_spec. Qed.

(** C18. No handler of a request other than a dial signs a message of the client's choice:
    what it signs with the node's identity is at most one message, and that is a badge
    submission, a recovery enrolment or a key rotation of this node, or a request
    envelope with this node's own address and the current time.  (Signatures made
    outside the handlers are not counted: those of key-exchange frames, of the registry
    client's requests and of plugins.) *)
Theorem signs_only_own_messages d c cmd p :
  bytes_ok p → cmd ≠ CmdDial →
  signsOwn d (dispatch env renv ie ProtoDatagram IsBroadcast genIdentity dialConn meanwhile late d c cmd p).1.1.
Proof. intros Hp. by apply dispatch_spec. Qed.

(** C19. A broadcast whose token is 65530 bytes or longer, and a policy whose token is
    65531 bytes or longer, are never answered: the bound of the slice wraps to a
    number below its start. *)
Theorem long_tokens_panic d p :
  bytes_ok p →
  (overflows 6 p 4 → handleBroadcast env renv ie ProtoDatagram d p = (d, Panicked)) ∧
  (overflows 5 p 3 → (1 < length p)%nat → p !! 0%nat = Some 1 →
     handleManaged ie d (SubManagedPolicy :: p) = (d, Panicked)).
Proof.
  intros Hp. split.
  - intros Ho. destruct (handleBroadcast_spec d p Hp) as [(H1 & H2 & _)|[_ H]]; [|done].
    destruct (handleBroadcast _ _ _ _ _ _) as [d1 o]. cbn in *. by subst.
  - intros Ho Hl H0. destruct p as [|a p']; [done|]. injection H0 as ->.
    destruct (managedPolicySet_spec d (Uint16 (drop 1 (1 :: p'))) (1 :: p') Hp) as [(H1 & H2 & _)|[_ H]]; [|done].
    cbn [handleManaged]. change (SubManagedPolicy =? SubManagedStatus) with false.
    change (SubManagedPolicy =? SubManagedCycle) with false. change (SubManagedPolicy =? SubManagedReconcile) with false.
    change (SubManagedPolicy =? SubManagedPolicy) with true. cbv iota.
    destruct (Nat.ltb (length (1 :: p')) 3) eqn:El.
    { exfalso. apply Nat.ltb_lt in El. destruct Ho as [Ho1 Ho2]. unfold blen in Ho1. cbn [length] in *. lia. }
    destruct (managedPolicySet _ _ _ _) as [d1 o]. cbn in *. by subst.
Qed.

(** ** Key rotation *)

(** C20. The identity changes only when the registry has accepted the new key, which was
    signed together with the node number by the old one; then the daemon and the key
    exchange both use it.  Otherwise both keep the old one. *)
Theorem rotation_is_agreed d a d' :
  RotateKey ie genIdentity d = (a, d') →
  match a with
  | inl _ => dident d' = dident d ∧ peerings d' = peerings d
  | inr resp =>
      ∃ cur new, dident d = Some cur ∧ genIdentity (dcalls d) = inr new ∧ dident d' = Some new ∧
        identity (cfg (kx (tun (phost (peerings d'))))) = Some new ∧
        let pub := EncodePublicKey ie (IdPublicKey new) in
        ext ie (dcalls d) (XRotateKey (dnode d) (b64encode ie (Sign cur (rotateMessage (dnode d) pub))) pub) = inr resp
  end.
Proof.
  unfold RotateKey. intros H. destruct (dident d) as [cur|] eqn:Ec; [|injection H as <- <-; by rewrite Ec].
  destruct (regConn _); [|injection H as <- <-; by rewrite Ec].
  destruct (genIdentity (dcalls d)) as [e|new] eqn:Eg; [injection H as <- <-; by rewrite Ec|].
  unfold query, ask, askLog in H. cbv zeta in H.
  match type of H with context [ext ie ?i ?q] => destruct (ext ie i q) eqn:Ex end; injection H as <- <-; [done|].
  exists cur, new. by split_and!.
Qed.

(** A reply that calls an envelope valid: it was fresh and its signature verified
    under the key that the key exchange or the registry holds for the node it names. *)
Theorem valid_envelopes_verify d p d' fields :
  handleVerifyEnvelope ie d p = (d', Replied CmdVerifyEnvelopeOK (BJson (JObj fields))) →
  jfield (JObj fields) (str "valid") = Some (JBool true) →
  ∃ r e pub, decodeVerify ie p = inr r ∧ ParseEnvelope ie (vqEnvelope r) = inr e ∧
    CheckFresh ie e (dnow d) (vqMaxSkew r) = None ∧
    (GetPeerPubKey (kx (tun (phost (peerings d)))) (dnow d) (evNode e)).1 = inl pub ∧
    VerifySig ie pub (vqEnvelope r) (vqSignature r) = None ∧
    jfield (JObj fields) (str "node_id") = Some (JNum (evNode e)).
Proof.
  intros H Hv. unfold handleVerifyEnvelope in H.
  destruct (decodeVerify ie p) as [|r] eqn:Ed; [done|]. destruct (_ || _); [done|].
  destruct (ParseEnvelope ie _) as [|e] eqn:Ep; [by injection H as _ <-|].
  destruct (CheckFresh _ _ _ _) eqn:Ef; [by injection H as _ <-|]. cbv zeta in H.
  destruct (GetPeerPubKey _ _ _) as [pk m] eqn:Eg. destruct pk as [pub|err]; [|by injection H as _ <-].
  destruct (VerifySig _ _ _ _) eqn:Es; [by injection H as _ <-|].
  exists r, e, pub. split_and!; try done; [by rewrite Eg|].
  destruct (dtrusts _ _ _) as [tr d2]. destruct (if vqStanding r then _ else _) as [more d3].
  injection H as _ <-. reflexivity.
Qed.
End Answers.
