(* ===== verification/IpcSession.v ===== *)
(** * Sessions of IPC clients: order, slots, ownership, teardown *)
From stdpp Require Import strings relations.
From S2P Require Import Prelude GoText NetIP Crypto KeyStore Protocol Envelope KeyExchange Routing Tunnel.
From S2P Require Import Admission Conn PortManager Sender Stream Registry RxWatchdog HandshakePoll Resolve PathWatch.
From S2P Require Import Json Managed Networks IpcConn Ipc.
Open Scope Z_scope.

Lemma removeFirst_spec x l :
  match removeFirst x l with
  | Some l' => ∃ l1 l2, l = l1 ++ x :: l2 ∧ l' = l1 ++ l2
  | None => x ∉ l
  end.
Proof.
  induction l as [|y l IH]; cbn; [set_solver|]. destruct (y =? x) eqn:E.
  - apply Z.eqb_eq in E as ->. by exists [], l.
  - apply Z.eqb_neq in E. destruct (removeFirst x l) as [l'|]; cbn.
    + destruct IH as (l1 & l2 & -> & ->). by exists (y :: l1), l2.
    + set_solver.
Qed.

Section Closing.
Context {P : Protocol} {K : Type} {X : Primitives K} (ie : IpcEnv).
Implicit Types d : Desk (K := K) (X := X).

(** ** Ports and connections *)

Lemma closeID_ports d id : listeners (dports (closeID ie d id)) = listeners (dports d).
Proof.
  unfold closeID. case_match; [|done]. destruct (closeArgs ie id) as [[a b] l]. by destruct (CloseConnection _ _ _ _ _).
Qed.
Lemma CloseConnection_state conn now st lk oks : State (CloseConnection conn now st lk oks).1 = StateFinWait.
Proof.
  unfold CloseConnection. destruct (sendHeldTailBeforeClose _ _ _ _) as [c1 o1].
  repeat match goal with |- context [let '(_, _) := ?x in _] => destruct x end. reflexivity.
Qed.
(** Closing by id: that connection, if there is one, waits for the end; the others stay. *)
Lemma closeID_conns d id j :
  match GetConnection (dports (closeID ie d id)) j with
  | Some conn' => is_Some (GetConnection (dports d) j) ∧
      (if j =? id then State conn' = StateFinWait else GetConnection (dports d) j = Some conn')
  | None => GetConnection (dports d) j = None
  end.
Proof.
  unfold closeID. destruct (GetConnection (dports d) id) as [conn|] eqn:E.
  - pose proof (CloseConnection_state conn (dnow d)) as Hst.
    destruct (closeArgs ie id) as [[a b] l]. specialize (Hst a b l). destruct (CloseConnection _ _ _ _ _) as [conn' out].
    unfold GetConnection in *. cbn in Hst |- *. destruct (j =? id) eqn:Ej.
    + apply Z.eqb_eq in Ej as ->. rewrite lookup_insert_eq. by split; [eexists|].
    + apply Z.eqb_neq in Ej. rewrite lookup_insert_ne by done. destruct (connections (dports d) !! j) eqn:Eo; [|done]. by split; [eexists|].
  - destruct (GetConnection (dports d) j) as [c0|] eqn:Ej; [|done]. split; [by eexists|].
    destruct (j =? id) eqn:Eq; [|done]. apply Z.eqb_eq in Eq as ->. congruence.
Qed.

Lemma close_fold l d :
  listeners (dports (fold_left (closeID ie) l d)) = listeners (dports d) ∧
  ∀ j, match GetConnection (dports (fold_left (closeID ie) l d)) j with
       | Some conn' => is_Some (GetConnection (dports d) j) ∧
           (if bool_decide (j ∈ l) then State conn' = StateFinWait else GetConnection (dports d) j = Some conn')
       | None => GetConnection (dports d) j = None
       end.
Proof.
  revert d. induction l as [|i l IH]; intros d; cbn [fold_left].
  { split; [done|]. intros j. destruct (GetConnection (dports d) j) eqn:E; [|done].
    rewrite bool_decide_false by set_solver. by split; [eexists|]. }
  destruct (IH (closeID ie d i)) as [I1 I2]. split; [by rewrite I1, closeID_ports|]. intros j. specialize (I2 j).
  pose proof (closeID_conns d i j) as Hc.
  destruct (GetConnection (dports (fold_left (closeID ie) l (closeID ie d i))) j) as [c2|].
  - destruct I2 as [[c1 H1] H2]. rewrite H1 in Hc. destruct Hc as [Hc1 Hc2]. split; [done|].
    case_bool_decide as Hj; [rewrite bool_decide_true by set_solver; done|].
    rewrite H1 in H2. injection H2 as <-. destruct (j =? i) eqn:Eq.
    + apply Z.eqb_eq in Eq as ->. by rewrite bool_decide_true by set_solver.
    + apply Z.eqb_neq in Eq. by rewrite bool_decide_false by set_solver.
  - by rewrite I2 in Hc.
Qed.

Lemma Unbind_listeners pm p : listeners (Unbind pm p) = delete p (listeners pm) ∧ connections (Unbind pm p) = connections pm.
Proof. unfold Unbind. destruct (listeners pm !! p) eqn:E; [done|]. split; [|done]. by rewrite delete_id. Qed.

Lemma unbind_fold l d :
  connections (dports (fold_left (λ d p, set_dports d (Unbind (dports d) p)) l d)) = connections (dports d) ∧
  ∀ q, listeners (dports (fold_left (λ d p, set_dports d (Unbind (dports d) p)) l d)) !! q =
       if bool_decide (q ∈ l) then None else listeners (dports d) !! q.
Proof.
  revert d. induction l as [|p l IH]; intros d; cbn [fold_left].
  { split; [done|]. intros q. by rewrite bool_decide_false by set_solver. }
  destruct (IH (set_dports d (Unbind (dports d) p))) as [I1 I2]. destruct (Unbind_listeners (dports d) p) as [U1 U2].
  change (dports (set_dports d (Unbind (dports d) p))) with (Unbind (dports d) p) in *.
  split; [by rewrite I1, U2|]. intros q. rewrite I2, U1.
  destruct (decide (q = p)) as [->|Hq].
  - rewrite lookup_delete_eq, (bool_decide_true (p ∈ p :: l)) by set_solver. by case_bool_decide.
  - rewrite lookup_delete_ne by done. by rewrite (bool_decide_ext (q ∈ p :: l) (q ∈ l)) by set_solver.
Qed.

Lemma closeAll_spec d cs ps :
  (∀ q, GetListener (dports (closeAll ie d cs ps)) q = if bool_decide (q ∈ ps) then None else GetListener (dports d) q) ∧
  (∀ j, match GetConnection (dports (closeAll ie d cs ps)) j with
        | Some conn' => is_Some (GetConnection (dports d) j) ∧
            (if bool_decide (j ∈ cs) then State conn' = StateFinWait else GetConnection (dports d) j = Some conn')
        | None => GetConnection (dports d) j = None
        end).
Proof.
  unfold closeAll, GetListener. cbv zeta. destruct (close_fold cs d) as [H1 H2].
  destruct (unbind_fold ps (fold_left (closeID ie) cs d)) as [U1 U2]. split.
  - intros q. by rewrite U2, H1.
  - intros j. specialize (H2 j). unfold GetConnection in *. by rewrite U1.
Qed.

End Closing.

Section Teardown.
Context {P : Protocol} {K : Type} {X : Primitives K} (ie : IpcEnv).
Implicit Types d : Desk (K := K) (X := X).
Implicit Types s : Session (K := K) (X := X).

(** ** The end of a session *)

(** The cleanup, with the accept goroutines running on. *)
Inductive teardown : Session * Cleanup → Session * Cleanup → Prop :=
| tdStep s k s' k' : teardownStep ie s k = Some (s', k') → teardown (s, k) (s', k')
| tdAccept s k ln s' : acceptStep s ln = Some s' → teardown (s, k) (s', k).

(** From [d0] to [d], the connections [cs] have been closed and no other was touched. *)
Definition closedConns d0 d (cs : list Z) : Prop := ∀ j,
  match GetConnection (dports d) j with
  | Some conn' => is_Some (GetConnection (dports d0) j) ∧
      (if bool_decide (j ∈ cs) then State conn' = StateFinWait else GetConnection (dports d0) j = Some conn')
  | None => GetConnection (dports d0) j = None
  end.
Definition freedPorts d0 d (ps : list Z) : Prop :=
  ∀ q, GetListener (dports d) q = if bool_decide (q ∈ ps) then None else GetListener (dports d0) q.


(** Only the tables count. *)
Lemma closed_freed_tables d0 d d' cs ps :
  connections (dports d') = connections (dports d) → listeners (dports d') = listeners (dports d) →
  closedConns d0 d cs ∧ freedPorts d0 d ps → closedConns d0 d' cs ∧ freedPorts d0 d' ps.
Proof. unfold closedConns, freedPorts, GetConnection, GetListener. intros -> ->. done. Qed.




(** The cleanup comes to its end. *)
Lemma cleaning_ends cs ps s : ∃ s', rtc teardown (s, Cleaning cs ps) (s', CleanedUp) ∧ clClosed (sclient s') = true.
Proof.
  revert s. induction cs as [|id cs IH]; intros s.
  - revert s. induction ps as [|q ps IH]; intros s.
    + eexists. split; [apply rtc_once; by apply tdStep|]. cbn. unfold clientClose. by case_match.
    + edestruct IH as (s' & H1 & H2). exists s'. split; [|done]. eapply rtc_l; [by apply tdStep|exact H1].
  - edestruct IH as (s' & H1 & H2). exists s'. split; [|done]. eapply rtc_l; [by apply tdStep|exact H1].
Qed.

End Teardown.

Section Session.
Context {P : Protocol} {W : PacketCodec} {K : Type} {C : Cipher K} {X : Primitives K} {A : AddrCodec}.
Context (env : RegEnv) (renv : ResolveEnv) (ie : IpcEnv) (ProtoDatagram : Z) (IsBroadcast : Addr → bool)
  (genIdentity : nat → bytes + Identity (Primitives := X)).
Implicit Types d : Desk (K := K) (X := X).
Context (dialConn : Desk (K := K) (X := X) → Addr → Z → Desk (K := K) (X := X) * (bytes + Z)) (meanwhile : Client → Client) (late : bool).

Abbreviation read := (readStep env renv ie ProtoDatagram IsBroadcast).
Abbreviation run := (taskStep env renv ie ProtoDatagram IsBroadcast genIdentity dialConn meanwhile late).
Implicit Types s : Session (K := K) (X := X).

(** ** Inline commands *)

(** The write a data message causes, if its connection exists. *)
Definition sendOf d (payload : bytes) : option (Z * bytes) :=
  if Nat.ltb (length payload) 4 then None
  else match GetConnection (dports d) (Uint32 payload) with
       | Some _ => Some (Uint32 payload, drop 4 payload)
       | None => None
       end.
Fixpoint readAll s (msgs : list bytes) : option Session :=
  match msgs with
  | [] => Some s
  | m :: msgs => match read s (Some m) with Some s => readAll s msgs | None => None end
  end.

(** Data messages are never held up by running requests, and what they write to the
    streams is in the order in which the client sent them. *)
Theorem sends_stay_in_order s payloads :
  reading s = true →
  ∃ s', readAll s ((λ p, CmdSend :: p) <$> payloads) = Some s' ∧
    streamWrites (sdesk s') = streamWrites (sdesk s) ++ omap (sendOf (sdesk s)) payloads ∧
    tasks s' = tasks s ∧ answers s' = answers s ∧ sclient s' = sclient s.
Proof.
  revert s. induction payloads as [|p payloads IH]; intros s Hr.
  { exists s. cbn. by rewrite app_nil_r. }
  cbn [fmap list_fmap readAll]. unfold readStep. rewrite Hr. cbn [negb].
  change (CmdSend =? CmdCancel) with false. change (CmdSend =? CmdSend) with true. cbv iota.
  set (s1 := inline s _).
  assert (streamWrites (sdesk s1) = streamWrites (sdesk s) ++ omap (sendOf (sdesk s)) [p] ∧
          dports (sdesk s1) = dports (sdesk s) ∧ reading s1 = true ∧ tasks s1 = tasks s ∧ answers s1 = answers s) as (H1 & H2 & H3 & H4 & H5).
  { unfold s1, inline, handleSend, sendOf. cbn [omap list_omap]. destruct (Nat.ltb _ _); [cbn; by rewrite app_nil_r|].
    destruct (GetConnection _ _); cbn; by rewrite ?app_nil_r. }
  destruct (IH s1 H3) as (s' & I1 & I2 & I3 & I4 & I5). exists s'. split; [exact I1|].
  split_and!; [|congruence..|done]. rewrite I2, H1, <-app_assoc. f_equal.
  change (omap (sendOf (sdesk s)) (p :: payloads)) with (omap (sendOf (sdesk s)) ([p] ++ payloads)).
  rewrite omap_app. f_equal. clear -H2.
  assert (∀ q, sendOf (sdesk s1) q = sendOf (sdesk s) q) as Hq by (intros; unfold sendOf; by rewrite H2).
  induction payloads as [|q l IH]; cbn; [done|]. rewrite Hq. case_match; [f_equal|]; apply IH.
Qed.

(** A health request is answered at once, however many requests are running. *)
Theorem health_never_waits s :
  reading s = true →
  ∃ s' k b, read s (Some [CmdHealth]) = Some s' ∧ answers s' = answers s ++ [(k, b)] ∧ (k = CmdError ∨ k = CmdHealthOK) ∧
    tasks s' = tasks s.
Proof.
  intros Hr. unfold readStep. rewrite Hr. cbn [negb]. change (CmdHealth =? CmdCancel) with false.
  change (CmdHealth =? CmdSend) with false. change (CmdHealth =? CmdSendTo) with false.
  change (CmdHealth =? CmdSendToConfirm) with false. change (CmdHealth =? CmdHealth) with true. cbv iota.
  unfold inline, handleHealth. destruct (healthReport ie _); eexists _, _, _; (split_and!; [done|done|by (left + right)|done]).
Qed.

(** ** Slots *)

Inductive sessionStep : Session → Session → Prop :=
| stepRead s m s' : read s m = Some s' → sessionStep s s'
| stepTask s i s' : run s i = Some s' → sessionStep s s'
| stepAccept s ln s' : acceptStep s ln = Some s' → sessionStep s s'.

Lemma sessionStep_tasks s s' :
  sessionStep s s' → (length (tasks s) <= ipcMaxInflightPerClient)%nat → (length (tasks s') <= ipcMaxInflightPerClient)%nat.
Proof.
  intros [s1 m s1' H|s1 i s1' H|s1 ln s1' H] Hl.
  - unfold readStep in H. destruct (reading s1); [|done]. cbn [negb] in H. destruct m as [[|cmd p]|]; [by simplify_eq| |by simplify_eq].
    repeat (case_match; [simplify_eq; done|]). destruct (Nat.ltb _ _) eqn:E.
    + simplify_eq. cbn. rewrite length_app. cbn. apply Nat.ltb_lt in E. lia.
    + case_match; [by simplify_eq|done].
  - unfold taskStep in H. destruct (tasks s1 !! i) as [[cmd p]|] eqn:E; [|done].
    destruct (dispatch _ _ _ _ _ _ _ _ _ _ _ _ _) as [[d c] o]. simplify_eq. cbn.
    rewrite length_delete by eauto. lia.
  - unfold acceptStep in H. destruct (lnHeap _ !! ln) as [l|]; [|done]. destruct (AcceptCh l); [done|]. by simplify_eq.
Qed.

(** A client never has more than 1024 requests running. *)
Theorem slots_are_bounded d pid wl s :
  rtc sessionStep (newSession d pid wl) s → (length (tasks s) <= ipcMaxInflightPerClient)%nat.
Proof.
  intros H. remember (newSession d pid wl) as s0 eqn:E0.
  assert (length (tasks s0) <= ipcMaxInflightPerClient)%nat as H0 by (subst; cbn; lia). clear E0.
  induction H as [|s1 s2 s3 H1 _ IH]; [done|]. by apply IH, (sessionStep_tasks s1).
Qed.

(** Once reading has ended, the running requests finish and the cleanup runs. *)
Theorem session_ends s :
  reading s = false → ∃ s1 s2, rtc sessionStep s s1 ∧ rtc (teardown ie) (s1, CleanupWaits) (s2, CleanedUp) ∧ clClosed (sclient s2) = true.
Proof.
  remember (length (tasks s)) as n eqn:Hn. revert s Hn. induction n as [|n IH]; intros s Hn Hr.
  - destruct (tasks s) eqn:Et; [|done]. destruct (cleaning_ends ie (icConns (sclient s)) (icPorts (sclient s)) s) as (s2 & H1 & H2).
    exists s, s2. split; [done|]. split; [|done]. eapply rtc_l; [|exact H1]. apply tdStep. cbn. by rewrite Hr, Et.
  - destruct (tasks s) as [|[cmd p] ts] eqn:Et; [done|].
    destruct (dispatch env renv ie ProtoDatagram IsBroadcast genIdentity dialConn meanwhile late (sdesk s) (sclient s) cmd p)
      as [[d c] o] eqn:Ed.
    destruct (IH (mkSession d c ts (reply o (answers s)) (reading s))) as (s1 & s2 & H1 & H2 & H3); [cbn in *; lia|done|].
    exists s1, s2. split; [|done]. eapply rtc_l; [|exact H1]. apply (stepTask s 0). unfold taskStep. rewrite Et.
    change (((cmd, p) :: ts) !! 0%nat) with (Some (cmd, p)). cbv beta iota. by rewrite Ed.
Qed.
End Session.

(** ** One owner per port *)

Section Owners.
Context {P : Protocol} {K : Type} {X : Primitives K} (ie : IpcEnv).
Implicit Types d : Desk (K := K) (X := X).
Implicit Types cs : gmap nat Client.

(** Clients bind, unbind, come and go; the daemon's own services bind ports too; all
    other operations leave the listeners and the clients' port lists alone. *)
Inductive portStep : Desk * gmap nat Client → Desk * gmap nat Client → Prop :=
| portBind d cs k c payload d' c' o :
    cs !! k = Some c → handleBind d c payload = (d', c', o) → portStep (d, cs) (d', <[k := c']> cs)
| portUnbind d cs k c payload d' c' o :
    cs !! k = Some c → handleUnbind d c payload = (d', c', o) → portStep (d, cs) (d', <[k := c']> cs)
| portTeardown d cs k c :
    cs !! k = Some c → portStep (d, cs) (closeAll ie d (icConns c) (icPorts c), delete k cs)
| portAccept d cs k pid wl :
    cs !! k = None → portStep (d, cs) (d, <[k := newIPCConn pid wl]> cs)
| portService d cs p :
    portStep (d, cs) (set_dports d (Bind (dports d) p).2, cs)
| portOther d cs k c d' c' :
    cs !! k = Some c → listeners (dports d') = listeners (dports d) → icPorts c' = icPorts c →
    portStep (d, cs) (d', <[k := c']> cs).

Record owners_ok (st : Desk * gmap nat Client) : Prop := {
  ow_bound : ∀ k c p, st.2 !! k = Some c → p ∈ icPorts c → is_Some (GetListener (dports st.1) p);
  ow_nodup : ∀ k c, st.2 !! k = Some c → NoDup (icPorts c);
  ow_one : ∀ k j c e p, k ≠ j → st.2 !! k = Some c → st.2 !! j = Some e → p ∈ icPorts c → p ∉ icPorts e;
}.

(** A client's list changes to [ports], listeners to [ls]. *)
Lemma owners_update d cs k c d' c' :
  owners_ok (d, cs) → cs !! k = Some c → NoDup (icPorts c') →
  (∀ p, p ∈ icPorts c' → is_Some (GetListener (dports d') p) ∧ (p ∈ icPorts c ∨ GetListener (dports d) p = None)) →
  (∀ j e p, j ≠ k → cs !! j = Some e → p ∈ icPorts e → is_Some (GetListener (dports d') p)) →
  owners_ok (d', <[k := c']> cs).
Proof.
  intros [B N O] Hk Hn Hp Hothers. cbn in *.
  assert (∀ j e p, j ≠ k → cs !! j = Some e → p ∈ icPorts e → p ∉ icPorts c') as Hdis.
  { intros j e p Hj He Hpe Hpc. destruct (Hp p Hpc) as [_ [H|H]]; [by apply (O k j c e p)|].
    destruct (B j e p He Hpe). congruence. }
  split; cbn.
  - intros j e p. destruct (decide (j = k)) as [->|Hj].
    + rewrite lookup_insert_eq. intros [= <-] H. by apply Hp.
    + rewrite lookup_insert_ne by done. by apply Hothers.
  - intros j e. destruct (decide (j = k)) as [->|Hj].
    + by rewrite lookup_insert_eq; intros [= <-].
    + rewrite lookup_insert_ne by done. apply N.
  - intros i j ci cj p Hij Hi Hj Hpi Hpj.
    destruct (decide (i = k)) as [->|Hik], (decide (j = k)) as [->|Hjk]; [done| | |].
    + rewrite lookup_insert_eq in Hi. rewrite lookup_insert_ne in Hj by done. injection Hi as <-. by eapply (Hdis j).
    + rewrite lookup_insert_eq in Hj. rewrite lookup_insert_ne in Hi by done. injection Hj as <-. by eapply (Hdis i).
    + rewrite lookup_insert_ne in Hi, Hj by done. by apply (O i j ci cj p).
Qed.

Lemma owners_bind d cs k c p d' c' o :
  owners_ok (d, cs) → cs !! k = Some c → handleBind d c p = (d', c', o) → owners_ok (d', <[k := c']> cs).
Proof.
  intros Hok Hk H. pose proof Hok as [B N O]. cbn in *. unfold handleBind in H. destruct (Nat.ltb _ _).
  { simplify_eq. by rewrite insert_id. }
  unfold Bind in H. destruct (listeners (dports d) !! Uint16 p) as [a|] eqn:El.
  { simplify_eq. by rewrite insert_id. }
  simplify_eq. eapply (owners_update d cs k c); [done..| | |]; unfold GetListener; cbn.
  - apply NoDup_app. split_and!; [by eapply N| |apply NoDup_singleton].
    intros q Hq ->%list_elem_of_singleton. destruct (B k c _ Hk Hq) as [a Ha]. unfold GetListener in Ha. congruence.
  - intros q [Hq| ->%list_elem_of_singleton]%elem_of_app; [|rewrite lookup_insert_eq; split; [eauto|by right]].
    split; [|by left]. destruct (decide (q = Uint16 p)) as [->|Hne]; [rewrite lookup_insert_eq; eauto|].
    rewrite lookup_insert_ne by done. by eapply (B k c).
  - intros j e q _ He Hq. destruct (decide (q = Uint16 p)) as [->|Hne]; [rewrite lookup_insert_eq; eauto|].
    rewrite lookup_insert_ne by done. by eapply (B j e).
Qed.

Lemma owners_unbind d cs k c p d' c' o :
  owners_ok (d, cs) → cs !! k = Some c → handleUnbind d c p = (d', c', o) → owners_ok (d', <[k := c']> cs).
Proof.
  intros Hok Hk H. pose proof Hok as [B N O]. cbn in *. unfold handleUnbind in H. destruct (negb _).
  { simplify_eq. by rewrite insert_id. }
  unfold removePort in H. pose proof (removeFirst_spec (Uint16 p) (icPorts c)) as Hr.
  destruct (removeFirst _ _) as [ports|]; cbn [negb] in H; simplify_eq; [|by rewrite insert_id].
  destruct Hr as (l1 & l2 & Hc & ->). pose proof (N k c Hk) as Hn. rewrite Hc in Hn.
  apply NoDup_app in Hn as (Hn1 & Hn2 & Hn3). apply NoDup_cons in Hn3 as [Hn3 Hn4].
  destruct (Unbind_listeners (dports d) (Uint16 p)) as [U _].
  eapply (owners_update d cs k c); [done..| | |]; unfold GetListener; cbn.
  - apply NoDup_app. split_and!; [done| |done]. intros q Hq1 Hq2. apply (Hn2 q Hq1). by apply elem_of_cons; right.
  - intros q Hq. assert (q ≠ Uint16 p) as Hne by (intros ->; apply elem_of_app in Hq as [Hq|Hq]; [apply (Hn2 _ Hq)|]; set_solver).
    rewrite U, lookup_delete_ne by done. assert (q ∈ icPorts c) as Hqc by (rewrite Hc; set_solver).
    split; [by eapply (B k c)|by left].
  - intros j e q Hj He Hq. rewrite U. rewrite lookup_delete_ne; [by eapply (B j e)|].
    intros <-. apply (O j k e c (Uint16 p) Hj He Hk Hq). rewrite Hc. set_solver.
Qed.

Lemma owners_accept d cs k pid wl : owners_ok (d, cs) → cs !! k = None → owners_ok (d, <[k := newIPCConn pid wl]> cs).
Proof.
  intros [B N O] Hk. cbn in *.
  assert (∀ j e, (<[k := newIPCConn pid wl]> cs) !! j = Some e → icPorts e = [] ∨ cs !! j = Some e) as Hl.
  { intros j e. destruct (decide (j = k)) as [->|Hj]; [rewrite lookup_insert_eq; intros [= <-]; by left|].
    rewrite lookup_insert_ne by done. by right. }
  split; cbn.
  - intros j e q He Hq. destruct (Hl j e He) as [Hn|?]; [by rewrite Hn in Hq; apply elem_of_nil in Hq|by eapply B].
  - intros j e He. destruct (Hl j e He) as [->|?]; [constructor|by eapply N].
  - intros i j ci cj q Hij Hi Hj Hq. destruct (Hl i ci Hi) as [Hn|Hi']; [by rewrite Hn in Hq; apply elem_of_nil in Hq|].
    destruct (Hl j cj Hj) as [->|Hj']; [apply not_elem_of_nil|by apply (O i j ci cj q)].
Qed.

Lemma owners_step st st' : portStep st st' → owners_ok st → owners_ok st'.
Proof.
  intros Hs Hok. destruct Hs as [d cs k c p d' c' o Hk H|d cs k c p d' c' o Hk H|d cs k c Hk|d cs k pid wl Hk|d cs p|d cs k c d' c' Hk Hl Hp];
    [by eapply owners_bind|by eapply owners_unbind| |by apply owners_accept| |]; pose proof Hok as [B N O]; cbn in *.
  - destruct (closeAll_spec ie d (icConns c) (icPorts c)) as [HL _]. split; cbn.
    + intros j e q [Hj He]%lookup_delete_Some Hq. rewrite HL, bool_decide_false; [by eapply B|].
      intros Hqc. by apply (O k j c e q).
    + intros j e [_ He]%lookup_delete_Some. by eapply N.
    + intros i j ci cj q Hij [_ Hi]%lookup_delete_Some [_ Hj]%lookup_delete_Some. by apply (O i j ci cj q).
  - split; cbn; [|done..]. intros j e q He Hq. pose proof (B j e q He Hq) as [a Ha]. unfold GetListener, Bind in *.
    destruct (listeners (dports d) !! p) eqn:Ep; cbn; [eauto|].
    destruct (decide (q = p)) as [->|]; [rewrite lookup_insert_eq; eauto|]. rewrite lookup_insert_ne by done. eauto.
  - eapply (owners_update d cs k c); [done..| | |]; unfold GetListener; rewrite ?Hp, ?Hl.
    + by eapply N.
    + intros q Hq. split; [by eapply (B k c)|by left].
    + intros j e q _ He Hq. by eapply (B j e).
Qed.

(** C24. However clients come, bind, unbind and go: a port a client holds is bound, it
    holds it once, and no other client holds it, so nobody else's request or end
    frees it. *)
Theorem ports_have_one_owner d st :
  rtc portStep (d, ∅) st → owners_ok st.
Proof.
  intros H. remember (d, ∅) as st0 eqn:E.
  assert (owners_ok st0) as H0 by (subst; split; cbn; intros; simplify_map_eq).
  clear E. induction H as [|s1 s2 s3 H1 _ IH]; [done|]. by apply IH, (owners_step s1).
Qed.
End Owners.
