(* ===== verification/IpcWitnesses.v ===== *)
(** * The IPC server on concrete requests

    A daemon with two connections and its clients; the theorems of [IpcConnProofs],
    [IpcProofs] and [IpcSession] at concrete inputs. *)
From stdpp Require Import strings relations.
From S2P Require Import Prelude GoText NetIP Crypto KeyStore Protocol Envelope KeyExchange Routing Tunnel TunnelTheorems.
From S2P Require Import Admission Conn PortManager Sender Stream Registry RegistryProofs RxWatchdog HandshakePoll Resolve ResolveProofs PathWatch.
From S2P Require Import Json Managed Networks NetworksProofs IpcConn IpcConnProofs Ipc IpcProofs IpcSession.
Open Scope Z_scope.

Module IpcDemo.
#[local] Existing Instance documented_protocol.
#[local] Existing Instance toy_cipher.
#[local] Existing Instance Demo.list_codec.
#[local] Existing Instance Demo.one_key.

#[local] Instance six_bytes : AddrCodec.
Proof.
  refine {| AddrSize := 6; UnmarshalAddr := λ b, mkAddr (Uint16 b) (Uint32 (drop 2 b));
            MarshalAddr := λ a, PutUint16 (Network a) ++ PutUint32 (Node a) |}.
  intros a. reflexivity.
Defined.

(** The registry accepts what it is asked; JSON requests are read as fixed values. *)
Definition yes : Ask := λ _ _, inr (JObj [(str "status", JStr (str "ok"))]).
Definition envelope9 : SigEnvelope := mkSigEnvelope 0 9 1000 (str "n") (str "h") (str "aud").
Definition ie0 : IpcEnv :=
  mkIpcEnv yes 1048576 (λ _, inr [str "tag"]) (λ _, inr (str "badge", str "bsig"))
    (λ _, inr (mkSignRequest (str "aud") (str "h") [] (str "n")))
    (λ _, inr (mkVerifyRequest (str "env") (str "sig") 0 false))
    id inr id id (λ _, inr (str "nonce"))
    (λ e, inr (FormatInt (evNode e) ++ [58] ++ evAudience e)) (λ _, inr envelope9) (λ _ _ _, None) (λ _ _ _, None)
    inr (λ _, None) (λ _, str "refused") (λ _, str "no key") (λ n k, FormatInt n ++ [58] ++ FormatInt k)
    (λ _, NodesErr) true false [] (λ _, []) (λ _, []) (λ _, (false, true, []))
    (λ _, inr JNull) (λ _, inr (JObj [(str "status", JStr (str "ok"))]))
    (λ _, mkCycleRun [] (λ _, None) 0 0 id) (λ _, false) 0.

Definition conn (id : Z) : Connection := set_State (newConn id 49152 (mkAddr 0 9) 80 RegDemo.t0) StateEstablished.
Definition pm0 : PortManager := with_conns NewPortManager {[1 := conn 1; 2 := conn 2]}.
Definition desk0 : Desk (X := Demo.one_key) :=
  mkDesk (set_ports FindDemo.peering0 pm0) RegDemo.rcfg (str "secret") (Some tt) NetworksDemo.s0 true newHandshakePollSched
    ∅ ∅ None [] [] [] RegDemo.t0.
Definition gen : nat → bytes + Identity (Primitives := Demo.one_key) := λ _, inr tt.
Definition dial0 : Desk (X := Demo.one_key) → Addr → Z → Desk (X := Demo.one_key) * (bytes + Z) := λ d _ _, (d, inr 2).

(** *** Replies *)

Definition row (n : nat) : bytes := replicate n 120.
Lemma cut_reply_fits_witness :
  marshalRowsWithinBudget [123] [125] [row 3; row 3; row 3] 12 = frame [123] [125] [row 3; row 3] ∧
  ∃ n, marshalRowsWithinBudget [123] [125] [row 3; row 3; row 3] 12 = frame [123] [125] (take n [row 3; row 3; row 3]) ∧
    blen (frame [123] [125] (take n [row 3; row 3; row 3])) <= 12 ∧
    ((n < 3)%nat → 12 < blen (frame [123] [125] (take (S n) [row 3; row 3; row 3]))).
Proof.
  split; [reflexivity|]. apply (cut_reply_fits [123] [125] [row 3; row 3; row 3] 12). by vm_compute.
Defined.

Definition req (cmd : Z) (p : bytes) :=
  dispatch RegDemo.renv FindDemo.rsv ie0 3 (λ _, false) gen dial0 id false desk0 (newIPCConn 5 false) cmd p.

Lemma requests_are_answered_witness :
  (req CmdClose [0; 0; 0; 1]).2 = Replied CmdCloseOK (BBytes [0; 0; 0; 1]) ∧
  outcomeOK id (newIPCConn 5 false) CmdClose [0; 0; 0; 1] (req CmdClose [0; 0; 0; 1]).2.
Proof.
  split; [vm_compute; reflexivity|]. unfold req.
  refine (requests_are_answered RegDemo.renv FindDemo.rsv ie0 3 (λ _, false) gen dial0 id false
           desk0 (newIPCConn 5 false) CmdClose [0; 0; 0; 1] _).
  unfold bytes_ok, is_u8. repeat constructor; lia.
Defined.

Lemma signs_only_own_messages_witness :
  signed (req CmdSubmitBadge []).1.1 = [str "submit_badge:1001:badge"] ∧
  signsOwn ie0 desk0 (req CmdSubmitBadge []).1.1.
Proof.
  split; [vm_compute; reflexivity|]. unfold req.
  refine (signs_only_own_messages RegDemo.renv FindDemo.rsv ie0 3 (λ _, false) gen dial0 id false
           desk0 (newIPCConn 5 false) CmdSubmitBadge [] _ _); [constructor|discriminate].
Defined.

(** A broadcast with a token of 65530 bytes. *)
Definition longToken : bytes := [0; 5; 0; 80; 255; 250] ++ replicate (Z.to_nat 65530) 97.
Lemma longToken_ok : bytes_ok longToken.
Proof. apply Forall_app. split; [unfold is_u8; repeat constructor; lia|]. apply Forall_replicate. unfold is_u8. lia. Qed.
Lemma long_tokens_panic_witness :
  handleBroadcast RegDemo.renv FindDemo.rsv ie0 3 desk0 longToken = (desk0, Panicked).
Proof.
  apply (proj1 (long_tokens_panic RegDemo.renv FindDemo.rsv ie0 3 desk0 longToken longToken_ok)).
  unfold overflows, longToken. rewrite blen_app. unfold blen. rewrite length_replicate. vm_compute. by split.
Defined.

Lemma rotation_is_agreed_witness :
  dident (RotateKey ie0 gen desk0).2 = Some tt ∧
  identity (cfg (kx (tun (phost (peerings (RotateKey ie0 gen desk0).2))))) = Some tt.
Proof.
  destruct (RotateKey ie0 gen desk0) as [a d'] eqn:E.
  assert (∃ r, a = inr r) as [r ->].
  { assert ((RotateKey ie0 gen desk0).1 = a) as <- by (rewrite E; reflexivity).
    exists (JObj [(str "status", JStr (str "ok"))]). vm_compute. reflexivity. }
  destruct (rotation_is_agreed ie0 gen desk0 _ _ E) as (cur & new & H1 & H2 & H3 & H4 & _).
  destruct new. split; [exact H3|exact H4].
Defined.

Definition known9 : Desk :=
  let p := peerings desk0 in let t := tun (phost p) in
  set_peerings desk0 (set_ptun p (set_kx t (with_keys (kx t) (mkKeyCache {[9 := Some (str "key9")]} ∅)))).
Lemma valid_envelopes_verify_witness :
  ∃ fields, (handleVerifyEnvelope ie0 known9 []).2 = Replied CmdVerifyEnvelopeOK (BJson (JObj fields)) ∧
    jfield (JObj fields) (str "node_id") = Some (JNum 9).
Proof.
  destruct (handleVerifyEnvelope ie0 known9 []) as [d' o] eqn:E.
  assert (∃ fields, o = Replied CmdVerifyEnvelopeOK (BJson (JObj fields)) ∧ jfield (JObj fields) (str "valid") = Some (JBool true))
    as (fields & -> & Hv).
  { assert ((handleVerifyEnvelope ie0 known9 []).2 = o) as <- by (rewrite E; reflexivity).
    eexists. split; [vm_compute; reflexivity|reflexivity]. }
  exists fields. split; [reflexivity|].
  destruct (valid_envelopes_verify ie0 known9 [] d' fields E Hv) as (r & e & pub & H1 & H2 & _ & _ & _ & H6).
  injection H1 as <-. injection H2 as <-. exact H6.
Defined.

(** *** Sessions *)

Definition s0 : Session := newSession desk0 5 false.
Lemma sends_stay_in_order_witness :
  omap (sendOf desk0) [[0; 0; 0; 1; 104]; [0; 0; 0; 7; 9]; [0; 0; 0; 2; 105]] = [(1, [104]); (2, [105])] ∧
  ∃ s', readAll RegDemo.renv FindDemo.rsv ie0 3 (λ _, false) s0
          ((λ p, CmdSend :: p) <$> [[0; 0; 0; 1; 104]; [0; 0; 0; 7; 9]; [0; 0; 0; 2; 105]]) = Some s' ∧
    streamWrites (sdesk s') =
      streamWrites (sdesk s0) ++ omap (sendOf (sdesk s0)) [[0; 0; 0; 1; 104]; [0; 0; 0; 7; 9]; [0; 0; 0; 2; 105]] ∧
    tasks s' = tasks s0 ∧ answers s' = answers s0 ∧ sclient s' = sclient s0.
Proof.
  split; [vm_compute; reflexivity|].
  apply (sends_stay_in_order RegDemo.renv FindDemo.rsv ie0 3 (λ _, false) s0). reflexivity.
Defined.

(** All 1024 slots are taken. *)
Definition full : Session := mkSession desk0 (newIPCConn 5 false) (replicate 1024 (CmdDial, [])) [] true.
Lemma health_never_waits_witness :
  readStep RegDemo.renv FindDemo.rsv ie0 3 (λ _, false) full (Some [CmdInfo]) = None ∧
  ∃ s' k b, readStep RegDemo.renv FindDemo.rsv ie0 3 (λ _, false) full (Some [CmdHealth]) = Some s' ∧
    answers s' = answers full ++ [(k, b)] ∧ (k = CmdError ∨ k = CmdHealthOK) ∧ tasks s' = tasks full.
Proof.
  split; [vm_compute; reflexivity|].
  apply (health_never_waits RegDemo.renv FindDemo.rsv ie0 3 (λ _, false) full). reflexivity.
Defined.

Definition s1 : Session := mkSession desk0 (newIPCConn 5 false) [(CmdInfo, [])] [] true.
Lemma slots_are_bounded_witness : (length (tasks s1) <= ipcMaxInflightPerClient)%nat.
Proof.
  apply (slots_are_bounded RegDemo.renv FindDemo.rsv ie0 3 (λ _, false) gen dial0 id false desk0 5 false s1).
  eapply rtc_l; [|apply rtc_refl]. apply (stepRead _ _ _ _ _ _ _ _ _ s0 (Some [CmdInfo])). reflexivity.
Defined.

Definition ending : Session := mkSession desk0 (newIPCConn 5 false) [(CmdInfo, []); (CmdClose, [])] [] false.
Lemma session_ends_witness :
  ∃ s1 s2, rtc (sessionStep RegDemo.renv FindDemo.rsv ie0 3 (λ _, false) gen dial0 id false) ending s1 ∧
    rtc (teardown ie0) (s1, CleanupWaits) (s2, CleanedUp) ∧ clClosed (sclient s2) = true.
Proof. apply (session_ends RegDemo.renv FindDemo.rsv ie0 3 (λ _, false) gen dial0 id false ending). reflexivity. Defined.

(** The client bound port 80 and dialled connection 1; connection 2 is queued for the port. *)
Definition owner : Client := trackConn (trackPort (newIPCConn 5 false) 80) 1.
Definition port80 : nat := default 0%nat (Bind pm0 80).1.
Definition leaving : Session := mkSession (set_dports desk0 (TrySend (Bind pm0 80).2 port80 2).2) owner [] [] false.

(** The steps of a cleanup; [true] is a turn of the accept goroutine. *)
Fixpoint cleanup (turns : list bool) (st : Session * Cleanup) : option (Session * Cleanup) :=
  match turns with
  | [] => Some st
  | true :: turns => match acceptStep st.1 port80 with Some s => cleanup turns (s, st.2) | None => None end
  | false :: turns => match teardownStep ie0 st.1 st.2 with Some st => cleanup turns st | None => None end
  end.
(** The connection comes before the copy of the lists, or after it. *)
Definition early : list bool := [true; false; false; false; false; false].
Definition lateTurns : list bool := [false; true; false; false; false].


(** Handed over before the copy it is closed; after the copy it stays established, in the
    list of a client that is gone. *)
Example early_accept_is_closed :
  (λ st, State <$> GetConnection (dports (sdesk st.1)) 2) <$> cleanup early (leaving, CleanupWaits) = Some (Some StateFinWait).
Proof. vm_compute. reflexivity. Qed.
Example late_accept_stays_open :
  (λ st, (State <$> GetConnection (dports (sdesk st.1)) 2, icConns (sclient st.1), clClosed (sclient st.1), st.2)) <$>
    cleanup lateTurns (leaving, CleanupWaits) = Some (Some StateEstablished, [1; 2], true, CleanedUp).
Proof. vm_compute. reflexivity. Qed.

Definition afterBind : Desk * gmap nat Client :=
  (set_dports desk0 (Bind pm0 80).2, <[0%nat := trackPort (newIPCConn 5 false) 80]> (<[0%nat := newIPCConn 5 false]> ∅)).
Lemma ports_have_one_owner_witness : owners_ok afterBind.
Proof.
  apply (ports_have_one_owner ie0 desk0 afterBind).
  eapply rtc_l; [apply (portAccept ie0 desk0 ∅ 0 5 false); reflexivity|].
  eapply rtc_l; [|apply rtc_refl].
  eapply (portBind ie0 desk0 _ 0 (newIPCConn 5 false) [0; 80]); [reflexivity|vm_compute; reflexivity].
Defined.

(** *** The pipe *)

Definition wrote1 : System := mkSystem (mkPipe [] false WriterRuns [[7]] []) {[0%nat := ([7], Returned false)]} [[7]].
Lemma client_messages_in_order_witness : wire (pipe wrote1) `prefix_of` accepted wrote1.
Proof.
  apply (client_messages_in_order wrote1).
  eapply rtc_l; [apply (S_call system0 0 [7]); reflexivity|].
  eapply rtc_l; [eapply (S_write _ 0 [7] AtDone AtWriteDone); [reflexivity|apply list_elem_of_here]|].
  eapply rtc_l; [eapply (S_write _ 0 [7] AtWriteDone AtTry); [reflexivity|apply list_elem_of_here]|].
  eapply rtc_l; [eapply (S_write _ 0 [7] AtTry (Returned false)); [reflexivity|apply list_elem_of_here]|].
  eapply rtc_l; [eapply (S_loop _ true); apply list_elem_of_here|]. apply rtc_refl.
Defined.

Lemma no_write_hangs_witness : ipcWriteStep (pipeClose newPipe) [7] AtBlock ≠ [].
Proof.
  destruct (no_write_hangs (pipeClose newPipe) [7] AtBlock (or_introl eq_refl)) as [H|[H|[H _]]];
    [discriminate H|discriminate H|exact H].
Defined.

(** *** A name of our own *)

(** A name that resolves to this node is not cached, but its node is looked up all the
    same. *)
Definition ownName : Ask := λ _ _, inr (JObj [(str "node_id", JNum 1001)]).
Definition ie1 : IpcEnv :=
  mkIpcEnv ownName (MaxMessageSize ie0) (decodeTags ie0) (decodePair ie0) (decodeSign ie0) (decodeVerify ie0) (b64encode ie0)
    (b64decode ie0) (EncodePublicKey ie0) (HashBody ie0) (NewNonce ie0) (Canonical ie0) (ParseEnvelope ie0) (CheckFresh ie0)
    (VerifySig ie0) (ParseEnrollment ie0) (ValidateWebhookURL ie0) (datagramErr ie0) (kxErr ie0) (addrText ie0) (listNodes ie0)
    (broadcastConsent ie0) (stoppedHs ie0) (hsOrder ie0) (hsPending ie0) (hsTrusted ie0) (closeArgs ie0) (infoReport ie0)
    (healthReport ie0) (cycleRun ie0) (cycleTimedOut ie0) (rangeFirst ie0).
Theorem own_name_is_prewarmed :
  let d' := (handleResolveHostname FindDemo.rsv ie1 desk0 (str "me")).1 in
  hostnameCache (peerings d') = ∅ ∧ resolves (peerings desk0) = 0%nat ∧ resolves (peerings d') = 1%nat ∧
  is_Some (resolveCache (peerings d') !! 1001).
Proof. vm_compute. split_and!; [reflexivity..|]. by eexists. Qed.

(** *** The connection quota *)

(** Connections a client accepts are tracked without a look at the quota. *)
Theorem accepted_connections_pass_the_quota c port k :
  whitelisted c = false → connCount c = MaxConnsPerIPCClient →
  dialQuota c = true ∧ connCount (acceptPush c port k).1 = S MaxConnsPerIPCClient.
Proof.
  intros Hw Hc. unfold dialQuota, acceptPush, connCount, trackConn in *. cbn [fst set_lists icConns].
  rewrite length_app, Hc, Hw, Nat.leb_refl. split; [reflexivity|]. cbn [length]. lia.
Qed.
End IpcDemo.
