(* ===== verification/LogCap.v ===== *)
(** * Capping the daemon's log (internal/logcap)

    The daemon rotates its own log: it copies the log, truncates it through its own
    descriptor, and compresses the copy into the first of a numbered row of
    generations.  Every system call can fail, and the process can die at any of them.

    [M] is a state monad over the file system [FS] that can stop for good.  The n-th
    system call is decided by [verdict n] of the [Kernel]: it works, it fails, or the
    process dies there.  [grows n] is what the writers of the log append before that
    call, [junk n] what an interrupted copy leaves.  A file is named by its directory,
    absolute and clean, and its name in it; an open file is its inode.  Directories do
    not change during a rotation and are described by the kernel.  Other processes
    appear by the locks they hold ([lockAns]).  Log output is not represented. *)
From stdpp Require Import strings.
From S2P Require Import Prelude GoText Json.
Open Scope Z_scope.

(** ** Files and system calls *)

Abbreviation fpath := (list bytes * bytes)%type (only parsing).

Inductive Kind := Regular | Irregular | SubDirectory.
#[export] Instance Kind_eq_dec : EqDecision Kind.
Proof. solve_decision. Defined.

(** [uid] is [None] where the platform reports no owner. *)
Record Inode := mkInode { kind : Kind; uid : option Z; text : bytes }.

Record FS := mkFS { names : gmap (list bytes * bytes) nat; inodes : gmap nat Inode; fresh : nat; calls : nat }.

Inductive SysErr := ENOENT | EOTHER.
Inductive Verdict := Works | Fails | Dies.
Inductive Call := CStat | COpen | CCreate | CRemove | CRename | CCopy | CSeek | CTruncate | CReadDir.
Inductive LockAns := Locked | LockBusy | LockUnsupported.

(** Lstat of a directory's name. *)
Record DirInfo := mkDirInfo { isDir : bool; perm : Z; dirUid : option Z; dirGid : option Z }.

Record Kernel := mkKernel {
  verdict : nat → Call → Verdict;
  junk : nat → bytes;
  grows : nat → bytes;
  lockAns : nat → nat → LockAns;
  statDir : list bytes → option (nat * bool);   (* Stat: identity and IsDir *)
  lstatDir : list bytes → option DirInfo;
  accessACL : list bytes → option bool;
  passwd : option bytes;
  groupDB : option bytes;
  euid : Z;
  logFd : nat;                                  (* the inode the daemon writes *)
  fdPath : option (list bytes * bytes)
}.

Definition M (A : Type) : Type := FS → option A * FS.
#[export] Instance M_ret : MRet M := λ _ a s, (Some a, s).
#[export] Instance M_bind : MBind M := λ _ _ k m s,
  match m s with (Some a, s1) => k a s1 | (None, s1) => (None, s1) end.

Inductive LErr :=
| ESys (e : SysErr)
| EForeign                      (* not a regular file owned by this user *)
| EBusy
| EDir                          (* checkDir refuses the directory *)
| EReplaced
| ENoPath
| EOutOfScope
| ETruncate (e : SysErr) (undoFailed : bool).

(** The [if err != nil { return ..., err }] of the source. *)
Definition orFail {E A B} (m : M (E + A)) (k : A → M (E + B)) : M (E + B) :=
  r ← m; match r with inl e => mret (inl e) | inr a => k a end.
Definition sysFail {A} (m : M (SysErr + A)) : M (LErr + A) :=
  r ← m; mret (match r with inl e => inl (ESys e) | inr a => inr a end).
Notation "x ←? m ; k" := (orFail m (λ x, k)) (at level 100, m at next level, k at level 200, right associativity).

Section LogCap.
Context (K : Kernel) (gzip : bytes → bytes).

(** Other writers of the log between two calls. *)
Definition append (s : FS) (b : bytes) : FS :=
  mkFS (names s) (alter (λ n, mkInode (kind n) (uid n) (text n ++ b)) (logFd K) (inodes s)) (fresh s) (calls s).
Definition enter (s : FS) : FS :=
  let s1 := append s (grows K (calls s)) in mkFS (names s1) (inodes s1) (fresh s1) (S (calls s1)).

Definition sys {A} (c : Call) (f : FS → (SysErr + A) * FS) : M (SysErr + A) := λ s,
  let s1 := enter s in
  match verdict K (calls s) c with
  | Works => let '(r, s2) := f s1 in (Some r, s2)
  | Fails => (Some (inl EOTHER), s1)
  | Dies => (None, s1)
  end.

Definition set_names (s : FS) (m : gmap (list bytes * bytes) nat) : FS := mkFS m (inodes s) (fresh s) (calls s).
Definition set_text (s : FS) (i : nat) (b : bytes) : FS :=
  mkFS (names s) (alter (λ n, mkInode (kind n) (uid n) b) i (inodes s)) (fresh s) (calls s).
Definition textOf (s : FS) (i : nat) : bytes := match inodes s !! i with Some n => text n | None => [] end.

(** A name and what it refers to. *)
Definition at_name (s : FS) (p : fpath) : option (nat * Inode) :=
  i ← names s !! p; n ← inodes s !! i; Some (i, n).

Definition Lstat (p : fpath) : M (SysErr + (nat * Inode)) :=
  sys CStat (λ s, (match at_name s p with Some x => inr x | None => inl ENOENT end, s)).
Definition Fstat (i : nat) : M (SysErr + Inode) :=
  sys CStat (λ s, (match inodes s !! i with Some n => inr n | None => inl EOTHER end, s)).

(** os.OpenFile(p, O_RDONLY|O_NOFOLLOW): a link is not followed. *)
Definition OpenRead (p : fpath) : M (SysErr + nat) :=
  sys COpen (λ s, (match at_name s p with
    | None => inl ENOENT
    | Some (i, n) => if bool_decide (kind n = Irregular) then inl EOTHER else inr i end, s)).

(** os.OpenFile(p, O_WRONLY|O_CREATE|O_EXCL|O_NOFOLLOW, 0600) *)
Definition OpenExcl (p : fpath) : M (SysErr + nat) :=
  sys CCreate (λ s, match names s !! p with
    | Some _ => (inl EOTHER, s)
    | None => (inr (fresh s), mkFS (<[p := fresh s]> (names s))
        (<[fresh s := mkInode Regular (Some (euid K)) []]> (inodes s)) (S (fresh s)) (calls s)) end).

(** os.Remove.  A directory with something in it stays. *)
Definition holdsNames (s : FS) (p : fpath) : bool :=
  existsb (λ q, bool_decide (take (S (length p.1)) q.1.1 = p.1 ++ [p.2])) (map_to_list (names s)).
Definition Remove (p : fpath) : M (SysErr + unit) :=
  sys CRemove (λ s, match at_name s p with
    | None => (inl ENOENT, s)
    | Some (_, n) => if bool_decide (kind n = SubDirectory) && holdsNames s p then (inl EOTHER, s)
                     else (inr tt, set_names s (delete p (names s))) end).

(** os.Rename of a file.  Two names of one file stay as they are; a directory is not
    replaced. *)
Definition Rename (a b : fpath) : M (SysErr + unit) :=
  sys CRename (λ s, match at_name s a with
    | None => (inl ENOENT, s)
    | Some (i, n) =>
      if bool_decide (kind n = SubDirectory) then (inl EOTHER, s)
      else match at_name s b with
      | Some (j, n') => if (i =? j)%nat then (inr tt, s)
                        else if bool_decide (kind n' = SubDirectory) then (inl EOTHER, s)
                        else (inr tt, set_names s (<[b := i]> (delete a (names s))))
      | None => (inr tt, set_names s (<[b := i]> (delete a (names s)))) end end).

(** io.Copy of one open file to another, with closing the target; [f] is what the
    writer in front of the target does to the bytes. *)
Definition CopyFile (f : bytes → bytes) (src dst : nat) : M (SysErr + unit) := λ s,
  let s1 := enter s in
  match verdict K (calls s) CCopy with
  | Works => (Some (inr tt), set_text s1 dst (f (textOf s1 src)))
  | Fails => (Some (inl EOTHER), set_text s1 dst (junk K (calls s)))
  | Dies => (None, set_text s1 dst (junk K (calls s)))
  end.

(** flock on an open file. *)
Definition tryLock (i : nat) : M LockAns := λ s, let s1 := enter s in (Some (lockAns K (calls s) i), s1).

(** os.ReadDir: the names in a directory, sorted. *)
Definition ReadDir (dir : list bytes) : M (SysErr + list bytes) :=
  sys CReadDir (λ s, (inr (sortKeys ((λ q, (q.1.2, [])) <$> filter (λ q, q.1.1 = dir) (map_to_list (names s)))).*1, s)).

(** ** The user's own group (group.go, group_linux.go) *)

Fixpoint dbLines (n : nat) (lines : list bytes) : option (list (list bytes)) :=
  match lines with
  | [] => Some []
  | line0 :: rest =>
    let line := TrimSpace line0 in
    if bool_decide (line = []) || HasPrefix line (str "#") then dbLines n rest
    else if HasPrefix line (str "+") || HasPrefix line (str "-") then None
    else let f := SplitByte 58 line in
         if (length f =? n)%nat then r ← dbLines n rest; Some (f :: r) else None
  end.
Definition dbEntries (data : bytes) (n : nat) : option (list (list bytes)) := dbLines n (SplitByte 10 data).

(** The loop over the accounts; the result is the name found, [None] a [return false]. *)
Fixpoint scanUsers (u0 gid : Z) (name : bytes) (users : list (list bytes)) : option bytes :=
  match users with
  | [] => Some name
  | f :: rest =>
    u ← ParseInt (nth 2 f []); g ← ParseInt (nth 3 f []);
    if (u =? u0) && bool_decide (name = []) then if g =? gid then scanUsers u0 gid (nth 0 f []) rest else None
    else if negb (u =? u0) && (g =? gid) then None
    else scanUsers u0 gid name rest
  end.
Fixpoint scanGroups (gid : Z) (name : bytes) (found : bool) (groups : list (list bytes)) : bool :=
  match groups with
  | [] => found
  | f :: rest =>
    match ParseInt (nth 2 f []) with
    | None => false
    | Some g =>
      if negb (g =? gid) then scanGroups gid name found rest
      else if negb (bool_decide (nth 0 f [] = name)) then false
      else if existsb (λ m, negb (bool_decide (m = [])) && negb (bool_decide (m = name))) (SplitByte 44 (nth 3 f [])) then false
      else scanGroups gid name true rest
    end
  end.
Definition userPrivateGroup (u0 gid : Z) (passwd group : bytes) : bool :=
  match dbEntries passwd 7 with
  | None => false
  | Some users =>
    match scanUsers u0 gid [] users with
    | None | Some [] => false
    | Some name => match dbEntries group 4 with None => false | Some groups => scanGroups gid name false groups end
    end
  end.
Definition privateGroupDir (dir : list bytes) (fi : DirInfo) : bool :=
  match dirGid fi, accessACL K dir, passwd K, groupDB K with
  | Some gid, Some false, Some pw, Some gr => userPrivateGroup (euid K) gid pw gr
  | _, _, _, _ => false
  end.

(** ** Names *)

Definition backupName (p : fpath) (gen : nat) : fpath := (p.1, p.2 ++ str ".pilot." ++ FormatInt (Z.of_nat gen) ++ str ".gz").
Definition stagingSuffix : bytes := str ".pilot.1".
Definition stagingName (p : fpath) : fpath := (p.1, p.2 ++ stagingSuffix).
Definition tmpName (p : fpath) : fpath := (p.1, p.2 ++ str ".tmp").

Definition isDaemonStartLog (name : bytes) : bool :=
  if HasPrefix name (str "pilot-") then
    match CutSuffix (drop 6 name) (str ".log") with
    | None | Some [] => false
    | Some pid => forallb isDigit pid
    end
  else false.

(** ** Files of this user *)

Definition ours (n : Inode) : bool := bool_decide (kind n = Regular) && bool_decide (uid n = Some (euid K)).

Definition lookup (p : fpath) : M (LErr + bool) :=
  r ← Lstat p;
  mret (match r with
  | inl ENOENT => inr false
  | inl e => inl (ESys e)
  | inr (_, n) => if ours n then inr true else inl EForeign end).

Definition openOurs (p : fpath) : M (LErr + nat) :=
  i ←? sysFail (OpenRead p);
  n ←? sysFail (Fstat i);
  mret (if ours n then inr i else inl EForeign).

(** namesFile(path, fi) where fi is the inode [i]. *)
Definition namesFile (p : fpath) (i : nat) : M bool :=
  r ← Lstat p; mret (match r with inr (j, _) => (i =? j)%nat | inl _ => false end).

Definition checkDir (dir : list bytes) : option LErr :=
  match lstatDir K dir with
  | None => Some (ESys EOTHER)
  | Some fi =>
    if negb (isDir fi) then Some EDir
    else if negb (Z.land (perm fi) 2 =? 0) then Some EDir
    else if match dirUid fi with None => true | Some u => negb (u =? euid K) && negb (u =? 0) end then Some EDir
    else if negb (Z.land (perm fi) 16 =? 0) && negb (privateGroupDir dir fi) then Some EDir
    else None
  end.

(** ** Generations *)

(** for gen := 1; gen <= keep+1; gen++ *)
Fixpoint checkSlots (p : fpath) (gens : list nat) : M (LErr + unit) :=
  match gens with
  | [] => mret (inr tt)
  | gen :: rest => _ ←? lookup (backupName p gen); checkSlots p rest
  end.

(** for gen := keep + 1; ; gen++: each turn takes a name away, so the number of names
    is enough fuel. *)
Fixpoint dropBeyond (fuel : nat) (p : fpath) (gen : nat) : M unit :=
  match fuel with
  | O => mret tt
  | S fuel =>
    r ← lookup (backupName p gen);
    match r with
    | inr true => e ← Remove (backupName p gen);
                  match e with inl _ => mret tt | inr _ => dropBeyond fuel p (S gen) end
    | _ => mret tt
    end
  end.

(** for gen := keep; gen >= 1; gen-- *)
Fixpoint shiftUp (p : fpath) (keep gen : nat) (parked : bool) : M (bool * option LErr) :=
  match gen with
  | O => mret (parked, None)
  | S gen' =>
    r ← Rename (backupName p gen) (backupName p (S gen));
    match r with
    | inr _ => shiftUp p keep gen' (parked || (gen =? keep)%nat)
    | inl ENOENT => shiftUp p keep gen' parked
    | inl e => mret (parked, Some (ESys e))
    end
  end.

Definition shiftBackups (p : fpath) (keep : nat) : M (bool * option LErr) :=
  c ← checkSlots p (seq 1 (keep + 1));
  match c with
  | inl e => mret (false, Some e)
  | inr _ => n ← (λ s, (Some (size (names s)), s)); dropBeyond (S n) p (keep + 1) ≫= λ _, shiftUp p keep keep false
  end.

Fixpoint shiftDown (p : fpath) (gens : list nat) : M (option LErr) :=
  match gens with
  | [] => mret None
  | gen :: rest =>
    r ← Rename (backupName p gen) (backupName p (gen - 1));
    match r with
    | inl EOTHER => mret (Some (ESys EOTHER))
    | _ => shiftDown p rest
    end
  end.
Definition unshiftBackups (p : fpath) (keep : nat) (parked : bool) : M (option LErr) :=
  let top := if parked then (keep + 1)%nat else keep in shiftDown p (seq 2 (top - 1)).

Definition dropParked (p : fpath) (keep : nat) (parked : bool) : M unit :=
  if parked then _ ← Remove (backupName p (keep + 1)); mret tt else mret tt.

(** ** The copy *)

Definition removeTmp (p : fpath) (exists_ : bool) : M (LErr + unit) :=
  if exists_ then r ← Remove p; mret (match r with inl EOTHER => inl (ESys EOTHER) | _ => inr tt end) else mret (inr tt).

Definition compress (src dst : fpath) : M (option LErr) :=
  let tmp := tmpName dst in
  r ← (i ←? openOurs src;
       ex ←? lookup tmp;
       _ ←? removeTmp tmp ex;
       o ←? sysFail (OpenExcl tmp);
       w ← (_ ←? sysFail (CopyFile gzip i o); _ ←? lookup dst; sysFail (Rename tmp dst));
       match w with
       | inl e => _ ← Remove tmp; mret (inl e)
       | inr _ => sysFail (Remove src)
       end);
  mret (match r with inl e => Some e | inr _ => None end).

Definition finishStaged (log : fpath) (orphan : bool) : M (option LErr) :=
  let staged := stagingName log in
  ex ← lookup staged;
  match ex with
  | inl e => mret (Some e)
  | inr false => mret None
  | inr true =>
    f ← openOurs staged;
    match f with
    | inl e => mret (Some e)
    | inr i =>
      fi ← Fstat i;
      match fi with
      | inl e => mret (Some (ESys e))
      | inr n =>
        if orphan && (blen (text n) =? 0) then mret None
        else
          l ← tryLock i;
          match l, orphan with
          | LockBusy, _ => mret (Some EBusy)
          | LockUnsupported, true => mret None
          | _, _ =>
            same ← namesFile staged i;
            if same : bool then compress staged (backupName log 1) else mret (Some EBusy)
          end
      end
    end
  end.

Definition holdStaged (dst : fpath) (out : nat) : M (LErr + nat) :=
  held ←? sysFail (OpenRead dst);
  _ ←? sysFail (Fstat out);
  _ ←? sysFail (Fstat held);
  if negb (out =? held)%nat then mret (inl EReplaced)
  else l ← tryLock held;
       match l with
       | LockBusy => mret (inl EBusy)
       | _ => same ← namesFile dst held; mret (if same : bool then inr held else inl EReplaced)
       end.

(** The log [src] copied to a new file at [dst]. *)
Definition createStaged (src : nat) (dst : fpath) : M (LErr + nat) :=
  out ←? sysFail (OpenExcl dst);
  held ←? holdStaged dst out;
  r ← CopyFile id src out;
  match r with
  | inl e => _ ← Remove dst; mret (inl (ESys e))
  | inr _ => mret (inr held)
  end.

(** Held copy, whether a generation is parked, error. *)
Definition stage (src : nat) (p : fpath) (keep : nat) : M (option nat * bool * option LErr) :=
  match checkDir p.1 with
  | Some e => mret (None, false, Some e)
  | None =>
    f ← finishStaged p false;
    match f with
    | Some e => mret (None, false, Some e)
    | None =>
      '(parked, e) ← shiftBackups p keep;
      match e with
      | Some e => _ ← dropParked p keep parked; mret (None, false, Some e)
      | None =>
        h ← createStaged src (stagingName p);
        match h with
        | inl e => _ ← dropParked p keep parked; mret (None, false, Some e)
        | inr held => mret (Some held, parked, None)
        end
      end
    end
  end.

Definition unstage (p : fpath) (keep : nat) (parked : bool) : M (option LErr) :=
  r ← Remove (stagingName p);
  match r with
  | inl EOTHER => _ ← dropParked p keep parked; mret (Some (ESys EOTHER))
  | _ => unshiftBackups p keep parked
  end.

Fixpoint finishEach (dir : list bytes) (own : bytes) (entries : list bytes) : M unit :=
  match entries with
  | [] => mret tt
  | e :: rest =>
    match CutSuffix e stagingSuffix with
    | Some log => if isDaemonStartLog log && negb (bool_decide (e = own))
                  then _ ← finishStaged (dir, log) true; finishEach dir own rest
                  else finishEach dir own rest
    | None => finishEach dir own rest
    end
  end.
Definition finishOrphans (p : fpath) : M unit :=
  r ← ReadDir p.1;
  match r with
  | inl _ => mret tt
  | inr entries => finishEach p.1 (stagingName p).2 entries
  end.

(** ** Rotation *)

Record Rotator := mkRotator {
  maxBytes : Z; maxBackups : nat; anywhere : bool; within : list (list bytes); files : list (list bytes * bytes);
  truncateFailures : Z }.
Record Options := mkOptions {
  oMaxBytes : Z; oMaxBackups : Z; oAnywhere : bool; oWithin : list (list bytes); oFiles : list (list bytes * bytes) }.
Definition NewRotator (o : Options) : Rotator :=
  mkRotator (oMaxBytes o) (Z.to_nat (Z.max 0 (oMaxBackups o))) (oAnywhere o) (oWithin o) (oFiles o) 0.

Definition sameDir (d : nat) (dir : list bytes) : bool :=
  match statDir K dir with Some (i, _) => (i =? d)%nat | None => false end.

Definition isWithinDir (r : Rotator) (dir : list bytes) : bool :=
  match statDir K dir with None => false | Some (d, _) => existsb (sameDir d) (within r) end.

(** The loop of isScopedFile: the first file of that name needs the log's directory. *)
Fixpoint scopedFiles (p : fpath) (fs : list (list bytes * bytes)) : bool :=
  match fs with
  | [] => false
  | f :: rest =>
    if negb (bool_decide (f.2 = p.2)) then scopedFiles p rest
    else match statDir K p.1 with
         | None => false
         | Some (d, _) => if sameDir d f.1 then true else scopedFiles p rest
         end
  end.
Definition isScopedFile (r : Rotator) (p : fpath) : bool := scopedFiles p (files r).

(** The directory, its parent and so on up to the root; the number of parts of the
    directory's path is the number of turns. *)
Fixpoint climb (roots : list nat) (turns : nat) (dir : list bytes) : bool :=
  match statDir K dir with
  | Some (d, _) => existsb (Nat.eqb d) roots
  | None => false
  end || match turns with O => false | S turns => climb roots turns (take (length dir - 1) dir) end.
Definition rootsOf (ds : list (list bytes)) : list nat :=
  omap (λ d, match statDir K d with Some (i, true) => Some i | _ => None end) ds.
Definition inScope (r : Rotator) (p : fpath) : bool :=
  anywhere r || isScopedFile r p ||
  match rootsOf (within r) with [] => false | roots => climb roots (length p.1) p.1 end.

(** The path if it is known, and the log opened by it. *)
Definition openByPath : M (option (list bytes * bytes) * (LErr + nat)) :=
  match fdPath K with
  | None => mret (None, inl ENoPath)
  | Some p =>
    r ← (i ←? sysFail (OpenRead p);
         n ← Fstat i;
         mret (match n with inr _ => if (i =? logFd K)%nat then inr i else inl EReplaced | inl _ => inl EReplaced end));
    mret (Some p, r)
  end.

(** Rewind, then empty the log. *)
Definition truncate : M (SysErr + unit) :=
  _ ←? sys CSeek (λ s, (inr tt, s));
  sys CTruncate (λ s, (inr tt, set_text s (logFd K) [])).

Definition stageIf (keep : nat) (src : nat) (p : fpath) : M (option nat * bool * option LErr) :=
  if (0 <? keep)%nat then stage src p keep else mret (None, false, None).

(** After the truncation: the copy becomes generation 1. *)
Definition settleCopy (r : Rotator) (p : fpath) (staged : option nat) (parked : bool) (backupErr : option LErr) : M (option LErr) :=
  match staged with
  | None => mret backupErr
  | Some _ =>
    _ ← dropParked p (maxBackups r) parked;
    c ← compress (stagingName p) (backupName p 1);
    let e := match c with Some e => Some e | None => backupErr end in
    if isWithinDir r p.1 then _ ← finishOrphans p; mret e else mret e
  end.

Definition rotateAt (r : Rotator) (p : fpath) (staged : option nat) (parked : bool) (backupErr : option LErr) : M (bool * option LErr) :=
  t ← truncate;
  match t with
  | inl e =>
    match staged with
    | None => mret (false, Some (ETruncate e false))
    | Some _ => u ← unstage p (maxBackups r) parked;
                mret (false, Some (ETruncate e (match u with Some _ => true | None => false end)))
    end
  | inr _ => e ← settleCopy r p staged parked backupErr; mret (true, e)
  end.

Definition rotate (r : Rotator) : M (bool * option LErr) :=
  '(path, src) ← openByPath;
  match path, src with
  | Some p, inr i =>
    if negb (inScope r p) then mret (false, Some EOutOfScope)
    else '(staged, parked, e) ← stageIf (maxBackups r) i p; rotateAt r p staged parked e
  | _, inl e => rotateAt r ([], []) None false (Some e)
  | None, inr _ => mret (false, None)   (* openByPath never returns this *)
  end.

Definition Check (r : Rotator) : M (bool * option LErr) :=
  fi ← Fstat (logFd K);
  match fi with
  | inl e => mret (false, Some (ESys e))
  | inr n => if negb (bool_decide (kind n = Regular)) || (blen (text n) <=? maxBytes r) then mret (false, None) else rotate r
  end.

Definition maxRetryDoublings : Z := 6.
Definition retryAfter (interval : duration) (failures : Z) : duration :=
  i64 (Z.shiftl interval (Z.min (Z.max (failures - 1) 0) maxRetryDoublings)).

Definition isTruncate (e : option LErr) : bool := match e with Some (ETruncate _ _) => true | _ => false end.
Definition set_failures (r : Rotator) (n : Z) : Rotator :=
  mkRotator (maxBytes r) (maxBackups r) (anywhere r) (within r) (files r) n.

(** How long to wait, [None] when rotation has stopped for good. *)
Definition logTick (r : Rotator) (interval : duration) : M (option duration * Rotator) :=
  '(rotated, err) ← Check r;
  let r1 := if isTruncate err then r else set_failures r 0 in
  mret (match err with
  | None => (Some interval, r1)
  | Some EOutOfScope => (None, r1)
  | Some (ETruncate _ _) =>
    if rotated : bool then (Some interval, r1)
    else let n := i64 (truncateFailures r1 + 1) in (Some (retryAfter interval n), set_failures r1 n)
  | Some _ => (Some interval, r1)
  end).

(** Whether Watch starts the loop.  [supported] is fdPathSupported. *)
Definition Watch (supported : bool) (o : Options) : M bool :=
  if (oMaxBytes o <=? 0) || negb supported then mret false
  else
    fi ← Fstat (logFd K);
    match fi with
    | inl _ => mret false
    | inr n =>
      if negb (bool_decide (kind n = Regular)) then mret false
      else let r := NewRotator o in
        if anywhere r then mret true
        else match fdPath K with
        | None => mret false
        | Some p => same ← namesFile p (logFd K); mret ((same : bool) && inScope r p)
        end
    end.

End LogCap.
