(* ===== verification/LogCapProofs.v ===== *)
(** * Log rotation: what it touches, and what survives failures and crashes *)
From stdpp Require Import strings.
From S2P Require Import Prelude GoText Json LogCap.
Open Scope Z_scope.

(** ** Names of a log's files are distinct *)

Lemma last_ne {A} (l k : list A) x y : x ≠ y → l ++ [x] ≠ k ++ [y].
Proof. intros Hn E. by apply app_inj_tail in E as [_ ?]. Qed.

Lemma FormatInt_inj a b : is_i64 a → is_i64 b → FormatInt a = FormatInt b → a = b.
Proof. intros Ha Hb E. apply ParseInt_FormatInt in Ha, Hb. rewrite E in Ha. congruence. Qed.

Definition genBound : nat → Prop := λ g, Z.of_nat g < 9223372036854775807.

Lemma backupName_inj p g h : genBound g → genBound h → backupName p g = backupName p h → g = h.
Proof.
  unfold genBound, backupName. intros Hg Hh [= E]. apply app_inv_head in E.
  injection E as E. apply app_inv_tail in E. apply Nat2Z.inj.
  apply FormatInt_inj; [| |done]; unfold is_i64, minDuration, maxDuration; lia.
Qed.

(** Names end differently: a digit, "gz", "tmp". *)
Lemma backup_end p g : ∃ l, backupName p g = (p.1, l ++ [122]).
Proof. exists (p.2 ++ str ".pilot." ++ FormatInt (Z.of_nat g) ++ [46; 103]). unfold backupName. by rewrite <-!app_assoc. Qed.
Lemma staging_end p : ∃ l, stagingName p = (p.1, l ++ [49]).
Proof. exists (p.2 ++ take 7 stagingSuffix). unfold stagingName. by rewrite <-!app_assoc. Qed.
Lemma tmp_end p : ∃ l, tmpName p = (p.1, l ++ [112]).
Proof. exists (p.2 ++ [46; 116; 109]). unfold tmpName. by rewrite <-!app_assoc. Qed.

Ltac ends := intros E;
  repeat match type of E with
  | context [backupName ?p ?g] => let H := fresh in let l := fresh in destruct (backup_end p g) as (l & H); rewrite H in E; clear H
  | context [tmpName ?p] => let H := fresh in let l := fresh in destruct (tmp_end p) as (l & H); rewrite H in E; clear H
  | context [stagingName ?p] => let H := fresh in let l := fresh in destruct (staging_end p) as (l & H); rewrite H in E; clear H
  end;
  apply (f_equal snd) in E; simpl in E; apply app_inj_tail in E as [_ E]; discriminate E.

Lemma backup_staging p g q : backupName p g ≠ stagingName q.
Proof. ends. Qed.
Lemma backup_tmp p g q : backupName p g ≠ tmpName q.
Proof. ends. Qed.
Lemma staging_tmp p q : stagingName p ≠ tmpName q.
Proof. ends. Qed.

(** The names of another log in the directory. *)
Lemma staging_inj d n m : stagingName (d, n) = stagingName (d, m) → n = m.
Proof. intros [= E]. by apply app_inv_tail in E. Qed.
Lemma digits_last f n : (0 < f)%nat → ∃ l d, digits f n [] = l ++ [d].
Proof.
  intros Hf. destruct (digits_cons f n Hf) as (b & l & E & _). rewrite E.
  destruct (exists_last (l := b :: l)) as (l' & x & ->); [done|eauto].
Qed.
Lemma other_backup d n m g : backupName (d, n) 1 = backupName (d, m) g → n = m.
Proof.
  unfold backupName. intros [= E]. simpl in E.
  assert (n ++ str ".pilot" ++ [46; 49] = m ++ str ".pilot" ++ [46] ++ FormatInt (Z.of_nat g)) as E'.
  { change (46 :: 112 :: 105 :: 108 :: 111 :: 116 :: 46 :: ?x) with (str ".pilot" ++ [46] ++ x) in E.
    apply (app_inv_tail (str ".gz")). rewrite <-!app_assoc. exact E. }
  assert (FormatInt (Z.of_nat g) = digits 20 (Z.of_nat g) []) as Ef.
  { unfold FormatInt. case_zif; [lia|done]. }
  rewrite Ef in E'. pose proof (digits_digit 20 (Z.of_nat g)) as Hd.
  destruct (digits_last 20 (Z.of_nat g)) as (l & x & El); [lia|]. rewrite El in *.
  change [46; 49] with ([46] ++ [49]) in E'. rewrite !app_assoc in E'. apply app_inj_tail in E' as [E' _].
  destruct (decide (l = [])) as [->|Hne].
  - rewrite app_nil_r, <-!app_assoc in E'. by apply app_inv_tail in E'.
  - exfalso. destruct (exists_last Hne) as (k & y & ->).
    rewrite !app_assoc in E'. apply app_inj_tail in E' as [_ <-].
    rewrite !Forall_app in Hd. destruct Hd as [[_ Hd] _]. apply Forall_cons in Hd as [Hd _]. done.
Qed.

#[local] Opaque backupName stagingName tmpName.

(** ** A logic for programs that can die at any system call

    [triple I m Q C]: from a state in [I], [m] ends in [Q] or dies in [C]. *)
Definition triple {A} (I : FS → Prop) (m : M A) (Q : A → FS → Prop) (C : FS → Prop) : Prop :=
  ∀ s, I s → match m s with (Some a, s') => Q a s' | (None, s') => C s' end.

Lemma triple_ret {A} (I : FS → Prop) (a : A) (Q : A → FS → Prop) C : (∀ s, I s → Q a s) → triple I (mret a) Q C.
Proof. intros H s Hs. by apply H. Qed.

Lemma triple_bind {A B} I (m : M A) (k : A → M B) R Q C :
  triple I m R C → (∀ a, triple (R a) (k a) Q C) → triple I (m ≫= k) Q C.
Proof.
  intros Hm Hk s Hs. specialize (Hm s Hs). unfold mbind, M_bind.
  destruct (m s) as [[a|] s1]; [|done]. by apply Hk.
Qed.

Lemma triple_conseq {A} (I I' : FS → Prop) (m : M A) (Q Q' : A → FS → Prop) (C C' : FS → Prop) :
  triple I' m Q' C' → (∀ s, I s → I' s) → (∀ a s, Q' a s → Q a s) → (∀ s, C' s → C s) → triple I m Q C.
Proof. intros H HI HQ HC s Hs. specialize (H s (HI s Hs)). destruct (m s) as [[a|] s1]; auto. Qed.

Lemma triple_pre {A} (I I' : FS → Prop) (m : M A) Q C : triple I' m Q C → (∀ s, I s → I' s) → triple I m Q C.
Proof. eauto using triple_conseq. Qed.

Lemma triple_crash {A} (I : FS → Prop) (m : M A) Q (C' C : FS → Prop) : triple I m Q C' → (∀ s, C' s → C s) → triple I m Q C.
Proof. eauto using triple_conseq. Qed.

(** Fallible operations: what holds after an error, and after a success. *)
Definition fpost {E A} (F : FS → Prop) (R : A → FS → Prop) (r : E + A) (s : FS) : Prop :=
  match r with inl _ => F s | inr a => R a s end.

Lemma triple_orFail {E A B} I (m : M (E + A)) (k : A → M (E + B)) F R (Q : E + B → FS → Prop) C :
  triple I m (fpost F R) C → (∀ e s, F s → Q (inl e) s) → (∀ a, triple (R a) (k a) Q C) → triple I (orFail m k) Q C.
Proof. intros Hm He Hk. eapply triple_bind; [exact Hm|]. intros [e|a]; [by apply triple_ret, He|apply Hk]. Qed.

Lemma triple_sysFail {A} I (m : M (SysErr + A)) F (R : A → FS → Prop) C :
  triple I m (fpost F R) C → triple I (sysFail m) (fpost F R) C.
Proof. intros Hm. eapply triple_bind; [exact Hm|]. intros [e|a]; by apply triple_ret. Qed.

(** A fact that does not depend on the state. *)
Lemma triple_pure {A} (P : Prop) (I : FS → Prop) (m : M A) Q C : (P → triple I m Q C) → triple (λ s, P ∧ I s) m Q C.
Proof. intros H s [HP Hs]. by apply H. Qed.

Section Calls.
Context (K : Kernel).

Definition stable (I : FS → Prop) : Prop := ∀ s, I s → I (enter K s).

Lemma names_enter s : names (enter K s) = names s.
Proof. done. Qed.
Lemma fresh_enter s : fresh (enter K s) = fresh s.
Proof. done. Qed.
Lemma inodes_enter s i : i ≠ logFd K → inodes (enter K s) !! i = inodes s !! i.
Proof. intros H. by apply lookup_alter_ne. Qed.

(** The result of an operation on the file system, as its rule states it. *)
Lemma triple_sys {A} I c (f : FS → (SysErr + A) * FS) (Q : SysErr + A → FS → Prop) :
  stable I → (∀ s, I s → Q (inl EOTHER) s) → (∀ s, I s → Q (f s).1 (f s).2) → triple I (sys K c f) Q I.
Proof.
  intros HI Hf Hw s Hs. unfold sys. apply HI in Hs. destruct (verdict K (calls s) c); auto.
  specialize (Hw _ Hs). by destruct (f (enter K s)).
Qed.

Lemma triple_read {A} I c (f : FS → SysErr + A) :
  stable I → triple I (sys K c (λ s, (f s, s))) (λ r s, I s ∧ (r = inl EOTHER ∨ r = f s)) I.
Proof. intros HI. apply triple_sys; auto. Qed.

Lemma triple_Lstat I q : stable I →
  triple I (Lstat K q) (λ r s, I s ∧ match r with inr (i, n) => at_name s q = Some (i, n) | inl ENOENT => at_name s q = None | _ => True end) I.
Proof.
  intros HI. eapply triple_conseq; [by apply triple_read|done| |done].
  intros r s [Hs [->| ->]]; [done|]. split; [done|]. by destruct (at_name s q) as [[??]|].
Qed.

Lemma triple_Fstat I i : stable I → triple I (Fstat K i) (fpost I (λ n s, I s ∧ inodes s !! i = Some n)) I.
Proof. intros HI. apply triple_sys; [done..|]. intros s Hs. unfold fpost. simpl. by destruct (inodes s !! i). Qed.

Lemma triple_lookup I q : stable I →
  triple I (lookup K q) (λ r s, I s ∧ match r with
    | inr true => ∃ i n, at_name s q = Some (i, n) ∧ ours K n = true
    | inr false => at_name s q = None
    | inl _ => True end) I.
Proof.
  intros HI. eapply triple_bind; [by apply triple_Lstat|].
  intros [[]|[i n]]; apply triple_ret; intros s [Hs H]; try done. destruct (ours K n) eqn:E; eauto.
Qed.

Lemma at_name_Some s q i n : at_name s q = Some (i, n) ↔ names s !! q = Some i ∧ inodes s !! i = Some n.
Proof.
  unfold at_name. destruct (names s !! q) as [j|]; simpl; [|naive_solver].
  destruct (inodes s !! j) eqn:E; simpl; naive_solver.
Qed.

Lemma stable_and (I J : FS → Prop) : stable I → stable J → stable (λ s, I s ∧ J s).
Proof. intros H1 H2 s [? ?]. auto. Qed.
Lemma stable_names (N : gmap (list bytes * bytes) nat → Prop) : stable (λ s, N (names s)).
Proof. by intros s. Qed.

Lemma triple_OpenRead I q : stable I → triple I (OpenRead K q) (fpost I (λ i s, I s ∧ names s !! q = Some i)) I.
Proof.
  intros HI. apply triple_sys; [done..|]. intros s Hs. unfold fpost. simpl.
  destruct (at_name s q) as [[j n]|] eqn:E; [|done]. apply at_name_Some in E as [? _]. by case_bool_decide.
Qed.

Lemma triple_openOurs I q : stable I →
  triple I (openOurs K q) (fpost I (λ i s, I s ∧ names s !! q = Some i ∧ ∃ n, inodes s !! i = Some n ∧ ours K n = true)) I.
Proof.
  intros HI. unfold openOurs. eapply triple_orFail; [by apply triple_sysFail, triple_OpenRead|done|].
  intros i. apply (triple_crash _ _ _ (λ s, I s ∧ names s !! q = Some i)); [|by intros s [? _]].
  eapply (triple_orFail _ _ _ (λ s, I s ∧ names s !! q = Some i)).
  - apply triple_sysFail, triple_Fstat. apply stable_and; [done|]. apply (stable_names (λ m, m !! q = Some i)).
  - by intros e s [? ?].
  - intros n. apply triple_ret. intros s [[Hs Hn] Hi]. destruct (ours K n) eqn:E; simpl; eauto 6.
Qed.

Definition created (q : list bytes * bytes) (s : FS) : FS :=
  mkFS (<[q := fresh s]> (names s)) (<[fresh s := mkInode Regular (Some (euid K)) []]> (inodes s)) (S (fresh s)) (calls s).

(** What is left after trying to move or remove the file at [q]. *)
Definition moved (q : list bytes * bytes) (I J : FS → Prop) (r : SysErr + unit) (s : FS) : Prop :=
  match r with inr _ => J s | inl ENOENT => I s ∧ at_name s q = None | inl EOTHER => I s end.

Lemma triple_Remove I (J : FS → Prop) q : stable I →
  (∀ s, I s → J (set_names s (delete q (names s)))) → triple I (Remove K q) (moved q I J) I.
Proof.
  intros HI HJ. apply triple_sys; [done..|]. intros s Hs. unfold moved.
  destruct (at_name s q) as [[i n]|] eqn:E; [|done].
  destruct (bool_decide (kind n = SubDirectory) && holdsNames s q); [done|by apply HJ].
Qed.

Lemma triple_Rename I (J : FS → Prop) a b : stable I →
  (∀ s i, I s → names s !! a = Some i → J (set_names s (<[b := i]> (delete a (names s))))) →
  (∀ s i, I s → names s !! a = Some i → names s !! b = Some i → J s) →
  triple I (Rename K a b) (moved a I J) I.
Proof.
  intros HI HJ Hsame. apply triple_sys; [done..|]. intros s Hs. unfold moved.
  destruct (at_name s a) as [[i n]|] eqn:E; [|done]. apply at_name_Some in E as [E _].
  case_bool_decide; [done|]. destruct (at_name s b) as [[j n']|] eqn:E'; [|by simpl; apply HJ].
  apply at_name_Some in E' as [E' _]. destruct (i =? j)%nat eqn:Eij.
  - apply Nat.eqb_eq in Eij as ->. by eapply Hsame.
  - case_bool_decide; [done|]. by apply HJ.
Qed.

Lemma triple_OpenExcl I (J : nat → FS → Prop) q : stable I →
  (∀ s, I s → names s !! q = None → J (fresh s) (created q s)) → triple I (OpenExcl K q) (fpost I J) I.
Proof.
  intros HI HJ. apply triple_sys; [done..|]. intros s Hs. unfold fpost. destruct (names s !! q) eqn:E; [done|]. by apply HJ.
Qed.

Lemma triple_CopyFile I (J0 J : FS → Prop) f src dst : stable I →
  (∀ s b, I s → J0 (set_text s dst b)) → (∀ s, I s → J (set_text s dst (f (textOf s src)))) →
  triple I (CopyFile K f src dst) (fpost J0 (λ _, J)) J0.
Proof. intros HI H0 HJ s Hs. apply HI in Hs. unfold CopyFile. destruct (verdict K (calls s) CCopy); simpl; auto. Qed.

Lemma triple_tryLock I i : stable I → triple I (tryLock K i) (λ _, I) I.
Proof. intros HI s Hs. by apply HI. Qed.
Lemma triple_namesFile I q i : stable I → triple I (namesFile K q i) (λ _, I) I.
Proof.
  intros HI. eapply triple_bind; [by apply triple_Lstat|]. intros r. apply triple_ret. by intros s [? _].
Qed.
Lemma triple_ReadDir I d : stable I → triple I (ReadDir K d) (λ _, I) I.
Proof. intros HI. eapply triple_conseq; [by apply triple_read|done|by intros ?? [? _]|done]. Qed.

Lemma triple_truncate I (J : FS → Prop) : stable I →
  (∀ s, I s → J (set_text s (logFd K) [])) → triple I (truncate K) (fpost I (λ _, J)) I.
Proof.
  intros HI HJ. eapply (triple_orFail _ _ _ I (λ _, I)); [by apply triple_sys|done|].
  intros _. apply triple_sys; auto.
Qed.

Lemma triple_dropParked I (J : FS → Prop) p keep parked : stable I → (∀ s, I s → J s) →
  (parked = true → ∀ s, I s → J (set_names s (delete (backupName p (keep + 1)) (names s)))) →
  triple I (dropParked K p keep parked) (λ _, J) J.
Proof.
  intros HI H1 HJ. unfold dropParked. destruct parked; [|by apply triple_ret].
  apply (triple_crash _ _ _ I); [|done].
  eapply triple_bind; [by apply (triple_Remove _ J); auto|]. intros r. apply triple_ret. intros s.
  unfold moved. destruct r as [[]|]; [intros [? _]| |]; auto.
Qed.

Lemma triple_holdStaged I dst o : stable I → triple I (holdStaged K dst o) (fpost I (λ _, I)) I.
Proof.
  intros HS. unfold holdStaged.
  eapply triple_orFail; [by apply triple_sysFail, triple_OpenRead|done|]. intros held.
  eapply triple_orFail; [eapply triple_pre; [by apply triple_sysFail, triple_Fstat|by intros s [? _]]|done|]. intros n1.
  eapply triple_orFail; [eapply triple_pre; [by apply triple_sysFail, triple_Fstat|by intros s [? _]]|done|]. intros n2.
  destruct (negb (o =? held)%nat); [by apply triple_ret; intros s [? _]|].
  eapply triple_bind; [eapply triple_pre; [by apply triple_tryLock|by intros s [? _]]|]. intros l.
  assert (triple I (same ← namesFile K dst held; mret (if same : bool then inr held else inl EReplaced))
    (fpost I (λ _, I)) I) as Hn.
  { eapply triple_bind; [by apply triple_namesFile|]. intros []; by apply triple_ret. }
  destruct l; [done|by apply triple_ret|done].
Qed.

(** ** What a program changes

    [Frame X s0 s]: from [s0] to [s] only names in [X] changed, and only ones that were
    free or held files of this user; files that existed before kept their content, the
    log apart. *)
Definition oursAt (s : FS) (q : list bytes * bytes) : Prop :=
  ∀ i n, names s !! q = Some i → inodes s !! i = Some n → ours K n = true.

Record wf (s : FS) : Prop := {
  wf_names q i : names s !! q = Some i → (i < fresh s)%nat ∧ is_Some (inodes s !! i);
  wf_inj q q' i : names s !! q = Some i → names s !! q' = Some i → q = q';
  wf_log : (logFd K < fresh s)%nat }.

Lemma at_name_None s q : wf s → at_name s q = None → names s !! q = None.
Proof.
  intros Hw Hn. destruct (names s !! q) as [i|] eqn:E; [|done].
  destruct (wf_names _ Hw _ _ E) as [_ [n Hx]].
  assert (at_name s q = Some (i, n)) by (by apply at_name_Some). congruence.
Qed.

Definition sameMeta (n n' : option Inode) : Prop :=
  (λ x, (kind x, uid x)) <$> n = (λ x, (kind x, uid x)) <$> n'.

Record Frame (X : list bytes * bytes → Prop) (s0 s : FS) : Prop := {
  fr_wf : wf s;
  fr_fresh : (fresh s0 <= fresh s)%nat;
  fr_meta i : (i < fresh s0)%nat → sameMeta (inodes s !! i) (inodes s0 !! i);
  fr_text i : (i < fresh s0)%nat → i ≠ logFd K → inodes s !! i = inodes s0 !! i;
  fr_names q : names s !! q = names s0 !! q ∨ (X q ∧ oursAt s0 q ∧ oursAt s q) }.

Lemma sameMeta_ours n n' x x' : sameMeta n n' → n = Some x → n' = Some x' → ours K x = ours K x'.
Proof. intros H -> ->. unfold sameMeta in H. simpl in H. injection H as H1 H2. unfold ours. by rewrite H1, H2. Qed.

Lemma oursAt_frame X s0 s q : wf s0 → Frame X s0 s → (oursAt s0 q ↔ oursAt s q).
Proof.
  intros Hw HF. destruct (fr_names _ _ _ HF q) as [E|(_ & H1 & H2)]; [|done].
  unfold oursAt. rewrite E. split; intros H i n Hi Hn; pose proof Hi as Hi'; apply (wf_names _ Hw) in Hi' as [Hlt [x Hx]].
  - pose proof (fr_meta _ _ _ HF i Hlt) as Hm. rewrite (sameMeta_ours _ _ _ _ Hm Hn Hx). eauto.
  - pose proof (fr_meta _ _ _ HF i Hlt) as Hm. rewrite Hx in Hm. unfold sameMeta in Hm. simpl in Hm.
    destruct (inodes s !! i) as [y|] eqn:Ey; [|done]. assert (x = n) as -> by congruence.
    rewrite <-(sameMeta_ours (Some y) (Some n) y n Hm eq_refl eq_refl). eauto.
Qed.

Lemma frame_refl X s : wf s → Frame X s s.
Proof. intros Hw. split; auto; intros; done. Qed.

Lemma frame_trans X s0 s1 s2 : wf s0 → Frame X s0 s1 → Frame X s1 s2 → Frame X s0 s2.
Proof.
  intros Hw H1 H2. pose proof (fr_fresh _ _ _ H1). pose proof (fr_fresh _ _ _ H2). split.
  - by apply (fr_wf _ _ _ H2).
  - lia.
  - intros i Hi. unfold sameMeta. etrans; [apply (fr_meta _ _ _ H2); lia|by apply (fr_meta _ _ _ H1)].
  - intros i Hi Hl. rewrite (fr_text _ _ _ H2), (fr_text _ _ _ H1) by (done || lia). done.
  - intros q. destruct (fr_names _ _ _ H2 q) as [E|(Hx & Ho & Ho')].
    + rewrite E. destruct (fr_names _ _ _ H1 q) as [E1|(Hx & Ho & Ho')]; [by left|]. right. split_and!; [done..|].
      by apply (oursAt_frame _ _ _ _ (fr_wf _ _ _ H1) H2).
    + right. split_and!; [done| |done]. by apply (oursAt_frame _ _ _ _ Hw H1).
Qed.

Lemma frame_mono (X Y : list bytes * bytes → Prop) s0 s : (∀ q, X q → Y q) → Frame X s0 s → Frame Y s0 s.
Proof. intros HXY H. split; try apply H. intros q. destruct (fr_names _ _ _ H q) as [?|(?&?&?)]; auto. Qed.

(** Steps inside a frame. *)
Section Steps.
Context (X : list bytes * bytes → Prop) (s0 : FS) (Hw0 : wf s0).
Local Abbreviation J := (Frame X s0).

Lemma frame_step s s' : Frame X s s' → J s → J s'.
Proof. intros H1 H2. by eapply frame_trans. Qed.

Lemma frame_stable : stable J.
Proof.
  intros s HJ. apply (frame_step s); [|done]. destruct (fr_wf _ _ _ HJ) as [Hn Hi Hl]. split; [split| | | |]; simpl; auto.
  - intros q i Hq. destruct (Hn q i Hq) as [? [n Hx]]. split; [done|]. apply lookup_alter_is_Some. eauto.
  - intros i _. unfold sameMeta. destruct (decide (i = logFd K)) as [->|Hne].
    + rewrite lookup_alter_eq. by destruct (inodes s !! logFd K).
    + by rewrite lookup_alter_ne.
  - intros i _ Hne. by rewrite lookup_alter_ne.
Qed.

Lemma frame_set_text s i b : (fresh s0 ≤ i)%nat ∨ i = logFd K → J s → J (set_text s i b).
Proof.
  intros Hi [[Hn Hj Hl] Hf Hm Ht Hq]. split; simpl; auto.
  - split; simpl; auto. intros q j E. destruct (Hn q j E) as [? [n Hx]]. split; [done|]. apply lookup_alter_is_Some. eauto.
  - intros j Hlt. etrans; [|by apply Hm]. destruct (decide (i = j)) as [->|Hne].
    + rewrite lookup_alter_eq. by destruct (inodes s !! j).
    + by rewrite lookup_alter_ne.
  - intros j Hlt Hne. rewrite lookup_alter_ne; [by apply Ht|]. intros ->. destruct Hi; [lia|done].
  - intros q. destruct (Hq q) as [?|(? & ? & Ho)]; [by left|]. right. split_and!; [done..|].
    intros j n Ej En. simpl in *. destruct (decide (i = j)) as [->|Hne].
    + rewrite lookup_alter_eq in En. destruct (inodes s !! j) as [x|] eqn:Ex; simplify_eq/=.
      by apply (Ho j x).
    + rewrite lookup_alter_ne in En by done. eauto.
Qed.

Lemma frame_delete s q : X q → oursAt s0 q → J s → J (set_names s (delete q (names s))).
Proof.
  intros HX Ho HJ. pose proof (proj1 (oursAt_frame _ _ _ _ Hw0 HJ) Ho) as Hos.
  apply (frame_step s); [|done]. destruct (fr_wf _ _ _ HJ) as [Hn Hi Hl].
  split; [split| | | |]; simpl; auto; try done.
  - intros q' i [_ E]%lookup_delete_Some. eauto.
  - intros q1 q2 i [_ E1]%lookup_delete_Some [_ E2]%lookup_delete_Some. eauto.
  - intros q'. destruct (decide (q' = q)) as [->|Hne]; [|left; by apply lookup_delete_ne].
    right. split_and!; [done..|]. intros i n E. simpl in E. by rewrite lookup_delete_eq in E.
Qed.

Lemma frame_rename s a b i : X a → X b → oursAt s0 a → oursAt s0 b → names s !! a = Some i → J s →
  J (set_names s (<[b := i]> (delete a (names s)))).
Proof.
  intros HXa HXb Ha Hb E HJ.
  pose proof (proj1 (oursAt_frame _ _ _ _ Hw0 HJ) Ha) as Hoa. pose proof (proj1 (oursAt_frame _ _ _ _ Hw0 HJ) Hb) as Hob.
  apply (frame_step s); [|done]. destruct (fr_wf _ _ _ HJ) as [Hn Hi Hl].
  split; [split| | | |]; simpl; auto; try done.
  - intros q' j [[_ ->]|[_ [_ ?]%lookup_delete_Some]]%lookup_insert_Some; eauto.
  - intros q1 q2 j [[<- ->]|[H1 [Hd1 E1]%lookup_delete_Some]]%lookup_insert_Some
      [[<- E2']|[H2 [Hd2 E2]%lookup_delete_Some]]%lookup_insert_Some; simplify_eq; try done.
    + by destruct Hd2; apply (Hi _ _ _ E E2).
    + by destruct Hd1; apply (Hi _ _ _ E E1).
    + by apply (Hi _ _ j).
  - intros q'. destruct (decide (q' = b)) as [->|Hb'].
    + right. split_and!; [done..|]. intros j n Ej. simpl in Ej. rewrite lookup_insert_eq in Ej. simplify_eq. by apply Hoa.
    + destruct (decide (q' = a)) as [->|Ha']; [|left; by rewrite lookup_insert_ne, lookup_delete_ne by done].
      right. split_and!; [done..|]. intros j n Ej. simpl in Ej.
      by rewrite lookup_insert_ne, lookup_delete_eq in Ej by done.
Qed.

Lemma frame_created s q : X q → names s !! q = None → J s → oursAt s0 q ∧ J (created q s).
Proof.
  intros HX E HJ. assert (oursAt s0 q) as Ho.
  { apply (oursAt_frame _ _ _ _ Hw0 HJ). intros i n Hi. congruence. }
  split; [done|]. pose proof (proj1 (oursAt_frame _ _ _ _ Hw0 HJ) Ho) as Hos.
  apply (frame_step s); [|done]. destruct (fr_wf _ _ _ HJ) as [Hn Hi Hl].
  assert (∀ i, (i < fresh s)%nat → inodes (created q s) !! i = inodes s !! i) as Hin.
  { intros i Hlt. simpl. rewrite lookup_insert_ne by lia. done. }
  split; [split| | | |]; simpl; try lia.
  - intros q' i [[<- <-]|[_ E']]%lookup_insert_Some.
    + split; [lia|]. rewrite lookup_insert_eq. eauto.
    + destruct (Hn _ _ E') as [Hlt Hx]. split; [lia|]. by rewrite lookup_insert_ne by lia.
  - intros q1 q2 i [[<- <-]|[H1 E1]]%lookup_insert_Some [[<- E2]|[H2 E2]]%lookup_insert_Some; try done.
    + apply Hn in E2 as [? _]. lia.
    + apply Hn in E1 as [? _]. lia.
    + by apply (Hi _ _ i).
  - intros i Hlt. rewrite <-(Hin i Hlt). done.
  - intros i Hlt _. by rewrite <-(Hin i Hlt).
  - intros q'. destruct (decide (q' = q)) as [->|Hne]; [|left; by rewrite lookup_insert_ne by done].
    right. split_and!; [done..|]. intros i n Ei En. simpl in *. rewrite lookup_insert_eq in Ei. simplify_eq.
    rewrite lookup_insert_eq in En. simplify_eq. unfold ours. simpl.
    by rewrite !bool_decide_eq_true_2 by done.
Qed.
End Steps.

Lemma triple_ours X s0 I q : wf s0 → stable I → (∀ s, I s → Frame X s0 s) →
  triple I (lookup K q) (fpost I (λ _ s, oursAt s0 q ∧ I s)) I.
Proof.
  intros Hw HI HF. eapply triple_conseq; [by apply triple_lookup|done| |done].
  intros [e|b] s [HJ H]; simpl; [done|]. split; [|done]. apply (oursAt_frame _ _ _ _ Hw (HF s HJ)).
  intros i n Hi Hn. destruct b.
  - destruct H as (j & n' & [E1 E2]%at_name_Some & Ho). congruence.
  - assert (at_name s q = Some (i, n)) by (by apply at_name_Some). congruence.
Qed.

Lemma textOf_set s i b : is_Some (inodes s !! i) → textOf (set_text s i b) i = b.
Proof. intros [n Hn]. unfold textOf. simpl. by rewrite lookup_alter_eq, Hn. Qed.
Lemma textOf_frame X s0 s i : Frame X s0 s → (i < fresh s0)%nat → i ≠ logFd K → textOf s i = textOf s0 i.
Proof. intros HF Hi Hl. unfold textOf. by rewrite (fr_text _ _ _ HF). Qed.
Lemma textOf_enter s i : i ≠ logFd K → textOf (enter K s) i = textOf s i.
Proof. intros H. unfold textOf. by rewrite inodes_enter. Qed.

(** ** Compressing the copy *)

Section Compress.
Context (gzip : bytes → bytes) (p : list bytes * bytes) (s0 : FS) (Hw0 : wf s0).
Let src := stagingName p.
Let dst := backupName p 1.
Let tmp := tmpName dst.
Definition copyName (q : list bytes * bytes) : Prop := q = stagingName p ∨ q = backupName p 1 ∨ q = tmpName (backupName p 1).

(** The new generation is there, with what the copy held. *)
Definition packed (s : FS) : Prop :=
  ∃ j i, (fresh s0 ≤ j)%nat ∧ names s !! dst = Some j ∧ names s0 !! src = Some i ∧
    (i ≠ logFd K → textOf s j = gzip (textOf s0 i)).
Definition compressing (s : FS) : Prop := Frame copyName s0 s ∧
  (names s !! dst = names s0 !! dst ∧ names s !! src = names s0 !! src ∨
   packed s ∧ (names s !! src = names s0 !! src ∨ names s !! src = None)).

Definition with_tmp (i : nat) (o : nat) (done_ : bool) (s : FS) : Prop :=
  Frame copyName s0 s ∧ (fresh s0 ≤ o)%nat ∧ names s !! tmp = Some o ∧ (∀ q, q ≠ tmp → names s !! q = names s0 !! q) ∧
  (done_ = true → i ≠ logFd K → textOf s o = gzip (textOf s0 i)).

Lemma old_not_new i o : (fresh s0 ≤ o)%nat → names s0 !! src = Some i → i ≠ o.
Proof. intros Ho Hi. apply (wf_names _ Hw0) in Hi as [? _]. lia. Qed.
Lemma new_not_log o : (fresh s0 ≤ o)%nat → o ≠ logFd K.
Proof. intros Ho. pose proof (wf_log _ Hw0). lia. Qed.

Lemma dst_tmp : dst ≠ tmp. Proof. apply backup_tmp. Qed.
Lemma src_tmp : src ≠ tmp. Proof. apply staging_tmp. Qed.
Lemma dst_src : dst ≠ src. Proof. apply backup_staging. Qed.
#[local] Hint Resolve dst_tmp src_tmp dst_src : core.

Lemma with_tmp_stable i o d : stable (with_tmp i o d).
Proof.
  intros s (HF & Ho & Ht & Hq & Hx). split_and!; try done; [by apply frame_stable|].
  intros Hd Hi. rewrite textOf_enter; [by apply Hx|by apply new_not_log].
Qed.
Lemma with_tmp_compressing i o d s : with_tmp i o d s → compressing s.
Proof. intros (HF & _ & _ & Hq & _). split; [done|]. left. by rewrite !Hq by auto. Qed.

Lemma compressing_stable : stable compressing.
Proof.
  intros s [HF H]. split; [by apply frame_stable|]. destruct H as [H|[(j & i & Hj & Hd & Hi & Hx) H]]; [by left|].
  right. split; [|done]. exists j, i. split_and!; try done. intros Hl. rewrite textOf_enter; [by apply Hx|by apply new_not_log].
Qed.

(** The part after the new file is made. *)
Lemma triple_fill i o : names s0 !! src = Some i → oursAt s0 src → oursAt s0 tmp →
  triple (with_tmp i o false)
    (w ← (_ ←? sysFail (CopyFile K gzip i o); _ ←? lookup K dst; sysFail (Rename K tmp dst));
     match w with inl e => _ ← Remove K tmp; mret (inl e) | inr _ => sysFail (Remove K src) end)
    (fpost compressing (λ _ s, packed s ∧ names s !! src = None ∧ compressing s)) compressing.
Proof.
  intros Hi Hos Hot.
  set (full := λ s, Frame copyName s0 s ∧ packed s ∧ names s !! src = names s0 !! src).
  assert (∀ s, full s → compressing s) as Hfull by (intros s (? & ? & ?); split; auto).
  eapply (triple_bind _ _ _ (fpost (λ s, ∃ d, with_tmp i o d s) (λ _, full))).
  - eapply (triple_orFail _ _ _ (with_tmp i o false) (λ _, with_tmp i o true)).
    + apply (triple_crash _ _ _ (with_tmp i o false)); [|apply with_tmp_compressing].
      apply triple_sysFail, triple_CopyFile; [by apply with_tmp_stable| |].
      * intros s b (HF & Ho & Ht & Hq & _). split_and!; try done. by apply frame_set_text; [auto..|].
      * intros s (HF & Ho & Ht & Hq & _). split_and!; try done; [by apply frame_set_text; [auto..|]|].
        intros _ Hl. rewrite textOf_set by by eapply (wf_names _ (fr_wf _ _ _ HF)).
        f_equal. apply (textOf_frame _ _ _ _ HF); [|done]. by eapply wf_names.
    + intros e s H. by exists false.
    + intros _. eapply (triple_orFail _ _ _ (with_tmp i o true) (λ _ s, oursAt s0 dst ∧ with_tmp i o true s)).
      * apply (triple_crash _ _ _ (with_tmp i o true)); [|apply with_tmp_compressing].
        by apply (triple_ours copyName); [|apply with_tmp_stable|intros s [? _]].
      * intros e s H. by exists true.
      * intros _. apply triple_pure. intros Hod. apply triple_sysFail.
        eapply (triple_conseq _ (with_tmp i o true) _ _ (moved tmp (with_tmp i o true) full) _ (with_tmp i o true));
          [apply triple_Rename; [apply with_tmp_stable| |]|done| |apply with_tmp_compressing].
        -- intros s k HT Ek. destruct HT as (HF & Ho & Ht & Hq & Hx). simplify_eq. unfold full. split_and!.
           ++ apply frame_rename; unfold copyName; auto.
           ++ exists o, i. simpl. rewrite lookup_insert_eq. split_and!; [done..|]. auto.
           ++ simpl. rewrite lookup_insert_ne, lookup_delete_ne by auto. auto.
        -- intros s k (HF & _) E1 E2. destruct (dst_tmp). symmetry. by apply (wf_inj _ (fr_wf _ _ _ HF) _ _ k).
        -- intros [[]|] s; simpl; [intros [? _]| |]; eauto.
  - intros [e|[]].
    + apply (triple_crash _ _ _ (λ s, ∃ d, with_tmp i o d s)); [|intros s [d H]; by eapply with_tmp_compressing].
      eapply triple_bind; [apply (triple_Remove _ compressing)|].
      * intros s [d H]. exists d. by apply with_tmp_stable.
      * intros s [d (HF & Ho & Ht & Hq & Hx)]. split; [apply frame_delete; unfold copyName; auto|].
        left. simpl. rewrite !lookup_delete_ne by auto. by rewrite !Hq by auto.
      * intros r. apply triple_ret. intros s. unfold moved.
        destruct r as [[]|]; simpl; [intros [[d H] _]|intros [d H]|done]; by eapply with_tmp_compressing.
    + assert (stable full) as Hst.
      { intros s (HF & (j & i' & Hj & Hd & Hi' & Hx) & Hs). split_and!; [by apply frame_stable| |done].
        exists j, i'. split_and!; try done. intros Hl. rewrite textOf_enter; [by apply Hx|by apply new_not_log]. }
      apply triple_sysFail. eapply (triple_conseq _ full _ _ (moved src full (λ s, packed s ∧ names s !! src = None ∧ compressing s)) _ full);
        [apply triple_Remove; [done|]|done| |done].
      * intros s (HF & Hp & Hs).
        assert (names (set_names s (delete src (names s))) !! src = None) as E by (simpl; apply lookup_delete_eq).
        assert (packed (set_names s (delete src (names s)))) as Hp'.
        { destruct Hp as (j & i' & Hj & Hd & Hi' & Hx). exists j, i'. simpl. rewrite lookup_delete_ne by auto. done. }
        split_and!; [done|done|]. split; [|auto]. apply frame_delete; unfold copyName; auto.
      * intros [[]|] s; simpl; [intros [? _]| |]; auto.
Qed.

Definition same_names (s : FS) : Prop := Frame copyName s0 s ∧ names s = names s0.
Definition same_but_tmp (s : FS) : Prop := Frame copyName s0 s ∧ ∀ q, q ≠ tmp → names s !! q = names s0 !! q.
Lemma same_names_stable : stable same_names.
Proof. intros s [? ?]. split; [by apply frame_stable|done]. Qed.
Lemma same_but_tmp_stable : stable same_but_tmp.
Proof. intros s [? ?]. split; [by apply frame_stable|done]. Qed.
Lemma same_compressing s : same_names s → compressing s.
Proof. intros [? E]. split; [done|]. left. by rewrite E. Qed.
Lemma same_but_tmp_compressing s : same_but_tmp s → compressing s.
Proof. intros [? E]. split; [done|]. left. by rewrite !E by auto. Qed.

Lemma triple_removeTmp ex : oursAt s0 tmp → triple same_names (removeTmp K tmp ex) (fpost same_but_tmp (λ _, same_but_tmp)) same_but_tmp.
Proof.
  intros Ho. assert (∀ s, same_names s → same_but_tmp s) as H1 by (intros s [? E]; split; [done|]; by rewrite E).
  unfold removeTmp. destruct ex; [|by apply triple_ret].
  apply (triple_crash _ _ _ same_names); [|done]. eapply triple_bind; [apply (triple_Remove _ same_but_tmp); [apply same_names_stable|]|].
  - intros s [HF E]. split; [apply frame_delete; unfold copyName; auto|]. intros q Hq. simpl. by rewrite lookup_delete_ne, E.
  - intros r. apply triple_ret. intros s. unfold moved. destruct r as [[]|]; simpl; [intros [? _]|..]; auto.
Qed.

(** What compress does, wherever it stops: either the generation and the copy are as
    they were, or the generation has the content of the copy and the copy may be gone. *)
Lemma triple_compress :
  triple same_names (compress K gzip (stagingName p) (backupName p 1))
    (λ r s, compressing s ∧ (r = None → packed s ∧ names s !! src = None)) compressing.
Proof.
  unfold compress. fold src dst tmp.
  eapply (triple_bind _ _ _ (fpost compressing (λ _ s, packed s ∧ names s !! src = None ∧ compressing s))).
  2:{ intros [e|[]]; apply triple_ret; intros s; simpl; [by intros H; split|]. intros (? & ? & ?). by split. }
  eapply (triple_orFail _ _ _ same_names (λ i s, (names s0 !! src = Some i ∧ oursAt s0 src) ∧ same_names s));
    [|intros e; apply same_compressing|intros i; apply triple_pure; intros [Hi Hos]].
  { apply (triple_crash _ _ _ same_names); [|apply same_compressing].
    eapply triple_conseq; [apply triple_openOurs, same_names_stable|done| |done].
    intros [e|i] s; simpl; [done|]. intros ([HF E] & Hn & n & Hx & Ho). split; [|done]. rewrite <-E. split; [done|].
    apply (oursAt_frame _ _ _ _ Hw0 HF). intros j m Hj Hm. congruence. }
  eapply (triple_orFail _ _ _ same_names (λ _ s, oursAt s0 tmp ∧ same_names s));
    [|intros e; apply same_compressing|intros ex; apply triple_pure; intros Hot].
  { apply (triple_crash _ _ _ same_names); [|apply same_compressing].
    by apply (triple_ours copyName); [|apply same_names_stable|intros s [? _]]. }
  eapply (triple_orFail _ _ _ same_but_tmp (λ _, same_but_tmp));
    [by eapply triple_crash; [apply triple_removeTmp|apply same_but_tmp_compressing]|intros e; apply same_but_tmp_compressing|intros _].
  eapply (triple_orFail _ _ _ same_but_tmp (λ o, with_tmp i o false)); [|intros e; apply same_but_tmp_compressing|].
  - apply (triple_crash _ _ _ same_but_tmp); [|apply same_but_tmp_compressing].
    apply triple_sysFail, triple_OpenExcl; [apply same_but_tmp_stable|]. intros s [HF Hq] En.
    destruct (frame_created copyName _ Hw0 s tmp) as [_ HC]; [unfold copyName; auto|done|done|].
    split_and!; [done|apply (fr_fresh _ _ _ HF)|simpl; apply lookup_insert_eq| |done].
    intros q Hq'. simpl. rewrite lookup_insert_ne by done. auto.
  - intros o. by apply triple_fill.
Qed.

Lemma triple_finishStaged orphan :
  triple same_names (finishStaged K gzip p orphan)
    (λ r s, compressing s ∧ (orphan = false → r = None → names s !! src = None)) compressing.
Proof.
  assert (∀ s, same_names s → compressing s) as Hc by apply same_compressing.
  assert (∀ e s, same_names s → compressing s ∧ (orphan = false → Some (e : LErr) = None → names s !! src = None)) as Hbad
    by (split; [auto|done]).
  unfold finishStaged. fold src. eapply triple_bind.
  { apply (triple_crash _ _ _ same_names); [|done]. apply triple_lookup, same_names_stable. }
  intros [e|[]]; [by apply triple_ret; intros s [? _]; apply Hbad| |].
  2:{ apply triple_ret. intros s [HS Hn]. split; [auto|]. intros _ _.
      by apply at_name_None; [apply (fr_wf _ _ _ (proj1 HS))|]. }
  eapply triple_bind.
  { apply (triple_crash _ _ _ same_names); [|done]. eapply triple_pre; [apply triple_openOurs, same_names_stable|]. by intros s [? _]. }
  intros [e|i]; [by apply triple_ret, Hbad|].
  eapply triple_bind.
  { apply (triple_crash _ _ _ same_names); [|done]. eapply triple_pre; [apply triple_Fstat, same_names_stable|]. by intros s [? _]. }
  intros [e|n]; [by apply triple_ret, Hbad|].
  destruct (orphan && (blen (text n) =? 0)) eqn:Eo.
  { apply triple_ret. intros s [? _]. split; [auto|]. intros ->. done. }
  eapply triple_bind.
  { apply (triple_crash _ _ _ same_names); [|done]. eapply triple_pre; [apply triple_tryLock, same_names_stable|]. by intros s [? _]. }
  assert (triple same_names (same ← namesFile K src i; if same : bool then compress K gzip src (backupName p 1) else mret (Some EBusy))
    (λ r s, compressing s ∧ (orphan = false → r = None → names s !! src = None)) compressing) as Hlast.
  { eapply triple_bind; [apply (triple_crash _ _ _ same_names); [apply triple_namesFile, same_names_stable|done]|].
    intros []; [|by apply triple_ret, Hbad].
    eapply triple_conseq; [apply triple_compress|done| |done]. intros r s [? H]. split; [done|]. intros _ E. by apply H. }
  intros []; [done|by apply triple_ret, Hbad|]. destruct orphan; [|done]. apply triple_ret. intros s ?. by split; [apply Hc|].
Qed.
End Compress.

(** ** Moving the generations *)

Definition ownName (p q : list bytes * bytes) : Prop :=
  q = stagingName p ∨ q = tmpName (backupName p 1) ∨ ∃ g, q = backupName p g.

Lemma own_irrefl p : ¬ ownName p p.
Proof.
  destruct p as [d n]. intros [E|[E|[g E]]]; apply (f_equal (λ q, length q.2)) in E;
    with_strategy transparent [backupName stagingName tmpName] (unfold stagingName, backupName, tmpName in E);
    simpl in E; rewrite !length_app in E; simpl in E; lia.
Qed.

Lemma copy_own p q : copyName p q → ownName p q.
Proof. unfold copyName, ownName. naive_solver. Qed.

(** ** The copies of other daemons *)

Definition orphanName (p q : list bytes * bytes) : Prop :=
  ∃ log, isDaemonStartLog log = true ∧ log ≠ p.2 ∧ copyName (p.1, log) q.
Definition logcapName (p q : list bytes * bytes) : Prop := ownName p q ∨ orphanName p q.

Lemma CutSuffix_app e suf l : CutSuffix e suf = Some l → e = l ++ suf.
Proof. unfold CutSuffix. case_bool_decide as E; intros [= <-]. rewrite <-E at 2. by rewrite take_drop. Qed.

Lemma tmpName_inj p q : tmpName p = tmpName q → p = q.
Proof.
  with_strategy transparent [tmpName] unfold tmpName. destruct p, q. intros [= -> E]. by apply app_inv_tail in E as ->.
Qed.

Lemma own_not_orphan p q : ownName p q → ¬ orphanName p q.
Proof.
  destruct p as [d n]. intros Ho (log & _ & Hne & Hc). simpl in *. apply Hne.
  destruct Ho as [->|[->|[g ->]]]; destruct Hc as [E|[E|E]].
  - symmetry. by eapply staging_inj.
  - by destruct (backup_staging (d, log) 1 (d, n)).
  - by destruct (staging_tmp (d, n) (backupName (d, log) 1)).
  - by destruct (staging_tmp (d, log) (backupName (d, n) 1)).
  - by destruct (backup_tmp (d, log) 1 (backupName (d, n) 1)).
  - apply tmpName_inj in E. symmetry in E. by eapply other_backup.
  - by destruct (backup_staging (d, n) g (d, log)).
  - symmetry in E. by eapply other_backup.
  - by destruct (backup_tmp (d, n) g (backupName (d, log) 1)).
Qed.

(** Run a program from a state that is known. *)
Lemma triple_at {A} (I : FS → Prop) (m : M A) Q C : (∀ s, I s → triple (λ s', s' = s) m Q C) → triple I m Q C.
Proof. intros H s Hs. by apply (H s Hs s). Qed.

Lemma triple_finishEach gzip p s3 entries : wf s3 →
  triple (Frame (orphanName p) s3) (finishEach K gzip p.1 (stagingName p).2 entries)
    (λ _, Frame (orphanName p) s3) (Frame (orphanName p) s3).
Proof.
  intros Hw. induction entries as [|e rest IH]; [by apply triple_ret|]. cbn [finishEach].
  destruct (CutSuffix e stagingSuffix) as [log|] eqn:Ec; [|done].
  destruct (isDaemonStartLog log && _) eqn:El; [|done]. apply andb_true_iff in El as [El En].
  apply negb_true_iff, bool_decide_eq_false in En. apply CutSuffix_app in Ec.
  assert (log ≠ p.2) as Hne.
  { intros ->. apply En. rewrite Ec. by with_strategy transparent [stagingName] unfold stagingName. }
  eapply (triple_bind _ _ _ (λ _, Frame (orphanName p) s3)); [|intros _; exact IH].
  apply triple_at. intros s HF. pose proof (fr_wf _ _ _ HF) as Hws.
  assert (∀ s', compressing gzip (p.1, log) s s' → Frame (orphanName p) s3 s') as Hc.
  { intros s' [HF' _]. eapply frame_trans; [done|exact HF|]. eapply frame_mono; [|exact HF']. intros q Hq. by exists log. }
  eapply triple_conseq; [apply (triple_finishStaged gzip (p.1, log) s Hws true)|..].
  - intros s' ->. split; [by apply frame_refl|done].
  - intros r s' [H _]. auto.
  - auto.
Qed.

Lemma triple_finishOrphans gzip p s3 : wf s3 →
  triple (Frame (orphanName p) s3) (finishOrphans K gzip p) (λ _, Frame (orphanName p) s3) (Frame (orphanName p) s3).
Proof.
  intros Hw. unfold finishOrphans. eapply triple_bind; [apply triple_ReadDir, frame_stable; done|].
  intros [e|entries]; [by apply triple_ret|by apply triple_finishEach].
Qed.

Section Shift.
Context (p : list bytes * bytes) (keep : nat) (s1 : FS) (Hw1 : wf s1).
Context (Hkeep : (1 ≤ keep)%nat) (Hbound : genBound (keep + 3 + size (names s1))).
Local Abbreviation b := (backupName p).
Local Abbreviation st := (stagingName p).
Local Abbreviation J := (Frame (ownName p) s1).

Lemma b_ne g h : (g ≤ keep + 2 + size (names s1))%nat → (h ≤ keep + 2 + size (names s1))%nat → g ≠ h → b g ≠ b h.
Proof. intros Hg Hh Hne E. apply Hne. apply (backupName_inj p); [..|done]; unfold genBound in *; lia. Qed.
Lemma own_b g : ownName p (b g).
Proof. unfold ownName. eauto. Qed.
Lemma b_st g : b g ≠ st. Proof. apply backup_staging. Qed.

(** Generations up to [keep] and the copy are where they were. *)
Definition unmoved (s : FS) : Prop := J s ∧ names s !! st = names s1 !! st ∧ ∀ h, (h ≤ keep)%nat → names s !! b h = names s1 !! b h.
Lemma unmoved_stable : stable unmoved.
Proof. intros s (? & ? & ?). split_and!; try done. by apply frame_stable. Qed.

Lemma triple_dropBeyond fuel g : (keep < g)%nat → (g + fuel ≤ keep + 2 + size (names s1))%nat →
  triple unmoved (dropBeyond K fuel p g) (λ _, unmoved) unmoved.
Proof.
  revert g. induction fuel as [|fuel IH]; intros g Hg Hf; [by apply triple_ret|]. cbn [dropBeyond].
  eapply triple_bind; [by apply (triple_ours (ownName p) s1); [|apply unmoved_stable|intros s [? _]]|].
  intros [e|[]]; [by apply triple_ret| |apply triple_ret; by intros s [_ ?]].
  simpl. apply triple_pure. intros Ho. eapply triple_bind; [apply (triple_Remove _ unmoved); [apply unmoved_stable|]|].
  - intros s (HJ & Hs & Hh). split_and!.
    + by apply frame_delete; [..|apply own_b| |].
    + simpl. rewrite lookup_delete_ne by apply b_st. done.
    + intros h Hle. simpl. rewrite lookup_delete_ne; [auto|]. apply b_ne; lia.
  - intros [[]|]; unfold moved; [apply triple_ret; by intros s [? _]|by apply triple_ret|]. apply IH; lia.
Qed.

(** Generations above [gen] have moved up. *)
Record up (gen : nat) (parked : bool) (s : FS) : Prop := {
  up_J : J s;
  up_st : names s !! st = names s1 !! st;
  up_low h : (h ≤ gen)%nat → names s !! b h = names s1 !! b h;
  up_high h : (gen < h < keep)%nat → names s !! b (S h) = names s1 !! b h;
  up_gap : (gen < keep)%nat → names s !! b (S gen) = None;
  up_top : (gen < keep)%nat → if parked then names s !! b (S keep) = names s1 !! b keep else names s1 !! b keep = None;
  up_unparked : gen = keep → parked = false }.

Lemma up_stable gen parked : stable (up gen parked).
Proof. intros s [? ? ? ? ? ? ?]. split; try done. by apply frame_stable. Qed.

Lemma up_rename gen parked s i : (S gen ≤ keep)%nat → (∀ h, (1 ≤ h ≤ keep + 1)%nat → oursAt s1 (b h)) →
  up (S gen) parked s → names s !! b (S gen) = Some i →
  up gen (parked || (S gen =? keep)%nat) (set_names s (<[b (S (S gen)) := i]> (delete (b (S gen)) (names s)))).
Proof.
  intros Hle Ho [HJ Hst Hlow Hhigh Hgap Htop Hun] E. split; cbn [set_names names].
  - apply frame_rename; try done; try apply own_b; apply Ho; lia.
  - rewrite lookup_insert_ne, lookup_delete_ne by apply b_st. done.
  - intros h Hh. rewrite lookup_insert_ne, lookup_delete_ne by (apply b_ne; lia). apply Hlow. lia.
  - intros h Hh. destruct (decide (h = S gen)) as [->|Hne].
    + rewrite lookup_insert_eq, <-Hlow by lia. done.
    + rewrite lookup_insert_ne, lookup_delete_ne by (apply b_ne; lia). apply Hhigh. lia.
  - intros _. rewrite lookup_insert_ne, lookup_delete_eq by (apply b_ne; lia). done.
  - intros _. destruct (decide (S gen = keep)) as [<-|Hne].
    + rewrite Nat.eqb_refl, orb_true_r. rewrite lookup_insert_eq, <-Hlow by lia. done.
    + rewrite (proj2 (Nat.eqb_neq _ _) Hne), orb_false_r. rewrite lookup_insert_ne, lookup_delete_ne by (apply b_ne; lia).
      apply Htop. lia.
  - lia.
Qed.

Lemma up_missing gen parked s : (S gen ≤ keep)%nat → up (S gen) parked s → names s !! b (S gen) = None → up gen parked s.
Proof.
  intros Hle [HJ Hst Hlow Hhigh Hgap Htop Hun] E. split; try done.
  - intros h Hh. apply Hlow. lia.
  - intros h Hh. destruct (decide (h = S gen)) as [->|Hne]; [|apply Hhigh; lia].
    rewrite Hgap, <-Hlow, E by lia. done.
  - intros _. destruct (decide (S gen = keep)) as [<-|Hne]; [|apply Htop; lia].
    rewrite (Hun eq_refl). by rewrite <-Hlow by lia.
  - lia.
Qed.

Definition slotsOurs : Prop := ∀ h, (1 ≤ h ≤ keep + 1)%nat → oursAt s1 (b h).
Definition moving (parked : bool) (s : FS) : Prop := ∃ gen, (gen ≤ keep)%nat ∧ up gen parked s.
Definition somewhere (s : FS) : Prop := ∃ parked, moving parked s.

Lemma triple_checkSlots I gens : stable I → (∀ s, I s → J s) →
  triple I (checkSlots K p gens) (fpost I (λ _ s, (∀ g, g ∈ gens → oursAt s1 (b g)) ∧ I s)) I.
Proof.
  intros HI HJ. induction gens as [|g gens IH].
  { apply triple_ret. intros s Hs. split; [|done]. intros g Hg. by apply not_elem_of_nil in Hg. }
  cbn [checkSlots]. eapply (triple_orFail _ _ _ I (λ _ s, oursAt s1 (b g) ∧ I s)); [by apply (triple_ours (ownName p))|done|].
  intros _. apply triple_pure. intros Ho. eapply triple_conseq; [apply IH|done| |done].
  intros [e|[]] s; simpl; [done|]. intros [Hg Hs]. split; [|done]. intros h [->|Hh]%elem_of_cons; auto.
Qed.

Lemma triple_shiftUp gen parked : slotsOurs → (gen ≤ keep)%nat →
  triple (up gen parked) (shiftUp K p keep gen parked)
    (λ pe s, match pe.2 with None => up 0 pe.1 s | Some _ => moving pe.1 s end) somewhere.
Proof.
  intros Ho. revert parked. induction gen as [|gen IH]; intros parked Hle; [by apply triple_ret|]. cbn [shiftUp].
  eapply triple_bind.
  { apply (triple_crash _ _ _ (up (S gen) parked)); [|intros s H; by exists parked, (S gen)].
    apply (triple_Rename _ (up gen (parked || (S gen =? keep)%nat))); [apply up_stable| |].
    - intros s i Hu E. by apply up_rename.
    - intros s i Hu E1 E2. exfalso. apply (b_ne (S gen) (S (S gen))); [lia..|].
      by apply (wf_inj _ (fr_wf _ _ _ (up_J _ _ _ Hu)) _ _ i). }
  intros [[]|[]]; unfold moved.
  - eapply triple_pre; [apply IH; lia|]. intros s [Hu Hn]. apply up_missing; [lia|done|].
    by apply at_name_None; [apply (fr_wf _ _ _ (up_J _ _ _ Hu))|].
  - apply triple_ret. intros s Hu. by exists (S gen).
  - apply IH. lia.
Qed.

Lemma unmoved_up s : unmoved s ↔ up keep false s.
Proof.
  split.
  - intros (HJ & Hst & Hh). split; auto; lia.
  - intros [HJ Hst Hlow _ _ _ _]. by split_and!.
Qed.

Lemma triple_shiftBackups :
  triple (λ s, J s ∧ names s = names s1) (shiftBackups K p keep)
    (λ pe s, (pe.1 = true ∨ pe.2 = None → slotsOurs) ∧ match pe.2 with None => up 0 pe.1 s | Some _ => moving pe.1 s end) somewhere.
Proof.
  set (I := λ s, J s ∧ names s = names s1).
  assert (stable I) as HI by (intros s [? ?]; split; [by apply frame_stable|done]).
  assert (∀ s, I s → unmoved s) as Hu by (intros s [? E]; split_and!; [done|by rewrite E..]).
  assert (∀ s, unmoved s → moving false s) as Hm by (intros s H; exists keep; split; [lia|by apply unmoved_up]).
  unfold shiftBackups. eapply triple_bind.
  { apply (triple_crash _ _ _ I); [|intros s H; exists false; auto]. by apply triple_checkSlots; [|intros s [? _]]. }
  intros [e|[]]; cbn [fpost].
  - apply triple_ret. intros s H. split; [by intros [?|?]|]. by apply Hm, Hu.
  - apply triple_pure. intros Hg. assert (slotsOurs) as Ho by (intros h Hh; apply Hg, elem_of_seq; lia).
    eapply (triple_bind _ _ _ (λ n s, n = size (names s1) ∧ unmoved s)).
    { intros s Hs. simpl. split; [by destruct Hs as [_ ->]|auto]. }
    intros n. apply triple_pure. intros ->.
    eapply triple_bind; [eapply triple_crash; [apply (triple_dropBeyond (S (size (names s1))) (keep + 1)); lia|intros s H; exists false; auto]|].
    intros []. eapply triple_conseq; [by apply (triple_shiftUp keep false)| |by split|done].
    intros s H. by apply unmoved_up.
Qed.

(** Every generation has moved up and the first place is free; the copy is not there
    or a new file. *)
Record ready (parked : bool) (s : FS) : Prop := {
  rd_J : J s;
  rd_first : names s !! b 1 = None;
  rd_row h : (1 ≤ h < keep)%nat → names s !! b (S h) = names s1 !! b h;
  rd_top : if parked then names s !! b (S keep) = names s1 !! b keep else names s1 !! b keep = None;
  rd_copy o : names s !! st = Some o → (fresh s1 ≤ o)%nat }.

Context (Hst1 : names s1 !! st = None).

Lemma ready_stable parked : stable (ready parked).
Proof. intros s [? ? ? ? ?]. split; try done. by apply frame_stable. Qed.
Lemma up_ready parked s : up 0 parked s → ready parked s.
Proof.
  intros [HJ Hst Hlow Hhigh Hgap Htop _]. split; [done|apply Hgap; lia|intros h Hh; apply Hhigh; lia|apply Htop; lia|].
  intros o. by rewrite Hst, Hst1.
Qed.
Lemma ours_st : oursAt s1 st.
Proof. intros i n E. congruence. Qed.
Lemma ready_delete_st parked s : ready parked s → ready parked (set_names s (delete st (names s))).
Proof.
  intros [HJ H1 Hrow Htop Hc]. assert (∀ g, st ≠ b g) as Hne by (intros g E; by apply (b_st g)).
  split; cbn [set_names names].
  - apply frame_delete; [done|by left|apply ours_st|done].
  - by rewrite lookup_delete_ne.
  - intros h Hh. rewrite lookup_delete_ne by done. auto.
  - destruct parked; [by rewrite lookup_delete_ne|done].
  - intros o. by rewrite lookup_delete_eq.
Qed.

Definition copied (parked : bool) (o : nat) (s : FS) : Prop := ready parked s ∧ names s !! st = Some o.
Lemma copied_stable parked o : stable (copied parked o).
Proof. intros s [? ?]. split; [by apply ready_stable|done]. Qed.

Lemma copied_text parked o s t : copied parked o s → copied parked o (set_text s o t).
Proof.
  intros [[HJ H1 Hrow Htop Hc] Ho]. split; [|done]. split; try done. apply frame_set_text; [left; by apply Hc|done].
Qed.

Lemma triple_createStaged parked log :
  triple (ready parked) (createStaged K log st) (fpost (ready parked) (λ _, ready parked)) (ready parked).
Proof.
  unfold createStaged. eapply (triple_orFail _ _ _ (ready parked) (copied parked)); [|done|].
  - apply triple_sysFail, triple_OpenExcl; [apply ready_stable|]. intros s [HJ H1 Hrow Htop Hc] En.
    assert (∀ g, st ≠ b g) as Hne by (intros g E; by apply (b_st g)).
    destruct (frame_created (ownName p) s1 Hw1 s st) as [_ HJ']; [by left|done|done|].
    split; [|apply lookup_insert_eq]. split; cbn [created names]; [done| | | |].
    + by rewrite lookup_insert_ne.
    + intros h Hh. rewrite lookup_insert_ne by done. auto.
    + destruct parked; [by rewrite lookup_insert_ne|done].
    + intros o. rewrite lookup_insert_eq. intros [= <-]. apply (fr_fresh _ _ _ HJ).
  - intros o. eapply (triple_orFail _ _ _ (copied parked o) (λ _, copied parked o)).
    + eapply triple_crash; [apply triple_holdStaged, copied_stable|by intros s [? _]].
    + by intros e s [? _].
    + intros held. eapply triple_bind.
      { eapply triple_crash; [apply (triple_CopyFile (copied parked o) (copied parked o) (copied parked o)); [apply copied_stable|..]|by intros s [? _]].
        - intros s t. apply copied_text.
        - intros s. apply copied_text. }
      intros [e|[]]; [|apply triple_ret; by intros s [? _]].
      eapply triple_bind; [eapply triple_pre; [apply (triple_Remove (ready parked) (ready parked)); [apply ready_stable|apply ready_delete_st]|by intros s [? _]]|].
      intros [[]|]; apply triple_ret; unfold moved; [by intros s [? _]|done..].
Qed.

(** *** Moving back *)

Definition moves (parked : bool) : nat := if parked then keep else (keep - 1)%nat.
Record down (parked : bool) (gen : nat) (s : FS) : Prop := {
  dn_J : J s;
  dn_st : names s !! st = None;
  dn_low h : (1 ≤ h ≤ moves parked)%nat → (S h < gen)%nat → names s !! b h = names s1 !! b h;
  dn_high h : (1 ≤ h ≤ moves parked)%nat → (gen ≤ S h)%nat → names s !! b (S h) = names s1 !! b h;
  dn_gap : names s !! b (gen - 1) = None;
  dn_top : parked = false → names s1 !! b keep = None }.

Lemma down_stable parked gen : stable (down parked gen).
Proof. intros s [? ? ? ? ? ?]. split; try done. by apply frame_stable. Qed.

Lemma ready_down parked s : ready parked s → names s !! st = None → down parked 2 s.
Proof.
  intros [HJ H1 Hrow Htop Hc] E. split; [done|done|lia| |done|by intros ->].
  intros h Hh _. unfold moves in Hh. destruct parked; [|apply Hrow; lia].
  destruct (decide (h = keep)) as [->|]; [done|apply Hrow; lia].
Qed.

Lemma down_rename parked gen s i : slotsOurs → (2 ≤ gen ≤ moves parked + 1)%nat →
  down parked gen s → names s !! b gen = Some i →
  down parked (S gen) (set_names s (<[b (gen - 1) := i]> (delete (b gen) (names s)))).
Proof.
  intros Ho Hg [HJ Hst Hlow Hhigh Hgap Htop] E.
  assert (moves parked ≤ keep)%nat by (unfold moves; destruct parked; lia).
  split; cbn [set_names names]; try done.
  - apply frame_rename; try done; try apply own_b; apply Ho; lia.
  - rewrite lookup_insert_ne, lookup_delete_ne by apply b_st. done.
  - intros h Hh Hlt. destruct (decide (h = gen - 1)%nat) as [->|Hne].
    + rewrite lookup_insert_eq, <-Hhigh by lia. by replace (S (gen - 1)) with gen by lia.
    + rewrite lookup_insert_ne, lookup_delete_ne by (apply b_ne; lia). apply Hlow; lia.
  - intros h Hh Hle. rewrite lookup_insert_ne, lookup_delete_ne by (apply b_ne; lia). apply Hhigh; lia.
  - replace (S gen - 1)%nat with gen by lia. by rewrite lookup_insert_ne, lookup_delete_eq by (apply b_ne; lia).
Qed.

Lemma down_missing parked gen s : (2 ≤ gen ≤ moves parked + 1)%nat → down parked gen s → names s !! b gen = None →
  down parked (S gen) s.
Proof.
  intros Hg [HJ Hst Hlow Hhigh Hgap Htop] E. split; [done|done| | | |done].
  - intros h Hh Hlt. destruct (decide (h = gen - 1)%nat) as [->|Hne]; [|apply Hlow; lia].
    rewrite Hgap, <-Hhigh by lia. by replace (S (gen - 1)) with gen by lia.
  - intros h Hh Hle. apply Hhigh; lia.
  - by replace (S gen - 1)%nat with gen by lia.
Qed.

Definition unwinding (parked : bool) (s : FS) : Prop := ∃ gen, down parked gen s.

Lemma triple_shiftDown parked gen n : slotsOurs → (2 ≤ gen)%nat → (gen + n = moves parked + 2)%nat →
  triple (down parked gen) (shiftDown K p (seq gen n))
    (λ e s, match e with None => down parked (moves parked + 2) s | Some _ => unwinding parked s end) (unwinding parked).
Proof.
  intros Ho. revert gen. induction n as [|n IH]; intros gen Hg Hn.
  { apply triple_ret. intros s H. by replace (moves parked + 2)%nat with gen by lia. }
  cbn [seq shiftDown]. eapply triple_bind.
  { apply (triple_crash _ _ _ (down parked gen)); [|by exists gen].
    apply (triple_Rename _ (down parked (S gen))); [apply down_stable| |].
    - intros s i Hu E. apply down_rename; [done|lia|done..].
    - intros s i Hu E1 E2. by rewrite (dn_gap _ _ _ Hu) in E2. }
  intros [[]|[]]; unfold moved.
  - eapply triple_pre; [apply IH; lia|]. intros s [Hu Hx]. apply down_missing; [lia|done|].
    by apply at_name_None; [apply (fr_wf _ _ _ (dn_J _ _ _ Hu))|].
  - apply triple_ret. intros s Hu. by exists gen.
  - apply IH; lia.
Qed.

(** *** What is left wherever a rotation stops *)

Context (gzip : bytes → bytes) (Hp : names s1 !! p = Some (logFd K)).

Definition interruptedOk (s : FS) : Prop :=
  ∀ i j, names s !! st = Some i → names s !! b 1 = Some j → textOf s j = gzip (textOf s i).

Record kept (s : FS) : Prop := {
  kp_J : J s;
  kp_copy : interruptedOk s;
  kp_row h i : (1 ≤ h < keep)%nat → names s1 !! b h = Some i → names s !! b h = Some i ∨ names s !! b (S h) = Some i }.

(** After the generations have moved, with or without the parked one. *)
Record row (s : FS) : Prop := {
  rw_J : J s;
  rw_first : names s !! b 1 = None;
  rw_row h : (1 ≤ h < keep)%nat → names s !! b (S h) = names s1 !! b h }.

Lemma frame_not_log s q i : J s → ownName p q → names s !! q = Some i → i ≠ logFd K.
Proof.
  intros HJ Ho E ->. assert (names s !! p = Some (logFd K)) as Ep.
  { destruct (fr_names _ _ _ HJ p) as [->|(Hx & _)]; [done|]. by destruct (own_irrefl p). }
  apply (own_irrefl p). by rewrite (wf_inj _ (fr_wf _ _ _ HJ) _ _ _ Ep E) at 2.
Qed.

Lemma ready_row parked s : ready parked s → row s.
Proof. intros [? ? ? ? ?]. by split. Qed.
Lemma row_kept s : row s → kept s.
Proof.
  intros [HJ H1 Hrow]. split; [done|intros i j _ E; by rewrite H1 in E|].
  intros h i Hh E. right. by rewrite Hrow.
Qed.
Lemma row_stable : stable row.
Proof. intros s [? ? ?]. split; [by apply frame_stable|done..]. Qed.
Lemma moving_kept parked s : moving parked s → kept s.
Proof.
  intros (gen & Hg & [HJ Hst Hlow Hhigh Hgap Htop _]).
  split; [done|intros i j E; by rewrite Hst, Hst1 in E|].
  intros h i Hh E. destruct (decide (h ≤ gen)%nat); [left; by rewrite Hlow|right; rewrite Hhigh by lia; done].
Qed.
Lemma down_kept parked s : unwinding parked s → kept s.
Proof.
  intros (gen & [HJ Hst Hlow Hhigh Hgap Htop]).
  split; [done|intros i j E; by rewrite Hst in E|].
  intros h i Hh E. assert (h ≤ moves parked)%nat by (unfold moves; destruct parked; lia).
  destruct (decide (S h < gen)%nat); [left; rewrite Hlow by lia; done|right; rewrite Hhigh by lia; done].
Qed.

Lemma kept_delete_top s : slotsOurs → kept s → kept (set_names s (delete (b (keep + 1)) (names s))).
Proof.
  intros Ho [HJ Hc Hrow]. split; cbn [set_names names].
  - apply frame_delete; [done|apply own_b|apply Ho; lia|done].
  - intros i j. cbn [set_names names]. rewrite !lookup_delete_ne by (apply b_st || (apply b_ne; lia)). apply Hc.
  - intros h i Hh E. rewrite !lookup_delete_ne by (apply b_ne; lia). eauto.
Qed.
Lemma row_delete_top s : slotsOurs → row s → row (set_names s (delete (b (keep + 1)) (names s))).
Proof.
  intros Ho [HJ Hf Hrow]. split; cbn [set_names names].
  - apply frame_delete; [done|apply own_b|apply Ho; lia|done].
  - by rewrite lookup_delete_ne by (apply b_ne; lia).
  - intros h Hh. rewrite lookup_delete_ne by (apply b_ne; lia). auto.
Qed.

Lemma triple_drop parked (I Q : FS → Prop) : (parked = true → slotsOurs) → stable I → (∀ s, I s → Q s) →
  (slotsOurs → ∀ s, I s → Q (set_names s (delete (b (keep + 1)) (names s)))) →
  triple I (dropParked K p keep parked) (λ _, Q) Q.
Proof. intros Ho HI HQ Hd. apply triple_dropParked; auto. Qed.

Lemma moving_stable parked : stable (moving parked).
Proof. intros s (g & Hg & Hu). exists g. split; [done|by apply up_stable]. Qed.

Definition stageEnd (r : option nat * bool * option LErr) (s : FS) : Prop :=
  match r.1.1 with Some _ => slotsOurs ∧ ready r.1.2 s | None => kept s end.

Lemma triple_stageTail log :
  triple (λ s, J s ∧ names s = names s1)
    ('(parked, e) ← shiftBackups K p keep;
      match e with
      | Some e => _ ← dropParked K p keep parked; mret (None, false, Some e)
      | None =>
        h ← createStaged K log st;
        match h with
        | inl e => _ ← dropParked K p keep parked; mret (None, false, Some e)
        | inr held => mret (Some held, parked, None)
        end
      end) stageEnd kept.
Proof.
  eapply triple_bind.
  { eapply triple_crash; [apply triple_shiftBackups|]. intros s [parked H]. by eapply moving_kept. }
  intros [parked [e|]]; cbn [fst snd].
  - apply triple_pure. intros Ho. eapply triple_bind; [apply (triple_drop parked (moving parked) kept)|].
    + auto.
    + apply moving_stable.
    + apply moving_kept.
    + intros Hs s H. apply kept_delete_top; [done|by eapply moving_kept].
    + intros []. by apply triple_ret.
  - apply triple_pure. intros Ho. specialize (Ho (or_intror eq_refl)).
    eapply triple_bind; [eapply triple_conseq; [apply (triple_createStaged parked)|apply up_ready|intros a s H; exact H|]|].
    { intros s H. by eapply row_kept, ready_row. }
    intros [e|held]; cbn [fpost]; [|by apply triple_ret].
    eapply triple_bind; [apply (triple_drop parked (ready parked) kept)|]; [done|apply ready_stable|..].
    + intros s H. by eapply row_kept, ready_row.
    + intros _ s H. apply kept_delete_top; [done|]. by eapply row_kept, ready_row.
    + intros []. by apply triple_ret.
Qed.

Lemma triple_unstage parked : slotsOurs → triple (ready parked) (unstage K p keep parked) 
  (λ e s, kept s ∧ (e = None → names s !! st = None ∧ ∀ h, (1 ≤ h ≤ keep)%nat → names s !! b h = names s1 !! b h)) kept.
Proof.
  intros Ho. unfold unstage.
  eapply triple_bind; [apply (triple_crash _ _ _ (ready parked))|]; cycle 1.
  { intros s H. by eapply row_kept, ready_row. }
  2:{ apply (triple_Remove _ (λ s, ready parked s ∧ names s !! st = None)); [apply ready_stable|].
      intros s H. split; [by apply ready_delete_st|]. apply lookup_delete_eq. }
  assert (triple (λ s, ready parked s ∧ names s !! st = None) (unshiftBackups K p keep parked)
    (λ e s, kept s ∧ (e = None → names s !! st = None ∧ ∀ h, (1 ≤ h ≤ keep)%nat → names s !! b h = names s1 !! b h)) kept) as Hd.
  { unfold unshiftBackups. replace ((if parked then (keep + 1)%nat else keep) - 1)%nat with (moves parked)
      by (unfold moves; destruct parked; lia).
    eapply triple_conseq; [apply (triple_shiftDown parked 2 (moves parked)); [done|lia..]|..].
    - intros s [Hr E]. by apply ready_down.
    - intros [e|] s H; cbn; [split; [by eapply down_kept|done]|].
      split; [eapply down_kept; by exists (moves parked + 2)%nat|]. intros _. split; [apply H|]. intros h Hh.
      destruct H as [_ _ Hlow _ Hgap Htop]. unfold moves in *. destruct parked; [apply Hlow; lia|].
      destruct (decide (h = keep)) as [->|]; [|apply Hlow; lia].
      rewrite Htop by done. by replace (keep - 1 + 2 - 1)%nat with keep in Hgap by lia.
    - intros s H. by eapply down_kept. }
  intros [[]|]; unfold moved.
  - eapply triple_pre; [exact Hd|]. intros s [Hr E]. split; [done|].
    by apply at_name_None; [apply (fr_wf _ _ _ (rd_J _ _ Hr))|].
  - eapply triple_bind; [apply (triple_drop parked (ready parked) kept)|]; [done|apply ready_stable|..].
    + intros s H. by eapply row_kept, ready_row.
    + intros _ s H. apply kept_delete_top; [done|]. by eapply row_kept, ready_row.
    + intros []. by apply triple_ret.
  - exact Hd.
Qed.

(** *** After the truncation *)

Record kept' (s : FS) : Prop := {
  kp'_F : Frame (logcapName p) s1 s;
  kp'_copy : interruptedOk s;
  kp'_row h i : (1 ≤ h < keep)%nat → names s1 !! b h = Some i → names s !! b h = Some i ∨ names s !! b (S h) = Some i }.

Lemma orphan_own s3 s q : Frame (orphanName p) s3 s → ownName p q → names s !! q = names s3 !! q.
Proof. intros HF Hq. destruct (fr_names _ _ _ HF q) as [?|(Hx & _)]; [done|]. by destruct (own_not_orphan p q). Qed.

Lemma kept_orphans s3 s : kept s3 → Frame (orphanName p) s3 s → kept' s.
Proof.
  intros [HJ Hc Hrow] HF. pose proof (fr_wf _ _ _ HJ) as Hw3.
  assert (∀ q i, ownName p q → names s3 !! q = Some i → textOf s i = textOf s3 i) as Ht.
  { intros q i Hq E. apply (textOf_frame _ _ _ _ HF); [by eapply wf_names|]. by eapply frame_not_log. }
  split.
  - eapply frame_trans; [done|eapply frame_mono; [|exact HJ]; by left|eapply frame_mono; [|exact HF]; by right].
  - intros i j. rewrite !(orphan_own s3 s) by (done || apply own_b || by left). intros Ei Ej.
    rewrite (Ht _ _ (own_b 1) Ej), (Ht st i) by (done || by left). auto.
  - intros h i Hh E. rewrite !(orphan_own s3 s) by (done || apply own_b). eauto.
Qed.
Lemma kept_kept' s : kept s → kept' s.
Proof. intros H. apply (kept_orphans s); [done|]. apply frame_refl, (fr_wf _ _ _ (kp_J _ H)). Qed.

Lemma compressing_kept s2 s : row s2 → compressing gzip p s2 s → kept s.
Proof.
  intros [HJ H1 Hrow] [HF HC]. pose proof (fr_wf _ _ _ HJ) as Hw2. split.
  - eapply frame_trans; [done|exact HJ|]. eapply frame_mono; [apply copy_own|done].
  - intros i j Ei Ej. destruct HC as [[Ed _]|[(j' & i' & Hj & Ed & Ei' & Ht) Hs]]; [congruence|].
    destruct Hs as [Hs|Hs]; [|congruence]. simplify_eq. assert (i' = i) as -> by congruence.
    assert (i ≠ logFd K) as Hl by (eapply (frame_not_log s2); [done| |exact Ei']; by left).
    rewrite Ht by done. f_equal. symmetry. apply (textOf_frame _ _ _ _ HF); [|done]. by eapply wf_names.
  - intros h i Hh E. right. rewrite <-E, <-Hrow by done.
    destruct (fr_names _ _ _ HF (b (S h))) as [->|([Hx|[Hx|Hx]] & _)]; [done|..].
    + by destruct (b_st (S h)).
    + destruct (b_ne (S h) 1); [lia..|done].
    + by destruct (backup_tmp p (S h) (b 1)).
Qed.

Lemma triple_settleCopy r parked staged e0 : maxBackups r = keep → slotsOurs →
  triple (ready parked) (settleCopy K gzip r p (Some staged) parked e0) (λ _, kept') kept'.
Proof.
  intros Ek Ho. unfold settleCopy. rewrite Ek. eapply triple_bind.
  { eapply triple_crash; [apply (triple_drop parked (ready parked) row); [done|apply ready_stable|apply ready_row|]|].
    - intros _ s H. apply row_delete_top; [done|by eapply ready_row].
    - intros s H. by apply kept_kept', row_kept. }
  intros []. eapply (triple_bind _ _ _ (λ _, kept)).
  - apply triple_at. intros s2 Hr. pose proof (fr_wf _ _ _ (rw_J _ Hr)) as Hw2.
    eapply triple_conseq; [apply (triple_compress gzip p s2 Hw2)|..].
    + intros s' ->. split; [by apply frame_refl|done].
    + intros c s [H _]. by eapply compressing_kept.
    + intros s H. by eapply kept_kept', compressing_kept.
  - intros c. destruct (isWithinDir K r p.1); [|apply triple_ret; apply kept_kept'].
    apply triple_at. intros s3 Hk. pose proof (fr_wf _ _ _ (kp_J _ Hk)) as Hw3.
    eapply (triple_bind _ _ _ (λ _, Frame (orphanName p) s3)).
    + eapply triple_conseq; [apply (triple_finishOrphans gzip p s3 Hw3)|..].
      * intros s' ->. by apply frame_refl.
      * done.
      * intros s H. by eapply kept_orphans.
    + intros _. apply triple_ret. intros s H. by eapply kept_orphans.
Qed.

Lemma ready_truncated parked s : ready parked s → ready parked (set_text s (logFd K) []).
Proof. intros [? ? ? ? ?]. split; try done. apply frame_set_text; [by right|done]. Qed.

Lemma triple_rotateStaged r parked o e0 : maxBackups r = keep → slotsOurs →
  triple (ready parked) (rotateAt K gzip r p (Some o) parked e0) (λ _, kept') kept'.
Proof.
  intros Ek Ho. unfold rotateAt. eapply (triple_bind _ _ _ (fpost (ready parked) (λ _, ready parked))).
  { eapply triple_crash; [apply triple_truncate; [apply ready_stable|apply ready_truncated]|].
    intros s H. by eapply kept_kept', row_kept, ready_row. }
  intros [e|[]]; cbn [fpost].
  - rewrite Ek. eapply triple_bind; [eapply triple_crash; [by apply triple_unstage|apply kept_kept']|].
    intros u. apply triple_ret. intros s [H _]. by apply kept_kept'.
  - eapply triple_bind; [by apply triple_settleCopy|]. intros e. by apply triple_ret.
Qed.

(** *** A rotation that succeeds *)

Record saved (t : bytes) (s : FS) : Prop := {
  sv_F : Frame (logcapName p) s1 s;
  sv_st : names s !! st = None;
  sv_first : ∃ j, names s !! b 1 = Some j ∧ textOf s j = gzip t;
  sv_row h : (1 ≤ h < keep)%nat → names s !! b (S h) = names s1 !! b h }.

Lemma packed_saved s2 o s : row s2 → names s2 !! st = Some o → compressing gzip p s2 s → packed gzip p s2 s → names s !! st = None →
  saved (textOf s2 o) s.
Proof.
  intros [HJ H1 Hrow] Eo [HF _] (j & i & Hj & Ed & Ei & Ht) Es. assert (i = o) as -> by congruence. split.
  - eapply frame_trans; [done|eapply frame_mono; [|exact HJ]; by left|].
    eapply frame_mono; [|exact HF]. intros q Hq. left. by apply copy_own.
  - done.
  - exists j. split; [done|]. apply Ht. eapply (frame_not_log s2); [done| |done]. by left.
  - intros h Hh. rewrite <-Hrow by done. destruct (fr_names _ _ _ HF (b (S h))) as [->|([Hx|[Hx|Hx]] & _)]; [done|..].
    + by destruct (b_st (S h)).
    + destruct (b_ne (S h) 1); [lia..|done].
    + by destruct (backup_tmp p (S h) (b 1)).
Qed.

Lemma saved_orphans t s3 s : names s3 !! p = Some (logFd K) → saved t s3 → Frame (orphanName p) s3 s → saved t s.
Proof.
  intros Hp3 [HF3 Hs (j & Ej & Et) Hrow] HF. split.
  - eapply frame_trans; [done|exact HF3|]. eapply frame_mono; [|exact HF]. by right.
  - rewrite (orphan_own s3 s) by (done || by left). done.
  - exists j. rewrite (orphan_own s3 s) by (done || apply own_b). split; [done|]. rewrite <-Et.
    apply (textOf_frame _ _ _ _ HF); [by eapply (wf_names _ (fr_wf _ _ _ HF3))|]. intros ->.
    apply (own_irrefl p). rewrite (wf_inj _ (fr_wf _ _ _ HF3) _ _ _ Hp3 Ej) at 2. apply own_b.
  - intros h Hh. rewrite (orphan_own s3 s) by (done || apply own_b). auto.
Qed.

Definition withCopy (t : bytes) (Q : FS → Prop) (s : FS) : Prop := Q s ∧ ∃ o, names s !! st = Some o ∧ o ≠ logFd K ∧ textOf s o = t.
Lemma withCopy_stable t Q : stable Q → stable (withCopy t Q).
Proof. intros HQ s [Hs (o & Eo & Hl & Et)]. split; [auto|]. exists o. by rewrite textOf_enter. Qed.

Lemma triple_settleGood r parked h e0 t : maxBackups r = keep → slotsOurs → ¬ orphanName p p →
  triple (withCopy t (ready parked)) (settleCopy K gzip r p (Some h) parked e0) (λ e s, e = None → saved t s) (λ _, True).
Proof.
  intros Ek Ho Hpl. unfold settleCopy. rewrite Ek. eapply triple_bind.
  { eapply triple_crash; [apply (triple_drop parked (withCopy t (ready parked)) (withCopy t row))|done].
    - done.
    - apply withCopy_stable, ready_stable.
    - intros s [Hr Hx]. split; [by eapply ready_row|done].
    - intros _ s [Hr (o & Eo & Hl & Et)]. split; [apply row_delete_top; [done|by eapply ready_row]|].
      exists o. split; [|done]. cbn [set_names names]. rewrite lookup_delete_ne by apply b_st. done. }
  intros []. eapply (triple_bind _ _ _ (λ c s, names s !! p = Some (logFd K) ∧ wf s ∧ (c = None → saved t s))).
  - apply triple_at. intros s2 [Hr (o & Eo & Hl & Et)]. pose proof (rw_J _ Hr) as HJ2. pose proof (fr_wf _ _ _ HJ2) as Hw2.
    eapply triple_conseq; [apply (triple_compress gzip p s2 Hw2)|..].
    + intros s' ->. split; [by apply frame_refl|done].
    + intros c s [HC Hc]. pose proof HC as [HF _]. split_and!; [|apply (fr_wf _ _ _ HF)|].
      * assert (∀ q, copyName p q → q ≠ p) as Hne by (intros q Hq ->; by apply (own_irrefl p), copy_own).
        destruct (fr_names _ _ _ HF p) as [->|(Hx & _)]; [|by destruct (Hne p)].
        destruct (fr_names _ _ _ HJ2 p) as [->|(Hx & _)]; [done|by destruct (own_irrefl p)].
      * intros E. destruct (Hc E) as [Hpk Es]. rewrite <-Et. by eapply packed_saved.
    + done.
  - intros c. destruct (isWithinDir K r p.1).
    + apply triple_at. intros s3 (Hp3 & Hw3 & Hs). eapply (triple_bind _ _ _ (λ _, Frame (orphanName p) s3)).
      * eapply triple_conseq; [apply (triple_finishOrphans gzip p s3 Hw3)|intros s' ->; by apply frame_refl|done|done].
      * intros ?. apply triple_ret. intros s HF E. destruct c; [done|]. eapply saved_orphans; [exact Hp3|by apply Hs|done].
    + apply triple_ret. intros s (_ & _ & Hs) E. destruct c; [done|auto].
Qed.

Lemma triple_rotateGood r parked h t : maxBackups r = keep → slotsOurs → ¬ orphanName p p →
  triple (withCopy t (ready parked)) (rotateAt K gzip r p (Some h) parked None)
    (λ a s, a = (true, None) → saved t s) (λ _, True).
Proof.
  intros Ek Ho Hpl. unfold rotateAt. eapply triple_bind.
  { eapply triple_crash; [apply (triple_truncate _ (withCopy t (ready parked)))|done].
    - apply withCopy_stable, ready_stable.
    - intros s [Hr (o & Eo & Hl & Et)]. split; [by apply ready_truncated|]. exists o. split_and!; [done..|].
      rewrite <-Et. unfold textOf. simpl. by rewrite lookup_alter_ne. }
  intros [e|[]]; cbn [fpost].
  - eapply (triple_bind _ _ _ (λ _ _, True)); [by intros s _; case_match; destruct o|]. intros u. by apply triple_ret.
  - eapply triple_bind; [by apply triple_settleGood|]. intros e. apply triple_ret. intros s Hs [= ->]. auto.
Qed.
End Shift.

(** ** The text of the log

    A property of the log's text that survives what the writers append survives
    everything but the truncation. *)

Section Grow.
Context (gzip : bytes → bytes) (P : nat → bytes → Prop) (HP : ∀ n t, P n t → P (S n) (t ++ grows K n)).
Definition logged (s : FS) : Prop :=
  (logFd K < fresh s)%nat ∧ is_Some (inodes s !! logFd K) ∧ P (calls s) (textOf s (logFd K)).

Lemma logged_stable : stable logged.
Proof.
  intros s (Hf & [n Hn] & Hp). unfold logged, textOf, enter in *. simpl. rewrite lookup_alter_eq. rewrite Hn in *.
  split_and!; [done|by eexists|]. simpl. by apply HP.
Qed.
Lemma logged_text s i t : i ≠ logFd K → logged s → logged (set_text s i t).
Proof. intros Hi (Hf & Hn & Hp). unfold logged, textOf in *. simpl. by rewrite lookup_alter_ne. Qed.
Lemma logged_created s q : logged s → fresh s ≠ logFd K ∧ logged (created q s).
Proof.
  intros (Hf & Hn & Hp). split; [lia|]. unfold logged, textOf in *. simpl. rewrite lookup_insert_ne by lia. split_and!; [lia|done..].
Qed.

Lemma logged_lookup q : triple logged (lookup K q) (fpost logged (λ _, logged)) logged.
Proof. eapply triple_conseq; [apply triple_lookup, logged_stable|done| |done]. intros [?|?] s [? _]; done. Qed.
Lemma logged_Remove q : triple logged (Remove K q) (λ _, logged) logged.
Proof.
  eapply triple_conseq; [apply (triple_Remove _ logged); [apply logged_stable|done]|done| |done].
  intros [[]|] s; unfold moved; [by intros [? _]|done..].
Qed.
Lemma logged_Rename a b : triple logged (Rename K a b) (λ _, logged) logged.
Proof.
  eapply triple_conseq; [apply (triple_Rename _ logged); [apply logged_stable|done|done]|done| |done].
  intros [[]|] s; unfold moved; [by intros [? _]|done..].
Qed.
Lemma logged_OpenExcl q : triple logged (OpenExcl K q) (fpost logged (λ o s, o ≠ logFd K ∧ logged s)) logged.
Proof. apply triple_OpenExcl; [apply logged_stable|]. intros s Hs _. by apply logged_created. Qed.
Lemma logged_CopyFile f i o : o ≠ logFd K → triple logged (CopyFile K f i o) (fpost logged (λ _, logged)) logged.
Proof. intros Ho. apply triple_CopyFile; [apply logged_stable|..]; intros; by apply logged_text. Qed.
Lemma logged_openOurs q : triple logged (openOurs K q) (fpost logged (λ _, logged)) logged.
Proof. eapply triple_conseq; [apply triple_openOurs, logged_stable|done| |done]. intros [?|?] s; simpl; [done|by intros [? _]]. Qed.
Lemma logged_sysFail {A} (m : M (SysErr + A)) : triple logged m (λ _, logged) logged → triple logged (sysFail m) (fpost logged (λ _, logged)) logged.
Proof. intros H. apply triple_sysFail. eapply triple_conseq; [exact H|done| |done]. by intros [?|?]. Qed.

Lemma logged_compress src dst : triple logged (compress K gzip src dst) (λ _, logged) logged.
Proof.
  unfold compress. eapply (triple_bind _ _ _ (fpost logged (λ _, logged))); [|intros [?|?]; by apply triple_ret].
  eapply triple_orFail; [apply logged_openOurs|done|]. intros i.
  eapply triple_orFail; [apply logged_lookup|done|]. intros ex.
  eapply (triple_orFail _ _ _ logged (λ _, logged)); [|done|intros ?].
  { unfold removeTmp. destruct ex; [|by apply triple_ret]. eapply triple_bind; [apply logged_Remove|]. intros [[]|]; by apply triple_ret. }
  eapply triple_orFail; [apply triple_sysFail, logged_OpenExcl|done|]. intros o. apply triple_pure. intros Ho.
  eapply (triple_bind _ _ _ (fpost logged (λ _, logged))).
  { eapply triple_orFail; [by apply triple_sysFail, logged_CopyFile|done|]. intros ?.
    eapply triple_orFail; [apply logged_lookup|done|]. intros ?. apply logged_sysFail, logged_Rename. }
  intros [e|[]]; [|apply logged_sysFail, logged_Remove]. eapply triple_bind; [apply logged_Remove|]. intros ?. by apply triple_ret.
Qed.

Lemma logged_finishStaged p orphan : triple logged (finishStaged K gzip p orphan) (λ _, logged) logged.
Proof.
  unfold finishStaged. eapply triple_bind; [apply logged_lookup|]. intros [e|[]]; [by apply triple_ret| |by apply triple_ret].
  eapply triple_bind; [apply logged_openOurs|]. intros [e|i]; [by apply triple_ret|].
  eapply triple_bind; [apply triple_Fstat, logged_stable|]. intros [e|n]; [by apply triple_ret|].
  destruct (orphan && _); [apply triple_ret; by intros s [? _]|].
  eapply triple_bind; [eapply triple_pre; [apply triple_tryLock, logged_stable|by intros s [? _]]|].
  assert (triple logged (same ← namesFile K (stagingName p) i;
    if same : bool then compress K gzip (stagingName p) (backupName p 1) else mret (Some EBusy)) (λ _, logged) logged) as Hl.
  { eapply triple_bind; [apply triple_namesFile, logged_stable|]. intros []; [apply logged_compress|by apply triple_ret]. }
  intros []; [done|by apply triple_ret|]. destruct orphan; [by apply triple_ret|done].
Qed.

Lemma logged_finishOrphans p : triple logged (finishOrphans K gzip p) (λ _, logged) logged.
Proof.
  unfold finishOrphans. eapply triple_bind; [apply triple_ReadDir, logged_stable|]. intros [e|entries]; [by apply triple_ret|].
  induction entries as [|e rest IH]; [by apply triple_ret|]. cbn [finishEach].
  repeat case_match; try apply IH. eapply triple_bind; [apply logged_finishStaged|]. intros ?. apply IH.
Qed.

Lemma logged_shiftBackups p keep : triple logged (shiftBackups K p keep) (λ _, logged) logged.
Proof.
  unfold shiftBackups. eapply (triple_bind _ _ _ (fpost logged (λ _, logged))).
  { generalize (seq 1 (keep + 1)). intros gens. induction gens as [|g gens IH]; [by apply triple_ret|]. cbn [checkSlots].
    eapply triple_orFail; [apply logged_lookup|done|]. by intros ?. }
  intros [e|[]]; [by apply triple_ret|]. eapply (triple_bind _ _ _ (λ _, logged)); [by intros s Hs|]. intros n.
  eapply (triple_bind _ _ _ (λ _, logged)).
  - generalize (keep + 1)%nat, (S n). intros g fuel. revert g. induction fuel as [|fuel IH]; intros g; [by apply triple_ret|]. cbn [dropBeyond].
    eapply triple_bind; [apply logged_lookup|]. intros [e|[]]; [by apply triple_ret| |by apply triple_ret].
    eapply triple_bind; [apply logged_Remove|]. intros [e|[]]; [by apply triple_ret|apply IH].
  - intros ?. generalize false. generalize keep at 2. intros g. induction g as [|g IH]; intros parked; [by apply triple_ret|]. cbn [shiftUp].
    eapply triple_bind; [apply logged_Rename|]. intros [[]|[]]; [apply IH|by apply triple_ret|apply IH].
Qed.

Lemma logged_createStaged src dst : triple logged (createStaged K src dst) (λ _, logged) logged.
Proof.
  unfold createStaged. eapply (triple_orFail _ _ _ logged (λ o s, o ≠ logFd K ∧ logged s)); [apply triple_sysFail, logged_OpenExcl|done|].
  intros o. apply triple_pure. intros Ho. eapply triple_orFail; [apply triple_holdStaged, logged_stable|done|]. intros held.
  eapply triple_bind; [by apply logged_CopyFile|]. intros [e|[]]; [|by apply triple_ret].
  eapply triple_bind; [apply logged_Remove|]. intros ?. by apply triple_ret.
Qed.

Lemma logged_dropParked p keep parked : triple logged (dropParked K p keep parked) (λ _, logged) logged.
Proof. apply triple_dropParked; [apply logged_stable|done|done]. Qed.

Lemma logged_stageIf keep src p : triple logged (stageIf K gzip keep src p) (λ _, logged) logged.
Proof.
  unfold stageIf, stage. destruct (0 <? keep)%nat; [|by apply triple_ret]. destruct (checkDir K p.1); [by apply triple_ret|].
  eapply triple_bind; [apply logged_finishStaged|]. intros [e|]; [by apply triple_ret|].
  eapply triple_bind; [apply logged_shiftBackups|]. intros [parked [e|]].
  - eapply triple_bind; [apply logged_dropParked|]. intros ?. by apply triple_ret.
  - eapply triple_bind; [apply logged_createStaged|]. intros [e|held]; [|by apply triple_ret].
    eapply triple_bind; [apply logged_dropParked|]. intros ?. by apply triple_ret.
Qed.
End Grow.

(** ** A whole round *)

Section Round.
Context (gzip : bytes → bytes) (r : Rotator) (p : list bytes * bytes) (s0 : FS).
Local Abbreviation b := (backupName p).
Local Abbreviation st := (stagingName p).
Local Abbreviation keep := (maxBackups r).

(** A generation with this content. *)
Definition holdsGen (s : FS) (g : nat) (c : bytes) : Prop := ∃ i, names s !! b g = Some i ∧ textOf s i = c.

(** The log is at its path, and a generation beside an interrupted copy is of that copy. *)
Record placed (s : FS) : Prop := {
  pl_wf : wf s;
  pl_log : names s !! p = Some (logFd K);
  pl_copy : interruptedOk p gzip s }.

Context (H0 : placed s0) (Hfd : fdPath K = Some p) (Hplain : ¬ orphanName p p)
  (Hbound : genBound (keep + 6 + size (names s0))).

Record rest (s : FS) : Prop := {
  rs_F : Frame (logcapName p) s0 s;
  rs_copy : interruptedOk p gzip s;
  rs_row g c : (1 ≤ g < keep)%nat → holdsGen s0 g c → holdsGen s g c ∨ holdsGen s (S g) c }.

Lemma plain : ¬ logcapName p p.
Proof. intros [H|H]; [by apply (own_irrefl p)|done]. Qed.

Lemma at_log X s : (∀ q, X q → logcapName p q) → Frame X s0 s → names s !! p = Some (logFd K).
Proof.
  intros HX HF. destruct (fr_names _ _ _ HF p) as [->|(Hx & _)]; [apply (pl_log _ H0)|]. by destruct plain; auto.
Qed.
Lemma not_log X s q i : (∀ q, X q → logcapName p q) → Frame X s0 s → logcapName p q → names s !! q = Some i → i ≠ logFd K.
Proof.
  intros HX HF Hq E ->. apply plain. pose proof (at_log X s HX HF) as Ep.
  by rewrite (wf_inj _ (fr_wf _ _ _ HF) _ _ _ Ep E) at 2.
Qed.
Lemma own_logcap q : ownName p q → logcapName p q. Proof. by left. Qed.
Lemma copy_logcap q : copyName p q → logcapName p q. Proof. intros H. by left; apply copy_own. Qed.
Lemma b_logcap g : logcapName p (b g). Proof. left. apply own_b. Qed.
Lemma st_logcap : logcapName p st. Proof. by left; left. Qed.

Lemma not_log0 q i : logcapName p q → names s0 !! q = Some i → i ≠ logFd K.
Proof. apply (not_log (logcapName p) s0); [done|]. apply frame_refl, (pl_wf _ H0). Qed.

(** The names and the files behind them are as in [s0], or the interrupted copy is
    being finished. *)
Lemma compressing_gen s g c : compressing gzip p s0 s → holdsGen s0 g c → (1 ≤ g)%nat → holdsGen s g c.
Proof.
  intros [HF HC] (i & Ei & Et) Hg. pose proof (pl_wf _ H0) as Hw.
  assert (textOf s i = textOf s0 i) as Ets.
  { apply (textOf_frame _ _ _ _ HF); [by eapply wf_names|].
    by eapply not_log0; [apply (b_logcap g)|]. }
  destruct (decide (names s !! b g = names s0 !! b g)) as [E|Hne]; [exists i; split; congruence|].
  destruct (fr_names _ _ _ HF (b g)) as [?|(Hx & _)]; [done|].
  assert (b g = b 1) as Eb.
  { destruct Hx as [Hx|[Hx|Hx]]; [|done|]; [by destruct (backup_staging p g p)|by destruct (backup_tmp p g (b 1))]. }
  rewrite Eb in *. destruct HC as [[? _]|[(j & k & Hj & Ed & Ek & Hk) _]]; [done|].
  exists j. split; [by rewrite Eb|]. rewrite <-Et, (pl_copy _ H0 _ _ Ek Ei). apply Hk.
  by eapply not_log0; [apply st_logcap|].
Qed.

Lemma compressing_rest s : compressing gzip p s0 s → rest s.
Proof.
  intros HC. pose proof HC as [HF HC']. split.
  - eapply frame_mono; [apply copy_logcap|done].
  - intros i j Ei Ej. pose proof (pl_wf _ H0) as Hw.
    destruct HC' as [[Ed Es]|[(j' & k & Hj & Ed & Ek & Hk) Hs]].
    + rewrite Es in Ei. rewrite Ed in Ej.
      assert (i ≠ logFd K) by (by eapply not_log0; [apply st_logcap|]).
      assert (j ≠ logFd K) by (by eapply not_log0; [apply (b_logcap 1)|]).
      assert (i < fresh s0 ∧ j < fresh s0)%nat as [? ?] by (split; by eapply (wf_names _ Hw)).
      rewrite !(textOf_frame _ _ _ _ HF) by done. by apply (pl_copy _ H0).
    + destruct Hs as [Hs|Hs]; [|congruence]. assert (k = i) as -> by congruence. assert (j' = j) as -> by congruence.
      assert (i ≠ logFd K) as Hl by (by eapply not_log0; [apply st_logcap|]).
      rewrite Hk by done. f_equal. symmetry. apply (textOf_frame _ _ _ _ HF); [by eapply wf_names|done].
  - intros g c Hg H. left. apply compressing_gen; [done|done|lia].
Qed.

Lemma rest_same s s' : rest s → Frame (logcapName p) s0 s' → names s' = names s →
  (∀ i, i ≠ logFd K → textOf s' i = textOf s i) → rest s'.
Proof.
  intros [HF Hc Hrow] HF' En Ht.
  assert (∀ q i, logcapName p q → names s !! q = Some i → textOf s' i = textOf s i) as Htq.
  { intros q i Hq E. apply Ht. by eapply (not_log (logcapName p) s). }
  assert (∀ g c, holdsGen s g c → holdsGen s' g c) as Hg.
  { intros g c (i & Ei & Et). exists i. rewrite En, (Htq (b g) i); [done|apply b_logcap|done]. }
  split; [done| |].
  - intros i j. rewrite En. intros Ei Ej. rewrite (Htq st i), (Htq (b 1) j); [auto|apply b_logcap|done|apply st_logcap|done].
  - intros g c Hgc H. destruct (Hrow g c Hgc H); eauto.
Qed.
Lemma rest_truncated s : rest s → rest (set_text s (logFd K) []).
Proof.
  intros H. apply (rest_same s); [done|apply frame_set_text; [by right|apply H]|done|].
  intros i Hi. unfold textOf. simpl. by rewrite lookup_alter_ne.
Qed.
Lemma rest_stable : stable rest.
Proof.
  intros s H. apply (rest_same s); [done|apply frame_stable; [apply (pl_wf _ H0)|apply H]|done|].
  intros i Hi. by apply textOf_enter.
Qed.

(** From the state in which the interrupted copy is finished. *)
Lemma kept_rest s1 s : compressing gzip p s0 s1 → kept' p keep s1 gzip s → rest s.
Proof.
  intros HC [HF Hc Hrow]. pose proof HC as [HF1 _]. split; [|done|].
  - eapply frame_trans; [apply (pl_wf _ H0)|eapply frame_mono; [apply copy_logcap|exact HF1]|done].
  - intros g c Hg H. apply (compressing_gen s1) in H as (i & Ei & Et); [|done|lia].
    assert (textOf s i = c) as Ets.
    { rewrite <-Et. apply (textOf_frame _ _ _ _ HF); [by eapply (wf_names _ (fr_wf _ _ _ HF1))|].
      by eapply (not_log (copyName p) s1); [apply copy_logcap|done|apply (b_logcap g)|]. }
    destruct (Hrow g i Hg Ei); [left|right]; by exists i.
Qed.

Lemma size_compressing s : compressing gzip p s0 s → (size (names s) ≤ size (names s0) + 3)%nat.
Proof.
  intros [HF _].
  assert (dom (names s) ⊆ dom (names s0) ∪ {[st; b 1; tmpName (b 1)]}) as Hd.
  { intros q Hq. destruct (fr_names _ _ _ HF q) as [E|([->|[->| ->]] & _)]; [|set_solver..].
    apply elem_of_dom in Hq. rewrite E in Hq. apply elem_of_dom in Hq. set_solver. }
  apply subseteq_size in Hd. rewrite size_dom in Hd.
  pose proof (size_union_alt (dom (names s0)) {[st; b 1; tmpName (b 1)]}) as Hu.
  rewrite size_dom in Hu. etrans; [exact Hd|]. rewrite Hu. apply Nat.add_le_mono_l.
  etrans; [apply (subseteq_size _ {[st; b 1; tmpName (b 1)]}); set_solver|].
  rewrite !size_union_alt, !size_singleton.
  assert (∀ (x : list bytes * bytes) (Y : gset (list bytes * bytes)), size ({[x]} ∖ Y) ≤ 1)%nat as H1.
  { intros x Y. etrans; [apply (subseteq_size _ {[x]}); set_solver|by rewrite size_singleton]. }
  pose proof (H1 (b 1) {[st]}). pose proof (H1 (tmpName (b 1)) ({[st]} ∪ {[b 1]})). lia.
Qed.

Definition here (s : FS) : Prop := same_names p s0 s.
Lemma here_stable : stable here.
Proof. apply same_names_stable, (pl_wf _ H0). Qed.
Lemma here_rest s : here s → rest s.
Proof. intros H. by apply compressing_rest, same_compressing. Qed.

Lemma triple_rotateNone q parked e : triple rest (rotateAt K gzip r q None parked e) (λ _, rest) rest.
Proof.
  unfold rotateAt. eapply (triple_bind _ _ _ (fpost rest (λ _, rest))); [apply triple_truncate; [apply rest_stable|apply rest_truncated]|].
  intros [?|[]]; [by apply triple_ret|]. eapply (triple_bind _ _ _ (λ _, rest)); [by apply triple_ret|]. intros ?. by apply triple_ret.
Qed.

(** Staging ended with a copy, after the generations of some [s1] moved. *)
Definition staged (parked : bool) (s : FS) : Prop :=
  ∃ s1, compressing gzip p s0 s1 ∧ names s1 !! st = None ∧ slotsOurs p keep s1 ∧ ready p keep s1 parked s.

Lemma bound_compressing s1 : compressing gzip p s0 s1 → genBound (keep + 3 + size (names s1)).
Proof. intros H%size_compressing. unfold genBound in *. lia. Qed.

Lemma triple_stage log : (1 ≤ keep)%nat → triple here (stage K gzip log p keep)
  (λ a s, match a.1.1 with None => rest s | Some _ => staged a.1.2 s end) rest.
Proof.
  intros Hk. unfold stage. destruct (checkDir K p.1) as [e|]; [apply triple_ret, here_rest|].
  eapply triple_bind; [eapply triple_crash; [apply triple_finishStaged, (pl_wf _ H0)|apply compressing_rest]|].
  intros [e|]; [apply triple_ret; intros s [? _]; by apply compressing_rest|].
  apply triple_at. intros s1 [HC Hs]. specialize (Hs eq_refl eq_refl). pose proof HC as [HF1 _].
  pose proof (fr_wf _ _ _ HF1) as Hw1. pose proof (at_log _ _ copy_logcap HF1) as Hp1.
  assert (∀ s, kept p keep s1 gzip s → rest s) as Hr by (intros s H; by apply (kept_rest s1), kept_kept').
  eapply triple_conseq; [apply (triple_stageTail p keep s1 Hw1 Hk (bound_compressing _ HC) Hs gzip log)|..]; [|..|done].
  - intros s ->. split; [by apply frame_refl|done].
  - intros [[[held|] parked] e] s; unfold stageEnd; simpl; [|auto]. intros [? ?]. by exists s1.
Qed.

Lemma triple_exists {A X} (P : X → FS → Prop) (m : M A) Q C : (∀ x, triple (P x) m Q C) → triple (λ s, ∃ x, P x s) m Q C.
Proof. intros H s [x Hx]. by apply (H x). Qed.

Lemma triple_rotateOwn log :
  triple here ('(staged, parked, e) ← stageIf K gzip keep log p; rotateAt K gzip r p staged parked e) (λ _, rest) rest.
Proof.
  eapply (triple_bind _ _ _ (λ a s, match a.1.1 with None => rest s | Some _ => (1 ≤ keep)%nat ∧ staged a.1.2 s end)).
  - unfold stageIf. destruct (Nat.ltb_spec 0 keep) as [Hk|_]; [|apply triple_ret, here_rest].
    eapply triple_conseq; [by apply triple_stage|done| |done]. intros [[[held|] parked] e] s; simpl; auto.
  - intros [[[held|] parked] e]; simpl; [|apply triple_rotateNone].
    apply triple_pure. intros Hk. apply triple_exists. intros s1.
    eapply triple_pre; [apply (triple_pure (compressing gzip p s0 s1 ∧ names s1 !! st = None ∧ slotsOurs p keep s1)); intros (HC & Hs & Ho)|].
    2:{ intros s (? & ? & ? & H). by split_and!; [..|exact H]. }
    pose proof HC as [HF1 _]. pose proof (fr_wf _ _ _ HF1) as Hw1. pose proof (at_log _ _ copy_logcap HF1) as Hp1.
    eapply triple_conseq; [apply (triple_rotateStaged p keep s1 Hw1 Hk (bound_compressing _ HC) Hs gzip Hp1 r parked held e eq_refl Ho)|done|..];
      intros; by apply (kept_rest s1).
Qed.

Lemma triple_openByPath I : stable I →
  triple I (openByPath K) (λ a s, (a.1 = Some p ∧ ∀ i, a.2 = inr i → i = logFd K) ∧ I s) I.
Proof.
  intros HI. unfold openByPath. rewrite Hfd.
  eapply (triple_bind _ _ _ (λ a s, (∀ i, a = inr i → i = logFd K) ∧ I s)); [|intros x; apply triple_ret; intros s [? ?]; by split_and!].
  eapply triple_orFail; [by apply triple_sysFail, triple_OpenRead|by intros e s ?; split|]. intros i.
  eapply triple_bind; [eapply triple_pre; [by apply triple_Fstat|by intros s [? _]]|].
  intros [e|n]; apply triple_ret; [by intros s ?; split|]. intros s [? _]. split; [|done].
  intros j. destruct (Nat.eqb_spec i (logFd K)) as [->|]; congruence.
Qed.

(** A round up to the rotation. *)
Lemma triple_toRotate I C (Q : bool * option LErr → FS → Prop) : stable I → (∀ s, I s → C s) →
  (∀ e s, I s → Q (false, e) s) →
  (∀ e, triple I (rotateAt K gzip r ([], []) None false (Some e)) Q C) →
  triple I ('(staged, parked, e) ← stageIf K gzip keep (logFd K) p; rotateAt K gzip r p staged parked e) Q C →
  triple I (Check K gzip r) Q C.
Proof.
  intros HI HC HQ Hnone Hown. unfold Check. eapply triple_bind; [eapply triple_crash; [by apply triple_Fstat|done]|].
  intros [e|n]; cbn [fpost]; [by apply triple_ret, HQ|].
  destruct (negb _ || _); [apply triple_ret; intros s [? _]; by apply HQ|].
  unfold rotate. eapply triple_bind; [eapply triple_conseq; [by apply (triple_openByPath I)|by intros s [? _]|intros a s H; exact H|done]|].
  intros [path src]. apply triple_pure. simpl. intros [-> Hi]. destruct src as [e|i].
  - apply Hnone.
  - rewrite (Hi i eq_refl). destruct (negb (inScope K r p)); [by apply triple_ret, HQ|apply Hown].
Qed.

Lemma triple_Check : triple here (Check K gzip r) (λ _, rest) rest.
Proof.
  apply triple_toRotate; [apply here_stable|apply here_rest|intros _; apply here_rest| |apply triple_rotateOwn].
  intros e. eapply triple_pre; [apply triple_rotateNone|apply here_rest].
Qed.

Lemma here_s0 : here s0.
Proof. split; [apply frame_refl, (pl_wf _ H0)|done]. Qed.
Lemma Check_rest : rest (Check K gzip r s0).2.
Proof. pose proof (triple_Check s0 here_s0) as H. by destruct (Check K gzip r s0) as [[a|] s]. Qed.

(** *** A round that succeeds *)

(** What other processes append to the log from call [k] on, up to call [n]. *)
Definition appended (k n : nat) : bytes := concat (grows K <$> seq k (n - k)).
Definition writtenSince (k : nat) : nat → bytes → Prop := λ n t, (k ≤ n)%nat ∧ t = appended k n.
Lemma written_app k n t : writtenSince k n t → writtenSince k (S n) (t ++ grows K n).
Proof.
  intros [Hk ->]. split; [lia|]. unfold appended. replace (S n - k)%nat with (S (n - k)) by lia.
  rewrite seq_S, fmap_app, concat_app. simpl. rewrite app_nil_r. by replace (k + (n - k))%nat with n by lia.
Qed.
Definition grewFrom (T : bytes) (k : nat) : nat → bytes → Prop := λ n t, ∃ u, writtenSince k n u ∧ t = T ++ u.
Lemma grew_app T k n t : grewFrom T k n t → grewFrom T k (S n) (t ++ grows K n).
Proof. intros (u & Hu & ->). exists (u ++ grows K n). split; [by apply written_app|by rewrite app_assoc]. Qed.

Local Abbreviation T0 := (textOf s0 (logFd K)).
Local Abbreviation grown := (logged (grewFrom T0 (calls s0))).
(** The text of the log at call [k]. *)
Definition logAt (k : nat) : bytes := T0 ++ appended (calls s0) k.
Definition hasCopy (s : FS) : Prop :=
  ∃ o k, names s !! st = Some o ∧ o ≠ logFd K ∧ (calls s0 ≤ k ≤ calls s)%nat ∧ textOf s o = logAt k.

Lemma grown_stable : stable grown.
Proof. apply logged_stable, grew_app. Qed.

Lemma triple_createCopy : triple grown (createStaged K (logFd K) st) (fpost grown (λ _ s, grown s ∧ hasCopy s)) grown.
Proof.
  unfold createStaged. set (I := λ o s, grown s ∧ o ≠ logFd K ∧ names s !! st = Some o ∧ is_Some (inodes s !! o)).
  assert (∀ o, stable (I o)) as HI.
  { intros o s (Hg & Ho & Hn & Hx). split_and!; [by apply grown_stable|done|done|by rewrite inodes_enter]. }
  eapply (triple_orFail _ _ _ grown I); [|done|].
  { apply triple_sysFail, triple_OpenExcl; [apply grown_stable|]. intros s Hs _.
    destruct (logged_created (grewFrom T0 (calls s0)) s st Hs) as [Hne Hg]. split_and!; [done|done|apply lookup_insert_eq|].
    simpl. rewrite lookup_insert_eq. by eexists. }
  intros o. eapply (triple_orFail _ _ _ (I o) (λ _, I o)); [|by intros e s [? _]|].
  { eapply triple_crash; [by apply triple_holdStaged|by intros s [? _]]. }
  intros held. eapply triple_bind.
  { apply (triple_CopyFile (I o) grown (λ s, grown s ∧ hasCopy s)); [done|..].
    - intros s t (Hg & Ho & _). by apply logged_text.
    - intros s (Hg & Ho & Hn & Hx). split; [by apply logged_text|]. 
      destruct Hg as (_ & _ & u & [Hk ->] & Et). exists o, (calls s). split; [done|]. split; [done|]. split; [done|].
      rewrite textOf_set by done. exact Et. }
  intros [e|[]]; [|by apply triple_ret]. eapply triple_bind; [apply logged_Remove, grew_app|]. intros ?. by apply triple_ret.
Qed.

Lemma triple_stageCopy : triple grown (stage K gzip (logFd K) p keep)
  (λ a s, grown s ∧ match a.1.1 with Some _ => hasCopy s ∧ a.2 = None | None => a.2 ≠ None end) grown.
Proof.
  unfold stage. destruct (checkDir K p.1); [by apply triple_ret|].
  eapply triple_bind; [apply logged_finishStaged, grew_app|]. intros [e|]; [by apply triple_ret|].
  eapply triple_bind; [apply logged_shiftBackups, grew_app|]. intros [parked [e|]].
  - eapply triple_bind; [apply logged_dropParked, grew_app|]. intros ?. by apply triple_ret.
  - eapply triple_bind; [apply triple_createCopy|]. intros [e|held]; cbn [fpost].
    + eapply triple_bind; [apply logged_dropParked, grew_app|]. intros ?. by apply triple_ret.
    + apply triple_ret. by intros s [? ?].
Qed.

Lemma triple_conj {A} I (m : M A) Q1 Q2 C1 C2 :
  triple I m Q1 C1 → triple I m Q2 C2 → triple I m (λ a s, Q1 a s ∧ Q2 a s) (λ s, C1 s ∧ C2 s).
Proof. intros H1 H2 s Hs. specialize (H1 s Hs). specialize (H2 s Hs). by destruct (m s) as [[a|] s']. Qed.

(** The backup is there: the text of the log at call [k] is generation 1, every older one has moved
    up, and no copy is left. *)
Definition backedUp (k : nat) (s : FS) : Prop :=
  names s !! st = None ∧ holdsGen s 1 (gzip (logAt k)) ∧
  ∀ g c, (1 ≤ g < keep)%nat → holdsGen s0 g c → holdsGen s (S g) c.

Lemma saved_backedUp s1 k s : compressing gzip p s0 s1 → saved p keep s1 gzip (logAt k) s → backedUp k s.
Proof.
  intros HC [HF Hs Hfirst Hrow]. split_and!; [done|done|]. pose proof HC as [HF1 _].
  intros g c Hg H. apply (compressing_gen s1) in H as (i & Ei & Et); [|done|lia].
  exists i. rewrite Hrow by done. split; [done|]. rewrite <-Et.
  apply (textOf_frame _ _ _ _ HF); [by eapply (wf_names _ (fr_wf _ _ _ HF1))|].
  by eapply (not_log (copyName p) s1); [apply copy_logcap|done|apply (b_logcap g)|].
Qed.

Lemma rotateNone_err q parked e : triple (λ _, e ≠ None) (rotateAt K gzip r q None parked e) (λ a _, a ≠ (true, None)) (λ _, True).
Proof.
  intros s He. unfold rotateAt, mbind, M_bind. destruct (truncate K s) as [[[e'|[]]|] s']; simpl; [done| |done].
  intros [= ->]. done.
Qed.

Lemma logged_settleCopy P q staged' parked e : (∀ n t, P n t → P (S n) (t ++ grows K n)) →
  triple (logged P) (settleCopy K gzip r q staged' parked e) (λ _, logged P) (logged P).
Proof.
  intros HP. unfold settleCopy. destruct staged'; [|by apply triple_ret].
  eapply triple_bind; [by apply logged_dropParked|]. intros ?. eapply triple_bind; [by apply logged_compress|]. intros c.
  destruct (isWithinDir K r q.1); [|by apply triple_ret]. eapply triple_bind; [by apply logged_finishOrphans|]. intros ?. by apply triple_ret.
Qed.

(** What the log holds after a rotation was written since the truncation. *)
Definition emptied (k0 : nat) (s : FS) : Prop := ∃ k, (k0 ≤ k)%nat ∧ logged (writtenSince k) s.
Lemma triple_rotateEmptied k0 q staged' parked e :
  triple (logged (λ n _, (k0 ≤ n)%nat)) (rotateAt K gzip r q staged' parked e) (λ a s, a.1 = true → emptied k0 s) (λ _, True).
Proof.
  set (P := λ (n : nat) (_ : bytes), (k0 ≤ n)%nat).
  assert (∀ n t, P n t → P (S n) (t ++ grows K n)) as HP by (unfold P; lia). unfold rotateAt.
  eapply (triple_bind _ _ _ (fpost (logged P) (λ _, emptied k0))).
  - eapply triple_crash; [apply triple_truncate; [by apply logged_stable|]|done].
    intros s1 (Hf & Hn & Hc). exists (calls s1). split; [done|]. unfold logged, textOf. simpl. rewrite lookup_alter_eq.
    destruct Hn as [n ->]. simpl. split_and!; [done|by eexists|]. split; [lia|]. unfold appended. by rewrite Nat.sub_diag.
  - intros [e''|[]]; cbn [fpost].
    + intros s1 _. destruct staged'; [|done]. unfold mbind, M_bind. by destruct (unstage _ _ _ _ _) as [[?|] ?].
    + apply triple_exists. intros k. apply triple_pure. intros Hk.
      eapply triple_bind; [eapply triple_crash; [apply logged_settleCopy, written_app|done]|]. intros e''.
      apply triple_ret. intros s1 Hs _. by exists k.
Qed.

(** A round that succeeds copied the log at some call and emptied it at a later one. *)
Definition rotated (s : FS) : Prop := ∃ k, (calls s0 ≤ k)%nat ∧ backedUp k s ∧ emptied k s.

Lemma triple_rotateOwnGood : (1 ≤ keep)%nat →
  triple (λ s, here s ∧ grown s) ('(staged, parked, e) ← stageIf K gzip keep (logFd K) p; rotateAt K gzip r p staged parked e)
    (λ a s, a = (true, None) → rotated s) (λ _, True).
Proof.
  intros Hk. unfold stageIf. destruct (Nat.ltb_spec 0 keep) as [_|]; [|lia].
  eapply triple_bind.
  { eapply triple_crash; [apply triple_conj; [eapply triple_pre; [by apply triple_stage|by intros s [? _]]|
      eapply triple_pre; [apply triple_stageCopy|by intros s [_ ?]]]|done]. }
  intros [[[held|] parked] e]; cbn [fst snd].
  - intros s. intros [(s1 & HC & Hs & Ho & Hr) [Hgr H]]. destruct H as [(o & k & Eo & Hl & Hkk & Ht) ->].
    pose proof HC as [HF1 _]. pose proof (fr_wf _ _ _ HF1) as Hw1. pose proof (at_log _ _ copy_logcap HF1) as Hp1.
    pose proof (triple_rotateGood p keep s1 Hw1 Hk (bound_compressing _ HC) gzip Hp1 r parked held (textOf s o) eq_refl Ho Hplain s) as Hg.
    specialize (Hg ltac:(split; [done|by exists o])).
    pose proof (triple_rotateEmptied k p (Some held) parked None s) as He.
    specialize (He ltac:(destruct Hgr as (? & ? & _); split_and!; [done|done|lia])).
    destruct (rotateAt K gzip r p (Some held) parked None s) as [[a|] s']; [|done].
    intros ->. exists k. split_and!; [lia| |by apply He]. eapply saved_backedUp; [done|]. rewrite <-Ht. by apply Hg.
  - eapply triple_conseq; [apply (rotateNone_err p parked e)|by intros s [_ [_ ?]]| |done]. intros a s Ha E. destruct (Ha E).
Qed.

Lemma logged_s0 (P : nat → bytes → Prop) : P (calls s0) T0 → logged P s0.
Proof. intros HP. destruct (wf_names _ (pl_wf _ H0) _ _ (pl_log _ H0)) as [? ?]. by split_and!. Qed.

Lemma Check_rotated s : (1 ≤ keep)%nat → Check K gzip r s0 = (Some (true, None), s) → rotated s.
Proof.
  intros Hk E.
  assert (triple (λ s, here s ∧ grown s) (Check K gzip r) (λ a s, a = (true, None) → rotated s) (λ _, True)) as HT.
  { apply triple_toRotate; [apply stable_and; [apply here_stable|apply grown_stable]|done|done| |by apply triple_rotateOwnGood].
    intros e. eapply triple_conseq; [apply rotateNone_err|done| |done]. intros a s1 Ha E1. destruct (Ha E1). }
  specialize (HT s0). rewrite E in HT. apply HT; [|done]. split; [apply here_s0|]. apply logged_s0.
  exists []. rewrite app_nil_r. split; [|done]. split; [lia|]. unfold appended. by rewrite Nat.sub_diag.
Qed.

(** *** A round that is undone *)
Lemma unstage_restores held parked e s s' : (1 ≤ keep)%nat → names s0 !! st = None →
  stage K gzip (logFd K) p keep s0 = (Some (Some held, parked, e), s) → unstage K p keep parked s = (Some None, s') →
  names s' !! st = None ∧ ∀ g, (1 ≤ g ≤ keep)%nat → names s' !! b g = names s0 !! b g ∧ ∀ c, holdsGen s0 g c → holdsGen s' g c.
Proof.
  intros Hk Hs0 Es Eu. pose proof (triple_stage (logFd K) Hk s0 here_s0) as Ht. rewrite Es in Ht.
  destruct Ht as (s1 & HC & Hs & Ho & Hr). pose proof HC as [HF1 HC']. pose proof (fr_wf _ _ _ HF1) as Hw1.
  pose proof (triple_unstage p keep s1 Hw1 Hk (bound_compressing _ HC) Hs gzip parked Ho s Hr) as Hu. rewrite Eu in Hu.
  destruct Hu as [[HJ _ _] Hu]. destruct (Hu eq_refl) as [Hst Hg]. split; [done|]. intros g Hgk.
  assert (names s1 !! b g = names s0 !! b g) as E1.
  { destruct (fr_names _ _ _ HF1 (b g)) as [?|([Hx|[Hx|Hx]] & _)]; [done|..].
    - by destruct (backup_staging p g p).
    - rewrite Hx. destruct HC' as [[? _]|[(j & i & _ & _ & Ei & _) _]]; [done|congruence].
    - by destruct (backup_tmp p g (b 1)). }
  split; [by rewrite Hg|]. intros c (i & Ei & Et). exists i. rewrite Hg, E1 by done. split; [done|].
  destruct (wf_names _ (pl_wf _ H0) _ _ Ei) as [Hlt _]. pose proof (not_log0 _ _ (b_logcap g) Ei) as Hl.
  pose proof (fr_fresh _ _ _ HF1). rewrite <-Et. rewrite (textOf_frame _ _ _ _ HJ) by (lia || done).
  by apply (textOf_frame _ _ _ _ HF1).
Qed.
End Round.

End Calls.
