(* ===== verification/LogCapTheorems.v ===== *)
(** * Theorems on log rotation (model in LogCap) *)
From stdpp Require Import strings.
From S2P Require Import Prelude GoText Json LogCap LogCapProofs.
Open Scope Z_scope.

Section Theorems.
Context (K : Kernel) (gzip : bytes → bytes) (r : Rotator) (p : list bytes * bytes) (s : FS).
Hypothesis Hplaced : placed K gzip p s.
Hypothesis Hpath : fdPath K = Some p.
Hypothesis Hname : ¬ orphanName p p.
Hypothesis Hbound : genBound (maxBackups r + 6 + size (names s)).

(** C28. Generations survive.  Whatever system calls fail in a round and wherever the process
    dies in it: a generation but the oldest is still there, in its place or the next
    one up, with its content.  The next round starts from a state of the same kind, in
    which an interrupted copy does not overwrite another generation. *)
Theorem generations_survive :
  let s' := (Check K gzip r s).2 in
  placed K gzip p s' ∧
  ∀ g c, (1 ≤ g < maxBackups r)%nat → holdsGen p s g c → holdsGen p s' g c ∨ holdsGen p s' (S g) c.
Proof.
  destruct (Check_rest K gzip r p s Hplaced Hpath Hname Hbound) as [HF Hc Hrow]. split; [|done].
  split; [apply HF|by eapply at_log|done].
Qed.

(** Other files are left alone.  Whatever fails and wherever the process dies: the only
    names that change are those of the log's own copies and generations and of the
    copies of logs of daemons started by hand, where nothing or a regular file of this
    user was before; and no file that existed changes its content, but the log. *)
Theorem rotation_touches_only_its_files :
  let s' := (Check K gzip r s).2 in
  (∀ q, names s' !! q = names s !! q ∨ (logcapName p q ∧ oursAt K s q)) ∧
  (∀ i, (i < fresh s)%nat → i ≠ logFd K → inodes s' !! i = inodes s !! i).
Proof.
  destruct (Check_rest K gzip r p s Hplaced Hpath Hname Hbound) as [HF _ _]. split; [|apply HF].
  intros q. destruct (fr_names _ _ _ _ HF q) as [?|(? & ? & _)]; auto.
Qed.

(** C29. With at least one generation kept (MaxBackups 1 or more; 0 truncates without a
    backup), a round that reports a rotation without an error kept the log: there are
    two moments of the round such that generation 1 holds, compressed, what the log
    held at the start and everything appended up to the first, the log holds exactly
    what was appended since the second, and only what was appended between the two is
    lost; every older generation moved up by one, and no copy is left. *)
Theorem rotation_keeps_backup s' : (1 ≤ maxBackups r)%nat → Check K gzip r s = (Some (true, None), s') →
  names s' !! stagingName p = None ∧
  (∃ k k', (calls s ≤ k ≤ k')%nat ∧ (k' ≤ calls s')%nat ∧
     holdsGen p s' 1 (gzip (textOf s (logFd K) ++ concat (grows K <$> seq (calls s) (k - calls s)))) ∧
     textOf s' (logFd K) = concat (grows K <$> seq k' (calls s' - k'))) ∧
  (∀ g c, (1 ≤ g < maxBackups r)%nat → holdsGen p s g c → holdsGen p s' (S g) c).
Proof.
  intros Hk E.
  destruct (Check_rotated K gzip r p s Hplaced Hpath Hname Hbound s' Hk E) as (k & ? & (? & ? & ?) & k' & ? & _ & _ & ? & ?).
  split_and!; [done| |done]. exists k, k'. by split_and!.
Qed.

(** Undoing a backup after the log could not be truncated puts every generation back and
    removes the copy. *)
Theorem unstage_undoes_stage held parked e s1 s2 : (1 ≤ maxBackups r)%nat → names s !! stagingName p = None →
  stage K gzip (logFd K) p (maxBackups r) s = (Some (Some held, parked, e), s1) →
  unstage K p (maxBackups r) parked s1 = (Some None, s2) →
  names s2 !! stagingName p = None ∧
  ∀ g, (1 ≤ g ≤ maxBackups r)%nat → names s2 !! backupName p g = names s !! backupName p g ∧
    ∀ c, holdsGen p s g c → holdsGen p s2 g c.
Proof. apply (unstage_restores K gzip r p s Hplaced Hpath Hname Hbound). Qed.
End Theorems.

(** The waits while the log cannot be truncated double, up to 64 intervals; an interval of
    up to a day does not overflow. *)
Theorem retries_back_off interval failures : 0 < interval <= 86400 * Second → 1 <= failures →
  retryAfter interval failures = interval * 2 ^ Z.min (failures - 1) 6 ∧
  interval <= retryAfter interval failures <= 64 * interval.
Proof.
  unfold retryAfter, maxRetryDoublings, Second. intros Hi Hf. rewrite Z.max_l by lia.
  assert (1 <= 2 ^ Z.min (failures - 1) 6 <= 64) as Hp.
  { split; [apply (Z.pow_le_mono_r 2 0); lia|]. apply (Z.pow_le_mono_r 2 _ 6); lia. }
  rewrite Z.shiftl_mul_pow2 by lia. unfold i64. rewrite Z.mod_small by nia. split; nia.
Qed.

(** ** A log with two generations *)

Definition demoPath : list bytes * bytes := ([str "home"; str "pilot"], str "daemon.log").
Definition demoFile (t : bytes) : Inode := mkInode Regular (Some 501) t.
Definition demoFS : FS := mkFS
  {[ demoPath := 0%nat; backupName demoPath 1 := 1%nat; backupName demoPath 2 := 2%nat ]}
  {[ 0%nat := demoFile [1; 2; 3; 4]; 1%nat := demoFile [11]; 2%nat := demoFile [22] ]} 3 0.
Definition demoKernel (v : nat → Call → Verdict) : Kernel := mkKernel v (λ _, [7]) (λ n, if (n =? 4)%nat then [5] else [])
  (λ _ _, Locked) (λ d, if bool_decide (d = demoPath.1) then Some (0%nat, true) else None)
  (λ d, Some (mkDirInfo true 493 (Some 501) (Some 20))) (λ _, None) None None 501 0 (Some demoPath).
Definition demoRotator : Rotator := NewRotator (mkOptions 3 2 false [demoPath.1] []).
Definition demoZip (t : bytes) : bytes := [31; 139] ++ t.

Definition gens (s : FS) : list (option bytes) :=
  (λ g, textOf s <$> names s !! backupName demoPath g) <$> [1; 2; 3]%nat.

Example demo_round : let '(res, s') := Check (demoKernel (λ _ _, Works)) demoZip demoRotator demoFS in
  res = Some (true, None) ∧ gens s' = [Some (demoZip [1; 2; 3; 4; 5]); Some [11]; None] ∧ textOf s' 0 = [].
Proof. vm_compute. done. Qed.

(** A full disk and a log that cannot be truncated: every round moves the generations
    up, drops the oldest, fails to copy and to truncate, and leaves it at that.  After
    two rounds nothing is left of two generations, and the log is as long as ever. *)
Example failed_copies_lose_generations :
  let K := demoKernel (λ _ c, match c with CCopy | CTruncate => Fails | _ => Works end) in
  let '(res1, s1) := Check K demoZip demoRotator demoFS in
  let '(res2, s2) := Check K demoZip demoRotator s1 in
  gens demoFS = [Some [11]; Some [22]; None] ∧
  res1 = Some (false, Some (ETruncate EOTHER false)) ∧ gens s1 = [None; Some [11]; None] ∧
  res2 = Some (false, Some (ETruncate EOTHER false)) ∧ gens s2 = [None; None; None] ∧
  textOf s2 0 = [1; 2; 3; 4; 5].
Proof. vm_compute. done. Qed.

(** Without the failing copy the shift is undone. *)
Example failed_truncation_is_undone :
  let K := demoKernel (λ _ c, match c with CTruncate => Fails | _ => Works end) in
  let '(res, s1) := Check K demoZip demoRotator demoFS in
  res = Some (false, Some (ETruncate EOTHER false)) ∧ gens s1 = gens demoFS ∧ textOf s1 0 = [1; 2; 3; 4; 5].
Proof. vm_compute. done. Qed.

(** A process that dies between the truncation and the compression: the next round
    finishes the copy, which is then generation 2. *)
Example interrupted_copy_is_finished :
  let dying := demoKernel (λ _ c, match c with CRemove => Dies | _ => Works end) in
  let '(res, s1) := Check dying demoZip demoRotator demoFS in
  let s2 := set_text s1 0 [6; 7; 8; 9] in
  let '(res', s3) := Check (demoKernel (λ _ _, Works)) demoZip demoRotator s2 in
  res = None ∧ textOf s1 0 = [] ∧ res' = Some (true, None) ∧ 
  gens s3 = [Some (demoZip [6; 7; 8; 9]); Some (demoZip [1; 2; 3; 4; 5]); None].
Proof. vm_compute. done. Qed.

Lemma demo_plain : ¬ orphanName demoPath demoPath.
Proof.
  intros (log & _ & _ & E). change demoPath with (demoPath.1, take 9 demoPath.2 ++ [103]) in E at 2.
  destruct E as [E|[E|E]]; [destruct (staging_end (demoPath.1, log)) as [l El]|destruct (backup_end (demoPath.1, log) 1) as [l El]|
     destruct (tmp_end (backupName (demoPath.1, log) 1)) as [l El]];
    rewrite El in E; apply (f_equal snd) in E; cbn [snd] in E; by apply app_inj_tail in E as [_ ?].
Qed.

Lemma demo_names q i : names demoFS !! q = Some i →
  q = demoPath ∧ i = 0%nat ∨ q = backupName demoPath 1 ∧ i = 1%nat ∨ q = backupName demoPath 2 ∧ i = 2%nat.
Proof.
  cbn [names demoFS]. rewrite !lookup_insert_Some, lookup_singleton_Some. intros [[<- <-]|[_ [[<- <-]|[_ [<- <-]]]]]; auto.
Qed.

Lemma demo_placed v : placed (demoKernel v) demoZip demoPath demoFS.
Proof.
  split; [split|done|].
  - intros q i [[-> ->]|[[-> ->]|[-> ->]]]%demo_names; (split; [cbn; lia|eexists; reflexivity]).
  - intros q q' i H1%demo_names H2%demo_names. naive_solver lia.
  - cbn. lia.
  - intros i j E. vm_compute in E. done.
Qed.
Lemma demo_bound : genBound (maxBackups demoRotator + 6 + size (names demoFS)).
Proof. vm_compute. done. Qed.

(** The process dies when it is about to move generation 1 up (call 9). *)
Lemma generations_survive_witness :
  let K := demoKernel (λ n c, if (n =? 9)%nat then Dies else Works) in
  (Check K demoZip demoRotator demoFS).1 = None ∧
  (holdsGen demoPath (Check K demoZip demoRotator demoFS).2 1 [11] ∨ holdsGen demoPath (Check K demoZip demoRotator demoFS).2 2 [11]).
Proof.
  split; [vm_compute; done|].
  apply (generations_survive _ demoZip demoRotator demoPath demoFS (demo_placed _) eq_refl demo_plain demo_bound).
  - cbn. lia.
  - exists 1%nat. split; vm_compute; done.
Defined.

Lemma rotation_touches_only_its_files_witness :
  let s' := (Check (demoKernel (λ _ _, Works)) demoZip demoRotator demoFS).2 in
  ∀ i, (i < 3)%nat → i ≠ 0%nat → inodes s' !! i = inodes demoFS !! i.
Proof.
  apply (rotation_touches_only_its_files (demoKernel (λ _ _, Works)) demoZip demoRotator demoPath demoFS (demo_placed _) eq_refl demo_plain demo_bound).
Defined.

Lemma rotation_keeps_backup_witness :
  let r := Check (demoKernel (λ _ _, Works)) demoZip demoRotator demoFS in
  let app i n := concat (grows (demoKernel (λ _ _, Works)) <$> seq i n) in
  r.1 = Some (true, None) ∧ ∃ k k', (0 ≤ k ≤ k')%nat ∧ (k' ≤ calls r.2)%nat ∧
    holdsGen demoPath r.2 1 (demoZip ([1; 2; 3; 4] ++ app 0%nat (k - 0)%nat)) ∧ textOf r.2 0 = app k' (calls r.2 - k')%nat.
Proof.
  split; [vm_compute; done|].
  apply (rotation_keeps_backup (demoKernel (λ _ _, Works)) demoZip demoRotator demoPath demoFS (demo_placed _) eq_refl demo_plain demo_bound);
    [cbn; lia|vm_compute; reflexivity].
Defined.

Lemma unstage_undoes_stage_witness :
  let K := demoKernel (λ _ _, Works) in
  let s1 := (stage K demoZip 0 demoPath 2 demoFS).2 in
  let s2 := (unstage K demoPath 2 true s1).2 in
  gens s1 = [None; Some [11]; Some [22]] ∧ ∀ c, holdsGen demoPath demoFS 2 c → holdsGen demoPath s2 2 c.
Proof.
  split; [vm_compute; done|].
  eapply (unstage_undoes_stage (demoKernel (λ _ _, Works)) demoZip demoRotator demoPath demoFS (demo_placed _) eq_refl demo_plain demo_bound);
    [cbn; lia|vm_compute; reflexivity|vm_compute; reflexivity|vm_compute; reflexivity|cbn; lia].
Defined.
