(* ===== verification/Router.v ===== *)
(** * The packet router and the upkeep of relayed paths (pkg/daemon/daemon.go:
    [handlePacket], [handleDatagramPacket], [handleControlPacket], [routeLoop],
    [relayProbeTick], [tryDirectUpgrade], [shouldAutoHandshake],
    [prewarmTrustedResolves])

    The tunnel hands packets up on a channel; the router gives each to the stream
    layer, to the local clients or to the ping responder, and what they answer leaves
    through the tunnel.  [Stack] joins the states of [Tunnel], [Accept] and the clients
    of [IpcConn]. *)
From stdpp Require Import strings.
From S2P Require Import Prelude Protocol Crypto KeyStore Envelope KeyExchange Conn PortManager Routing Stream Admission Accept Sweep Tunnel.
From S2P Require Import GoText NetIP Registry Resolve IpcConn Ipc.
Open Scope Z_scope.

Section Router.
Context {P : Protocol} {W : PacketCodec} {K : Type} {C : Cipher K} {X : Primitives K} {A : AddrCodec}.
(** Of the wire-protocol package. *)
Context (ProtoDatagram : Z).

Record Stack := mkStack {
  tunnels : TunnelManager (K := K) (X := X);
  core : Accept.Daemon;
  ipcClients : gmap nat Client;
}.
Implicit Types n : Stack.
Definition set_tunnels n t : Stack := mkStack t (core n) (ipcClients n).
Definition set_core n d : Stack := mkStack (tunnels n) d (ipcClients n).

Inductive RouteOut :=
| ToClients (l : gmap nat (Z * Body))
| EvPeerAdded (node : Z)
| EvDatagramRejected (dstPort : Z)
| EvDatagramPortRejected (src dstPort network : Z)
| EvDataDatagram (src : Addr) (srcPort dstPort size : Z)
| EvStream (e : StreamEvent).

(** ** Datagrams *)

Definition datagramTrusted n (trust : TrustView) (pkt : Packet) : bool :=
  Public (cfg (core n)) || isTrustedPeer trust (Node (Src pkt)).

Definition handleDatagramPacket n (trust : TrustView) (pkt : Packet) : list RouteOut :=
  match Payload pkt with
  | [] => []
  | _ =>
    if negb (datagramTrusted n trust pkt) then [EvDatagramRejected (DstPort pkt)]
    else if negb (evaluatePortPolicy (policy (core n)) PolicyEventDatagram (Network (Dst pkt)) (DstPort pkt)
                    (Node (Src pkt)) (blen (Payload pkt)) "in")
    then [EvDatagramPortRejected (Node (Src pkt)) (DstPort pkt) (Network (Dst pkt))]
    else [EvDataDatagram (Src pkt) (SrcPort pkt) (DstPort pkt) (blen (Payload pkt));
          ToClients (DeliverDatagram (ipcClients n) (Src pkt) (SrcPort pkt) (DstPort pkt) (Payload pkt))]
  end.

(** ** Pings *)

Definition pong n (pkt : Packet) : Packet :=
  let src := if Node (Dst pkt) =? 0 then mkAddr (Network (Dst pkt)) (LocalNodeID (store (tunnels n))) else Dst pkt in
  mkPacket Version FlagACK ProtoControl src (Src pkt) PortPing (SrcPort pkt) (Seq pkt) (u32 (Seq pkt + 1)) 0 (Payload pkt).

Definition handleControlPacket n (trust : TrustView) (now : gotime) (pkt : Packet) : Stack :=
  if DstPort pkt =? PortPing then
    if HasFlag pkt FlagACK then n
    else if negb (admitDataPlanePeer (cfg (core n)) trust (Node (Src pkt))) then n
    else set_tunnels n (snd (Send (tunnels n) now (Node (Src pkt)) (pong n pkt)))
  else n.

(** ** Dispatch *)

(** What the stream layer hands to the tunnel and publishes. *)
Fixpoint emitAll n (now : gotime) (l : list Output) : Stack * list RouteOut :=
  match l with
  | [] => (n, [])
  | OSend node pkt :: l => emitAll (set_tunnels n (snd (Send (tunnels n) now node pkt))) now l
  | OEvent e :: l => let '(n, out) := emitAll n now l in (n, EvStream e :: out)
  end.

(** A packet from a peer the tunnel does not know.  The tunnel encrypts when the daemon's
    configuration says so. *)
Definition learnPeer n (now : gotime) (pkt : Packet) (from : option UDPAddr) : Stack * list RouteOut :=
  let id := Node (Src pkt) in
  if negb (HasPeer (tunnels n) id) && (negb (encrypt (tcfg (tunnels n))) || HasCrypto (tunnels n) id)
  then (set_tunnels n (AddPeer (tunnels n) now id from), [EvPeerAdded id])
  else (n, []).

Definition routePacket n (trust : TrustView) (order : list (Z * Connection)) (now : gotime) (pkt : Packet)
    (from : option UDPAddr) (reads : list nat) : Stack * list RouteOut :=
  let '(n, added) := learnPeer n now pkt from in
  if pkProtocol pkt =? ProtoStream then
    let '(d, out) := handleStreamPacket (core n) trust order now pkt reads in
    let '(n, evs) := emitAll (set_core n d) now out in (n, added ++ evs)
  else if pkProtocol pkt =? ProtoDatagram then (n, added ++ handleDatagramPacket n trust pkt)
  else if pkProtocol pkt =? ProtoControl then (handleControlPacket n trust now pkt, added)
  else (n, added).

(** One turn of routeLoop: the packet at the head of the tunnel's channel. *)
Definition set_recv (t : TunnelManager) l : TunnelManager :=
  set_io t (mkIO (sockCalls (io t)) (outbox (io t)) l (events (io t)) (PktsRecv (io t)) (BytesRecv (io t))
    (TunnelEncryptFail (io t)) (LastRecv (io t))).
Definition routeTurn n (trust : TrustView) (order : list (Z * Connection)) (now : gotime) (reads : list nat)
  : Stack * list RouteOut :=
  match recvCh (io (tunnels n)) with
  | [] => (n, [])
  | (pkt, from) :: rest => routePacket (set_tunnels n (set_recv (tunnels n) rest)) trust order now pkt from reads
  end.
End Router.

(** ** Relayed paths *)

Definition RelayProbeInterval : duration := 15 * Second.
Definition autoHandshakeCooldown : duration := 30 * Second.
Definition upgradeProbes : nat := 5.

Section Upgrade.
Context {P : Protocol} {W : PacketCodec} {K : Type} {C : Cipher K} {X : Primitives K}.
Context (renv : ResolveEnv).
Implicit Types p : Peering (K := K) (X := X).

(** The peers whose upgrade [relayProbeTick] starts; [order] is the order of
    RelayPeerIDs, [open] the peers with an open connection. *)
Fixpoint relayProbeTick p (now : gotime) (open : gset Z) (inFlight : gset Z) (order : list Z) : list Z * gset Z :=
  match order with
  | [] => ([], inFlight)
  | id :: order =>
    if idleFilter (ptun p) now open id || negb (HasPeer (ptun p) id) || bool_decide (id ∈ inFlight)
    then relayProbeTick p now open inFlight order
    else let '(started, fl) := relayProbeTick p now open ({[id]} ∪ inFlight) order in (id :: started, fl)
  end.

Definition upgradeProbe p (id : Z) : Packet :=
  mkPacket Version FlagACK ProtoControl (nodeAddr (ident (phost p))) (mkAddr 0 id) PortPing PortPing 1 0 0 [].

(** The probes; [times] are the clock readings after each pause. *)
Fixpoint sendUpgradeProbes p (id : Z) (addr : option UDPAddr) (probe : Packet) (times : list gotime) : Peering :=
  match times with
  | [] => p
  | now :: times =>
    let '(e, t) := SendDirectProbeTo (ptun p) now id addr probe in
    let p := set_ptun p t in
    match e with Some _ => p | None => sendUpgradeProbes p id addr probe times end
  end.

(** [later] is the time at which the registry answered. *)
Definition tryDirectUpgrade p (now later : gotime) (id : Z) (times : list gotime) : Peering :=
  let known :=
    match cachedResolve p now id with
    | Some r => Some (r, p)
    | None =>
      match regConn (conns (phost p)) with
      | None => None
      | Some _ => let '(ans, p) := askRegistry renv p id in
                  match ans with Some r => Some (r, cacheResolve p later id r) | None => None end
      end
    end in
  match known with
  | None => p
  | Some (r, p) =>
    if relay_only r then p
    else match default [] (real_addr r) with
    | [] => p
    | realAddr =>
      match resolveUDP renv realAddr with
      | None => p
      | Some a =>
        let t := ptun p in
        let p := if IsRelayPinned (routing t) id then set_ptun p (set_routing t (UnpinRelayPeer (routing t) id)) else p in
        let p := set_ptun p (tmRequestHolePunch (ptun p) id) in
        sendUpgradeProbes p id (Some a) (upgradeProbe p id) (take upgradeProbes times)
      end
    end
  end.

(** The resolve cache is warmed for the trusted peers: [times] are the clock readings of
    the turns, [stops n] whether the n-th look at the stop channel finds it closed. *)
Context (env : RegEnv) (cfg : RegConfig).
Fixpoint prewarmEach p (trusted : list Z) (times : list gotime) (stops : nat → bool) (n : nat) : Peering :=
  match trusted, times with
  | id :: trusted, now :: times =>
    if stops n then p
    else let '(e, p) := ensureTunnel env cfg renv p now id in
         match e with
         | Some _ => prewarmEach p trusted times stops (S n)
         | None => if stops (S n) then p else prewarmEach p trusted times stops (S (S n))
         end
  | _, _ => p
  end.
Definition prewarmTrustedResolves p (trusted : option (list Z)) (times : list gotime) (stops : nat → bool) : Peering :=
  match trusted with
  | None => p
  | Some peers => if stops O then p else prewarmEach p peers times stops 1
  end.

(** A turn of tunnelKeepaliveLoop. *)
Definition keepaliveTurn p (now : gotime) : Peering :=
  if bool_decide (BeaconAddr cfg = []) then p else set_ptun p (tmRegisterWithBeacon (ptun p) now).

(** ** A tick of the sweeper

    The connection table is in [d]; [p] holds the rest.  What is published on the event
    bus is left out. *)
Fixpoint sendAll p (now : gotime) (l : list Output) : Peering :=
  match l with
  | [] => p
  | OSend node pkt :: l => sendAll (set_ptun p (snd (Send (ptun p) now node pkt))) now l
  | OEvent _ :: l => sendAll p now l
  end.

Definition sweepTick (d : Daemon) p (now : gotime) (timeWait idle keepalive : duration) (ce : CloseEnv)
    (order : gset Z → list Z) : Daemon * Peering :=
  let '(pm, out1) := sweepStale (ports d) (StaleConnections (ports d) now timeWait) now in
  let '(pm, out2) := sweepEach pm (IdleConnections pm now idle) (λ c, closeIdle c now ce) in
  let p := sendAll p now (out1 ++ out2) in
  let d := mkDaemon (Accept.cfg d) pm (reapPerSrcSYN (lim d) now) (pruneLocked (Accept.outbound d) now) (policy d) (AcceptQueueDrops d) in
  let p := set_ptun p (reapPendDropLog (ptun p) now) in
  let p := set_ptun p (snd (reapStalePending (ptun p) now)) in
  let p := reapCaches p now in
  let p := reapStalePeers (set_ports p (ports d)) now order in
  let '(pm, out3) := Sweep.keepaliveSweep (ports d) now keepalive ce in
  let p := sendAll p now out3 in
  (with_ports d pm, set_ports p pm).
End Upgrade.

(** ** Automatic handshakes

    Calls of [shouldAutoHandshake] for one peer run concurrently.  [lastAttempt] is the
    peer's entry in the map; a call reads the clock, loads or stores the entry, and
    where the cooldown is over tries to swap it. *)
Inductive Caller := Arrived (now : gotime) | Claiming (prev now : gotime) | Answered (won : bool).
Record Racers := mkRacers { lastAttempt : option gotime; callers : list Caller; wins : list gotime }.

(** LoadOrStore and the check of the cooldown. *)
Definition loadOrStore (v : option gotime) (now : gotime) : option gotime * Caller :=
  match v with
  | None => (Some now, Answered true)
  | Some prev => if time_sub now prev <? autoHandshakeCooldown then (v, Answered false) else (v, Claiming prev now)
  end.
(** CompareAndSwap. *)
Definition compareAndSwap (v : option gotime) (prev now : gotime) : option gotime * Caller :=
  if bool_decide (v = Some prev) then (Some now, Answered true) else (v, Answered false).

Definition callerStep (v : option gotime) (c : Caller) : option (option gotime * Caller * list gotime) :=
  match c with
  | Arrived now => let '(v', c') := loadOrStore v now in
                   Some (v', c', match c' with Answered true => [now] | _ => [] end)
  | Claiming prev now => let '(v', c') := compareAndSwap v prev now in
                         Some (v', c', match c' with Answered true => [now] | _ => [] end)
  | Answered _ => None
  end.

Inductive race_step : Racers → Racers → Prop :=
| RaceArrive r now : race_step r (mkRacers (lastAttempt r) (callers r ++ [Arrived now]) (wins r))
| RaceMove r i c v' c' w : callers r !! i = Some c → callerStep (lastAttempt r) c = Some (v', c', w) →
    race_step r (mkRacers v' (<[i := c']> (callers r)) (w ++ wins r)).
