(* ===== verification/RouterProofs.v ===== *)
(** * The packet router and relayed paths: theorems (model in Router) *)
From stdpp Require Import strings.
From S2P Require Import Prelude Protocol Crypto KeyStore Envelope KeyExchange Conn PortManager Routing Stream Admission Accept Sweep Tunnel TunnelProofs.
From S2P Require Import TunnelTheorems AcceptProofs GoText NetIP Registry Resolve IpcConn Ipc IpcWitnesses Router.
Open Scope Z_scope.

Section Packets.
Context {P : Protocol} {W : PacketCodec} {K : Type} {C : Cipher K} {X : Primitives K} {A : AddrCodec}.
Context (ProtoDatagram : Z).
Implicit Types n : Stack (K := K) (X := X).

Lemma emitAll_stream n now l : Forall (λ o, ∃ e, o = EvStream e) (emitAll n now l).2.
Proof.
  revert n. induction l as [|[node pkt|e] l IH]; intros n; cbn [emitAll]; [constructor|apply IH|].
  specialize (IH n). destruct (emitAll n now l) as [n' out]. simpl. constructor; [by exists e|done].
Qed.

Lemma learnPeer_same n now pkt from : let n' := (learnPeer n now pkt from).1 in
  core n' = core n ∧ ipcClients n' = ipcClients n ∧ Forall (λ o, ∃ id, o = EvPeerAdded id) (learnPeer n now pkt from).2.
Proof. unfold learnPeer. case_match; simpl; split_and!; try done; repeat constructor. by eexists. Qed.

(** What reaches the clients went through the gates. *)
Lemma routePacket_clients n trust order now pkt from reads msgs :
  ToClients msgs ∈ (routePacket ProtoDatagram n trust order now pkt from reads).2 →
  Payload pkt ≠ [] ∧ (Public (cfg (core n)) = true ∨ isTrustedPeer trust (Node (Src pkt)) = true) ∧
  evaluatePortPolicy (policy (core n)) PolicyEventDatagram (Network (Dst pkt)) (DstPort pkt) (Node (Src pkt))
    (blen (Payload pkt)) "in" = true ∧
  msgs = DeliverDatagram (ipcClients n) (Src pkt) (SrcPort pkt) (DstPort pkt) (Payload pkt).
Proof.
  unfold routePacket. destruct (learnPeer_same n now pkt from) as (E1 & E2 & Ha).
  destruct (learnPeer n now pkt from) as [n1 added]. cbn [fst snd] in *. rewrite Forall_forall in Ha.
  assert (ToClients msgs ∉ added) as Hna by (intros H; by destruct (Ha _ H)).
  destruct (pkProtocol pkt =? ProtoStream).
  { destruct (handleStreamPacket _ _ _ _ _ _) as [d out]. pose proof (emitAll_stream (set_core n1 d) now out) as Hs.
    destruct (emitAll _ _ _) as [n2 evs]. cbn [snd] in *. rewrite Forall_forall in Hs.
    intros [?|H]%elem_of_app; [done|]. by destruct (Hs _ H). }
  destruct (pkProtocol pkt =? ProtoDatagram); [|by destruct (pkProtocol pkt =? ProtoControl)].
  cbn [snd]. intros [?|H]%elem_of_app; [done|]. unfold handleDatagramPacket in H.
  destruct (Payload pkt) as [|x l] eqn:Ep; [by apply elem_of_nil in H|]. rewrite <-Ep in *.
  destruct (negb (datagramTrusted n1 trust pkt)) eqn:Et; [set_solver|].
  destruct (negb (evaluatePortPolicy _ _ _ _ _ _ _)) eqn:Epol; [set_solver|].
  apply negb_false_iff in Et, Epol. unfold datagramTrusted in Et. apply orb_true_iff in Et.
  rewrite E1 in *. rewrite E2 in *. split_and!; [congruence|done|done|].
  apply elem_of_cons in H as [?|H]; [done|]. apply list_elem_of_singleton in H. congruence.
Qed.

(** C15. On a node that runs with encryption (under --no-encrypt plaintext packets are
    delivered as well), a datagram just read from the socket, with no other packet
    waiting in the receive channel, reaches local clients only when it came as an
    encrypted frame that opens under the session of the node its header names and
    has not been seen before, this node is public or trusts that node, and the
    network's policy admits the port; and then every client gets exactly this
    payload. *)
Theorem clients_get_only_admitted_datagrams n trust order now later frame remote reads msgs :
  encrypt (tcfg (tunnels n)) = true → recvCh (io (tunnels n)) = [] →
  let n1 := set_tunnels n (readLoopOneIter (tunnels n) now frame remote) in
  ToClients msgs ∈ (routeTurn ProtoDatagram n1 trust order later reads).2 →
  ∃ body src pkt, secure_body (tunnels n) frame remote body src ∧ opens (tunnels n) body pkt ∧
    Node (Src pkt) = Uint32 (slice 0 4 body) ∧ Payload pkt ≠ [] ∧
    (Public (cfg (core n)) = true ∨ isTrustedPeer trust (Node (Src pkt)) = true) ∧
    evaluatePortPolicy (policy (core n)) PolicyEventDatagram (Network (Dst pkt)) (DstPort pkt) (Node (Src pkt))
      (blen (Payload pkt)) "in" = true ∧
    msgs = DeliverDatagram (ipcClients n) (Src pkt) (SrcPort pkt) (DstPort pkt) (Payload pkt).
Proof.
  intros He Hr n1. destruct (readLoop_spec (tunnels n) now frame remote He) as (r & Hc & Hd).
  pose proof (ct_recv _ _ _ Hc) as E. rewrite Hr in E. unfold routeTurn, n1. cbn [tunnels set_tunnels]. rewrite E.
  destruct Hd as [->|(body & src & Hs & [->|(pkt & -> & Ho & Hn & _)])]; [intros H; by apply elem_of_nil in H..|].
  intros H. apply routePacket_clients in H as (H1 & H2 & H3 & H4). exists body, src, pkt. by split_and!.
Qed.

(** ** Pings *)

Lemma pong_ack n pkt : HasFlag (pong n pkt) FlagACK = true.
Proof.
  rewrite HasFlag_spec. unfold pong. cbn [pkFlags]. rewrite Z.land_diag. apply negb_true_iff, Z.eqb_neq. apply flags_single.
Qed.

(** A ping is answered at most once and an answer is never answered: wherever it
    arrives, nothing is sent.  The answer to a ping that names this node, or no node,
    carries this node's number. *)
Theorem pongs_are_not_answered n trust now pkt :
  handleControlPacket n trust now pkt = n ∨
  handleControlPacket n trust now pkt = set_tunnels n (snd (Send (tunnels n) now (Node (Src pkt)) (pong n pkt))) ∧
  HasFlag pkt FlagACK = false ∧
  (∀ n' trust' now', handleControlPacket n' trust' now' (pong n pkt) = n') ∧
  (Node (Dst pkt) = 0 ∨ Node (Dst pkt) = LocalNodeID (store (tunnels n)) → Node (Src (pong n pkt)) = LocalNodeID (store (tunnels n))).
Proof.
  unfold handleControlPacket at 1 2. destruct (DstPort pkt =? PortPing); [|by left].
  destruct (HasFlag pkt FlagACK) eqn:Ef; [by left|]. destruct (negb _) eqn:Ea; [by left|]. right. split_and!; [done|done| |].
  - intros n' trust' now'. unfold handleControlPacket. rewrite pong_ack. by case_match.
  - unfold pong. cbn [Src]. intros [E|E]; [by rewrite E|]. case_match; [done|]. by rewrite E.
Qed.

(** With encryption, a packet does not make a peer of a node without a session. *)
Lemma strangers_are_not_added n now pkt from : encrypt (tcfg (tunnels n)) = true →
  HasCrypto (tunnels n) (Node (Src pkt)) = false → learnPeer n now pkt from = (n, []).
Proof. intros He Hc. unfold learnPeer. rewrite He, Hc. simpl. by rewrite andb_false_r. Qed.
End Packets.

(** ** Upgrades of relayed paths *)

Section Upgrade.
Context {P : Protocol} {W : PacketCodec} {K : Type} {C : Cipher K} {X : Primitives K}.
Context (renv : ResolveEnv).
Implicit Types (p : Peering (K := K) (X := X)) (t : TunnelManager (K := K) (X := X)).

(** Flags and pins of the relay. *)
Definition relays t : gmap Z bool * gmap Z bool := (relayPeers (routing t), relayPinned (routing t)).

Lemma encryptFrame_relays t pc data : relays (encryptFrame t pc data).2 = relays t.
Proof. unfold encryptFrame. by destruct (EncryptWith _ _ _). Qed.

Lemma directProbe_relays t now id addr pkt rec : relays (directProbe t now id addr pkt rec).2 = relays t.
Proof.
  unfold directProbe. destruct addr as [a|]; [|done]. destruct (IsFromBeacon _ _); [done|].
  destruct (Marshal pkt) as [data|]; [|done].
  set (built := if encrypt (tcfg t) then _ else _).
  assert (∀ f t', built = Some (f, t') → relays t' = relays t) as Hb.
  { unfold built. intros f t'. destruct (encrypt (tcfg t)); [|by intros [= _ <-]].
    destruct (Get _ _) as [pc|]; [|done]. destruct (IsReady _ _); [|done]. intros [= E].
    by rewrite <-(encryptFrame_relays t pc data), E. }
  destruct built as [[f t']|]; [|done]. specialize (Hb f t' eq_refl).
  destruct (sockRes _ _); [|done]. destruct rec; done.
Qed.

Lemma sendUpgradeProbes_relays p id addr probe times :
  relays (ptun (sendUpgradeProbes p id addr probe times)) = relays (ptun p).
Proof.
  revert p. induction times as [|now times IH]; intros p; [done|]. cbn [sendUpgradeProbes].
  unfold SendDirectProbeTo. pose proof (directProbe_relays (ptun p) now id addr probe true) as Hr.
  destruct (directProbe _ _ _ _ _ _) as [[e|] t]; cbn [snd] in Hr; [exact Hr|]. by rewrite IH.
Qed.

Lemma holePunch_relays t id : relays (tmRequestHolePunch t id) = relays t.
Proof. unfold tmRequestHolePunch. by destruct (RequestHolePunch _ _). Qed.

(** What the registry, or the cache of its answers, says of the peer. *)
Definition resolved p now id (r : ResolveReply) : Prop :=
  cachedResolve p now id = Some r ∨
  cachedResolve p now id = None ∧ is_Some (regConn (conns (phost p))) ∧ resolveAns renv (resolves p) id = Some r.

(** An upgrade to the direct path.  Nothing is sent and nothing changes in the tunnel
    unless the registry has answered for the peer, with an address, and did not call it
    relay-only.  And where it does: the peer stays on the relay, as do all others; only
    its own pin goes. *)
Theorem upgrade_respects_relay p now later id times :
  let p' := tryDirectUpgrade renv p now later id times in
  (ptun p' = ptun p ∨ ∃ r, resolved p now id r ∧ relay_only r = false ∧ default [] (real_addr r) ≠ []) ∧
  relayPeers (routing (ptun p')) = relayPeers (routing (ptun p)) ∧
  ∀ j, j ≠ id → relayPinned (routing (ptun p')) !! j = relayPinned (routing (ptun p)) !! j.
Proof.
  cbn zeta. unfold tryDirectUpgrade. set (known := match cachedResolve p now id with Some _ => _ | None => _ end).
  assert (∀ r q, known = Some (r, q) → resolved p now id r ∧ ptun q = ptun p) as Hk.
  { unfold known, resolved. intros r q. destruct (cachedResolve p now id) as [r'|]; [intros [= -> ->]; auto|].
    destruct (regConn _) as [c|]; [|done]. unfold askRegistry. destruct (resolveAns _ _ _) as [r'|]; [|done].
    intros [= -> <-]. split; [right|]; eauto. }
  destruct known as [[r q]|]; [|by split_and!; auto]. destruct (Hk r q eq_refl) as [Hr Hq].
  destruct (relay_only r) eqn:Er; [by rewrite Hq; split_and!; auto|].
  destruct (default [] (real_addr r)) as [|x l] eqn:Ea; [by rewrite Hq; split_and!; auto|].
  destruct (resolveUDP renv (x :: l)) as [a|]; [|by rewrite Hq; split_and!; auto].
  set (q1 := if IsRelayPinned _ _ then _ else q). set (q2 := set_ptun q1 _).
  pose proof (sendUpgradeProbes_relays q2 id (Some a) (upgradeProbe q2 id) (take upgradeProbes times)) as Hs.
  set (q3 := sendUpgradeProbes _ _ _ _ _) in *.
  assert (relays (ptun q2) = relays (ptun q1)) as H2 by apply holePunch_relays.
  rewrite H2 in Hs. unfold relays in Hs. injection Hs as Hs1 Hs2. rewrite Hs1, Hs2.
  split; [right; exists r; by rewrite Ea|].
  rewrite <-Hq. unfold q1. destruct (IsRelayPinned _ _); [|done]. split; [done|].
  intros j Hj. unfold UnpinRelayPeer. cbn. by rewrite lookup_delete_ne.
Qed.

(** ** One upgrade of a peer at a time *)

Lemma relayProbeTick_spec p now open fl order :
  let '(started, fl') := relayProbeTick p now open fl order in
  NoDup started ∧ (∀ id, id ∈ started → (id ∉ fl) ∧ id ∈ order ∧ HasPeer (ptun p) id = true ∧ idleFilter (ptun p) now open id = false) ∧
  fl' = list_to_set started ∪ fl.
Proof.
  revert fl. induction order as [|id order IH]; intros fl; cbn [relayProbeTick].
  { split_and!; [constructor|by intros id ?%elem_of_nil|set_solver]. }
  destruct (idleFilter _ _ _ _ || _ || _) eqn:E.
  - specialize (IH fl). destruct (relayProbeTick _ _ _ _ _) as [st fl']. destruct IH as (H1 & H2 & H3).
    split_and!; [done| |done]. intros j Hj. destruct (H2 j Hj) as (? & ? & ? & ?). split_and!; [done|by right|done|done].
  - apply orb_false_iff in E as [[E1 E2]%orb_false_iff E3]. apply negb_false_iff in E2. apply bool_decide_eq_false in E3.
    specialize (IH ({[id]} ∪ fl)). destruct (relayProbeTick _ _ _ _ _) as [st fl']. destruct IH as (H1 & H2 & H3).
    split_and!.
    + constructor; [|done]. intros Hin. destruct (H2 id Hin) as [Hn _]. set_solver.
    + intros j [->|Hj]%elem_of_cons; [by split_and!; [|left| |]|].
      destruct (H2 j Hj) as (? & ? & ? & ?). split_and!; [set_solver|by right|done|done].
    + rewrite H3. set_solver.
Qed.

(** Ticks and ends of attempts, in any order; the peering may change in between. *)
Inductive upgradeOp := UTick (p : Peering (K := K) (X := X)) (now : gotime) (open : gset Z) (order : list Z) | UDone (id : Z).
Definition upgradeStep (st : list Z * gset Z) (o : upgradeOp) : list Z * gset Z :=
  match o with
  | UTick p now open order => let '(started, fl) := relayProbeTick p now open st.2 order in (started ++ st.1, fl)
  | UDone id => (filter (λ j, j ≠ id) st.1, if bool_decide (id ∈ st.1) then st.2 ∖ {[id]} else st.2)
  end.

(** However ticks and ends of attempts interleave, no peer has two attempts running, and
    exactly the peers with a running attempt are marked. *)
Theorem one_upgrade_per_peer ops :
  let '(running, fl) := fold_left upgradeStep ops ([], ∅) in NoDup running ∧ fl = list_to_set running.
Proof.
  cut (∀ st, NoDup st.1 → st.2 = list_to_set st.1 →
    let '(running, fl) := fold_left upgradeStep ops st in NoDup running ∧ fl = list_to_set running).
  { intros H. apply H; [constructor|done]. }
  induction ops as [|o ops IH]; intros [run fl] Hn Hf; cbn [fst snd] in *; [done|]. cbn [fold_left]. apply IH.
  - destruct o as [p now open order|id]; cbn [upgradeStep fst snd]; [|by apply NoDup_filter].
    pose proof (relayProbeTick_spec p now open fl order) as Hs. destruct (relayProbeTick _ _ _ _ _) as [st fl'].
    destruct Hs as (H1 & H2 & _). apply NoDup_app. split_and!; [done| |done].
    intros j Hj Hr. destruct (H2 j Hj) as [Hx _]. set_solver.
  - destruct o as [p now open order|id]; cbn [upgradeStep fst snd].
    + pose proof (relayProbeTick_spec p now open fl order) as Hs. destruct (relayProbeTick _ _ _ _ _) as [st fl'].
      destruct Hs as (_ & _ & ->). cbn [fst snd]. rewrite list_to_set_app_L. by subst.
    + subst fl. case_bool_decide as Hin; [|].
      * apply set_eq. intros j. rewrite elem_of_difference, !elem_of_list_to_set, list_elem_of_filter. set_solver.
      * apply set_eq. intros j. rewrite !elem_of_list_to_set, list_elem_of_filter. set_solver.
Qed.
End Upgrade.

(** ** Automatic handshakes *)

(** Newest first, each at least the cooldown after the one before. *)
Fixpoint spaced (l : list gotime) : Prop :=
  match l with
  | a :: ((b :: _) as l') => autoHandshakeCooldown <= a - b ∧ spaced l'
  | _ => True
  end.

Definition race_inv (r : Racers) : Prop :=
  head (wins r) = lastAttempt r ∧ spaced (wins r) ∧
  Forall (λ c, match c with Claiming prev now => autoHandshakeCooldown <= now - prev | _ => True end) (callers r).

Lemma race_step_inv r r' : race_inv r → race_step r r' → race_inv r'.
Proof.
  intros Hinv Hr. destruct Hr as [r0 now|r0 i c v' c' w Hi Hstep]; destruct Hinv as (Hh & Hs & Hc).
  - split; [exact Hh|split; [exact Hs|]]. simpl. rewrite Forall_app. split; [exact Hc|by constructor].
  - pose proof (Forall_lookup_1 _ _ _ _ Hc Hi) as Hci. unfold race_inv. cbn [wins lastAttempt callers].
    destruct c as [now|prev now|b]; cbn [callerStep] in Hstep; [| |done].
    + unfold loadOrStore in Hstep. destruct (lastAttempt r0) as [prev|] eqn:El.
      * destruct (time_sub now prev <? autoHandshakeCooldown) eqn:Et; simplify_eq/=.
        -- split_and!; [done|done|]. by apply Forall_insert.
        -- split_and!; [done|done|]. apply Forall_insert; [done|]. zbool. unfold time_sub, maxDuration, minDuration in *. unfold autoHandshakeCooldown, Second in *. lia.
      * simplify_eq/=. destruct (wins r0) as [|a l]; [|done]. split_and!; [done|done|by apply Forall_insert].
    + unfold compareAndSwap in Hstep. case_bool_decide as Ev; simplify_eq/=.
      * split_and!; [done| |by apply Forall_insert]. destruct (wins r0) as [|a l] eqn:Ew; [by rewrite <-Hh in Ev|].
        simpl in Hh. split; [congruence|done].
      * split_and!; [done|done|by apply Forall_insert].
Qed.

(** Whatever calls race for one peer, and however their steps interleave: automatic
    handshakes to it are at least thirty seconds apart. *)
Theorem auto_handshakes_are_spaced r : rtc race_step (mkRacers None [] []) r → spaced (wins r).
Proof.
  intros H. cut (race_inv r); [by intros (_ & ? & _)|].
  assert (race_inv (mkRacers None [] [])) as H0 by (split_and!; [done|done|constructor]).
  revert H0. induction H as [|x y z Hxy _ IH]; [done|]. intros Hx. apply IH. by eapply race_step_inv.
Qed.

(** ** The sweeper's tick *)

Section SweepTick.
Context {P : Protocol} {W : PacketCodec} {K : Type} {C : Cipher K} {X : Primitives K}.

(** The tick does to the connection table what [idleSweep] does: sending what it emits
    and the reaping in between leave the table alone, and both holders of the table agree. *)
Theorem tick_sweeps_connections (d : Daemon) (p : Peering (K := K) (X := X)) now timeWait idle keepalive ce order :
  let '(d', p') := sweepTick d p now timeWait idle keepalive ce order in
  ports d' = (idleSweep (ports d) now timeWait idle keepalive ce).1 ∧ pports p' = ports d'.
Proof.
  unfold sweepTick, idleSweep. destruct (sweepStale _ _ _) as [pm1 o1]. destruct (sweepEach _ _ _) as [pm2 o2].
  cbn [ports]. by destruct (Sweep.keepaliveSweep _ _ _ _) as [pm3 o3].
Qed.
End SweepTick.

(** ** On concrete packets *)

Module RouterDemo.
#[local] Existing Instance documented_protocol.
#[local] Existing Instance toy_cipher.
#[local] Existing Instance Demo.list_codec.
#[local] Existing Instance Demo.one_key.
#[local] Existing Instance IpcDemo.six_bytes.

(** A datagram from node 1001 for two clients of node 9. *)
Definition dgram : Packet := mkPacket 1 0 2 (mkAddr 0 1001) (mkAddr 0 9) 49152 80 0 0 0 [104; 105].
Definition dgramFrame : bytes := TunnelMagicSecure ++ frame_body 1001 toy_session 1 (Demo.toMarshal dgram).
Definition friends (id : Z) : TrustView := mkTrust (λ j, j =? id) None.
(** Node 9 is private. *)
Definition stack9 : Stack (X := Demo.one_key) :=
  mkStack Demo.nodeB
    (mkDaemon (Admission.mkConfig false false 0 0 0) NewPortManager (newLimiter (Admission.mkConfig false false 0 0 0) 100) ∅
       (mkPolicy ∅ ∅ None (λ _, [])) 0)
    {[1%nat := newIPCConn 5 false; 2%nat := newIPCConn 5 false]}.
Definition arrived : Stack (X := Demo.one_key) :=
  set_tunnels stack9 (readLoopOneIter Demo.nodeB 200 dgramFrame (Some Demo.addrA)).

Lemma clients_get_only_admitted_datagrams_witness :
  ∃ body pkt, opens Demo.nodeB body pkt ∧ Payload pkt ≠ [] ∧ isTrustedPeer (friends 1001) (Node (Src pkt)) = true.
Proof.
  destruct (clients_get_only_admitted_datagrams 2 stack9 (friends 1001) [] 200 201 dgramFrame (Some Demo.addrA) []
    (DeliverDatagram (ipcClients stack9) (mkAddr 0 1001) 49152 80 [104; 105]) eq_refl eq_refl)
    as (body & src & pkt & _ & Ho & _ & Hp & Ht & _).
  - vm_compute. right. left.
  - exists body, pkt. split; [exact Ho|split; [exact Hp|]]. destruct Ht as [Ht|Ht]; [discriminate Ht|exact Ht].
Defined.

(** A stranger's datagram is reported and goes nowhere. *)
Example strangers_datagram :
  (routeTurn 2 arrived (friends 5) [] 201 []).2 = [EvDatagramRejected 80].
Proof. vm_compute. reflexivity. Qed.

(** Three dials of one peer, two of them at the same time: the first and, once the
    cooldown is over, one of the two others start a handshake. *)
Lemma auto_handshakes_are_spaced_witness :
  ∃ r, wins r = [40 * Second; Second] ∧ spaced (wins r).
Proof.
  eexists (mkRacers (Some (40 * Second)) [Answered true; Answered true; Answered false] [40 * Second; Second]).
  split; [reflexivity|]. apply auto_handshakes_are_spaced.
  eapply rtc_l; [apply (RaceArrive _ Second)|]. eapply rtc_l; [eapply (RaceMove _ 0%nat); reflexivity|].
  eapply rtc_l; [apply (RaceArrive _ (40 * Second))|]. eapply rtc_l; [apply (RaceArrive _ (41 * Second))|].
  eapply rtc_l; [eapply (RaceMove _ 1%nat); reflexivity|].
  eapply rtc_l; [eapply (RaceMove _ 2%nat); reflexivity|].
  eapply rtc_l; [eapply (RaceMove _ 1%nat); reflexivity|].
  eapply rtc_l; [eapply (RaceMove _ 2%nat); reflexivity|].
  apply rtc_refl.
Defined.
End RouterDemo.
