(* ===== verification/EventBus.v ===== *)
(** * The event bus (pkg/daemon/eventbus_impl.go: [inProcessBus])

    Publish sends to each matching subscriber without waiting, under the read lock, so
    that publishers run at the same time; Subscribe and the cancel functions take the
    write lock.  [busStep] makes one step of any of them: a publisher's step is one
    subscriber of its loop.  A subscriber's channel keeps what it received and what it
    missed, which the code does not. *)
From stdpp Require Import strings sorting.
From S2P Require Import Prelude GoText.
Open Scope Z_scope.

(** The pattern of a subscription: everything, everything below a prefix, or one topic. *)
Definition matchPattern (pattern topic : bytes) : bool :=
  bool_decide (pattern = str "*") || bool_decide (pattern = []) ||
  match CutSuffix pattern (str ".*") with
  | Some prefix => HasPrefix topic (prefix ++ str ".")
  | None => bool_decide (pattern = topic)
  end.

Definition busSubscriptionBuffer : nat := Z.to_nat 1024.

Section Bus.
Context {Payload : Type}.

Record BusEvent := mkBusEvent { Topic : bytes; evNodeID : Z; evTime : gotime; evPayload : Payload }.
Implicit Types ev : BusEvent.

(** A channel: what waits in it, whether it is closed; received so far, and missed. *)
Record Chan := mkChan { waiting : list BusEvent; chClosed : bool; received : list BusEvent; missed : list BusEvent }.
Definition newChan : Chan := mkChan [] false [] [].

(** A subscription is named by a number; [pubs] are the running calls of Publish, with
    the part of their loop that is left; [panicked] is set when a call panics. *)
Record Bus := mkBus {
  subscribers : list (nat * bytes);
  chans : gmap nat Chan;
  pubs : gmap nat (BusEvent * list (nat * bytes));
  panicked : bool;
}.
Implicit Types b : Bus.
Definition newInProcessBus : Bus := mkBus [] ∅ ∅ false.
Definition set_chans b c : Bus := mkBus (subscribers b) c (pubs b) (panicked b).
Definition set_pubs b ps : Bus := mkBus (subscribers b) (chans b) ps (panicked b).
Definition busPanic b : Bus := mkBus (subscribers b) (chans b) (pubs b) true.

(** The send of the select, or its default. *)
Definition trySend b (sub : nat) ev : Bus :=
  match chans b !! sub with
  | None => b
  | Some c =>
    if chClosed c then busPanic b
    else if decide (length (waiting c) < busSubscriptionBuffer)%nat
    then set_chans b (<[sub := mkChan (waiting c ++ [ev]) false (received c) (missed c)]> (chans b))
    else set_chans b (<[sub := mkChan (waiting c) false (received c) (missed c ++ [ev])]> (chans b))
  end.

(** One round of the loop of Publish. *)
Definition publishStep b (p : nat) : option Bus :=
  match pubs b !! p with
  | Some (ev, (sub, pattern) :: rest) =>
    let b := set_pubs b (<[p := (ev, rest)]> (pubs b)) in
    Some (if matchPattern pattern (Topic ev) then trySend b sub ev else b)
  | _ => None
  end.

(** The read lock is free of writers between steps; a writer waits for the publishers. *)
Definition publishBegin b (p : nat) ev : option Bus :=
  if decide (pubs b !! p = None) then Some (set_pubs b (<[p := (ev, subscribers b)]> (pubs b))) else None.
Definition publishEnd b (p : nat) : option Bus :=
  match pubs b !! p with Some (_, []) => Some (set_pubs b (delete p (pubs b))) | _ => None end.

Definition Subscribe b (sub : nat) (pattern : bytes) : option Bus :=
  if decide (pubs b = ∅ ∧ chans b !! sub = None)
  then Some (mkBus (subscribers b ++ [(sub, pattern)]) (<[sub := newChan]> (chans b)) (pubs b) (panicked b)) else None.

(** The function Subscribe returns. *)
Definition cancel b (sub : nat) : option Bus :=
  if decide (pubs b = ∅) then
    match chans b !! sub with
    | None => None
    | Some c =>
      let b := mkBus (filter (λ s, s.1 ≠ sub) (subscribers b)) (chans b) (pubs b) (panicked b) in
      Some (if chClosed c then busPanic b
            else set_chans b (<[sub := mkChan (waiting c) true (received c) (missed c)]> (chans b)))
    end
  else None.

(** A receive of the subscriber; a closed channel still gives what waits in it. *)
Definition receive b (sub : nat) : option Bus :=
  match chans b !! sub with
  | Some c => match waiting c with
    | ev :: rest => Some (set_chans b (<[sub := mkChan rest (chClosed c) (received c ++ [ev]) (missed c)]> (chans b)))
    | [] => None
    end
  | None => None
  end.

Inductive busOp :=
| BSubscribe (sub : nat) (pattern : bytes) | BCancel (sub : nat) | BReceive (sub : nat)
| BBegin (p : nat) (ev : BusEvent) | BNext (p : nat) | BEnd (p : nat).
Definition busStep b (o : busOp) : option Bus :=
  match o with
  | BSubscribe sub pattern => Subscribe b sub pattern
  | BCancel sub => cancel b sub
  | BReceive sub => receive b sub
  | BBegin p ev => publishBegin b p ev
  | BNext p => publishStep b p
  | BEnd p => publishEnd b p
  end.
Fixpoint busRun b (l : list busOp) : option Bus :=
  match l with [] => Some b | o :: l => match busStep b o with Some b => busRun b l | None => None end end.

(** Publish on its own, from taking the lock to releasing it. *)
Definition Publish b ev : Bus :=
  fold_left (λ b s, if matchPattern s.2 (Topic ev) then trySend b s.1 ev else b) (subscribers b) b.
End Bus.
Arguments BusEvent : clear implicits.
Arguments Bus : clear implicits.
Arguments Chan : clear implicits.
