(* ===== verification/EventBusProofs.v ===== *)
(** * The event bus: theorems (model in EventBus)

    Over any interleaving of subscribers, cancellations, receivers and concurrent
    publishers: no send meets a closed channel, and each subscription accounts for
    exactly the matching events published while it was there. *)
From stdpp Require Import strings.
From S2P Require Import Prelude GoText EventBus.
Open Scope Z_scope.

Section Proofs.
Context {Payload : Type}.
Implicit Types (b : Bus Payload) (ev : BusEvent Payload) (c : Chan Payload) (o : busOp (Payload := Payload)).

Definition isOpen b (sub : nat) : Prop := ∃ c, chans b !! sub = Some c ∧ chClosed c = false.

(** Subscribers have open channels, and publishers are somewhere in the list. *)
Record bus_wf b : Prop := {
  wf_open : Forall (λ s, isOpen b s.1) (subscribers b);
  wf_nodup : NoDup (subscribers b).*1;
  wf_pubs p ev todo : pubs b !! p = Some (ev, todo) → ∃ visited, subscribers b = visited ++ todo;
}.

(** What a channel accounts for. *)
Definition got b (sub : nat) : list (BusEvent Payload) :=
  match chans b !! sub with Some c => received c ++ waiting c ++ missed c | None => [] end.

(** ** Sending *)

Lemma trySend_open b sub ev c : chans b !! sub = Some c → chClosed c = false →
  ∃ w m, trySend b sub ev = set_chans b (<[sub := mkChan w false (received c) m]> (chans b)) ∧
    received c ++ w ++ m ≡ₚ ev :: received c ++ waiting c ++ missed c.
Proof.
  intros Hc Ho. unfold trySend. rewrite Hc, Ho. case_decide.
  - eexists _, _. split; [done|]. solve_Permutation.
  - eexists _, _. split; [done|]. solve_Permutation.
Qed.

Lemma isOpen_insert b sub c s : chClosed c = false → isOpen b s → isOpen (set_chans b (<[sub := c]> (chans b))) s.
Proof.
  intros Hc (c' & Hl & Ho). unfold isOpen. cbn. destruct (decide (s = sub)) as [->|Hn].
  - exists c. by rewrite lookup_insert_eq.
  - exists c'. by rewrite lookup_insert_ne.
Qed.

(** ** What the running publishers still have to do *)

Fixpoint patternOf (l : list (nat * bytes)) (sub : nat) : option bytes :=
  match l with [] => None | (s, p) :: l => if decide (s = sub) then Some p else patternOf l sub end.
Definition wants (pat : option bytes) ev : list (BusEvent Payload) :=
  match pat with Some p => if matchPattern p (Topic ev) then [ev] else [] | None => [] end.
Definition toVisit (ps : gmap nat (BusEvent Payload * list (nat * bytes))) (sub : nat) : list (BusEvent Payload) :=
  map_to_list ps ≫= λ x, wants (patternOf x.2.2 sub) x.2.1.

Lemma toVisit_delete ps p ev todo sub : ps !! p = Some (ev, todo) →
  toVisit ps sub ≡ₚ wants (patternOf todo sub) ev ++ toVisit (delete p ps) sub.
Proof. intros H. unfold toVisit. by rewrite <-(map_to_list_delete ps p _ H). Qed.
Lemma toVisit_insert ps p ev todo sub :
  toVisit (<[p := (ev, todo)]> ps) sub ≡ₚ wants (patternOf todo sub) ev ++ toVisit (delete p ps) sub.
Proof. rewrite (toVisit_delete _ p ev todo) by apply lookup_insert_eq. by rewrite delete_insert_eq. Qed.
Lemma toVisit_empty sub : toVisit ∅ sub = [].
Proof. unfold toVisit. by rewrite map_to_list_empty. Qed.

Lemma patternOf_none l sub : sub ∉ l.*1 → patternOf l sub = None.
Proof.
  induction l as [|[s p] l IH]; [done|]. cbn. intros H. case_decide as E.
  - subst. destruct H. by left.
  - apply IH. intros ?. apply H. by right.
Qed.
Lemma patternOf_some l sub pat : patternOf l sub = Some pat → (sub, pat) ∈ l.
Proof. induction l as [|[s p] l IH]; [done|]. cbn. case_decide as E; [intros [= ->]; subst; by left|right; auto]. Qed.
Lemma patternOf_app l s pat sub : sub ∉ l.*1 →
  patternOf (l ++ [(s, pat)]) sub = if decide (s = sub) then Some pat else None.
Proof.
  induction l as [|[s' p] l IH]; [done|]. cbn. intros H. destruct (decide (s' = sub)) as [->|Hn].
  - destruct H. by left.
  - apply IH. intros ?. apply H. by right.
Qed.
Lemma patternOf_app_ne l s pat sub : s ≠ sub → patternOf (l ++ [(s, pat)]) sub = patternOf l sub.
Proof. intros Hn. induction l as [|[s' p] l IH]; cbn; [by rewrite decide_False|]. by case_decide. Qed.
Lemma patternOf_filter l s sub : patternOf (filter (λ x, x.1 ≠ s) l) sub = if decide (s = sub) then None else patternOf l sub.
Proof.
  induction l as [|[s' p] l IH]; [by case_decide|]. rewrite filter_cons. cbn [fst].
  destruct (decide (s' ≠ s)) as [Hn|Hn]; cbn [patternOf]; rewrite IH.
  - destruct (decide (s' = sub)) as [->|]; [by rewrite decide_False by done|done].
  - apply dec_stable in Hn. subst s'. by destruct (decide (s = sub)).
Qed.

Lemma kept_nodup (l : list (nat * bytes)) s : NoDup l.*1 → NoDup (filter (λ x, x.1 ≠ s) l).*1.
Proof.
  induction l as [|x l IH]; [done|]. rewrite fmap_cons, NoDup_cons. intros [Hx Hl]. rewrite filter_cons.
  case_decide; [|auto]. rewrite fmap_cons. constructor; [|auto].
  intros (y & E & [_ Hy]%list_elem_of_filter)%list_elem_of_fmap. apply Hx. rewrite E. by apply list_elem_of_fmap_2.
Qed.

(** ** One step

    [now] is the pattern of the subscription before the step, [dueEvents] what the step adds to
    what it must account for. *)
Definition nextPattern (sub : nat) o (now : option bytes) : option bytes :=
  match o with
  | BSubscribe s pat => if decide (s = sub) then Some pat else now
  | BCancel s => if decide (s = sub) then None else now
  | _ => now
  end.
Definition dueStep o (now : option bytes) : list (BusEvent Payload) :=
  match o with BBegin _ ev => wants now ev | _ => [] end.

Record step_spec b o b' : Prop := {
  sp_wf : bus_wf b';
  sp_pattern sub : patternOf (subscribers b') sub = nextPattern sub o (patternOf (subscribers b) sub);
  sp_got sub : got b' sub ++ toVisit (pubs b') sub ≡ₚ
    (got b sub ++ toVisit (pubs b) sub) ++ dueStep o (patternOf (subscribers b) sub);
}.

Lemma subscribe_step b s pat b' : bus_wf b → Subscribe b s pat = Some b' → step_spec b (BSubscribe s pat) b'.
Proof.
  intros [Ho Hn Hp] H. unfold Subscribe in H. case_decide as Hd; [|done]. destruct Hd as [He Hc]. injection H as <-.
  assert (s ∉ (subscribers b).*1) as Hs.
  { intros ([s' p'] & -> & Hin)%list_elem_of_fmap. rewrite Forall_forall in Ho. destruct (Ho _ Hin) as (c & Hc' & _).
    cbn in *. congruence. }
  split; [split|..]; cbn [subscribers chans pubs nextPattern dueStep].
  - apply Forall_app. split.
    + eapply Forall_impl; [exact Ho|]. intros [s' p'] Hx. apply (isOpen_insert b s newChan) in Hx; done.
    + constructor; [|constructor]. exists newChan. split; [apply lookup_insert_eq|done].
  - rewrite fmap_app. apply NoDup_app. split_and!; [done| |apply NoDup_singleton]. intros x Hx Hy.
    apply list_elem_of_singleton in Hy. cbn in Hy. by subst.
  - intros p ev todo. rewrite He. by rewrite lookup_empty.
  - intros sub. case_decide as E; [subst; by rewrite patternOf_app, decide_True|by rewrite patternOf_app_ne].
  - intros sub. rewrite app_nil_r. unfold got. cbn. destruct (decide (sub = s)) as [->|Hne].
    + by rewrite lookup_insert_eq, Hc.
    + by rewrite lookup_insert_ne.
Qed.

Lemma cancel_step b s b' : bus_wf b → cancel b s = Some b' → step_spec b (BCancel s) b'.
Proof.
  intros [Ho Hn Hp] H. unfold cancel in H. case_decide as He; [|done].
  destruct (chans b !! s) as [c|] eqn:Hc; [|done]. injection H as <-.
  set (kept := filter (λ x, x.1 ≠ s) (subscribers b)).
  assert (∀ b', subscribers b' = kept → pubs b' = ∅ →
    (∀ s', s' ≠ s → chans b' !! s' = chans b !! s') → (∀ sub, got b' sub = got b sub) → step_spec b (BCancel s) b') as Hb.
  { intros b' Hs Hq Hch Hg. split; [split|..].
    - rewrite Hs. apply Forall_forall. intros x [Hx Hin]%list_elem_of_filter. rewrite Forall_forall in Ho.
      destruct (Ho _ Hin) as (c' & ? & ?). exists c'. by rewrite Hch.
    - rewrite Hs. by apply kept_nodup.
    - intros p ev todo. by rewrite Hq, lookup_empty.
    - intros sub. rewrite Hs. apply patternOf_filter.
    - intros sub. cbn [dueStep]. rewrite app_nil_r, Hg, Hq, He. reflexivity. }
  destruct (chClosed c); apply Hb; [done|exact He|done|done|done|exact He|..]; cbn; intros s'.
  - intros ?. by rewrite lookup_insert_ne.
  - unfold got. cbn. destruct (decide (s' = s)) as [->|]; [by rewrite lookup_insert_eq, Hc|by rewrite lookup_insert_ne].
Qed.

Lemma got_insert b s c c' sub : chans b !! s = Some c →
  received c' ++ waiting c' ++ missed c' ≡ₚ received c ++ waiting c ++ missed c →
  got (set_chans b (<[s := c']> (chans b))) sub ≡ₚ got b sub.
Proof.
  intros Hc E. unfold got. cbn. destruct (decide (sub = s)) as [->|]; [by rewrite lookup_insert_eq, Hc|by rewrite lookup_insert_ne].
Qed.

Lemma receive_step b s b' : bus_wf b → receive b s = Some b' → step_spec b (BReceive s) b'.
Proof.
  intros [Ho Hn Hp] H. unfold receive in H. destruct (chans b !! s) as [c|] eqn:Hc; [|done].
  destruct (waiting c) as [|ev rest] eqn:Hw; [done|]. injection H as <-. split; [split; cbn|..]; try done.
  - eapply Forall_impl; [exact Ho|]. intros [s' p'] (c' & Hl & Hop). unfold isOpen. cbn in *.
    destruct (decide (s' = s)) as [->|]; [|exists c'; by rewrite lookup_insert_ne].
    eexists. rewrite lookup_insert_eq. split; [done|]. cbn. congruence.
  - intros sub. cbn [dueStep]. rewrite app_nil_r. apply Permutation_app_tail, (got_insert b s c); [done|].
    rewrite Hw. cbn. by rewrite <-app_assoc.
Qed.

Lemma begin_step b p ev b' : bus_wf b → publishBegin b p ev = Some b' → step_spec b (BBegin p ev) b'.
Proof.
  intros [Ho Hn Hp] H. unfold publishBegin in H. case_decide as Hq; [|done]. injection H as <-. split; [split|..]; try done.
  - intros q ev' todo. cbn. destruct (decide (q = p)) as [->|].
    + rewrite lookup_insert_eq. intros [= <- <-]. by exists [].
    + rewrite lookup_insert_ne by done. apply Hp.
  - intros sub. cbn. rewrite toVisit_insert, delete_id by done. fold (got b sub). solve_Permutation.
Qed.

Lemma end_step b p b' : bus_wf b → publishEnd b p = Some b' → step_spec b (BEnd p) b'.
Proof.
  intros [Ho Hn Hp] H. unfold publishEnd in H. destruct (pubs b !! p) as [[ev [|]]|] eqn:Hq; [|done|done]. injection H as <-.
  split; [split|..]; try done.
  - intros q ev' todo. cbn. rewrite lookup_delete_Some. intros [_ ?]. by eapply Hp.
  - intros sub. cbn. rewrite app_nil_r, (toVisit_delete (pubs b) p ev []) by done. done.
Qed.

Lemma next_step b p b' : bus_wf b → publishStep b p = Some b' → step_spec b (BNext p) b' ∧ panicked b' = panicked b.
Proof.
  intros [Ho Hn Hp] H. unfold publishStep in H. destruct (pubs b !! p) as [[ev [|[s pat] rest]]|] eqn:Hq; [done| |done].
  injection H as <-. destruct (Hp _ _ _ Hq) as [visited Hv].
  set (b1 := set_pubs b (<[p := (ev, rest)]> (pubs b))).
  assert (bus_wf b1) as [Ho1 Hn1 Hp1].
  { split; [done|done|]. intros q ev' todo. cbn. destruct (decide (q = p)) as [->|].
    - rewrite lookup_insert_eq. intros [= <- <-]. exists (visited ++ [(s, pat)]). by rewrite Hv, <-app_assoc.
    - rewrite lookup_insert_ne by done. apply Hp. }
  assert (s ∉ rest.*1) as Hs.
  { rewrite Hv, fmap_app in Hn. apply NoDup_app in Hn as (_ & _ & Hn). by apply NoDup_cons in Hn as [? _]. }
  assert (∀ sub, toVisit (pubs b) sub ≡ₚ (if decide (s = sub) then wants (Some pat) ev else []) ++ toVisit (pubs b1) sub) as Hpend.
  { intros sub. cbn [pubs b1 set_pubs]. rewrite (toVisit_delete _ p ev _ sub Hq), (toVisit_insert (pubs b) p ev rest sub).
    cbn [patternOf]. case_decide; [subst; by rewrite (patternOf_none rest)|done]. }
  destruct (matchPattern pat (Topic ev)) eqn:Em; cbn [wants] in Hpend; rewrite ?Em in Hpend.
  2:{ split; [|done]. split; [done|done|]. intros sub. cbn [dueStep]. rewrite app_nil_r, Hpend. by case_decide. }
  assert (isOpen b1 s) as (c & Hc & Hop).
  { rewrite Hv in Ho. apply Forall_app in Ho as [_ Ho]. by apply Forall_cons in Ho as [? _]. }
  destruct (trySend_open b1 s ev c Hc Hop) as (w & m & -> & Hw). split; [|done]. split; [split|..]; try done.
  - eapply Forall_impl; [exact Ho1|]. intros x Hx. by apply isOpen_insert.
  - intros sub. cbn [dueStep]. rewrite app_nil_r, Hpend. unfold got. cbn [chans set_chans pubs].
    destruct (decide (s = sub)) as [->|Hne].
    + rewrite lookup_insert_eq. cbn in Hc. rewrite Hc. cbn [received waiting missed]. rewrite Hw. cbn. solve_Permutation.
    + by rewrite lookup_insert_ne.
Qed.
Lemma busStep_spec b o b' : bus_wf b → busStep b o = Some b' → step_spec b o b'.
Proof.
  intros Hwf. destruct o; cbn [busStep]; intros H;
    [by apply subscribe_step|by apply cancel_step|by apply receive_step|by apply begin_step|by apply next_step|by apply end_step].
Qed.

(** ** Whole runs *)

(** The matching events published while [sub] is subscribed. *)
Fixpoint dueEvents (sub : nat) (now : option bytes) (l : list busOp) : list (BusEvent Payload) :=
  match l with [] => [] | o :: l => dueStep o now ++ dueEvents sub (nextPattern sub o now) l end.

Lemma new_wf : bus_wf (newInProcessBus (Payload := Payload)).
Proof. split; [constructor|constructor|]. intros p ev todo. cbn. by rewrite lookup_empty. Qed.

Lemma busRun_app l1 l2 b : busRun b (l1 ++ l2) = match busRun b l1 with Some b' => busRun b' l2 | None => None end.
Proof. revert b. induction l1 as [|o l1 IH]; intros b; [done|]. cbn. destruct (busStep b o); [apply IH|done]. Qed.

Lemma busRun_wf l : ∀ b b', bus_wf b → busRun b l = Some b' → bus_wf b'.
Proof.
  induction l as [|o l IH]; intros b b' Hwf; cbn [busRun]; [by intros [= <-]|].
  destruct (busStep b o) as [b1|] eqn:E; [|done]. apply IH. by eapply sp_wf, busStep_spec.
Qed.

Lemma busRun_got l sub : ∀ b b', bus_wf b → busRun b l = Some b' →
  got b' sub ++ toVisit (pubs b') sub ≡ₚ (got b sub ++ toVisit (pubs b) sub) ++ dueEvents sub (patternOf (subscribers b) sub) l.
Proof.
  induction l as [|o l IH]; intros b b' Hwf; cbn [busRun dueEvents]; [intros [= <-]; by rewrite app_nil_r|].
  destruct (busStep b o) as [b1|] eqn:E; [|done]. intros H. apply busStep_spec in E as [H1 H2 H3]; [|done].
  rewrite (IH b1 b' H1 H), H3, H2. by rewrite <-app_assoc.
Qed.

(** A channel holds at most the buffer, and misses an event only with the buffer full. *)
Definition chan_ok c : Prop :=
  (length (waiting c) ≤ busSubscriptionBuffer)%nat ∧
  (missed c ≠ [] → busSubscriptionBuffer ≤ length (received c ++ waiting c))%nat.

Lemma busStep_chans b o b' : map_Forall (λ _ c, chan_ok c) (chans b) → busStep b o = Some b' →
  map_Forall (λ _ c, chan_ok c) (chans b').
Proof.
  intros Hall. assert (∀ s c, chan_ok c → map_Forall (λ _ c, chan_ok c) (<[s := c]> (chans b))) as Hins
    by (intros s c Hc; by apply map_Forall_insert_2).
  destruct o as [s pat|s|s|p ev|p|p]; cbn [busStep]; intros H.
  - unfold Subscribe in H. case_decide; [|done]. injection H as <-. apply Hins. split; [cbn; lia|done].
  - unfold cancel in H. case_decide; [|done]. destruct (chans b !! s) as [c|] eqn:Hc; [|done]. injection H as <-.
    pose proof (Hall _ _ Hc). destruct (chClosed c); [exact Hall|by apply Hins].
  - unfold receive in H. destruct (chans b !! s) as [c|] eqn:Hc; [|done].
    destruct (waiting c) as [|ev rest] eqn:Hw; [done|]. injection H as <-. destruct (Hall _ _ Hc) as [H1 H2].
    rewrite Hw in H1, H2. apply Hins. split; cbn in *; [lia|]. intros Hm. specialize (H2 Hm).
    rewrite !length_app in *. cbn in *. lia.
  - unfold publishBegin in H. case_decide; [|done]. injection H as <-; exact Hall.
  - unfold publishStep in H. destruct (pubs b !! p) as [[ev [|[s pat] rest]]|]; [done| |done]. injection H as <-.
    case_match; [|exact Hall]. unfold trySend. cbn [chans set_pubs]. destruct (chans b !! s) as [c|] eqn:Hc; [|exact Hall].
    destruct (Hall _ _ Hc) as [H1 H2]. destruct (chClosed c); [exact Hall|]. case_decide as Hd; apply Hins; split; cbn in *.
    + rewrite length_app. cbn. lia.
    + intros Hm. specialize (H2 Hm). rewrite !length_app in *. cbn. lia.
    + lia.
    + intros _. rewrite length_app. lia.
  - unfold publishEnd in H. destruct (pubs b !! p) as [[ev [|]]|]; [|done|done]. injection H as <-; exact Hall.
Qed.

Lemma busRun_chans l : ∀ b b', map_Forall (λ _ c, chan_ok c) (chans b) → busRun b l = Some b' →
  map_Forall (λ _ c, chan_ok c) (chans b').
Proof.
  induction l as [|o l IH]; intros b b' Hall; cbn [busRun]; [by intros [= <-]|].
  destruct (busStep b o) as [b1|] eqn:E; [|done]. apply IH. by eapply busStep_chans.
Qed.

(** C21. Every event is accounted for.  When no call is running, what a subscription received,
    has waiting and missed is exactly the matching events published while it was there,
    however the publishers interleaved; and it missed none if there were no more of them
    than its buffer holds. *)
Theorem subscribers_account_for_events l b sub c :
  busRun newInProcessBus l = Some b → pubs b = ∅ → chans b !! sub = Some c →
  received c ++ waiting c ++ missed c ≡ₚ dueEvents sub None l ∧
  ((length (dueEvents sub None l) ≤ busSubscriptionBuffer)%nat → missed c = []).
Proof.
  intros H He Hc. pose proof (busRun_got l sub _ _ new_wf H) as Hg.
  rewrite He, toVisit_empty in Hg. unfold got in Hg. rewrite Hc in Hg. cbn in Hg.
  rewrite app_nil_r, lookup_empty, toVisit_empty in Hg. split; [done|]. intros Hl.
  assert (chan_ok c) as [_ Hm].
  { eapply (busRun_chans l newInProcessBus b); [apply map_Forall_empty|done|exact Hc]. }
  apply Permutation_length in Hg. rewrite !length_app in *. destruct (missed c) as [|ev m]; [done|].
  cbn in Hg. specialize (Hm ltac:(done)). lia.
Qed.

(** ** No panics *)

Definition cancels (l : list (busOp (Payload := Payload))) : list nat :=
  l ≫= λ o, match o with BCancel s => [s] | _ => [] end.

Lemma busStep_quiet b o b' : bus_wf b → busStep b o = Some b' → (∀ s, o = BCancel s → isOpen b s) →
  panicked b' = panicked b ∧ ∀ s, isOpen b s → o ≠ BCancel s → isOpen b' s.
Proof.
  intros Hwf. destruct o as [s pat|s|s|p ev|p|p]; cbn [busStep]; intros H Hcan.
  - unfold Subscribe in H. case_decide; [|done]. injection H as <-. split; [done|]. intros s' Hs _. by apply isOpen_insert.
  - unfold cancel in H. case_decide; [|done]. destruct (Hcan s eq_refl) as (c & Hc & Ho). rewrite Hc, Ho in H. injection H as <-.
    split; [done|]. intros s' (c' & Hc' & Ho') Hne. exists c'. cbn. by rewrite lookup_insert_ne by congruence.
  - unfold receive in H. destruct (chans b !! s) as [c|] eqn:Hc; [|done].
    destruct (waiting c) as [|ev rest]; [done|]. injection H as <-. split; [done|]. intros s' (c' & Hc' & Ho') _.
    destruct (decide (s' = s)) as [->|]; [|exists c'; cbn; by rewrite lookup_insert_ne].
    eexists. cbn. rewrite lookup_insert_eq. split; [done|]. cbn. congruence.
  - unfold publishBegin in H. case_decide; [|done]. by injection H as <-.
  - pose proof (next_step b p b' Hwf H) as [_ Hp]. split; [done|]. intros s' Hs' _.
    unfold publishStep in H. destruct (pubs b !! p) as [[ev [|[s pat] rest]]|]; [done| |done]. injection H as <-.
    case_match; [|done]. unfold trySend. cbn [chans set_pubs]. destruct (chans b !! s) as [c|]; [|done].
    destruct (chClosed c); [done|]. case_decide; by apply (isOpen_insert (set_pubs b _)).
  - unfold publishEnd in H. destruct (pubs b !! p) as [[ev [|]]|]; [|done|done]. by injection H as <-.
Qed.
(** A channel that appears is open. *)
Lemma busStep_new b o b' s c : busStep b o = Some b' → chans b !! s = None → chans b' !! s = Some c → chClosed c = false.
Proof.
  intros H Hn. destruct o as [s' pat|s'|s'|p ev|p|p]; cbn [busStep] in H.
  - unfold Subscribe in H. case_decide; [|done]. injection H as <-. cbn. destruct (decide (s = s')) as [->|].
    + rewrite lookup_insert_eq. by intros [= <-].
    + rewrite lookup_insert_ne by done. congruence.
  - unfold cancel in H. case_decide; [|done]. destruct (chans b !! s') as [c'|] eqn:Hc'; [|done]. injection H as <-.
    destruct (chClosed c'); cbn; [congruence|]. rewrite lookup_insert_ne by congruence. congruence.
  - unfold receive in H. destruct (chans b !! s') as [c'|] eqn:Hc'; [|done].
    destruct (waiting c'); [done|]. injection H as <-. cbn. rewrite lookup_insert_ne by congruence. congruence.
  - unfold publishBegin in H. case_decide; [|done]. injection H as <-. cbn. congruence.
  - unfold publishStep in H. destruct (pubs b !! p) as [[ev [|[s' pat] rest]]|]; [done| |done]. injection H as <-.
    case_match; [|cbn; congruence]. unfold trySend. cbn [chans set_pubs]. destruct (chans b !! s') as [c'|] eqn:Hc'; [|cbn; congruence].
    destruct (chClosed c'); [cbn; congruence|]. case_decide; cbn; rewrite lookup_insert_ne by congruence; congruence.
  - unfold publishEnd in H. destruct (pubs b !! p) as [[ev [|]]|]; [|done|done]. injection H as <-. cbn. congruence.
Qed.

Lemma busRun_quiet l : ∀ b b', bus_wf b → busRun b l = Some b' → NoDup (cancels l) →
  (∀ s c, s ∈ cancels l → chans b !! s = Some c → chClosed c = false) → panicked b' = panicked b.
Proof.
  induction l as [|o l IH]; intros b b' Hwf; cbn [busRun]; [by intros [= <-]|].
  destruct (busStep b o) as [b1|] eqn:E; [|done]. intros H Hnd Hop.
  pose proof (sp_wf _ _ _ (busStep_spec b o b1 Hwf E)) as Hwf1.
  assert (∀ s, o = BCancel s → isOpen b s) as Hcan.
  { intros s ->. cbn [busStep] in E. unfold cancel in E. case_decide; [|done].
    destruct (chans b !! s) as [c|] eqn:Hc; [|done]. exists c. split; [done|]. apply (Hop s c); [by left|done]. }
  destruct (busStep_quiet b o b1 Hwf E Hcan) as [<- Hstay].
  apply (IH b1 b' Hwf1 H); [by apply NoDup_app in Hnd as (_ & _ & ?)|].
  intros s c Hs Hc. assert (o ≠ BCancel s) as Hne.
  { intros ->. apply NoDup_cons in Hnd as [Hni _]. done. }
  destruct (chans b !! s) as [c0|] eqn:Hc0.
  - destruct (Hstay s) as (c1 & Hc1 & Ho1); [|done|congruence].
    exists c0. split; [done|]. apply (Hop s c0); [|done]. unfold cancels. cbn. apply elem_of_app. by right.
  - by eapply busStep_new.
Qed.
(** No call panics, whatever runs at the same time, as long as no cancel function is
    called twice: a publisher never meets a closed channel. *)
Theorem bus_never_panics l b : busRun newInProcessBus l = Some b → NoDup (cancels l) → panicked b = false.
Proof.
  intros H Hnd. apply (busRun_quiet l newInProcessBus b new_wf H Hnd). intros s c _. cbn. by rewrite lookup_empty.
Qed.

(** ** Order *)

Definition arrivedEvents b (sub : nat) : list (BusEvent Payload) :=
  match chans b !! sub with Some c => received c ++ waiting c | None => [] end.

(** Calls of Publish that do not overlap. *)
Fixpoint oneByOne b (l : list busOp) : Prop :=
  match l with
  | [] => True
  | o :: l => (match o with BBegin _ _ => pubs b = ∅ | _ => True end) ∧
              match busStep b o with Some b' => oneByOne b' l | None => True end
  end.
Definition single b : Prop := pubs b = ∅ ∨ ∃ p x, pubs b = {[p := x]}.

Lemma toVisit_single p ev todo sub : toVisit {[p := (ev, todo)]} sub = wants (patternOf todo sub) ev.
Proof. unfold toVisit. rewrite map_to_list_singleton. cbn. apply app_nil_r. Qed.

(** Of one publisher's round, and of the other steps. *)
Lemma next_order b p b' sub : bus_wf b → single b → publishStep b p = Some b' →
  single b' ∧ arrivedEvents b' sub ++ toVisit (pubs b') sub `sublist_of` arrivedEvents b sub ++ toVisit (pubs b) sub.
Proof.
  intros Hwf Hs H. unfold publishStep in H. destruct (pubs b !! p) as [[ev [|[s pat] rest]]|] eqn:Hq; [done| |done].
  destruct Hs as [He|(q & x & He)]; [by rewrite He, lookup_empty in Hq|]. rewrite He in Hq.
  apply lookup_singleton_Some in Hq as [-> ->]. injection H as <-. rewrite He, insert_singleton_eq.
  set (b1 := set_pubs b {[p := (ev, rest)]}).
  assert (s ∉ rest.*1) as Hni.
  { destruct (wf_pubs b Hwf p ev ((s, pat) :: rest)) as [visited Hv]; [by rewrite He, lookup_singleton_eq|].
    pose proof (wf_nodup b Hwf) as Hn. rewrite Hv, fmap_app in Hn. apply NoDup_app in Hn as (_ & _ & Hn).
    by apply NoDup_cons in Hn as [? _]. }
  rewrite toVisit_single. cbn [patternOf].
  destruct (matchPattern pat (Topic ev)) eqn:Em.
  2:{ split; [right; by eexists _, _|]. cbn [pubs b1 set_pubs]. rewrite toVisit_single. apply sublist_app; [done|].
      case_decide; [subst; rewrite patternOf_none by done; apply sublist_nil_l|done]. }
  assert (single (trySend b1 s ev) ∧ pubs (trySend b1 s ev) = {[p := (ev, rest)]}) as [Hs1 Hp1].
  { unfold single, trySend. destruct (chans b1 !! s) as [c|]; [destruct (chClosed c); [|case_decide]|]; split; try done; right; by eexists _, _. }
  split; [done|]. rewrite Hp1, toVisit_single. unfold arrivedEvents, trySend. cbn [chans b1 set_pubs].
  destruct (decide (s = sub)) as [->|Hne].
  - rewrite (patternOf_none rest sub Hni). cbn [wants]. rewrite Em. rewrite app_nil_r.
    destruct (chans b !! sub) as [c|] eqn:Hc; cbn [chans set_pubs]; [|cbn; rewrite ?Hc; apply sublist_nil_l].
    destruct (chClosed c); [cbn; rewrite ?Hc; by apply sublist_inserts_r|]. case_decide; cbn; rewrite lookup_insert_eq; cbn.
    + by rewrite app_assoc.
    + by apply sublist_inserts_r.
  - apply sublist_app; [|done]. destruct (chans b !! s) as [c|] eqn:Hc; [|done].
    destruct (chClosed c); [done|]. case_decide; cbn; by rewrite lookup_insert_ne.
Qed.
Lemma busStep_order b o b' sub : bus_wf b → single b → busStep b o = Some b' →
  match o with BBegin _ _ => pubs b = ∅ | _ => True end →
  single b' ∧ arrivedEvents b' sub ++ toVisit (pubs b') sub `sublist_of`
    (arrivedEvents b sub ++ toVisit (pubs b) sub) ++ dueStep o (patternOf (subscribers b) sub).
Proof.
  intros Hwf Hs. destruct o as [s pat|s|s|p ev|p|p]; cbn [busStep dueStep]; intros H Ho; rewrite ?app_nil_r.
  - unfold Subscribe in H. case_decide as Hd; [|done]. destruct Hd as [He Hc]. injection H as <-. split; [by left|].
    unfold arrivedEvents. cbn. destruct (decide (sub = s)) as [->|]; [by rewrite lookup_insert_eq, Hc|by rewrite lookup_insert_ne].
  - unfold cancel in H. case_decide as He; [|done]. destruct (chans b !! s) as [c|] eqn:Hc; [|done]. injection H as <-.
    destruct (chClosed c); (split; [by left|]); [done|]. unfold arrivedEvents. cbn.
    destruct (decide (sub = s)) as [->|]; [by rewrite lookup_insert_eq, Hc|by rewrite lookup_insert_ne].
  - unfold receive in H. destruct (chans b !! s) as [c|] eqn:Hc; [|done].
    destruct (waiting c) as [|ev rest] eqn:Hw; [done|]. injection H as <-. split; [done|]. unfold arrivedEvents. cbn.
    destruct (decide (sub = s)) as [->|]; [|by rewrite lookup_insert_ne].
    rewrite lookup_insert_eq, Hc, Hw. cbn. by rewrite <-!app_assoc.
  - unfold publishBegin in H. case_decide; [|done]. injection H as <-. split.
    + right. eexists _, _. cbn. by rewrite Ho, insert_empty.
    + cbn. rewrite Ho, insert_empty, toVisit_single, toVisit_empty, app_nil_r. done.
  - by apply (next_order b p).
  - unfold publishEnd in H. destruct (pubs b !! p) as [[ev [|]]|] eqn:Hq; [|done|done]. injection H as <-.
    destruct Hs as [He|(q & x & He)]; [by rewrite He, lookup_empty in Hq|]. rewrite He in Hq.
    apply lookup_singleton_Some in Hq as [-> ->]. cbn. rewrite He, delete_singleton_eq. split; [by left|].
    by rewrite toVisit_single, toVisit_empty.
Qed.

Lemma busRun_order l sub : ∀ b b', bus_wf b → single b → oneByOne b l → busRun b l = Some b' →
  arrivedEvents b' sub ++ toVisit (pubs b') sub `sublist_of`
    (arrivedEvents b sub ++ toVisit (pubs b) sub) ++ dueEvents sub (patternOf (subscribers b) sub) l.
Proof.
  induction l as [|o l IH]; intros b b' Hwf Hs; cbn [busRun dueEvents oneByOne]; [intros _ [= <-]; by rewrite app_nil_r|].
  intros [Ho Hl]. destruct (busStep b o) as [b1|] eqn:E; [|done]. intros H.
  destruct (busStep_order b o b1 sub Hwf Hs E Ho) as [Hs1 Hk]. apply busStep_spec in E as [H1 H2 _]; [|done].
  etrans; [by apply (IH b1 b')|]. rewrite H2, app_assoc. by apply sublist_app.
Qed.

(** A subscriber sees events in the order they were published: what it received and has
    waiting is the matching events published while it was there, in that order, with
    only the missed ones left out. *)
Theorem events_arrive_in_order l b sub c :
  busRun newInProcessBus l = Some b → oneByOne newInProcessBus l → chans b !! sub = Some c →
  received c ++ waiting c `sublist_of` dueEvents sub None l.
Proof.
  intros H Ho Hc. pose proof (busRun_order l sub _ _ new_wf (or_introl eq_refl) Ho H) as Hk.
  unfold arrivedEvents in Hk. rewrite Hc in Hk. cbn in Hk. rewrite lookup_empty, toVisit_empty in Hk.
  etrans; [|exact Hk]. by apply sublist_inserts_r.
Qed.

(** ** A call of Publish that nothing interrupts *)

Definition visit ev b (x : nat * bytes) : Bus Payload := if matchPattern x.2 (Topic ev) then trySend b x.1 ev else b.

Lemma visit_set_pubs ev b ps x : visit ev (set_pubs b ps) x = set_pubs (visit ev b x) ps.
Proof.
  unfold visit, trySend. destruct (matchPattern _ _); [|done]. cbn [chans set_pubs].
  destruct (chans b !! x.1) as [c|]; [|done]. destruct (chClosed c); [done|]. by case_decide.
Qed.
Lemma visits_set_pubs ev l : ∀ b ps, fold_left (visit ev) l (set_pubs b ps) = set_pubs (fold_left (visit ev) l b) ps.
Proof. induction l as [|x l IH]; intros b ps; [done|]. cbn. by rewrite visit_set_pubs, IH. Qed.
Lemma visits_pubs ev l b : pubs (fold_left (visit ev) l b) = pubs b.
Proof.
  assert (b = set_pubs b (pubs b)) as -> by (by destruct b). by rewrite visits_set_pubs.
Qed.

Lemma publish_rounds p ev todo : ∀ b, pubs b !! p = Some (ev, todo) →
  busRun b (replicate (length todo) (BNext p)) = Some (set_pubs (fold_left (visit ev) todo b) (<[p := (ev, [])]> (pubs b))).
Proof.
  induction todo as [|[s pat] todo IH]; intros b Hp.
  - cbn. rewrite insert_id by done. by destruct b.
  - cbn [length replicate busRun busStep]. unfold publishStep. rewrite Hp.
    change (if matchPattern pat (Topic ev) then trySend ?x s ev else ?x) with (visit ev x (s, pat)).
    rewrite visit_set_pubs, IH by (cbn; apply lookup_insert_eq). cbn [fold_left pubs set_pubs].
    by rewrite visits_set_pubs, insert_insert_eq.
Qed.

(** Uninterrupted, the steps of a call add up to [Publish]. *)
Theorem publish_uninterrupted b p ev : pubs b !! p = None →
  busRun b (BBegin p ev :: replicate (length (subscribers b)) (BNext p) ++ [BEnd p]) = Some (Publish b ev).
Proof.
  intros Hp. cbn [busRun busStep]. unfold publishBegin. rewrite decide_True by done.
  set (b1 := set_pubs b _). assert (pubs b1 !! p = Some (ev, subscribers b)) as H1 by apply lookup_insert_eq.
  rewrite busRun_app, (publish_rounds p ev _ b1 H1). cbn [busRun busStep]. unfold publishEnd.
  cbn [pubs set_pubs]. rewrite lookup_insert_eq. unfold b1. cbn [pubs set_pubs].
  rewrite visits_set_pubs, insert_insert_eq, delete_insert_eq, delete_id by done.
  change (Publish b ev) with (fold_left (visit ev) (subscribers b) b). pose proof (visits_pubs ev (subscribers b) b) as <-.
  by destruct (fold_left (visit ev) (subscribers b) b).
Qed.
End Proofs.

(** ** On concrete events *)

Module BusDemo.
Definition joined : BusEvent unit := mkBusEvent (str "network.joined") 9 100 tt.
Definition added : BusEvent unit := mkBusEvent (str "tunnel.peer_added") 9 101 tt.

(** Two publishers at once, three patterns. *)
Definition demo : list busOp :=
  [BSubscribe 1 (str "network.*"); BSubscribe 2 (str "*"); BSubscribe 3 (str "network");
   BBegin 7 joined; BNext 7; BBegin 8 added; BNext 8; BNext 8; BNext 7; BNext 7; BNext 8; BEnd 8; BEnd 7;
   BReceive 2; BCancel 1].

Lemma subscribers_account_for_events_witness :
  ∃ c, received c ++ waiting c ++ missed c ≡ₚ [joined; added] ∧ missed c = [].
Proof.
  destruct (busRun newInProcessBus demo) as [b|] eqn:E; [|vm_compute in E; discriminate E].
  assert (∃ c, chans b !! 2%nat = Some c) as [c Hc] by (vm_compute in E; injection E as <-; eexists; reflexivity).
  destruct (subscribers_account_for_events demo b 2 c E) as [H1 H2];
    [vm_compute in E; injection E as <-; reflexivity|exact Hc|].
  exists c. split; [exact H1|apply H2; vm_compute; repeat constructor].
Defined.

Lemma bus_never_panics_witness : (panicked <$> busRun newInProcessBus demo) = Some false.
Proof.
  destruct (busRun newInProcessBus demo) as [b|] eqn:E; [|vm_compute in E; discriminate E].
  cbn. f_equal. apply (bus_never_panics demo b E). vm_compute. repeat constructor. intros H. inversion H.
Defined.

(** Cancelling twice closes a closed channel. *)
Example second_cancel_panics :
  (panicked <$> busRun newInProcessBus (demo ++ [BCancel 1])) = Some true.
Proof. vm_compute. reflexivity. Qed.
End BusDemo.
