(* ===== verification/ProxyConf.v ===== *)
(** * Proxy settings and the loopback proxy (internal/proxyconf)

    What a -proxy setting may be and how it is shown, which targets never go to a proxy,
    and the [Relay]: a CONNECT proxy on loopback that lends the daemon's proxy to the
    processes the daemon starts.  The netproxy package is a separate module: [Explicit],
    a [Resolver]'s answers and its dial errors are arguments.  Text is bytes whose
    letters are ASCII. *)
From stdpp Require Import strings.
From S2P Require Import Prelude GoText Routing Tunnel NetIP.
Open Scope Z_scope.

(** ** strings *)

Definition lowerByte (c : Z) : Z := if (65 <=? c) && (c <=? 90) then c + 32 else c.
Definition ToLower (s : bytes) : bytes := lowerByte <$> s.
Definition EqualFold (s t : bytes) : bool := bool_decide (ToLower s = ToLower t).
Definition TrimSuffix (s suf : bytes) : bytes := default s (CutSuffix s suf).
Definition TrimPrefix (s p : bytes) : bytes := if HasPrefix s p then drop (length p) s else s.
(** [strings.Index], [strings.Cut] *)
Fixpoint Index (s sub : bytes) : option nat :=
  if HasPrefix s sub then Some O else match s with [] => None | _ :: s => S <$> Index s sub end.
Definition Cut (s sep : bytes) : option (bytes * bytes) :=
  match Index s sep with Some i => Some (take i s, drop (i + length sep) s) | None => None end.
(** [strings.Trim(s, "[]")] *)
Fixpoint trimLeftBrackets (s : bytes) : bytes :=
  match s with b :: s' => if (b =? 91) || (b =? 93) then trimLeftBrackets s' else s | [] => [] end.
Definition TrimBrackets (s : bytes) : bytes := reverse (trimLeftBrackets (reverse (trimLeftBrackets s))).

(** ** Settings *)

Definition Auto : bytes := str "auto".
Definition Off : bytes := str "off".
Definition offAliases : list bytes := [str "off"; str "none"; str "no"; str "false"; str "direct"].
Definition isOff (s : bytes) : bool := bool_decide (s ∈ offAliases).

(** An error of netproxy: its message, and the error inside where it is an EnvError. *)
Record NetproxyError := mkNetproxyError { netproxyMsg : bytes; envErr : option bytes }.
Definition unwrapNetproxy (e : NetproxyError) : bytes := TrimPrefix (default (netproxyMsg e) (envErr e)) (str "netproxy: ").

(** What is wrong with a setting; [shown] is the setting as the message quotes it. *)
Inductive SpecError := NoScheme (shown : bytes) | BadScheme (shown : bytes) | BadURL (shown why : bytes).

Section Settings.
(** [netproxy.Explicit]: the resolver of an explicit URL as its String method shows it. *)
Context (Explicit : bytes → NetproxyError + bytes).

Definition HasCredentials (spec : bytes) : bool := hasByte spec 64.

Definition Redact (spec : bytes) : bytes :=
  let s := TrimSpace spec in
  let lower := ToLower s in
  if bool_decide (lower = []) || bool_decide (lower = Auto) || isOff lower then s
  else match (if Contains s (str "://") then Explicit s else inl (mkNetproxyError [] None)) with
  | inr shown => shown
  | inl _ =>
    match LastIndexByte s 64 with
    | Some i =>
      let prefix := match Index s (str "://") with
                    | Some j => if decide (j < i)%nat then take (j + 3) s else []
                    | None => []
                    end in
      prefix ++ str "***@" ++ drop (S i) s
    | None => s
    end
  end.

Definition Normalize (spec : bytes) : SpecError + bytes :=
  let s := TrimSpace spec in
  let lower := ToLower s in
  if bool_decide (lower = []) || bool_decide (lower = Auto) then inr Auto
  else if isOff lower then inr Off
  else match Cut s (str "://") with
  | None => inl (NoScheme (Redact s))
  | Some (scheme, _) =>
    if bool_decide (ToLower scheme = str "http") || bool_decide (ToLower scheme = str "https") then
      match Explicit s with
      | inl e => inl (BadURL (Redact s) (unwrapNetproxy e))
      | inr _ => inr s
      end
    else inl (BadScheme (Redact s))
  end.
End Settings.

(** ** Loopback *)

Definition IsLoopbackHost (host : bytes) : bool :=
  let h := TrimSuffix (ToLower (TrimBrackets host)) (str ".") in
  if bool_decide (h = str "localhost") || match CutSuffix h (str ".localhost") with Some _ => true | None => false end then true
  else
    let h := match IndexByte h 37 with Some i => take i h | None => h end in
    match ParseIP h with Some ip => IsLoopback ip | None => false end.

Definition loopbackAddr (addr : bytes) : bool :=
  match SplitHostPort addr with Some (host, _) => IsLoopbackHost host | None => false end.

(** A resolver: whether it proxies anything, the proxy of an address (none, or its URL
    as text), and of a request. *)
Record Resolver := mkResolver { rEnabled : bool; ProxyForAddr : bytes → bytes + option bytes }.

Section Routes.
(** [netproxy.Redact] *)
Context (redactURL : bytes → bytes).

Definition ProxyFor (r : option Resolver) (addr : bytes) : bytes :=
  match r with
  | None => []
  | Some r =>
    if negb (rEnabled r) || loopbackAddr addr then []
    else match ProxyForAddr r addr with inr (Some u) => redactURL u | _ => [] end
  end.
Definition Proxies (r : option Resolver) (addr : bytes) : bool := negb (bool_decide (ProxyFor r addr = [])).
End Routes.

(** Who opens the connection: the system, or netproxy's Dialer. *)
Inductive Dialer := DirectDialer | NetproxyDialer.
Definition DialContext (addr : bytes) : Dialer := if loopbackAddr addr then DirectDialer else NetproxyDialer.

(** A request for an HTTP transport; [proxyOf] is the resolver's answer for it. *)
Record HttpTarget := mkHttpTarget { urlScheme : bytes; urlHostname : bytes }.
Definition RequestProxy (proxyOf : HttpTarget → bytes + option bytes) (req : option HttpTarget) : bytes + option bytes :=
  match req with
  | None => inr None
  | Some t => if IsLoopbackHost (urlHostname t) then inr None else proxyOf t
  end.
Definition tunnelled (req : option HttpTarget) : bool :=
  match req with
  | None => false
  | Some t => bool_decide (ToLower (urlScheme t) = str "https") || bool_decide (ToLower (urlScheme t) = str "wss")
  end.
(** The Proxy function ConfigureTransport installs. *)
Definition transportProxy (proxyOf : HttpTarget → bytes + option bytes) (relay : option bytes) (req : option HttpTarget)
  : bytes + option bytes :=
  match relay with
  | None => RequestProxy proxyOf req
  | Some via =>
    match RequestProxy proxyOf req with
    | inr (Some u) => inr (Some (if tunnelled req then via else u))
    | ans => ans
    end
  end.

(** ** Answers of the relay *)

Definition RelayUser : bytes := str "pilot-relay".
Definition relayReasonPrefix : bytes := str "pilot-daemon proxy relay: ".
Definition maxReason : nat := Z.to_nat 300.
Definition reasonByte (c : Z) : Z := if (32 <=? c) && (c <? 127) then c else 32.
Definition reasonText (s : bytes) : bytes := TrimSpace (reasonByte <$> take maxReason s).

Definition StatusText (code : Z) : bytes :=
  if code =? 400 then str "Bad Request" else if code =? 403 then str "Forbidden"
  else if code =? 405 then str "Method Not Allowed" else if code =? 407 then str "Proxy Authentication Required"
  else if code =? 502 then str "Bad Gateway" else if code =? 504 then str "Gateway Timeout"
  else if code =? 508 then str "Loop Detected" else [].
Definition crlf : bytes := [13; 10].

(** The status without the version, as an HTTP client reports it, and the whole answer. *)
Definition relayStatus (code : Z) (detail : bytes) : bytes :=
  let detail := reasonText detail in
  FormatInt code ++ str " " ++ StatusText code ++
  (if bool_decide (detail = []) then [] else str " (" ++ relayReasonPrefix ++ detail ++ str ")").
Definition writeRelayStatus (code : Z) (detail : bytes) (headers : list bytes) : bytes :=
  str "HTTP/1.1 " ++ relayStatus code detail ++ crlf ++ concat ((λ h, h ++ crlf) <$> headers) ++
  str "Content-Length: 0" ++ crlf ++ str "Connection: close" ++ crlf ++ crlf.

Definition relayDetail (status : bytes) : bytes :=
  let marker := str " (" ++ relayReasonPrefix in
  match Index status marker, CutSuffix status (str ")") with
  | Some i, Some s => reasonText (drop (i + length marker) s)
  | _, _ => []
  end.

(** A failed dial: its text, the status of a ConnectError in it, and whether it is an
    expired deadline or a timeout of net. *)
Record TunnelError := mkTunnelError { dialMsg : bytes; connectStatus : option Z; deadlineExceeded : bool; netTimeout : bool }.
Definition relayFailureStatus (e : TunnelError) : Z :=
  if bool_decide (connectStatus e = Some 403) then 403
  else if deadlineExceeded e then 504 else if netTimeout e then 504 else 502.
Definition AuthRejected (e : TunnelError) : bool := bool_decide (connectStatus e = Some 407).
Definition UnreadableConnectReply (e : TunnelError) : bool :=
  Contains (dialMsg e) (str "read CONNECT response: ") && Contains (dialMsg e) (str "(response text withheld)").
