(* ===== verification/ProxyRelay.v ===== *)
(** * The loopback proxy (internal/proxyconf/relay.go: [Relay])

    [handle] is what one client connection gets; [relayStep] is the life of the relay,
    with its accept loop, its handlers and Close running at the same time. *)
From stdpp Require Import strings.
From S2P Require Import Prelude GoText Routing Tunnel NetIP ProxyConf.
Open Scope Z_scope.

Definition relayLogEvery : duration := 10 * Second.

(** ** One client *)

Record Relay := mkRelay { relayAddr : bytes; token : bytes; resolver : Resolver; lastWarn : gotime; muted : Z }.

(** A request as http.ReadRequest gives it. *)
Record ConnectRequest := mkConnectRequest {
  Method : bytes; reqHost : bytes; reqURLHost : option bytes; ProxyAuthorization : bytes }.

Definition Serves (rl : option Relay) (proxyURL : bytes) : bool :=
  match rl with
  | None => false
  | Some rl =>
    let s := TrimSpace proxyURL in
    let s := match Index s (str "://") with Some i => drop (i + 3) s | None => s end in
    let s := match LastIndexByte s 64 with Some i => drop (S i) s | None => s end in
    let s := match list_find (λ c, c = 47 ∨ c = 63 ∨ c = 35) s with Some (i, _) => take i s | None => s end in
    match SplitHostPort s with
    | None => false
    | Some (host, port) =>
      let '(lhost, lport) := default ([], []) (SplitHostPort (relayAddr rl)) in
      bool_decide (port = lport) && (EqualFold (TrimBrackets host) lhost || IsLoopbackHost host)
    end
  end.

(** The result for the client: an answer, or a tunnel to a target (unless the relay is
    closed meanwhile, see [trackUp]). *)
Inductive RelayOutcome := RelayAnswer (answer : bytes) | RelayTunnel (target : bytes) (via : Dialer).

Section Handle.
(** base64.StdEncoding.DecodeString, and what a dial gives. *)
Context (DecodeBase64 : bytes → option bytes) (dialTo : Dialer → bytes → option TunnelError).

Definition authorized (rl : Relay) (req : ConnectRequest) : bool :=
  match Cut (TrimSpace (ProxyAuthorization req)) (str " ") with
  | None => false
  | Some (scheme, cred) =>
    if EqualFold scheme (str "Basic") then
      match DecodeBase64 (TrimSpace cred) with
      | None => false
      | Some raw => bool_decide (raw = RelayUser ++ str ":" ++ token rl)
      end
    else false
  end.

(** The log line of a failed tunnel, if one is due: how many were not logged before it. *)
Definition warn (rl : Relay) (now : gotime) : Relay * option Z :=
  if negb (IsZero (lastWarn rl)) && (time_sub now (lastWarn rl) <? relayLogEvery)
  then (mkRelay (relayAddr rl) (token rl) (resolver rl) (lastWarn rl) (muted rl + 1), None)
  else (mkRelay (relayAddr rl) (token rl) (resolver rl) now 0, Some (muted rl)).

Definition requestTarget (req : ConnectRequest) : bytes :=
  match reqHost req with [] => default [] (reqURLHost req) | h => h end.

Definition handle (rl : Relay) (now : gotime) (request : option ConnectRequest) : Relay * RelayOutcome :=
  match request with
  | None => (rl, RelayAnswer (writeRelayStatus 400 [] []))
  | Some req =>
    if negb (bool_decide (Method req = str "CONNECT"))
    then (rl, RelayAnswer (writeRelayStatus 405 (str "only CONNECT is relayed") [str "Allow: CONNECT"]))
    else if negb (authorized rl req)
    then (rl, RelayAnswer (writeRelayStatus 407 [] [str "Proxy-Authenticate: Basic realm=" ++ [34] ++ str "pilot-daemon" ++ [34]]))
    else
      let target := requestTarget req in
      match SplitHostPort target with
      | Some (_ :: _, _ :: _) =>
        let loop := if loopbackAddr target then false
                    else match ProxyForAddr (resolver rl) target with inr (Some u) => Serves (Some rl) u | _ => false end in
        if loop then (rl, RelayAnswer (writeRelayStatus 508 (str "the proxy for " ++ target ++ str " is this relay") []))
        else
          match dialTo (DialContext target) target with
          | Some e => (fst (warn rl now), RelayAnswer (writeRelayStatus (relayFailureStatus e) (dialMsg e) []))
          | None => (rl, RelayTunnel target (DialContext target))
          end
      | _ => (rl, RelayAnswer (writeRelayStatus 400 (str "CONNECT needs host:port") []))
      end
  end.
End Handle.

(** ** Its life

    Connections are named by numbers.  [conns] are the tracked ones, [sockets] those
    that are open; a handler is named by its client's connection.  Only the first Close
    does anything. *)
Inductive Handler :=
| Serving                        (** reads the request and dials *)
| Dialed (up : nat)              (** has the upstream connection, not tracked yet *)
| Tunnelling (up : nat)
| Leaving                        (** returns from handle *)
| Untracked.                     (** before wg.Done *)

Record Life := mkLife {
  lifeClosed : bool;
  tracked : gset nat;
  sockets : gset nat;
  wg : Z;
  handlers : gmap nat Handler;
  accepted : option nat;         (** accepted by serve, not tracked yet *)
  serving : bool;                (** serve has not returned *)
  closeReturned : bool;
  nextConn : nat;                (** a connection number not used yet *)
}.
Implicit Types l : Life.
Definition relayStarted : Life := mkLife false ∅ ∅ 0 ∅ None true false 0.

Inductive LifeOp := LAccept | LTrack | LAcceptFails | LDial (c : nat) | LTrackUp (c : nat) | LFail (c : nat)
  | LTunnelEnds (c : nat) | LUntrack (c : nat) | LDone (c : nat) | LClose | LCloseReturns.

Definition set_handler l (c : nat) (h : Handler) : Life :=
  mkLife (lifeClosed l) (tracked l) (sockets l) (wg l) (<[c := h]> (handlers l)) (accepted l) (serving l) (closeReturned l) (nextConn l).
Definition set_lifeConns l (t s : gset nat) : Life :=
  mkLife (lifeClosed l) t s (wg l) (handlers l) (accepted l) (serving l) (closeReturned l) (nextConn l).

(** [track] of a handler's upstream connection. *)
Definition trackUp l (c up : nat) : Life :=
  if lifeClosed l then set_handler (set_lifeConns l (tracked l) (sockets l ∖ {[up]})) c Leaving
  else set_handler (set_lifeConns l ({[up]} ∪ tracked l) (sockets l)) c (Tunnelling up).
Definition untrack l (c : nat) : Life := set_lifeConns l (tracked l ∖ {[c]}) (sockets l ∖ {[c]}).

Definition lifeStep l (o : LifeOp) : option Life :=
  match o with
  | LAccept => (* serve: ln.Accept *)
    if serving l && negb (lifeClosed l) && bool_decide (accepted l = None)
    then Some (mkLife (lifeClosed l) (tracked l) ({[nextConn l]} ∪ sockets l) (wg l) (handlers l) (Some (nextConn l)) true
                 (closeReturned l) (S (nextConn l)))
    else None
  | LTrack => (* serve: rl.track(c, true) and the go statement *)
    match accepted l with
    | None => None
    | Some c =>
      if lifeClosed l
      then Some (mkLife true (tracked l) (sockets l ∖ {[c]}) (wg l) (handlers l) None false (closeReturned l) (nextConn l))
      else Some (mkLife false ({[c]} ∪ tracked l) (sockets l) (wg l + 1) (<[c := Serving]> (handlers l)) None true
                   (closeReturned l) (nextConn l))
    end
  | LAcceptFails => (* serve returns once the listener is closed *)
    if serving l && lifeClosed l && bool_decide (accepted l = None)
    then Some (mkLife true (tracked l) (sockets l) (wg l) (handlers l) None false (closeReturned l) (nextConn l)) else None
  | LDial c =>
    match handlers l !! c with
    | Some Serving =>
      Some (set_handler (mkLife (lifeClosed l) (tracked l) ({[nextConn l]} ∪ sockets l) (wg l) (handlers l) (accepted l)
                           (serving l) (closeReturned l) (S (nextConn l))) c (Dialed (nextConn l)))
    | _ => None
    end
  | LFail c => match handlers l !! c with Some Serving => Some (set_handler l c Leaving) | _ => None end
  | LTrackUp c => match handlers l !! c with Some (Dialed up) => Some (trackUp l c up) | _ => None end
  | LTunnelEnds c => match handlers l !! c with Some (Tunnelling up) => Some (set_handler (untrack l up) c Leaving) | _ => None end
  | LUntrack c => match handlers l !! c with Some Leaving => Some (set_handler (untrack l c) c Untracked) | _ => None end
  | LDone c =>
    match handlers l !! c with
    | Some Untracked => Some (mkLife (lifeClosed l) (tracked l) (sockets l) (wg l - 1) (delete c (handlers l)) (accepted l)
                                (serving l) (closeReturned l) (nextConn l))
    | _ => None
    end
  | LClose => (* Close under the lock: the listener and every tracked connection *)
    if lifeClosed l then None
    else Some (mkLife true (tracked l) (sockets l ∖ tracked l) (wg l) (handlers l) (accepted l) (serving l) (closeReturned l) (nextConn l))
  | LCloseReturns => (* wg.Wait *)
    if lifeClosed l && (wg l =? 0) && negb (closeReturned l)
    then Some (mkLife true (tracked l) (sockets l) (wg l) (handlers l) (accepted l) (serving l) true (nextConn l)) else None
  end.
Fixpoint lifeRun l (ops : list LifeOp) : option Life :=
  match ops with [] => Some l | o :: ops => match lifeStep l o with Some l => lifeRun l ops | None => None end end.
