(* ===== verification/ProxyProofs.v ===== *)
(** * The proxy settings and the loopback proxy: theorems (models in ProxyConf, ProxyRelay) *)
From stdpp Require Import strings.
From S2P Require Import Prelude GoText Routing Tunnel NetIP ProxyConf ProxyRelay.
Open Scope Z_scope.

(** ** Text *)

Lemma trimLeft_idem s : trimLeft (trimLeft s) = trimLeft s.
Proof. induction s as [|b s IH]; [done|]. cbn. destruct (isSpace b) eqn:E; [done|]. cbn. by rewrite E. Qed.

Lemma trimLeft_cases s : trimLeft s = [] ∨ ∃ b t, trimLeft s = b :: t ∧ isSpace b = false.
Proof. induction s as [|b s IH]; [by left|]. cbn. destruct (isSpace b) eqn:E; [done|]. right. by exists b, s. Qed.

Lemma trimLeft_suffix s : ∃ p, s = p ++ trimLeft s ∧ Forall (λ b, isSpace b = true) p.
Proof.
  induction s as [|b s (p & E & Hp)]; [by exists []|]. cbn. destruct (isSpace b) eqn:Eb.
  - exists (b :: p). split; [cbn; by rewrite <-E|by constructor].
  - by exists [].
Qed.

Lemma TrimSpace_ends s : TrimSpace s = [] ∨ ∃ b t c u,
  TrimSpace s = b :: t ∧ TrimSpace s = u ++ [c] ∧ isSpace b = false ∧ isSpace c = false.
Proof.
  unfold TrimSpace. destruct (trimLeft_cases s) as [->|(b & t & E & Hb)]; [by left|]. rewrite E.
  destruct (trimLeft_cases (reverse (b :: t))) as [H|(c & u & Ec & Hc)].
  - destruct (trimLeft_suffix (reverse (b :: t))) as (p & Ep & Hp). rewrite H, app_nil_r in Ep.
    assert (b ∈ p) as Hin by (rewrite <-Ep, reverse_cons; apply elem_of_app; right; by left).
    rewrite Forall_forall in Hp. specialize (Hp _ Hin). cbn in Hp. congruence.
  - right. rewrite Ec, reverse_cons. destruct (trimLeft_suffix (reverse (b :: t))) as (p & Ep & _). rewrite Ec in Ep.
    apply (f_equal reverse) in Ep. rewrite reverse_involutive, reverse_app, reverse_cons in Ep.
    destruct (reverse u) as [|b' u'] eqn:Eu.
    + exists c, [], c, []. split_and!; try done.
    + exists b', (u' ++ [c]), c, (b' :: u'). split_and!; try done. cbn in Ep. by injection Ep as <- _.
Qed.

Lemma TrimSpace_id s b t c u : s = b :: t → s = u ++ [c] → isSpace b = false → isSpace c = false → TrimSpace s = s.
Proof.
  intros E1 E2 Hb Hc. unfold TrimSpace. assert (trimLeft s = s) as -> by (rewrite E1; cbn; by rewrite Hb).
  assert (trimLeft (reverse s) = reverse s) as -> by (rewrite E2, reverse_app; cbn; by rewrite Hc).
  apply reverse_involutive.
Qed.
Lemma TrimSpace_idem s : TrimSpace (TrimSpace s) = TrimSpace s.
Proof. destruct (TrimSpace_ends s) as [->|(b & t & c & u & E1 & E2 & Hb & Hc)]; [done|]. by eapply TrimSpace_id. Qed.

Lemma trimLeft_elem x s : x ∈ trimLeft s → x ∈ s.
Proof. destruct (trimLeft_suffix s) as (p & E & _). rewrite E at 2. set_solver. Qed.
Lemma TrimSpace_elem x s : x ∈ TrimSpace s → x ∈ s.
Proof. unfold TrimSpace. rewrite elem_of_reverse. intros ?%trimLeft_elem. rewrite elem_of_reverse in H. by apply trimLeft_elem. Qed.
Lemma length_trimLeft s : (length (trimLeft s) ≤ length s)%nat.
Proof. destruct (trimLeft_suffix s) as (p & E & _). apply (f_equal length) in E. rewrite length_app in E. lia. Qed.
Lemma length_TrimSpace s : (length (TrimSpace s) ≤ length s)%nat.
Proof. unfold TrimSpace. rewrite length_reverse. pose proof (length_trimLeft (reverse (trimLeft s))) as H. rewrite length_reverse in H. pose proof (length_trimLeft s). lia. Qed.

(** ** Reasons *)

Definition printable (c : Z) : Prop := 32 <= c < 127.
Lemma reasonByte_printable c : printable (reasonByte c).
Proof. unfold reasonByte, printable. destruct ((32 <=? c) && (c <? 127)) eqn:E; zbool; lia. Qed.
Lemma reasonByte_id c : printable c → reasonByte c = c.
Proof. unfold reasonByte, printable. intros H. destruct ((32 <=? c) && (c <? 127)) eqn:E; [done|]. zbool; lia. Qed.

Lemma reasonText_printable s : Forall printable (reasonText s).
Proof.
  apply Forall_forall. intros x Hx%TrimSpace_elem. apply list_elem_of_fmap in Hx as (c & -> & _). apply reasonByte_printable.
Qed.
Lemma length_reasonText s : (length (reasonText s) ≤ maxReason)%nat.
Proof. unfold reasonText. etrans; [apply length_TrimSpace|]. rewrite length_fmap, length_take. lia. Qed.
Lemma reasonText_idem s : reasonText (reasonText s) = reasonText s.
Proof.
  pose proof (reasonText_printable s) as Hp. pose proof (length_reasonText s) as Hl.
  unfold reasonText at 1. rewrite take_ge by done.
  assert (reasonByte <$> reasonText s = reasonText s) as ->; [|apply TrimSpace_idem].
  clear Hl. induction Hp as [|c l Hc Hp IH]; [done|]. cbn. by rewrite IH, reasonByte_id.
Qed.

(** ** Answers *)

Lemma FormatInt_bytes z : Forall (λ c, isDigit c = true ∨ c = 45) (FormatInt z).
Proof.
  unfold FormatInt. assert (∀ n, Forall (λ c, isDigit c = true ∨ c = 45) (digits 20 n [])) as Hd.
  { intros n. eapply Forall_impl; [apply digits_digit; constructor|]. auto. }
  case_match; [constructor; [by right|apply Hd]|apply Hd].
Qed.

Definition marker : bytes := str " (" ++ relayReasonPrefix.

Lemma plain_check l : forallb (λ c, (32 <=? c) && (c <? 127) && negb (c =? 40)) l = true → Forall (λ c, printable c ∧ c ≠ 40) l.
Proof.
  induction l as [|c l IH]; [constructor|]. cbn. intros [H Hl]%andb_true_iff. constructor; [|auto].
  unfold printable. apply andb_true_iff in H as [H H3]. apply negb_true_iff in H3. zbool. lia.
Qed.
Lemma printable_check l : forallb (λ c, (32 <=? c) && (c <? 127)) l = true → Forall printable l.
Proof.
  induction l as [|c l IH]; [constructor|]. cbn. intros [H Hl]%andb_true_iff. constructor; [|auto]. unfold printable. zbool. lia.
Qed.
Lemma plainStatus_bytes code : Forall (λ c, printable c ∧ c ≠ 40) (FormatInt code ++ str " " ++ StatusText code).
Proof.
  rewrite !Forall_app. split_and!.
  - eapply Forall_impl; [apply FormatInt_bytes|]. unfold isDigit, printable. intros c [H| ->]; zbool; lia.
  - apply plain_check. reflexivity.
  - apply plain_check. unfold StatusText. by repeat case_match.
Qed.

Lemma HasPrefix_elem s p x : HasPrefix s p = true → x ∈ p → x ∈ s.
Proof.
  unfold HasPrefix. intros H%bool_decide_eq_true Hx. rewrite <-H in Hx. by apply elem_of_take in Hx as (i & ? & _); eapply list_elem_of_lookup_2.
Qed.
Lemma Index_none s sub x : x ∈ sub → x ∉ s → Index s sub = None.
Proof.
  intros Hx. induction s as [|c s IH]; intros Hs; cbn.
  - destruct (HasPrefix [] sub) eqn:E; [|done]. by apply (HasPrefix_elem _ _ x) in E.
  - destruct (HasPrefix (c :: s) sub) eqn:E; [by apply (HasPrefix_elem _ _ x) in E|].
    rewrite IH; [done|]. intros ?. apply Hs. by right.
Qed.

Lemma HasPrefix_app p s : HasPrefix (p ++ s) p = true.
Proof. apply bool_decide_eq_true. by rewrite take_app_length. Qed.

(** The marker is found where it was put. *)
Lemma Index_marker pre rest : 40 ∉ pre → Index (pre ++ marker ++ rest) marker = Some (length pre).
Proof.
  induction pre as [|c pre IH]; intros Hpre.
  - cbn [app length]. destruct (marker ++ rest) as [|b s] eqn:E; [done|]. cbn [Index]. rewrite <-E. by rewrite HasPrefix_app.
  - cbn [app Index length]. destruct (HasPrefix (c :: pre ++ marker ++ rest) marker) eqn:E.
    + exfalso. apply bool_decide_eq_true in E. apply (f_equal (λ l, l !! 1%nat)) in E.
      change (marker !! 1%nat) with (Some 40) in E. rewrite lookup_take_lt in E by (vm_compute; lia). cbn in E.
      destruct pre as [|c' pre]; [done|]. cbn in E. injection E as ->. apply Hpre. right. left.
    + rewrite IH; [done|]. intros ?. apply Hpre. by right.
Qed.

Lemma CutSuffix_snoc s c : CutSuffix (s ++ [c]) [c] = Some s.
Proof.
  unfold CutSuffix. rewrite length_app. cbn [length]. replace (length s + 1 - 1)%nat with (length s) by lia.
  by rewrite drop_app_length, take_app_length, bool_decide_true.
Qed.

(** The reason the relay gives is the reason its clients read: [relayDetail] finds it in
    the status whatever the code and the text, unless the text has nothing printable. *)
Theorem relay_reason_roundtrip code detail : relayDetail (relayStatus code detail) = reasonText detail.
Proof.
  unfold relayStatus, relayDetail. fold marker. pose proof (plainStatus_bytes code) as Hb.
  set (plain := FormatInt code ++ str " " ++ StatusText code) in *.
  assert (40 ∉ plain) as Hn by (intros Hin; rewrite Forall_forall in Hb; by apply Hb in Hin as [_ ?]).
  case_bool_decide as Ed.
  - rewrite !app_nil_r. fold plain. by rewrite (Index_none _ _ 40), Ed by (vm_compute; set_solver).
  - set (d := reasonText detail) in *.
    replace (FormatInt code ++ str " " ++ StatusText code ++ str " (" ++ relayReasonPrefix ++ d ++ str ")")
      with (plain ++ marker ++ d ++ str ")") by (unfold plain, marker; by rewrite <-!app_assoc).
    rewrite Index_marker by done. change (str ")") with [41]. rewrite !app_assoc, CutSuffix_snoc, <-app_assoc.
    rewrite <-drop_drop, drop_app_length, drop_app_length. apply reasonText_idem.
Qed.

(** Nothing in a dial error can end the status line or add a header. *)
Lemma relayStatus_printable code detail : Forall printable (relayStatus code detail).
Proof.
  unfold relayStatus. rewrite app_assoc, app_assoc, Forall_app. split.
  - rewrite <-app_assoc. eapply Forall_impl; [apply plainStatus_bytes|]. by intros c [? _].
  - case_bool_decide; [constructor|]. rewrite !Forall_app. split_and!; try apply reasonText_printable.
    all: by apply printable_check.
Qed.

(** ** The relay's clients *)

Section Clients.
Context (DecodeBase64 : bytes → option bytes) (dialTo : Dialer → bytes → option TunnelError).

(** C22. A tunnel is opened only for a CONNECT that carries the relay's own token.  The
    relay uses its direct dialer for targets on this machine and for no others:
    every other target is handed to netproxy's dialer (which goes through the
    configured proxy, or straight to a target the setting exempts), and when the
    setting names a proxy for the target, that proxy is not this relay. *)
Theorem tunnels_need_the_token rl now request rl' target via :
  handle DecodeBase64 dialTo rl now request = (rl', RelayTunnel target via) →
  ∃ req scheme cred, request = Some req ∧ Method req = str "CONNECT" ∧ target = requestTarget req ∧
    Cut (TrimSpace (ProxyAuthorization req)) (str " ") = Some (scheme, cred) ∧
    DecodeBase64 (TrimSpace cred) = Some (RelayUser ++ str ":" ++ token rl) ∧
    (via = DirectDialer ↔ loopbackAddr target = true) ∧
    (∀ u, via = NetproxyDialer → ProxyForAddr (resolver rl) target = inr (Some u) → Serves (Some rl) u = false).
Proof.
  unfold handle. destruct request as [req|]; [|done].
  case_bool_decide as Hm; cbn [negb]; [|done]. destruct (authorized DecodeBase64 rl req) eqn:Ha; cbn [negb]; [|done].
  destruct (SplitHostPort (requestTarget req)) as [[[|] [|]]|]; try done.
  set (loop := if loopbackAddr (requestTarget req) then _ else _). destruct loop eqn:El; [done|].
  destruct (dialTo _ _); [done|]. intros [= <- <- <-]. unfold authorized in Ha.
  destruct (Cut _ _) as [[scheme cred]|] eqn:Ec; [|done]. destruct (EqualFold _ _); [|done].
  destruct (DecodeBase64 _) as [raw|] eqn:Er; [|done]. apply bool_decide_eq_true in Ha as ->.
  exists req, scheme, cred. split_and!; try done; unfold DialContext.
  - by destruct (loopbackAddr _).
  - intros u Hv Hu. unfold loop in El. destruct (loopbackAddr _); [done|]. by rewrite Hu in El.
Qed.

(** ** Log lines *)

Fixpoint warns (rl : Relay) (times : list gotime) : Relay * list Z :=
  match times with
  | [] => (rl, [])
  | now :: times =>
    let '(rl, line) := warn rl now in
    let '(rl, lines) := warns rl times in (rl, match line with Some m => m :: lines | None => lines end)
  end.
Definition zsum (l : list Z) : Z := fold_right Z.add 0 l.

(** Every failed tunnel is logged or counted in a later line: the lines, with the counts
    they report, and the count kept for the next one add up to the failures. *)
Theorem failures_are_counted times : ∀ rl,
  let '(rl', lines) := warns rl times in
  Z.of_nat (length lines) + zsum lines + muted rl' = Z.of_nat (length times) + muted rl.
Proof.
  induction times as [|now times IH]; intros rl; cbn [warns]; [cbn; lia|]. unfold warn.
  destruct (negb _ && _); lazy beta iota.
  - match goal with |- context [warns ?r times] => specialize (IH r) end. destruct (warns _ times) as [rl' lines].
    cbn [length muted] in *. lia.
  - match goal with |- context [warns ?r times] => specialize (IH r) end. destruct (warns _ times) as [rl' lines].
    cbn [length muted zsum fold_right] in *. unfold zsum in *. lia.
Qed.
End Clients.

(** ** The relay's life *)

(** An open connection is known to the one who will close it. *)
Definition looked_after (l : Life) (s : nat) : Prop :=
  lifeClosed l = false ∧ s ∈ tracked l ∨ accepted l = Some s ∨ ∃ c, handlers l !! c = Some (Dialed s).

Record life_inv (l : Life) : Prop := {
  li_wg : wg l = Z.of_nat (size (handlers l));
  li_sockets s : s ∈ sockets l → looked_after l s;
  li_accepted c : accepted l = Some c → handlers l !! c = None ∧ (c < nextConn l)%nat;
  li_fresh c h : handlers l !! c = Some h → (c < nextConn l)%nat;
  li_returned : closeReturned l = true → lifeClosed l = true ∧ handlers l = ∅;
}.

Lemma started_inv : life_inv relayStarted.
Proof. by split; cbn; try done; set_solver. Qed.

(** A handler moves on; [h] is its last state. *)
Lemma move_handler l c h h' s (open : gset nat) (t : gset nat) :
  handlers l !! c = Some h → life_inv l → s = set_handler (set_lifeConns l t open) c h' →
  (∀ x, x ∈ open → x ∈ sockets l ∧ (x ∈ tracked l → lifeClosed l = false → x ∈ t) ∧
     (h = Dialed x → h' = Dialed x ∨ lifeClosed l = false ∧ x ∈ t)) →
  life_inv s.
Proof.
  intros Hc [H1 H2 H3 H4 H5] -> Ho. split; cbn.
  - rewrite map_size_insert_Some by done. done.
  - intros x Hx. destruct (Ho x Hx) as (Hs & Ht & Hd). destruct (H2 x Hs) as [[Hf Hin]|[Ha|(c' & Hc')]].
    + left. cbn. auto.
    + right. by left.
    + unfold looked_after. cbn. destruct (decide (c' = c)) as [->|Hne].
      * rewrite Hc in Hc'. injection Hc' as ->. destruct (Hd eq_refl) as [->|[Hf Hin]]; [|by left].
        right. right. exists c. by rewrite lookup_insert_eq.
      * right. right. exists c'. by rewrite lookup_insert_ne.
  - intros c' Ha. destruct (H3 c' Ha) as [Hn Hl]. split; [|done]. rewrite lookup_insert_ne; [done|congruence].
  - intros c' h''. destruct (decide (c' = c)) as [->|]; [intros _; by eapply H4|rewrite lookup_insert_ne by done; apply H4].
  - intros Hr. destruct (H5 Hr) as [_ He]. by rewrite He, lookup_empty in Hc.
Qed.

Lemma accept_inv l l' : life_inv l → lifeStep l LAccept = Some l' → life_inv l'.
Proof.
  intros Hinv. pose proof Hinv as [H1 H2 H3 H4 H5]. cbn [lifeStep]. intros H.
  destruct (serving l), (lifeClosed l) eqn:Ec; cbn in H; try done. case_bool_decide as Ha; [|done]. injection H as <-.
  split; cbn; try done; try (intros Hr; by destruct (H5 Hr)).
  - intros s [Hs| Hs]%elem_of_union; [apply elem_of_singleton in Hs as ->; right; by left|].
    destruct (H2 s Hs) as [[? ?]|[?|?]]; [by left|congruence|right; by right].
  - intros c [= <-]. split; [|lia]. destruct (handlers l !! _) eqn:E; [|done]. apply H4 in E. lia.
  - intros c h Hh. apply H4 in Hh. lia.
Qed.

Lemma track_inv l l' : life_inv l → lifeStep l LTrack = Some l' → life_inv l'.
Proof.
  intros Hinv. pose proof Hinv as [H1 H2 H3 H4 H5]. cbn [lifeStep]. intros H.
  destruct (accepted l) as [c|] eqn:Ea; [|done]. destruct (H3 c eq_refl) as [Hn Hl].
  destruct (lifeClosed l) eqn:Ec; injection H as <-; split; cbn; try done; try (intros Hr; by destruct (H5 Hr)).
  - intros s [Hs Hne]%elem_of_difference. destruct (H2 s Hs) as [[? ?]|[?|?]]; [congruence|set_solver|right; by right].
  - rewrite map_size_insert_None by done. lia.
  - intros s Hs. destruct (H2 s Hs) as [[? Hin]|[Ha|(c' & Hc')]].
    + left. cbn. set_solver.
    + left. cbn. split; [done|]. assert (s = c) as -> by congruence. set_solver.
    + right. right. exists c'. cbn. rewrite lookup_insert_ne; [done|congruence].
  - intros c' h. destruct (decide (c' = c)) as [->|]; [done|rewrite lookup_insert_ne by done; apply H4].
Qed.

Lemma acceptFails_inv l l' : life_inv l → lifeStep l LAcceptFails = Some l' → life_inv l'.
Proof.
  intros Hinv. pose proof Hinv as [H1 H2 H3 H4 H5]. cbn [lifeStep]. intros H.
  destruct (serving l), (lifeClosed l) eqn:Ec; cbn in H; try done. case_bool_decide as Ha; [|done]. injection H as <-.
  split; cbn; try done; try (intros Hr; by destruct (H5 Hr)).
  - intros s Hs. destruct (H2 s Hs) as [[? ?]|[?|?]]; [congruence|congruence|right; by right].
Qed.

Lemma dial_inv l c l' : life_inv l → lifeStep l (LDial c) = Some l' → life_inv l'.
Proof.
  intros Hinv. pose proof Hinv as [H1 H2 H3 H4 H5]. cbn [lifeStep]. intros H.
  destruct (handlers l !! c) as [[]|] eqn:Hc; try done. injection H as <-.
  set (l1 := mkLife _ _ _ _ _ _ _ _ _). split; cbn; try done; try (intros Hr; by destruct (H5 Hr)).
  - by rewrite map_size_insert_Some.
  - intros s [Hs|Hs]%elem_of_union.
    + apply elem_of_singleton in Hs as ->. right. right. exists c. cbn. by rewrite lookup_insert_eq.
    + destruct (H2 s Hs) as [?|[?|(c' & Hc')]]; [by left|right; by left|]. right. right. exists c'. cbn.
      rewrite lookup_insert_ne; [done|congruence].
  - intros c' Ha. destruct (H3 c' Ha). split; [rewrite lookup_insert_ne by congruence; done|lia].
  - intros c' h. destruct (decide (c' = c)) as [->|]; [intros _; apply H4 in Hc; lia|].
    rewrite lookup_insert_ne by done. intros Hh%H4. lia.
  - intros Hr. destruct (H5 Hr) as [_ He]. by rewrite He, lookup_empty in Hc.
Qed.

Lemma trackUp_inv l c l' : life_inv l → lifeStep l (LTrackUp c) = Some l' → life_inv l'.
Proof.
  intros Hinv. pose proof Hinv as [H1 H2 H3 H4 H5]. cbn [lifeStep]. intros H.
  destruct (handlers l !! c) as [[|up| | |]|] eqn:Hc; try done. injection H as <-. unfold trackUp. destruct (lifeClosed l) eqn:Ec.
  - eapply (move_handler l c); [done|done|reflexivity|]. intros x Hx. split_and!; [set_solver|done|]. intros [= ->]. set_solver.
  - eapply (move_handler l c); [done|done|reflexivity|]. intros x Hx. split_and!; [done|set_solver|]. intros [= ->]. right. set_solver.
Qed.

Lemma done_inv l c l' : life_inv l → lifeStep l (LDone c) = Some l' → life_inv l'.
Proof.
  intros Hinv. pose proof Hinv as [H1 H2 H3 H4 H5]. cbn [lifeStep]. intros H.
  destruct (handlers l !! c) as [[]|] eqn:Hc; try done. injection H as <-. split; cbn; try done; try (intros Hr; by destruct (H5 Hr)).
  - rewrite map_size_delete_Some by done. pose proof (map_size_ne_0_lookup_2 (handlers l) c ltac:(by eexists)). lia.
  - intros s Hs. destruct (H2 s Hs) as [?|[?|(c' & Hc')]]; [by left|right; by left|]. right. right. exists c'. cbn.
    rewrite lookup_delete_ne; [done|congruence].
  - intros c' Ha. destruct (H3 c' Ha). split; [|done]. by rewrite lookup_delete_None; right.
  - intros c' h. rewrite lookup_delete_Some. intros [_ ?]. by eapply H4.
  - intros Hr. destruct (H5 Hr) as [? He]. by rewrite He, lookup_empty in Hc.
Qed.

Lemma close_inv l l' : life_inv l → lifeStep l LClose = Some l' → life_inv l'.
Proof.
  intros Hinv. pose proof Hinv as [H1 H2 H3 H4 H5]. cbn [lifeStep]. intros H.
  destruct (lifeClosed l) eqn:Ec; [done|]. injection H as <-. split; cbn; try done; try (intros Hr; by destruct (H5 Hr)).
  - intros s [Hs Hn]%elem_of_difference. destruct (H2 s Hs) as [[_ ?]|[?|?]]; [done|right; by left|right; by right].
Qed.

Lemma closeReturns_inv l l' : life_inv l → lifeStep l LCloseReturns = Some l' → life_inv l'.
Proof.
  intros Hinv. pose proof Hinv as [H1 H2 H3 H4 H5]. cbn [lifeStep]. intros H.
  destruct (lifeClosed l) eqn:Ec, (wg l =? 0) eqn:Ew, (closeReturned l); cbn in H; try done. injection H as <-. zbool.
  split; cbn; try done; try (intros Hr; by destruct (H5 Hr)).
  - intros s Hs. destruct (H2 s Hs) as [[? ?]|?]; [congruence|by right].
  - intros _. split; [done|]. apply map_size_empty_inv. lia.
Qed.

Lemma lifeStep_inv l o l' : life_inv l → lifeStep l o = Some l' → life_inv l'.
Proof.
  intros Hinv H. destruct o as [| | |c|c|c|c|c|c| |]; eauto using accept_inv, track_inv, acceptFails_inv, dial_inv, trackUp_inv, done_inv, close_inv, closeReturns_inv; cbn [lifeStep] in H.
  - destruct (handlers l !! c) as [[]|] eqn:Hc; try done. injection H as <-.
    eapply (move_handler l c _ _ _ (sockets l) (tracked l)); [done|done|by destruct l|]. done.
  - destruct (handlers l !! c) as [[| |up| |]|] eqn:Hc; try done. injection H as <-.
    eapply (move_handler l c); [done|done|reflexivity|]. intros x Hx. split_and!; [set_solver|set_solver|done].
  - destruct (handlers l !! c) as [[]|] eqn:Hc; try done. injection H as <-.
    eapply (move_handler l c); [done|done|reflexivity|]. intros x Hx. split_and!; [set_solver|set_solver|done].
Qed.

Lemma lifeRun_inv ops : ∀ l l', life_inv l → lifeRun l ops = Some l' → life_inv l'.
Proof.
  induction ops as [|o ops IH]; intros l l' Hi; cbn [lifeRun]; [by intros [= <-]|].
  destruct (lifeStep l o) as [l1|] eqn:E; [|done]. apply IH. by eapply lifeStep_inv.
Qed.

(** When Close returns no handler runs and no connection is left open, but for one that
    the accept loop has in hand; it will close that one. *)
Theorem close_leaves_nothing ops l :
  lifeRun relayStarted ops = Some l → closeReturned l = true →
  handlers l = ∅ ∧ (∀ s, s ∈ sockets l → accepted l = Some s) ∧
  ∀ l', lifeStep l LTrack = Some l' → sockets l' = ∅.
Proof.
  intros H Hr. destruct (lifeRun_inv ops _ _ started_inv H) as [_ H2 _ _ H5]. destruct (H5 Hr) as [Hc He].
  assert (∀ s, s ∈ sockets l → accepted l = Some s) as Hs.
  { intros s Hs. destruct (H2 s Hs) as [[? _]|[?|(c & Hh)]]; [congruence|done|]. by rewrite He, lookup_empty in Hh. }
  split_and!; [done|done|]. intros l'. cbn [lifeStep]. destruct (accepted l) as [c|]; [|done]. rewrite Hc. intros [= <-].
  cbn. apply set_eq. intros s. rewrite elem_of_difference, elem_of_singleton. split; [|set_solver].
  intros [Hin Hne]. apply Hs in Hin. congruence.
Qed.

(** What is left to do once the relay is closed. *)
Definition rank (h : Handler) : nat :=
  match h with Serving => 4 | Dialed _ => 3 | Tunnelling _ => 3 | Leaving => 2 | Untracked => 1 end.
Definition ranks (hs : gmap nat Handler) : nat := map_fold (λ _ h n, rank h + n)%nat O hs.
Definition leftToDo (l : Life) : nat :=
  (ranks (handlers l) + (if serving l then 1 else 0) + (if closeReturned l then 0 else 1) +
   match accepted l with Some _ => 1 | None => 0 end)%nat.

Lemma ranks_lookup hs c h : hs !! c = Some h → ranks hs = (rank h + ranks (delete c hs))%nat.
Proof. intros Hc. unfold ranks. rewrite (map_fold_delete_L _ _ c h); [done|intros; lia|done]. Qed.
Lemma ranks_insert hs c h h' : hs !! c = Some h → (rank h' < rank h)%nat → (ranks (<[c := h']> hs) < ranks hs)%nat.
Proof.
  intros Hc Hlt. rewrite (ranks_lookup hs c h Hc), (ranks_lookup _ c h') by apply lookup_insert_eq.
  rewrite delete_insert_eq. lia.
Qed.

Lemma closed_step l o l' : lifeClosed l = true → lifeStep l o = Some l' →
  lifeClosed l' = true ∧ (leftToDo l' < leftToDo l)%nat.
Proof.
  intros Hc. unfold leftToDo.
  assert (∀ c h h', handlers l !! c = Some h → (rank h' < rank h)%nat → (ranks (<[c := h']> (handlers l)) < ranks (handlers l))%nat)
    as Hm by (intros c h h'; apply ranks_insert).
  destruct o as [| | |c|c|c|c|c|c| |]; cbn [lifeStep]; rewrite ?Hc, ?andb_false_r, ?andb_true_r; cbn [negb andb].
  - done.
  - destruct (accepted l); [|done]. intros [= <-]. cbn. destruct (serving l); split; [done|lia|done|lia].
  - destruct (serving l); [|done]. case_bool_decide as Ha; [|done]. intros [= <-]. cbn. rewrite Ha. split; [done|lia].
  - destruct (handlers l !! c) as [[]|] eqn:E; try done. intros [= <-]. cbn. split; [done|]. specialize (Hm _ _ (Dialed (nextConn l)) E). cbn in Hm. lia.
  - destruct (handlers l !! c) as [[]|] eqn:E; try done. intros [= <-]. unfold trackUp. rewrite Hc. cbn. split; [done|].
    specialize (Hm _ _ Leaving E). cbn in Hm. lia.
  - destruct (handlers l !! c) as [[]|] eqn:E; try done. intros [= <-]. cbn. split; [done|]. specialize (Hm _ _ Leaving E). cbn in Hm. lia.
  - destruct (handlers l !! c) as [[]|] eqn:E; try done. intros [= <-]. cbn. split; [done|]. specialize (Hm _ _ Leaving E). cbn in Hm. lia.
  - destruct (handlers l !! c) as [[]|] eqn:E; try done. intros [= <-]. cbn. split; [done|]. specialize (Hm _ _ Untracked E). cbn in Hm. lia.
  - destruct (handlers l !! c) as [[]|] eqn:E; try done. intros [= <-]. cbn. split; [done|]. rewrite (ranks_lookup _ _ _ E). cbn. lia.
  - done.
  - destruct (wg l =? 0), (closeReturned l); try done. intros [= <-]. cbn. split; [done|lia].
Qed.

(** After Close has set its flag the relay comes to rest: whatever the handlers and the
    accept loop still do is bounded, and until Close returns something can be done. *)
Theorem close_returns ops l : lifeRun relayStarted ops = Some l → lifeClosed l = true →
  (∀ more l', lifeRun l more = Some l' → (length more ≤ leftToDo l)%nat) ∧
  (closeReturned l = false → ∃ o l', lifeStep l o = Some l').
Proof.
  intros H Hc. split.
  - intros more. clear H. revert l Hc. induction more as [|o more IH]; intros l Hc l'; cbn [lifeRun length]; [lia|].
    destruct (lifeStep l o) as [l1|] eqn:E; [|done]. intros H. destruct (closed_step l o l1 Hc E) as [Hc1 Hl].
    specialize (IH l1 Hc1 l' H). lia.
  - intros Hr. destruct (lifeRun_inv ops _ _ started_inv H) as [H1 _ _ _ _].
    destruct (decide (handlers l = ∅)) as [He|(c & h & Hh)%map_choose].
    + exists LCloseReturns. eexists. cbn [lifeStep]. rewrite Hc, Hr, H1, He. reflexivity.
    + destruct h as [|up|up| |].
      * exists (LFail c). eexists. cbn [lifeStep]. by rewrite Hh.
      * exists (LTrackUp c). eexists. cbn [lifeStep]. by rewrite Hh.
      * exists (LTunnelEnds c). eexists. cbn [lifeStep]. by rewrite Hh.
      * exists (LUntrack c). eexists. cbn [lifeStep]. by rewrite Hh.
      * exists (LDone c). eexists. cbn [lifeStep]. by rewrite Hh.
Qed.

(** ** Settings *)

Lemma Index_split s sub i : Index s sub = Some i → s = take i s ++ sub ++ drop (i + length sub) s.
Proof.
  revert i. induction s as [|c s IH]; intros i; cbn [Index].
  - destruct (HasPrefix [] sub) eqn:E; [|done]. intros [= <-]. apply bool_decide_eq_true in E. rewrite take_nil in E. by subst.
  - destruct (HasPrefix (c :: s) sub) eqn:E.
    + intros [= <-]. apply bool_decide_eq_true in E. cbn [take app]. cbn [Nat.add]. rewrite <-E at 1. by rewrite take_drop.
    + destruct (Index s sub) as [j|]; [|done]. intros [= <-]. cbn. f_equal. by apply IH.
Qed.

Section Settings.
Context (Explicit : bytes → NetproxyError + bytes).

(** A setting that is accepted is [Auto], [Off] or an http(s) URL netproxy accepts, and
    normalizing it again changes nothing. *)
Theorem settings_are_stable spec v : Normalize Explicit spec = inr v →
  Normalize Explicit v = inr v ∧
  (v = Auto ∨ v = Off ∨ ∃ scheme rest shown, v = scheme ++ str "://" ++ rest ∧
     (ToLower scheme = str "http" ∨ ToLower scheme = str "https") ∧ Explicit v = inr shown).
Proof.
  unfold Normalize at 1. destruct (bool_decide (ToLower (TrimSpace spec) = []) || _) eqn:E1.
  { intros [= <-]. split; [reflexivity|by left]. }
  destruct (isOff _) eqn:E2. { intros [= <-]. split; [reflexivity|right; by left]. }
  destruct (Cut (TrimSpace spec) (str "://")) as [[scheme rest]|] eqn:Ec; [|done].
  destruct (bool_decide (ToLower scheme = _) || _) eqn:Es; [|done].
  destruct (Explicit (TrimSpace spec)) as [e|shown] eqn:Ee; [done|]. intros [= <-]. split.
  - unfold Normalize. rewrite TrimSpace_idem, E1, E2, Ec, Es, Ee. done.
  - right. right. exists scheme, rest, shown. unfold Cut in Ec. destruct (Index _ _) as [i|] eqn:Ei; [|done].
    injection Ec as <- <-. split; [by apply Index_split|]. split; [|done].
    apply orb_true_iff in Es as [Es|Es]; apply bool_decide_eq_true in Es; auto.
Qed.

(** What [Redact] shows of a setting netproxy does not parse: of the text up to the last
    '@' only what precedes the first "://". *)
Theorem redact_shows_scheme_and_host pre host :
  let s := pre ++ 64 :: host in
  TrimSpace s = s → 64 ∉ host → Contains s (str "://") = false ∨ (∃ e, Explicit s = inl e) →
  ∃ shown, Redact Explicit s = shown ++ str "***@" ++ host ∧
    (shown = [] ∨ ∃ i, Index s (str "://") = Some i ∧ (i < length pre)%nat ∧ shown = take (i + 3) s).
Proof.
  intros s Ht Hh Hx. unfold Redact. rewrite Ht.
  destruct (bool_decide (ToLower s = []) || bool_decide (ToLower s = Auto) || isOff (ToLower s)) eqn:E.
  { exfalso. assert (64 ∈ ToLower s) as Hin.
    { unfold ToLower, s. rewrite fmap_app. apply elem_of_app. right. left. }
    assert (∀ w, w ∈ [] :: Auto :: offAliases → ToLower s ≠ w) as Hw.
    { intros w Hw Hs. rewrite Hs in Hin. assert (Forall (λ w, bool_decide (64 ∈ w) = false) ([] :: Auto :: offAliases)) as Hf
        by (repeat constructor). rewrite Forall_forall in Hf. specialize (Hf w Hw). by apply bool_decide_eq_false in Hf. }
    apply orb_true_iff in E as [[E|E]%orb_true_iff|E]; apply bool_decide_eq_true in E.
    - by apply (Hw []); [left|].
    - by apply (Hw Auto); [right; left|].
    - apply (Hw (ToLower s)); [right; by right|done]. }
  assert ((if Contains s (str "://") then Explicit s else inl (mkNetproxyError [] None)) = inl (default (mkNetproxyError [] None)
    (match Explicit s with inl e => if Contains s (str "://") then Some e else None | inr _ => None end))) as ->.
  { destruct Hx as [->|[e ->]]; [by destruct (Explicit s)|by destruct (Contains _ _)]. }
  unfold s at 1. rewrite LastIndexByte_app by (by apply hasByte_false).
  replace (drop (S (length pre)) s) with host.
  2:{ unfold s. replace (S (length pre)) with (length pre + 1)%nat by lia. by rewrite <-drop_drop, drop_app_length. }
  destruct (Index s (str "://")) as [i|]; [|exists []; split; [done|by left]].
  destruct (decide (i < length pre)%nat); [|exists []; split; [done|by left]]. eexists. split; [reflexivity|]. right. exists i. by split_and!.
Qed.
End Settings.

(** ** On concrete requests *)

Module ProxyDemo.
(** A relay on 127.0.0.1:4001 whose proxy is elsewhere; base64 is left out of the text. *)
Definition relay0 : Relay :=
  mkRelay (str "127.0.0.1:4001") (str "t0k3n") (mkResolver true (λ _, inr (Some (str "http://u:p@proxy:3128")))) 0 0.
Definition connect : ConnectRequest :=
  mkConnectRequest (str "CONNECT") (str "registry:443") None (str "Basic pilot-relay:t0k3n").
Definition reached : Dialer → bytes → option TunnelError := λ _ _, None.
Definition refused : NetproxyError := mkNetproxyError (str "netproxy: no") None.

Lemma tunnels_need_the_token_witness :
  ∃ scheme cred, Cut (str "Basic pilot-relay:t0k3n") (str " ") = Some (scheme, cred) ∧
    Some (TrimSpace cred) = Some (str "pilot-relay:t0k3n").
Proof.
  destruct (tunnels_need_the_token Some reached relay0 0 (Some connect) relay0 (str "registry:443") NetproxyDialer)
    as (req & scheme & cred & Hr & _ & _ & Hc & Hd & _); [vm_compute; reflexivity|].
  injection Hr as <-. exists scheme, cred. split; [exact Hc|exact Hd].
Defined.

(** A wrong token is refused; a proxy that is the relay itself is not used. *)
Example wrong_token_is_refused :
  (handle Some reached relay0 0 (Some (mkConnectRequest (str "CONNECT") (str "registry:443") None (str "Basic pilot-relay:guess")))).2
  = RelayAnswer (writeRelayStatus 407 [] [str "Proxy-Authenticate: Basic realm=" ++ [34] ++ str "pilot-daemon" ++ [34]]).
Proof. vm_compute. reflexivity. Qed.
Example relay_does_not_loop :
  (handle Some reached (mkRelay (str "127.0.0.1:4001") (str "t0k3n") (mkResolver true (λ _, inr (Some (str "http://localhost:4001")))) 0 0)
     0 (Some connect)).2
  = RelayAnswer (writeRelayStatus 508 (str "the proxy for registry:443 is this relay") []).
Proof. vm_compute. reflexivity. Qed.

(** Close while one tunnel is open and another is being dialled. *)
Definition closing : list LifeOp :=
  [LAccept; LTrack; LDial 0; LTrackUp 0; LAccept; LTrack; LDial 2; LAccept; LClose;
   LTunnelEnds 0; LTrackUp 2; LUntrack 2; LUntrack 0; LDone 0; LDone 2; LCloseReturns].
Lemma close_leaves_nothing_witness :
  ∃ l, lifeRun relayStarted closing = Some l ∧ handlers l = ∅ ∧ ∀ s, s ∈ sockets l → accepted l = Some s.
Proof.
  destruct (lifeRun relayStarted closing) as [l|] eqn:E; [|vm_compute in E; discriminate E].
  destruct (close_leaves_nothing closing l E) as (H1 & H2 & _); [vm_compute in E; injection E as <-; reflexivity|].
  exists l. split; [reflexivity|split; [exact H1|exact H2]].
Defined.

(** A setting without a scheme whose password holds "://": the error shows the user and
    the start of the password. *)
Example redact_shows_part_of_password :
  Normalize (λ _, inl refused) (str "muse:s3://cret@proxy:3128") = inl (BadScheme (str "muse:s3://***@proxy:3128")).
Proof. vm_compute. reflexivity. Qed.
End ProxyDemo.
